(* ===== verification/_CoqProject ===== *)
-Q . S2P
Prelude.v
BTree.v
Errors.v
Regions.v
Versions.v
Http.v
Environment.v
Addr.v
AccessLog.v
ClientAuth.v
Rijndael.v
PathHealth.v
AssetJobs.v
Outbox.v
AssetDispatch.v
SingleFlight.v
ResponseCache.v
Peer.v
NodeRouting.v
Api.v
Upstream.v
GameClient.v
Accounts.v
SdkSession.v
MasterFiles.v
MasterRegistry.v
MasterHistory.v
MasterChain.v
MasterImport.v
MasterService.v
MasterSync.v
MasterAdmission.v
MasterHttp.v
HttpCompression.v
MasterBundle.v
RegistryOwner.v
MasterNotify.v
MasterExamples.v
MasterUpdate.v
UpdateExamples.v
MasterDatabase.v
DatabaseExamples.v
GitReindent.v
GitConfig.v
MasterGit.v
GitPublication.v
GitAdoption.v
GitExamples.v
ApplicationLog.v
GlobalSdk.v
GameConfig.v
Deployment.v
DeploymentExamples.v
GlobalIdentity.v
GlobalLogin.v
Bundles.v
BundleExamples.v
GlobalSnapshot.v
Bootstrap.v
BootstrapExamples.v
MasterWorkers.v
