(* ===== verification/Prelude.v ===== *)
(** Verification of the Sirius API proxy.

    The proxy answers public HTTP reads from one or more game regions.  A read
    is routed to the local game client or to a peer node, served from a response
    cache or from the game over gRPC with a leased account, and its health,
    version and login bookkeeping decide who pays for failures.  Beside the
    reads, a durable outbox dispatches asset jobs to an updater service.  Master
    data is downloaded from the game's CDN, decrypted with a Rijndael-256 cipher
    and installed as snapshots in a directory; the directory is served over
    HTTP, followed by consumers, announced to them, bundled, mirrored in a
    database and committed to a Git branch.

    * Files

    Shared:
    - [Prelude]: results and guards, machine integers, bytes and strings, JSON,
      the shared tactics and the hint database [rust].
    - [BTree]: [BTreeMap<String, _>] as a strictly sorted association list, with
      its refinement to finite maps.
    - [Errors] ([error.rs], [peer.rs]'s failures): the error enumeration, codes,
      HTTP mapping, the client-error middleware, the peer failure conversion.
    - [Regions] ([region.rs], [routes.rs]): region and platform names, the
      deprecated alias with its once-only warning, the route tables.
    - [Versions]: client versions and their ordering.
    - [Http]: responses, URLs and the bounded body read shared by the clients.
    - [Environment] ([config.rs], [transport.rs]): secrets, origins, proxy URLs.
    - [Addr]: IP addresses as the standard library reads them.

    The edges:
    - [AccessLog] ([access_log.rs]): trusted hops, the client's address, the record
      of a request.
    - [ApplicationLog] ([application_log.rs]): levels, permitted and bounded fields.
    - [HttpCompression] ([http_compression.rs]): which answers are encoded, and the
      validators of those that are.
    - [GlobalSdk] ([global_sdk.rs]): signed, form-encoded requests of the guest SDK and
      the interpretation of its answers.
    - [GlobalIdentity] ([global_account.rs], [accounts.rs]): private files, identity
      files, logins, the accounts a configuration loads.
    - [GlobalLogin] ([client.rs]'s [account_auth], [revalidate], [sdk_keepalive]): the
      logins and keepalives that share one SDK identity, as interleaving tasks.
    - [Bundles] ([protocol.rs], [client.rs]'s [reload_protocol]): the contract of a
      bundle, the compatibility of two, reloads, over the interface [Reflection].
    - [GlobalSnapshot] ([client.rs]'s [ensure_global_snapshot], [resources.rs]): the
      Global resource snapshot, built between the game's answers.
    - [Bootstrap] ([global_account.rs]): the creation of a guest identity as
      interleaving runs over their identity files and markers.
    - [GameConfig] ([config.rs] and the sections of the components): the validation
      of a region's configuration.
    - [Deployment] ([deployment.rs], the workers' [validate_tokens]): the region map,
      the validation of a deployment, the separation of credentials before start.

    The public reads:
    - [ClientAuth] ([client_auth.rs]): client tokens and the decision cache.
    - [PathHealth] ([path_health.rs]): streaks, attribution, probes; an abstract
      streak specification and the refinement to it.
    - [SingleFlight] ([single_flight.rs]): shared executions as a step relation.
    - [ResponseCache] ([response_cache.rs]): both backends; the memory backend as
      a step relation over lock-delimited steps.
    - [Peer] ([peer.rs], [peer_transport.rs]): the executor's handler and the
      caller's single attempt; the interface [PeerGame] to the game client.
    - [NodeRouting] ([node_routing.rs]): target order, health and failover.
    - [Api] ([api.rs]): the operation handlers with their validation.
    - [Upstream] ([config.rs]'s upstream policy, [client.rs]'s version state,
      request headers, gRPC answers and retry loop, [resources.rs]'s release
      selection, [protocol.rs]'s codecs).
    - [GameClient] ([client.rs]'s [call_selected] and [call_admitted]): a logical
      call as a program that its deadline may cut at any await; discharges
      [PeerGame].
    - [Accounts] ([accounts.rs], [global_account.rs]'s login limits): health,
      signals, selection, leases, revocation.
    - [SdkSession] ([sdk_session.rs]): the SDK session of one identity, the state
      file that processes share and the merge between them.

    Asset jobs:
    - [AssetJobs] ([asset_jobs.rs]): the client of the updater's job contract.
    - [Outbox] ([asset_outbox.rs]): the ledger, every operation with every
      outcome of its file operations, and the disk it leaves behind.
    - [AssetDispatch] ([asset_dispatch.rs], [asset_dispatch_admin.rs]): the
      reconcile pass over the outbox, refusal counters, admin summary and pages.

    Master data:
    - [Rijndael] ([rijndael.rs]): the decryption as written, and the forward
      cipher of the specification that it inverts.
    - [MasterFiles] ([master.rs]): names, bounded reads, manifests, the table
      decoder; the directory as a tree of named nodes.
    - [MasterRegistry], [MasterHistory] ([master_registry.rs]): indexes, published
      manifests, pinned reads; the chain of publications, pages and retention.
    - [MasterChain]: stores of a chain, and readers that interleave with a
      retention pass.
    - [MasterImport] ([master.rs]): imports, registry transfers and publication
      as sequences of directories, stopped after any of them.
    - [MasterService]: what a directory serves and the invariant of every
      directory the program may reach.
    - [MasterSync] ([master_sync.rs]): the consumer's update from an owner.
    - [MasterUpdate] ([master_update.rs], [client.rs]'s target): the update from
      the game's CDN with its network policy and retries.
    - [MasterAdmission] ([master_admission.rs]): the gate of table reads.
    - [MasterHttp] ([registry_service.rs], [api.rs]): the routes that serve a
      directory, and the service as an owner of [MasterSync].
    - [MasterBundle] ([master_bundle.rs]): verified archives and their routes.
    - [RegistryOwner] ([registry_owner.rs]): hints, requests and the owner's loop.
    - [MasterNotify] ([master_notify.rs]): targets, delivery and reconciliation.
    - [MasterDatabase] ([master_database.rs]): the tables, publication, migration
      and reads of the database mirror.
    - [GitReindent], [GitConfig] ([master_git.rs], [master_git_worker.rs]): re-indented
      tables; options, commit policy, remotes and credentials.
    - [MasterGit], [GitPublication], [GitAdoption] ([master_git.rs]): the state
      directory and the Git commands over the interface [Git]; publication; adoption
      of a remote branch.
    - [MasterWorkers] ([master_git_worker.rs], [master_database_worker.rs]): the
      publishing workers' rounds, reports and loop as a step relation.
    - [MasterExamples], [UpdateExamples], [DatabaseExamples], [GitExamples],
      [DeploymentExamples], [BootstrapExamples], [BundleExamples]: concrete codecs,
      directories, services, databases, repositories, configurations and descriptors
      at which the theorems are applied.

    * What is shown

    - The cipher: [decrypt] accepts exactly the encryptions of padded plaintexts
      under the forward cipher, for every key and IV; the table decoder accepts
      exactly the encrypted members its manifest entry describes.
    - The outbox: an invariant that every operation keeps under every failure of
      its file operations, restart equivalence, the lifecycle of entries, that a
      completed entry is never submitted again, fair batches and archive retry.
    - Dispatch: posts follow a durable sending state, each entry moves as the
      answers to its own requests prescribe, refusal counters are bounded, pages
      list every entry.
    - Peers and routing: an authenticated read is executed by at most one node.
      [GameClient] proves that the refusals peers rely on precede any use of the account,
      [Peer] that what the transport takes as proof of non-execution is one over
      any network behaviour, [NodeRouting] that failover then never replays.
    - Concurrency: flights, cache, path health, node health, decision cache and
      admission are step relations whose invariants are proved by induction on
      reachability.
    - Upstream: gRPC framing is exact, credentials go only with authenticated
      routes, retries and sleeps are bounded, version refreshes follow the policy.
    - Accounts: charges of a streak attributed to the path are withdrawn exactly,
      selection leases the least active available account, logins keep their
      interval and daily cap.
    - Guests: at most one guest is created for an identity file, of the creating run's
      device and the answer it got, however runs interleave, fail or stop; a form reads
      back as its parameters.
    - SDK sessions: a restart reuses exactly what the file may carry over, and a
      newer refusal of another process is never overwritten; at most one login of an
      identity is under way, and none repeats one it waited for.
    - Protocols: the compatibility check accepts exactly the extensions of every type
      that the routes reach, and reloads only extend.
    - Snapshots: a Global snapshot is of the version last announced, with a hash that
      only the configured root is asked for.
    - Clients: a token is accepted exactly when it is signed, current and bounded;
      an approval is never used past its life; a request passes with exactly one
      credential; a handler asks exactly what the peer contract allows.
    - Directories: whatever stops a writer, a reachable directory serves one
      intact snapshot; retention keeps its window while readers page through the
      history, up to the limit of their walk; imports, CDN updates and registry transfers install exactly what
      was verified.
    - Consumers: a consumer of a service ends with the service's content, hints
      wake exactly their consumer, requests to the owner's loop are not lost and a refresh
      is put off only for publications that were requested.
    - The database: a publication is all or nothing under any interruption, what
      is current is always readable, reads verify what they answer, repeated
      publications and migrations change nothing.
    - Git: where no branch lies below the configured one, a publication only appends to
      its branch and an adoption only moves it forward to a branch that holds a
      publication of the scope, whatever command fails;
      re-indenting changes nothing but white space; an announced snapshot is always
      followed by a whole round of each publishing worker.
    - Edges: no value serves in two roles that must be apart once the startup checks
      pass, an accepted configuration stays within its region, a client cannot spoof
      the address a trusted hop reports, log lines carry bounded permitted fields, an
      encoded answer revalidates.

    * Conventions

    Integers are [Z] with the source's saturation and bounds written out;
    instants and durations are nanoseconds.  Early returns are the bind of
    [result].  Code outside the repository (serde, URL, UUID, semver and SHA-256
    crates, generated codecs, the HTTP client, Redis, PostgreSQL's clock and
    collation) is a parameter; what is assumed of it is a named hypothesis:
    codecs that read back what they wrote ([Outbox]'s codec record,
    [ResponseCache.put_then_get], [MasterCodecsOk]), a connection error reported
    only when nothing was delivered ([Peer.delivery]), a generated decoder that
    fails only as a protocol error ([GameClient]), text ordered by its bytes
    ([MasterDatabase], repetition only), Git commands that do what their manual says
    when they answer ([GitOk]), an encoding layer that leaves the status and the
    validators alone ([layer_ok]), descriptor pools in which names and numbers find
    what they name ([pool_laws]).  File and network outcomes are
    arguments, so every theorem quantifies over them.  Poisoned locks are not
    modelled.

    Recursion is structural.  Where the source loops until an answer, the model
    recurses on the list of what the loop may meet ([Upstream.execute]) or on
    the attempts that are left ([MasterUpdate.download_from]) and totality is
    part of the theorem; [ResponseCache.key_chunks] takes the number of keys as
    fuel, which covers them all; [dec_digits] prints at most twenty digits, which
    hold every [u64]; a walk of the chain takes the source's own limit of 10,000
    snapshots, after which it is the source's limit error; the walk over descriptors takes one turn for each type pending and
    each field of the pool, proved enough; re-indenting takes the length of its input and chunks take the
    number of files, both proved enough.  The 64 first parents of an adoption are the
    source's own limit.

    * Not modelled

    Sockets, TLS handshakes, PEM files and the assembly of routers and tasks: input
    and output around what is modelled.  The extraction and routing of the HTTP
    framework, deserialization, compilation of .proto sources and generated codecs:
    code of libraries.  The start, limits and end of Git's process: operating system
    control; its outcomes are the arguments of [Git].  Background refreshes of
    cached answers, status documents and the command line.  Timers appear only as
    the interleavings they allow. *)
From Stdlib Require Import ZArith Lia Ascii String List Bool.
From stdpp Require Import base list strings decidable.

Set Default Proof Using "Type".

Declare Scope rust_scope.
Delimit Scope rust_scope with rust.

(** * Results

    [Result<A, E>] of the source.  Early returns ([?]) are the bind of this
    monad. *)
Inductive result (E A : Type) : Type :=
| Ok (a : A)
| Err (e : E).
Arguments Ok {E A} a.
Arguments Err {E A} e.

Definition rbind {E A B} (m : result E A) (k : A -> result E B) : result E B :=
  match m with
  | Ok a => k a
  | Err e => Err e
  end.

Definition rmap {E A B} (f : A -> B) (m : result E A) : result E B :=
  match m with
  | Ok a => Ok (f a)
  | Err e => Err e
  end.

(** [if !cond { return Err(e) }]: the guard of a validator. *)
Definition ensure {E} (b : bool) (e : E) : result E unit :=
  if b then Ok tt else Err e.

(** [Option::ok_or]. *)
Definition ok_or {E A} (o : option A) (e : E) : result E A :=
  match o with
  | Some a => Ok a
  | None => Err e
  end.

(** [Option::is_none], [is_some], [is_some_and] and [is_none_or]. *)
Definition is_none {A} (o : option A) : bool := match o with None => true | _ => false end.
Definition is_some {A} (o : option A) : bool := match o with None => false | _ => true end.
Definition some_and {A} (o : option A) (f : A -> bool) : bool :=
  match o with Some a => f a | None => false end.
Definition none_or {A} (o : option A) (f : A -> bool) : bool :=
  match o with Some a => f a | None => true end.

Definition is_ok {E A} (m : result E A) : bool :=
  match m with Ok _ => true | Err _ => false end.

Notation "x '<-?' m ';;' k" := (rbind m (fun x => k))
  (at level 80, m at level 75, k at level 200, right associativity) : rust_scope.
Notation "'guard?' b 'else' e ';;' k" := (rbind (ensure b e) (fun _ => k))
  (at level 80, b at level 75, e at level 75, k at level 200, right associativity) : rust_scope.
Notation "a '&&!' b" := (a && negb b) (at level 40, left associativity) : rust_scope.

(** * Machine integers *)

Definition U8_MAX : Z := 255.
Definition U16_MAX : Z := 65535.
Definition U32_MAX : Z := 4294967295.
Definition U64_MAX : Z := 18446744073709551615.
Definition I64_MAX : Z := 9223372036854775807.

(** [saturating_add] and [saturating_sub] of an unsigned width. *)
Definition sat_add (max a b : Z) : Z := Z.min max (a + b).
Definition sat_sub (a b : Z) : Z := Z.max 0 (a - b).
Definition sat_mul (max a b : Z) : Z := Z.min max (a * b).

(** Durations and instants are nanoseconds. *)
Definition from_millis (n : Z) : Z := n * 1000000.
Definition from_secs (n : Z) : Z := n * 1000000000.

(** [(a..=b).contains(&x)]. *)
Definition in_range (a b x : Z) : bool := (a <=? x)%Z && (x <=? b)%Z.

(** * Bytes and strings *)

Definition byte_of (c : ascii) : Z := Z.of_nat (nat_of_ascii c).

Definition is_ascii_digit (c : ascii) : bool := in_range 48 57 (byte_of c).
Definition is_ascii_upper (c : ascii) : bool := in_range 65 90 (byte_of c).
Definition is_ascii_lower (c : ascii) : bool := in_range 97 122 (byte_of c).
Definition is_ascii_alphanumeric (c : ascii) : bool :=
  is_ascii_digit c || is_ascii_upper c || is_ascii_lower c.
Definition is_ascii_hexdigit (c : ascii) : bool :=
  is_ascii_digit c || in_range 65 70 (byte_of c) || in_range 97 102 (byte_of c).
Definition is_ascii_graphic (c : ascii) : bool := in_range 33 126 (byte_of c).
Definition is_ascii_control (c : ascii) : bool :=
  in_range 0 31 (byte_of c) || (byte_of c =? 127)%Z.
Definition char_is (b : Z) (c : ascii) : bool := (byte_of c =? b)%Z.

Definition len (s : string) : Z := Z.of_nat (String.length s).
Definition is_empty (s : string) : bool :=
  match s with EmptyString => true | _ => false end.

Fixpoint all_bytes (f : ascii -> bool) (s : string) : bool :=
  match s with
  | EmptyString => true
  | String c s' => f c && all_bytes f s'
  end.

Definition any_byte (f : ascii -> bool) (s : string) : bool :=
  negb (all_bytes (fun c => negb (f c)) s).

(** [str::starts_with], [str::ends_with] and [str::contains] on a pattern
    string. *)
Definition starts_with (s pat : string) : bool := String.prefix pat s.
Fixpoint ends_with (s pat : string) : bool :=
  String.eqb s pat ||
  match s with
  | EmptyString => false
  | String _ s' => ends_with s' pat
  end.
Fixpoint str_contains (s pat : string) : bool :=
  String.prefix pat s ||
  match s with
  | EmptyString => false
  | String _ s' => str_contains s' pat
  end.

(** [str::strip_prefix]. *)
Fixpoint strip_prefix (s pat : string) {struct pat} : option string :=
  match pat, s with
  | EmptyString, _ => Some s
  | String p pat', String c s' =>
      if Ascii.eqb p c then strip_prefix s' pat' else None
  | String _ _, EmptyString => None
  end.

(** [str::split] on one character. *)
Fixpoint split_on (sep : ascii) (s : string) : list string :=
  match s with
  | EmptyString => [""%string]
  | String c s' =>
      if Ascii.eqb c sep then ""%string :: split_on sep s'
      else match split_on sep s' with
           | [] => [String c ""]
           | w :: ws => String c w :: ws
           end
  end.

(** The bytes of a string and back. *)
Fixpoint bytes_of (s : string) : list Z :=
  match s with
  | EmptyString => []
  | String c s' => byte_of c :: bytes_of s'
  end.

(** Decimal printing of an unsigned integer ([to_string]). *)
Definition digit_char (d : Z) : ascii := ascii_of_nat (48 + Z.to_nat d).
Fixpoint dec_digits (fuel : nat) (n : Z) (acc : string) : string :=
  match fuel with
  | O => acc
  | S f =>
      let acc' := String (digit_char (n mod 10)) acc in
      if (n <? 10)%Z then acc' else dec_digits f (n / 10) acc'
  end.
(** Twenty digits hold every [u64]. *)
Definition u64_to_string (n : Z) : string := dec_digits 20 n "".

(** * JSON values

    [serde_json::Value] as the source builds it: numbers are the integers the
    code serializes, and an object keeps its fields in the order the code
    writes them. *)
Inductive json : Type :=
| JNull
| JBool (b : bool)
| JNum (n : Z)
| JStr (s : string)
| JArr (l : list json)
| JObj (fields : list (string * json)).

Definition json_field (k : string) (v : json) : option json :=
  match v with
  | JObj fs => option_map snd (List.find (fun kv => String.eqb (fst kv) k) fs)
  | _ => None
  end.
Definition json_str (v : json) : option string :=
  match v with JStr s => Some s | _ => None end.
Definition json_num (v : json) : option Z :=
  match v with JNum n => Some n | _ => None end.
(** [object.remove(k)]; [as_object_mut] is [None] on anything but an object. *)
Definition json_remove (k : string) (v : json) : json :=
  match v with
  | JObj fs => JObj (List.filter (fun kv => negb (String.eqb (fst kv) k)) fs)
  | _ => v
  end.

Fixpoint json_eqb (a b : json) : bool :=
  match a, b with
  | JNull, JNull => true
  | JBool a, JBool b => Bool.eqb a b
  | JNum a, JNum b => (a =? b)%Z
  | JStr a, JStr b => String.eqb a b
  | JArr a, JArr b =>
      (fix go a b := match a, b with
                     | [], [] => true
                     | x :: a, y :: b => json_eqb x y && go a b
                     | _, _ => false
                     end) a b
  | JObj a, JObj b =>
      (fix go a b := match a, b with
                     | [], [] => true
                     | (k, x) :: a, (l, y) :: b => String.eqb k l && json_eqb x y && go a b
                     | _, _ => false
                     end) a b
  | _, _ => false
  end.

(** Induction that reaches into arrays and objects. *)
Section json_ind.
Context (P : json -> Prop) (Hnull : P JNull) (Hbool : forall b, P (JBool b)) (Hnum : forall n, P (JNum n)) (Hstr : forall s, P (JStr s))
  (Harr : forall l, Forall P l -> P (JArr l)) (Hobj : forall fs, Forall (fun kv => P (snd kv)) fs -> P (JObj fs)).
Fixpoint json_nested (v : json) : P v :=
  match v with
  | JNull => Hnull
  | JBool b => Hbool b
  | JNum n => Hnum n
  | JStr s => Hstr s
  | JArr l => Harr l ((fix go l := match l return Forall P l with [] => Forall_nil_2 P | v :: l => Forall_cons_2 P v l (json_nested v) (go l) end) l)
  | JObj fs => Hobj fs ((fix go fs := match fs return Forall (fun kv => P (snd kv)) fs with
                                      | [] => Forall_nil_2 _
                                      | kv :: fs => Forall_cons_2 _ kv fs (json_nested (snd kv)) (go fs)
                                      end) fs)
  end.
End json_ind.

Lemma json_eqb_refl v : json_eqb v v = true.
Proof.
  induction v as [|b|n|s|l IH|fs IH] using json_nested; cbn; [done|by destruct b|apply Z.eqb_refl|apply String.eqb_refl| |].
  - induction IH as [|v l Hv _ IH]; [done|]. by rewrite Hv.
  - induction IH as [|[k v] fs Hv _ IH]; [done|]. cbn in Hv. by rewrite String.eqb_refl, Hv.
Qed.

(** * Automation *)

(** Case analysis on the scrutinee of a [match] or [if] in the goal or in a
    hypothesis, keeping the equation. *)
Ltac case_match_eq :=
  match goal with
  | |- context [match ?x with _ => _ end] => destruct x eqn:?
  | H : context [match ?x with _ => _ end] |- _ => destruct x eqn:?
  end.

(** Turns boolean hypotheses and goals into propositions. *)
Ltac bool_prop :=
  unfold in_range in *;
  repeat match goal with
  | H : _ && _ = true |- _ => apply andb_true_iff in H; destruct H
  | H : _ && _ = false |- _ => apply andb_false_iff in H
  | H : _ || _ = true |- _ => apply orb_true_iff in H
  | H : _ || _ = false |- _ => apply orb_false_iff in H; destruct H
  | H : negb _ = true |- _ => apply negb_true_iff in H
  | H : negb _ = false |- _ => apply negb_false_iff in H
  | H : (_ <=? _)%Z = true |- _ => apply Z.leb_le in H
  | H : (_ <=? _)%Z = false |- _ => apply Z.leb_gt in H
  | H : (_ <? _)%Z = true |- _ => apply Z.ltb_lt in H
  | H : (_ <? _)%Z = false |- _ => apply Z.ltb_ge in H
  | H : (_ =? _)%Z = true |- _ => apply Z.eqb_eq in H
  | H : (_ =? _)%Z = false |- _ => apply Z.eqb_neq in H
  | H : String.eqb _ _ = true |- _ => apply String.eqb_eq in H
  | H : String.eqb _ _ = false |- _ => apply String.eqb_neq in H
  | H : bool_decide _ = true |- _ => apply bool_decide_eq_true_1 in H
  | H : bool_decide _ = false |- _ => apply bool_decide_eq_false_1 in H
  end.

(** Inverts the [Ok] equation of a chain of guards. *)
Ltac inv_ok :=
  repeat match goal with
  | H : rbind (ensure ?b _) _ = Ok _ |- _ =>
      destruct b eqn:?; cbn [rbind ensure] in H; [| discriminate H]
  | H : rbind ?m _ = Ok _ |- _ =>
      destruct m eqn:?; cbn [rbind] in H; [| discriminate H]
  | H : ensure ?b _ = Ok _ |- _ =>
      destruct b eqn:?; cbn [ensure] in H; [| discriminate H]
  | H : Ok _ = Ok _ |- _ => injection H as H
  | H : Err _ = Ok _ |- _ => discriminate H
  end.

#[global] Arguments String.append !_ _ /.

Create HintDb rust discriminated.

(** * Shared lemmas *)

Lemma rbind_ok {E A B} (m : result E A) (k : A -> result E B) b :
  rbind m k = Ok b <-> exists a, m = Ok a /\ k a = Ok b.
Proof. destruct m; cbn; naive_solver. Qed.

Lemma ensure_ok {E} b (e : E) : ensure b e = Ok tt <-> b = true.
Proof. destruct b; cbn; naive_solver. Qed.

Lemma ensure_err {E} b (e e' : E) : ensure b e = Err e' <-> b = false /\ e = e'.
Proof. destruct b; cbn; naive_solver. Qed.

Lemma in_range_spec a b x : in_range a b x = true <-> (a <= x <= b)%Z.
Proof. unfold in_range. rewrite andb_true_iff, !Z.leb_le. tauto. Qed.

Lemma sat_add_bounds max a b :
  (0 <= a -> 0 <= b -> 0 <= max -> 0 <= sat_add max a b <= max)%Z.
Proof. unfold sat_add. lia. Qed.

Lemma sat_sub_nonneg a b : (0 <= sat_sub a b)%Z.
Proof. unfold sat_sub. lia. Qed.

Lemma all_bytes_spec f s :
  all_bytes f s = true <-> Forall (fun c => f c = true) (list_ascii_of_string s).
Proof.
  induction s as [|c s IH]; cbn; [split; auto|].
  rewrite andb_true_iff, Forall_cons_iff, IH. reflexivity.
Qed.

Lemma all_bytes_app f a b : all_bytes f (a ++ b) = all_bytes f a && all_bytes f b.
Proof. induction a as [|c a IH]; cbn; [done|]. by rewrite IH, andb_assoc. Qed.

Lemma byte_of_bounds c : (0 <= byte_of c < 256)%Z.
Proof. unfold byte_of. pose proof (nat_ascii_bounded c). lia. Qed.

Lemma bytes_of_bounds s : Forall (fun b => 0 <= b < 256)%Z (bytes_of s).
Proof. induction s; constructor; auto using byte_of_bounds. Qed.

Lemma bytes_of_length s : Z.of_nat (length (bytes_of s)) = len s.
Proof. unfold len. induction s; cbn [bytes_of length String.length]; lia. Qed.

Lemma byte_of_inj c d : byte_of c = byte_of d -> c = d.
Proof.
  unfold byte_of. intros H%Nat2Z.inj.
  rewrite <- (ascii_nat_embedding c), <- (ascii_nat_embedding d). congruence.
Qed.

Lemma bytes_of_inj s t : bytes_of s = bytes_of t -> s = t.
Proof.
  revert t. induction s as [|c s IH]; intros [|d t]; cbn; try discriminate; auto.
  intros [= H1 H2]. f_equal; auto using byte_of_inj.
Qed.

Lemma len_nonneg s : (0 <= len s)%Z.
Proof. unfold len. lia. Qed.

Lemma is_empty_len s : is_empty s = true <-> len s = 0%Z.
Proof. destruct s; cbn; unfold len; cbn; split; auto; try discriminate; lia. Qed.

Lemma strip_prefix_spec s pat rest :
  strip_prefix s pat = Some rest <-> s = (pat ++ rest)%string.
Proof.
  revert s. induction pat as [|p pat IH]; intros s; cbn.
  { split; congruence. }
  destruct s as [|c s]; [split; discriminate|].
  destruct (Ascii.eqb_spec p c) as [->|Hne]; [rewrite IH|]; split; congruence.
Qed.

Lemma ends_with_spec s pat :
  ends_with s pat = true <-> exists p, s = (p ++ pat)%string.
Proof.
  induction s as [|c s IH]; cbn [ends_with]; rewrite orb_true_iff, String.eqb_eq.
  - split; [intros [<-|]; [exists ""%string; auto|discriminate]|].
    intros [[|] ?]; cbn in *; [auto|discriminate].
  - rewrite IH. split.
    + intros [<-|[p ->]]; [exists ""%string; auto|exists (String c p); auto].
    + intros [[|d p] H]; cbn in H; [auto|]. injection H as <- ->. eauto.
Qed.

Lemma last_cons_default {A} (x d : A) l : List.last (x :: l) d = List.last l x.
Proof.
  revert x d. induction l as [|y l IH]; intros x d; [done|].
  transitivity (List.last (y :: l) d); [done|]. by rewrite !IH.
Qed.

Lemma all_bytes_impl (f g : ascii -> bool) s :
  (forall c, f c = true -> g c = true) -> all_bytes f s = true -> all_bytes g s = true.
Proof. intros Hfg. rewrite !all_bytes_spec. apply List.Forall_impl. exact Hfg. Qed.
Lemma append_length (s t : string) : String.length (s ++ t) = (String.length s + String.length t)%nat.
Proof. induction s as [|c s IH]; cbn; [done|]. by rewrite IH. Qed.

Lemma append_empty (s : string) : (s ++ "")%string = s.
Proof. induction s as [|c s IH]; cbn; [done|]. by rewrite IH. Qed.
Lemma append_assoc (a b c : string) : ((a ++ b) ++ c)%string = (a ++ b ++ c)%string.
Proof. induction a as [|x a IH]; cbn; [done|]. by rewrite IH. Qed.
Lemma bytes_of_app a b : bytes_of (a ++ b) = (bytes_of a ++ bytes_of b)%list.
Proof. induction a as [|x a IH]; cbn; [done|]. by rewrite IH. Qed.

(** [iter().map(f).collect::<Option<Vec<_>>>()]. *)
Fixpoint try_map {A B} (f : A -> option B) (l : list A) : option (list B) :=
  match l with
  | [] => Some []
  | a :: l => match f a with Some b => option_map (cons b) (try_map f l) | None => None end
  end.
Lemma try_map_ok {A B} (f : A -> option B) l r : try_map f l = Some r <-> Forall2 (fun a b => f a = Some b) l r.
Proof.
  revert r. induction l as [|a l IH]; intros r; cbn.
  - split; [intros [= <-]; constructor|]. by inversion 1.
  - destruct (f a) as [b|] eqn:E.
    + destruct (try_map f l) as [bs|]; cbn; split.
      * intros [= <-]. constructor; [done|]. by apply IH.
      * inversion 1 as [|? y ? l' Hy Hl]; subst. apply IH in Hl. congruence.
      * done.
      * inversion 1 as [|? y ? l' Hy Hl]; subst. apply IH in Hl. congruence.
    + split; [done|]. inversion 1; congruence.
Qed.
Lemma try_map_app {A B} (f : A -> option B) l1 l2 :
  try_map f (l1 ++ l2) = match try_map f l1, try_map f l2 with Some r1, Some r2 => Some (r1 ++ r2) | _, _ => None end.
Proof.
  induction l1 as [|a l1 IH]; cbn; [by destruct (try_map f l2)|]. destruct (f a) as [b|]; [|done]. rewrite IH.
  destruct (try_map f l1), (try_map f l2); done.
Qed.

(** Splitting what does not hold the separator, and what joins parts with it. *)
Definition without (sep : ascii) (s : string) : bool := all_bytes (fun c => negb (Ascii.eqb c sep)) s.

Lemma split_on_none sep s : without sep s = true -> split_on sep s = [s].
Proof.
  induction s as [|c s IH]; [done|]. unfold without. cbn. intros Hs. apply andb_true_iff in Hs as [Hc Hs]. apply negb_true_iff in Hc.
  by rewrite Hc, (IH Hs).
Qed.
Lemma split_on_join sep a b : split_on sep (a ++ String sep b) = split_on sep a ++ split_on sep b.
Proof.
  induction a as [|c a IH]; cbn; [by rewrite Ascii.eqb_refl|]. rewrite IH. destruct (Ascii.eqb c sep); [done|].
  assert (Hne : split_on sep a <> []) by (destruct a as [|d a]; cbn; [done|]; destruct (Ascii.eqb d sep); [done|]; by destruct (split_on sep a)).
  by destruct (split_on sep a).
Qed.
Lemma split_on_app sep a b : without sep a = true -> split_on sep (a ++ String sep b) = a :: split_on sep b.
Proof.
  induction a as [|c a IH]; unfold without; cbn; [intros _; by rewrite Ascii.eqb_refl|].
  intros Hs. apply andb_true_iff in Hs as [Hc Hs]. apply negb_true_iff in Hc. by rewrite Hc, (IH Hs).
Qed.

#[export] Hint Resolve len_nonneg byte_of_bounds sat_sub_nonneg : rust.
#[export] Hint Rewrite @rbind_ok @ensure_ok @ensure_err in_range_spec : rust.
