(* ===== verification/BTree.v ===== *)
(** Ordered maps with string keys: the [BTreeMap<String, V>] of the Rust
    standard library as the source uses it.

    A map is an association list whose keys increase strictly in the byte
    order of the keys, so that iteration, [pop_first] and the rotation over a
    cursor see the order the source sees.  The lemmas relate every operation to
    the corresponding operation of a finite map ([gmap]). *)
From Stdlib Require Import ZArith Lia Ascii String List Bool Sorted.
From stdpp Require Import base list strings decidable gmap fin_maps.
From S2P Require Import Prelude.

Local Open Scope Z_scope.

(** * The byte order of strings *)

Definition slt (a b : string) : Prop := String.compare a b = Lt.
Definition sltb (a b : string) : bool :=
  match String.compare a b with Lt => true | _ => false end.
Definition sleb (a b : string) : bool := negb (sltb b a).

Lemma ascii_compare_trans a b c :
  Ascii.compare a b = Lt -> Ascii.compare b c = Lt -> Ascii.compare a c = Lt.
Proof. unfold Ascii.compare. rewrite !N.compare_lt_iff. lia. Qed.

Lemma ascii_compare_eq a b : Ascii.compare a b = Eq <-> a = b.
Proof.
  split; [apply Ascii.compare_eq_iff|intros ->].
  unfold Ascii.compare. apply N.compare_refl.
Qed.

Lemma string_compare_refl s : String.compare s s = Eq.
Proof.
  induction s as [|c s IH]; cbn; [done|].
  by rewrite (proj2 (ascii_compare_eq c c) eq_refl).
Qed.

Lemma slt_irrefl a : ~ slt a a.
Proof. unfold slt. rewrite string_compare_refl. discriminate. Qed.

Lemma slt_trans a b c : slt a b -> slt b c -> slt a c.
Proof.
  unfold slt. revert b c.
  induction a as [|x a IH]; intros [|y b] [|z c]; cbn; try discriminate; auto.
  destruct (Ascii.compare x y) eqn:Hxy; try discriminate;
    destruct (Ascii.compare y z) eqn:Hyz; try discriminate; intros H1 H2.
  - apply ascii_compare_eq in Hxy as ->. rewrite Hyz. eauto.
  - apply ascii_compare_eq in Hxy as ->. by rewrite Hyz.
  - apply ascii_compare_eq in Hyz as ->. by rewrite Hxy.
  - by rewrite (ascii_compare_trans _ _ _ Hxy Hyz).
Qed.

Lemma slt_trichotomy a b : slt a b \/ a = b \/ slt b a.
Proof.
  unfold slt. destruct (String.compare a b) eqn:E; auto.
  - right; left. by apply String.compare_eq_iff.
  - right; right. rewrite String.compare_antisym, E. done.
Qed.

Lemma sltb_spec a b : sltb a b = true <-> slt a b.
Proof. unfold sltb, slt. destruct (String.compare a b); split; congruence. Qed.

Lemma sltb_false a b : sltb a b = false <-> a = b \/ slt b a.
Proof.
  rewrite <- not_true_iff_false, sltb_spec. split.
  - destruct (slt_trichotomy a b) as [|[|]]; tauto.
  - intros [->|H] H'; [by eapply slt_irrefl|].
    by eapply slt_irrefl, slt_trans.
Qed.

#[export] Instance slt_transitive : Transitive slt := slt_trans.
#[export] Hint Resolve slt_trans : rust.

(** * Maps *)

Section btree.
Context {V : Type}.

Definition bmap := list (string * V).

Fixpoint get (k : string) (m : bmap) : option V :=
  match m with
  | [] => None
  | (k', v) :: m' => if String.eqb k k' then Some v else get k m'
  end.

Definition contains_key (k : string) (m : bmap) : bool :=
  match get k m with Some _ => true | None => false end.

Fixpoint insert (k : string) (v : V) (m : bmap) : bmap :=
  match m with
  | [] => [(k, v)]
  | (k', v') :: m' =>
      match String.compare k k' with
      | Lt => (k, v) :: m
      | Eq => (k, v) :: m'
      | Gt => (k', v') :: insert k v m'
      end
  end.

Fixpoint remove (k : string) (m : bmap) : bmap :=
  match m with
  | [] => []
  | (k', v') :: m' => if String.eqb k k' then m' else (k', v') :: remove k m'
  end.

Definition pop_first (m : bmap) : option ((string * V) * bmap) :=
  match m with
  | [] => None
  | e :: m' => Some (e, m')
  end.

Definition size (m : bmap) : Z := Z.of_nat (length m).

(** Keys increase strictly. *)
Definition sorted (m : bmap) : Prop := StronglySorted slt (map fst m).

(** The finite map an ordered map stands for. *)
Definition to_gmap (m : bmap) : gmap string V := list_to_map m.

Lemma sorted_cons k v m :
  sorted ((k, v) :: m) <-> Forall (slt k) (map fst m) /\ sorted m.
Proof.
  unfold sorted; cbn. split.
  - intros H; inversion H; subst; auto.
  - intros []; constructor; auto.
Qed.

Lemma sorted_nil : sorted [].
Proof. constructor. Qed.

Lemma sorted_nodup m : sorted m -> NoDup (map fst m).
Proof.
  induction m as [|[k v] m IH]; [constructor|].
  rewrite sorted_cons. intros [Hk Hm]. cbn. constructor; [|auto].
  intros Hin%list_elem_of_In. rewrite List.Forall_forall in Hk.
  by eapply slt_irrefl, Hk.
Qed.

Lemma Forall_slt_insert k0 k v m :
  slt k0 k -> Forall (slt k0) (map fst m) -> Forall (slt k0) (map fst (insert k v m)).
Proof.
  intros Hk. induction m as [|[k' v'] m IH]; cbn; [auto|].
  intros H; inversion H; subst. destruct (String.compare k k'); cbn; auto.
Qed.

Lemma insert_sorted k v m : sorted m -> sorted (insert k v m).
Proof.
  induction m as [|[k' v'] m IH]; cbn [insert].
  - intros _. apply sorted_cons. split; [constructor|apply sorted_nil].
  - intros H. pose proof H as [Hk Hm]%sorted_cons.
    destruct (String.compare k k') eqn:E.
    + apply String.compare_eq_iff in E as ->. by apply sorted_cons.
    + apply sorted_cons; split; [|done]. cbn. constructor; [done|].
      eapply Forall_impl; [apply Hk|]. intros ? ?; eapply slt_trans; eauto.
    + apply sorted_cons. split; [|auto]. apply Forall_slt_insert; [|done].
      unfold slt. by rewrite String.compare_antisym, E.
Qed.

Lemma remove_keys_subset k m : incl (map fst (remove k m)) (map fst m).
Proof.
  induction m as [|[k' v'] m IH]; cbn; [easy|].
  destruct (String.eqb k k'); cbn; intros x Hx; [by right|].
  destruct Hx as [->|Hx]; [by left|]. right. by apply IH.
Qed.

Lemma remove_sorted k m : sorted m -> sorted (remove k m).
Proof.
  induction m as [|[k' v'] m IH]; [done|].
  intros [Hk Hm]%sorted_cons. cbn. destruct (String.eqb k k'); [done|].
  apply sorted_cons; split; [|auto].
  rewrite List.Forall_forall in Hk |- *. intros x Hx. apply Hk.
  by apply (remove_keys_subset k).
Qed.

Lemma get_insert k k' v m :
  sorted m -> get k' (insert k v m) = if String.eqb k' k then Some v else get k' m.
Proof.
  induction m as [|[k0 v0] m IH]; [done|].
  intros [Hk Hm]%sorted_cons. cbn.
  destruct (String.compare k k0) eqn:E.
  - apply String.compare_eq_iff in E as ->. cbn. by destruct (String.eqb k' k0).
  - done.
  - cbn. rewrite IH by done. destruct (String.eqb_spec k' k0) as [->|]; [|done].
    destruct (String.eqb_spec k0 k) as [->|]; [|done].
    by rewrite string_compare_refl in E.
Qed.

Lemma get_not_in k m : ~ In k (map fst m) -> get k m = None.
Proof.
  induction m as [|[k' v] m IH]; cbn; [done|]. intros H.
  destruct (String.eqb_spec k k') as [->|]; [tauto|apply IH; tauto].
Qed.

Lemma get_In k v m : sorted m -> (get k m = Some v <-> In (k, v) m).
Proof.
  induction m as [|[k' v'] m IH]; [cbn; split; [discriminate|tauto]|].
  intros [Hk Hm]%sorted_cons. cbn. destruct (String.eqb_spec k k') as [->|Hne].
  - split; [intros [= ->]; auto|]. intros [[= ->]|Hin]; [done|].
    exfalso. apply (slt_irrefl k'). rewrite List.Forall_forall in Hk. apply Hk.
    by apply (in_map fst) in Hin.
  - rewrite IH by done. split; [auto|]. intros [[=]|]; [congruence|done].
Qed.

Lemma get_remove k k' m :
  sorted m -> get k' (remove k m) = if String.eqb k' k then None else get k' m.
Proof.
  induction m as [|[k0 v0] m IH]; [by destruct (String.eqb k' k)|].
  intros [Hk Hm]%sorted_cons. cbn.
  destruct (String.eqb_spec k k0) as [->|Hne].
  - destruct (String.eqb_spec k' k0) as [->|]; [|done].
    apply get_not_in. rewrite List.Forall_forall in Hk.
    intros Hin. by eapply slt_irrefl, Hk.
  - cbn. rewrite IH by done. destruct (String.eqb_spec k' k0) as [->|]; [|done].
    destruct (String.eqb_spec k0 k); [congruence|done].
Qed.

(** ** Refinement to finite maps *)

Lemma to_gmap_lookup k m : to_gmap m !! k = get k m.
Proof.
  induction m as [|[k' v] m IH]; cbn; [apply lookup_empty|].
  unfold to_gmap in *; cbn. destruct (String.eqb_spec k k') as [->|].
  - apply lookup_insert_eq.
  - by rewrite lookup_insert_ne.
Qed.

Lemma to_gmap_insert k v m : sorted m -> to_gmap (insert k v m) = <[k:=v]> (to_gmap m).
Proof.
  intros Hm. apply map_eq. intros i. rewrite to_gmap_lookup, get_insert by done.
  destruct (String.eqb_spec i k) as [->|]; [by rewrite lookup_insert_eq|].
  by rewrite lookup_insert_ne, to_gmap_lookup.
Qed.

Lemma to_gmap_remove k m : sorted m -> to_gmap (remove k m) = delete k (to_gmap m).
Proof.
  intros Hm. apply map_eq. intros i. rewrite to_gmap_lookup, get_remove by done.
  destruct (String.eqb_spec i k) as [->|]; [by rewrite lookup_delete_eq|].
  by rewrite lookup_delete_ne, to_gmap_lookup.
Qed.

(** Two ordered maps with the same entries are equal. *)
Lemma sorted_ext m1 m2 :
  sorted m1 -> sorted m2 -> (forall k, get k m1 = get k m2) -> m1 = m2.
Proof.
  revert m2. induction m1 as [|[k1 v1] m1 IH]; intros [|[k2 v2] m2] H1 H2 Heq.
  - done.
  - specialize (Heq k2). cbn in Heq. by rewrite String.eqb_refl in Heq.
  - specialize (Heq k1). cbn in Heq. by rewrite String.eqb_refl in Heq.
  - pose proof H1 as [Hk1 Hm1]%sorted_cons. pose proof H2 as [Hk2 Hm2]%sorted_cons.
    assert (k1 = k2) as ->.
    { pose proof (proj1 (get_In k1 v1 _ H2)) as A.
      rewrite <- Heq in A. cbn in A. rewrite String.eqb_refl in A.
      pose proof (proj1 (get_In k2 v2 _ H1)) as B.
      rewrite Heq in B. cbn in B. rewrite String.eqb_refl in B.
      destruct (A eq_refl) as [[=]|Ha]; [done|].
      destruct (B eq_refl) as [[=]|Hb]; [done|].
      apply (in_map fst) in Ha, Hb. rewrite List.Forall_forall in Hk1, Hk2.
      exfalso. by eapply slt_irrefl, slt_trans; [apply Hk1, Hb|apply Hk2, Ha]. }
    assert (v1 = v2) as ->.
    { specialize (Heq k2). cbn in Heq. rewrite String.eqb_refl in Heq. congruence. }
    f_equal. apply IH; [done..|]. intros k. specialize (Heq k). cbn in Heq.
    destruct (String.eqb_spec k k2) as [Hkk|]; [subst k|done].
    rewrite List.Forall_forall in Hk1, Hk2.
    rewrite !get_not_in; [done|..]; intros Hin; by eapply slt_irrefl; eauto.
Qed.

(** Reinserting the value a key already has changes nothing. *)
Lemma insert_same k v m : sorted m -> get k m = Some v -> insert k v m = m.
Proof.
  intros Hm Hk. apply sorted_ext; [by apply insert_sorted|done|].
  intros k'. rewrite get_insert by done.
  by destruct (String.eqb_spec k' k) as [->|].
Qed.

(** ** Sizes *)

Lemma size_nonneg m : 0 <= size m.
Proof. unfold size. lia. Qed.

Lemma size_insert k v m :
  sorted m -> size (insert k v m) = size m + (if contains_key k m then 0 else 1).
Proof.
  unfold contains_key, size.
  induction m as [|[k0 v0] m IH]; [done|].
  intros [Hk Hm]%sorted_cons. cbn [insert get].
  destruct (String.compare k k0) eqn:E.
  - apply String.compare_eq_iff in E as ->. rewrite String.eqb_refl. cbn. lia.
  - assert (Hn : get k ((k0, v0) :: m) = None).
    { apply get_not_in. cbn. rewrite List.Forall_forall in Hk. intros [->|Hin].
      - by rewrite string_compare_refl in E.
      - by eapply slt_irrefl, slt_trans, Hk. }
    cbn in Hn |- *. destruct (String.eqb k k0); [done|]. rewrite Hn. lia.
  - destruct (String.eqb_spec k k0) as [->|].
    { by rewrite string_compare_refl in E. }
    cbn [length]. specialize (IH Hm). lia.
Qed.

Lemma size_remove k m :
  size (remove k m) = size m - (if contains_key k m then 1 else 0).
Proof.
  unfold contains_key, size. induction m as [|[k0 v0] m IH]; [done|].
  cbn. destruct (String.eqb k k0); cbn [length]; lia.
Qed.

Lemma Forall_get (P : string -> V -> Prop) m :
  sorted m -> Forall (fun kv => P kv.1 kv.2) m <-> (forall k v, get k m = Some v -> P k v).
Proof.
  intros Hm. rewrite List.Forall_forall. split.
  - intros H k v Hkv. by apply (H (k, v)), get_In.
  - intros H [k v] Hin. by apply H, get_In.
Qed.

End btree.

Arguments bmap : clear implicits.
#[export] Hint Resolve insert_sorted remove_sorted sorted_nil size_nonneg : rust.
