(* ===== verification/Errors.v ===== *)
(** Application errors ([error.rs]) and their image on the peer protocol
    ([peer.rs], [node_routing.rs]).

    Models the error enumeration, its stable codes, its messages, the HTTP
    response it turns into, the middleware that gives framework errors the same
    JSON shape, and the two conversions between application errors and the
    typed failures peers exchange. *)
From Stdlib Require Import ZArith Lia Ascii String List Bool.
From stdpp Require Import base list strings decidable.
From S2P Require Import Prelude.

Local Open Scope Z_scope.

(** ** [AppError] *)
Inductive AppError : Type :=
| NodeUnavailable
| PeerAccountUnavailable
| PeerIdentityMismatch
| UnsupportedRegionOperation
| ProtocolDefinition
| Config (message : string)
| InvalidRequest
| Unauthorized
| Forbidden
| AuthUnavailable
| NotFound
| AccountUnavailable
| UpstreamUnavailable
| Timeout
| Transport
| Proxy
| Protocol
| Grpc (grpc : Z)
| Maintenance (grpc : Z)
| SnapshotUnavailable
| MasterUnavailable.

#[export] Instance AppError_eq_dec : EqDecision AppError.
Proof. solve_decision. Defined.

(** The constructors without their payload. *)
Definition same_variant (a b : AppError) : bool :=
  match a, b with
  | NodeUnavailable, NodeUnavailable
  | PeerAccountUnavailable, PeerAccountUnavailable
  | PeerIdentityMismatch, PeerIdentityMismatch
  | UnsupportedRegionOperation, UnsupportedRegionOperation
  | ProtocolDefinition, ProtocolDefinition
  | Config _, Config _
  | InvalidRequest, InvalidRequest
  | Unauthorized, Unauthorized
  | Forbidden, Forbidden
  | AuthUnavailable, AuthUnavailable
  | NotFound, NotFound
  | AccountUnavailable, AccountUnavailable
  | UpstreamUnavailable, UpstreamUnavailable
  | Timeout, Timeout
  | Transport, Transport
  | Proxy, Proxy
  | Protocol, Protocol
  | Grpc _, Grpc _
  | Maintenance _, Maintenance _
  | SnapshotUnavailable, SnapshotUnavailable
  | MasterUnavailable, MasterUnavailable => true
  | _, _ => false
  end.

Local Open Scope string_scope.

Definition code (e : AppError) : string :=
  match e with
  | NodeUnavailable => "node_unavailable"
  | PeerAccountUnavailable => "peer_account_unavailable"
  | PeerIdentityMismatch => "peer_identity_mismatch"
  | UnsupportedRegionOperation => "unsupported_operation"
  | ProtocolDefinition => "protocol_definition_invalid"
  | Config _ => "invalid_configuration"
  | InvalidRequest => "invalid_request"
  | Unauthorized => "unauthorized"
  | Forbidden => "forbidden"
  | AuthUnavailable => "auth_unavailable"
  | NotFound => "not_found"
  | AccountUnavailable => "account_unavailable"
  | UpstreamUnavailable => "upstream_unavailable"
  | Timeout => "upstream_timeout"
  | Transport => "upstream_transport"
  | Proxy => "upstream_proxy"
  | Protocol => "upstream_protocol"
  | Grpc _ => "upstream_grpc"
  | Maintenance _ => "maintenance"
  | SnapshotUnavailable => "snapshot_unavailable"
  | MasterUnavailable => "master_unavailable"
  end.

(** The [#[error(...)]] messages. *)
Definition to_string (e : AppError) : string :=
  match e with
  | NodeUnavailable => "no node is currently available"
  | PeerAccountUnavailable => "local account unavailable before dispatch"
  | PeerIdentityMismatch => "peer protocol identity changed before dispatch"
  | UnsupportedRegionOperation =>
      "operation is not supported by the verified protocol for this region"
  | ProtocolDefinition => "proto bundle compilation or compatibility validation failed"
  | Config m => "invalid configuration: " ++ m
  | InvalidRequest => "invalid request"
  | Unauthorized => "authentication required"
  | Forbidden => "not authorized for this region"
  | AuthUnavailable => "client authorization is temporarily unavailable"
  | NotFound => "not found"
  | AccountUnavailable => "no game account is currently available"
  | UpstreamUnavailable => "game upstream is temporarily unreachable"
  | Timeout => "upstream request timed out"
  | Transport => "upstream transport failed"
  | Proxy => "upstream proxy rejected connection"
  | Protocol => "invalid upstream protocol response"
  | Grpc n => "game returned gRPC status " ++ u64_to_string n
  | Maintenance _ => "game is under maintenance"
  | SnapshotUnavailable => "resource snapshot is unavailable"
  | MasterUnavailable => "Master snapshot is unavailable or invalid"
  end.

Local Close Scope string_scope.

(** ** Responses

    A response is its status, its headers in order and its body; a body is
    JSON or some other text. *)
Inductive body : Type :=
| BJson (v : json)
| BText (s : string).

Record response : Type := Response {
  status : Z;
  headers : list (string * string);
  content : body;
}.

Definition status_of (e : AppError) : Z :=
  match e with
  | PeerIdentityMismatch => 409
  | UnsupportedRegionOperation => 501
  | InvalidRequest => 400
  | ProtocolDefinition => 422
  | Unauthorized => 401
  | Forbidden => 403
  | NotFound => 404
  | NodeUnavailable | PeerAccountUnavailable | AccountUnavailable
  | UpstreamUnavailable | SnapshotUnavailable | MasterUnavailable
  | AuthUnavailable | Maintenance _ => 503
  | Grpc n => if n =? 14 then 503 else 502
  | Timeout => 504
  | _ => 502
  end.

Definition json_response (st : Z) (v : json) : response :=
  Response st [("content-type", "application/json")]%string (BJson v).

Definition into_response (e : AppError) : response :=
  let fields := [("error", JStr (to_string e)); ("code", JStr (code e))]%string in
  let fields := match e with
                | Grpc n | Maintenance n => fields ++ [("grpc_status"%string, JNum n)]
                | _ => fields
                end in
  json_response (status_of e) (JObj fields).

Definition header_get (k : string) (hs : list (string * string)) : option string :=
  option_map snd (List.find (fun kv => String.eqb (fst kv) k) hs).
Definition header_remove (k : string) (hs : list (string * string)) :=
  List.filter (fun kv => negb (String.eqb (fst kv) k)) hs.

(** [HeaderValue::to_str]: visible ASCII and tabs. *)
Definition header_str (v : string) : option string :=
  if all_bytes (fun c => in_range 32 126 (byte_of c) || char_is 9 c) v then Some v else None.

Definition client_error_text (st : Z) : option (string * string) :=
  if (st =? 400) || (st =? 422) then Some ("invalid request", "invalid_request")%string
  else if st =? 404 then Some ("not found", "not_found")%string
  else if st =? 405 then Some ("method not allowed", "method_not_allowed")%string
  else if st =? 413 then Some ("request body too large", "payload_too_large")%string
  else if st =? 415 then Some ("unsupported media type", "unsupported_media_type")%string
  else None.

Definition is_json_response (r : response) : bool :=
  match header_get "content-type" (headers r) with
  | Some v => match header_str v with
              | Some v => starts_with v "application/json"
              | None => false
              end
  | None => false
  end.

Definition json_client_error (r : response) : response :=
  match client_error_text (status r) with
  | None => r
  | Some (error, code) =>
      if is_json_response r then r else
      let hs := header_remove "content-type" (headers r) in
      let hs := header_remove "content-length" hs in
      let hs := header_remove "content-encoding" hs in
      let b := json_response 200
                 (JObj [("error", JStr error); ("code", JStr code)]%string) in
      Response (status r) (hs ++ headers b) (content b)
  end.

(** ** Peer failures *)
Inductive Failure : Type :=
| FIdentityMismatch
| FUnsupportedOperation
| FAccountUnavailable
| FUnavailableBeforeDispatch
| FTimeout
| FTransport
| FProtocol
| FGame (grpc_status : Z)
| FNotFound.

Definition failure_from (e : AppError) : Failure :=
  match e with
  | UnsupportedRegionOperation => FUnsupportedOperation
  | PeerAccountUnavailable | UpstreamUnavailable => FUnavailableBeforeDispatch
  | AccountUnavailable => FAccountUnavailable
  | Timeout => FTimeout
  | Transport | Proxy => FTransport
  | Grpc n | Maintenance n => FGame n
  | PeerIdentityMismatch => FIdentityMismatch
  | NotFound => FNotFound
  | _ => FProtocol
  end.

Definition failure_error (f : Failure) (maintenance : bool) : AppError :=
  match f with
  | FIdentityMismatch => PeerIdentityMismatch
  | FUnsupportedOperation => UnsupportedRegionOperation
  | FUnavailableBeforeDispatch => PeerAccountUnavailable
  | FAccountUnavailable => AccountUnavailable
  | FTimeout => Timeout
  | FTransport => Transport
  | FProtocol => Protocol
  | FGame n => if maintenance then Maintenance n else Grpc n
  | FNotFound => NotFound
  end.

(** The maintenance flag an executor puts in the observation of a failed
    call. *)
Definition is_maintenance (e : AppError) : bool :=
  match e with Maintenance _ => true | _ => false end.

(** The error a caller sees after one trip over the peer protocol. *)
Definition via_peer (e : AppError) : AppError :=
  failure_error (failure_from e) (is_maintenance e).

(** ** [MasterError] of [master.rs]; of an I/O error the code inspects only
    whether its kind is [NotFound]. *)
Inductive IoKind : Type := IoNotFound | IoOther.
Inductive MasterError : Type :=
| MBusy | MNotFound | MIo (k : IoKind) | MFormat | MLimit | MIntegrity | MCipher | MKey.

#[export] Instance IoKind_eq_dec : EqDecision IoKind.
Proof. solve_decision. Defined.
#[export] Instance MasterError_eq_dec : EqDecision MasterError.
Proof. solve_decision. Defined.

(** * Theorems *)

Lemma code_same_variant a b : code a = code b <-> same_variant a b = true.
Proof. destruct a, b; cbn; split; congruence. Qed.

Lemma status_error_range e : 400 <= status_of e < 600.
Proof. destruct e; cbn; try lia. destruct (grpc =? 14); lia. Qed.

Lemma header_get_remove_ne k k' hs :
  k <> k' -> header_get k (header_remove k' hs) = header_get k hs.
Proof.
  intros Hne. unfold header_get, header_remove. f_equal.
  induction hs as [|[a b] hs IH]; [done|]. cbn.
  destruct (String.eqb_spec a k') as [->|]; cbn.
  - destruct (String.eqb_spec k' k); congruence.
  - by destruct (String.eqb a k).
Qed.

Lemma header_get_app k hs hs' :
  header_get k (hs ++ hs') =
  match header_get k hs with Some v => Some v | None => header_get k hs' end.
Proof.
  unfold header_get. induction hs as [|[a b] hs IH]; cbn; [done|].
  by destruct (String.eqb a k).
Qed.

Lemma header_get_remove_eq k hs : header_get k (header_remove k hs) = None.
Proof.
  unfold header_get, header_remove. induction hs as [|[a b] hs IH]; cbn; [done|].
  destruct (String.eqb_spec a k) as [->|]; cbn; [done|].
  destruct (String.eqb_spec a k); congruence.
Qed.

Lemma header_get_one k k' v : k <> k' -> header_get k [(k', v)] = None.
Proof.
  intros H. unfold header_get. cbn [List.find fst].
  destruct (String.eqb_spec k' k); [congruence|done].
Qed.

(** The client-error middleware gives every framework client error a JSON body, keeps
    the status and every header other than the content headers, drops the stale content
    encoding and length, and is idempotent. *)
Lemma client_errors_are_json r :
  client_error_text (status r) <> None ->
  let r' := json_client_error r in
  status r' = status r /\
  is_json_response r' = true /\
  (forall k, k <> "content-type"%string -> k <> "content-length"%string ->
     k <> "content-encoding"%string ->
     header_get k (headers r') = header_get k (headers r)) /\
  json_client_error r' = r' /\
  (is_json_response r = false ->
     header_get "content-encoding" (headers r') = None /\
     header_get "content-length" (headers r') = None).
Proof.
  unfold json_client_error.
  destruct (client_error_text (status r)) as [[e c]|] eqn:E; [intros _|done].
  cbn zeta. destruct (is_json_response r) eqn:J.
  { rewrite E, J. repeat split; done. }
  set (r' := Response _ _ _).
  assert (J' : is_json_response r' = true).
  { unfold is_json_response, r'. cbn [headers]. rewrite header_get_app.
    by rewrite 2!header_get_remove_ne, header_get_remove_eq. }
  change (status r') with (status r). rewrite E, J'. repeat split; try done.
  - intros k H1 H2 H3. cbn [headers r'].
    rewrite header_get_app, !header_get_remove_ne by done.
    destruct (header_get k (headers r)); [done|].
    by apply header_get_one.
  - cbn [headers r']. by rewrite header_get_app, header_get_remove_eq.
  - cbn [headers r'].
    by rewrite header_get_app, header_get_remove_ne, header_get_remove_eq.
Qed.

(** Typed peer failures survive the trip through AppError unchanged, a second trip
    changes nothing more, and a call's error class is kept except for the documented
    collapses to transport, protocol and unavailable-before-dispatch; gRPC and
    maintenance statuses are never confused. *)
Lemma peer_failure_roundtrip :
  (forall f m, failure_from (failure_error f m) = f) /\
  (forall e, via_peer (via_peer e) = via_peer e) /\
  (forall e, via_peer e = e \/ via_peer e = Protocol \/
             (e = Proxy /\ via_peer e = Transport) \/
             (e = UpstreamUnavailable /\ via_peer e = PeerAccountUnavailable)) /\
  (forall e n, via_peer e = Grpc n <-> e = Grpc n) /\
  (forall e n, via_peer e = Maintenance n <-> e = Maintenance n).
Proof.
  split; [intros [] []; done|]. split; [by intros []|].
  split; [intros []; cbn; auto 6|].
  split; intros [] n; cbn; split; congruence.
Qed.

(** Two errors share a stable code exactly when they are the same variant, every error
    maps to a 4xx or 5xx JSON response, and the middleware leaves it alone. *)
Lemma error_codes_identify_variants a b :
  (code a = code b <-> same_variant a b = true) /\
  400 <= status (into_response a) < 600 /\
  is_json_response (into_response a) = true /\
  json_client_error (into_response a) = into_response a.
Proof.
  split; [apply code_same_variant|].
  split; [apply status_error_range|].
  assert (J : is_json_response (into_response a) = true) by done.
  split; [done|]. unfold json_client_error. rewrite J.
  by destruct (client_error_text _) as [[]|].
Qed.

Lemma client_errors_are_json_witness :
  json_client_error
    (Response 405 [("allow", "GET"); ("content-type", "text/plain")]%string (BText "x")) =
  Response 405 [("allow", "GET"); ("content-type", "application/json")]%string
    (BJson (JObj [("error", JStr "method not allowed"); ("code", JStr "method_not_allowed")]%string))
  /\ status (json_client_error (Response 405 [] (BText "x"))) = 405.
Proof.
  split; [reflexivity|].
  apply (client_errors_are_json (Response 405 [] (BText "x"))). discriminate.
Defined.
