(* ===== verification/Regions.v ===== *)
(** Regions, platforms and routes ([region.rs], [routes.rs]).

    The two process-wide atomics of the deprecated alias are the record
    [Alias], passed explicitly; an operation that touches them returns the new
    value. *)
From Stdlib Require Import ZArith Lia Ascii String List Bool.
From stdpp Require Import base list strings decidable.
From S2P Require Import Prelude.

Local Open Scope string_scope.

(** ** Regions *)
Inductive Region : Type := Jp | Hk | En | Kr | Cn.
Inductive Platform : Type := Ios | Android.

#[export] Instance Region_eq_dec : EqDecision Region.
Proof. solve_decision. Defined.
#[export] Instance Platform_eq_dec : EqDecision Platform.
Proof. solve_decision. Defined.

Definition DEPRECATED_HK_ALIAS : string := "tw".

Record Alias : Type := { used : bool; warned : bool }.
Definition alias_initial : Alias := {| used := false; warned := false |}.

Definition deprecated_alias_used (a : Alias) : bool := used a.

(** Returns whether this call logged the warning; [swap] runs only when the
    alias was used. *)
Definition warn_deprecated_alias (a : Alias) : bool * Alias :=
  if negb (deprecated_alias_used a) then (false, a)
  else
    let a' := {| used := used a; warned := true |} in
    if warned a then (false, a') else (true, a').

Definition is_deprecated_alias (name : string) : bool :=
  String.eqb name DEPRECATED_HK_ALIAS.
Definition note_deprecated_alias (a : Alias) : Alias :=
  {| used := true; warned := warned a |}.

Definition region_name (r : Region) : string :=
  match r with
  | Jp => "jp" | Hk => "hk" | En => "en" | Kr => "kr" | Cn => "cn"
  end.

Definition from_name (name : string) : option Region :=
  List.find (fun r => String.eqb (region_name r) name) [Jp; Hk; En; Kr; Cn].

Definition from_config_name (name : string) (a : Alias) : option Region * Alias :=
  if is_deprecated_alias name then (Some Hk, note_deprecated_alias a)
  else (from_name name, a).

Definition from_recorded_name (name : string) : option Region :=
  if is_deprecated_alias name then Some Hk else from_name name.

(** [deserialize_with] of a configuration field: [None] is the
    unknown-variant error. *)
Definition config_region (v : json) (a : Alias) : option Region * Alias :=
  match json_str v with
  | Some name => from_config_name name a
  | None => (None, a)
  end.

Definition family (r : Region) : string :=
  match r with Jp => "jp" | Cn => "cn" | _ => "global" end.

Definition area_id (r : Region) : option string :=
  match r with
  | Hk => Some "2" | En => Some "3" | Kr => Some "4" | _ => None
  end.

Definition protocol_version (r : Region) : string :=
  match r with Jp => "1.0.4" | Cn => "" | _ => "1.0.3" end.

(** The region a known service host belongs to; the inner [None] is a shared
    patch host whose path names no region, which the source refuses. *)
Definition expected_service (host path : string) : option (option Region) :=
  if ends_with host ".bang-dream-on.jp" then Some (Some Jp)
  else if ends_with host ".gamerfusiontech.com" && str_contains host "-prod-hk-" then Some (Some Hk)
  else if ends_with host ".bilibiligame.net" && str_contains host "-prod-va-" then Some (Some En)
  else if ends_with host ".bilibiligame.net" && str_contains host "-prod-kr-" then Some (Some Kr)
  else if ends_with host ".bilibiligame.net" && str_contains host "-prod-sg-patch-" then
    if starts_with path "/prod/en_" then Some (Some En)
    else if starts_with path "/prod/kr_" then Some (Some Kr)
    else Some None
  else None.

Definition matches_known_service (r : Region) (host path : string) : bool :=
  match expected_service host path with
  | Some (Some r') => bool_decide (r' = r)
  | Some None => false
  | None => true
  end.

Definition master_supported (r : Region) : bool :=
  match r with Cn => false | _ => true end.

Definition default_platform (r : Region) : Platform :=
  if bool_decide (r = Jp) then Ios else Android.

Definition platform_name (p : Platform) : string :=
  match p with Ios => "iOS" | Android => "Android" end.
Definition platform_header (p : Platform) : string :=
  match p with Ios => "ios" | Android => "android" end.

(** ** Routes *)
Definition VERSION := "/app.masterdata.MasterdataService/Version".
Definition ANNOUNCEMENTS := "/app.announcement.AnnouncementService/GetList".
Definition ANNOUNCEMENT := "/app.announcement.AnnouncementService/Get".
Definition EVENT_RANKING := "/app.event.EventService/GetRankingList".
Definition EVENT_DECK := "/app.event.EventService/GetDeck".
Definition MUSIC_RANKING := "/app.livemusic.LiveMusicService/GetRanking".
Definition CHALLENGE_RANKING := "/app.event.EventService/GetChallengeMusicRanking".
Definition WHOAMI := "/app.player.PlayerService/Whoami".
Definition PLAYER_DATA := "/app.player.PlayerService/GetPlayerData".
Definition PROFILE := "/app.friend.FriendService/FindByProfileID".
Definition SERVER_LIST := "/app.playerlogin.PlayerLoginService/GetServerList".
Definition PLAYER_LOGIN := "/app.playerlogin.PlayerLoginService/PlayerLogin".

Definition ROUTES : list string :=
  [VERSION; ANNOUNCEMENTS; ANNOUNCEMENT; PROFILE; EVENT_RANKING; EVENT_DECK;
   MUSIC_RANKING; CHALLENGE_RANKING; WHOAMI; PLAYER_DATA].
Definition GLOBAL_ROUTES : list string :=
  [VERSION; SERVER_LIST; ANNOUNCEMENTS; ANNOUNCEMENT; PROFILE; EVENT_RANKING;
   EVENT_DECK; MUSIC_RANKING; CHALLENGE_RANKING; PLAYER_DATA].
Definition GLOBAL_CONTRACT : list string :=
  [VERSION; SERVER_LIST; ANNOUNCEMENTS; ANNOUNCEMENT; PROFILE; EVENT_RANKING;
   EVENT_DECK; MUSIC_RANKING; CHALLENGE_RANKING; PLAYER_DATA; PLAYER_LOGIN].

Definition for_family (f : string) : list string :=
  if String.eqb f "global" then GLOBAL_ROUTES else ROUTES.
Definition contract_for_family (f : string) : list string :=
  if String.eqb f "global" then GLOBAL_CONTRACT else ROUTES.

Definition mem (s : string) (l : list string) : bool :=
  List.existsb (String.eqb s) l.

(** * Theorems *)

Lemma mem_spec s l : mem s l = true <-> In s l.
Proof.
  unfold mem. rewrite existsb_exists. split.
  - by intros (x & Hx & ->%String.eqb_eq).
  - intros H. exists s. split; [done|apply String.eqb_refl].
Qed.

Lemma from_name_name r : from_name (region_name r) = Some r.
Proof. by destruct r. Qed.

Lemma from_name_sound name r : from_name name = Some r -> region_name r = name.
Proof.
  unfold from_name. intros H. apply find_some in H as [_ H].
  by apply String.eqb_eq.
Qed.

(** Canonical region names round-trip, the deprecated alias is no region's name, and
    recorded and configured names accept exactly the canonical names plus the alias,
    which is noted only when it is used in configuration. *)
Lemma region_names_roundtrip :
  (forall r, from_name (region_name r) = Some r) /\
  (forall name r, from_name name = Some r -> region_name r = name) /\
  (forall r, region_name r <> DEPRECATED_HK_ALIAS) /\
  (forall name r, from_recorded_name name = Some r ->
     region_name r = name \/ (name = DEPRECATED_HK_ALIAS /\ r = Hk)) /\
  (forall name a, from_config_name name a =
     (from_recorded_name name,
      if is_deprecated_alias name then note_deprecated_alias a else a)).
Proof.
  split; [apply from_name_name|]. split; [apply from_name_sound|].
  split; [by intros []|].
  unfold from_recorded_name, from_config_name. split; intros name;
    destruct (is_deprecated_alias name) eqn:E; try done.
  - intros r [= <-]. right. by apply String.eqb_eq in E.
  - intros r H. left. by apply from_name_sound.
Qed.

(** Runs a sequence of alias operations of one process: [None] a warning
    request, [Some n] the parse of a configuration name.  Collects whether each
    warning request logged. *)
Fixpoint alias_run (ops : list (option string)) (a : Alias) : list bool :=
  match ops with
  | [] => []
  | Some n :: ops => alias_run ops (snd (from_config_name n a))
  | None :: ops =>
      let '(logged, a') := warn_deprecated_alias a in logged :: alias_run ops a'
  end.

Definition count_true (l : list bool) : nat := length (List.filter id l).

Lemma count_true_cons b l :
  count_true (b :: l) = ((if b then 1 else 0) + count_true l)%nat.
Proof. by destruct b. Qed.

Lemma alias_run_warned ops a : warned a = true -> count_true (alias_run ops a) = 0%nat.
Proof.
  revert a. induction ops as [|[n|] ops IH]; intros a Ha; [done|cbn..].
  - apply IH. unfold from_config_name. by destruct (is_deprecated_alias n).
  - unfold warn_deprecated_alias. rewrite Ha.
    destruct (negb (deprecated_alias_used a)); cbn; by apply IH.
Qed.

(** Whatever sequence of configuration parses and warning requests a process makes, the
    deprecation warning is logged at most once. *)
Lemma alias_warning_at_most_once ops :
  (count_true (alias_run ops alias_initial) <= 1)%nat.
Proof.
  generalize alias_initial as a. induction ops as [|[n|] ops IH]; intros a; cbn [alias_run]; [cbn; lia|auto|].
  unfold warn_deprecated_alias.
  destruct (negb (deprecated_alias_used a)), (warned a) eqn:W;
    cbn beta iota; rewrite count_true_cons; try apply IH.
  rewrite alias_run_warned by done. lia.
Qed.

Lemma known_service_exclusive r r' host path :
  expected_service host path <> None ->
  matches_known_service r host path = true ->
  matches_known_service r' host path = true -> r = r'.
Proof.
  unfold matches_known_service.
  destruct (expected_service host path) as [[r0|]|]; try done.
  intros _ H1 H2. bool_prop. congruence.
Qed.

Lemma routes_nodup_contract f :
  NoDup (for_family f) /\ incl (for_family f) (contract_for_family f) /\
  (In PLAYER_LOGIN (for_family f) -> False).
Proof.
  unfold for_family, contract_for_family. destruct (String.eqb f "global").
  - split; [apply (bool_decide_eq_true_1 (NoDup GLOBAL_ROUTES)); by vm_compute|].
    split; [intros x; unfold GLOBAL_ROUTES, GLOBAL_CONTRACT; cbn; tauto|].
    by rewrite <- mem_spec.
  - split; [apply (bool_decide_eq_true_1 (NoDup ROUTES)); by vm_compute|].
    split; [apply incl_refl|]. by rewrite <- mem_spec.
Qed.
