(* ===== verification/Versions.v ===== *)
(** Version names ([master.rs], [safe_version]): shared by the Master files and
    the parameters an upstream answer gives. *)
From Stdlib Require Import ZArith Lia Ascii String List Bool.
From stdpp Require Import base list strings.
From S2P Require Import Prelude BTree.

Local Open Scope Z_scope.
Local Open Scope rust_scope.

Definition version_chars (s : string) : bool :=
  all_bytes (fun b => is_ascii_alphanumeric b || char_is 46 b || char_is 95 b || char_is 45 b) s.
Definition safe_version (value : string) : bool :=
  match split_on "/" value with
  | version :: parts =>
      negb (is_empty version) && (len version <=? 128) && (len value <=? 256)
      && negb (String.eqb version "." || String.eqb version "..") && version_chars version
      && match parts with
         | [] => true
         | [h] => (len h =? 32) && all_bytes is_ascii_hexdigit h
         | _ => false
         end
  | [] => false
  end.

Lemma safe_version_len v : safe_version v = true -> len v <= 256.
Proof. unfold safe_version. destruct (split_on "/" v); [done|]. intros Hs. bool_prop. done. Qed.
