(* ===== verification/Http.v ===== *)
(** HTTP as the clients of the source see it.

    A response is its status, its headers, the announced length and the events
    of its body; [read_bounded] is the bounded read loop shared by the asset
    updater client and the peer transport.  [Url] is a parsed URL of the [url]
    crate, whose parser is a parameter of the definitions that use it. *)
From Stdlib Require Import ZArith Lia Ascii String List Bool.
From stdpp Require Import base list strings decidable.
From S2P Require Import Prelude Errors.

Local Open Scope Z_scope.

Record Url : Type := {
  scheme : string;
  host_str : option string;
  username : string;
  password : option string;
  path : string;
  query : option string;
  fragment : option string;
}.

Inductive chunk_event : Type := Chunk (bytes : list Z) | ChunkError.

Record http_response : Type := {
  http_status : Z;
  http_headers : list (string * string);
  content_length : option Z;
  body_events : list chunk_event;
}.

Definition llen {A} (l : list A) : Z := Z.of_nat (length l).

(** [while let Some(chunk) = response.chunk().await? { if chunk.len() > limit -
    bytes.len() { return Err } bytes.extend(chunk) }]. *)
Fixpoint read_bounded {E} (limit : Z) (broken large : E) (bytes : list Z)
  (events : list chunk_event) : result E (list Z) :=
  match events with
  | [] => Ok bytes
  | ChunkError :: _ => Err broken
  | Chunk c :: events =>
      if limit - llen bytes <? llen c then Err large
      else read_bounded limit broken large (bytes ++ c) events
  end.

Fixpoint body_bytes (events : list chunk_event) : option (list Z) :=
  match events with
  | [] => Some []
  | ChunkError :: _ => None
  | Chunk c :: events => option_map (app c) (body_bytes events)
  end.

Lemma llen_app {A} (a b : list A) : llen (a ++ b) = llen a + llen b.
Proof. unfold llen. rewrite length_app. lia. Qed.

Lemma llen_nonneg {A} (a : list A) : 0 <= llen a.
Proof. unfold llen. lia. Qed.

(** The loop returns exactly the whole body, and only when it fits; the
    subtraction [limit - bytes.len()] never underflows. *)
Lemma read_bounded_spec {E} limit (broken large : E) events bytes r :
  llen bytes <= limit ->
  read_bounded limit broken large bytes events = Ok r <->
  exists b, body_bytes events = Some b /\ r = bytes ++ b /\ llen r <= limit.
Proof.
  revert bytes. induction events as [|[c|] events IH]; intros bytes Hb; cbn.
  - split.
    + intros [= <-]. exists []. rewrite app_nil_r. auto.
    + intros (b & [= <-] & -> & _). by rewrite app_nil_r.
  - destruct (Z.ltb_spec (limit - llen bytes) (llen c)) as [Hlt|Hge].
    + split; [done|]. intros (b & Hbb & -> & Hle). exfalso.
      destruct (body_bytes events) as [b'|]; [|done]. injection Hbb as <-.
      rewrite !llen_app in Hle. pose proof (llen_nonneg b'). lia.
    + rewrite IH by (rewrite llen_app; lia). split.
      * intros (b & -> & -> & Hle). exists (c ++ b). rewrite <- app_assoc in *. auto.
      * intros (b & Hbb & -> & Hle). destruct (body_bytes events) as [b'|]; [|done].
        injection Hbb as <-. exists b'. rewrite <- app_assoc. auto.
  - split; [done|]. by intros (b & ? & _).
Qed.

Lemma read_bounded_ok {E} limit (broken large : E) events bytes r :
  read_bounded limit broken large bytes events = Ok r ->
  exists b, body_bytes events = Some b /\ r = bytes ++ b.
Proof.
  revert bytes. induction events as [|[c|] events IH]; intros bytes; cbn; [|destruct (_ <? _); [done|]|done].
  - intros [= <-]. exists []. by rewrite app_nil_r.
  - intros (b & -> & ->)%IH. exists (c ++ b). by rewrite <- app_assoc.
Qed.

Lemma read_bounded_err {E} limit (broken large : E) events bytes e :
  read_bounded limit broken large bytes events = Err e -> e = broken \/ e = large.
Proof.
  revert bytes. induction events as [|[c|] events IH]; intros bytes; cbn; [done| |].
  - destruct (_ <? _); [intros [= ->]; auto|apply IH].
  - intros [= ->]. auto.
Qed.

(** [(33..=126).contains(&b)] for every byte of a bearer token. *)
Definition token_ok (token : string) : bool :=
  negb (is_empty token) && (len token <=? 4096) && all_bytes is_ascii_graphic token.

(** ** Header values *)

Definition ascii_lower (c : ascii) : ascii :=
  if is_ascii_upper c then ascii_of_nat (nat_of_ascii c + 32) else c.
(** [str::to_ascii_lowercase]. *)
Fixpoint to_ascii_lowercase (s : string) : string :=
  match s with EmptyString => EmptyString | String c s => String (ascii_lower c) (to_ascii_lowercase s) end.
Fixpoint eq_ignore_ascii_case (a b : string) : bool :=
  match a, b with
  | EmptyString, EmptyString => true
  | String x a, String y b => Ascii.eqb (ascii_lower x) (ascii_lower y) && eq_ignore_ascii_case a b
  | _, _ => false
  end.

(** [HeaderValue::from_str]: the values of a header. *)
Definition header_value_ok (s : string) : bool :=
  all_bytes (fun c => in_range 32 255 (byte_of c) && negb (char_is 127 c) || char_is 9 c) s.

(** [str::trim] on a header value: its whitespace is spaces and tabs. *)
Definition is_blank (c : ascii) : bool := char_is 32 c || char_is 9 c.
Fixpoint trim_start (s : string) : string :=
  match s with
  | String c s' => if is_blank c then trim_start s' else s
  | EmptyString => s
  end.
Fixpoint trim_end (s : string) : string :=
  match s with
  | String c s' => match trim_end s' with
                   | EmptyString => if is_blank c then EmptyString else String c EmptyString
                   | s'' => String c s''
                   end
  | EmptyString => s
  end.
Definition trim (s : string) : string := trim_end (trim_start s).

(** The media type of a response is [application/json]. *)
Definition json_content (resp : http_response) : bool :=
  match header_get "content-type" (http_headers resp) with
  | Some v => match header_str v with
              | Some v => match split_on ";" v with
                          | mime :: _ => eq_ignore_ascii_case (trim mime) "application/json"
                          | [] => false
                          end
              | None => false
              end
  | None => false
  end.

(** ** Bearer authorization ([api.rs]) *)
Definition header_map : Type := list (string * string).

Definition get_all (k : string) (hs : header_map) : list string :=
  map snd (List.filter (fun kv => String.eqb (fst kv) k) hs).
(** [HeaderMap::insert]: the new value takes the place of all others. *)
Definition header_insert (k v : string) (hs : header_map) : header_map := (k, v) :: header_remove k hs.

Lemma header_get_insert k v hs : header_get k (header_insert k v hs) = Some v.
Proof. unfold header_get, header_insert. cbn [List.find fst]. by rewrite String.eqb_refl. Qed.
Lemma header_get_insert_ne k k' v hs : k' <> k -> header_get k (header_insert k' v hs) = header_get k hs.
Proof.
  intros Hne. unfold header_insert. unfold header_get at 1. cbn [List.find fst]. rewrite (proj2 (String.eqb_neq _ _) Hne).
  apply header_get_remove_ne. congruence.
Qed.

Definition bearer (token : string) : string := ("Bearer " ++ token)%string.
Definition authorize (token : string) (hs : header_map) : result AppError unit :=
  match get_all "authorization" hs with
  | [v] => if bool_decide (header_str v = Some (bearer token)) then Ok tt else Err Unauthorized
  | _ => Err Unauthorized
  end.
