(* ===== verification/Environment.v ===== *)
(** Secrets and origins ([config.rs], [transport.rs]): environment references,
    and the URLs a configuration may name.

    The environment and the [url] crate's parser are parameters. *)
From Stdlib Require Import ZArith Lia Ascii String List Bool.
From stdpp Require Import base list strings decidable.
From S2P Require Import Prelude Errors Http.

Local Open Scope Z_scope.
Local Open Scope rust_scope.

Definition secret (env : string -> option string) (name : string) : result AppError string :=
  match env name with
  | None => Err (Errors.Config "missing secret environment variable")
  | Some v =>
      if is_empty v || negb (header_value_ok v) then Err (Errors.Config "empty or invalid secret environment variable") else Ok v
  end.

(** [str::contains] on a character, and [u8::is_ascii_whitespace]. *)
Definition contains_char (b : Z) (s : string) : bool := any_byte (char_is b) s.
Definition is_ascii_whitespace (c : ascii) : bool :=
  char_is 32 c || char_is 9 c || char_is 10 c || char_is 12 c || char_is 13 c.

(** [str::trim().is_empty()]: every character is white space, by its UTF-8
    bytes. *)
Fixpoint all_whitespace (s : string) : bool :=
  match s with
  | EmptyString => true
  | String a s1 =>
      if in_range 9 13 (byte_of a) || char_is 32 a then all_whitespace s1
      else match s1 with
           | EmptyString => false
           | String b s2 =>
               if char_is 194 a && (char_is 133 b || char_is 160 b) then all_whitespace s2
               else match s2 with
                    | EmptyString => false
                    | String c s3 =>
                        if (char_is 225 a && char_is 154 b && char_is 128 c
                            || char_is 226 a && char_is 128 b && (in_range 128 138 (byte_of c) || char_is 168 c || char_is 169 c || char_is 175 c)
                            || char_is 226 a && char_is 129 b && char_is 159 c
                            || char_is 227 a && char_is 128 b && char_is 128 c)
                        then all_whitespace s3 else false
                    end
           end
  end.

(** The white space character a text starts with, if any, and
    [chars().any(char::is_whitespace)], [chars().any(char::is_control)]: in valid
    UTF-8 no character starts inside another. *)
Definition starts_blank (s : string) : bool :=
  match s with
  | EmptyString => false
  | String a s1 =>
      in_range 9 13 (byte_of a) || char_is 32 a
      || match s1 with
         | EmptyString => false
         | String b s2 =>
             char_is 194 a && (char_is 133 b || char_is 160 b)
             || match s2 with
                | EmptyString => false
                | String c _ =>
                    char_is 225 a && char_is 154 b && char_is 128 c
                    || char_is 226 a && char_is 128 b && (in_range 128 138 (byte_of c) || char_is 168 c || char_is 169 c || char_is 175 c)
                    || char_is 226 a && char_is 129 b && char_is 159 c
                    || char_is 227 a && char_is 128 b && char_is 128 c
                end
         end
  end.
Definition starts_control (s : string) : bool :=
  match s with
  | EmptyString => false
  | String a s' => is_ascii_control a || char_is 194 a && match s' with String b _ => in_range 128 159 (byte_of b) | EmptyString => false end
  end.
Fixpoint any_suffix (f : string -> bool) (s : string) : bool :=
  f s || match s with EmptyString => false | String _ s' => any_suffix f s' end.
Definition has_whitespace (s : string) : bool := any_suffix starts_blank s.
Definition has_control (s : string) : bool := any_suffix starts_control s.

(** [str::trim], on any UTF-8. *)
Fixpoint trim_front (s : string) : string :=
  match s with
  | EmptyString => EmptyString
  | String a s1 =>
      if negb (starts_blank s) then s
      else if byte_of a <? 128 then trim_front s1
      else match s1 with
           | EmptyString => EmptyString
           | String _ s2 => if char_is 194 a then trim_front s2 else match s2 with String _ s3 => trim_front s3 | EmptyString => EmptyString end
           end
  end.
Fixpoint trim_back (s : string) : string :=
  if all_whitespace s then EmptyString else match s with String c s' => String c (trim_back s') | EmptyString => EmptyString end.
Definition trim_text (s : string) : string := trim_back (trim_front s).

(** The names of environment references that the configurations accept. *)
Definition reference_name_ok (s : string) : bool := all_bytes (fun b => is_ascii_alphanumeric b || char_is 95 b) s.

(** [Path::is_absolute], on Unix. *)
Definition is_absolute (p : string) : bool := starts_with p "/".

Section urls.
Context (url_parse : string -> option Url).

Definition https_root (value : string) : bool :=
  some_and (url_parse value) (fun u =>
    String.eqb (scheme u) "https" && is_some (host_str u) && is_empty (username u) && is_none (password u)
    && is_none (query u) && is_none (fragment u) && String.eqb (path u) "/" && negb (ends_with value "/")).

Definition safe_segment (s : string) : bool :=
  all_bytes (fun b => is_ascii_alphanumeric b || char_is 45 b || char_is 95 b || char_is 32 b || char_is 46 b) s
  && negb (contains_char 32 s).
Definition cdn_root_ok (value : string) : bool :=
  some_and (url_parse value) (fun u =>
    String.eqb (scheme u) "https" && is_some (host_str u) && is_empty (username u) && is_none (password u)
    && is_none (query u) && is_none (fragment u) && negb (ends_with value "/")
    && negb (contains_char 37 value) && negb (contains_char 92 value)
    && negb (List.existsb (fun s => String.eqb s "." || String.eqb s "..") (split_on "/"%char value))
    && forallb safe_segment (split_on "/"%char (path u))).

(** [proxy_uri]; whether the normalised URL is a [Uri] too is [uri_ok]. *)
Context (uri_ok : Url -> bool).
Definition invalid_proxy : AppError := Errors.Config "proxy URL must be an HTTP(S) origin without credentials".
Definition proxy_uri (value : string) : result AppError Url :=
  url <-? ok_or (url_parse value) invalid_proxy;;
  if (4096 <? len value) || any_byte (fun b => is_ascii_whitespace b || is_ascii_control b) value
     || negb (String.eqb (scheme url) "http" || String.eqb (scheme url) "https")
     || is_none (host_str url) || negb (is_empty (username url)) || is_some (password url)
     || contains_char 64 value || negb (String.eqb (path url) "/") || is_some (query url) || is_some (fragment url)
     || contains_char 92 value
  then Err invalid_proxy
  else if uri_ok url then Ok url else Err invalid_proxy.
End urls.
