(* ===== verification/Addr.v ===== *)
(** IP addresses as the standard library reads and prints them
    ([std::net::IpAddr]'s [FromStr] and [Display]), which the access log and the
    connection settings use. *)
From Stdlib Require Import ZArith Lia Ascii String List Bool.
From stdpp Require Import base list strings decidable.
From S2P Require Import Prelude.

Local Open Scope Z_scope.

(** Octets, or eight segments of 16 bits. *)
Inductive IpAddr : Type := V4 (a b c d : Z) | V6 (segments : list Z).
#[export] Instance IpAddr_eq_dec : EqDecision IpAddr.
Proof. solve_decision. Defined.

(** * Reading

    The parser of the standard library: a reader returns what it read and the
    rest of the text, and leaves the text when it fails. *)
Definition reader (A : Type) : Type := string -> option (A * string).

Definition to_digit (radix : Z) (c : ascii) : option Z :=
  let b := byte_of c in
  let d := if is_ascii_digit c then b - 48
           else if is_ascii_upper c then b - 55
           else if is_ascii_lower c then b - 87
           else radix in
  if d <? radix then Some d else None.

Fixpoint read_digits (radix max_digits : Z) (s : string) (value count : Z) : option (Z * Z * string) :=
  match s with
  | EmptyString => Some (value, count, s)
  | String c s' =>
      match to_digit radix c with
      | None => Some (value, count, s)
      | Some d => if max_digits <? count + 1 then None else read_digits radix max_digits s' (value * radix + d) (count + 1)
      end
  end.
Definition read_number (radix max_digits : Z) (allow_zero_prefix : bool) (max : Z) : reader Z := fun s =>
  match read_digits radix max_digits s 0 0 with
  | None => None
  | Some (value, count, rest) =>
      let leading_zero := match s with String c _ => char_is 48 c | EmptyString => false end in
      if (count =? 0) || negb allow_zero_prefix && leading_zero && (1 <? count) then None
      else if value <=? max then Some (value, rest) else None
  end.

Definition read_char (b : Z) : reader unit := fun s =>
  match s with
  | String c s' => if char_is b c then Some (tt, s') else None
  | EmptyString => None
  end.
(** A separator goes before every element but the first. *)
Definition read_separator {A} (sep : Z) (first : bool) (inner : reader A) : reader A := fun s =>
  if first then inner s
  else match read_char sep s with Some (_, s') => inner s' | None => None end.

Definition read_octet (first : bool) : reader Z := read_separator 46 first (read_number 10 3 false 255).
Definition read_ipv4 : reader (Z * Z * Z * Z) := fun s =>
  match read_octet true s with
  | None => None
  | Some (a, s) =>
      match read_octet false s with
      | None => None
      | Some (b, s) =>
          match read_octet false s with
          | None => None
          | Some (c, s) => match read_octet false s with Some (d, s) => Some ((a, b, c, d), s) | None => None end
          end
      end
  end.

(** Up to [n] groups, the last two of which may be an IPv4 address. *)
Fixpoint read_groups (n : nat) (first : bool) (s : string) : list Z * bool * string :=
  match n with
  | O => ([], false, s)
  | S n' =>
      match (match n' with O => None | S _ => read_separator 58 first read_ipv4 s end) with
      | Some ((a, b, c, d), s') => ([a * 256 + b; c * 256 + d], true, s')
      | None =>
          match read_separator 58 first (read_number 16 4 true 65535) s with
          | Some (g, s') => let '(gs, v4, s'') := read_groups n' false s' in (g :: gs, v4, s'')
          | None => ([], false, s)
          end
      end
  end.
Definition read_ipv6 : reader (list Z) := fun s =>
  let '(head, head_v4, s1) := read_groups 8 true s in
  if Nat.eqb (length head) 8 then Some (head, s1)
  else if head_v4 then None
  else match read_char 58 s1 with
       | None => None
       | Some (_, s2) =>
           match read_char 58 s2 with
           | None => None
           | Some (_, s3) =>
               let '(tail, _, s4) := read_groups (8 - (length head + 1)) true s3 in
               Some (head ++ repeat 0 (8 - length head - length tail) ++ tail, s4)
           end
       end.

Definition ip_parse (s : string) : option IpAddr :=
  let '(ip, rest) := match read_ipv4 s with
                     | Some ((a, b, c, d), rest) => (Some (V4 a b c d), rest)
                     | None => match read_ipv6 s with Some (segments, rest) => (Some (V6 segments), rest) | None => (None, s) end
                     end in
  if is_empty rest then ip else None.

(** [Ipv6Addr::to_ipv4_mapped] and [IpAddr::is_loopback]. *)
Definition mapped (segments : list Z) : option IpAddr :=
  match segments with
  | [a; b; c; d; e; f; g; h] =>
      if bool_decide ([a; b; c; d; e; f] = [0; 0; 0; 0; 0; 65535]) then Some (V4 (g / 256) (g mod 256) (h / 256) (h mod 256)) else None
  | _ => None
  end.
Definition is_loopback (ip : IpAddr) : bool :=
  match ip with
  | V4 a _ _ _ => a =? 127
  | V6 segments => bool_decide (segments = [0; 0; 0; 0; 0; 0; 0; 1])
  end.

(** * Printing *)
Definition octets_text (a b c d : Z) : string :=
  (u64_to_string a ++ "." ++ u64_to_string b ++ "." ++ u64_to_string c ++ "." ++ u64_to_string d)%string.
Definition hex_char (d : Z) : ascii := ascii_of_nat (Z.to_nat (if d <? 10 then 48 + d else 87 + d)).
(** [{:x}] of a segment. *)
Fixpoint hex_digits (fuel : nat) (n : Z) (acc : string) : string :=
  match fuel with
  | O => acc
  | S f => let acc := String (hex_char (n mod 16)) acc in if n <? 16 then acc else hex_digits f (n / 16) acc
  end.
Fixpoint segments_text (l : list Z) : string :=
  match l with
  | [] => ""
  | [s] => hex_digits 4 s ""
  | s :: l => (hex_digits 4 s "" ++ ":" ++ segments_text l)%string
  end.
(** The first longest run of zeros: its start and its length. *)
Fixpoint zero_run (l : list Z) (i start length best best_length : nat) : nat * nat :=
  match l with
  | [] => (best, best_length)
  | s :: l =>
      if s =? 0 then
        let start := match length with O => i | _ => start end in
        let length := S length in
        if Nat.ltb best_length length then zero_run l (S i) start length start length
        else zero_run l (S i) start length best best_length
      else zero_run l (S i) 0 0 best best_length
  end.
Definition ip_text (ip : IpAddr) : string :=
  match ip with
  | V4 a b c d => octets_text a b c d
  | V6 segments =>
      match mapped segments with
      | Some (V4 a b c d) => ("::ffff:" ++ octets_text a b c d)%string
      | _ =>
          let '(start, length) := zero_run segments 0 0 0 0 0 in
          if Nat.ltb 1 length
          then (segments_text (take start segments) ++ "::" ++ segments_text (drop (start + length) segments))%string
          else segments_text segments
      end
  end.

(** * Well-formed addresses *)
Definition ip_ok (ip : IpAddr) : Prop :=
  match ip with
  | V4 a b c d => 0 <= a <= 255 /\ 0 <= b <= 255 /\ 0 <= c <= 255 /\ 0 <= d <= 255
  | V6 segments => length segments = 8%nat /\ Forall (fun s => 0 <= s <= 65535) segments
  end.

Lemma to_digit_bounds radix c d : 0 <= radix -> to_digit radix c = Some d -> 0 <= d < radix.
Proof.
  unfold to_digit, is_ascii_digit, is_ascii_upper, is_ascii_lower. intros Hr. destruct (_ <? _) eqn:E; [|done]. intros [= <-].
  apply Z.ltb_lt in E. split; [|done]. pose proof (byte_of_bounds c). revert E.
  destruct (in_range 48 57 _) eqn:E1; [bool_prop; lia|]. destruct (in_range 65 90 _) eqn:E2; [bool_prop; lia|].
  destruct (in_range 97 122 _) eqn:E3; bool_prop; lia.
Qed.

Lemma read_digits_nonneg radix m s v n v' n' rest :
  0 <= radix -> 0 <= v -> read_digits radix m s v n = Some (v', n', rest) -> 0 <= v'.
Proof.
  intros Hr. revert v n. induction s as [|c s IH]; intros v n Hv; cbn [read_digits]; [by intros [= <- _ _]|].
  destruct (to_digit radix c) as [d|] eqn:Ed; [|by intros [= <- _ _]]. destruct (_ <? _); [done|].
  apply to_digit_bounds in Ed; [|done]. apply IH. nia.
Qed.

Lemma read_number_bounds radix m z max s v rest :
  0 <= radix -> read_number radix m z max s = Some (v, rest) -> 0 <= v <= max.
Proof.
  unfold read_number. intros Hr. destruct (read_digits _ _ _ _ _) as [[[v' n] r]|] eqn:E; [|done]. destruct (_ || _); [done|].
  destruct (v' <=? max) eqn:El; [|done]. intros [= <- _]. apply Z.leb_le in El. split; [|done]. by eapply read_digits_nonneg in E.
Qed.

Lemma read_octet_bounds first s v rest : read_octet first s = Some (v, rest) -> 0 <= v <= 255.
Proof.
  unfold read_octet, read_separator. destruct first; [by apply read_number_bounds|].
  destruct (read_char 46 s) as [[[] s']|]; [by apply read_number_bounds|done].
Qed.

Lemma read_ipv4_ok s a b c d rest : read_ipv4 s = Some (a, b, c, d, rest) -> ip_ok (V4 a b c d).
Proof.
  unfold read_ipv4. destruct (read_octet true s) as [[a1 s1]|] eqn:E1; [|done]. destruct (read_octet false s1) as [[b1 s2]|] eqn:E2; [|done].
  destruct (read_octet false s2) as [[c1 s3]|] eqn:E3; [|done]. destruct (read_octet false s3) as [[d1 s4]|] eqn:E4; [|done]. intros [= <- <- <- <- _].
  repeat match goal with H : read_octet _ _ = _ |- _ => apply read_octet_bounds in H end. done.
Qed.

Lemma read_groups_ok n first s gs v4 rest :
  read_groups n first s = (gs, v4, rest) -> (length gs <= n)%nat /\ Forall (fun g => 0 <= g <= 65535) gs.
Proof.
  revert first s gs v4 rest. induction n as [|n IH]; intros first s gs v4 rest; cbn [read_groups]; [intros [= <- _ _]; split; [done|constructor]|].
  destruct (match n with O => None | S _ => read_separator 58 first read_ipv4 s end) as [[[[[a b] c] d] s']|] eqn:E.
  - intros [= <- _ _]. destruct n; [done|]. split; [cbn; lia|]. unfold read_separator in E.
    assert (Hok : ip_ok (V4 a b c d)) by (destruct first; [|destruct (read_char _ _) as [[[] ?]|]; [|done]]; by eapply read_ipv4_ok).
    destruct Hok as (? & ? & ? & ?). repeat constructor; lia.
  - destruct (read_separator 58 first (read_number 16 4 true 65535) s) as [[g s']|] eqn:Eg; [|intros [= <- _ _]; split; [cbn; lia|constructor]].
    destruct (read_groups n false s') as [[gs' v4'] s''] eqn:Er. intros [= <- _ _]. apply IH in Er as [Hl Hf]. split; [cbn; lia|].
    constructor; [|done]. unfold read_separator in Eg.
    destruct first; [|destruct (read_char _ _) as [[[] ?]|]; [|done]]; by eapply read_number_bounds in Eg.
Qed.

Lemma mapped_ok segments v4 : ip_ok (V6 segments) -> mapped segments = Some v4 -> ip_ok v4.
Proof.
  intros [Hl Hf]. do 9 (destruct segments as [|? segments]; try done). cbn [mapped]. case_bool_decide; [|done]. intros [= <-].
  repeat match goal with H : Forall _ (_ :: _) |- _ => apply Forall_cons_iff in H as [? H] end. cbn.
  assert (Hb : forall n, 0 <= n <= 65535 -> 0 <= n / 256 <= 255 /\ 0 <= n mod 256 <= 255) by (intros n Hn; Z.to_euclidean_division_equations; lia).
  destruct (Hb z5), (Hb z6); auto.
Qed.

(** What is read is an address. *)
Lemma ip_parse_ok s ip : ip_parse s = Some ip -> ip_ok ip.
Proof.
  unfold ip_parse. destruct (read_ipv4 s) as [[[[[a b] c] d] rest]|] eqn:E4.
  - destruct (is_empty rest); [|done]. intros [= <-]. by eapply read_ipv4_ok.
  - destruct (read_ipv6 s) as [[segments rest]|] eqn:E6; [|by destruct (is_empty s)]. destruct (is_empty rest); [|done]. intros [= <-].
    revert E6. unfold read_ipv6. destruct (read_groups 8 true s) as [[head v4] s1] eqn:Eh. apply read_groups_ok in Eh as [Hl Hf].
    destruct (Nat.eqb_spec (length head) 8) as [He|He]; [by intros [= <- _]|]. destruct v4; [done|].
    destruct (read_char 58 s1) as [[[] s2]|]; [|done]. destruct (read_char 58 s2) as [[[] s3]|]; [|done].
    destruct (read_groups _ true s3) as [[tail v4'] s4] eqn:Et. apply read_groups_ok in Et as [Hl' Hf']. intros [= <- _]. split.
    + rewrite !length_app, repeat_length. lia.
    + rewrite !Forall_app. split; [done|]. split; [|done]. apply List.Forall_forall. intros x Hx%repeat_spec. subst x. lia.
Qed.

Example parses_what_it_prints :
  forallb (fun s => match ip_parse s with Some ip => String.eqb (ip_text ip) s | None => false end)
    ["127.0.0.1"; "0.0.0.0"; "255.255.255.255"; "::"; "::1"; "2001:db8::1"; "fe80::1:0:0:2"; "1:2:3:4:5:6:7:8"; "::ffff:10.0.0.1"; "1::"; "1:0:0:2::"]%string = true.
Proof. vm_compute. reflexivity. Qed.
Example refuses :
  forallb (fun s => is_none (ip_parse s))
    [""; "1.2.3"; "1.2.3.4."; "01.2.3.4"; "256.1.1.1"; "1.2.3.4:80"; ":"; ":::"; "1::2::3"; "12345::"; "1:2:3:4:5:6:7:8:9"; "[::1]"; " ::1"]%string = true.
Proof. vm_compute. reflexivity. Qed.
