(* ===== verification/AccessLog.v ===== *)
(** The access log ([access_log.rs]): which address a request is attributed to,
    and the one bounded record each request leaves.

    Header names and networks are read by external crates; the log's queue and
    its files are external. *)
From Stdlib Require Import ZArith Lia Ascii String List Bool.
From stdpp Require Import base list strings decidable.
From S2P Require Import Prelude Errors Http Addr.

Local Open Scope Z_scope.
Local Open Scope rust_scope.

(** * Configuration *)
Inductive Format : Type := FormatJson | FormatText.
Inductive Rotation : Type := Never | Hourly | Daily.
Inductive Output : Type := Stdout | Stderr | File (path : string) (rotation : Rotation) (max_files : Z).
Record Config : Type := mkConfig {
  format : Format;
  output : Output;
  queue_capacity : Z;
  trusted_proxies : list string;
  proxy_header : string;
}.
Definition default_config : Config := mkConfig FormatJson Stdout 4096 [] "x-forwarded-for".

(** [Path::file_name]: the last component, unless it is a parent. *)
Definition file_name (path : string) : option string :=
  match hd_error (rev (List.filter (fun c => negb (is_empty c || String.eqb c ".")) (split_on "/" path))) with
  | Some c => if String.eqb c ".." then None else Some c
  | None => None
  end.

Section access_log.
Context {IpNet : Type} (net_parse : string -> option IpNet) (contains : IpNet -> IpAddr -> bool) (header_name : string -> option string).

(** [io::Error] with its one message. *)
Inductive Invalid : Type := InvalidInput.
Record Trust : Type := mkTrust { proxies : list IpNet; header : string }.

Definition trust (c : Config) : result Invalid Trust :=
  guard? negb (128 <? llen (trusted_proxies c)) else InvalidInput;;
  name <-? ok_or (header_name (proxy_header c)) InvalidInput;;
  guard? negb (String.eqb name "authorization" || String.eqb name "proxy-authorization" || String.eqb name "cookie" || String.eqb name "host")
    else InvalidInput;;
  proxies <-? ok_or (try_map net_parse (trusted_proxies c)) InvalidInput;;
  Ok (mkTrust proxies name).
Definition validate (c : Config) : result Invalid unit :=
  _ <-? trust c;;
  guard? in_range 1 65536 (queue_capacity c) else InvalidInput;;
  match output c with
  | File path _ max_files => ensure (is_some (file_name path) && in_range 1 3650 max_files) InvalidInput
  | _ => Ok tt
  end.

(** * The client's address *)
Definition normalize (ip : IpAddr) : IpAddr :=
  match ip with
  | V6 segments => match mapped segments with Some v4 => v4 | None => ip end
  | _ => ip
  end.
Definition trusted (t : Trust) (ip : IpAddr) : bool := List.existsb (fun p => contains p ip) (proxies t).

Definition address (entry : string) : option IpAddr := option_map normalize (ip_parse (trim entry)).
(** The loop over the addresses from the nearest one. *)
Fixpoint walk (t : Trust) (candidate : IpAddr) (hops : list IpAddr) : IpAddr :=
  match hops with
  | [] => candidate
  | a :: hops => if negb (trusted t candidate) then candidate else walk t a hops
  end.
Definition resolve (t : Trust) (peer : option IpAddr) (hs : header_map) : option IpAddr :=
  match peer with
  | None => None
  | Some peer =>
      let candidate := normalize peer in
      if negb (trusted t candidate) then Some candidate
      else
        match get_all (header t) hs with
        | [] => Some candidate
        | value :: more =>
            if negb (Nat.eqb (length more) 0) || (4096 <? len value) then Some candidate
            else
              match header_str value with
              | None => Some candidate
              | Some value =>
                  let entries := split_on "," value in
                  if 32 <? llen entries then Some candidate
                  else
                    match try_map address entries with
                    | None => Some candidate
                    | Some addresses => Some (if is_empty value then candidate else walk t candidate (rev addresses))
                    end
              end
        end
  end.

(** * Records *)
Record Record : Type := mkRecord {
  timestamp : string;
  request_id : string;
  method : string;
  route : string;
  peer_ip : option IpAddr;
  client_ip : option IpAddr;
  status : option Z;
  outcome : string;
  duration_ms : Z;
  queue_dropped_records : Z;
}.

(** [{:?}] of a route, whose text is ASCII. *)
Fixpoint debug_text (s : string) : string :=
  match s with
  | EmptyString => EmptyString
  | String c s' =>
      let rest := debug_text s' in
      if char_is 34 c || char_is 92 c then String (ascii_of_nat 92) (String c rest)
      else if char_is 0 c then ("\0" ++ rest)%string
      else if char_is 9 c then ("\t" ++ rest)%string
      else if char_is 10 c then ("\n" ++ rest)%string
      else if char_is 13 c then ("\r" ++ rest)%string
      else if is_ascii_control c then ("\u{" ++ hex_digits 4 (byte_of c) "" ++ "}" ++ rest)%string
      else String c rest
  end.
Definition quote : string := String (ascii_of_nat 34) "".
Definition or_dash {A} (text : A -> string) (o : option A) : string := match o with Some a => text a | None => "-" end.
Definition text_line (r : Record) : string :=
  (timestamp r ++ " id=" ++ request_id r ++ " peer=" ++ or_dash ip_text (peer_ip r) ++ " client=" ++ or_dash ip_text (client_ip r)
   ++ " method=" ++ method r ++ " route=" ++ quote ++ debug_text (route r) ++ quote ++ " status=" ++ or_dash u64_to_string (status r)
   ++ " outcome=" ++ outcome r ++ " duration_ms=" ++ u64_to_string (duration_ms r)
   ++ " queue_dropped_records=" ++ u64_to_string (queue_dropped_records r))%string.
Definition newline : ascii := ascii_of_nat 10.

(** [Pending]'s [drop]: the line that is written, if any. *)
Definition written (record_to_vec : Record -> option string) (f : Format) (r : Record) (elapsed_ms dropped : Z) : option string :=
  let r := mkRecord (timestamp r) (request_id r) (method r) (route r) (peer_ip r) (client_ip r) (status r) (outcome r)
             (Z.min elapsed_ms U64_MAX) dropped in
  match f with
  | FormatJson => option_map (fun line => (line ++ String newline "")%string) (record_to_vec r)
  | FormatText => Some (text_line r ++ String newline "")%string
  end.

Definition METHODS : list string := ["GET"; "HEAD"; "POST"; "PUT"; "PATCH"; "DELETE"; "OPTIONS"; "CONNECT"; "TRACE"].

(** [access]: the request's peer, matched route, method and headers; [inner]
    answers, or is dropped with the connection. *)
Definition access (t : Trust) (peer : option IpAddr) (matched : option string) (verb : string) (hs : header_map) (id now : string)
    (inner : option IpAddr -> string -> option http_response) : Record * option http_response :=
  let peer := option_map normalize peer in
  let client := resolve t peer hs in
  let route := match matched with Some p => p | None => "<unmatched>"%string end in
  let verb := if List.existsb (String.eqb verb) METHODS then verb else "OTHER"%string in
  let pending status outcome := mkRecord now id verb route peer client status outcome 0 0 in
  match inner client id with
  | None => (pending None "cancelled", None)
  | Some r => (pending (Some (http_status r)) "response",
               Some {| http_status := http_status r; http_headers := header_insert "x-request-id" id (http_headers r);
                       content_length := content_length r; body_events := body_events r |})
  end.

(** * Facts *)
Lemma walk_trusted t candidate hops a before :
  trusted t candidate = true -> forallb (trusted t) hops = true -> trusted t a = false ->
  walk t candidate (hops ++ a :: before) = a.
Proof.
  revert candidate. induction hops as [|h hops IH]; intros candidate Hc Hall Ha; cbn [walk app]; rewrite Hc; cbn [negb].
  - destruct before as [|b before]; cbn [walk]; [done|]. by rewrite Ha.
  - cbn in Hall. apply andb_true_iff in Hall as [Hh Hall]. by apply IH.
Qed.

(** The walk ends at the first address that is not trusted, or at the last. *)
Lemma walk_stops t candidate hops :
  walk t candidate hops = candidate /\ (trusted t candidate = false \/ hops = []) \/
  trusted t candidate = true /\ exists nearer farther,
    hops = nearer ++ walk t candidate hops :: farther /\ forallb (trusted t) nearer = true /\
    (trusted t (walk t candidate hops) = false \/ farther = []).
Proof.
  revert candidate. induction hops as [|h hops IH]; intros candidate; [by left; auto|]. cbn [walk].
  destruct (trusted t candidate) eqn:Hc; [|by left; auto]. right. split; [done|]. cbn [negb].
  destruct (IH h) as [[E Hend]|(Hh & nearer & farther & E & Hall & Hend)].
  - exists [], hops. rewrite E. done.
  - exists (h :: nearer), farther. rewrite E at 1. split; [done|]. split; [cbn; by rewrite Hh|done].
Qed.

(** A header whose every entry is used. *)
Definition usable (value : string) : bool :=
  (len value <=? 4096) && is_some (header_str value) && (llen (split_on "," value) <=? 32) && is_some (try_map address (split_on "," value)).

Lemma resolve_usable t p hs value :
  trusted t (normalize p) = true -> get_all (header t) hs = [value] ->
  resolve t (Some p) hs = match try_map address (split_on "," value) with
                          | Some addresses => if usable value then Some (walk t (normalize p) (rev addresses)) else Some (normalize p)
                          | None => Some (normalize p)
                          end.
Proof.
  intros Hp Hv. unfold resolve, usable. rewrite Hp, Hv. cbn [negb length Nat.eqb orb]. rewrite Z.leb_antisym.
  destruct (4096 <? len value); [by destruct (try_map _ _)|]. cbn [negb andb]. unfold header_str.
  destruct (all_bytes _ value) eqn:Eh; [|by destruct (try_map _ _)]. cbn [is_some andb]. rewrite Z.leb_antisym.
  destruct (32 <? llen _); [by destruct (try_map _ _)|]. cbn [negb andb]. destruct (try_map _ _) eqn:Et; [|done]. cbn [is_some].
  by destruct value.
Qed.

(** C34: When the peer is a trusted proxy and the one forwarding header ends in the address
    of an untrusted client followed by trusted hops, the resolved address is that
    client's whatever precedes it in the header, or the peer's when the header is
    unusable. *)
Theorem forwarded_address_is_not_spoofed t p hs value suffix a hops :
  trusted t (normalize p) = true -> get_all (header t) hs = [value] ->
  (value = suffix \/ exists prefix, value = (prefix ++ "," ++ suffix)%string) ->
  try_map address (split_on "," suffix) = Some (a :: hops) -> trusted t a = false -> forallb (trusted t) hops = true ->
  resolve t (Some p) hs = Some (if usable value then a else normalize p).
Proof.
  intros Hp Hv Hval Hs Ha Hall. rewrite (resolve_usable _ _ _ _ Hp Hv).
  assert (Hrev : forallb (trusted t) (rev hops) = true).
  { rewrite forallb_forall in Hall |- *. intros x Hx%in_rev. by apply Hall. }
  assert (Hwalk : forall before, walk t (normalize p) (rev (before ++ a :: hops)) = a).
  { intros before. rewrite rev_app_distr. cbn [rev]. rewrite <- app_assoc. by apply walk_trusted. }
  destruct Hval as [->|(prefix & ->)].
  - rewrite Hs. pose proof (Hwalk []) as E. cbn [app] in E. rewrite E. by destruct (usable suffix).
  - change (prefix ++ "," ++ suffix)%string with (prefix ++ String "," suffix)%string. rewrite split_on_join, try_map_app, Hs.
    destruct (try_map address (split_on "," prefix)) as [before|] eqn:Ep; [rewrite Hwalk; by destruct (usable _)|].
    unfold usable. rewrite split_on_join, try_map_app, Ep. cbn [is_some]. by rewrite !andb_false_r.
Qed.

(** Without a header that is used, or from a peer that is not trusted, the
    address is the peer's; otherwise it is one the header names, with only trusted
    hops between. *)
Lemma resolve_named t p hs :
  exists a, resolve t (Some p) hs = Some a /\
    (a = normalize p \/ trusted t (normalize p) = true /\ exists value farther nearer, get_all (header t) hs = [value] /\
       try_map address (split_on "," value) = Some (farther ++ a :: nearer) /\ forallb (trusted t) nearer = true /\
       (trusted t a = false \/ farther = [])).
Proof.
  destruct (trusted t (normalize p)) eqn:Hp; [|unfold resolve; rewrite Hp; eauto].
  destruct (get_all (header t) hs) as [|value [|v more]] eqn:Hv; [unfold resolve; rewrite Hp, Hv; eauto| |unfold resolve; rewrite Hp, Hv; eauto].
  rewrite (resolve_usable _ _ _ _ Hp Hv). destruct (try_map address _) as [addresses|] eqn:Et; [|eauto]. destruct (usable value); [|eauto].
  eexists. split; [done|]. destruct (walk_stops t (normalize p) (rev addresses)) as [[E _]|(_ & nearer & farther & E & Hall & Hend)]; [by left|].
  right. split; [done|]. exists value, (rev farther), (rev nearer). split; [done|]. split; [|split].
  - rewrite Et. f_equal. rewrite <- (rev_involutive addresses), E at 1. rewrite rev_app_distr. cbn [rev]. by rewrite <- app_assoc.
  - rewrite forallb_forall in Hall |- *. intros x Hx%in_rev. by apply Hall.
  - destruct Hend as [Hend| ->]; auto.
Qed.

(** ** A record is one line *)
Definition one_line (s : string) : bool := without newline s.

Lemma one_line_app a b : one_line (a ++ b) = one_line a && one_line b.
Proof. apply all_bytes_app. Qed.
Lemma digits_one_line f n acc : one_line acc = true -> one_line (dec_digits f n acc) = true.
Proof.
  revert n acc. induction f as [|f IH]; intros n acc Hacc; [done|]. cbn [dec_digits].
  assert (Hd : one_line (String (digit_char (n mod 10)) acc) = true).
  { unfold one_line, without. cbn [all_bytes]. apply andb_true_iff. split; [|exact Hacc].
    pose proof (Z.mod_pos_bound n 10). assert (n mod 10 = 0 \/ n mod 10 = 1 \/ n mod 10 = 2 \/ n mod 10 = 3 \/ n mod 10 = 4 \/ n mod 10 = 5 \/
      n mod 10 = 6 \/ n mod 10 = 7 \/ n mod 10 = 8 \/ n mod 10 = 9) as Hc by lia.
    by repeat (destruct Hc as [-> | Hc]; [done|]); rewrite Hc. }
  destruct (n <? 10); [exact Hd|]. by apply IH.
Qed.
Lemma hex_one_line f n acc : 0 <= n -> one_line acc = true -> one_line (hex_digits f n acc) = true.
Proof.
  revert n acc. induction f as [|f IH]; intros n acc Hn Hacc; [done|]. cbn [hex_digits].
  assert (Hd : one_line (String (hex_char (n mod 16)) acc) = true).
  { unfold one_line, without. cbn [all_bytes]. apply andb_true_iff. split; [|exact Hacc]. pose proof (Z.mod_pos_bound n 16).
    unfold hex_char. apply negb_true_iff, Ascii.eqb_neq. intros E. apply (f_equal nat_of_ascii) in E. unfold newline in E.
    rewrite !nat_ascii_embedding in E by (destruct (_ <? 10); lia). destruct (Z.ltb_spec (n mod 16) 10); lia. }
  destruct (n <? 16); [exact Hd|]. apply IH; [|exact Hd]. by apply Z.div_pos.
Qed.
Lemma u64_one_line n : one_line (u64_to_string n) = true.
Proof. by apply digits_one_line. Qed.
Lemma octets_one_line a b c d : one_line (octets_text a b c d) = true.
Proof. unfold octets_text. by rewrite !one_line_app, !u64_one_line. Qed.
Lemma segments_one_line l : Forall (fun s => 0 <= s) l -> one_line (segments_text l) = true.
Proof.
  induction 1 as [|s l Hs _ IH]; [done|]. cbn [segments_text]. destruct l; [by apply hex_one_line|].
  by rewrite !one_line_app, hex_one_line, IH.
Qed.
Lemma ip_one_line ip : ip_ok ip -> one_line (ip_text ip) = true.
Proof.
  destruct ip as [a b c d|segments]; [intros _; apply octets_one_line|]. intros [_ Hf]. unfold ip_text.
  assert (Hn : Forall (fun s => 0 <= s) segments) by (eapply List.Forall_impl; [|exact Hf]; cbn; lia).
  destruct (match mapped segments with Some (V4 _ _ _ _) => true | _ => false end) eqn:Em.
  - destruct (mapped segments) as [[a b c d|]|]; [|done|done]. by rewrite one_line_app, octets_one_line.
  - assert (Hl : one_line (let '(start, length) := zero_run segments 0 0 0 0 0 in
      if Nat.ltb 1 length then (segments_text (take start segments) ++ "::" ++ segments_text (drop (start + length) segments))%string
      else segments_text segments) = true).
    { destruct (zero_run _ _ _ _ _ _) as [start length]. destruct (Nat.ltb 1 length); [|by apply segments_one_line].
      by rewrite !one_line_app, !segments_one_line by auto using Forall_take, Forall_drop. }
    destruct (mapped segments) as [[|]|]; done.
Qed.
Lemma debug_one_line s : one_line (debug_text s) = true.
Proof.
  induction s as [|c s IH]; [done|]. cbn [debug_text]. set (rest := debug_text s) in *.
  destruct (char_is 34 c || char_is 92 c) eqn:E1.
  { unfold one_line, without in *. cbn [all_bytes]. rewrite IH, andb_true_r. destruct (Ascii.eqb_spec c newline) as [->|]; [done|reflexivity]. }
  destruct (char_is 0 c); [by rewrite one_line_app, IH|]. destruct (char_is 9 c); [by rewrite one_line_app, IH|].
  destruct (char_is 10 c) eqn:E2; [by rewrite one_line_app, IH|]. destruct (char_is 13 c); [by rewrite one_line_app, IH|].
  destruct (is_ascii_control c).
  - rewrite !one_line_app, IH, hex_one_line; [done| |done]. pose proof (byte_of_bounds c). lia.
  - unfold one_line, without in *. cbn [all_bytes]. rewrite IH, andb_true_r. destruct (Ascii.eqb_spec c newline) as [->|]; [done|reflexivity].
Qed.

Lemma resolve_ok t peer hs a : (forall p, peer = Some p -> ip_ok p) -> resolve t peer hs = Some a -> ip_ok a.
Proof.
  assert (Hn : forall ip, ip_ok ip -> ip_ok (normalize ip)).
  { intros [? ? ? ?|segments]; [done|]. intros Hs. cbn [normalize]. destruct (mapped segments) as [v4|] eqn:Em; [by eapply mapped_ok|done]. }
  intros Hp Hr. destruct peer as [p|]; [|done]. destruct (resolve_named t p hs) as (a' & Hr' & Hc). rewrite Hr in Hr'. injection Hr' as <-.
  destruct Hc as [->|(_ & value & farther & nearer & _ & Ht & _)]; [by apply Hn, Hp|].
  apply try_map_ok in Ht. apply Forall2_app_inv_r in Ht as (l1 & l2 & _ & Ht & _). inversion Ht as [|entry ? ? ? He]; subst.
  unfold address in He. destruct (ip_parse (trim entry)) as [ip|] eqn:Ei; [|done]. injection He as <-. by eapply Hn, ip_parse_ok.
Qed.

(** Whatever a request holds, its record is one line of text. *)
Lemma record_is_one_line t peer matched verb hs id now inner elapsed_ms dropped to_vec :
  (forall p, peer = Some p -> ip_ok p) -> one_line id = true -> one_line now = true ->
  exists line, written to_vec FormatText (fst (access t peer matched verb hs id now inner)) elapsed_ms dropped = Some (line ++ String newline "")%string /\
    one_line line = true.
Proof.
  intros Hp Hid Hnow. eexists. split; [done|].
  assert (Hn : forall p, option_map normalize peer = Some p -> ip_ok p).
  { intros p E. destruct peer as [q|]; [|done]. injection E as <-. eapply (resolve_ok (mkTrust [] "") (Some q) []); [|done]. exact Hp. }
  assert (Hverb : one_line (if List.existsb (String.eqb verb) METHODS then verb else "OTHER"%string) = true).
  { destruct (List.existsb (String.eqb verb) METHODS) eqn:E; [|done]. apply existsb_exists in E as (m & Hin & ->%String.eqb_eq).
    revert m Hin. apply List.Forall_forall. repeat constructor. }
  assert (Hip : forall o, (forall a, o = Some a -> ip_ok a) -> one_line (or_dash ip_text o) = true) by (intros [a|] Ho; [by apply ip_one_line, Ho|done]).
  pose proof (Hip _ Hn) as Hpeer. pose proof (Hip _ (fun a => resolve_ok t _ hs a Hn)) as Hclient.
  unfold access. destruct (inner _ id) as [r|]; unfold text_line; cbn [fst timestamp request_id method route peer_ip client_ip status outcome duration_ms queue_dropped_records or_dash];
    rewrite !one_line_app, Hid, Hnow, Hverb, Hpeer, Hclient, debug_one_line, !u64_one_line; reflexivity.
Qed.
End access_log.

(** * A proxy chain

    Networks of one first octet, two proxies in 10/8, and a client that sends a
    forwarded address of its own. *)
Definition first_octet (n : Z) (ip : IpAddr) : bool := match ip with V4 a _ _ _ => a =? n | V6 _ => false end.
Definition two_proxies : Trust (IpNet := Z) := mkTrust [10] "x-forwarded-for".
Definition spoofed : header_map := [("x-forwarded-for", "127.0.0.1, 2001:db8::1, ::ffff:203.0.113.9, 10.0.0.2")]%string.
Lemma forwarded_address_is_not_spoofed_witness :
  try_map address (split_on "," " ::ffff:203.0.113.9, 10.0.0.2") = Some [V4 203 0 113 9; V4 10 0 0 2] /\
  resolve first_octet two_proxies (Some (V4 10 0 0 1)) spoofed = Some (V4 203 0 113 9).
Proof.
  split; [vm_compute; reflexivity|].
  rewrite (forwarded_address_is_not_spoofed first_octet two_proxies (V4 10 0 0 1) spoofed "127.0.0.1, 2001:db8::1, ::ffff:203.0.113.9, 10.0.0.2"
    " ::ffff:203.0.113.9, 10.0.0.2" (V4 203 0 113 9) [V4 10 0 0 2]); try (vm_compute; reflexivity).
  right. exists "127.0.0.1, 2001:db8::1"%string. reflexivity.
Defined.
(** An entry that does not read makes the whole header unused. *)
Example garbage_falls_back :
  resolve first_octet two_proxies (Some (V4 10 0 0 1)) [("x-forwarded-for", "unknown, 203.0.113.9")]%string = Some (V4 10 0 0 1).
Proof. vm_compute. reflexivity. Qed.
