(* ===== verification/ClientAuth.v ===== *)
(** Per-client authorization ([client_auth.rs]) and the middleware that accepts
    either the static bearer or a client token ([api.rs], [authorize_api]).

    SHA-256, base64 and the JSON shapes of a token's header and payload are
    external; the user store is what a query is answered with.  Calls interleave
    at their query: a call checks the cache, waits for its answer, and settles. *)
From Stdlib Require Import ZArith Lia Ascii String List Bool.
From stdpp Require Import base list strings decidable gmap countable.
From S2P Require Import Prelude Errors Http.

Local Open Scope Z_scope.
Local Open Scope rust_scope.

Definition HEADER : string := "x-sirius-token".

Record Claims : Type := mkClaims { uid : string; credential : string }.
#[export] Instance Claims_eq_dec : EqDecision Claims.
Proof. solve_decision. Defined.

Definition constant_time_eq (a b : list Z) : bool :=
  Nat.eqb (length a) (length b) && (List.fold_left (fun acc x => Z.lor acc (Z.lxor (fst x) (snd x))) (combine a b) 0 =? 0).

(** * Tokens *)
Section tokens.
Context (sha256 : list Z -> list Z) (b64_decode : string -> option (list Z)).
Context (header_from_slice : list Z -> option (string * option string)).
Context (payload_from_slice : list Z -> option (string * string * option Z)).

Definition hmac_sha256 (key message : list Z) : list Z :=
  let short := if 64 <? llen key then take 32 (sha256 key) else key in
  let block := short ++ replicate (64 - length short) 0 in
  let pad byte := map (fun b => Z.lxor b byte) block in
  sha256 (pad 92 ++ sha256 (pad 54 ++ message)).

Definition verify (token : string) (key : list Z) (now : Z) : option Claims :=
  if 8192 <? len token then None
  else
    match split_on "." token with
    | [header; payload; signature] =>
        match b64_decode signature with
        | None => None
        | Some s =>
            if negb (constant_time_eq s (hmac_sha256 key (bytes_of (header ++ "." ++ payload)))) then None
            else match b64_decode header with
                 | None => None
                 | Some h =>
                     match header_from_slice h with
                     | None => None
                     | Some (alg, typ) =>
                         if negb (String.eqb alg "HS256") || some_and typ (fun t => negb (String.eqb t "JWT")) then None
                         else match b64_decode payload with
                              | None => None
                              | Some p =>
                                  match payload_from_slice p with
                                  | None => None
                                  | Some (uid, credential, exp) =>
                                      if is_empty uid || (256 <? len uid) || is_empty credential || (4096 <? len credential)
                                         || some_and exp (fun e => e <=? now)
                                      then None else Some (mkClaims uid credential)
                                  end
                              end
                     end
                 end
        end
    | _ => None
    end.

(** * Decisions *)
Notation cache_key := (string * list Z)%type.
Notation cache := (gmap (string * list Z) Z).
Definition key_of (c : Claims) : cache_key := (uid c, sha256 (bytes_of (credential c))).

(** What the query returns: a failure or timeout, or the row of the user, if
    there is one: the stored credential and whether the region is granted. *)
Inductive answer : Type := NoAnswer | Row (r : option (string * bool)).

Definition decide_row (c : Claims) (a : answer) : result AppError unit :=
  match a with
  | NoAnswer => Err AuthUnavailable
  | Row None => Err Unauthorized
  | Row (Some (stored, granted)) =>
      if negb (constant_time_eq (bytes_of stored) (bytes_of (credential c))) then Err Unauthorized
      else if negb granted then Err Forbidden
      else Ok tt
  end.

Record Authenticator : Type := mkAuthenticator { signing_key : list Z; ttl : Z; capacity : Z }.

Definition cached (m : cache) (k : cache_key) (now : Z) : bool :=
  match m !! k with Some expiry => now <? expiry | None => false end.
Definition live_at (now : Z) (m : cache) : cache := filter (fun x => now < snd x) m.
Definition remember (a : Authenticator) (m : cache) (k : cache_key) (now : Z) : cache :=
  if ttl a =? 0 then m
  else
    let m := if capacity a <=? Z.of_nat (size m) then live_at now m else m in
    if Z.of_nat (size m) <? capacity a then <[k := now + ttl a]> m else m.

(** A call up to its query: refused, let through from the cache, or asking. *)
Inductive checked : Type := Refused (e : AppError) | Cached (k : cache_key) | Asking (c : Claims).
Definition check (a : Authenticator) (m : cache) (token : string) (wall now : Z) : checked :=
  match verify token (signing_key a) wall with
  | None => Refused Unauthorized
  | Some c => if cached m (key_of c) now then Cached (key_of c) else Asking c
  end.
(** And after it. *)
Definition settle (a : Authenticator) (m : cache) (c : Claims) (r : answer) (now : Z) : result AppError unit * cache :=
  match decide_row c r with
  | Err e => (Err e, m)
  | Ok _ => (Ok tt, remember a m (key_of c) now)
  end.

(** One call by itself. *)
Definition authorize_token (a : Authenticator) (m : cache) (token : string) (wall now : Z) (r : answer) (later : Z)
  : result AppError unit * cache :=
  match check a m token wall now with
  | Refused e => (Err e, m)
  | Cached _ => (Ok tt, m)
  | Asking c => settle a m c r later
  end.

(** All calls: the cache, the clock, the calls that ask, the approvals of the
    user store and the calls let through, with their times. *)
Record calls : Type := mkCalls {
  the_cache : cache;
  clock : Z;
  asking : list Claims;
  approved : list (cache_key * Z);
  passed : list (cache_key * Z);
}.
Definition no_calls : calls := mkCalls ∅ 0 [] [] [].

Inductive auth_step (a : Authenticator) : calls -> calls -> Prop :=
| as_check s token wall now : clock s <= now ->
    auth_step a s
      match check a (the_cache s) token wall now with
      | Refused _ => mkCalls (the_cache s) now (asking s) (approved s) (passed s)
      | Cached k => mkCalls (the_cache s) now (asking s) (approved s) ((k, now) :: passed s)
      | Asking c => mkCalls (the_cache s) now (c :: asking s) (approved s) (passed s)
      end
| as_settle s before c after r now : clock s <= now -> asking s = before ++ c :: after ->
    auth_step a s
      match settle a (the_cache s) c r now with
      | (Err _, m) => mkCalls m now (before ++ after) (approved s) (passed s)
      | (Ok _, m) => mkCalls m now (before ++ after) ((key_of c, now) :: approved s) ((key_of c, now) :: passed s)
      end
| as_cancel s before c after : asking s = before ++ c :: after ->
    auth_step a s (mkCalls (the_cache s) (clock s) (before ++ after) (approved s) (passed s)).

Inductive auth_reachable (a : Authenticator) : calls -> Prop :=
| ar_start : auth_reachable a no_calls
| ar_step s s' : auth_reachable a s -> auth_step a s s' -> auth_reachable a s'.

(** [authorize_api]: the static bearer, or one client token. *)
Definition authorize_api (token : string) (client_auth : option (string -> result AppError unit)) (hs : header_map)
  : result AppError unit :=
  match get_all HEADER hs with
  | [] => authorize token hs
  | users =>
      match client_auth with
      | None => Err Unauthorized
      | Some auth =>
          match users with
          | [_] =>
              if is_some (header_get "authorization" hs) then Err Unauthorized
              else match header_get HEADER hs with
                   | Some v => match header_str v with Some v => auth v | None => Err Unauthorized end
                   | None => Err Unauthorized
                   end
          | _ => Err Unauthorized
          end
      end
  end.

(** * Lemmas *)
Lemma fold_lor l acc :
  List.fold_left (fun acc x => Z.lor acc (Z.lxor (fst x) (snd x))) l acc = 0 <-> acc = 0 /\ Forall (fun x : Z * Z => fst x = snd x) l.
Proof.
  revert acc. induction l as [|[x y] l IH]; intros acc; cbn; [split; [by repeat constructor|tauto]|].
  rewrite IH, Z.lor_eq_0_iff, Z.lxor_eq_0_iff, Forall_cons_iff. tauto.
Qed.

Lemma constant_time_eq_spec a b : constant_time_eq a b = true <-> a = b.
Proof.
  unfold constant_time_eq. rewrite andb_true_iff, Nat.eqb_eq, Z.eqb_eq, fold_lor. split.
  - intros (Hl & _ & Hall). revert b Hl Hall. induction a as [|x a IH]; intros [|y b] Hl Hall; try done. cbn in *.
    apply Forall_cons_iff in Hall as [Hx Hall]. cbn in Hx. f_equal; [done|]. apply IH; [lia|done].
  - intros ->. split; [done|]. split; [done|]. induction b as [|x b IH]; cbn; constructor; done.
Qed.

(** C22: A client token is accepted with given claims exactly when it has three parts within
    the size limit, its signature is the HMAC-SHA-256 of the first two under the key,
    its header says HS256 and no other type than JWT, and its payload holds these
    claims, non-empty and within their limits, with no expiry that has passed. *)
Theorem verify_exact token key now c :
  verify token key now = Some c <->
  len token <= 8192 /\ exists header payload signature h p typ exp,
    split_on "." token = [header; payload; signature] /\
    b64_decode signature = Some (hmac_sha256 key (bytes_of (header ++ "." ++ payload))) /\
    b64_decode header = Some h /\ header_from_slice h = Some ("HS256"%string, typ) /\ (typ = None \/ typ = Some "JWT"%string) /\
    b64_decode payload = Some p /\ payload_from_slice p = Some (uid c, credential c, exp) /\
    1 <= len (uid c) <= 256 /\ 1 <= len (credential c) <= 4096 /\ (forall e, exp = Some e -> now < e).
Proof.
  assert (Hempty : forall s, is_empty s = false <-> 1 <= len s).
  { intros s. rewrite <- not_true_iff_false, is_empty_len. pose proof (len_nonneg s). lia. }
  unfold verify. split.
  - destruct (Z.ltb_spec 8192 (len token)) as [|Hl]; [done|]. destruct (split_on "." token) as [|header [|payload [|signature [|]]]] eqn:Es; try done.
    destruct (b64_decode signature) as [s|] eqn:E1; [|done]. destruct (constant_time_eq s _) eqn:Ec; [|done]. apply constant_time_eq_spec in Ec as ->.
    destruct (b64_decode header) as [h|] eqn:E2; [|done]. destruct (header_from_slice h) as [[alg typ]|] eqn:E3; [|done]. cbn [negb].
    destruct (String.eqb_spec alg "HS256") as [->|]; [|done]. destruct (some_and typ _) eqn:E4; [done|]. cbn [negb orb].
    destruct (b64_decode payload) as [p|] eqn:E5; [|done]. destruct (payload_from_slice p) as [[[u cr] exp]|] eqn:E6; [|done].
    match goal with |- (if ?b then _ else _) = _ -> _ => destruct b eqn:E7; [done|] end. intros [= <-]. cbn [uid credential].
    rewrite !orb_false_iff, !Hempty, !Z.ltb_ge in E7. destruct E7 as ((((H1 & H2) & H3) & H4) & H5).
    split; [done|]. exists header, payload, signature, h, p, typ, exp. repeat split; try done.
    + destruct typ as [t|]; [right|by left]. cbn in E4. apply negb_false_iff, String.eqb_eq in E4. by rewrite E4.
    + intros e ->. cbn in H5. lia.
  - intros (Hl & header & payload & signature & h & p & typ & exp & Es & E1 & E2 & E3 & Ht & E5 & E6 & [H1 H2] & [H3 H4] & H5).
    destruct (Z.ltb_spec 8192 (len token)); [lia|]. rewrite Es, E1, (proj2 (constant_time_eq_spec _ _) eq_refl), E2, E3. cbn [negb].
    rewrite String.eqb_refl. assert (some_and typ (fun t => negb (String.eqb t "JWT")) = false) as -> by (by destruct Ht as [-> | ->]).
    cbn [negb orb]. rewrite E5, E6. rewrite (proj2 (Hempty (uid c)) H1), (proj2 (Hempty (credential c)) H3).
    apply Z.ltb_ge in H2 as ->. apply Z.ltb_ge in H4 as ->. cbn [orb].
    assert (some_and exp (fun e => e <=? now) = false) as ->; [|by destruct c].
    destruct exp as [e|]; [|done]. cbn. specialize (H5 e eq_refl). lia.
Qed.

(** The cache of a process: it holds at most its capacity, and each entry is an
    approval that has not yet been held for the lifetime. *)
Record auth_ok (a : Authenticator) (s : calls) : Prop := {
  ao_size : Z.of_nat (size (the_cache s)) <= capacity a;
  ao_entries : forall k e, the_cache s !! k = Some e -> exists t, In (k, t) (approved s) /\ e = t + ttl a /\ t <= clock s;
  ao_passed : forall k t, In (k, t) (passed s) -> exists t0, In (k, t0) (approved s) /\ t0 <= t /\ (t0 = t \/ t < t0 + ttl a);
}.

Lemma live_at_lookup now m k e : live_at now m !! k = Some e <-> m !! k = Some e /\ now < e.
Proof. unfold live_at. by rewrite map_lookup_filter_Some. Qed.

Lemma live_at_size now m : (size (live_at now m) <= size m)%nat.
Proof.
  unfold live_at. rewrite <- !size_dom. apply subseteq_size. intros k Hk. apply elem_of_dom in Hk as [e He].
  apply live_at_lookup in He as [He _]. apply elem_of_dom. eauto.
Qed.

Lemma remember_entries a m k now k' e :
  remember a m k now !! k' = Some e -> m !! k' = Some e \/ (k' = k /\ e = now + ttl a).
Proof.
  unfold remember. destruct (ttl a =? 0); [by left|]. set (m' := if _ <=? _ then _ else m).
  assert (Hm : forall k e, m' !! k = Some e -> m !! k = Some e).
  { intros k0 e0. unfold m'. destruct (_ <=? _); [|done]. intros H. by apply live_at_lookup in H as [H _]. }
  destruct (_ <? _); [|auto]. destruct (decide (k = k')) as [->|Hne].
  - rewrite lookup_insert_eq. intros [= <-]. by right.
  - rewrite lookup_insert_ne by done. auto.
Qed.

Lemma remember_size a m k now : Z.of_nat (size m) <= capacity a -> Z.of_nat (size (remember a m k now)) <= capacity a.
Proof.
  intros Hm. unfold remember. destruct (ttl a =? 0); [done|]. set (m' := if _ <=? _ then _ else m).
  assert (Hm' : Z.of_nat (size m') <= capacity a).
  { unfold m'. destruct (_ <=? _); [|done]. pose proof (live_at_size now m). lia. }
  destruct (Z.ltb_spec (Z.of_nat (size m')) (capacity a)); [|done].
  destruct (m' !! k) eqn:E; [rewrite map_size_insert_Some by by rewrite E|rewrite map_size_insert_None by done]; lia.
Qed.

Lemma auth_step_ok a s s' : 0 <= ttl a -> auth_ok a s -> auth_step a s s' -> auth_ok a s'.
Proof.
  intros Httl [H1 H2 H3] Hs. destruct Hs as [s token wall now Hnow|s before c after r now Hnow Hask|s before c after Hask].
  - assert (Hold : forall k e, the_cache s !! k = Some e -> exists t, In (k, t) (approved s) /\ e = t + ttl a /\ t <= now).
    { intros k e He. destruct (H2 k e He) as (t & Ht & E & Hle). exists t. split; [done|]. split; [done|lia]. }
    unfold check. destruct (verify _ _ _) as [c|]; [|by constructor]. destruct (cached _ _ _) eqn:Ec; [|by constructor].
    constructor; [done|done|]. cbn [passed approved]. intros k t [E|Hin]; [|auto]. injection E as <- <-. unfold cached in Ec.
    destruct (the_cache s !! key_of c) as [e|] eqn:Ee; [|done]. apply Z.ltb_lt in Ec. destruct (Hold _ _ Ee) as (t0 & Ht0 & -> & Hle).
    exists t0. split; [done|]. split; [done|]. by right.
  - unfold settle. destruct (decide_row c r) as [u|e].
    + constructor; cbn [the_cache clock approved passed].
      * by apply remember_size.
      * intros k e He. apply remember_entries in He as [He|[-> ->]].
        -- destruct (H2 k e He) as (t & Ht & E & Hle). exists t. split; [by right|]. split; [done|lia].
        -- exists now. split; [by left|]. split; [done|lia].
      * intros k t [E|Hin].
        -- injection E as <- <-. exists now. split; [by left|]. split; [lia|by left].
        -- destruct (H3 k t Hin) as (t0 & Ht0 & Hrest). exists t0. split; [by right|done].
    + constructor; cbn [the_cache clock approved passed]; [done| |done].
      intros k e' He. destruct (H2 k e' He) as (t & Ht & E & Hle). exists t. split; [done|]. split; [done|lia].
  - by constructor.
Qed.

(** C23: In every interleaving of calls, user-store answers and cancellations the decision
    cache stays within its capacity and every call let through has an approval of the
    user store for the same user and credential digest, given for this call or less than
    the cache lifetime before it. *)
Theorem approvals_expire a s :
  0 <= ttl a -> 0 <= capacity a -> auth_reachable a s ->
  Z.of_nat (size (the_cache s)) <= capacity a /\
  forall k t, In (k, t) (passed s) -> exists t0, In (k, t0) (approved s) /\ t0 <= t /\ (t0 = t \/ t < t0 + ttl a).
Proof.
  intros Ht Hc Hr. assert (Hok : auth_ok a s).
  { induction Hr as [|s s' _ IH Hs]; [|by eapply auth_step_ok]. constructor; [|done|done]. cbn [the_cache no_calls]. rewrite map_size_empty. lia. }
  split; apply Hok.
Qed.

(** What the store's approval means. *)
Lemma decide_row_ok c r : decide_row c r = Ok tt <-> exists stored, r = Row (Some (stored, true)) /\ stored = credential c.
Proof.
  unfold decide_row. split.
  - destruct r as [|[[stored granted]|]]; try done. destruct (constant_time_eq _ _) eqn:E; [|done]. apply constant_time_eq_spec, bytes_of_inj in E.
    destruct granted; [|done]. intros _. by exists stored.
  - intros (stored & -> & ->). by rewrite (proj2 (constant_time_eq_spec _ _) eq_refl).
Qed.
End tokens.

(** A request to the public API passes exactly when it has one authorization header
    with the static bearer and no client token, or exactly one client token, no
    authorization header and client authorization that accepts the token. *)
Lemma one_credential_passes token auth hs :
  authorize_api token auth hs = Ok tt <->
  (get_all HEADER hs = [] /\ get_all "authorization" hs = [bearer token] /\ header_str (bearer token) = Some (bearer token)) \/
  (exists f v, auth = Some f /\ get_all HEADER hs = [v] /\ get_all "authorization" hs = [] /\ header_str v = Some v /\ f v = Ok tt).
Proof.
  assert (Hget : forall k, header_get k hs = hd_error (get_all k hs)).
  { intros k. unfold header_get, get_all. induction hs as [|[a b] l IH]; [done|]. cbn. by destruct (String.eqb a k). }
  assert (Hstr : forall v w, header_str v = Some w -> v = w /\ header_str w = Some w).
  { intros v w. unfold header_str. destruct (all_bytes _ v) eqn:E; [|done]. intros [= ->]. by rewrite E. }
  unfold authorize_api. rewrite !Hget. destruct (get_all HEADER hs) as [|v [|w vs]] eqn:Eu; cbn [hd_error].
  - unfold authorize. split.
    + intros Ha. left. split; [done|]. destruct (get_all "authorization" hs) as [|b [|]]; try done.
      destruct (bool_decide _) eqn:E; [|done]. apply bool_decide_eq_true in E. by apply Hstr in E as [-> ->].
    + intros [(_ & -> & E)|(f & v & _ & E & _)]; [|done]. by rewrite bool_decide_eq_true_2.
  - split.
    + destruct auth as [f|]; [|done]. destruct (get_all "authorization" hs) as [|b bs] eqn:Ea; cbn; [|done].
      destruct (header_str v) as [w|] eqn:E; [|done]. apply Hstr in E as [-> E]. intros Hf. right. by exists f, w.
    + intros [(E & _)|(f & v' & -> & E & -> & Hv & Hf)]; [done|]. injection E as ->. cbn. by rewrite Hv.
  - split; [by destruct auth|]. intros [(E & _)|(f & v' & _ & E & _)]; done.
Qed.

(** * An example *)
Module Example_store.
Definition sha256 (l : list Z) : list Z := [115].
Definition b64_decode (s : string) : option (list Z) := Some (bytes_of s).
Definition header_from_slice (l : list Z) : option (string * option string) := Some ("HS256"%string, Some "JWT"%string).
Definition payload_from_slice (l : list Z) : option (string * string * option Z) :=
  Some ("alice"%string, "secret"%string, Some 100).
Definition a : Authenticator := mkAuthenticator [1; 2; 3] 30 1.
Definition alice : Claims := mkClaims "alice" "secret".
Definition k : string * list Z := key_of sha256 alice.
Definition token : string := "header.payload.s".
(** Alice's first call has been approved at 6; her second is let through at 20. *)
Definition asked : calls := mkCalls ∅ 5 [alice] [] [].
Definition settled : calls := mkCalls {[k := 36]} 6 [] [(k, 6)] [(k, 6)].
Definition reused : calls := mkCalls {[k := 36]} 20 [] [(k, 6)] [(k, 20); (k, 6)].

Lemma reused_reachable : auth_reachable sha256 b64_decode header_from_slice payload_from_slice a reused.
Proof.
  apply (ar_step _ _ _ _ _ settled); [apply (ar_step _ _ _ _ _ asked); [apply (ar_step _ _ _ _ _ no_calls); [constructor|]|]|].
  - exact (as_check sha256 b64_decode header_from_slice payload_from_slice a no_calls token 7 5 ltac:(done)).
  - exact (as_settle sha256 b64_decode header_from_slice payload_from_slice a asked [] alice [] (Row (Some ("secret"%string, true))) 6 ltac:(done) eq_refl).
  - exact (as_check sha256 b64_decode header_from_slice payload_from_slice a settled token 7 20 ltac:(done)).
Qed.
End Example_store.

Lemma approvals_expire_witness :
  auth_reachable Example_store.sha256 Example_store.b64_decode Example_store.header_from_slice
    Example_store.payload_from_slice Example_store.a Example_store.reused /\
  exists t0, In (Example_store.k, t0) (approved Example_store.reused) /\ t0 <= 20 /\ (t0 = 20 \/ 20 < t0 + 30).
Proof.
  split; [exact Example_store.reused_reachable|].
  exact (proj2 (approvals_expire _ _ _ _ Example_store.a Example_store.reused ltac:(done) ltac:(done) Example_store.reused_reachable)
    Example_store.k 20 (or_introl eq_refl)).
Defined.
