(* ===== verification/Rijndael.v ===== *)
(** Rijndael with 256-bit blocks and keys, CBC decryption ([rijndael.rs]).

    The source only decrypts.  The forward cipher of the Rijndael
    specification ([encrypt_block], [cbc_encrypt]) is the reference: the main
    theorem says that [decrypt] accepts exactly the CBC encryptions of padded
    plaintexts and returns the plaintext.  Bytes are integers in [0, 256). *)
From Stdlib Require Import ZArith Lia List Bool Btauto.
From stdpp Require Import base decidable list.
From S2P Require Import Prelude Errors.

Local Open Scope Z_scope.

(** ** Field arithmetic *)

(** One iteration: [a = (a << 1) ^ if a & 128 != 0 { 0x1b } else { 0 }] on [u8]. *)
Definition xtime (a : Z) : Z :=
  Z.lxor (Z.land (Z.shiftl a 1) 255) (if Z.land a 128 =? 0 then 0 else 27).

Fixpoint mul_loop (n : nat) (a b result : Z) : Z :=
  match n with
  | O => result
  | S n =>
      let result := if Z.land b 1 =? 0 then result else Z.lxor result a in
      mul_loop n (xtime a) (Z.shiftr b 1) result
  end.

Definition mul (a b : Z) : Z := mul_loop 8 a b 0.

(** [u8::rotate_left]. *)
Definition rotl8 (x n : Z) : Z :=
  Z.lor (Z.land (Z.shiftl x n) 255) (Z.shiftr x (8 - n)).

(** The multiplicative inverse as [x^254], then the affine map. *)
Definition sbox_entry (i : Z) : Z :=
  let x := Nat.iter 254 (fun x => mul x i) 1 in
  Z.lxor (Z.lxor (Z.lxor (Z.lxor (Z.lxor x (rotl8 x 1)) (rotl8 x 2)) (rotl8 x 3)) (rotl8 x 4)) 99.

Definition byte_range : list Z := map Z.of_nat (seq 0 256).

Definition boxes : list Z * list Z :=
  fold_left
    (fun '(sbox, inverse) i =>
       let value := sbox_entry i in
       (<[Z.to_nat i := value]> sbox, <[Z.to_nat value := i]> inverse))
    byte_range (replicate 256 0, replicate 256 0).

(** Indexing an array by a byte. *)
Definition at_byte (t : list Z) (b : Z) : Z := nth (Z.to_nat b) t 0.

(** ** Key schedule *)
Definition word := list Z.

Record Rijndael256 : Type := { words : list word; inverse : list Z }.

Definition word_at (ws : list word) (i : nat) : word := nth i ws [].

(** [as_chunks::<n>().0]: the full chunks. *)
Fixpoint chunks (fuel n : nat) (l : list Z) : list (list Z) :=
  match fuel with
  | O => []
  | S fuel => if (length l <? n)%nat then [] else take n l :: chunks fuel n (drop n l)
  end.
Definition as_chunks (n : nat) (l : list Z) : list (list Z) := chunks (length l) n l.

Definition rotate_left1 (t : word) : word :=
  match t with [] => [] | b :: t => t ++ [b] end.

Definition xor_bytes (a b : list Z) : list Z := zip_with Z.lxor a b.

Definition schedule_word (sbox : list Z) (ws : list word) (rcon : Z) (i : nat) : word * Z :=
  let t := word_at ws (i - 1) in
  let '(t, rcon) :=
    if (i mod 8 =? 0)%nat then
      let t := map (at_byte sbox) (rotate_left1 t) in
      let t := match t with [] => [] | b :: t => Z.lxor b rcon :: t end in
      (t, mul rcon 2)
    else if (i mod 8 =? 4)%nat then (map (at_byte sbox) t, rcon)
    else (t, rcon) in
  (xor_bytes (word_at ws (i - 8)) t, rcon).

Definition schedule_step (sbox : list Z) (st : list word * Z) (i : nat) : list word * Z :=
  let '(ws, rcon) := st in
  let '(w, rcon) := schedule_word sbox ws rcon i in
  (<[i := w]> ws, rcon).

Definition new (key : list Z) : Rijndael256 :=
  let '(sbox, inverse) := boxes in
  let ws := take 120 (as_chunks 4 key) ++ replicate (120 - length (as_chunks 4 key)) [0;0;0;0] in
  let '(ws, _) := fold_left (schedule_step sbox) (seq 8 112) (ws, 1) in
  {| words := ws; inverse := inverse |}.

(** ** One block *)
Definition at_idx (s : list Z) (i : nat) : Z := nth i s 0.

Definition add_key (r : Rijndael256) (state : list Z) (round : nat) : list Z :=
  imap (fun i b => Z.lxor b (at_idx (word_at (words r) (round * 8 + i / 4)) (i mod 4))) state.

Definition shift_of (row : nat) : nat := nth row [0; 1; 3; 4]%nat 0%nat.

Definition inv_shift_sub (r : Rijndael256) (previous : list Z) : list Z :=
  map (fun i => let column := (i / 4)%nat in let row := (i mod 4)%nat in
                at_byte (inverse r) (at_idx previous (((column + 8 - shift_of row) mod 8) * 4 + row)))
      (seq 0 32).

Definition inv_mix_column (a : word) : word :=
  map (fun row =>
         Z.lxor (Z.lxor (Z.lxor (mul (at_idx a row) 14) (mul (at_idx a ((row + 1) mod 4)) 11))
                        (mul (at_idx a ((row + 2) mod 4)) 13))
                (mul (at_idx a ((row + 3) mod 4)) 9))
      (seq 0 4).

Definition inv_mix (state : list Z) : list Z := concat (map inv_mix_column (as_chunks 4 state)).

Definition round_step (r : Rijndael256) (state : list Z) (round : nat) : list Z :=
  let state := add_key r (inv_shift_sub r state) round in
  if (round =? 0)%nat then state else inv_mix state.

Definition block (r : Rijndael256) (input : list Z) : list Z :=
  fold_left (round_step r) (rev (seq 0 14)) (add_key r input 14).

(** ** CBC with padding *)
Fixpoint cbc_loop (r : Rijndael256) (previous : list Z) (blocks : list (list Z)) : list Z :=
  match blocks with
  | [] => []
  | b :: bs => xor_bytes (block r b) previous ++ cbc_loop r b bs
  end.

Definition decrypt (r : Rijndael256) (encrypted iv : list Z) : result MasterError (list Z) :=
  if (length encrypted =? 0)%nat || negb (length encrypted mod 32 =? 0)%nat then Err MCipher
  else
    let output := cbc_loop r iv (as_chunks 32 encrypted) in
    match list.last output with
    | None => Err MCipher
    | Some p =>
        let padding := Z.to_nat p in
        if negb (in_range 1 32 p)
           || negb (forallb (fun b => b =? p) (drop (length output - padding) output))
        then Err MCipher
        else Ok (take (length output - padding) output)
    end.

(** * The forward cipher *)

Definition sub_shift (sbox state : list Z) : list Z :=
  map (fun i => let column := (i / 4)%nat in let row := (i mod 4)%nat in
                at_byte sbox (at_idx state (((column + shift_of row) mod 8) * 4 + row)))
      (seq 0 32).

Definition mix_column (a : word) : word :=
  map (fun row =>
         Z.lxor (Z.lxor (Z.lxor (mul (at_idx a row) 2) (mul (at_idx a ((row + 1) mod 4)) 3))
                        (mul (at_idx a ((row + 2) mod 4)) 1))
                (mul (at_idx a ((row + 3) mod 4)) 1))
      (seq 0 4).
Definition mix (state : list Z) : list Z := concat (map mix_column (as_chunks 4 state)).

Definition enc_step (r : Rijndael256) (state : list Z) (round : nat) : list Z :=
  let state := if (round =? 0)%nat then state else mix state in
  sub_shift (fst boxes) (add_key r state round).

(** Key addition, thirteen full rounds and a last round without mixing. *)
Definition encrypt_block (r : Rijndael256) (input : list Z) : list Z :=
  add_key r (fold_left (enc_step r) (seq 0 14) input) 14.

Fixpoint cbc_encrypt (r : Rijndael256) (previous : list Z) (blocks : list (list Z)) : list Z :=
  match blocks with
  | [] => []
  | b :: bs =>
      let c := encrypt_block r (xor_bytes b previous) in c ++ cbc_encrypt r c bs
  end.

(** PKCS#7 padding to whole blocks. *)
Definition pad (plain : list Z) : list Z :=
  let n := (32 - length plain mod 32)%nat in plain ++ replicate n (Z.of_nat n).

Definition encrypt (r : Rijndael256) (plain iv : list Z) : list Z :=
  cbc_encrypt r iv (as_chunks 32 (pad plain)).

Definition is_byte (b : Z) : Prop := 0 <= b < 256.

(** * Field arithmetic lemmas *)

(** Equality of expressions built from [Z.lxor], bit by bit. *)
Ltac xor_tauto :=
  apply Z.bits_inj'; intros ? ?;
  repeat (rewrite Z.lxor_spec || rewrite Z.land_spec || rewrite Z.bits_0); btauto.

Lemma land128 a : (Z.land a 128 =? 0) = negb (Z.testbit a 7).
Proof.
  change 128 with (2 ^ 7).
  destruct (Z.eqb_spec (Z.land a (2 ^ 7)) 0) as [E|E].
  - apply (f_equal (fun z => Z.testbit z 7)) in E.
    rewrite Z.land_spec, Z.bits_0, Z.pow2_bits_true, andb_true_r in E by lia.
    by rewrite E.
  - destruct (Z.testbit a 7) eqn:B; [done|]. exfalso. apply E.
    apply Z.bits_inj'. intros n Hn. rewrite Z.land_spec, Z.bits_0, Z.pow2_bits_eqb by lia.
    destruct (Z.eqb_spec 7 n) as [<-|]; [by rewrite B|apply andb_false_r].
Qed.

Lemma xtime_lxor a b : xtime (Z.lxor a b) = Z.lxor (xtime a) (xtime b).
Proof.
  unfold xtime. rewrite !land128, Z.lxor_spec, Z.shiftl_lxor.
  destruct (Z.testbit a 7), (Z.testbit b 7); cbn -[Z.lxor Z.land Z.shiftl]; xor_tauto.
Qed.

Lemma mul_loop_acc n a b r : mul_loop n a b r = Z.lxor (mul_loop n a b 0) r.
Proof.
  revert a b r. induction n as [|n IH]; intros; cbn [mul_loop]; [by rewrite Z.lxor_0_l|].
  rewrite IH, (IH _ _ (if Z.land b 1 =? 0 then 0 else Z.lxor 0 a)).
  destruct (Z.land b 1 =? 0); [by rewrite Z.lxor_0_r|].
  rewrite Z.lxor_0_l. xor_tauto.
Qed.

Lemma mul_lxor a a' b : mul (Z.lxor a a') b = Z.lxor (mul a b) (mul a' b).
Proof.
  unfold mul. generalize 8%nat as n. intros n. revert a a' b.
  induction n as [|n IH]; intros; cbn [mul_loop]; [done|].
  rewrite xtime_lxor, (mul_loop_acc n (Z.lxor _ _)), (mul_loop_acc n (xtime a)),
    (mul_loop_acc n (xtime a')), IH.
  destruct (Z.land b 1 =? 0); [by rewrite !Z.lxor_0_r|].
  rewrite !Z.lxor_0_l. xor_tauto.
Qed.

(** ** Bytes *)

Lemma is_byte_land b : is_byte b <-> Z.land b 255 = b.
Proof.
  unfold is_byte. change 255 with (Z.ones 8). rewrite Z.land_ones by lia.
  change (2 ^ 8) with 256. split; intros H.
  - by apply Z.mod_small.
  - rewrite <- H. apply Z.mod_pos_bound. lia.
Qed.

Lemma lxor_byte a b : is_byte a -> is_byte b -> is_byte (Z.lxor a b).
Proof. rewrite !is_byte_land. intros <- <-. xor_tauto. Qed.

Lemma xtime_byte a : is_byte (xtime a).
Proof.
  unfold xtime. apply lxor_byte; [|destruct (_ =? _); unfold is_byte; lia].
  apply is_byte_land. rewrite <- Z.land_assoc. done.
Qed.

Lemma mul_byte a b : is_byte a -> is_byte (mul a b).
Proof.
  unfold mul. assert (H0 : is_byte 0) by (unfold is_byte; lia).
  revert H0. generalize 0 as r. generalize 8%nat as n.
  intros n; revert a b. induction n as [|n IH]; intros a b r Hr Ha; cbn [mul_loop]; [done|].
  apply IH; [|apply xtime_byte]. destruct (_ =? _); auto using lxor_byte.
Qed.

Lemma byte_forall (f : Z -> bool) :
  forallb f byte_range = true -> forall b, is_byte b -> f b = true.
Proof.
  rewrite forallb_forall. intros H b Hb. apply H. unfold byte_range.
  apply in_map_iff. exists (Z.to_nat b). unfold is_byte in Hb.
  rewrite in_seq. split; lia.
Qed.

(** ** Columns *)

Definition lx4 (a b c d : Z) : Z := Z.lxor (Z.lxor (Z.lxor a b) c) d.

(** The circulant map with first row [c0 c1 c2 c3]. *)
Definition circ (c0 c1 c2 c3 : Z) (a : word) : word :=
  map (fun row =>
         lx4 (mul (at_idx a row) c0) (mul (at_idx a ((row + 1) mod 4)) c1)
             (mul (at_idx a ((row + 2) mod 4)) c2) (mul (at_idx a ((row + 3) mod 4)) c3))
      (seq 0 4).

Lemma mul_lx4 a b c d k : mul (lx4 a b c d) k = lx4 (mul a k) (mul b k) (mul c k) (mul d k).
Proof. unfold lx4. by rewrite !mul_lxor. Qed.

Lemma row_regroup a0 a1 a2 a3 b0 b1 b2 b3 c0 c1 c2 c3 d0 d1 d2 d3 :
  lx4 (lx4 a0 a1 a2 a3) (lx4 b1 b2 b3 b0) (lx4 c2 c3 c0 c1) (lx4 d3 d0 d1 d2) =
  lx4 (lx4 a0 b0 c0 d0) (lx4 a1 b1 c1 d1) (lx4 a2 b2 c2 d2) (lx4 a3 b3 c3 d3).
Proof. unfold lx4. xor_tauto. Qed.

(** Two circulant maps are inverse when their product is the identity on every
    byte. *)
Definition circ_inverse_on (c0 c1 c2 c3 d0 d1 d2 d3 a : Z) : bool :=
  (lx4 (mul (mul a c0) d0) (mul (mul a c3) d1) (mul (mul a c2) d2) (mul (mul a c1) d3) =? a)
  && (lx4 (mul (mul a c1) d0) (mul (mul a c0) d1) (mul (mul a c3) d2) (mul (mul a c2) d3) =? 0)
  && (lx4 (mul (mul a c2) d0) (mul (mul a c1) d1) (mul (mul a c0) d2) (mul (mul a c3) d3) =? 0)
  && (lx4 (mul (mul a c3) d0) (mul (mul a c2) d1) (mul (mul a c1) d2) (mul (mul a c0) d3) =? 0).

Lemma circ_inverse c0 c1 c2 c3 d0 d1 d2 d3 w :
  (forall a, is_byte a -> circ_inverse_on c0 c1 c2 c3 d0 d1 d2 d3 a = true) ->
  length w = 4%nat -> Forall is_byte w ->
  circ d0 d1 d2 d3 (circ c0 c1 c2 c3 w) = w.
Proof.
  intros H Hl Hw. destruct w as [|w0 [|w1 [|w2 [|w3 [|]]]]]; try done.
  rewrite !Forall_cons_iff in Hw. destruct Hw as (H0 & H1 & H2 & H3 & _).
  apply H in H0, H1, H2, H3. unfold circ_inverse_on in *. bool_prop.
  unfold circ. cbn [map seq at_idx nth Nat.modulo Nat.divmod Nat.add fst snd Nat.sub].
  rewrite !mul_lx4.
  repeat apply (f_equal2 cons); [..|done];
    rewrite row_regroup;
    repeat match goal with E : lx4 _ _ _ _ = _ |- _ => rewrite E; clear E end;
    unfold lx4; by rewrite ?Z.lxor_0_l, ?Z.lxor_0_r.
Qed.

Lemma mix_column_circ w : mix_column w = circ 2 3 1 1 w.
Proof. reflexivity. Qed.
Lemma inv_mix_column_circ w : inv_mix_column w = circ 14 11 13 9 w.
Proof. reflexivity. Qed.

Lemma mix_table : forallb (circ_inverse_on 2 3 1 1 14 11 13 9) byte_range = true.
Proof. vm_compute. reflexivity. Qed.
Lemma inv_mix_table : forallb (circ_inverse_on 14 11 13 9 2 3 1 1) byte_range = true.
Proof. vm_compute. reflexivity. Qed.

Lemma inv_mix_mix_column w :
  length w = 4%nat -> Forall is_byte w -> inv_mix_column (mix_column w) = w.
Proof.
  rewrite mix_column_circ, inv_mix_column_circ.
  exact (circ_inverse _ _ _ _ _ _ _ _ w (byte_forall _ mix_table)).
Qed.

Lemma mix_inv_mix_column w :
  length w = 4%nat -> Forall is_byte w -> mix_column (inv_mix_column w) = w.
Proof.
  rewrite mix_column_circ, inv_mix_column_circ.
  exact (circ_inverse _ _ _ _ _ _ _ _ w (byte_forall _ inv_mix_table)).
Qed.

Lemma circ_bytes c0 c1 c2 c3 w : Forall is_byte w -> Forall is_byte (circ c0 c1 c2 c3 w).
Proof.
  intros Hw. unfold circ. apply List.Forall_map, List.Forall_forall. intros i _.
  assert (B : forall j, is_byte (at_idx w j)).
  { intros j. unfold at_idx. destruct (nth_in_or_default j w 0) as [Hin| ->].
    - by eapply List.Forall_forall.
    - unfold is_byte; lia. }
  unfold lx4. auto using lxor_byte, mul_byte.
Qed.

(** ** Chunks *)

Lemma chunks_concat n bs fuel :
  (0 < n)%nat -> Forall (fun b => length b = n) bs -> (length (concat bs) <= fuel)%nat ->
  chunks fuel n (concat bs) = bs.
Proof.
  intros Hn H. revert fuel. induction H as [|b bs Hb _ IH]; intros fuel Hf.
  - destruct fuel; cbn; [done|]. by destruct n; [lia|].
  - cbn in Hf |- *. rewrite length_app in Hf. destruct fuel as [|fuel]; [lia|].
    cbn [chunks]. rewrite length_app.
    destruct (Nat.ltb_spec (length b + length (concat bs)) n); [lia|].
    rewrite take_app_length', drop_app_length' by done. f_equal.
    apply IH. lia.
Qed.

Lemma as_chunks_concat n bs :
  (0 < n)%nat -> Forall (fun b => length b = n) bs -> as_chunks n (concat bs) = bs.
Proof. intros. by apply chunks_concat. Qed.

Lemma chunks_split n k (l : list Z) :
  length l = (k * n)%nat -> exists bs, l = concat bs /\ Forall (fun b => length b = n) bs.
Proof.
  revert l. induction k as [|k IH]; intros l Hl.
  - exists []. destruct l; [by split|done].
  - destruct (IH (drop n l)) as (bs & E & H).
    { rewrite length_drop. lia. }
    exists (take n l :: bs). split; [cbn; by rewrite <- E, take_drop|].
    constructor; [|done]. rewrite length_take. lia.
Qed.

Lemma Forall_concat_iff {A} (P : A -> Prop) (bs : list (list A)) :
  Forall P (concat bs) <-> Forall (Forall P) bs.
Proof.
  induction bs as [|b bs IH]; cbn; [split; constructor|].
  by rewrite Forall_app, Forall_cons_iff, IH.
Qed.

(** ** States *)

Definition is_state (s : list Z) : Prop := length s = 32%nat /\ Forall is_byte s.

Lemma at_idx_byte s i : Forall is_byte s -> is_byte (at_idx s i).
Proof.
  intros H. unfold at_idx. destruct (nth_in_or_default i s 0) as [Hin| ->].
  - by eapply List.Forall_forall.
  - unfold is_byte; lia.
Qed.

Lemma map_columns_inverse (f g : word -> word) bs :
  (forall w, length w = 4%nat -> Forall is_byte w -> f (g w) = w) ->
  Forall (fun b => length b = 4%nat) bs -> Forall (Forall is_byte) bs ->
  map f (map g bs) = bs.
Proof.
  intros Hfg H4 Hb. induction H4 as [|b bs H4 _ IH]; [done|].
  apply Forall_cons_iff in Hb as [Hb0 Hb]. cbn. by rewrite Hfg, IH.
Qed.

Lemma columns_inverse (f g : word -> word) s :
  (forall w, length w = 4%nat -> Forall is_byte w -> f (g w) = w) ->
  (forall w, length (g w) = 4%nat) ->
  is_state s ->
  concat (map f (as_chunks 4 (concat (map g (as_chunks 4 s))))) = s.
Proof.
  intros Hfg Hg [Hl Hb]. destruct (chunks_split 4 8 s Hl) as (bs & -> & Hbs).
  rewrite (as_chunks_concat 4 bs) by (done || lia).
  rewrite as_chunks_concat; [|lia|apply List.Forall_map, List.Forall_forall; auto].
  by rewrite map_columns_inverse by (done || by apply Forall_concat_iff).
Qed.

Lemma columns_state (g : word -> word) s :
  (forall w, length (g w) = 4%nat) ->
  (forall w, Forall is_byte w -> Forall is_byte (g w)) ->
  is_state s -> is_state (concat (map g (as_chunks 4 s))).
Proof.
  intros Hg4 Hgb [Hl Hb]. destruct (chunks_split 4 8 s Hl) as (bs & -> & Hbs).
  rewrite as_chunks_concat by (done || lia). split.
  - rewrite <- Hl. clear -Hg4 Hbs.
    induction Hbs as [|b bs H4 _ IH]; cbn; [done|]. by rewrite !length_app, Hg4, H4, IH.
  - rewrite Forall_concat_iff in Hb |- *. apply List.Forall_map.
    eapply Forall_impl; [apply Hb|auto].
Qed.

Lemma mix_state s : is_state s -> is_state (mix s).
Proof. apply columns_state; [done|]. intros w. rewrite mix_column_circ. apply circ_bytes. Qed.
Lemma inv_mix_state s : is_state s -> is_state (inv_mix s).
Proof. apply columns_state; [done|]. intros w. rewrite inv_mix_column_circ. apply circ_bytes. Qed.
Lemma inv_mix_mix s : is_state s -> inv_mix (mix s) = s.
Proof. apply columns_inverse; [apply inv_mix_mix_column|done]. Qed.
Lemma mix_inv_mix s : is_state s -> mix (inv_mix s) = s.
Proof. apply columns_inverse; [apply mix_inv_mix_column|done]. Qed.

(** ** Tables *)

Definition byteb (b : Z) : bool := in_range 0 255 b.

Lemma tables_checked :
  (let '(sbox, inverse) := boxes in
   forallb (fun b => (at_byte inverse (at_byte sbox b) =? b)
                     && (at_byte sbox (at_byte inverse b) =? b)) byte_range
   && forallb byteb sbox && forallb byteb inverse) = true.
Proof. vm_compute. reflexivity. Qed.

#[local] Opaque boxes mul.

Lemma byteb_Forall l : forallb byteb l = true -> Forall is_byte l.
Proof.
  rewrite forallb_forall, List.Forall_forall. intros H b Hb%H.
  unfold byteb, is_byte in *. bool_prop. lia.
Qed.

Lemma tables_inverse b :
  is_byte b ->
  at_byte (snd boxes) (at_byte (fst boxes) b) = b /\
  at_byte (fst boxes) (at_byte (snd boxes) b) = b.
Proof.
  intros Hb. pose proof tables_checked as H. destruct boxes as [sbox inv]. cbn [fst snd].
  bool_prop. pose proof (byte_forall _ H b Hb). bool_prop. done.
Qed.

Lemma tables_bytes : Forall is_byte (fst boxes) /\ Forall is_byte (snd boxes).
Proof.
  pose proof tables_checked as H. destruct boxes as [sbox inv]. cbn [fst snd].
  bool_prop. auto using byteb_Forall.
Qed.

Lemma at_byte_byte t b : Forall is_byte t -> is_byte (at_byte t b).
Proof. apply at_idx_byte. Qed.

(** ** Key schedule *)

Definition wf (r : Rijndael256) : Prop :=
  inverse r = snd boxes /\ Forall (Forall is_byte) (words r).

Lemma word_at_bytes ws i : Forall (Forall is_byte) ws -> Forall is_byte (word_at ws i).
Proof.
  intros H. unfold word_at. revert i. induction H; intros [|i]; cbn; auto.
Qed.

Lemma xor_bytes_bytes a b : Forall is_byte a -> Forall is_byte b -> Forall is_byte (xor_bytes a b).
Proof.
  intros Ha. revert b. induction Ha; intros [|] Hb; try constructor.
  all: apply Forall_cons_iff in Hb as [Hb0 Hb]; auto using lxor_byte.
Qed.

Lemma sub_word_bytes t : Forall is_byte (map (at_byte (fst boxes)) t).
Proof.
  apply List.Forall_map, List.Forall_forall. intros. apply at_byte_byte, (proj1 tables_bytes).
Qed.

Lemma schedule_step_bytes ws rcon i ws' rcon' :
  Forall (Forall is_byte) ws -> is_byte rcon ->
  schedule_step (fst boxes) (ws, rcon) i = (ws', rcon') ->
  Forall (Forall is_byte) ws' /\ is_byte rcon'.
Proof.
  intros Hws Hr. unfold schedule_step, schedule_word.
  pose proof (word_at_bytes ws (i - 1) Hws) as Ht.
  pose proof (word_at_bytes ws (i - 8) Hws) as H8.
  destruct (i mod 8 =? 0)%nat; [|destruct (i mod 8 =? 4)%nat]; intros [= <- <-];
    (split; [|auto using mul_byte]); apply Forall_insert; auto; apply xor_bytes_bytes; auto.
  - pose proof (sub_word_bytes (rotate_left1 (word_at ws (i - 1)))) as H.
    destruct (map _ _); [done|]. apply Forall_cons_iff in H as [? ?].
    constructor; auto using lxor_byte.
  - apply sub_word_bytes.
Qed.

Lemma schedule_bytes idx ws rcon :
  Forall (Forall is_byte) ws -> is_byte rcon ->
  Forall (Forall is_byte) (fst (fold_left (schedule_step (fst boxes)) idx (ws, rcon))).
Proof.
  revert ws rcon. induction idx as [|i idx IH]; intros ws rcon Hws Hr; [done|].
  cbn [fold_left]. destruct (schedule_step (fst boxes) (ws, rcon) i) as [ws' rcon'] eqn:E.
  apply schedule_step_bytes in E as []; auto.
Qed.

Lemma new_wf key : Forall is_byte key -> wf (new key).
Proof.
  intros Hk. unfold wf, new.
  pose proof (schedule_bytes (seq 8 112)) as S. destruct boxes as [sbox inv] eqn:Eb.
  cbn [fst snd] in *. specialize (S (take 120 (as_chunks 4 key) ++
    replicate (120 - length (as_chunks 4 key)) [0; 0; 0; 0]) 1).
  destruct (fold_left _ _ _) as [ws rc]. cbn [words inverse fst] in *.
  split; [done|]. apply S; [|unfold is_byte; lia]. apply Forall_app. split.
  - apply Forall_take. unfold as_chunks. generalize (length key) as fuel. intros fuel.
    clear -Hk. revert key Hk. induction fuel as [|fuel IH]; intros key Hk; cbn [chunks]; [constructor|].
    destruct (length key <? 4)%nat; [constructor|].
    constructor; [by apply Forall_take|apply IH; by apply Forall_drop].
  - apply Forall_replicate. repeat constructor; lia.
Qed.

(** ** Rounds *)

Lemma add_key_length r s k : length (add_key r s k) = length s.
Proof. apply length_imap. Qed.

Lemma add_key_state r s k : wf r -> is_state s -> is_state (add_key r s k).
Proof.
  intros [_ Hw] [Hl Hb]. split; [by rewrite add_key_length|].
  unfold add_key. apply Forall_lookup. intros i x.
  rewrite list_lookup_imap. destruct (s !! i) as [b|] eqn:E; cbn; [|done]. intros [= <-].
  apply lxor_byte; [by eapply Forall_lookup|]. by apply at_idx_byte, word_at_bytes.
Qed.

Lemma add_key_involutive r s k : add_key r (add_key r s k) k = s.
Proof.
  unfold add_key. apply list_eq. intros i. rewrite !list_lookup_imap.
  destruct (s !! i) as [b|]; cbn; [|done]. f_equal. xor_tauto.
Qed.

Definition perm_fw (i : nat) : nat :=
  (((i / 4 + shift_of (i mod 4)) mod 8) * 4 + i mod 4)%nat.
Definition perm_bw (i : nat) : nat :=
  (((i / 4 + 8 - shift_of (i mod 4)) mod 8) * 4 + i mod 4)%nat.

Lemma perms_checked :
  forallb (fun i => (perm_fw (perm_bw i) =? i) && (perm_bw (perm_fw i) =? i)
                    && (perm_fw i <? 32) && (perm_bw i <? 32))%nat (seq 0 32) = true.
Proof. reflexivity. Qed.

Lemma perms_inverse i :
  (i < 32)%nat ->
  perm_fw (perm_bw i) = i /\ perm_bw (perm_fw i) = i /\ (perm_fw i < 32)%nat /\ (perm_bw i < 32)%nat.
Proof.
  intros Hi. pose proof perms_checked as H. rewrite forallb_forall in H.
  specialize (H i). rewrite in_seq, !andb_true_iff, !Nat.eqb_eq, !Nat.ltb_lt in H.
  destruct H as [[[? ?] ?] ?]; [lia|auto].
Qed.

Lemma at_idx_map_seq f i : (i < 32)%nat -> at_idx (map f (seq 0 32)) i = f i.
Proof.
  intros Hi. unfold at_idx. rewrite (nth_indep _ 0 (f 0%nat)) by by rewrite length_map, length_seq.
  by rewrite (map_nth f), seq_nth.
Qed.

Lemma map_at_idx s : length s = 32%nat -> map (at_idx s) (seq 0 32) = s.
Proof.
  intros Hl. apply (nth_ext _ _ 0 0); [by rewrite length_map, length_seq|].
  intros n Hn. rewrite length_map, length_seq in Hn. by apply at_idx_map_seq.
Qed.

(** Substituting after permuting by [p] undoes substituting after permuting by
    [q]. *)
Lemma sub_perm_inverse t u p q s :
  (forall b, is_byte b -> at_byte t (at_byte u b) = b) ->
  (forall i, (i < 32)%nat -> q (p i) = i /\ (p i < 32)%nat) ->
  is_state s ->
  map (fun i => at_byte t (at_idx (map (fun j => at_byte u (at_idx s (q j))) (seq 0 32)) (p i)))
      (seq 0 32) = s.
Proof.
  intros Ht Hp [Hl Hb]. trans (map (at_idx s) (seq 0 32)); [|by apply map_at_idx].
  apply map_ext_in. intros i [_ Hi]%in_seq. destruct (Hp i) as [Hq Hlt]; [lia|].
  rewrite at_idx_map_seq, Hq, Ht by (done || by apply at_idx_byte). done.
Qed.

Lemma inv_shift_sub_perm r s :
  inv_shift_sub r s = map (fun i => at_byte (inverse r) (at_idx s (perm_bw i))) (seq 0 32).
Proof. reflexivity. Qed.
Lemma sub_shift_perm t s :
  sub_shift t s = map (fun i => at_byte t (at_idx s (perm_fw i))) (seq 0 32).
Proof. reflexivity. Qed.

Lemma inv_shift_sub_sub_shift r s :
  wf r -> is_state s -> inv_shift_sub r (sub_shift (fst boxes) s) = s.
Proof.
  intros [Hi _]. rewrite inv_shift_sub_perm, sub_shift_perm, Hi.
  refine (sub_perm_inverse _ _ perm_bw perm_fw s (fun b Hb => proj1 (tables_inverse b Hb)) _).
  intros i H%perms_inverse. tauto.
Qed.

Lemma sub_shift_inv_shift_sub r s :
  wf r -> is_state s -> sub_shift (fst boxes) (inv_shift_sub r s) = s.
Proof.
  intros [Hi _]. rewrite inv_shift_sub_perm, sub_shift_perm, Hi.
  refine (sub_perm_inverse _ _ perm_fw perm_bw s (fun b Hb => proj2 (tables_inverse b Hb)) _).
  intros i H%perms_inverse. tauto.
Qed.

Lemma sub_state t (f : nat -> Z) :
  Forall is_byte t -> is_state (map (fun i => at_byte t (f i)) (seq 0 32)).
Proof.
  intros Ht. split; [by rewrite length_map, length_seq|].
  apply List.Forall_map, List.Forall_forall. intros. by apply at_byte_byte.
Qed.

Lemma sub_shift_state s : is_state (sub_shift (fst boxes) s).
Proof. rewrite sub_shift_perm. apply sub_state. exact (proj1 tables_bytes). Qed.
Lemma inv_shift_sub_state r s : wf r -> is_state (inv_shift_sub r s).
Proof.
  intros [Hi _]. rewrite inv_shift_sub_perm, Hi. apply sub_state. exact (proj2 tables_bytes).
Qed.

#[local] Hint Resolve mix_state inv_mix_state add_key_state sub_shift_state inv_shift_sub_state : rust.

Lemma round_enc_inverse r s k : wf r -> is_state s -> round_step r (enc_step r s k) k = s.
Proof.
  intros Hr Hs. unfold round_step, enc_step.
  rewrite inv_shift_sub_sub_shift by (done || destruct (k =? 0)%nat; auto with rust).
  rewrite add_key_involutive. destruct (k =? 0)%nat; [done|by apply inv_mix_mix].
Qed.

Lemma enc_round_inverse r s k : wf r -> is_state s -> enc_step r (round_step r s k) k = s.
Proof.
  intros Hr Hs. unfold round_step, enc_step.
  destruct (k =? 0)%nat; rewrite ?mix_inv_mix by auto with rust;
    rewrite add_key_involutive; by apply sub_shift_inv_shift_sub.
Qed.

Lemma enc_step_state r s k : wf r -> is_state (enc_step r s k).
Proof. intros. apply sub_shift_state. Qed.
Lemma round_step_state r s k : wf r -> is_state (round_step r s k).
Proof. intros. unfold round_step. destruct (k =? 0)%nat; auto with rust. Qed.

(** A sequence of invertible steps is undone by the inverse steps in reverse. *)
Lemma fold_inverse {A} (P : A -> Prop) (f g : A -> nat -> A) l a :
  (forall a k, P a -> g (f a k) k = a) -> (forall a k, P a -> P (f a k)) ->
  P a -> fold_left g (rev l) (fold_left f l a) = a.
Proof.
  intros Hfg HP. revert a. induction l as [|k l IH]; intros a Ha; [done|].
  cbn [fold_left rev]. rewrite fold_left_app, IH by auto. cbn. auto.
Qed.

Lemma block_encrypt_block r s : wf r -> is_state s -> block r (encrypt_block r s) = s.
Proof.
  intros Hr Hs. unfold block, encrypt_block. rewrite add_key_involutive.
  apply (fold_inverse is_state); auto using round_enc_inverse, enc_step_state.
Qed.

Lemma encrypt_block_block r s : wf r -> is_state s -> encrypt_block r (block r s) = s.
Proof.
  intros Hr Hs. unfold block, encrypt_block. rewrite <- (rev_involutive (seq 0 14)) at 1.
  rewrite (fold_inverse is_state);
    auto using enc_round_inverse, round_step_state, add_key_state, add_key_involutive.
Qed.

Lemma block_state r s : wf r -> is_state s -> is_state (block r s).
Proof.
  intros Hr Hs. unfold block. generalize (rev (seq 0 14)) as l.
  assert (H : is_state (add_key r s 14)) by auto with rust.
  intros l; revert H; generalize (add_key r s 14) as s'.
  induction l; cbn [fold_left]; auto using round_step_state.
Qed.

Lemma encrypt_block_state r s : wf r -> is_state s -> is_state (encrypt_block r s).
Proof.
  intros Hr Hs. unfold encrypt_block. apply add_key_state; [done|].
  generalize (seq 0 14) as l. intros l; revert s Hs. induction l; cbn [fold_left]; auto using enc_step_state.
Qed.

(** ** CBC *)

Fixpoint dec_blocks (r : Rijndael256) (previous : list Z) (bs : list (list Z)) : list (list Z) :=
  match bs with
  | [] => []
  | b :: bs => xor_bytes (block r b) previous :: dec_blocks r b bs
  end.
Fixpoint enc_blocks (r : Rijndael256) (previous : list Z) (bs : list (list Z)) : list (list Z) :=
  match bs with
  | [] => []
  | b :: bs => let c := encrypt_block r (xor_bytes b previous) in c :: enc_blocks r c bs
  end.

Lemma cbc_loop_blocks r prev bs : cbc_loop r prev bs = concat (dec_blocks r prev bs).
Proof. revert prev. induction bs as [|b bs IH]; intros; cbn [cbc_loop dec_blocks concat]; [done|]. by rewrite IH. Qed.
Lemma cbc_encrypt_blocks r prev bs : cbc_encrypt r prev bs = concat (enc_blocks r prev bs).
Proof. revert prev. induction bs as [|b bs IH]; intros; cbn [cbc_encrypt enc_blocks concat]; [done|]. by rewrite IH. Qed.

Lemma xor_bytes_state a b : is_state a -> is_state b -> is_state (xor_bytes a b).
Proof.
  intros [? ?] [? ?]. split; [|by apply xor_bytes_bytes].
  unfold xor_bytes. rewrite length_zip_with. lia.
Qed.

Lemma xor_bytes_cancel a b : length a = length b -> xor_bytes (xor_bytes a b) b = a.
Proof.
  revert b. induction a as [|x a IH]; intros [|y b] Hl; try done. cbn in *.
  rewrite IH by lia. f_equal. xor_tauto.
Qed.

Lemma state_lengths a b : is_state a -> is_state b -> length a = length b.
Proof. intros [? _] [? _]. congruence. Qed.

#[local] Hint Resolve xor_bytes_state encrypt_block_state block_state state_lengths : rust.

Lemma dec_enc_blocks r prev bs :
  wf r -> is_state prev -> Forall is_state bs ->
  dec_blocks r prev (enc_blocks r prev bs) = bs /\ Forall is_state (enc_blocks r prev bs).
Proof.
  intros Hr Hp Hb. revert prev Hp. induction Hb as [|b bs Hb _ IH]; intros prev Hp; [done|].
  cbn [enc_blocks dec_blocks]. destruct (IH (encrypt_block r (xor_bytes b prev))) as [-> HF];
    auto with rust.
  rewrite block_encrypt_block, xor_bytes_cancel; auto with rust.
Qed.

Lemma enc_dec_blocks r prev bs :
  wf r -> is_state prev -> Forall is_state bs ->
  enc_blocks r prev (dec_blocks r prev bs) = bs /\ Forall is_state (dec_blocks r prev bs).
Proof.
  intros Hr Hp Hb. revert prev Hp. induction Hb as [|b bs Hb _ IH]; intros prev Hp; [done|].
  cbn [enc_blocks dec_blocks]. rewrite xor_bytes_cancel by auto with rust.
  rewrite encrypt_block_block by done. destruct (IH b) as [-> HF]; auto with rust.
Qed.

Lemma states_split k s :
  length s = (k * 32)%nat -> Forall is_byte s ->
  exists bs, s = concat bs /\ Forall is_state bs /\ as_chunks 32 s = bs.
Proof.
  intros Hl Hb. destruct (chunks_split 32 k s Hl) as (bs & -> & H32).
  exists bs. split; [done|]. split; [|apply as_chunks_concat; [lia|done]].
  rewrite Forall_concat_iff in Hb. revert H32 Hb. rewrite !List.Forall_forall.
  intros H1 H2 b Hin. by split; [apply H1|apply H2].
Qed.

Lemma states_concat bs :
  Forall is_state bs -> as_chunks 32 (concat bs) = bs /\
  Forall is_byte (concat bs) /\ length (concat bs) = (length bs * 32)%nat.
Proof.
  intros H. assert (H32 : Forall (fun b : list Z => length b = 32%nat) bs).
  { eapply Forall_impl; [apply H|by intros ? []]. }
  split; [apply as_chunks_concat; [lia|done]|]. split.
  - apply Forall_concat_iff. eapply Forall_impl; [apply H|by intros ? []].
  - clear H. induction H32 as [|b bs Hb _ IH]; cbn [concat length]; [done|].
    rewrite length_app, Hb, IH. lia.
Qed.

(** ** Padding *)

Lemma pad_length p : exists k, length (pad p) = (S k * 32)%nat.
Proof.
  unfold pad. rewrite length_app, length_replicate. exists (length p / 32)%nat.
  pose proof (Nat.div_mod (length p) 32). pose proof (Nat.mod_upper_bound (length p) 32). lia.
Qed.

Lemma pad_unique p n :
  (1 <= n <= 32)%nat -> ((length p + n) mod 32 = 0)%nat -> p ++ replicate n (Z.of_nat n) = pad p.
Proof.
  intros Hn Hm. unfold pad. assert (n = 32 - length p mod 32)%nat as <-; [|done].
  pose proof (Nat.div_mod (length p) 32). pose proof (Nat.mod_upper_bound (length p) 32).
  pose proof (Nat.div_mod (length p + n) 32). lia.
Qed.

(** What the padding check of [decrypt] accepts. *)
Lemma unpad_iff out p :
  (match list.last out with
   | None => Err MCipher
   | Some b =>
       if negb (in_range 1 32 b)
          || negb (forallb (fun x => x =? b) (drop (length out - Z.to_nat b) out))
       then Err MCipher else Ok (take (length out - Z.to_nat b) out)
   end = Ok p) /\ (length out mod 32 = 0)%nat <-> out = pad p.
Proof.
  split.
  - intros [H Hm]. destruct (list.last out) as [b|] eqn:Hl; [|done].
    destruct (in_range 1 32 b) eqn:Hr; [|done].
    destruct (forallb _ _) eqn:Hf; [|done]. cbn in H. injection H as <-.
    bool_prop.
    set (n := Z.to_nat b) in *. assert (Z.of_nat n = b) as Hb by lia.
    assert (Ho : (n <= length out)%nat).
    { apply last_Some in Hl as [l ->]. pose proof (Nat.div_mod (length (l ++ [b])) 32) as Hd.
      rewrite Hm in Hd. rewrite length_app in *. change (length [b]) with 1%nat in *. lia. }
    rewrite <- (take_drop (length out - n) out) at 1.
    assert (drop (length out - n) out = replicate n (Z.of_nat n)) as ->.
    { symmetry. apply replicate_as_elem_of. split; [rewrite length_drop; lia|].
      intros x Hx%list_elem_of_In. rewrite forallb_forall in Hf. apply Hf in Hx. lia. }
    apply pad_unique; [lia|]. rewrite length_take. replace (_ + _)%nat with (length out) by lia. done.
  - intros ->. destruct (pad_length p) as [k Hk]. split; [|rewrite Hk; apply Nat.Div0.mod_mul].
    pose proof (Nat.mod_upper_bound (length p) 32).
    unfold pad. set (n := (32 - length p mod 32)%nat).
    assert (Hl : list.last (p ++ replicate n (Z.of_nat n)) = Some (Z.of_nat n)).
    { destruct n as [|n'] eqn:En; [lia|].
      rewrite replicate_S_end. rewrite app_assoc. apply last_snoc. }
    rewrite Hl. assert (in_range 1 32 (Z.of_nat n) = true) as -> by (apply in_range_spec; lia).
    rewrite Nat2Z.id, length_app, length_replicate, Nat.add_sub, drop_app_length, take_app_length.
    assert (forallb (fun x => x =? Z.of_nat n) (replicate n (Z.of_nat n)) = true) as ->; [|done].
    apply forallb_forall. intros x Hx%list_elem_of_In%elem_of_replicate. lia.
Qed.

Lemma pad_states p :
  Forall is_byte p -> exists bs, pad p = concat bs /\ Forall is_state bs /\ as_chunks 32 (pad p) = bs.
Proof.
  intros Hp. destruct (pad_length p) as [k Hlen]. apply (states_split (S k)); [done|].
  unfold pad. apply Forall_app. split; [done|]. apply Forall_replicate. unfold is_byte. lia.
Qed.

Lemma encrypt_bytes r p iv :
  wf r -> is_state iv -> Forall is_byte p -> Forall is_byte (encrypt r p iv).
Proof.
  intros Hr Hiv Hp. unfold encrypt. rewrite cbc_encrypt_blocks.
  destruct (pad_states p Hp) as (bs & _ & Hbs & ->).
  destruct (dec_enc_blocks r iv bs) as [_ H]; [done..|]. by apply states_concat.
Qed.

(** Decryption inverts encryption and accepts nothing else. *)
Lemma decrypt_iff key iv c p :
  length key = 32%nat -> Forall is_byte key -> is_state iv -> Forall is_byte c ->
  decrypt (new key) c iv = Ok p <-> Forall is_byte p /\ c = encrypt (new key) p iv.
Proof.
  intros _ Hk Hiv Hc. pose proof (new_wf key Hk) as Hr. revert Hr. generalize (new key) as r.
  intros r Hr. unfold decrypt, encrypt. rewrite cbc_encrypt_blocks. split.
  - destruct (length c =? 0)%nat eqn:H0; [done|].
    destruct (length c mod 32 =? 0)%nat eqn:Hm; [|done]. cbn [negb orb].
    apply Nat.eqb_eq, Nat.Div0.mod_divides in Hm as [k Hck].
    destruct (states_split k c) as (bs & -> & Hbs & ->); [lia|done|].
    rewrite cbc_loop_blocks. destruct (enc_dec_blocks r iv bs) as [E HD]; [done..|].
    destruct (states_concat _ HD) as (A & B & C).
    intros H. assert (concat (dec_blocks r iv bs) = pad p) as Hpad.
    { apply unpad_iff. split; [exact H|]. rewrite C. apply Nat.Div0.mod_mul. }
    rewrite <- Hpad, A, E. split; [|done].
    rewrite Hpad in B. unfold pad in B. apply Forall_app in B. tauto.
  - intros [Hp ->]. destruct (pad_length p) as [k Hlen].
    destruct (pad_states p Hp) as (bs & Epad & Hbs & Ech).
    rewrite Ech. destruct (dec_enc_blocks r iv bs) as [E HE]; [done..|].
    destruct (states_concat _ HE) as (A & B & C). rewrite A, C, cbc_loop_blocks, E, <- Epad.
    destruct bs as [|b bs]; [by rewrite Epad in Hlen|].
    cbn [enc_blocks length]. rewrite Nat.Div0.mod_mul.
    by apply (unpad_iff (pad p) p).
Qed.

(** Decryption has a single error. *)
Lemma decrypt_error r c iv e : decrypt r c iv = Err e -> e = MCipher.
Proof.
  unfold decrypt. destruct (_ || _); [congruence|].
  destruct (list.last _); [|congruence]. destruct (_ || _); congruence.
Qed.

(** C1: For every 32-byte key and IV, decrypt returns Ok p on a ciphertext exactly when the
    ciphertext is the Rijndael-256 CBC encryption (forward cipher of the specification,
    same key schedule) of the PKCS#7-padded bytes p; every other input is the Cipher
    error. *)
Theorem decrypt_exact key iv c :
  length key = 32%nat -> Forall is_byte key -> is_state iv -> Forall is_byte c ->
  (forall p, decrypt (new key) c iv = Ok p <->
             Forall is_byte p /\ c = encrypt (new key) p iv) /\
  ((forall p, Forall is_byte p -> c <> encrypt (new key) p iv) ->
   decrypt (new key) c iv = Err MCipher).
Proof.
  intros Hl Hk Hiv Hc. split; [intros p; by apply decrypt_iff|]. intros Hno.
  destruct (decrypt (new key) c iv) as [p|e] eqn:E.
  - apply decrypt_iff in E as [Hp ->]; [|done..]. by destruct (Hno p Hp).
  - by rewrite (decrypt_error _ _ _ _ E).
Qed.

(** The encryption of three bytes decrypts to them; seven bytes are no ciphertext. *)
Lemma decrypt_exact_witness :
  let key := replicate 32 7 in let iv := replicate 32 3 in
  decrypt (new key) (encrypt (new key) [1; 2; 3] iv) iv = Ok [1; 2; 3] /\
  decrypt (new key) (replicate 7 0) iv = Err MCipher.
Proof.
  assert (Hk : Forall is_byte (replicate 32 7)) by (apply Forall_replicate; unfold is_byte; lia).
  assert (Hiv : is_state (replicate 32 3)).
  { split; [done|]. apply Forall_replicate. unfold is_byte. lia. }
  assert (Hp : Forall is_byte [1; 2; 3]) by (apply byteb_Forall; reflexivity).
  assert (Hz : Forall is_byte (replicate 7 0)) by (apply byteb_Forall; reflexivity).
  intros key iv. split.
  - apply (decrypt_exact key iv (encrypt (new key) [1; 2; 3] iv));
      [reflexivity|exact Hk|exact Hiv| |].
    + apply encrypt_bytes; [by apply new_wf|exact Hiv|exact Hp].
    + split; [exact Hp|reflexivity].
  - apply (decrypt_exact key iv (replicate 7 0)); [reflexivity|exact Hk|exact Hiv|exact Hz|].
    intros p H7 Hc. assert (Hok : decrypt (new key) (replicate 7 0) iv = Ok p).
    { apply decrypt_iff; [reflexivity|exact Hk|exact Hiv|exact Hz|]. by split. }
    assert (Herr : decrypt (new key) (replicate 7 0) iv = Err MCipher) by reflexivity.
    rewrite Herr in Hok. discriminate.
Defined.
