(* ===== verification/PathHealth.v ===== *)
(** Health of a shared upstream path ([path_health.rs]).

    [record] and [path_admit] are the critical sections of the source's mutex, with
    the clock passed as [now].  The system of a path with its outstanding
    tickets is a step relation; the fields of the state refine the streak of
    trailing faults. *)
From Stdlib Require Import ZArith Lia Ascii String List Bool.
From stdpp Require Import base list strings decidable relations.
From S2P Require Import Prelude.

Local Open Scope Z_scope.

(** Longest wait between probes of an open path. *)
Definition MAX_PROBE_INTERVAL : Z := from_secs 5.

(** [PoolPolicy] and [Charge] of [accounts.rs]. *)
Record PoolPolicy : Type := { failure_threshold : Z; cooldown_seconds : Z }.
Definition default_policy : PoolPolicy := {| failure_threshold := 2; cooldown_seconds := 30 |}.

Inductive Charge : Type :=
| ChargeAccount (streak : option Z)
| ChargePath.

Inductive Outcome : Type := Healthy | Fault (code : string).
Inductive Transition : Type := TNone | Opened | ProbeFailed | Recovered.
Record Change : Type := { transition : Transition; change_attributed : option Z }.

Record State : Type := mkState {
  failures : Z;
  epoch : Z;
  first_source : option string;
  attributed : bool;
  last_attributed : Z;
  open_until : option Z;
  probing : bool;
}.
Definition default_state : State := mkState 0 0 None false 0 None false.

(** The fields of [PathHealth] that never change. *)
Record Path : Type := {
  distinct_sources : bool;
  threshold : Z;
  interval : Z;
}.

Definition new (policy : PoolPolicy) (distinct : bool) : Path * State :=
  ({| distinct_sources := distinct;
      threshold := failure_threshold policy;
      interval := Z.min (from_secs (cooldown_seconds policy)) MAX_PROBE_INTERVAL |},
   default_state).

(** Whether this fault makes the streak the path's, and the first source it
    leaves. *)
Definition blames_path (p : Path) (first : option string) (source : option string)
  : bool * option string :=
  match source with
  | Some name =>
      if distinct_sources p then
        match first with
        | None => (false, Some name)
        | Some f => (negb (String.eqb f name), first)
        end
      else (true, first)
  | None => (true, first)
  end.

Definition record (p : Path) (s : State) (source : option string) (o : Outcome) (now : Z)
  : State * Change :=
  match o with
  | Healthy =>
      (mkState 0 (epoch s) None false (last_attributed s) None (probing s),
       {| transition := if is_some (open_until s) then Recovered else TNone;
          change_attributed := None |})
  | Fault _ =>
      let s := if failures s =? 0
               then mkState (failures s) (epoch s + 1) None false (last_attributed s)
                            (open_until s) (probing s)
               else s in
      let n := sat_add U32_MAX (failures s) 1 in
      let '(s, att) :=
        if attributed s then
          (mkState n (epoch s) (first_source s) true (last_attributed s) (open_until s) (probing s),
           None)
        else
          let '(path, first) := blames_path p (first_source s) source in
          if path then
            (mkState n (epoch s) first true (epoch s) (open_until s) (probing s), Some (epoch s))
          else
            (mkState n (epoch s) first false (last_attributed s) (open_until s) (probing s), None) in
      if attributed s && (threshold p <=? failures s) then
        (mkState (failures s) (epoch s) (first_source s) (attributed s) (last_attributed s)
                 (Some (now + interval p)) (probing s),
         {| transition := match is_some (open_until s), probing s with
                          | false, _ => Opened
                          | true, true => ProbeFailed
                          | true, false => TNone
                          end;
            change_attributed := att |})
      else (s, {| transition := TNone; change_attributed := att |})
  end.

(** A ticket is whether it admitted a probe. *)
Definition set_probing (s : State) (b : bool) : State :=
  mkState (failures s) (epoch s) (first_source s) (attributed s) (last_attributed s)
          (open_until s) b.

Definition path_admit (s : State) (now : Z) : option (bool * State) :=
  match open_until s with
  | None => Some (false, set_probing s (probing s || false))
  | Some until =>
      if (now <? until) || probing s then None
      else Some (true, set_probing s (probing s || true))
  end.

(** [Drop for Ticket]. *)
Definition drop_ticket (s : State) (probe : bool) : State :=
  if probe then set_probing s false else s.

Definition charge (s : State) : Charge :=
  if attributed s || is_some (open_until s) then ChargePath
  else ChargeAccount (if 0 <? failures s then Some (epoch s) else None).

Definition attributed_streak (s : State) (e : Z) : bool := last_attributed s =? e.

Definition status (s : State) (now : Z) : json :=
  let st := match open_until s, probing s with
            | None, _ => "closed"
            | Some _, true => "probing"
            | Some _, false => "open"
            end%string in
  let remaining := match open_until s with
                   | None => 0
                   | Some until => sat_sub until now / 1000000
                   end in
  JObj [("state", JStr st); ("failures", JNum (failures s));
        ("attributed", JBool (attributed s)); ("cooldown_remaining_ms", JNum remaining)]%string.

(** * Specification: the streak of trailing faults

    A path has seen [streaks] streaks; the current one is the sources of the
    faults since the last answer, oldest first. *)
Record Abs : Type := { streaks : Z; current : list (option string) }.
Definition abs_initial : Abs := {| streaks := 0; current := [] |}.

Definition abs_record (a : Abs) (source : option string) (o : Outcome) : Abs :=
  match o with
  | Healthy => {| streaks := streaks a; current := [] |}
  | Fault _ => {| streaks := match current a with [] => streaks a + 1 | _ => streaks a end;
                  current := current a ++ [source] |}
  end.

(** A streak is the path's fault when it has an anonymous fault or two distinct
    accounts; without distinct sources every fault is the path's. *)
Definition blames (p : Path) (streak : list (option string)) : Prop :=
  if distinct_sources p then
    In None streak \/ exists a b, In (Some a) streak /\ In (Some b) streak /\ a <> b
  else streak <> [].

Definition is_open (p : Path) (streak : list (option string)) : Prop :=
  blames p streak /\ threshold p <= Z.of_nat (length streak).

(** * The system of a path and its tickets *)
Record Sys : Type := mkSys {
  path_state : State;
  tickets : list bool;
  history : Abs;
}.
Definition sys_initial : Sys := mkSys default_state [] abs_initial.

Inductive step (p : Path) : Sys -> Sys -> Prop :=
| step_record s ts a source o now s' ch :
    record p s source o now = (s', ch) ->
    step p (mkSys s ts a) (mkSys s' ts (abs_record a source o))
| step_admit s ts a now probe s' :
    path_admit s now = Some (probe, s') ->
    step p (mkSys s ts a) (mkSys s' (probe :: ts) a)
| step_drop s ts1 probe ts2 a :
    step p (mkSys s (ts1 ++ probe :: ts2) a) (mkSys (drop_ticket s probe) (ts1 ++ ts2) a).

Definition reachable (p : Path) : Sys -> Prop := rtc (step p) sys_initial.

Definition probes (ts : list bool) : nat := length (List.filter id ts).

(** The relation between the state and the streak. *)
Record refines (p : Path) (s : State) (a : Abs) : Prop := {
  ref_failures : failures s = Z.min U32_MAX (Z.of_nat (length (current a)));
  ref_epoch : epoch s = streaks a;
  ref_attributed : attributed s = true <-> blames p (current a);
  ref_first : attributed s = false -> current a <> [] ->
              exists n, first_source s = Some n /\ Forall (eq (Some n)) (current a);
  ref_first_none : current a = [] -> first_source s = None;
  ref_open : is_some (open_until s) = true <-> is_open p (current a);
  ref_last : last_attributed s <= streaks a /\
             (current a <> [] -> last_attributed s = streaks a <-> attributed s = true);
  ref_streaks : 0 <= streaks a;
}.

(** * Theorems *)

Section refinement.
Context (p : Path).
Hypothesis threshold_u32 : threshold p <= U32_MAX.

Lemma blames_nil : ~ blames p [].
Proof. unfold blames. destruct (distinct_sources p); [|intros H; by apply H]. cbn. naive_solver. Qed.

Lemma blames_snoc l x : blames p l -> blames p (l ++ [x]).
Proof.
  unfold blames. destruct (distinct_sources p); [|intros _; by destruct l].
  setoid_rewrite in_app_iff. intros [H|(a & b & Ha & Hb & Hne)]; [by left; left|].
  right. exists a, b. auto.
Qed.

Lemma is_open_snoc l x : is_open p l -> is_open p (l ++ [x]).
Proof.
  intros [H1 H2]. split; [by apply blames_snoc|]. rewrite length_app. cbn. lia.
Qed.

Lemma all_same_blames n l :
  distinct_sources p = true -> Forall (eq (Some n)) l -> ~ blames p l.
Proof.
  intros Hd H. rewrite List.Forall_forall in H. unfold blames. rewrite Hd.
  intros [Hin|(a & b & Ha & Hb & Hne)]; [by apply H in Hin|].
  apply H in Ha, Hb. congruence.
Qed.

(** [blames_path] decides whether the extended streak is the path's. *)
Lemma blames_path_spec s a src :
  refines p s a -> attributed s = false ->
  let '(path, first) := blames_path p (first_source s) src in
  (path = true <-> blames p (current a ++ [src])) /\
  (path = false -> exists n, first = Some n /\ Forall (eq (Some n)) (current a ++ [src])).
Proof.
  intros H Hna. pose proof (ref_first _ _ _ H Hna) as Hf. pose proof (ref_first_none _ _ _ H) as Hf0.
  assert (Hlast : In src (current a ++ [src])) by (apply in_app_iff; right; by left).
  unfold blames_path. destruct src as [name|].
  - destruct (distinct_sources p) eqn:Hd.
    + destruct (current a) as [|x l] eqn:Hc.
      * rewrite Hf0 by done. split; [|intros _; exists name; by repeat constructor].
        split; [done|]. intros Hb. by destruct (all_same_blames name [Some name] Hd); [repeat constructor|].
      * rewrite <- Hc in *. destruct Hf as (n & -> & Hall); [by rewrite Hc|].
        destruct (String.eqb_spec n name) as [->|Hne]; cbn.
        -- assert (Ha : Forall (eq (Some name)) (current a ++ [Some name])).
           { apply Forall_app. split; [done|by repeat constructor]. }
           split; [|eauto]. split; [done|]. intros Hb. by destruct (all_same_blames _ _ Hd Ha).
        -- split; [|done]. split; [intros _|done]. unfold blames. rewrite Hd. right.
           exists n, name. split; [|by split]. apply in_app_iff. left.
           rewrite Hc in Hall |- *. apply Forall_cons_iff in Hall as [<- _]. by left.
    + split; [|done]. split; [intros _|done]. unfold blames. rewrite Hd. by destruct (current a).
  - split; [|done]. split; [intros _|done]. unfold blames.
    destruct (distinct_sources p); [by left|by destruct (current a)].
Qed.

Lemma refines_nil s a :
  refines p s a -> current a = [] ->
  failures s = 0 /\ attributed s = false /\ first_source s = None.
Proof.
  intros H Hc. pose proof (ref_failures _ _ _ H) as Hf. rewrite Hc in Hf. split; [exact Hf|].
  split; [|by eapply ref_first_none]. destruct (attributed s) eqn:E; [|done].
  apply (ref_attributed _ _ _ H) in E. rewrite Hc in E. by apply blames_nil in E.
Qed.

(** The state after a fault, before the path may open. *)
Definition after_fault (s : State) (a : Abs) (src : option string) (att : bool)
  (first : option string) : State :=
  mkState (Z.min U32_MAX (Z.of_nat (length (current a ++ [src]))))
          (streaks (abs_record a src (Fault ""))) first att
          (if att && negb (attributed s) then streaks (abs_record a src (Fault "")) else last_attributed s)
          (open_until s) (probing s).

Lemma record_fault s a src c now :
  refines p s a ->
  exists att first,
    let s1 := after_fault s a src att first in
    (att = true <-> blames p (current a ++ [src])) /\
    (att = false -> exists n, first = Some n /\ Forall (eq (Some n)) (current a ++ [src])) /\
    record p s src (Fault c) now =
      if att && (threshold p <=? failures s1) then
        (mkState (failures s1) (epoch s1) (first_source s1) true (last_attributed s1)
                 (Some (now + interval p)) (probing s),
         {| transition := match is_some (open_until s), probing s with
                          | false, _ => Opened | true, true => ProbeFailed | true, false => TNone
                          end;
            change_attributed := if negb (attributed s) then Some (epoch s1) else None |})
      else (s1, {| transition := TNone;
                   change_attributed := if att && negb (attributed s) then Some (epoch s1) else None |}).
Proof.
  intros H. pose proof (ref_failures _ _ _ H) as Hfl. pose proof (ref_epoch _ _ _ H) as Hep.
  assert (Hn : sat_add U32_MAX (failures s) 1 =
               Z.min U32_MAX (Z.of_nat (length (current a ++ [src])))).
  { unfold sat_add. rewrite length_app, Hfl. cbn [length]. unfold U32_MAX. lia. }
  assert (Hs1 : (if failures s =? 0
               then mkState (failures s) (epoch s + 1) None false (last_attributed s)
                            (open_until s) (probing s) else s) =
          mkState (failures s) (streaks (abs_record a src (Fault ""))) (first_source s) (attributed s)
                  (last_attributed s) (open_until s) (probing s)).
  { cbn. rewrite <- Hep. destruct (current a) as [|x l] eqn:Hc.
    - destruct (refines_nil s a H Hc) as (E1 & E2 & E3). rewrite E1, E2, E3. done.
    - cbn [length] in Hfl. unfold U32_MAX in Hfl.
      destruct (Z.eqb_spec (failures s) 0); [lia|]. by destruct s. }
  unfold record. rewrite Hs1. cbn [failures attributed epoch first_source last_attributed open_until probing].
  rewrite Hn. destruct (attributed s) eqn:Hat.
  - exists true, (first_source s). cbn zeta.
    pose proof (proj1 (ref_attributed _ _ _ H) Hat) as Hb.
    split; [split; [intros _; by apply blames_snoc|done]|]. split; [done|].
    unfold after_fault. rewrite Hat. cbn. by destruct (threshold p <=? _).
  - pose proof (blames_path_spec s a src H Hat) as Hbp.
    destruct (blames_path p (first_source s) src) as [path first]. destruct Hbp as [Hb1 Hb2].
    exists path, first. cbn zeta. split; [done|]. split; [done|].
    unfold after_fault. rewrite Hat. destruct path; cbn; [by destruct (threshold p <=? _)|done].
Qed.

Lemma refines_initial : refines p default_state abs_initial.
Proof.
  constructor; cbn; try done.
  - split; [done|]. intros []%blames_nil.
  - split; [done|]. by intros [[]%blames_nil _].
Qed.

Lemma record_refines s a src o now s' ch :
  refines p s a -> record p s src o now = (s', ch) -> refines p s' (abs_record a src o).
Proof.
  intros H. destruct o as [|c].
  - cbn. intros [= <- <-]. constructor; cbn; try done.
    + apply H.
    + split; [done|]. intros []%blames_nil.
    + split; [done|]. by intros [[]%blames_nil _].
    + split; [apply H|done].
    + apply H.
  - destruct (record_fault s a src c now H) as (att & first & Hatt & Hfirst & ->).
    set (a' := abs_record a src (Fault c)).
    assert (Hcur : current a' = current a ++ [src]) by done.
    assert (Hne : current a' <> []) by (rewrite Hcur; by destruct (current a)).
    assert (Hst : streaks a <= streaks a' /\ 0 <= streaks a').
    { pose proof (ref_streaks _ _ _ H). unfold a', abs_record. cbn [streaks]. destruct (current a); lia. }
    assert (Hla : (if att && negb (attributed s) then streaks a' else last_attributed s) <= streaks a' /\
                  ((if att && negb (attributed s) then streaks a' else last_attributed s) = streaks a'
                   <-> att = true)).
    { pose proof (ref_last _ _ _ H) as [L1 L2]. destruct att, (attributed s) eqn:Es; cbn [andb negb].
      - destruct (current a) as [|x l] eqn:Hc.
        + destruct (refines_nil s a H Hc) as (_ & E & _). congruence.
        + assert (streaks a' = streaks a) as -> by (unfold a'; cbn; by rewrite Hc).
          split; [done|]. split; [done|]. intros _. by apply L2.
      - split; [lia|done].
      - apply (ref_attributed _ _ _ H), (blames_snoc _ src), Hatt in Es. done.
      - split; [lia|]. split; [|done]. intros E. exfalso.
        unfold a', abs_record in E. cbn [streaks] in E. destruct (current a) as [|x l]; [lia|].
        assert (false = true); [|done]. by apply L2. }
    assert (Hopen : threshold p <= Z.min U32_MAX (Z.of_nat (length (current a ++ [src]))) <->
                    threshold p <= Z.of_nat (length (current a ++ [src]))) by lia.
    destruct att; cbn [andb];
      [destruct (threshold p <=? _) eqn:Hle; bool_prop|];
      intros E; apply (f_equal fst) in E; cbn [fst] in E; subst s';
      cbn [failures epoch first_source attributed last_attributed open_until after_fault] in *;
      constructor; cbn [failures epoch first_source attributed
        last_attributed open_until after_fault is_some]; rewrite ?Hcur; try done; try tauto.
    + split; [intros _|done]. split; [by apply Hatt|by apply Hopen].
    + split; [|intros [_ Ho]; apply Hopen in Ho; lia].
      intros Ho. apply (ref_open _ _ _ H), (is_open_snoc _ src) in Ho. destruct Ho as [_ Ho].
      apply Hopen in Ho. lia.
    + split; [|by intros [Hb%Hatt _]].
      intros Ho. apply (ref_open _ _ _ H), (is_open_snoc _ src) in Ho. destruct Ho as [Hb _]. by apply Hatt in Hb.
Qed.

End refinement.

(** ** Invariants of the system *)

Definition invariant (p : Path) (y : Sys) : Prop :=
  refines p (path_state y) (history y) /\
  probes (tickets y) = (if probing (path_state y) then 1 else 0)%nat.

Lemma probes_app ts1 ts2 : probes (ts1 ++ ts2) = (probes ts1 + probes ts2)%nat.
Proof. unfold probes. by rewrite List.filter_app, length_app. Qed.

Lemma probes_cons b ts : probes (b :: ts) = ((if b then 1 else 0) + probes ts)%nat.
Proof. by destruct b. Qed.

Lemma probes_In ts : In true ts <-> probes ts <> 0%nat.
Proof.
  induction ts as [|b ts IH]; [cbn; lia|]. rewrite probes_cons. cbn [In]. rewrite IH.
  destruct b; split; [lia|by left|intros [?|?]; [done|lia]|right; lia].
Qed.

(** Fields other than [probing] do not see it. *)
Lemma refines_set_probing p s a b : refines p s a -> refines p (set_probing s b) a.
Proof. intros []. by constructor. Qed.

Lemma record_probing p s src o now : probing (fst (record p s src o now)) = probing s.
Proof.
  destruct o; [done|]. unfold record.
  destruct (failures s =? 0); cbn; [|destruct (attributed s) eqn:E];
    try destruct (blames_path _ _ _) as [[] ?]; cbn; by repeat case_match_eq.
Qed.

Lemma step_invariant p y y' :
  threshold p <= U32_MAX -> invariant p y -> step p y y' -> invariant p y'.
Proof.
  intros Ht [Href Hpr] Hstep. destruct Hstep as [s ts a src o now s' ch E|s ts a now probe s' E|s ts1 probe ts2 a];
    cbn [path_state history tickets] in *; split; cbn [path_state history tickets].
  - by eapply record_refines.
  - pose proof (record_probing p s src o now) as Hp. rewrite E in Hp. cbn in Hp. by rewrite Hp.
  - unfold path_admit in E. destruct (open_until s) as [u|]; [destruct (_ || _); [done|]|];
      injection E as <- <-; by apply refines_set_probing.
  - unfold path_admit in E. destruct (open_until s) as [u|].
    + destruct (now <? u), (probing s); try done. cbn in E. injection E as <- <-.
      by rewrite probes_cons, Hpr.
    + injection E as <- <-. rewrite probes_cons, Hpr. cbn. by rewrite orb_false_r.
  - destruct probe; [by apply refines_set_probing|done].
  - rewrite probes_app, probes_cons in Hpr. rewrite probes_app.
    destruct probe; cbn in *; destruct (probing s); lia.
Qed.

Lemma reachable_invariant p y : threshold p <= U32_MAX -> reachable p y -> invariant p y.
Proof.
  intros Ht Hr. assert (H0 : invariant p sys_initial).
  { split; [apply refines_initial|done]. }
  revert H0. induction Hr as [|x y z Hxy _ IH]; [done|].
  intros Hx. apply IH. by eapply step_invariant.
Qed.

(** C10: In every interleaving of records, admissions and ticket drops the path state
    refines the streak of trailing faults: a fault is the path's exactly when the streak
    has an anonymous fault or two accounts (every fault on SDK paths), the path is open
    exactly when such a streak reached the threshold, and charge and attributed answer
    accordingly. *)
Theorem path_health_refines_streak p y :
  threshold p <= U32_MAX -> reachable p y ->
  let s := path_state y in let streak := current (history y) in
  (attributed s = true <-> blames p streak) /\
  (is_some (open_until s) = true <-> is_open p streak) /\
  failures s = Z.min U32_MAX (Z.of_nat (length streak)) /\
  (charge s = ChargePath <-> blames p streak) /\
  (~ blames p streak -> streak <> [] -> charge s = ChargeAccount (Some (streaks (history y)))) /\
  (streak <> [] -> attributed_streak s (streaks (history y)) = true <-> blames p streak).
Proof.
  intros Ht Hr s streak. destruct (reachable_invariant p y Ht Hr) as [H _].
  assert (Hca : charge s = ChargePath <-> blames p streak).
  { unfold charge. destruct (attributed s) eqn:Ha; cbn [orb].
    - split; [intros _; by apply (ref_attributed _ _ _ H)|done].
    - destruct (is_some (open_until s)) eqn:Ho.
      + split; [intros _|done]. apply (ref_open _ _ _ H) in Ho. apply Ho.
      + split; [done|]. intros Hb. apply (ref_attributed _ _ _ H) in Hb. fold s in Hb. congruence. }
  split; [apply H|]. split; [apply H|]. split; [apply H|]. split; [done|]. split.
  - intros Hnb Hne. pose proof (ref_failures _ _ _ H) as Hf. pose proof (ref_epoch _ _ _ H) as He.
    fold s streak in Hf, He. destruct (charge s) as [o|] eqn:Hc; [|by destruct Hnb; apply Hca].
    unfold charge in Hc. destruct (_ || _); [done|]. injection Hc as <-.
    destruct streak; [done|]. cbn [length] in Hf. unfold U32_MAX in Hf.
    destruct (Z.ltb_spec 0 (failures s)); [by rewrite He|lia].
  - intros Hne. unfold attributed_streak. rewrite Z.eqb_eq.
    etrans; [exact (proj2 (ref_last _ _ _ H) Hne)|apply H].
Qed.

(** At most one probe ticket of a path is ever outstanding, the probing flag is set
    exactly while it is, and admit refuses exactly while the path is open and either the
    interval has not passed or a probe is out. *)
Lemma at_most_one_probe p y :
  threshold p <= U32_MAX -> reachable p y ->
  (probes (tickets y) <= 1)%nat /\
  (probing (path_state y) = true <-> In true (tickets y)) /\
  (forall now, path_admit (path_state y) now = None <->
     exists until, open_until (path_state y) = Some until /\ (now < until \/ In true (tickets y))).
Proof.
  intros Ht Hr. destruct (reachable_invariant p y Ht Hr) as [_ Hp].
  assert (Hin : probing (path_state y) = true <-> In true (tickets y)).
  { rewrite probes_In. destruct (probing (path_state y)); split; intros; (done || lia). }
  split; [rewrite Hp; destruct (probing _); lia|]. split; [done|].
  intros now. setoid_rewrite <- Hin. unfold path_admit.
  destruct (open_until (path_state y)) as [u|]; [|naive_solver].
  destruct (Z.ltb_spec now u), (probing (path_state y)); cbn; naive_solver lia.
Qed.

Lemma demo_reachable :
  let p := fst (new default_policy true) in
  reachable p (mkSys (mkState 2 1 (Some "a") true 1 (Some 5000000007) true)
                     [true] {| streaks := 1; current := [Some "a"; Some "b"] |})%string.
Proof.
  cbn zeta. unfold reachable, sys_initial.
  eapply rtc_l; [eapply (step_record _ _ _ _ (Some "a"%string) (Fault "x") 3); reflexivity|].
  eapply rtc_l; [eapply (step_record _ _ _ _ (Some "b"%string) (Fault "x") 7); reflexivity|].
  eapply rtc_l; [eapply (step_admit _ _ _ _ 5000000007); reflexivity|].
  apply rtc_refl.
Qed.

Lemma path_health_refines_streak_witness :
  let p := fst (new default_policy true) in
  attributed (mkState 2 1 (Some "a"%string) true 1 (Some 5000000007) true) = true
  <-> blames p [Some "a"; Some "b"]%string.
Proof.
  cbn zeta.
  exact (proj1 (path_health_refines_streak (fst (new default_policy true)) _
           ltac:(cbn; unfold U32_MAX; lia) demo_reachable)).
Defined.

Lemma at_most_one_probe_witness :
  path_admit (mkState 2 1 (Some "a"%string) true 1 (Some 5000000007) true) 6000000000 = None.
Proof.
  apply (at_most_one_probe (fst (new default_policy true)) _
           ltac:(cbn; unfold U32_MAX; lia) demo_reachable).
  exists 5000000007. split; [reflexivity|]. right. left. reflexivity.
Defined.
