(* ===== verification/AssetJobs.v ===== *)
(** The client of the asset updater's job contract ([asset_jobs.rs]).

    The URL parser, the JSON codec, SHA-256 and the UUID parser are parameters;
    the HTTP exchange is an argument of [submit] and [get]. *)
From Stdlib Require Import ZArith Lia Ascii String List Bool.
From stdpp Require Import base list strings decidable.
From S2P Require Import Prelude Regions Http.

Local Open Scope Z_scope.
Set Default Proof Using "Type".

Inductive Error : Type := EConfig | ETransport | EStatus (status : Z) | EProtocol.

Inductive Operation : Type := Update | Export_op | Verify.
Record Request : Type := {
  req_region : Region;
  req_profile : string;
  req_operation : Operation;
}.

Inductive Status : Type := Queued | Running | Cancelling | JCompleted | JFailed | Cancelled.

Record Export : Type := {
  full_export : bool;
  retained : bool;
  files : Z;
  export_bytes : Z;
}.
Record Verification : Type := {
  v_region : Region;
  v_platform : string;
  v_environment : string;
  v_resource_version : string;
  v_platform_hash : string;
  v_catalog_sha256 : string;
  full_catalog : bool;
  catalog_verified : bool;
}.
Record Outcome : Type := {
  verification : Verification;
  export : option Export;
  out_publication_id : option string;
}.
Record Job : Type := {
  id : string;
  request : Request;
  job_status : Status;
  idempotency_sha256 : option string;
  outcome : option Outcome;
}.

#[export] Instance Operation_eq_dec : EqDecision Operation.
Proof. solve_decision. Defined.
#[export] Instance Request_eq_dec : EqDecision Request.
Proof. solve_decision. Defined.
#[export] Instance Status_eq_dec : EqDecision Status.
Proof. solve_decision. Defined.

(** Path components: no separators, no traversal. *)
Definition component (s : string) : bool :=
  negb (is_empty s) && (len s <=? 256)
  && negb (String.eqb s "." || String.eqb s "..")
  && all_bytes (fun b => is_ascii_alphanumeric b || char_is 45 b || char_is 95 b || char_is 46 b) s.

Definition lower_hex (b : ascii) : bool := is_ascii_digit b || in_range 97 102 (byte_of b).

Definition validate_request (r : Request) : result Error unit :=
  if bool_decide (req_region r = Cn) || is_empty (req_profile r) || (64 <? len (req_profile r))
     || negb (all_bytes (fun b => is_ascii_alphanumeric b || char_is 45 b || char_is 95 b) (req_profile r))
  then Err EConfig else Ok tt.

(** [Client::new]: what a destination must satisfy. *)
Definition new_client (url_parse : string -> option Url) (root token : string) (allow_http : bool) (timeout_ms : Z) : result Error Url :=
  match url_parse root with
  | None => Err EConfig
  | Some u =>
      if is_none (host_str u) || negb (is_empty (username u)) || is_some (password u)
         || is_some (query u) || is_some (fragment u) || negb (String.eqb (path u) "/")
         || negb (String.eqb (scheme u) "https" || (allow_http && String.eqb (scheme u) "http"))
         || negb (in_range 100 300000 timeout_ms) || negb (token_ok token)
      then Err EConfig else Ok u
  end.

(** Whitespace of a printable ASCII string is the space; anything else is
    refused by the byte check. *)
Definition with_user_agent (value : option string) : result Error (option string) :=
  match value with
  | None => Ok None
  | Some v =>
      if all_bytes (char_is 32) v || (256 <? len v)
         || negb (all_bytes (fun b => in_range 32 126 (byte_of b)) v)
      then Err EConfig else Ok (Some v)
  end.

Section client.
Context (job_from_slice : list Z -> option Job)
        (sha256_hex : list Z -> string)
        (uuid_parse : string -> option string).

Definition LIMIT : Z := 64 * 1024.

Definition outcome_ok (r : Request) (o : Outcome) : bool :=
  let v := verification o in
  bool_decide (v_region v = req_region r) && catalog_verified v
  && (String.eqb (v_platform v) "iOS" || String.eqb (v_platform v) "Android")
  && forallb component [v_environment v; v_resource_version v; v_platform_hash v]
  && (len (v_catalog_sha256 v) =? 64) && all_bytes lower_hex (v_catalog_sha256 v)
  && none_or (out_publication_id o) (fun i => is_some (uuid_parse i))
  && negb (is_some (out_publication_id o) && is_none (export o)).

(** [send]: [exchange] is what the network answered, [None] a transport
    failure. *)
Definition send (exchange : option http_response) (expected : Z) (r : Request) : result Error Job :=
  match exchange with
  | None => Err ETransport
  | Some resp =>
      if negb (http_status resp =? expected) then Err (EStatus (http_status resp))
      else if some_and (content_length resp) (fun v => LIMIT <? v) then Err EProtocol
      else
        rbind (read_bounded LIMIT ETransport EProtocol [] (body_events resp)) (fun bytes =>
        match job_from_slice bytes with
        | None => Err EProtocol
        | Some job =>
            if negb (bool_decide (request job = r)) || is_none (uuid_parse (id job))
               || (negb (bool_decide (job_status job = JCompleted)) && is_some (outcome job))
            then Err EProtocol
            else match outcome job with
                 | Some o => if outcome_ok r o then Ok job else Err EProtocol
                 | None => Ok job
                 end
        end)
  end.

Definition submit_key_ok (key : string) : bool :=
  negb (is_empty key) && (len key <=? 128)
  && all_bytes (fun b => is_ascii_alphanumeric b || char_is 45 b || char_is 95 b
                         || char_is 46 b || char_is 58 b) key.

Definition submit (exchange : option http_response) (r : Request) (key : string) : result Error Job :=
  rbind (validate_request r) (fun _ =>
  if negb (submit_key_ok key) then Err EConfig
  else rbind (send exchange 202 r) (fun job =>
       if bool_decide (idempotency_sha256 job = Some (sha256_hex (bytes_of key))) then Ok job
       else Err EProtocol)).

Definition get_job (exchange : option http_response) (i : string) (r : Request) : result Error Job :=
  rbind (validate_request r) (fun _ =>
  match uuid_parse i with
  | None => Err EConfig
  | Some canonical =>
      if negb (String.eqb canonical i) then Err EConfig
      else rbind (send exchange 200 r) (fun job =>
           if String.eqb (id job) i then Ok job else Err EProtocol)
  end).

(** ** What an accepted job satisfies *)

Lemma send_ok exchange expected r job :
  send exchange expected r = Ok job ->
  request job = r /\ uuid_parse (id job) <> None /\
  (forall o, outcome job = Some o -> job_status job = JCompleted /\ outcome_ok r o = true) /\
  (exists resp, exchange = Some resp /\ http_status resp = expected).
Proof.
  unfold send. destruct exchange as [resp|]; [|done].
  destruct (Z.eqb_spec (http_status resp) expected); [|done]. cbn [negb].
  destruct (some_and _ _); [done|]. destruct (read_bounded _ _ _ _ _) as [bytes|]; [cbn [rbind]|done].
  destruct (job_from_slice bytes) as [j|]; [|done].
  destruct (bool_decide_reflect (request j = r)); [|done].
  destruct (uuid_parse (id j)) eqn:Hu; [|done]. cbn [negb orb is_none].
  destruct (bool_decide_reflect (job_status j = JCompleted)) as [Hc|Hc]; cbn.
  - destruct (outcome j) as [o|] eqn:Ho; [destruct (outcome_ok r o) eqn:Hok; [|done]|];
      intros [= <-]; rewrite Hu, Ho; (split; [done|]); (split; [done|]); (split; [|eauto]);
      [by intros ? [= <-]|done].
  - destruct (outcome j) as [o|] eqn:Ho; [done|]. intros [= <-]. rewrite Hu, Ho.
    split; [done|]. split; [done|]. split; [done|eauto].
Qed.

Lemma submit_ok exchange r key job :
  submit exchange r key = Ok job ->
  request job = r /\ idempotency_sha256 job = Some (sha256_hex (bytes_of key)) /\
  uuid_parse (id job) <> None.
Proof.
  unfold submit. intros H. destruct (validate_request r); [|done]. cbn [rbind] in H.
  destruct (negb (submit_key_ok key)); [done|].
  destruct (send exchange 202 r) as [j|] eqn:Hs; [|done]. cbn [rbind] in H.
  destruct (bool_decide_reflect (idempotency_sha256 j = Some (sha256_hex (bytes_of key)))); [|done].
  injection H as <-. apply send_ok in Hs as (? & ? & _). auto.
Qed.

Lemma send_status exchange expected r st :
  send exchange expected r = Err (EStatus st) ->
  exists resp, exchange = Some resp /\ http_status resp = st.
Proof.
  unfold send. destruct exchange as [resp|]; [|done].
  destruct (negb _); [intros [= <-]; eauto|]. destruct (some_and _ _); [done|].
  destruct (read_bounded _ _ _ _ _) as [bytes|er] eqn:Hr; cbn [rbind].
  - destruct (job_from_slice bytes) as [j|]; [|done]. destruct (_ || _); [done|].
    destruct (outcome j) as [o|]; [destruct (outcome_ok r o)|]; done.
  - intros [= ->]. exfalso. revert Hr. generalize (@nil Z) as acc.
    induction (body_events resp) as [|[c|] ev IH]; intros acc; cbn; try done.
    destruct (_ <? _); [done|apply IH].
Qed.

Lemma submit_status exchange r key st :
  submit exchange r key = Err (EStatus st) ->
  exists resp, exchange = Some resp /\ http_status resp = st.
Proof.
  unfold submit, validate_request. destruct (_ || _); [done|]. cbn [rbind].
  destruct (negb (submit_key_ok key)); [done|].
  destruct (send exchange 202 r) as [j|er] eqn:Hs; cbn [rbind].
  - by destruct (bool_decide _).
  - intros [= ->]. by eapply send_status.
Qed.

Lemma get_job_ok exchange i r job :
  get_job exchange i r = Ok job -> request job = r /\ id job = i.
Proof.
  unfold get_job. destruct (validate_request r); [|done]. cbn [rbind].
  destruct (uuid_parse i) as [c|]; [|done]. destruct (negb _); [done|].
  destruct (send exchange 200 r) as [j|] eqn:Hs; [|done]. cbn [rbind].
  destruct (String.eqb_spec (id j) i); [|done]. intros [= <-]. by apply send_ok in Hs as [? _].
Qed.

End client.
