(* ===== verification/Outbox.v ===== *)
(** The durable dispatch ledger ([asset_outbox.rs]).

    The disk is the ledger file and the archive directory; every fallible I/O
    step of an operation is an explicit argument, so that the theorems hold
    for every placement of a failure.  The JSON codec, SHA-256 and the UUID
    parser are parameters with the properties the code relies on. *)
From Stdlib Require Import ZArith Lia Ascii String List Bool.
From stdpp Require Import base list strings decidable gmap relations.
From S2P Require Import Prelude BTree Regions Http AssetJobs.

Local Open Scope Z_scope.

Inductive Error : Type := Invalid | Locked | Storage | Full.

Record Identity : Type := {
  destination_sha256 : string;
  id_request : Request;
  profile_revision : string;
  environment : string;
  platform : string;
  resource_version : string;
  platform_hash : string;
  require_full_catalog : bool;
  require_full_export : bool;
  require_publication : bool;
}.

Inductive State : Type :=
| Pending
| Sending (first_attempt_at : Z)
| Submitted (job_id : string)
| Completed (job_id catalog_sha256 : string) (publication_id : option string)
| Failed (job_id : option string) (code : string).

Record Entry : Type := { identity : Identity; state : State }.

#[export] Instance Error_eq_dec : EqDecision Error.
Proof. solve_decision. Defined.
#[export] Instance Identity_eq_dec : EqDecision Identity.
Proof. solve_decision. Defined.
#[export] Instance State_eq_dec : EqDecision State.
Proof. solve_decision. Defined.
#[export] Instance Entry_eq_dec : EqDecision Entry.
Proof. solve_decision. Defined.

Record Ledger : Type := {
  schema_version : Z;
  reconciliation_cursor : option string;
  entries : bmap Entry;
}.

Definition terminal (s : State) : bool :=
  match s with Completed _ _ _ | Failed _ _ => true | _ => false end.
Definition is_completed (s : State) : bool :=
  match s with Completed _ _ _ => true | _ => false end.

(** ** The disk *)
Inductive DirKind : Type := DirMissing | DirPlain | DirOther.
Inductive Node : Type := Regular (bytes : list Z) | Special.

Record Disk : Type := {
  outbox_json : option (list Z);
  completed_dir : DirKind;
  archives : gmap string Node;
}.

(** Outcomes of the fallible steps. *)
Inductive CommitIo : Type := CommitOk | CommitTemp | CommitWrite | CommitSync | CommitPersist.
Record ReadIo : Type := { stat_dir : bool; stat_file : bool; read_file : bool }.
Inductive ArchiveIo : Type :=
| ArchiveOk
| ArchiveDir        (* create_dir_all or its metadata *)
| ArchiveTemp       (* temporary file, write or sync *)
| ArchivePersist    (* persist_noclobber *)
| ArchiveSync.      (* sync of the archive or of the directories *)

(** The owner: working ledger, capacity, and its directory. *)
Record Outbox : Type := { ledger : Ledger; capacity : Z; disk : Disk }.

Definition set_ledger (o : Outbox) (l : Ledger) (d : Disk) : Outbox :=
  {| ledger := l; capacity := capacity o; disk := d |}.
Definition set_outbox_json (d : Disk) (b : list Z) : Disk :=
  {| outbox_json := Some b; completed_dir := completed_dir d; archives := archives d |}.
Definition set_archive (d : Disk) (k : string) (b : list Z) : Disk :=
  {| outbox_json := outbox_json d; completed_dir := DirPlain;
     archives := <[k := Regular b]> (archives d) |}.
Definition make_dir (d : Disk) : Disk :=
  {| outbox_json := outbox_json d;
     completed_dir := match completed_dir d with DirMissing => DirPlain | k => k end;
     archives := archives d |}.

(** ** Validators *)
Definition digest (v : string) : bool := (len v =? 64) && all_bytes lower_hex v.
Definition failure_code_ok (code : string) : bool :=
  negb (is_empty code) && (len code <=? 64)
  && all_bytes (fun b => is_ascii_lower b || char_is 95 b) code.
Definition valid_key (key : string) : bool :=
  (len key =? 71) &&
  match strip_prefix key "sirius-" with Some rest => digest rest | None => false end.

Section outbox.
Context (ledger_to_vec : Ledger -> option (list Z))
        (ledger_from_slice : list Z -> option Ledger)
        (entry_to_vec : Entry -> option (list Z))
        (entry_from_slice : list Z -> option Entry)
        (identity_to_vec : Identity -> option (list Z))
        (sha256_hex : list Z -> string)
        (uuid_parse : string -> option string).

Definition uuid (v : string) : bool := some_and (uuid_parse v) (fun i => String.eqb i v).

(** [Identity::key]; [identity_to_vec] serializes the pair of the version byte
    and the identity. *)
Definition key (i : Identity) : result Error string :=
  if negb (digest (destination_sha256 i))
     || bool_decide (req_region (id_request i) = Cn)
     || (64 <? len (req_profile (id_request i)))
     || negb (component (req_profile (id_request i)))
     || any_byte (char_is 46) (req_profile (id_request i))
     || existsb (fun v => negb (component v))
          [profile_revision i; environment i; resource_version i; platform_hash i]
     || negb (String.eqb (platform i) "iOS" || String.eqb (platform i) "Android")
  then Err Invalid
  else match identity_to_vec i with
       | None => Err Invalid
       | Some bytes => Ok ("sirius-" ++ sha256_hex bytes)%string
       end.

Definition valid_state (s : State) : bool :=
  match s with
  | Pending | Sending _ => true
  | Submitted j => uuid j
  | Completed j c p => uuid j && digest c && none_or p uuid
  | Failed j code => none_or j uuid && failure_code_ok code
  end.

(** ** Persistence *)
Definition commit (o : Outbox) (l : Ledger) (io : CommitIo) : result Error unit * Outbox :=
  match ledger_to_vec l with
  | None => (Err Storage, o)
  | Some bytes =>
      match io with
      | CommitOk => (Ok tt, set_ledger o l (set_outbox_json (disk o) bytes))
      | CommitTemp | CommitWrite | CommitSync | CommitPersist => (Err Storage, o)
      end
  end.

Definition entry_ok (k : string) (e : Entry) : bool :=
  match key (identity e) with
  | Ok k' => String.eqb k' k && valid_state (state e)
  | Err _ => false
  end.

Definition empty_ledger : Ledger :=
  {| schema_version := 1; reconciliation_cursor := None; entries := [] |}.

(** [open] on directory [d]; [dir_ok] and [lock_ok] are the outcomes of
    creating the directory with its lock file and of taking the lock, [read_ok]
    that of reading an existing ledger file. *)
Definition open (d : Disk) (cap : Z) (dir_ok lock_ok read_ok : bool) (io : CommitIo)
  : result Error Outbox * Disk :=
  if negb (in_range 1 100000 cap) then (Err Invalid, d)
  else if negb dir_ok then (Err Storage, d)
  else if negb lock_ok then (Err Locked, d)
  else
    let read := match outbox_json d with
                | None => Some empty_ledger
                | Some bytes => if read_ok then ledger_from_slice bytes else None
                end in
    match read with
    | None => (Err Storage, d)
    | Some l =>
        if negb (schema_version l =? 1) || (cap <? size (entries l))
           || some_and (reconciliation_cursor l) (fun k => negb (contains_key k (entries l)))
        then (Err Storage, d)
        else if negb (forallb (fun kv => entry_ok (fst kv) (snd kv)) (entries l)) then (Err Storage, d)
        else
          let o := {| ledger := l; capacity := cap; disk := d |} in
          match commit o l io with
          | (Ok _, o') => (Ok o', disk o')
          | (Err e, o') => (Err e, disk o')
          end
    end.

(** ** Archive *)
Definition archived (o : Outbox) (k : string) (io : ReadIo) : result Error (option Entry) :=
  if negb (valid_key k) then Err Invalid
  else if negb (stat_dir io) then Err Storage
  else match completed_dir (disk o) with
       | DirMissing => Ok None
       | DirOther => Err Storage
       | DirPlain =>
           if negb (stat_file io) then Err Storage
           else match archives (disk o) !! k with
                | None => Ok None
                | Some Special => Err Storage
                | Some (Regular bytes) =>
                    if 65536 <? llen bytes then Err Storage
                    else if negb (read_file io) then Err Storage
                    else match entry_from_slice bytes with
                         | None => Err Storage
                         | Some e =>
                             if negb (entry_ok k e) || negb (is_completed (state e))
                             then Err Storage else Ok (Some e)
                         end
                end
       end.

Definition completed_as (s : State) (job : string) : bool :=
  match s with Completed j _ _ => String.eqb j job | _ => false end.

(** Writing the archive file when there is none yet: the error, or the disk. *)
Definition write_archive (d : Disk) (k : string) (e : Entry) (io : ArchiveIo) : result Error unit * Disk :=
  match io with
  | ArchiveDir => (Err Storage, d)
  | _ =>
      let d := make_dir d in
      match completed_dir d with
      | DirPlain =>
          match entry_to_vec e with
          | None => (Err Storage, d)
          | Some bytes =>
              match io with
              | ArchiveTemp | ArchivePersist => (Err Storage, d)
              | _ => match archives d !! k with
                     | Some _ => (Err Storage, d)     (* persist_noclobber *)
                     | None => (Ok tt, set_archive d k bytes)
                     end
              end
          end
      | _ => (Err Storage, d)
      end
  end.

Definition archive_completed (o : Outbox) (k expected_job : string)
  (rio : ReadIo) (aio : ArchiveIo) (cio : CommitIo) : result Error Entry * Outbox :=
  if negb (valid_key k) || negb (uuid expected_job) then (Err Invalid, o)
  else match archived o k rio with
  | Err e => (Err e, o)
  | Ok arch =>
      match (match get k (entries (ledger o)) with Some e => Some e | None => arch end) with
      | None => (Err Invalid, o)
      | Some e =>
          if negb (completed_as (state e) expected_job) then (Err Invalid, o)
          else if some_and arch (fun old => negb (bool_decide (old = e))) then (Err Storage, o)
          else
            let '(r, d) := if is_none arch then write_archive (disk o) k e aio else (Ok tt, disk o) in
            let o := set_ledger o (ledger o) d in
            match r with
            | Err er => (Err er, o)
            | Ok _ =>
                match aio with
                | ArchiveSync => (Err Storage, o)
                | _ =>
                    if contains_key k (entries (ledger o)) then
                      let l := ledger o in
                      let l := {| schema_version := schema_version l;
                                  reconciliation_cursor :=
                                    if bool_decide (reconciliation_cursor l = Some k) then None
                                    else reconciliation_cursor l;
                                  entries := remove k (entries l) |} in
                      match commit o l cio with
                      | (Ok _, o) => (Ok e, o)
                      | (Err er, o) => (Err er, o)
                      end
                    else (Ok e, o)
                end
            end
      end
  end.

(** ** Rotation *)
Definition rotated (l : Ledger) : list (string * Entry) :=
  let after := List.filter (fun kv => none_or (reconciliation_cursor l) (fun c => sltb c (fst kv))) (entries l) in
  let before := List.filter (fun kv => some_and (reconciliation_cursor l) (fun c => sleb (fst kv) c)) (entries l) in
  List.filter (fun kv => negb (terminal (state (snd kv)))) (after ++ before).

Definition next_batch (o : Outbox) (limit : Z) (io : CommitIo)
  : result Error (list (string * Entry)) * Outbox :=
  if negb (in_range 1 256 limit) then (Err Invalid, o)
  else
    let batch := take (Z.to_nat limit) (rotated (ledger o)) in
    match list.last batch with
    | None => (Ok batch, o)
    | Some (k, _) =>
        let l := {| schema_version := schema_version (ledger o);
                    reconciliation_cursor := Some k;
                    entries := entries (ledger o) |} in
        match commit o l io with
        | (Ok _, o) => (Ok batch, o)
        | (Err e, o) => (Err e, o)
        end
    end.

(** ** Entry operations *)
Definition observe (o : Outbox) (i : Identity) (rio : ReadIo) (cio : CommitIo)
  : result Error string * Outbox :=
  match key i with
  | Err e => (Err e, o)
  | Ok k =>
      if contains_key k (entries (ledger o)) then (Ok k, o)
      else match archived o k rio with
           | Err e => (Err e, o)
           | Ok (Some _) => (Ok k, o)
           | Ok None =>
               if capacity o <=? size (entries (ledger o)) then (Err Full, o)
               else
                 let l := {| schema_version := schema_version (ledger o);
                             reconciliation_cursor := reconciliation_cursor (ledger o);
                             entries := insert k {| identity := i; state := Pending |}
                                          (entries (ledger o)) |} in
                 match commit o l cio with
                 | (Ok _, o) => (Ok k, o)
                 | (Err e, o) => (Err e, o)
                 end
           end
  end.

Definition change (o : Outbox) (k : string) (f : State -> result Error State) (io : CommitIo)
  : result Error unit * Outbox :=
  match get k (entries (ledger o)) with
  | None => (Err Invalid, o)
  | Some e =>
      match f (state e) with
      | Err er => (Err er, o)
      | Ok s =>
          commit o {| schema_version := schema_version (ledger o);
                      reconciliation_cursor := reconciliation_cursor (ledger o);
                      entries := insert k {| identity := identity e; state := s |}
                                   (entries (ledger o)) |} io
      end
  end.

Definition begin_send (o : Outbox) (k : string) (now : Z) (io : CommitIo) :=
  change o k (fun s => match s with
                       | Pending => Ok (Sending now)
                       | Sending t => Ok (Sending t)
                       | _ => Err Invalid
                       end) io.

Definition refused (o : Outbox) (k : string) (io : CommitIo) :=
  change o k (fun s => match s with Sending _ => Ok Pending | _ => Err Invalid end) io.

Definition acknowledge (o : Outbox) (k i : string) (io : CommitIo) : result Error unit * Outbox :=
  if negb (uuid i) then (Err Invalid, o)
  else change o k (fun s => match s with
                            | Sending _ => Ok (Submitted i)
                            | Submitted j => if String.eqb j i then Ok s else Err Invalid
                            | _ => Err Invalid
                            end) io.

Definition adopt (o : Outbox) (k i : string) (io : CommitIo) : result Error unit * Outbox :=
  if negb (uuid i) then (Err Invalid, o)
  else change o k (fun s => match s with
                            | Sending _ => Ok (Submitted i)
                            | Failed None code =>
                                if String.eqb code "submission_ambiguous"
                                   || String.eqb code "invalid_job_response"
                                then Ok (Submitted i) else Err Invalid
                            | Submitted j => if String.eqb j i then Ok s else Err Invalid
                            | _ => Err Invalid
                            end) io.

Definition complete (o : Outbox) (k i catalog : string) (publication : option string) (io : CommitIo)
  : result Error unit * Outbox :=
  if negb (digest catalog) || some_and publication (fun v => negb (uuid v)) then (Err Invalid, o)
  else
    let target := Completed i catalog publication in
    change o k (fun s => match s with
                         | Submitted j => if String.eqb j i then Ok target else Err Invalid
                         | _ => if bool_decide (s = target) then Ok s else Err Invalid
                         end) io.

Definition fail (o : Outbox) (k code : string) (io : CommitIo) : result Error unit * Outbox :=
  if negb (failure_code_ok code) then (Err Invalid, o)
  else change o k (fun s => match s with
                            | Pending | Sending _ => Ok (Failed None code)
                            | Submitted j => Ok (Failed (Some j) code)
                            | _ => Err Invalid
                            end) io.

(** * Runs: sequences of operations with their I/O outcomes *)

Inductive Op : Type :=
| OObserve (i : Identity) (rio : ReadIo) (cio : CommitIo)
| OBeginSend (k : string) (now : Z) (io : CommitIo)
| ORefused (k : string) (io : CommitIo)
| OAcknowledge (k i : string) (io : CommitIo)
| OAdopt (k i : string) (io : CommitIo)
| OComplete (k i catalog : string) (publication : option string) (io : CommitIo)
| OFail (k code : string) (io : CommitIo)
| ONextBatch (limit : Z) (io : CommitIo)
| OArchive (k job : string) (rio : ReadIo) (aio : ArchiveIo) (cio : CommitIo).

Definition drop_value {A} (r : result Error A * Outbox) : result Error unit * Outbox :=
  (rmap (fun _ => tt) (fst r), snd r).

Definition exec (op : Op) (o : Outbox) : result Error unit * Outbox :=
  match op with
  | OObserve i rio cio => drop_value (observe o i rio cio)
  | OBeginSend k now io => begin_send o k now io
  | ORefused k io => refused o k io
  | OAcknowledge k i io => acknowledge o k i io
  | OAdopt k i io => adopt o k i io
  | OComplete k i c p io => complete o k i c p io
  | OFail k c io => fail o k c io
  | ONextBatch n io => drop_value (next_batch o n io)
  | OArchive k j rio aio cio => drop_value (archive_completed o k j rio aio cio)
  end.

Definition run (ops : list Op) (o : Outbox) : Outbox :=
  fold_left (fun o op => snd (exec op o)) ops o.

(** * Invariant *)

Record ledger_ok (cap : Z) (l : Ledger) : Prop := {
  ok_schema : schema_version l = 1;
  ok_sorted : sorted (entries l);
  ok_size : size (entries l) <= cap;
  ok_cursor : forall k, reconciliation_cursor l = Some k -> contains_key k (entries l) = true;
  ok_entries : forall k e, get k (entries l) = Some e -> entry_ok k e = true;
}.

(** The working ledger is well formed and the file holds exactly it. *)
Record inv (o : Outbox) : Prop := {
  inv_capacity : in_range 1 100000 (capacity o) = true;
  inv_ledger : ledger_ok (capacity o) (ledger o);
  inv_file : exists b, outbox_json (disk o) = Some b /\ ledger_from_slice b = Some (ledger o);
}.

(** What the code relies on of [serde_json]: a ledger and an entry survive a
    round trip, a parsed map is a map, and the entry of bounded fields fits the
    archive's read bound. *)
Record codec : Prop := {
  ledger_roundtrip : forall l, sorted (entries l) ->
    exists b, ledger_to_vec l = Some b /\ ledger_from_slice b = Some l;
  ledger_parse_sorted : forall b l, ledger_from_slice b = Some l -> sorted (entries l);
  entry_roundtrip : forall k e, entry_ok k e = true ->
    exists b, entry_to_vec e = Some b /\ entry_from_slice b = Some e /\ llen b <= 65536;
}.

Section correctness.
Context (Hcodec : codec).

Lemma commit_cases o l io r o' :
  commit o l io = (r, o') ->
  (r = Err Storage /\ o' = o) \/
  (r = Ok tt /\ exists b, ledger_to_vec l = Some b /\ o' = set_ledger o l (set_outbox_json (disk o) b)).
Proof.
  unfold commit. destruct (ledger_to_vec l) as [b|] eqn:E; [|intros [= <- <-]; auto].
  destruct io; intros [= <- <-]; eauto.
Qed.

Lemma commit_inv o l io r o' :
  inv o -> ledger_ok (capacity o) l -> commit o l io = (r, o') ->
  inv o' /\ (r = Ok tt -> ledger o' = l) /\ (forall e, r = Err e -> o' = o) /\
  archives (disk o') = archives (disk o) /\ completed_dir (disk o') = completed_dir (disk o) /\
  capacity o' = capacity o.
Proof.
  intros Hi Hl H. apply commit_cases in H as [[-> ->]|[-> (b & Hb & ->)]];
    (split; [|by repeat split]); [done|].
  constructor; [apply Hi|done|].
  destruct (ledger_roundtrip Hcodec l (ok_sorted _ _ Hl)) as (b' & E1 & E2).
  exists b. cbn. split; congruence.
Qed.

Lemma commit_succeeds o l : sorted (entries l) -> fst (commit o l CommitOk) = Ok tt.
Proof.
  intros Hs. unfold commit. destruct (ledger_roundtrip Hcodec l Hs) as (b & -> & _). done.
Qed.

Lemma entry_ok_iff k e :
  entry_ok k e = true <-> key (identity e) = Ok k /\ valid_state (state e) = true.
Proof.
  unfold entry_ok. destruct (key (identity e)) as [k'|]; [|naive_solver].
  rewrite andb_true_iff, String.eqb_eq. naive_solver.
Qed.

(** ** Well-formed ledgers under updates *)

Lemma contains_key_insert k k' (v : Entry) m :
  sorted m -> contains_key k m = true -> contains_key k (insert k' v m) = true.
Proof.
  unfold contains_key. intros Hs H. rewrite get_insert by done.
  by destruct (String.eqb k k').
Qed.

Lemma ledger_ok_update cap l k e s :
  ledger_ok cap l -> get k (entries l) = Some e -> valid_state s = true ->
  ledger_ok cap {| schema_version := schema_version l;
                   reconciliation_cursor := reconciliation_cursor l;
                   entries := insert k {| identity := identity e; state := s |} (entries l) |}.
Proof.
  intros [H1 H2 H3 H4 H5] Hk Hs. constructor; cbn; auto using insert_sorted.
  - rewrite size_insert by done. unfold contains_key. rewrite Hk. lia.
  - intros k' Hk'. by apply contains_key_insert; [|apply H4].
  - intros k' e'. rewrite get_insert by done. destruct (String.eqb_spec k' k) as [->|]; [|apply H5].
    intros [= <-]. apply H5, entry_ok_iff in Hk as [Hkey _]. by apply entry_ok_iff.
Qed.

Lemma ledger_ok_observe cap l k i :
  ledger_ok cap l -> key i = Ok k -> get k (entries l) = None -> size (entries l) < cap ->
  ledger_ok cap {| schema_version := schema_version l;
                   reconciliation_cursor := reconciliation_cursor l;
                   entries := insert k {| identity := i; state := Pending |} (entries l) |}.
Proof.
  intros [H1 H2 H3 H4 H5] Hkey Hk Hs. constructor; cbn; auto using insert_sorted.
  - rewrite size_insert by done. unfold contains_key. rewrite Hk. lia.
  - intros k' Hk'. by apply contains_key_insert; [|apply H4].
  - intros k' e'. rewrite get_insert by done. destruct (String.eqb_spec k' k) as [->|]; [|apply H5].
    intros [= <-]. by apply entry_ok_iff.
Qed.

Lemma ledger_ok_remove cap l k :
  ledger_ok cap l ->
  ledger_ok cap {| schema_version := schema_version l;
                   reconciliation_cursor :=
                     if bool_decide (reconciliation_cursor l = Some k) then None
                     else reconciliation_cursor l;
                   entries := remove k (entries l) |}.
Proof.
  intros [H1 H2 H3 H4 H5]. constructor; cbn; auto using remove_sorted.
  - rewrite size_remove. destruct (contains_key k (entries l)); lia.
  - intros k'. case_bool_decide; [done|]. intros Hk'. pose proof (H4 k' Hk') as Hc.
    unfold contains_key in *. rewrite get_remove by done.
    destruct (String.eqb_spec k' k); congruence.
  - intros k' e'. rewrite get_remove by done. destruct (String.eqb_spec k' k); [done|apply H5].
Qed.

Lemma ledger_ok_cursor cap l k :
  ledger_ok cap l -> contains_key k (entries l) = true ->
  ledger_ok cap {| schema_version := schema_version l;
                   reconciliation_cursor := Some k; entries := entries l |}.
Proof. intros [H1 H2 H3 H4 H5] Hk. constructor; cbn; auto. by intros ? [= <-]. Qed.

(** ** Effects

    Every operation, whatever fails, has one of these effects. *)
Inductive trans : State -> State -> Prop :=
| t_same s : trans s s
| t_send now : trans Pending (Sending now)
| t_refused t : trans (Sending t) Pending
| t_accept t j : trans (Sending t) (Submitted j)
| t_adopt code j :
    code = "submission_ambiguous"%string \/ code = "invalid_job_response"%string ->
    trans (Failed None code) (Submitted j)
| t_complete j c p : trans (Submitted j) (Completed j c p)
| t_fail_pending code : trans Pending (Failed None code)
| t_fail_sending t code : trans (Sending t) (Failed None code)
| t_fail_submitted j code : trans (Submitted j) (Failed (Some j) code).

Definition with_state (l : Ledger) (k : string) (e : Entry) (s : State) : Ledger :=
  {| schema_version := schema_version l;
     reconciliation_cursor := reconciliation_cursor l;
     entries := insert k {| identity := identity e; state := s |} (entries l) |}.
Definition with_new (l : Ledger) (k : string) (i : Identity) : Ledger :=
  {| schema_version := schema_version l;
     reconciliation_cursor := reconciliation_cursor l;
     entries := insert k {| identity := i; state := Pending |} (entries l) |}.
Definition without (l : Ledger) (k : string) : Ledger :=
  {| schema_version := schema_version l;
     reconciliation_cursor :=
       if bool_decide (reconciliation_cursor l = Some k) then None else reconciliation_cursor l;
     entries := remove k (entries l) |}.

(** [e] is readable as the archived completion of [k]. *)
Definition archived_as (d : Disk) (k : string) (e : Entry) : Prop :=
  completed_dir d = DirPlain /\ is_completed (state e) = true /\ entry_ok k e = true /\
  exists b, archives d !! k = Some (Regular b) /\ entry_from_slice b = Some e /\ llen b <= 65536.

(** Archives are only ever added. *)
Definition archives_grow (d d' : Disk) : Prop :=
  (completed_dir d = DirPlain -> completed_dir d' = DirPlain) /\
  (forall k n, archives d !! k = Some n -> archives d' !! k = Some n).
Definition same_archive (d d' : Disk) : Prop :=
  completed_dir d' = completed_dir d /\ archives d' = archives d.

Inductive effect (o o' : Outbox) : Prop :=
| eff_none : ledger o' = ledger o -> archives_grow (disk o) (disk o') -> effect o o'
| eff_update k e s :
    get k (entries (ledger o)) = Some e -> trans (state e) s -> valid_state s = true ->
    same_archive (disk o) (disk o') -> ledger o' = with_state (ledger o) k e s -> effect o o'
| eff_insert k i :
    key i = Ok k -> get k (entries (ledger o)) = None -> size (entries (ledger o)) < capacity o ->
    (forall e, ~ archived_as (disk o) k e) ->
    same_archive (disk o) (disk o') -> ledger o' = with_new (ledger o) k i -> effect o o'
| eff_cursor k :
    contains_key k (entries (ledger o)) = true -> same_archive (disk o) (disk o') ->
    ledger o' = {| schema_version := schema_version (ledger o);
                   reconciliation_cursor := Some k; entries := entries (ledger o) |} -> effect o o'
| eff_remove k e :
    get k (entries (ledger o)) = Some e -> archived_as (disk o') k e ->
    archives_grow (disk o) (disk o') -> ledger o' = without (ledger o) k -> effect o o'.

Lemma archives_grow_refl d : archives_grow d d.
Proof. by split. Qed.
Lemma same_archive_grow d d' : same_archive d d' -> archives_grow d d'.
Proof. intros [H1 H2]. split; [congruence|]. intros. by rewrite H2. Qed.
Lemma archives_grow_trans d1 d2 d3 : archives_grow d1 d2 -> archives_grow d2 d3 -> archives_grow d1 d3.
Proof. intros [] []. split; auto. Qed.
Lemma archived_as_grow d d' k e : archives_grow d d' -> archived_as d k e -> archived_as d' k e.
Proof. intros [G1 G2] (H1 & H2 & H3 & b & H4 & H5). repeat split; auto. exists b. auto. Qed.
Lemma archived_as_unique d k e e' : archived_as d k e -> archived_as d k e' -> e = e'.
Proof.
  intros (_ & _ & _ & b & H1 & H2 & _) (_ & _ & _ & b' & H3 & H4 & _). congruence.
Qed.

(** A successful read is the archived entry, or the absence of one. *)
Lemma archived_spec o k io r :
  archived o k io = Ok r ->
  match r with
  | Some e => archived_as (disk o) k e
  | None => forall e, ~ archived_as (disk o) k e
  end.
Proof.
  unfold archived. destruct (valid_key k); [|done]. cbn [negb].
  destruct (stat_dir io); [|done]. cbn [negb].
  destruct (completed_dir (disk o)) eqn:Hd; [intros [= <-] e (? & _); congruence| |done].
  destruct (stat_file io); [|done]. cbn [negb].
  destruct (archives (disk o) !! k) as [[b|]|] eqn:Ha; [|done|].
  - destruct (Z.ltb_spec 65536 (llen b)); [done|]. destruct (read_file io); [|done]. cbn [negb].
    destruct (entry_from_slice b) as [e|] eqn:He; [|done].
    destruct (entry_ok k e) eqn:Hok; [|done].
    destruct (is_completed (state e)) eqn:Hc; [|done]. cbn. intros [= <-].
    repeat split; try done. exists b. auto.
  - intros [= <-] e (_ & _ & _ & b & Hb & _). congruence.
Qed.

(** Every operation on one entry goes through [change]. *)
Lemma change_effect o k f io r o' :
  inv o ->
  (forall e s, get k (entries (ledger o)) = Some e -> f (state e) = Ok s ->
               trans (state e) s /\ valid_state s = true) ->
  change o k f io = (r, o') ->
  effect o o' /\ inv o' /\ (forall e, r = Err e -> o' = o).
Proof.
  intros Hi Hf. unfold change. destruct (get k (entries (ledger o))) as [e|] eqn:Hk.
  2: { intros [= <- <-]. split; [by apply eff_none|done]. }
  destruct (f (state e)) as [s|er] eqn:Hs.
  2: { intros [= <- <-]. split; [by apply eff_none|done]. }
  destruct (Hf e s eq_refl Hs) as [Ht Hv]. intros H.
  destruct (commit_inv o _ io r o' Hi (ledger_ok_update _ _ _ _ _ (inv_ledger _ Hi) Hk Hv) H)
    as (Hi' & Hok & Herr & Ha & Hd & Hc).
  split; [|done]. destruct r as [[]|er].
  - eapply (eff_update _ _ k e s); auto. by split.
  - rewrite (Herr er) by done. by apply eff_none.
Qed.

Lemma valid_state_of o k e :
  inv o -> get k (entries (ledger o)) = Some e -> valid_state (state e) = true.
Proof. intros Hi Hk. by apply (ok_entries _ _ (inv_ledger _ Hi)), entry_ok_iff in Hk as [_ ?]. Qed.

Ltac inv_err H := injection H as <- <-; split; [by apply eff_none|done].

Lemma begin_send_effect o k now io r o' :
  inv o -> begin_send o k now io = (r, o') -> effect o o' /\ inv o' /\ (forall e, r = Err e -> o' = o).
Proof.
  intros Hi. apply change_effect; [done|]. intros e s _.
  destruct (state e); intros [= <-]; split; (constructor || done).
Qed.

Lemma refused_effect o k io r o' :
  inv o -> refused o k io = (r, o') -> effect o o' /\ inv o' /\ (forall e, r = Err e -> o' = o).
Proof.
  intros Hi. apply change_effect; [done|]. intros e s _.
  destruct (state e); intros [= <-]; split; (constructor || done).
Qed.

Lemma acknowledge_effect o k i io r o' :
  inv o -> acknowledge o k i io = (r, o') -> effect o o' /\ inv o' /\ (forall e, r = Err e -> o' = o).
Proof.
  intros Hi. unfold acknowledge. destruct (uuid i) eqn:Hu; [|intros H; inv_err H].
  apply change_effect; [done|]. intros e s _. destruct (state e); try done.
  - intros [= <-]. split; [constructor|done].
  - destruct (String.eqb_spec job_id i) as [->|]; [|done]. intros [= <-]. split; [constructor|done].
Qed.

Lemma adopt_effect o k i io r o' :
  inv o -> adopt o k i io = (r, o') -> effect o o' /\ inv o' /\ (forall e, r = Err e -> o' = o).
Proof.
  intros Hi. unfold adopt. destruct (uuid i) eqn:Hu; [|intros H; inv_err H].
  apply change_effect; [done|]. intros e s _. destruct (state e) as [| | j | |[j|] c]; try done.
  - intros [= <-]. split; [constructor|done].
  - destruct (String.eqb_spec j i) as [->|]; [|done]. intros [= <-]. split; [constructor|done].
  - destruct (_ || _) eqn:Hc; [|done]. intros [= <-]. split; [|done].
    constructor. bool_prop. destruct Hc; bool_prop; auto.
Qed.

Lemma complete_effect o k i c p io r o' :
  inv o -> complete o k i c p io = (r, o') -> effect o o' /\ inv o' /\ (forall e, r = Err e -> o' = o).
Proof.
  intros Hi. unfold complete. destruct (digest c) eqn:Hd; [|intros H; inv_err H].
  destruct (some_and p _) eqn:Hp; [intros H; inv_err H|]. cbn [negb orb].
  apply change_effect; [done|]. intros e s Hk. pose proof (valid_state_of _ _ _ Hi Hk) as Hv.
  assert (Hsame : forall s', (if bool_decide (state e = Completed i c p) then Ok (state e) else Err Invalid)
                             = Ok s' -> trans (state e) s' /\ valid_state s' = true).
  { intros s'. case_bool_decide; [|done]. intros [= <-]. split; [constructor|done]. }
  destruct (state e) as [| | j | |] eqn:He; try (apply Hsame).
  destruct (String.eqb_spec j i) as [->|]; [|done]. intros [= <-]. split; [constructor|].
  cbn in Hv |- *. rewrite Hv, Hd. destruct p; [|done]. cbn in *. by apply negb_false_iff.
Qed.

Lemma fail_effect o k c io r o' :
  inv o -> fail o k c io = (r, o') -> effect o o' /\ inv o' /\ (forall e, r = Err e -> o' = o).
Proof.
  intros Hi. unfold fail. destruct (failure_code_ok c) eqn:Hc; [|intros H; inv_err H].
  apply change_effect; [done|]. intros e s Hk. pose proof (valid_state_of _ _ _ Hi Hk) as Hv.
  destruct (state e); intros [= <-]; (split; [constructor|]); cbn in *; by rewrite ?Hv, ?Hc.
Qed.

Lemma observe_effect o i rio cio r o' :
  inv o -> observe o i rio cio = (r, o') -> effect o o' /\ inv o' /\ (forall e, r = Err e -> o' = o).
Proof.
  intros Hi. unfold observe. destruct (key i) as [k|e] eqn:Hkey; [|intros H; inv_err H].
  destruct (contains_key k (entries (ledger o))) eqn:Hc; [intros H; inv_err H|].
  destruct (archived o k rio) as [[e|]|e] eqn:Ha; try (intros H; inv_err H).
  destruct (Z.leb_spec (capacity o) (size (entries (ledger o)))); [intros H'; inv_err H'|].
  assert (Hnone : get k (entries (ledger o)) = None).
  { unfold contains_key in Hc. by destruct (get k (entries (ledger o))). }
  destruct (commit o _ cio) as [r' o1] eqn:Hcm.
  destruct (commit_inv o _ cio r' o1 Hi
              (ledger_ok_observe _ _ k i (inv_ledger _ Hi) Hkey Hnone ltac:(lia)) Hcm)
    as (Hi' & Hok & Herr & Har & Hd & Hcap).
  apply archived_spec in Ha. destruct r' as [[]|er]; intros [= <- <-].
  - split; [|done]. apply (eff_insert _ _ k i); auto. by split.
  - rewrite (Herr er) in * by done. split; [by apply eff_none|done].
Qed.

Lemma rotated_in l k e : In (k, e) (rotated l) -> In (k, e) (entries l) /\ terminal (state e) = false.
Proof.
  unfold rotated. rewrite filter_In, in_app_iff, !filter_In. cbn.
  intros [[[H _]|[H _]] Ht]; split; auto; by apply negb_true_iff.
Qed.

Lemma take_in {A} n (l : list A) x : In x (take n l) -> In x l.
Proof. rewrite <- (take_drop n l) at 2. rewrite in_app_iff. auto. Qed.

Lemma last_in {A} (l : list A) x : list.last l = Some x -> In x l.
Proof. intros [l' ->]%last_Some. apply in_app_iff. right. by left. Qed.

Lemma in_contains_key l k (e : Entry) cap :
  ledger_ok cap l -> In (k, e) (entries l) -> contains_key k (entries l) = true.
Proof.
  intros Hl Hin. unfold contains_key.
  by rewrite (proj2 (get_In k e _ (ok_sorted _ _ Hl)) Hin).
Qed.

Lemma next_batch_effect o n io r o' :
  inv o -> next_batch o n io = (r, o') -> effect o o' /\ inv o' /\ (forall e, r = Err e -> o' = o).
Proof.
  intros Hi. unfold next_batch. destruct (in_range 1 256 n); [|intros H; inv_err H]. cbn [negb].
  destruct (list.last (take (Z.to_nat n) (rotated (ledger o)))) as [[k e]|] eqn:Hlast;
    [|intros H; inv_err H].
  apply last_in, take_in, rotated_in in Hlast as [Hin _].
  pose proof (in_contains_key _ _ _ _ (inv_ledger _ Hi) Hin) as Hk.
  destruct (commit o _ io) as [r' o1] eqn:Hcm.
  destruct (commit_inv o _ io r' o1 Hi (ledger_ok_cursor _ _ k (inv_ledger _ Hi) Hk) Hcm)
    as (Hi' & Hok & Herr & Har & Hd & Hcap).
  destruct r' as [[]|er]; intros [= <- <-].
  - split; [|done]. apply (eff_cursor _ _ k); auto. by split.
  - rewrite (Herr er) in * by done. split; [by apply eff_none|done].
Qed.

(** Replacing only the archive part of the disk. *)
Lemma set_disk_inv o d :
  inv o -> outbox_json d = outbox_json (disk o) -> inv (set_ledger o (ledger o) d).
Proof. intros [H1 H2 (b & H3 & H4)] Hd. constructor; cbn; auto. exists b. by rewrite Hd. Qed.

Lemma write_archive_spec d k e io r d' :
  entry_ok k e = true -> is_completed (state e) = true ->
  write_archive d k e io = (r, d') ->
  outbox_json d' = outbox_json d /\ archives_grow d d' /\ (r = Ok tt -> archived_as d' k e).
Proof.
  intros Hok Hc. unfold write_archive.
  assert (Hmk : outbox_json (make_dir d) = outbox_json d /\ archives_grow d (make_dir d)).
  { split; [done|]. split; [cbn; by intros ->|done]. }
  destruct (entry_roundtrip Hcodec k e Hok) as (b & E1 & E2 & E3). rewrite E1.
  destruct io; try (intros [= <- <-]; split; [done|]; split; [apply archives_grow_refl|done]);
    (destruct (completed_dir (make_dir d)) eqn:Hdir; try (intros [= <- <-]; tauto));
    try (intros [= <- <-]; split; [|split]; (tauto || done));
    (destruct (archives (make_dir d) !! k) eqn:Hak; [intros [= <- <-]; split; [|split]; (tauto || done)|]);
    intros [= <- <-]; (split; [done|]); split.
  1,3: split; [done|]; intros k' n Hk'; cbn in Hak |- *; rewrite lookup_insert_ne; congruence.
  all: intros _; repeat split; auto; exists b; cbn; by rewrite lookup_insert_eq.
Qed.

(** What archiving guarantees, whatever fails. *)
Definition archive_post (o : Outbox) (k j : string) (r : result Error Entry) (o' : Outbox) : Prop :=
  effect o o' /\ inv o' /\
  (forall e, r = Err e -> ledger o' = ledger o /\ outbox_json (disk o') = outbox_json (disk o)) /\
  (forall e, r = Ok e -> completed_as (state e) j = true /\ archived_as (disk o') k e /\
                         get k (entries (ledger o')) = None).

Lemma archive_post_err o k j er d r o' :
  inv o -> outbox_json d = outbox_json (disk o) -> archives_grow (disk o) d ->
  (Err er, set_ledger o (ledger o) d) = (r, o') -> archive_post o k j r o'.
Proof.
  intros Hi Hj Hg [= <- <-]. split; [by apply eff_none|]. split; [by apply set_disk_inv|].
  by split.
Qed.

Lemma set_ledger_same o : set_ledger o (ledger o) (disk o) = o.
Proof. by destruct o. Qed.

Lemma archive_post_stop o k j er r o' :
  inv o -> (Err er, o) = (r, o') -> archive_post o k j r o'.
Proof.
  intros Hi H. rewrite <- (set_ledger_same o) in H at 1.
  eapply archive_post_err; eauto using archives_grow_refl.
Qed.

(** Forgetting the entry once its archive is in place. *)
Lemma archive_forget o k j e d cio r o' :
  inv o -> outbox_json d = outbox_json (disk o) -> archives_grow (disk o) d ->
  archived_as d k e -> completed_as (state e) j = true ->
  (forall e0, get k (entries (ledger o)) = Some e0 -> e0 = e) ->
  (if contains_key k (entries (ledger o)) then
     match commit (set_ledger o (ledger o) d) (without (ledger o) k) cio with
     | (Ok _, o2) => (Ok e, o2) | (Err er, o2) => (Err er, o2) end
   else (Ok e, set_ledger o (ledger o) d)) = (r, o') ->
  archive_post o k j r o'.
Proof.
  intros Hi Hjson Hgrow Harch Hj Huniq. pose proof (set_disk_inv o d Hi Hjson) as Hi1.
  unfold contains_key. destruct (get k (entries (ledger o))) as [e0|] eqn:Hg.
  - specialize (Huniq e0 eq_refl) as ->. destruct (commit _ _ cio) as [r2 o2] eqn:Hcm.
    destruct (commit_inv _ _ cio r2 o2 Hi1 (ledger_ok_remove _ _ k (inv_ledger _ Hi)) Hcm)
      as (Hi2 & Hok2 & Herr2 & Ha2 & Hd2 & Hcap2). cbn [disk set_ledger] in Ha2, Hd2.
    assert (Hsame : archives_grow d (disk o2)) by (by apply same_archive_grow; split).
    destruct r2 as [[]|er]; intros E.
    + injection E as <- <-. pose proof (archived_as_grow _ _ _ _ Hsame Harch) as Ha'.
      split; [|split; [done|split; [done|]]].
      * apply (eff_remove _ _ k e); auto. by eapply archives_grow_trans.
      * intros e' [= <-]. split; [done|]. split; [done|]. rewrite Hok2 by done. cbn.
        rewrite get_remove by apply (ok_sorted _ _ (inv_ledger _ Hi)). by rewrite String.eqb_refl.
    + rewrite (Herr2 er) in E by done. by eapply archive_post_err.
  - intros [= <- <-]. split; [by apply eff_none|]. split; [done|]. split; [done|].
    intros e' [= <-]. auto.
Qed.

Lemma archive_effect o k j rio aio cio r o' :
  inv o -> archive_completed o k j rio aio cio = (r, o') -> archive_post o k j r o'.
Proof.
  intros Hi. unfold archive_completed.
  destruct (negb (valid_key k) || negb (uuid j)); [by apply archive_post_stop|].
  destruct (archived o k rio) as [arch|er] eqn:Har; [|by apply archive_post_stop].
  destruct (match get k (entries (ledger o)) with Some e => Some e | None => arch end) as [e|] eqn:He;
    [|by apply archive_post_stop].
  destruct (completed_as (state e) j) eqn:Hj; [|by apply archive_post_stop]. cbn [negb].
  destruct (some_and arch _) eqn:Hold; [by apply archive_post_stop|].
  apply archived_spec in Har.
  assert (Hcomp : is_completed (state e) = true) by (by destruct (state e)).
  assert (Hok : entry_ok k e = true).
  { destruct (get k (entries (ledger o))) as [e0|] eqn:Hg.
    - injection He as ->. by apply (ok_entries _ _ (inv_ledger _ Hi)).
    - subst arch. apply Har. }
  destruct (if is_none arch then write_archive (disk o) k e aio else (Ok tt, disk o)) as [r1 d1] eqn:Hw.
  assert (Hd1 : outbox_json d1 = outbox_json (disk o) /\ archives_grow (disk o) d1 /\
                (r1 = Ok tt -> archived_as d1 k e)).
  { destruct arch as [old|]; cbn [is_none] in Hw; [|by eapply write_archive_spec].
    injection Hw as <- <-. split; [done|]. split; [done|]. intros _.
    cbn in Hold. apply negb_false_iff in Hold. bool_prop. by subst. }
  destruct Hd1 as (Hjson & Hgrow & Harch).
  destruct r1 as [[]|er]; [|by apply archive_post_err].
  assert (Huniq : forall e0, get k (entries (ledger o)) = Some e0 -> e0 = e).
  { intros e0 Hg. rewrite Hg in He. congruence. }
  destruct aio;
    try exact (archive_forget o k j e d1 cio r o' Hi Hjson Hgrow (Harch eq_refl) Hj Huniq).
  by apply archive_post_err.
Qed.

(** ** Whole runs *)

Lemma exec_effect op o r o' :
  inv o -> exec op o = (r, o') ->
  effect o o' /\ inv o' /\
  (forall e, r = Err e -> ledger o' = ledger o /\ outbox_json (disk o') = outbox_json (disk o)).
Proof.
  intros Hi.
  assert (Hsame : forall A (x : result Error A) o1,
            effect o o1 /\ inv o1 /\ (forall e, x = Err e -> o1 = o) ->
            effect o o1 /\ inv o1 /\ (forall e, rmap (fun _ => tt) x = Err e ->
              ledger o1 = ledger o /\ outbox_json (disk o1) = outbox_json (disk o))).
  { intros A x o1 (H1 & H2 & H3). split; [done|]. split; [done|].
    destruct x as [|e]; [done|]. intros _ _. by rewrite (H3 e). }
  assert (Hunit : forall x : result Error unit, rmap (fun _ => tt) x = x) by (by intros [[]|]).
  destruct op; cbn [exec]; unfold drop_value; intros H;
    try (destruct (observe _ _ _ _) as [x o1] eqn:E; cbn in H; injection H as <- <-;
         by eapply Hsame, observe_effect);
    try (destruct (next_batch _ _ _) as [x o1] eqn:E; cbn in H; injection H as <- <-;
         by eapply Hsame, next_batch_effect);
    try (destruct (archive_completed _ _ _ _ _ _) as [x o1] eqn:E; cbn in H; injection H as <- <-;
         apply archive_effect in E as (H1 & H2 & H3 & _); [|done]; split; [done|]; split; [done|];
         destruct x; [done|]; intros _ _; by eapply H3);
    rewrite <- (Hunit r).
  all: apply Hsame; eauto using begin_send_effect, refused_effect, acknowledge_effect,
         adopt_effect, complete_effect, fail_effect.
Qed.

Lemma run_inv ops o : inv o -> inv (run ops o).
Proof.
  revert o. induction ops as [|op ops IH]; intros o Hi; [done|]. cbn.
  apply IH. destruct (exec op o) as [r o'] eqn:E. by apply (exec_effect op o r o' Hi E).
Qed.

(** [open] establishes the invariant. *)
Lemma open_inv d cap b1 b2 b3 io o d' : open d cap b1 b2 b3 io = (Ok o, d') -> inv o.
Proof.
  unfold open. destruct (in_range 1 100000 cap) eqn:Hcap; [|done].
  destruct b1; [|done]. destruct b2; [|done]. cbn [negb].
  destruct (match outbox_json d with None => _ | Some bytes => _ end) as [l|] eqn:Hr; [|done].
  destruct (Z.eqb_spec (schema_version l) 1) as [Hs|]; [|done]. cbn [negb orb].
  destruct (Z.ltb_spec cap (size (entries l))) as [|Hsz]; [done|]. cbn [orb].
  destruct (some_and _ _) eqn:Hcur; [done|].
  destruct (forallb _ _) eqn:Hall; [|done]. cbn [negb].
  assert (Hso : sorted (entries l)).
  { destruct (outbox_json d) as [b|]; [destruct b3; [|done]; exact (ledger_parse_sorted Hcodec b l Hr)|].
    injection Hr as <-. apply sorted_nil. }
  assert (Hok : ledger_ok cap l).
  { constructor; auto.
    - intros k Hk. rewrite Hk in Hcur. cbn in Hcur. by apply negb_false_iff.
    - intros k e Hk. apply get_In in Hk; [|done]. rewrite forallb_forall in Hall. by apply (Hall (k, e)). }
  destruct (commit _ l io) as [[[]|] o1] eqn:Hcm; [|done]. intros [= <- <-].
  apply commit_cases in Hcm as [[? _]|[_ (b & Hb & ->)]]; [done|].
  constructor; [done|done|]. exists b. cbn. split; [done|].
  destruct (ledger_roundtrip Hcodec l Hso) as (b' & E1 & E2). congruence.
Qed.

Lemma open_reopen o :
  inv o ->
  exists d', open (disk o) (capacity o) true true true CommitOk = (Ok (set_ledger o (ledger o) d'), d')
             /\ same_archive (disk o) d' /\ outbox_json d' = ledger_to_vec (ledger o).
Proof.
  intros [Hcap Hl (b & Hb & Hp)]. unfold open. rewrite Hcap, Hb, Hp. cbn [negb].
  rewrite (ok_schema _ _ Hl). cbn [Z.eqb Pos.eqb negb orb].
  destruct (Z.ltb_spec (capacity o) (size (entries (ledger o)))).
  { pose proof (ok_size _ _ Hl). lia. } cbn [orb].
  assert (some_and (reconciliation_cursor (ledger o))
            (fun k => negb (contains_key k (entries (ledger o)))) = false) as ->.
  { destruct (reconciliation_cursor (ledger o)) as [k|] eqn:Hc; [|done]. cbn.
    by rewrite (ok_cursor _ _ Hl k). }
  assert (forallb (fun kv => entry_ok (fst kv) (snd kv)) (entries (ledger o)) = true) as ->.
  { apply forallb_forall. intros [k e] Hin. apply (ok_entries _ _ Hl).
    by apply get_In; [apply (ok_sorted _ _ Hl)|]. }
  cbn [negb]. unfold commit.
  destruct (ledger_roundtrip Hcodec _ (ok_sorted _ _ Hl)) as (b' & E1 & E2). rewrite E1.
  eexists. split; [done|]. split; [by split|done].
Qed.

(** ** Completions are permanent *)

Definition done_with (o : Outbox) (k : string) (e : Entry) : Prop :=
  is_completed (state e) = true /\
  (get k (entries (ledger o)) = Some e \/
   (get k (entries (ledger o)) = None /\ archived_as (disk o) k e)).

Lemma trans_completed s s' : is_completed s = true -> trans s s' -> s' = s.
Proof. intros Hc Ht. by destruct Ht. Qed.

Lemma effect_done o o' k e : inv o -> effect o o' -> done_with o k e -> done_with o' k e.
Proof.
  intros Hi He [Hc Hd]. split; [done|]. pose proof (ok_sorted _ _ (inv_ledger _ Hi)) as Hs.
  destruct He as [Hl Hg|k0 e0 s Hk Ht Hv Hsa Hl|k0 i Hkey Hn Hsz Hna Hsa Hl|k0 Hk Hsa Hl|k0 e0 Hk Ha Hg Hl];
    rewrite Hl; cbn [entries with_state with_new without];
    rewrite ?get_insert, ?get_remove by done.
  - destruct Hd as [?|[? ?]]; [auto|]. right. eauto using archived_as_grow.
  - apply same_archive_grow in Hsa. destruct (String.eqb_spec k k0) as [->|].
    + destruct Hd as [Hd|[Hd _]]; [|congruence]. left. rewrite Hd in Hk. injection Hk as <-.
      apply trans_completed in Ht as ->; [|done]. by destruct e.
    + destruct Hd as [?|[? ?]]; [auto|]. right. eauto using archived_as_grow.
  - apply same_archive_grow in Hsa. destruct (String.eqb_spec k k0) as [->|].
    + destruct Hd as [Hd|[_ Hd]]; [congruence|]. by apply Hna in Hd.
    + destruct Hd as [?|[? ?]]; [auto|]. right. eauto using archived_as_grow.
  - apply same_archive_grow in Hsa. destruct Hd as [?|[? ?]]; [auto|]. right. eauto using archived_as_grow.
  - destruct (String.eqb_spec k k0) as [->|].
    + right. split; [done|]. destruct Hd as [Hd|[Hd _]]; congruence.
    + destruct Hd as [?|[? ?]]; [auto|]. right. eauto using archived_as_grow.
Qed.

Lemma run_done ops o k e : inv o -> done_with o k e -> done_with (run ops o) k e.
Proof.
  revert o. induction ops as [|op ops IH]; intros o Hi Hd; [done|]. cbn.
  destruct (exec op o) as [r o'] eqn:E. destruct (exec_effect op o r o' Hi E) as (He & Hi' & _).
  apply IH; [done|]. exact (effect_done o o' k e Hi He Hd).
Qed.

Lemma next_batch_elem o n io batch o' k e :
  next_batch o n io = (Ok batch, o') -> In (k, e) batch ->
  In (k, e) (entries (ledger o)) /\ terminal (state e) = false.
Proof.
  unfold next_batch. destruct (negb _); [done|].
  destruct (list.last _) as [[k' e']|].
  - destruct (commit _ _ _) as [[]]; [|done]. intros [= <- _] Hin.
    by apply take_in, rotated_in in Hin.
  - intros [= <- _] Hin. by apply take_in, rotated_in in Hin.
Qed.

(** ** Lifecycle of one identity *)

Lemma effect_lifecycle o o' k :
  inv o -> effect o o' ->
  match get k (entries (ledger o)), get k (entries (ledger o')) with
  | Some e, Some e' => identity e' = identity e /\ trans (state e) (state e')
  | None, Some e' => key (identity e') = Ok k /\ state e' = Pending
  | Some e, None => archived_as (disk o') k e
  | None, None => True
  end.
Proof.
  intros Hi He. pose proof (ok_sorted _ _ (inv_ledger _ Hi)) as Hs.
  destruct He as [Hl Hg|k0 e0 s Hk Ht Hv Hsa Hl|k0 i Hkey Hn Hsz Hna Hsa Hl|k0 Hk Hsa Hl|k0 e0 Hk Ha Hg Hl];
    rewrite Hl; cbn [entries with_state with_new without];
    rewrite ?get_insert, ?get_remove by done;
    try (destruct (String.eqb_spec k k0) as [->|]);
    try (destruct (get k (entries (ledger o))); [by split; [|constructor]|done]).
  - rewrite Hk. by split.
  - rewrite Hn. by split.
  - destruct (get k0 (entries (ledger o))); [by split; [|constructor]|done].
  - by rewrite Hk.
Qed.

(** ** Fair rotation *)

Lemma filter_sorted f (m : bmap Entry) : sorted m -> sorted (List.filter f m).
Proof.
  induction m as [|[k e] m IH]; [done|]. intros [Hk Hm]%sorted_cons. cbn.
  destruct (f (k, e)); [|auto]. apply sorted_cons. split; [|auto].
  rewrite List.Forall_forall in *. intros x Hx. apply Hk. apply in_map_iff in Hx as (y & <- & Hy).
  apply in_map. apply filter_In in Hy. tauto.
Qed.

Definition live (l : Ledger) : bmap Entry :=
  List.filter (fun kv => negb (terminal (state (snd kv)))) (entries l).
Definition above (c : string) (m : bmap Entry) := List.filter (fun kv => sltb c (fst kv)) m.
Definition upto (c : string) (m : bmap Entry) := List.filter (fun kv => sleb (fst kv) c) m.

Lemma filter_comm {A} (f g : A -> bool) l : List.filter f (List.filter g l) = List.filter g (List.filter f l).
Proof.
  induction l as [|x l IH]; [done|]. cbn.
  destruct (g x) eqn:Hg, (f x) eqn:Hf; cbn; rewrite ?Hf, ?Hg, IH; done.
Qed.

Lemma filter_all {A} (f : A -> bool) l : (forall x, f x = true) -> List.filter f l = l.
Proof. intros H. induction l as [|x l IH]; [done|]. cbn. by rewrite H, IH. Qed.
Lemma filter_nothing {A} (f : A -> bool) l : (forall x, f x = false) -> List.filter f l = [].
Proof. intros H. induction l as [|x l IH]; [done|]. cbn. by rewrite H, IH. Qed.

Lemma rotated_eq l :
  rotated l = match reconciliation_cursor l with
              | None => live l
              | Some c => above c (live l) ++ upto c (live l)
              end.
Proof.
  unfold rotated. rewrite List.filter_app. destruct (reconciliation_cursor l) as [c|]; cbn [none_or some_and].
  - f_equal; apply filter_comm.
  - by rewrite (filter_all (fun _ => true)), (filter_nothing (fun _ => false)), app_nil_r.
Qed.

(** A strictly sorted list splits at a cursor. *)
Lemma split_at c (m : bmap Entry) :
  sorted m -> exists a b, m = a ++ b /\ upto c m = a /\ above c m = b.
Proof.
  intros Hm. exists (upto c m), (above c m). split; [|done].
  unfold upto, above, sleb. induction m as [|[k e] m IH]; [done|]. cbn.
  apply sorted_cons in Hm as [Hk Hm]. destruct (sltb c k) eqn:Hc; cbn.
  - assert (Hall : forall x, In x m -> sltb c (fst x) = true).
    { intros x Hx. rewrite List.Forall_forall in Hk. apply sltb_spec.
      eapply slt_trans; [by apply sltb_spec|]. apply Hk. by apply in_map. }
    clear IH. rewrite (filter_ext_in _ (fun _ => false)) by (intros x Hx; by rewrite Hall).
    rewrite (filter_ext_in (fun kv => sltb c kv.1) (fun _ => true)) by auto.
    by rewrite filter_nothing, filter_all.
  - f_equal. auto.
Qed.

(** Keys of an earlier part are below those of a later part. *)
Lemma sorted_app_lt (a b : bmap Entry) x y :
  sorted (a ++ b) -> In x a -> In y b -> slt (fst x) (fst y).
Proof.
  induction a as [|[k e] a IH]; [done|]. cbn [app]. intros [Hk Hs]%sorted_cons [<-|Hx] Hy; [|auto].
  rewrite List.Forall_forall in Hk. apply Hk. rewrite map_app, in_app_iff. right. by apply in_map.
Qed.

Lemma cut_at (a b : bmap Entry) k e :
  sorted (a ++ b) -> list.last a = Some (k, e) -> upto k (a ++ b) = a /\ above k (a ++ b) = b.
Proof.
  intros Hs Hl. assert (Ha : forall x, In x a -> sltb k (fst x) = false).
  { intros x Hx. apply last_Some in Hl as [a' ->]. rewrite <- app_assoc in Hs.
    apply in_app_iff in Hx as [Hx|[<-|[]]]; apply sltb_false; [right|by left].
    eapply (sorted_app_lt a' _ x (k, e)); [exact Hs|done|by left]. }
  assert (Hb : forall y, In y b -> sltb k (fst y) = true).
  { intros y Hy. apply sltb_spec. apply last_in in Hl. by eapply (sorted_app_lt _ _ (k, e) y). }
  unfold upto, above, sleb. rewrite !List.filter_app.
  rewrite (filter_ext_in (fun kv => negb (sltb k kv.1)) (fun _ => true) a) by (intros; by rewrite Ha).
  rewrite (filter_ext_in (fun kv => negb (sltb k kv.1)) (fun _ => false) b) by (intros; by rewrite Hb).
  rewrite (filter_ext_in (fun kv => sltb k kv.1) (fun _ => false) a) by (intros; by rewrite Ha).
  rewrite (filter_ext_in (fun kv => sltb k kv.1) (fun _ => true) b) by (intros; by rewrite Hb).
  by rewrite !(filter_all (fun _ => true)), !(filter_nothing (fun _ => false)), app_nil_r.
Qed.

Lemma last_app_nonempty {A} (a b : list A) x : list.last b = Some x -> list.last (a ++ b) = Some x.
Proof. intros H. by rewrite last_app, H. Qed.

(** Moving the cursor to the last key of a batch rotates by the batch. *)
Lemma rotate_step (a b : bmap Entry) n k e :
  sorted (a ++ b) -> (1 <= n <= length (b ++ a))%nat -> list.last (take n (b ++ a)) = Some (k, e) ->
  above k (a ++ b) ++ upto k (a ++ b) = drop n (b ++ a) ++ take n (b ++ a).
Proof.
  intros Hs Hn Hl. rewrite length_app in Hn. destruct (decide (n <= length b)%nat) as [Hle|Hgt].
  - rewrite take_app_le in * by done. rewrite drop_app_le by done.
    rewrite <- (take_drop n b) in Hs at 1. rewrite <- (take_drop n b) at 1 2.
    rewrite app_assoc in Hs. rewrite !(app_assoc a).
    destruct (cut_at _ _ k e Hs (last_app_nonempty a _ _ Hl)) as [-> ->]. by rewrite app_assoc.
  - rewrite take_app_ge in * by lia. rewrite drop_app_ge by lia.
    set (m := (n - length b)%nat) in *. assert (Hm : (1 <= m <= length a)%nat) by lia.
    assert (Hl' : list.last (take m a) = Some (k, e)).
    { rewrite last_app in Hl. destruct (list.last (take m a)) eqn:E; [done|].
      apply last_None in E. apply (f_equal length) in E. rewrite length_take in E. cbn in E. lia. }
    rewrite <- (take_drop m a) in Hs at 1. rewrite <- (take_drop m a) at 1 2.
    rewrite <- app_assoc in Hs. rewrite <- !app_assoc.
    destruct (cut_at _ _ k e Hs Hl') as [-> ->]. by rewrite <- app_assoc.
Qed.

Lemma rotated_next l k e n :
  sorted (entries l) -> (1 <= n <= length (rotated l))%nat ->
  list.last (take n (rotated l)) = Some (k, e) ->
  rotated {| schema_version := schema_version l; reconciliation_cursor := Some k; entries := entries l |}
  = drop n (rotated l) ++ take n (rotated l).
Proof.
  intros Hs. assert (Hlive : sorted (live l)) by by apply filter_sorted.
  rewrite (rotated_eq {| schema_version := _ |}). cbn [reconciliation_cursor].
  change (live {| schema_version := schema_version l; reconciliation_cursor := Some k; entries := entries l |})
    with (live l).
  rewrite rotated_eq. destruct (reconciliation_cursor l) as [c|].
  - destruct (split_at c _ Hlive) as (a & b & Hab & -> & ->). rewrite Hab in Hlive |- *.
    by apply rotate_step.
  - intros Hn Hl. rewrite <- (app_nil_r (live l)) in Hn, Hl.
    pose proof (rotate_step [] (live l) n k e Hlive Hn Hl) as H. by rewrite app_nil_r in H.
Qed.

Lemma rotated_perm l : sorted (entries l) -> rotated l ≡ₚ live l.
Proof.
  intros Hs. rewrite rotated_eq. destruct (reconciliation_cursor l) as [c|]; [|done].
  destruct (split_at c (live l)) as (a & b & Hab & -> & ->); [by apply filter_sorted|].
  rewrite Hab. apply Permutation_app_comm.
Qed.

Lemma rotated_nodup l : sorted (entries l) -> NoDup (map fst (rotated l)).
Proof.
  intros Hs. pose proof (rotated_perm l Hs) as Hp. apply (Permutation_map fst) in Hp.
  rewrite Hp. by apply sorted_nodup, filter_sorted.
Qed.

Lemma next_batch_result o n io batch o' :
  sorted (entries (ledger o)) -> next_batch o n io = (Ok batch, o') ->
  batch = take (Z.to_nat n) (rotated (ledger o)) /\ NoDup (map fst batch) /\
  (forall k e, In (k, e) batch -> get k (entries (ledger o)) = Some e /\ terminal (state e) = false) /\
  entries (ledger o') = entries (ledger o).
Proof.
  intros Hs H. assert (Hb : batch = take (Z.to_nat n) (rotated (ledger o)) /\
                            entries (ledger o') = entries (ledger o)).
  { unfold next_batch in H. destruct (negb _); [done|]. destruct (list.last _) as [[k e]|].
    - destruct (commit _ _ _) as [[]] eqn:Hc; [|done]. injection H as <- <-.
      apply commit_cases in Hc as [[? _]|[_ (b & _ & ->)]]; done.
    - by injection H as <- <-. }
  destruct Hb as [Hb He]. split; [done|]. split; [|split; [|done]].
  - rewrite Hb. pose proof (rotated_nodup _ Hs) as Hn.
    rewrite <- (take_drop (Z.to_nat n) (rotated (ledger o))), map_app in Hn. apply NoDup_app in Hn as [Hn _]. done.
  - intros k e Hin. destruct (next_batch_elem _ _ _ _ _ _ _ H Hin) as [A B].
    split; [|done]. by apply get_In.
Qed.

(** The batches of successive calls whose commits succeed. *)
Fixpoint batches (calls : nat) (limit : Z) (o : Outbox) : list (list (string * Entry)) :=
  match calls with
  | O => []
  | S calls => match next_batch o limit CommitOk with
               | (Ok b, o') => b :: batches calls limit o'
               | (Err _, _) => []
               end
  end.

Lemma in_rotated l k e :
  sorted (entries l) -> In (k, e) (entries l) -> terminal (state e) = false -> In (k, e) (rotated l).
Proof.
  intros Hs Hin Ht. unfold rotated. rewrite filter_In, in_app_iff, !filter_In. cbn.
  rewrite Ht. split; [|done]. destruct (reconciliation_cursor l) as [c|]; cbn; [|by left].
  unfold sleb. destruct (sltb c k) eqn:E; [by left|right]. auto.
Qed.

Lemma next_batch_commits o limit :
  inv o -> in_range 1 256 limit = true ->
  exists o', next_batch o limit CommitOk = (Ok (take (Z.to_nat limit) (rotated (ledger o))), o') /\ inv o' /\
    (forall k e, list.last (take (Z.to_nat limit) (rotated (ledger o))) = Some (k, e) ->
       ledger o' = {| schema_version := schema_version (ledger o);
                      reconciliation_cursor := Some k; entries := entries (ledger o) |}).
Proof.
  intros Hi Hr. destruct (next_batch o limit CommitOk) as [r o'] eqn:E. exists o'.
  pose proof (next_batch_effect _ _ _ _ _ Hi E) as (_ & Hi' & _).
  unfold next_batch in E. rewrite Hr in E. cbn [negb] in E.
  destruct (list.last _) as [[k e]|] eqn:Hl; [|injection E as <- <-; split; [done|]; by split].
  set (l' := {| schema_version := _ |}) in E.
  pose proof (commit_succeeds o l' (ok_sorted _ _ (inv_ledger _ Hi))) as Hc.
  destruct (commit o l' CommitOk) as [r1 o1] eqn:Hcm. cbn in Hc. subst r1. injection E as <- <-.
  split; [done|]. split; [done|]. intros k' e' [= <- <-].
  apply commit_cases in Hcm as [[? _]|[_ (b & _ & ->)]]; [done|]. done.
Qed.

Lemma batches_cover calls limit o i x :
  inv o -> in_range 1 256 limit = true -> rotated (ledger o) !! i = Some x ->
  (i < calls * Z.to_nat limit)%nat -> In x (concat (batches calls limit o)).
Proof.
  intros Hi Hr. assert (Hlim : (1 <= Z.to_nat limit)%nat) by (apply in_range_spec in Hr; lia).
  revert o i Hi. induction calls as [|calls IH]; intros o i Hi Hx Hlt; [lia|]. cbn [batches].
  destruct (next_batch_commits o limit Hi Hr) as (o' & -> & Hi' & Hl'). cbn [concat].
  apply in_app_iff. set (n := Z.to_nat limit) in *.
  destruct (decide (i < n)%nat) as [Hin|Hge].
  - left. apply list_elem_of_In, list_elem_of_lookup. exists i. by rewrite lookup_take_lt.
  - right. pose proof (lookup_lt_Some _ _ _ Hx) as Hlen. destruct (list.last (take n (rotated (ledger o)))) as [[k e]|] eqn:Hlast.
    2: { apply last_None, (f_equal length) in Hlast. rewrite length_take in Hlast. cbn in Hlast. lia. }
    apply (IH o' (i - n)%nat Hi'); [|cbn in Hlt; lia].
    rewrite (Hl' k e eq_refl), (rotated_next _ k e n); [|apply (ok_sorted _ _ (inv_ledger _ Hi))|lia|done].
    rewrite lookup_app_l by (rewrite length_drop; lia). rewrite lookup_drop. by replace (n + (i - n))%nat with i by lia.
Qed.

(** ** Retrying an interrupted archive *)

Definition read_ok : ReadIo := {| stat_dir := true; stat_file := true; read_file := true |}.

(** [e] is the completion of [k], in the ledger with a sane archive or already
    only in the archive. *)
Definition archivable (o : Outbox) (k : string) (e : Entry) : Prop :=
  inv o /\ entry_ok k e = true /\ is_completed (state e) = true /\
  ((get k (entries (ledger o)) = Some e /\ completed_dir (disk o) <> DirOther /\
    (archives (disk o) !! k = None \/ archived_as (disk o) k e)) \/
   (get k (entries (ledger o)) = None /\ archived_as (disk o) k e)).

Lemma archived_read o k e :
  valid_key k = true -> archived_as (disk o) k e -> archived o k read_ok = Ok (Some e).
Proof.
  intros Hk (Hd & Hc & Hok & b & Ha & Hp & Hl). unfold archived. rewrite Hk. cbn. rewrite Hd, Ha.
  destruct (Z.ltb_spec 65536 (llen b)); [lia|]. by rewrite Hp, Hok, Hc.
Qed.

Lemma archived_read_none o k :
  valid_key k = true -> completed_dir (disk o) <> DirOther -> archives (disk o) !! k = None ->
  archived o k read_ok = Ok None.
Proof.
  intros Hk Hd Ha. unfold archived. rewrite Hk. cbn. rewrite Ha. by destruct (completed_dir (disk o)).
Qed.

Lemma write_archive_sane d k e io r d' :
  entry_ok k e = true -> is_completed (state e) = true ->
  completed_dir d <> DirOther -> archives d !! k = None ->
  write_archive d k e io = (r, d') ->
  completed_dir d' <> DirOther /\ (archives d' !! k = None \/ archived_as d' k e).
Proof.
  intros Hok Hc Hd Ha H. pose proof (write_archive_spec _ _ _ _ _ _ Hok Hc H) as (_ & _ & Hw).
  assert (Hmk : completed_dir (make_dir d) = DirPlain) by (cbn; by destruct (completed_dir d)).
  destruct r as [[]|er].
  - specialize (Hw eq_refl). split; [|by right]. destruct Hw as [E _]. by rewrite E.
  - assert (Hd' : d' = d \/ d' = make_dir d).
    { unfold write_archive in H. rewrite Hmk in H. destruct io, (entry_to_vec e); try (injection H; auto; fail).
      all: destruct (archives (make_dir d) !! k); injection H; auto; done. }
    destruct Hd' as [->| ->]; [auto|]. split; [by rewrite Hmk|by left].
Qed.

Lemma write_archive_ok d k e :
  entry_ok k e = true -> completed_dir d <> DirOther -> archives d !! k = None ->
  exists d', write_archive d k e ArchiveOk = (Ok tt, d').
Proof.
  intros Hok Hd Ha. destruct (entry_roundtrip Hcodec k e Hok) as (b & E & _).
  unfold write_archive. rewrite E. cbn. rewrite Ha. destruct (completed_dir d); [eauto..|done].
Qed.

Lemma archive_keeps_archivable o k e j rio aio cio r o' :
  archivable o k e -> archive_completed o k j rio aio cio = (r, o') -> archivable o' k e.
Proof.
  intros (Hi & Hok & Hc & Hst) H.
  assert (Hdone : done_with o k e) by (split; [done|]; destruct Hst as [(? & _)|[? ?]]; auto).
  pose proof (archive_effect _ _ _ _ _ _ _ _ Hi H) as (He & Hi' & _).
  pose proof (effect_done _ _ _ _ Hi He Hdone) as [_ Hd'].
  split; [done|]. split; [done|]. split; [done|].
  destruct Hd' as [Hg'|[Hg' Ha']]; [left|by right]. split; [done|].
  destruct Hst as [(Hg & Hdir & Har)|[Hg Har]].
  2: { exfalso. pose proof (effect_lifecycle _ _ k Hi He) as Hlc. rewrite Hg, Hg' in Hlc.
       destruct Hlc as [_ Hp]. by rewrite Hp in Hc. }
  assert (Hbase : completed_dir (disk o) <> DirOther /\
                  (archives (disk o) !! k = None \/ archived_as (disk o) k e)) by done.
  unfold archive_completed in H. rewrite Hg in H.
  destruct (negb (valid_key k) || negb (uuid j)); [by injection H as <- <-|].
  destruct (archived o k rio) as [arch|] eqn:Hrd; [|by injection H as <- <-].
  destruct (negb (completed_as _ _)); [by injection H as <- <-|].
  destruct (some_and arch _); [by injection H as <- <-|].
  destruct (if is_none arch then write_archive (disk o) k e aio else (Ok tt, disk o)) as [r1 d1] eqn:Hw.
  assert (Hd1 : completed_dir d1 <> DirOther /\ (archives d1 !! k = None \/ archived_as d1 k e)).
  { destruct arch as [a|]; [by injection Hw as <- <-|]. apply archived_spec in Hrd.
    destruct Har as [Har|Har]; [|by apply Hrd in Har].
    exact (write_archive_sane _ _ _ _ _ _ Hok Hc Hdir Har Hw). }
  destruct r1 as [[]|]; [|by injection H as <- <-].
  cbn [ledger set_ledger] in H. unfold contains_key in H. rewrite Hg in H.
  destruct aio; try (by injection H as <- <-);
    (destruct (commit _ _ cio) as [r2 o2] eqn:Hcm; apply commit_cases in Hcm as [[-> ->]|[-> (b & _ & ->)]];
     injection H as <- <-; cbn [disk set_ledger]; [done|];
     cbn in Hg'; rewrite get_remove in Hg' by apply (ok_sorted _ _ (inv_ledger _ Hi));
     by rewrite String.eqb_refl in Hg').
Qed.

Lemma archive_retry_ok o k e j :
  archivable o k e -> valid_key k = true -> uuid j = true -> completed_as (state e) j = true ->
  exists o', archive_completed o k j read_ok ArchiveOk CommitOk = (Ok e, o').
Proof.
  intros (Hi & Hok & Hc & Hst) Hk Hu Hj. unfold archive_completed. rewrite Hk, Hu. cbn [negb orb].
  assert (Hcommit : forall d l, sorted (entries l) ->
            exists o2, commit (set_ledger o (ledger o) d) l CommitOk = (Ok tt, o2)).
  { intros d l Hl. pose proof (commit_succeeds (set_ledger o (ledger o) d) l Hl) as E.
    destruct (commit _ _ _) as [r2 o2]. cbn in E. subst. eauto. }
  pose proof (ok_sorted _ _ (inv_ledger _ Hi)) as Hs.
  destruct Hst as [(Hg & Hdir & [Har|Har])|[Hg Har]].
  - rewrite (archived_read_none o k) by done. rewrite Hg, Hj. cbn [some_and is_none negb].
    destruct (write_archive_ok (disk o) k e Hok Hdir Har) as (d' & ->).
    cbn [ledger set_ledger]. unfold contains_key. rewrite Hg.
    destruct (Hcommit d' (without (ledger o) k)) as (o3 & E3); [by apply remove_sorted|].
    unfold without in E3. rewrite E3. eauto.
  - rewrite (archived_read o k e) by done. rewrite Hg, Hj. cbn [some_and is_none negb].
    rewrite bool_decide_true by done. cbn [ledger set_ledger]. unfold contains_key. rewrite Hg.
    destruct (Hcommit (disk o) (without (ledger o) k)) as (o3 & E3); [by apply remove_sorted|].
    unfold without in E3. cbn [negb]. rewrite E3. eauto.
  - rewrite (archived_read o k e) by done. rewrite Hg, Hj. cbn [some_and is_none negb].
    rewrite bool_decide_true by done. cbn [ledger set_ledger]. unfold contains_key. rewrite Hg.
    cbn [negb]. eauto.
Qed.

Lemma effect_grow o o' : effect o o' -> archives_grow (disk o) (disk o').
Proof. intros []; auto using same_archive_grow. Qed.

(** * Theorems *)

(** C2: After opening the outbox and any sequence of operations, with any outcome of each
    file operation, the ledger satisfies its invariant and reopening the directory with
    working file operations yields exactly the ledger in memory and the same archive. *)
Theorem outbox_survives_restart d cap b1 b2 b3 io o d0 ops :
  open d cap b1 b2 b3 io = (Ok o, d0) ->
  let o' := run ops o in
  inv o' /\
  exists d', open (disk o') (capacity o') true true true CommitOk
             = (Ok (set_ledger o' (ledger o') d'), d') /\ same_archive (disk o') d'.
Proof.
  intros H%open_inv. pose proof (run_inv ops o H) as Hi. split; [done|].
  destruct (open_reopen _ Hi) as (d' & E & Hs & _). eauto.
Qed.

(** An operation that returns an error leaves the ledger in memory and the outbox file
    unchanged, and never removes or alters an archived entry. *)
Lemma failed_operation_keeps_ledger op o e o' :
  inv o -> exec op o = (Err e, o') ->
  ledger o' = ledger o /\ outbox_json (disk o') = outbox_json (disk o) /\
  archives_grow (disk o) (disk o').
Proof.
  intros Hi H. destruct (exec_effect _ _ _ _ Hi H) as (He & _ & Herr).
  destruct (Herr e eq_refl). auto using effect_grow.
Qed.

(** C11: Once an entry is completed, it stays completed or archived under every later
    sequence of operations, never appears in a batch again, and observing the same
    identity again never changes the ledger. *)
Theorem completion_never_resubmitted o k e ops :
  inv o -> done_with o k e ->
  let o' := run ops o in
  done_with o' k e /\
  (forall n io batch o'' e', next_batch o' n io = (Ok batch, o'') -> In (k, e') batch -> False) /\
  (forall i rio cio r o'', key i = Ok k -> observe o' i rio cio = (r, o'') -> ledger o'' = ledger o').
Proof.
  intros Hi Hd o'. pose proof (run_inv ops o Hi) as Hi'. pose proof (run_done ops o k e Hi Hd) as Hd'.
  fold o' in Hi', Hd'. split; [done|]. destruct Hd' as [Hc Hst].
  split.
  - intros n io batch o'' e' Hb Hin. destruct (next_batch_elem _ _ _ _ _ _ _ Hb Hin) as [Hin' Ht].
    apply get_In in Hin'; [|apply (ok_sorted _ _ (inv_ledger _ Hi'))].
    destruct Hst as [Hst|[Hst _]]; rewrite Hst in Hin'; [injection Hin' as <-|done].
    by destruct (state e).
  - intros i rio cio r o'' Hk. unfold observe. rewrite Hk. unfold contains_key.
    destruct Hst as [->|[-> Ha]]; [by intros [= _ <-]|].
    destruct (archived o' k rio) as [[e0|]|] eqn:Har; [by intros [= _ <-]| |by intros [= _ <-]].
    by apply archived_spec, (fun f => f e) in Har.
Qed.

(** Every operation moves each entry only along pending, sending, submitted, completed
    or failed; a new entry is pending under its own key, identities never change, and an
    entry leaves the ledger only when it is completed and its archive is on disk. *)
Lemma entry_lifecycle op o r o' k :
  inv o -> exec op o = (r, o') ->
  match get k (entries (ledger o)), get k (entries (ledger o')) with
  | Some e, Some e' => identity e' = identity e /\ trans (state e) (state e')
  | None, Some e' => key (identity e') = Ok k /\ state e' = Pending
  | Some e, None => is_completed (state e) = true /\ archived_as (disk o') k e
  | None, None => True
  end.
Proof.
  intros Hi H. destruct (exec_effect _ _ _ _ Hi H) as (He & _ & _).
  pose proof (effect_lifecycle o o' k Hi He) as Hl.
  destruct (get k (entries (ledger o))), (get k (entries (ledger o'))); try done.
  split; [apply Hl|done].
Qed.

(** With n non-terminal entries and a batch limit, ceil(n / limit) consecutive calls of
    next_batch return every one of them, from any cursor. *)
Lemma next_batch_fair o limit calls k e :
  inv o -> in_range 1 256 limit = true ->
  get k (entries (ledger o)) = Some e -> terminal (state e) = false ->
  size (live (ledger o)) <= Z.of_nat calls * limit ->
  In (k, e) (concat (batches calls limit o)).
Proof.
  intros Hi Hr Hk Ht Hn. pose proof (ok_sorted _ _ (inv_ledger _ Hi)) as Hs.
  apply get_In in Hk; [|done]. pose proof (in_rotated _ _ _ Hs Hk Ht) as Hin.
  apply list_elem_of_In, list_elem_of_lookup in Hin as [i Hx].
  apply (batches_cover calls limit o i); [done..|].
  assert (Hlen : length (rotated (ledger o)) = length (live (ledger o))).
  { rewrite rotated_eq. destruct (reconciliation_cursor _) as [c|]; [|done].
    destruct (split_at c (live (ledger o))) as (a & b & -> & -> & ->); [by apply filter_sorted|].
    rewrite !length_app. lia. }
  apply lookup_lt_Some in Hx. rewrite Hlen in Hx. unfold size in Hn.
  apply in_range_spec in Hr. nia.
Qed.

(** Whatever file operations failed in an earlier archive_completed, calling it again
    with working file operations returns the entry, archives it and removes it from the
    ledger. *)
Lemma archive_retry_completes o k e j rio aio cio r o1 :
  archivable o k e -> valid_key k = true -> uuid j = true -> completed_as (state e) j = true ->
  archive_completed o k j rio aio cio = (r, o1) ->
  exists o2, archive_completed o1 k j read_ok ArchiveOk CommitOk = (Ok e, o2) /\
             archived_as (disk o2) k e /\ get k (entries (ledger o2)) = None.
Proof.
  intros Ha Hk Hu Hj H. pose proof (archive_keeps_archivable _ _ _ _ _ _ _ _ _ Ha H) as Ha1.
  destruct (archive_retry_ok o1 k e j Ha1 Hk Hu Hj) as (o2 & E). exists o2. split; [done|].
  destruct (archive_effect _ _ _ _ _ _ _ _ (proj1 Ha1) E) as (_ & _ & _ & Hok).
  destruct (Hok e eq_refl) as (_ & ? & ?). done.
Qed.

End correctness.
End outbox.

(** * A concrete instance

    The codec is instantiated by an injective numbering of ledgers and entries,
    the digest by a constant and the UUID parser by the identity, so that the
    theorems can be evaluated. *)

#[export] Instance Region_countable : Countable Region.
Proof.
  apply (inj_countable' (fun r => match r with Jp => 0 | Hk => 1 | En => 2 | Kr => 3 | Cn => 4 end)%Z
          (fun n => match n with 0 => Jp | 1 => Hk | 2 => En | 3 => Kr | _ => Cn end)%Z).
  by intros [].
Defined.
#[export] Instance Operation_countable : Countable Operation.
Proof.
  apply (inj_countable' (fun r => match r with Update => 0 | Export_op => 1 | Verify => 2 end)%Z
          (fun n => match n with 0 => Update | 1 => Export_op | _ => Verify end)%Z).
  by intros [].
Defined.
#[export] Instance Request_countable : Countable Request.
Proof.
  apply (inj_countable' (fun r => (req_region r, req_profile r, req_operation r))
          (fun '(a, b, c) => {| req_region := a; req_profile := b; req_operation := c |})).
  by intros [].
Defined.
#[export] Instance Identity_countable : Countable Identity.
Proof.
  apply (inj_countable'
    (fun i => (destination_sha256 i, id_request i, profile_revision i, environment i, platform i,
               resource_version i, platform_hash i, require_full_catalog i, require_full_export i,
               require_publication i))
    (fun '(a, b, c, d, e, f, g, h, i, j) => Build_Identity a b c d e f g h i j)).
  by intros [].
Defined.
#[export] Instance State_countable : Countable State.
Proof.
  apply (inj_countable'
    (fun s => match s with
              | Pending => inl (inl None)
              | Sending t => inl (inl (Some t))
              | Submitted j => inl (inr j)
              | Completed j c p => inr (inl (j, c, p))
              | Failed j c => inr (inr (j, c))
              end)
    (fun x => match x with
              | inl (inl None) => Pending
              | inl (inl (Some t)) => Sending t
              | inl (inr j) => Submitted j
              | inr (inl (j, c, p)) => Completed j c p
              | inr (inr (j, c)) => Failed j c
              end)).
  by intros [].
Defined.
#[export] Instance Entry_countable : Countable Entry.
Proof.
  apply (inj_countable' (fun e => (identity e, state e)) (fun '(i, s) => Build_Entry i s)).
  by intros [].
Defined.
#[export] Instance Ledger_eq_dec : EqDecision Ledger.
Proof. solve_decision. Defined.
#[export] Instance Ledger_countable : Countable Ledger.
Proof.
  apply (inj_countable' (fun l => (schema_version l, reconciliation_cursor l, entries l))
          (fun '(a, b, c) => Build_Ledger a b c)).
  by intros [].
Defined.

Module Demo.

Fixpoint sortedb (m : bmap Entry) : bool :=
  match m with
  | [] => true
  | (k, _) :: m => forallb (fun kv => sltb k (fst kv)) m && sortedb m
  end.

Definition ledger_to_vec (l : Ledger) : option (list Z) := Some [Zpos (encode l)].
Definition ledger_from_slice (b : list Z) : option Ledger :=
  match b with
  | [Zpos p] => match decode p with
                | Some l => if sortedb (entries l) then Some l else None
                | None => None
                end
  | _ => None
  end.
Definition entry_to_vec (e : Entry) : option (list Z) := Some [Zpos (encode e)].
Definition entry_from_slice (b : list Z) : option Entry :=
  match b with [Zpos p] => decode p | _ => None end.
Definition identity_to_vec (_ : Identity) : option (list Z) := Some [].
Definition zeros64 : string :=
  "0000000000000000000000000000000000000000000000000000000000000000".
Definition sha256_hex (_ : list Z) : string := zeros64.
Definition uuid_parse (s : string) : option string := Some s.

Lemma sortedb_spec m : sortedb m = true <-> sorted m.
Proof.
  induction m as [|[k e] m IH]; [split; [intros _; apply sorted_nil|done]|]. cbn.
  rewrite andb_true_iff, IH, sorted_cons, forallb_forall, List.Forall_forall.
  split; intros [H1 H2]; (split; [|done]).
  - intros x (y & <- & Hy)%in_map_iff. by apply sltb_spec, H1.
  - intros y Hy. apply sltb_spec, H1. by apply in_map.
Qed.

Lemma demo_codec_for up :
  codec ledger_to_vec ledger_from_slice entry_to_vec entry_from_slice identity_to_vec sha256_hex up.
Proof.
  constructor.
  - intros l Hl. eexists. split; [reflexivity|]. unfold ledger_from_slice.
    rewrite decode_encode. by rewrite (proj2 (sortedb_spec _) Hl).
  - intros b l. unfold ledger_from_slice. destruct b as [|[] []]; try done.
    destruct (decode p) as [l'|]; [|done]. destruct (sortedb (entries l')) eqn:E; [|done].
    intros [= <-]. by apply sortedb_spec.
  - intros k e _. eexists. split; [reflexivity|]. split; [apply decode_encode|]. done.
Qed.

Definition demo_codec := demo_codec_for uuid_parse.

Definition demo_key : string := "sirius-" ++ zeros64.
Definition demo_identity : Identity :=
  {| destination_sha256 := zeros64;
     id_request := {| req_region := Jp; req_profile := "main"; req_operation := Update |};
     profile_revision := "1"; environment := "production"; platform := "iOS";
     resource_version := "10"; platform_hash := "abc";
     require_full_catalog := true; require_full_export := false; require_publication := false |}.
Definition demo_entry (s : State) : Entry := {| identity := demo_identity; state := s |}.
Definition demo_ledger (s : State) : Ledger :=
  {| schema_version := 1; reconciliation_cursor := None; entries := [(demo_key, demo_entry s)] |}.
Definition demo_outbox (s : State) : Outbox :=
  {| ledger := demo_ledger s; capacity := 8;
     disk := {| outbox_json := Some [Zpos (encode (demo_ledger s))];
                completed_dir := DirMissing; archives := ∅ |} |}.
Definition demo_done : State := Completed "j" zeros64 None.

Lemma demo_inv_for up s :
  valid_state up s = true ->
  inv ledger_from_slice identity_to_vec sha256_hex up (demo_outbox s).
Proof.
  intros Hs. assert (Hsort : sorted (entries (demo_ledger s))).
  { apply sortedb_spec. reflexivity. }
  constructor; [reflexivity| |].
  - constructor; [done|done|by vm_compute|done|]. intros k e. cbn [ledger demo_outbox entries demo_ledger get].
    destruct (String.eqb_spec k demo_key) as [->|]; [|done]. intros [= <-].
    unfold entry_ok. cbn [state demo_entry]. rewrite Hs. reflexivity.
  - eexists. split; [reflexivity|]. unfold ledger_from_slice. rewrite decode_encode.
    by rewrite (proj2 (sortedb_spec _) Hsort).
Qed.

Definition demo_inv_ok := demo_inv_for uuid_parse.

Lemma outbox_survives_restart_witness :
  exists o d0, open ledger_to_vec ledger_from_slice identity_to_vec sha256_hex uuid_parse
      {| outbox_json := None; completed_dir := DirMissing; archives := ∅ |} 8 true true true CommitOk
    = (Ok o, d0) /\
  exists d', open ledger_to_vec ledger_from_slice identity_to_vec sha256_hex uuid_parse
      (disk o) 8 true true true CommitOk = (Ok (set_ledger o (ledger o) d'), d').
Proof.
  eexists _, _. split; [reflexivity|].
  destruct (outbox_survives_restart _ _ _ _ _ _ _ demo_codec
              {| outbox_json := None; completed_dir := DirMissing; archives := ∅ |} 8 true true true
              CommitOk _ _ [] eq_refl) as (_ & d' & E & _).
  exists d'. exact E.
Defined.

Lemma failed_operation_keeps_ledger_witness :
  ledger (snd (exec ledger_to_vec entry_to_vec entry_from_slice identity_to_vec sha256_hex uuid_parse
                 (OBeginSend demo_key 5 CommitSync) (demo_outbox Pending)))
  = demo_ledger Pending.
Proof.
  exact (proj1 (failed_operation_keeps_ledger _ _ _ _ _ _ _ demo_codec
           (OBeginSend demo_key 5 CommitSync) (demo_outbox Pending) Storage _
           (demo_inv_ok Pending eq_refl) eq_refl)).
Defined.

Lemma completion_never_resubmitted_witness :
  done_with entry_from_slice identity_to_vec sha256_hex uuid_parse
    (run ledger_to_vec entry_to_vec entry_from_slice identity_to_vec sha256_hex uuid_parse
       [OArchive demo_key "j" read_ok ArchiveOk CommitOk; OObserve demo_identity read_ok CommitOk]
       (demo_outbox demo_done)) demo_key (demo_entry demo_done).
Proof.
  apply (completion_never_resubmitted _ _ _ _ _ _ _ demo_codec (demo_outbox demo_done) demo_key
           (demo_entry demo_done)).
  - apply demo_inv_ok. reflexivity.
  - split; [reflexivity|]. left. reflexivity.
Defined.

Lemma entry_lifecycle_witness :
  identity (demo_entry (Sending 5)) = demo_identity /\ trans Pending (Sending 5).
Proof.
  exact (entry_lifecycle _ _ _ _ _ _ _ demo_codec (OBeginSend demo_key 5 CommitOk)
           (demo_outbox Pending) _ _ demo_key (demo_inv_ok Pending eq_refl) eq_refl).
Defined.

Lemma next_batch_fair_witness :
  In (demo_key, demo_entry (Submitted "j"))
    (concat (batches ledger_to_vec 1 16 (demo_outbox (Submitted "j")))).
Proof.
  apply (next_batch_fair _ _ _ _ _ _ _ demo_codec).
  - apply demo_inv_ok. reflexivity.
  - reflexivity.
  - reflexivity.
  - reflexivity.
  - discriminate.
Defined.

Lemma archive_retry_completes_witness :
  exists o2, archive_completed ledger_to_vec entry_to_vec entry_from_slice identity_to_vec sha256_hex
    uuid_parse (snd (archive_completed ledger_to_vec entry_to_vec entry_from_slice identity_to_vec
      sha256_hex uuid_parse (demo_outbox demo_done) demo_key "j" read_ok ArchiveSync CommitOk))
    demo_key "j" read_ok ArchiveOk CommitOk = (Ok (demo_entry demo_done), o2).
Proof.
  edestruct (archive_retry_completes _ _ _ _ _ _ _ demo_codec (demo_outbox demo_done) demo_key
              (demo_entry demo_done) "j" read_ok ArchiveSync CommitOk) as (o2 & E & _).
  - split; [apply demo_inv_ok; reflexivity|]. split; [reflexivity|]. split; [reflexivity|].
    left. split; [reflexivity|]. split; [discriminate|]. left. apply lookup_empty.
  - reflexivity.
  - reflexivity.
  - reflexivity.
  - reflexivity.
  - exists o2. exact E.
Defined.

End Demo.
