(* ===== verification/AssetDispatch.v ===== *)
(** Reconciliation of the outbox with the asset updater ([asset_dispatch.rs])
    and its administrative commands ([asset_dispatch_admin.rs]).

    One pass takes a batch from the outbox and works through it; what the
    network answered, the clock and the outcome of every commit are arguments.
    The pass records each POST it sends together with the outbox at that
    moment. *)
From Stdlib Require Import ZArith Lia Ascii String List Bool.
From stdpp Require Import base list strings decidable gmap relations.
From S2P Require Import Prelude BTree Errors Regions Http AssetJobs Outbox.

Local Open Scope Z_scope.

(** ** Configuration *)
Record Target : Type := {
  origin : string;
  token_env : string;
  user_agent : option string;
  allow_http : bool;
  profile : string;
  t_profile_revision : string;
  t_require_full_catalog : bool;
  t_require_full_export : bool;
  t_require_publication : bool;
}.

Record Config : Type := {
  state_directory : string;
  interval_seconds : Z;
  request_timeout_ms : Z;
  history_capacity : Z;
  targets : list Target;
}.

(** The fields of a resource snapshot that identify a dispatch. *)
Record Snapshot : Type := {
  s_region : Region;
  s_environment : string;
  s_platform : string;
  s_resource_version : string;
  s_platform_hash : string;
}.

Definition FAILURE_CODES : list string :=
  ["target_removed"; "submission_ambiguous"; "job_identity_mismatch"; "job_failed";
   "job_cancelled"; "outcome_mismatch"; "job_pruned"; "submission_refused";
   "submission_rejected"; "submission_unauthorized"; "idempotency_conflict";
   "asset_dispatch_request_invalid"; "invalid_job_response"]%string.

Definition MAX_REFUSALS : Z := 10.

Definition rejected_submission (status : Z) : option string :=
  if existsb (Z.eqb status) [400; 404; 405; 413; 415; 422] then Some "submission_rejected"%string
  else if existsb (Z.eqb status) [401; 403] then Some "submission_unauthorized"%string
  else if status =? 409 then Some "idempotency_conflict"%string
  else None.

Definition matches_outcome (i : Identity) (o : Outcome) : bool :=
  let v := verification o in
  bool_decide (v_region v = req_region (id_request i))
  && String.eqb (v_environment v) (environment i)
  && String.eqb (v_platform v) (platform i)
  && String.eqb (v_resource_version v) (resource_version i)
  && String.eqb (v_platform_hash v) (platform_hash i)
  && catalog_verified v
  && (negb (require_full_catalog i) || full_catalog v)
  && (negb (require_full_export i)
      || some_and (export o) (fun e => full_export e && (retained e || is_some (out_publication_id o))))
  && (negb (require_publication i) || is_some (out_publication_id o)).

Record Remote : Type := { r_config : Target; r_digest : string }.

(** ** The worker *)

(** A POST of key [post_key], with the outbox as it was when it was sent. *)
Record Post : Type := { post_key : string; post_outbox : Outbox }.

Record Worker : Type := {
  w_region : Region;
  w_environment : string;
  w_platform : string;
  outbox : Outbox;
  remotes : list Remote;
  refusals : gmap string Z;
  transport_errors : Z;
  posts : list Post;
}.

Definition set_outbox (w : Worker) (o : Outbox) : Worker :=
  {| w_region := w_region w; w_environment := w_environment w; w_platform := w_platform w;
     outbox := o; remotes := remotes w; refusals := refusals w;
     transport_errors := transport_errors w; posts := posts w |}.
Definition set_refusals (w : Worker) (m : gmap string Z) : Worker :=
  {| w_region := w_region w; w_environment := w_environment w; w_platform := w_platform w;
     outbox := outbox w; remotes := remotes w; refusals := m;
     transport_errors := transport_errors w; posts := posts w |}.
Definition set_transport_errors (w : Worker) (n : Z) : Worker :=
  {| w_region := w_region w; w_environment := w_environment w; w_platform := w_platform w;
     outbox := outbox w; remotes := remotes w; refusals := refusals w;
     transport_errors := n; posts := posts w |}.
Definition add_post (w : Worker) (k : string) : Worker :=
  {| w_region := w_region w; w_environment := w_environment w; w_platform := w_platform w;
     outbox := outbox w; remotes := remotes w; refusals := refusals w;
     transport_errors := transport_errors w;
     posts := {| post_key := k; post_outbox := outbox w |} :: posts w |}.

(** What the environment does while one entry is processed. *)
Record Env : Type := {
  now : Z;
  exchange : option http_response;
  io_send : CommitIo;
  io_ack : CommitIo;
  io_final : CommitIo;
}.

Section config.
Context (url_parse : string -> option Url)
        (url_str : Url -> string)
        (ledger_to_vec : Ledger -> option (list Z))
        (entry_from_slice : list Z -> option Entry)
        (identity_to_vec : Identity -> option (list Z))
        (sha256_hex : list Z -> string)
        (uuid_parse : string -> option string).

Definition destination (origin : string) : result AppError string :=
  match url_parse origin with
  | None => Err (Errors.Config "invalid asset dispatch origin")
  | Some u => Ok (sha256_hex (bytes_of (url_str u)))
  end.

Definition dispatch_identity (t : Target) (s : Snapshot) : result AppError Identity :=
  rbind (destination (origin t)) (fun d =>
  Ok {| destination_sha256 := d;
        id_request := {| req_region := s_region s; req_profile := profile t; req_operation := Update |};
        profile_revision := t_profile_revision t;
        environment := s_environment s;
        platform := s_platform s;
        resource_version := s_resource_version s;
        platform_hash := s_platform_hash s;
        require_full_catalog := t_require_full_catalog t;
        require_full_export := t_require_full_export t;
        require_publication := t_require_publication t |}).

Definition validation_snapshot : Snapshot :=
  {| s_region := Jp; s_environment := "validation"; s_platform := "iOS";
     s_resource_version := "1"; s_platform_hash := "hash" |}.

(** One target of [Config::validate]; [seen] are the destinations and profiles
    already taken. *)
Definition validate_target (timeout : Z) (seen : list (string * string)) (t : Target)
  : result AppError (list (string * string)) :=
  let bad := Errors.Config "invalid or duplicate asset dispatch target" in
  if is_empty (token_env t) || (256 <? len (token_env t))
     || negb (all_bytes (fun b => is_ascii_alphanumeric b || char_is 95 b) (token_env t))
  then Err bad
  else
    rbind (destination (origin t)) (fun d =>
    if bool_decide ((d, profile t) ∈ seen) then Err bad
    else match new_client url_parse (origin t) "configuration-validation" (allow_http t) timeout with
         | Err _ => Err (Errors.Config "invalid asset dispatch transport")
         | Ok _ =>
             match with_user_agent (user_agent t) with
             | Err _ => Err (Errors.Config "invalid asset dispatch transport")
             | Ok _ =>
                 rbind (dispatch_identity t validation_snapshot) (fun i =>
                 match key identity_to_vec sha256_hex i with
                 | Err _ => Err (Errors.Config "invalid asset dispatch profile")
                 | Ok _ => Ok ((d, profile t) :: seen)
                 end)
             end
         end).

Fixpoint validate_targets (timeout : Z) (seen : list (string * string)) (ts : list Target)
  : result AppError unit :=
  match ts with
  | [] => Ok tt
  | t :: ts => rbind (validate_target timeout seen t) (fun seen => validate_targets timeout seen ts)
  end.

Definition validate (c : Config) : result AppError unit :=
  if is_empty (state_directory c) || negb (in_range 1 16 (llen (targets c)))
     || negb (in_range 10 86400 (interval_seconds c))
     || negb (in_range 100 300000 (request_timeout_ms c))
     || negb (in_range 1 100000 (history_capacity c))
  then Err (Errors.Config "invalid asset dispatch bounds")
  else validate_targets (request_timeout_ms c) [] (targets c).

(** [Worker::observe]: every remote's identity of the snapshot is recorded. *)
Fixpoint observe_all (o : Outbox) (rs : list Remote) (s : Snapshot) (ios : list (ReadIo * CommitIo))
  : result Error unit * Outbox :=
  match rs, ios with
  | r :: rs, io :: ios =>
      match dispatch_identity (r_config r) s with
      | Err _ => (Err Invalid, o)
      | Ok i => match observe ledger_to_vec entry_from_slice identity_to_vec sha256_hex uuid_parse
                        o i (fst io) (snd io) with
                | (Ok _, o) => observe_all o rs s ios
                | (Err e, o) => (Err e, o)
                end
      end
  | _, _ => (Ok tt, o)
  end.

Definition worker_observe (w : Worker) (s : Snapshot) (ios : list (ReadIo * CommitIo))
  : result Error unit * Worker :=
  if negb (bool_decide (s_region s = w_region w)) || negb (String.eqb (s_environment s) (w_environment w))
     || negb (String.eqb (s_platform s) (w_platform w))
  then (Err Invalid, w)
  else let '(r, o) := observe_all (outbox w) (remotes w) s ios in (r, set_outbox w o).

End config.

Section dispatch.
Context (job_from_slice : list Z -> option Job)
        (ledger_to_vec : Ledger -> option (list Z))
        (ledger_from_slice : list Z -> option Ledger)
        (entry_to_vec : Entry -> option (list Z))
        (entry_from_slice : list Z -> option Entry)
        (identity_to_vec : Identity -> option (list Z))
        (sha256_hex : list Z -> string)
        (uuid_parse : string -> option string).

(** [Worker::fail]. *)
Definition worker_fail (w : Worker) (k code : string) (io : CommitIo) : result Error unit * Worker :=
  match fail ledger_to_vec (outbox w) k code io with
  | (Err e, o) => (Err e, set_outbox w o)
  | (Ok _, o) => (Ok tt, set_refusals (set_outbox w o) (delete k (refusals w)))
  end.

Definition transport_warning (w : Worker) : Worker := set_transport_errors w (transport_errors w + 1).

Definition find_remote (w : Worker) (e : Entry) : option Remote :=
  List.find (fun r => String.eqb (r_digest r) (destination_sha256 (identity e))
                      && String.eqb (profile (r_config r)) (req_profile (id_request (identity e))))
            (remotes w).

(** A job whose idempotency digest has been checked; [pending] is whether it
    answers the POST. *)
Definition settle (w : Worker) (k : string) (e : Entry) (pending : bool) (job : Job) (env : Env)
  : result Error unit * Worker :=
  let '(r, w) :=
    if pending then
      match acknowledge ledger_to_vec uuid_parse (outbox w) k (id job) (io_ack env) with
      | (Err er, o) => (Err er, set_outbox w o)
      | (Ok _, o) => (Ok tt, set_refusals (set_outbox w o) (delete k (refusals w)))
      end
    else (Ok tt, w) in
  match r with
  | Err er => (Err er, w)
  | Ok _ =>
      match job_status job with
      | JFailed => worker_fail w k "job_failed" (io_final env)
      | Cancelled => worker_fail w k "job_cancelled" (io_final env)
      | JCompleted =>
          match outcome job with
          | Some out =>
              if matches_outcome (identity e) out then
                let '(r, o) := complete ledger_to_vec uuid_parse (outbox w) k (id job)
                                 (v_catalog_sha256 (verification out)) (out_publication_id out)
                                 (io_final env) in
                (r, set_outbox w o)
              else worker_fail w k "outcome_mismatch" (io_final env)
          | None => worker_fail w k "outcome_mismatch" (io_final env)
          end
      | _ => (Ok tt, w)
      end
  end.

(** A busy answer to the POST. *)
Definition busy (w : Worker) (k : string) (env : Env) : result Error unit * Worker :=
  let n := default 0 (refusals w !! k) + 1 in
  let w := set_refusals w (<[k := n]> (refusals w)) in
  if MAX_REFUSALS <=? n then
    worker_fail (set_refusals w (delete k (refusals w))) k "submission_refused" (io_final env)
  else
    let '(r, o) := refused ledger_to_vec (outbox w) k (io_final env) in (r, set_outbox w o).

Definition handle_result (w : Worker) (k : string) (e : Entry) (pending : bool)
  (res : result AssetJobs.Error Job) (env : Env) : result Error unit * Worker :=
  let submitted := match state e with Submitted _ => true | _ => false end in
  match res with
  | Ok job =>
      if bool_decide (idempotency_sha256 job = Some (sha256_hex (bytes_of k)))
      then settle w k e pending job env
      else worker_fail w k "job_identity_mismatch" (io_final env)
  | Err (EStatus st) =>
      if (st =? 404) && submitted then worker_fail w k "job_pruned" (io_final env)
      else if ((st =? 429) || (st =? 503)) && pending then busy w k env
      else if pending then
        match rejected_submission st with
        | Some code => worker_fail (set_refusals w (delete k (refusals w))) k code (io_final env)
        | None => (Ok tt, transport_warning w)
        end
      else (Ok tt, transport_warning w)
  | Err EConfig =>
      if pending then worker_fail w k "asset_dispatch_request_invalid" (io_final env)
      else (Ok tt, transport_warning w)
  | Err EProtocol => worker_fail w k "invalid_job_response" (io_final env)
  | Err ETransport => (Ok tt, transport_warning w)
  end.

(** One iteration of the loop of [reconcile_batch]. *)
Definition reconcile_entry (w : Worker) (k : string) (e : Entry) (env : Env)
  : result Error unit * Worker :=
  match find_remote w e with
  | None => worker_fail w k "target_removed" (io_final env)
  | Some _ =>
      match state e with
      | Pending =>
          match begin_send ledger_to_vec (outbox w) k (now env) (io_send env) with
          | (Err er, o) => (Err er, set_outbox w o)
          | (Ok _, o) =>
              let w := add_post (set_outbox w o) k in
              handle_result w k e true
                (submit job_from_slice sha256_hex uuid_parse (exchange env) (id_request (identity e)) k) env
          end
      | Sending _ => worker_fail w k "submission_ambiguous" (io_final env)
      | Submitted j =>
          handle_result w k e false
            (get_job job_from_slice uuid_parse (exchange env) j (id_request (identity e))) env
      | _ => (Ok tt, w)
      end
  end.

Fixpoint reconcile_entries (w : Worker) (batch : list (string * Entry)) (envs : list Env)
  : result Error unit * Worker :=
  match batch, envs with
  | (k, e) :: batch, env :: envs =>
      match reconcile_entry w k e env with
      | (Ok _, w) => reconcile_entries w batch envs
      | (Err er, w) => (Err er, w)
      end
  | _, _ => (Ok tt, w)
  end.

(** [reconcile]: the counter of transport failures is reset for the pass.
    [envs] gives the environment of each entry; a pass that is cancelled
    between two entries is one whose list ends early. *)
Definition reconcile (w : Worker) (batch_io : CommitIo) (envs : list Env) : result Error unit * Worker :=
  let w := set_transport_errors w 0 in
  match next_batch ledger_to_vec (outbox w) 16 batch_io with
  | (Err e, o) => (Err e, set_outbox w o)
  | (Ok batch, o) => reconcile_entries (set_outbox w o) batch envs
  end.

(** * What one entry goes through *)

Notation out_codec :=
  (codec ledger_to_vec ledger_from_slice entry_to_vec entry_from_slice identity_to_vec sha256_hex uuid_parse).
Notation out_inv := (inv ledger_from_slice identity_to_vec sha256_hex uuid_parse).

Definition at_state (o : Outbox) (k : string) (i : Identity) (s : State) : Prop :=
  get k (entries (ledger o)) = Some {| identity := i; state := s |}.
Definition frame (k : string) (o o' : Outbox) : Prop :=
  forall k', k' <> k -> get k' (entries (ledger o')) = get k' (entries (ledger o)).

(** A POST is sent only when the ledger, and with the invariant the file, holds
    its entry as being sent. *)
Definition good_post (p : Post) : Prop :=
  out_inv (post_outbox p) /\ exists i t, at_state (post_outbox p) (post_key p) i (Sending t).

Definition definite_refusal (env : Env) : Prop :=
  exists resp, exchange env = Some resp /\ (http_status resp = 429 \/ http_status resp = 503).

(** A job of the updater that answers key [k] and request [r]. *)
Definition job_of (k : string) (r : Request) (job : Job) : Prop :=
  request job = r /\ idempotency_sha256 job = Some (sha256_hex (bytes_of k)).

Inductive entry_step (k : string) (i : Identity) (env : Env) : State -> State -> Prop :=
| es_same s : entry_step k i env s s
| es_sending t : entry_step k i env Pending (Sending t)
| es_refused : definite_refusal env -> entry_step k i env Pending Pending
| es_failed s j code : In code FAILURE_CODES -> entry_step k i env s (Failed j code)
| es_submitted job : job_of k (id_request i) job -> entry_step k i env Pending (Submitted (id job))
| es_completed s job out :
    job_of k (id_request i) job -> job_status job = JCompleted -> outcome job = Some out ->
    matches_outcome i out = true ->
    (s = Pending \/ s = Submitted (id job)) ->
    entry_step k i env s
      (Completed (id job) (v_catalog_sha256 (verification out)) (out_publication_id out)).

Section correctness.
Context (Hcodec : out_codec).

Lemma frame_refl k o : frame k o o.
Proof. done. Qed.
Lemma frame_trans k o1 o2 o3 : frame k o1 o2 -> frame k o2 o3 -> frame k o1 o3.
Proof. intros H1 H2 k' Hk. by rewrite H2, H1. Qed.

Lemma change_at o k i s f io r o' :
  out_inv o -> at_state o k i s -> change ledger_to_vec o k f io = (r, o') ->
  frame k o o' /\
  ((r = Ok tt /\ exists s', f s = Ok s' /\ at_state o' k i s') \/ (exists er, r = Err er /\ o' = o)).
Proof.
  intros Hi Hk. unfold change. unfold at_state in Hk. rewrite Hk. cbn [state identity].
  destruct (f s) as [s'|er]; [|intros [= <- <-]; split; [apply frame_refl|eauto]].
  pose proof (ok_sorted _ _ _ _ _ (inv_ledger _ _ _ _ _ Hi)) as Hs. intros H.
  apply commit_cases in H as [[-> ->]|[-> (b & _ & ->)]]; [split; [apply frame_refl|eauto]|].
  split.
  - intros k' Hne. cbn. rewrite get_insert by done. by destruct (String.eqb_spec k' k).
  - left. split; [done|]. exists s'. split; [done|]. unfold at_state. cbn.
    rewrite get_insert by done. by rewrite String.eqb_refl.
Qed.

Lemma fail_at o k i s code io r o' :
  out_inv o -> at_state o k i s -> fail ledger_to_vec o k code io = (r, o') ->
  out_inv o' /\ frame k o o' /\
  ((r = Ok tt /\ exists j, at_state o' k i (Failed j code)) \/ (exists er, r = Err er /\ o' = o)).
Proof.
  intros Hi Hk H. pose proof (fail_effect _ _ _ _ _ _ _ Hcodec _ _ _ _ _ _ Hi H) as (_ & Hi' & _).
  split; [done|]. unfold fail in H. destruct (negb (failure_code_ok code)).
  { injection H as <- <-. split; [apply frame_refl|eauto]. }
  destruct (change_at _ _ _ _ _ _ _ _ Hi Hk H) as [Hf [[-> (s' & Hs & Ha)]|He]]; (split; [done|]); [left|by right].
  split; [done|]. destruct s; try done; injection Hs as <-; eauto.
Qed.

Lemma worker_fail_at w k i s code io r w' :
  out_inv (outbox w) -> at_state (outbox w) k i s ->
  worker_fail w k code io = (r, w') ->
  out_inv (outbox w') /\ frame k (outbox w) (outbox w') /\ posts w' = posts w /\
  exists s', at_state (outbox w') k i s' /\ (s' = s \/ exists j, s' = Failed j code).
Proof.
  intros Hi Hk. unfold worker_fail. destruct (fail _ _ _ _ _) as [r1 o1] eqn:H.
  destruct (fail_at _ _ _ _ _ _ _ _ Hi Hk H) as (Hi' & Hf & [[-> (j & Ha)]|(er & -> & ->)]);
    intros [= <- <-]; cbn; repeat (split; [done|]); eauto.
Qed.

(** The states one answer can leave an entry in, from the state [s] it is
    handled in. *)
Inductive answered (k : string) (i : Identity) (env : Env) (pending : bool) (s : State) : State -> Prop :=
| an_same : answered k i env pending s s
| an_refused : pending = true -> definite_refusal env -> answered k i env pending s Pending
| an_failed j code : In code FAILURE_CODES -> answered k i env pending s (Failed j code)
| an_submitted job :
    pending = true -> job_of k (id_request i) job -> answered k i env pending s (Submitted (id job))
| an_completed job out :
    job_of k (id_request i) job -> job_status job = JCompleted -> outcome job = Some out ->
    matches_outcome i out = true -> (pending = true \/ s = Submitted (id job)) ->
    answered k i env pending s
      (Completed (id job) (v_catalog_sha256 (verification out)) (out_publication_id out)).

(** The result of handling one answer. *)
Definition handled (w w' : Worker) (k : string) (i : Identity) (env : Env) (pending : bool) (s : State) : Prop :=
  out_inv (outbox w') /\ frame k (outbox w) (outbox w') /\ posts w' = posts w /\
  exists s', at_state (outbox w') k i s' /\ answered k i env pending s s'.

Lemma handled_fail w w0 k i env pending s code io r w' :
  outbox w0 = outbox w -> posts w0 = posts w ->
  out_inv (outbox w) -> at_state (outbox w) k i s -> In code FAILURE_CODES ->
  worker_fail w0 k code io = (r, w') -> handled w w' k i env pending s.
Proof.
  intros Eo Ep Hi Hk Hc H. rewrite <- Eo in Hi, Hk.
  destruct (worker_fail_at _ _ _ _ _ _ _ _ Hi Hk H) as (Hi' & Hf & Hp & s' & Ha & Hs).
  rewrite Eo in Hf. rewrite Ep in Hp. repeat (split; [done|]). exists s'. split; [done|].
  destruct Hs as [->|[j ->]]; [apply an_same|by apply an_failed].
Qed.

Lemma handled_same w w' k i env pending s :
  outbox w' = outbox w -> posts w' = posts w -> out_inv (outbox w) -> at_state (outbox w) k i s ->
  handled w w' k i env pending s.
Proof.
  intros Eo Ep Hi Hk. unfold handled. rewrite Eo, Ep. repeat (split; [done|]).
  exists s. split; [done|apply an_same].
Qed.

Ltac code_in := unfold FAILURE_CODES; cbn; tauto.

Lemma settle_final w k i env pending s job r w' :
  out_inv (outbox w) -> at_state (outbox w) k i s -> s = Submitted (id job) ->
  job_of k (id_request i) job ->
  (forall e, identity e = i ->
   match job_status job with
   | JFailed => worker_fail w k "job_failed" (io_final env)
   | Cancelled => worker_fail w k "job_cancelled" (io_final env)
   | JCompleted =>
       match outcome job with
       | Some out =>
           if matches_outcome (identity e) out then
             let '(r, o) := complete ledger_to_vec uuid_parse (outbox w) k (id job)
                              (v_catalog_sha256 (verification out)) (out_publication_id out)
                              (io_final env) in
             (r, set_outbox w o)
           else worker_fail w k "outcome_mismatch" (io_final env)
       | None => worker_fail w k "outcome_mismatch" (io_final env)
       end
   | _ => (Ok tt, w)
   end = (r, w') -> handled w w' k i env pending s).
Proof.
  intros Hi Hk Es Hjob e <-.
  assert (Hf : forall code, In code FAILURE_CODES -> worker_fail w k code (io_final env) = (r, w') ->
                handled w w' k (identity e) env pending s).
  { intros code Hc H. by eapply handled_fail. }
  destruct (job_status job) eqn:Hst;
    try (intros [= <- <-]; by apply handled_same); try (apply Hf; code_in).
  destruct (outcome job) as [out|] eqn:Ho; [|apply Hf; code_in].
  destruct (matches_outcome (identity e) out) eqn:Hm; [|apply Hf; code_in].
  destruct (complete _ _ _ _ _ _ _ _) as [r1 o1] eqn:H. intros [= <- <-].
  pose proof (complete_effect _ _ _ _ _ _ _ Hcodec _ _ _ _ _ _ _ _ Hi H) as (_ & Hi' & _).
  unfold complete in H. destruct (_ || _).
  { injection H as <- <-. by apply handled_same. }
  destruct (change_at _ _ _ _ _ _ _ _ Hi Hk H) as [Hf' [[-> (s' & Hs & Ha)]|(er & -> & ->)]];
    [|by apply handled_same].
  subst s. cbn in Hs. rewrite String.eqb_refl in Hs. injection Hs as <-.
  repeat (split; [done|]). eexists. split; [done|]. eapply an_completed; eauto.
Qed.


Lemma settle_handled w k e env pending s job r w' :
  out_inv (outbox w) -> at_state (outbox w) k (identity e) s ->
  job_of k (id_request (identity e)) job ->
  (pending = false -> s = Submitted (id job)) ->
  settle w k e pending job env = (r, w') -> handled w w' k (identity e) env pending s.
Proof.
  intros Hi Hk Hjob Hp. unfold settle. destruct pending.
  2: { specialize (Hp eq_refl). intros H. by eapply settle_final. }
  destruct (acknowledge _ _ _ _ _ _) as [r1 o1] eqn:H1.
  pose proof (acknowledge_effect _ _ _ _ _ _ _ Hcodec _ _ _ _ _ _ Hi H1) as (_ & Hi1 & _).
  unfold acknowledge in H1. destruct (negb _).
  { injection H1 as <- <-. intros [= <- <-]. by apply handled_same. }
  destruct (change_at _ _ _ _ _ _ _ _ Hi Hk H1) as [Hf1 [[-> (s1 & Hs1 & Ha1)]|(er & -> & ->)]];
    [|intros [= <- <-]; by apply handled_same].
  assert (s1 = Submitted (id job)) as ->.
  { destruct s as [| | j | |]; try done; [by injection Hs1 as <-|].
    destruct (String.eqb_spec j (id job)) as [->|]; [|done]. by injection Hs1 as <-. }
  intros H. set (w1 := set_refusals (set_outbox w o1) (delete k (refusals w))) in *.
  destruct (settle_final w1 k (identity e) env true (Submitted (id job)) job r w' Hi1 Ha1 eq_refl Hjob e eq_refl H)
    as (Hi' & Hf' & Hp' & s' & Ha' & Hans).
  split; [done|]. split; [by eapply frame_trans|]. split; [done|]. exists s'. split; [done|].
  destruct Hans; eauto using answered.
Qed.

Lemma busy_handled w k i env s r w' :
  out_inv (outbox w) -> at_state (outbox w) k i s -> definite_refusal env ->
  busy w k env = (r, w') -> handled w w' k i env true s.
Proof.
  intros Hi Hk Hd. unfold busy. destruct (MAX_REFUSALS <=? _).
  - apply handled_fail; try done. code_in.
  - destruct (refused _ _ _ _) as [r1 o1] eqn:H. intros [= <- <-].
    pose proof (refused_effect _ _ _ _ _ _ _ Hcodec _ _ _ _ _ Hi H) as (_ & Hi' & _).
    unfold refused in H. cbn [outbox set_refusals] in H.
    destruct (change_at _ _ _ _ _ _ _ _ Hi Hk H) as [Hf [[-> (s' & Hs & Ha)]|(er & -> & ->)]];
      [|by apply handled_same].
    repeat (split; [done|]). exists s'. split; [done|].
    destruct s; try done. injection Hs as <-. by apply an_refused.
Qed.

Lemma rejected_code st code : rejected_submission st = Some code -> In code FAILURE_CODES.
Proof.
  unfold rejected_submission. repeat case_match_eq; intros [= <-]; code_in.
Qed.

Lemma handle_result_handled w k e env pending s res r w' :
  out_inv (outbox w) -> at_state (outbox w) k (identity e) s ->
  (forall job, res = Ok job -> request job = id_request (identity e) /\
               (pending = false -> s = Submitted (id job))) ->
  (forall st, pending = true -> res = Err (EStatus st) ->
              exists resp, exchange env = Some resp /\ http_status resp = st) ->
  handle_result w k e pending res env = (r, w') -> handled w w' k (identity e) env pending s.
Proof.
  intros Hi Hk Hjob Hst.
  assert (Hf : forall w0 code, outbox w0 = outbox w -> posts w0 = posts w -> In code FAILURE_CODES ->
             worker_fail w0 k code (io_final env) = (r, w') -> handled w w' k (identity e) env pending s).
  { intros w0 code E1 E2 Hc H. by eapply (handled_fail w w0). }
  unfold handle_result. destruct res as [job|[| |st|]].
  - case_bool_decide as Hid; [|apply Hf; (done || code_in)].
    destruct (Hjob job eq_refl). apply settle_handled; try done.
  - destruct pending; [apply Hf; (done || code_in)|]. intros [= <- <-]. by apply handled_same.
  - intros [= <- <-]. by apply handled_same.
  - destruct ((st =? 404) && _); [apply Hf; (done || code_in)|].
    destruct (((st =? 429) || (st =? 503)) && pending) eqn:Hb.
    + apply andb_true_iff in Hb as [Hb ->]. apply busy_handled; try done.
      destruct (Hst st eq_refl eq_refl) as (resp & E & Es). exists resp. split; [done|].
      rewrite Es. apply orb_true_iff in Hb as [Hb|Hb]; apply Z.eqb_eq in Hb; auto.
    + destruct pending; [|intros [= <- <-]; by apply handled_same].
      destruct (rejected_submission st) as [code|] eqn:Hr; [|intros [= <- <-]; by apply handled_same].
      apply Hf; try done. by eapply rejected_code.
  - apply Hf; (done || code_in).
Qed.

(** ** One entry *)

Lemma reconcile_entry_spec w k e env r w' :
  out_inv (outbox w) -> get k (entries (ledger (outbox w))) = Some e ->
  reconcile_entry w k e env = (r, w') ->
  out_inv (outbox w') /\ frame k (outbox w) (outbox w') /\
  (posts w' = posts w \/
   (state e = Pending /\ (exists p, posts w' = p :: posts w /\ post_key p = k /\ good_post p) /\
    (at_state (outbox w') k (identity e) Pending -> definite_refusal env))) /\
  exists s', at_state (outbox w') k (identity e) s' /\ entry_step k (identity e) env (state e) s'.
Proof.
  intros Hi Hk. assert (Ha : at_state (outbox w) k (identity e) (state e)).
  { unfold at_state. rewrite Hk. by destruct e. }
  assert (Hfin : forall w1, handled w w1 k (identity e) env false (state e) ->
    out_inv (outbox w1) /\ frame k (outbox w) (outbox w1) /\
    (posts w1 = posts w \/
     (state e = Pending /\ (exists p, posts w1 = p :: posts w /\ post_key p = k /\ good_post p) /\
      (at_state (outbox w1) k (identity e) Pending -> definite_refusal env))) /\
    exists s', at_state (outbox w1) k (identity e) s' /\ entry_step k (identity e) env (state e) s').
  { intros w1 (H1 & H2 & H3 & s' & H4 & H5). repeat (split; [auto|]). exists s'. split; [done|].
    destruct H5 as [|?|j code Hc|?|job out ? ? ? ? [?|?]]; try done; eauto using entry_step. }
  unfold reconcile_entry. destruct (find_remote w e).
  2: { intros H. apply Hfin. eapply (handled_fail w w); try done. code_in. }
  destruct (state e) as [|t|j| |] eqn:Hst; try (intros [= <- <-]; apply Hfin; by apply handled_same).
  - destruct (begin_send _ _ _ _ _) as [r1 o1] eqn:H1.
    pose proof (begin_send_effect _ _ _ _ _ _ _ Hcodec _ _ _ _ _ _ Hi H1) as (_ & Hi1 & _).
    unfold begin_send in H1.
    destruct (change_at _ _ _ _ _ _ _ _ Hi Ha H1) as [Hf1 [[-> (s1 & Hs1 & Ha1)]|(er & -> & ->)]];
      [|intros [= <- <-]; apply Hfin; by apply handled_same].
    injection Hs1 as <-. intros H.
    apply (handle_result_handled (add_post (set_outbox w o1) k) k e env true (Sending (now env)))
      in H as (Hi' & Hf' & Hp' & s' & Ha' & Hans); [|done|done| |].
    + split; [done|]. split; [by eapply frame_trans|]. split.
      * right. split; [done|]. split.
        { eexists. split; [exact Hp'|]. split; [done|]. split; [exact Hi1|]. eauto. }
        intros Hpend. unfold at_state in Ha', Hpend. rewrite Hpend in Ha'. injection Ha' as <-.
        by inversion Hans.
      * exists s'. split; [done|].
        destruct Hans; [apply es_sending|by apply es_refused|by apply es_failed|by apply es_submitted|].
        apply es_completed; auto.
    + intros job Hj. split; [|done]. apply submit_ok in Hj. tauto.
    + intros st _ Hs. by eapply submit_status.
  - intros H. apply Hfin. eapply (handled_fail w w); try done. code_in.
  - intros H. apply Hfin. apply (handle_result_handled w k e env false (Submitted j)) in H; try done.
    intros job Hj. apply get_job_ok in Hj as [? <-]. auto.
Qed.

(** ** A whole pass *)

Record pass (w w' : Worker) (batch : list (string * Entry)) (envs : list Env) : Prop := {
  pass_inv : out_inv (outbox w');
  pass_posts : exists new, posts w' = new ++ posts w /\
    Forall (fun p => good_post p /\
      (exists e, In (post_key p, e) batch /\ state e = Pending) /\
      (forall i, at_state (outbox w') (post_key p) i Pending -> exists env, In env envs /\ definite_refusal env))
      new /\ NoDup (map post_key new);
  pass_entries : forall k e, get k (entries (ledger (outbox w))) = Some e ->
    exists s', at_state (outbox w') k (identity e) s' /\
      (s' = state e \/ exists env, In env envs /\ entry_step k (identity e) env (state e) s');
  pass_frame : forall k, ~ In k (map fst batch) ->
    get k (entries (ledger (outbox w'))) = get k (entries (ledger (outbox w)));
}.

Lemma pass_none w w' batch envs :
  outbox w' = outbox w -> posts w' = posts w -> out_inv (outbox w) -> pass w w' batch envs.
Proof.
  intros Eo Ep Hi. constructor; rewrite ?Eo, ?Ep; [done| | |done].
  - exists []. repeat split; constructor.
  - intros k e Hk. exists (state e). split; [|by left]. unfold at_state. rewrite Hk. by destruct e.
Qed.

Lemma reconcile_entries_pass batch w envs r w' :
  out_inv (outbox w) -> NoDup (map fst batch) ->
  (forall k e, In (k, e) batch -> get k (entries (ledger (outbox w))) = Some e) ->
  reconcile_entries w batch envs = (r, w') -> pass w w' batch envs.
Proof.
  revert w envs. induction batch as [|[k e] batch IH]; intros w envs Hi Hnd Hin; cbn.
  { intros [= <- <-]. by apply pass_none. }
  destruct envs as [|env envs]; [intros [= <- <-]; by apply pass_none|].
  cbn in Hnd. apply NoDup_cons in Hnd as [Hk Hnd]. rewrite list_elem_of_In in Hk.
  pose proof (Hin k e (or_introl eq_refl)) as Hke.
  destruct (reconcile_entry w k e env) as [r1 w1] eqn:H1.
  destruct (reconcile_entry_spec _ _ _ _ _ _ Hi Hke H1) as (Hi1 & Hf1 & Hp1 & s1 & Ha1 & Hs1).
  assert (Hrest : pass w1 w' batch envs -> pass w w' ((k, e) :: batch) (env :: envs)).
  { intros [P1 (new & Enew & Fnew & Nnew) P3 P4].
    assert (Hkw' : get k (entries (ledger (outbox w'))) = get k (entries (ledger (outbox w1)))) by by apply P4.
    assert (Fnew' : Forall (fun p => good_post p /\
        (exists e0, In (post_key p, e0) ((k, e) :: batch) /\ state e0 = Pending) /\
        (forall i, at_state (outbox w') (post_key p) i Pending ->
           exists env0, In env0 (env :: envs) /\ definite_refusal env0)) new).
    { eapply Forall_impl; [exact Fnew|]. intros p (A & (e0 & B & B') & C). split; [done|].
      split; [exists e0; split; [by right|done]|]. intros i Hp. destruct (C i Hp) as (env0 & D & E).
      exists env0. split; [by right|done]. }
    constructor; [done| | |].
    - destruct Hp1 as [Hp1|(Hst & (p & Hp1 & Hpk & Hgp) & Href)].
      + exists new. rewrite <- Hp1. done.
      + exists (new ++ [p]). rewrite Enew, Hp1, <- app_assoc. split; [done|]. split.
        * apply Forall_app. split; [done|]. constructor; [|constructor]. rewrite Hpk.
          split; [done|]. split; [exists e; split; [by left|done]|]. intros i Hp.
          exists env. split; [by left|]. apply Href. unfold at_state in *. rewrite <- Hkw', Hp.
          rewrite Hkw' in Hp. rewrite Ha1 in Hp. congruence.
        * rewrite map_app. cbn. apply NoDup_app. split; [done|]. split; [|by repeat constructor; intros ?%not_elem_of_nil].
          intros x Hx Hx'. apply list_elem_of_singleton in Hx' as ->. rewrite Hpk in Hx.
          apply list_elem_of_In, in_map_iff in Hx as (q & Eq & Hq). rewrite List.Forall_forall in Fnew.
          destruct (Fnew q Hq) as (_ & (e0 & Hb & _) & _). rewrite Eq in Hb.
          apply Hk. by apply (in_map fst) in Hb.
    - intros k0 e0 Hk0. destruct (decide (k0 = k)) as [->|Hne].
      + rewrite Hke in Hk0. injection Hk0 as <-. exists s1. unfold at_state. rewrite Hkw'. split; [done|].
        right. exists env. split; [by left|done].
      + rewrite <- (Hf1 k0 Hne) in Hk0. destruct (P3 k0 e0 Hk0) as (s' & A & [B|(env0 & B & C)]);
          exists s'; (split; [done|]); [by left|right]. exists env0. split; [by right|done].
    - intros k0 Hk0. cbn in Hk0. rewrite P4 by tauto. apply Hf1. intros ->. tauto. }
  destruct r1 as [[]|er]; [|intros [= <- <-]; apply Hrest; by apply pass_none].
  intros H. apply Hrest. apply (IH w1 envs); try done.
  intros k0 e0 H0. rewrite (Hf1 k0); [by apply Hin; right|].
  intros ->. apply Hk. by apply (in_map fst) in H0.
Qed.

Lemma reconcile_pass w io envs r w' :
  out_inv (outbox w) -> reconcile w io envs = (r, w') ->
  exists batch, pass w w' batch envs /\ (length batch <= 16)%nat /\
    (forall k e, In (k, e) batch -> get k (entries (ledger (outbox w))) = Some e).
Proof.
  intros Hi. unfold reconcile. cbn [outbox set_transport_errors].
  destruct (next_batch _ _ _ _) as [[batch|er] o1] eqn:Hb.
  - pose proof (next_batch_effect _ _ _ _ _ _ _ Hcodec _ _ _ _ _ Hi Hb) as (_ & Hi1 & _).
    pose proof (ok_sorted _ _ _ _ _ (inv_ledger _ _ _ _ _ Hi)) as Hs.
    destruct (next_batch_result _ _ _ _ _ _ Hs Hb) as (Htk & Hnd & Hin & He).
    intros H. exists batch. split; [|split; [rewrite Htk, length_take; lia|intros; by apply Hin]].
    apply reconcile_entries_pass in H as [P1 P2 P3 P4]; [|done|done|].
    + constructor; [done|done| |]; cbn [outbox set_outbox set_transport_errors] in *; by rewrite He in *.
    + intros k e Hke. cbn. rewrite He. by apply Hin.
  - intros [= <- <-]. exists []. split; [|split; [cbn; lia|done]].
    pose proof (next_batch_effect _ _ _ _ _ _ _ Hcodec _ _ _ _ _ Hi Hb) as (_ & Hi1 & Herr).
    rewrite (Herr er) in * by done. by apply pass_none.
Qed.

(** ** Refusal counters *)

Definition refusals_ok (w : Worker) : Prop :=
  map_Forall (fun _ n => 1 <= n < MAX_REFUSALS) (refusals w).

Lemma refusals_delete w k : refusals_ok w -> map_Forall (fun _ n => 1 <= n < MAX_REFUSALS) (delete k (refusals w)).
Proof. intros H. by apply map_Forall_delete. Qed.

Lemma worker_fail_refusals w k c io r w' :
  refusals_ok w -> worker_fail w k c io = (r, w') -> refusals_ok w'.
Proof.
  intros H. unfold worker_fail. destruct (fail _ _ _ _ _) as [[] ?]; intros [= <- <-]; [|done].
  by apply refusals_delete.
Qed.

Lemma busy_refusals w k env r w' : refusals_ok w -> busy w k env = (r, w') -> refusals_ok w'.
Proof.
  intros H. unfold busy. cbn [refusals set_refusals].
  destruct (Z.leb_spec MAX_REFUSALS (default 0 (refusals w !! k) + 1)) as [|Hlt].
  - apply worker_fail_refusals. unfold refusals_ok. cbn. rewrite delete_insert_eq. by apply refusals_delete.
  - destruct (refused _ _ _ _). intros [= <- <-]. unfold refusals_ok. cbn.
    apply map_Forall_insert_2; [|done]. destruct (refusals w !! k) as [n|] eqn:E; cbn in *.
    + pose proof (map_Forall_lookup_1 _ _ _ _ H E). cbn in *. lia.
    + lia.
Qed.

Lemma handle_result_refusals w k e pending res env r w' :
  refusals_ok w -> handle_result w k e pending res env = (r, w') -> refusals_ok w'.
Proof.
  intros H. assert (Hw : refusals_ok (transport_warning w)) by done.
  assert (Hd : refusals_ok (set_refusals w (delete k (refusals w)))) by by apply refusals_delete.
  unfold handle_result. destruct res as [job|[| |st|]].
  - case_bool_decide; [|by apply worker_fail_refusals]. unfold settle.
    destruct pending.
    + destruct (acknowledge _ _ _ _ _ _) as [[] o1]; [|by intros [= <- <-]].
      assert (H1 : refusals_ok (set_refusals (set_outbox w o1) (delete k (refusals w)))) by done.
      revert H1. generalize (set_refusals (set_outbox w o1) (delete k (refusals w))) as w1. intros w1 H1.
      destruct (job_status job); try (by intros [= <- <-]); try by apply worker_fail_refusals.
      destruct (outcome job) as [out|]; [destruct (matches_outcome _ _)|]; try by apply worker_fail_refusals.
      destruct (complete _ _ _ _ _ _ _ _). by intros [= <- <-].
    + destruct (job_status job); try (by intros [= <- <-]); try by apply worker_fail_refusals.
      destruct (outcome job) as [out|]; [destruct (matches_outcome _ _)|]; try by apply worker_fail_refusals.
      destruct (complete _ _ _ _ _ _ _ _). by intros [= <- <-].
  - destruct pending; [by apply worker_fail_refusals|by intros [= <- <-]].
  - by intros [= <- <-].
  - destruct (_ && _); [by apply worker_fail_refusals|]. destruct (_ && _); [by apply busy_refusals|].
    destruct pending; [|by intros [= <- <-]]. destruct (rejected_submission st); [by apply worker_fail_refusals|].
    by intros [= <- <-].
  - by apply worker_fail_refusals.
Qed.

Lemma reconcile_entries_refusals batch w envs r w' :
  refusals_ok w -> reconcile_entries w batch envs = (r, w') -> refusals_ok w'.
Proof.
  revert w envs. induction batch as [|[k e] batch IH]; intros w [|env envs] H; cbn; try by intros [= <- <-].
  assert (H1 : forall r1 w1, reconcile_entry w k e env = (r1, w1) -> refusals_ok w1).
  { intros r1 w1. unfold reconcile_entry. destruct (find_remote w e); [|by apply worker_fail_refusals].
    destruct (state e); try (by intros [= <- <-]).
    - destruct (begin_send _ _ _ _ _) as [[] o1]; [|by intros [= <- <-]]. by apply handle_result_refusals.
    - by apply worker_fail_refusals.
    - by apply handle_result_refusals. }
  destruct (reconcile_entry w k e env) as [r1 w1]. specialize (H1 r1 w1 eq_refl).
  destruct r1; [by apply IH|by intros [= <- <-]].
Qed.

(** * Theorems *)

(** C3: A reconcile pass posts at most 16 jobs, at most one per key, each for an entry that
    was pending and whose sending state was durable before the post; an entry is pending
    again afterwards only on a definite refusal. *)
Theorem posts_follow_durable_sending w io envs r w' :
  out_inv (outbox w) -> reconcile w io envs = (r, w') ->
  out_inv (outbox w') /\
  exists new, posts w' = new ++ posts w /\ NoDup (map post_key new) /\ (length new <= 16)%nat /\
    Forall (fun p =>
      good_post p /\
      (exists e, get (post_key p) (entries (ledger (outbox w))) = Some e /\ state e = Pending) /\
      (forall i, at_state (outbox w') (post_key p) i Pending ->
         exists env, In env envs /\ definite_refusal env)) new.
Proof.
  intros Hi H.
  destruct (reconcile_pass _ _ _ _ _ Hi H) as (batch & [P1 (new & E & F & N) P3 P4] & Hb & Hin).
  split; [done|]. exists new. split; [done|]. split; [done|]. split.
  - rewrite <- (length_map post_key). etrans; [|exact Hb]. rewrite <- (length_map fst batch).
    apply NoDup_incl_length; [by apply NoDup_ListNoDup|]. intros k (p & <- & Hp)%in_map_iff.
    rewrite List.Forall_forall in F. destruct (F p Hp) as (_ & (e & He & _) & _).
    by apply (in_map fst) in He.
  - eapply Forall_impl; [exact F|]. intros p (A & (e & B & C) & D). eauto 8.
Qed.

(** A reconcile pass takes every entry of the ledger through exactly the transition
    that the answers to its own requests prescribe, or leaves its state alone. *)
Lemma reconcile_entry_outcomes w io envs r w' k e :
  out_inv (outbox w) -> reconcile w io envs = (r, w') ->
  get k (entries (ledger (outbox w))) = Some e ->
  exists s', at_state (outbox w') k (identity e) s' /\
    (s' = state e \/ exists env, In env envs /\ entry_step k (identity e) env (state e) s').
Proof.
  intros Hi H Hk. destruct (reconcile_pass _ _ _ _ _ Hi H) as (batch & [P1 P2 P3 P4] & _). auto.
Qed.

(** Refusal counters stay between 1 and one below the limit, and the refusal that
    reaches the limit fails the entry and forgets its counter. *)
Lemma refusals_stay_bounded w io envs r w' :
  refusals_ok w -> reconcile w io envs = (r, w') ->
  refusals_ok w' /\
  (forall k env o', refusals w !! k = Some (MAX_REFUSALS - 1) ->
     fail ledger_to_vec (outbox w) k "submission_refused" (io_final env) = (Ok tt, o') ->
     fst (busy w k env) = Ok tt /\ outbox (snd (busy w k env)) = o' /\
     refusals (snd (busy w k env)) !! k = None).
Proof.
  intros Hr. split.
  - revert H. unfold reconcile. destruct (next_batch _ _ _ _) as [[batch|er] o1]; [|by intros [= <- <-]].
    by apply reconcile_entries_refusals.
  - intros k env o' Hk Hf. unfold busy. rewrite Hk. cbn [default MAX_REFUSALS].
    change (MAX_REFUSALS <=? 10 - 1 + 1) with true. cbn [refusals set_refusals]. unfold worker_fail.
    cbn [outbox set_refusals]. rewrite Hf. cbn. split; [done|]. split; [done|]. apply lookup_delete_eq.
Qed.

(** A job id that the job client accepts but that is not written canonically is refused
    by the outbox: the pass ends with an outbox error after the job was posted. *)
Lemma noncanonical_job_id_stops_worker w k e env job c :
  out_inv (outbox w) -> get k (entries (ledger (outbox w))) = Some e -> state e = Pending ->
  is_some (find_remote w e) = true -> io_send env = CommitOk ->
  submit job_from_slice sha256_hex uuid_parse (exchange env) (id_request (identity e)) k = Ok job ->
  uuid_parse (id job) = Some c -> c <> id job ->
  fst (reconcile_entry w k e env) = Err Invalid.
Proof.
  intros Hi Hk Hst Hr Hio Hsub Hu Hne. unfold reconcile_entry.
  destruct (find_remote w e); [|done]. rewrite Hst, Hio, Hsub.
  assert (Hok : exists o1, begin_send ledger_to_vec (outbox w) k (now env) CommitOk = (Ok tt, o1)).
  { unfold begin_send, change. rewrite Hk, Hst. unfold commit.
    edestruct (ledger_roundtrip _ _ _ _ _ _ _ Hcodec) as (b & Eb & _); [|rewrite Eb; eauto].
    apply insert_sorted, (ok_sorted _ _ _ _ _ (inv_ledger _ _ _ _ _ Hi)). }
  destruct Hok as (o1 & ->). unfold handle_result.
  destruct (submit_ok _ _ _ _ _ _ _ Hsub) as (_ & Hid & _). rewrite bool_decide_true by done.
  unfold settle, acknowledge, uuid. rewrite Hu. cbn [some_and].
  destruct (String.eqb_spec c (id job)); [done|]. done.
Qed.

End correctness.
End dispatch.

(** * Administrative commands *)

Record EntryCounts : Type := {
  total : Z; cap : Z; pending : Z; sending : Z; submitted : Z; completed : Z; failed : Z;
  busy_retrying : Z;
}.
Definition bump (code : string) (m : bmap Z) : bmap Z :=
  BTree.insert code (default 0 (get code m) + 1) m.

Definition count_entry (refusals : gmap string Z) (acc : EntryCounts * bmap Z) (kv : string * Entry)
  : EntryCounts * bmap Z :=
  let '(c, f) := acc in
  match state (snd kv) with
  | Pending =>
      ({| total := total c; cap := cap c; pending := pending c + 1; sending := sending c;
          submitted := submitted c; completed := completed c; failed := failed c;
          busy_retrying := busy_retrying c + (if is_some (refusals !! fst kv) then 1 else 0) |}, f)
  | Sending _ =>
      ({| total := total c; cap := cap c; pending := pending c; sending := sending c + 1;
          submitted := submitted c; completed := completed c; failed := failed c;
          busy_retrying := busy_retrying c |}, f)
  | Submitted _ =>
      ({| total := total c; cap := cap c; pending := pending c; sending := sending c;
          submitted := submitted c + 1; completed := completed c; failed := failed c;
          busy_retrying := busy_retrying c |}, f)
  | Completed _ _ _ =>
      ({| total := total c; cap := cap c; pending := pending c; sending := sending c;
          submitted := submitted c; completed := completed c + 1; failed := failed c;
          busy_retrying := busy_retrying c |}, f)
  | Failed _ code =>
      let code := default "other"%string (List.find (fun known => String.eqb known code) FAILURE_CODES) in
      ({| total := total c; cap := cap c; pending := pending c; sending := sending c;
          submitted := submitted c; completed := completed c; failed := failed c + 1;
          busy_retrying := busy_retrying c |}, bump code f)
  end.

Definition summarize (o : Outbox) (capacity : Z) (refusals : gmap string Z) : EntryCounts * bmap Z :=
  fold_left (count_entry refusals) (entries (ledger o))
    ({| total := size (entries (ledger o)); cap := capacity; pending := 0; sending := 0;
        submitted := 0; completed := 0; failed := 0; busy_retrying := 0 |}, []).

Inductive Action : Type :=
| List_ (limit : option Z) (after : option string)
| Detail (k : string)
| Archive (k job_id : string)
| Adopt (k job_id : string).

Inductive Reply : Type :=
| RList (total : Z) (page : list (string * Entry)) (next_after : option string)
| REntry (k : string) (archived : option bool) (e : Entry).

(** [by_ref().take(limit)] and whether anything is left. *)
Definition list_page (m : bmap Entry) (limit : Z) (after : option string)
  : list (string * Entry) * option string :=
  let selected := List.filter (fun kv => none_or after (fun c => sltb c (fst kv))) m in
  let page := take (Z.to_nat limit) selected in
  (page, match drop (Z.to_nat limit) selected with
         | [] => None
         | _ => option_map fst (list.last page)
         end).

(** The HTTP handlers' checks before a command is queued. *)
Definition list_request_ok (limit : option Z) (after : option string) : bool :=
  in_range 1 200 (default 50 limit) && none_or after valid_key.

Section admin.
Context (ledger_to_vec : Ledger -> option (list Z))
        (entry_to_vec : Entry -> option (list Z))
        (entry_from_slice : list Z -> option Entry)
        (identity_to_vec : Identity -> option (list Z))
        (sha256_hex : list Z -> string)
        (uuid_parse : string -> option string).

Definition status_of_error (e : Error) : Z := match e with Invalid => 409 | _ => 503 end.

Definition handle (closed : bool) (a : Action) (o : Outbox) (rio : ReadIo) (aio : ArchiveIo) (cio : CommitIo)
  : option (result Z Reply) * Outbox :=
  if closed then (None, o)
  else match a with
  | List_ limit after =>
      let '(page, next) := list_page (entries (ledger o)) (default 50 limit) after in
      (Some (Ok (RList (size (entries (ledger o))) page next)), o)
  | Detail k =>
      match get k (entries (ledger o)) with
      | Some e => (Some (Ok (REntry k (Some false) e)), o)
      | None =>
          match archived entry_from_slice identity_to_vec sha256_hex uuid_parse o k rio with
          | Ok (Some e) => (Some (Ok (REntry k (Some true) e)), o)
          | Ok None => (Some (Err 404), o)
          | Err _ => (Some (Err 503), o)
          end
      end
  | Archive k j =>
      match archive_completed ledger_to_vec entry_to_vec entry_from_slice identity_to_vec sha256_hex
              uuid_parse o k j rio aio cio with
      | (Ok e, o) => (Some (Ok (REntry k (Some true) e)), o)
      | (Err er, o) => (Some (Err (status_of_error er)), o)
      end
  | Adopt k j =>
      if negb (contains_key k (entries (ledger o))) then (Some (Err 404), o)
      else match adopt ledger_to_vec uuid_parse o k j cio with
           | (Ok _, o) => match get k (entries (ledger o)) with
                          | Some e => (Some (Ok (REntry k None e)), o)
                          | None => (None, o)
                          end
           | (Err er, o) => (Some (Err (status_of_error er)), o)
           end
  end.

End admin.

(** ** Counts *)

Definition sum_values (m : bmap Z) : Z := fold_right (fun kv acc => snd kv + acc) 0 m.

Lemma sum_bump code m : sorted m -> sum_values (bump code m) = sum_values m + 1.
Proof.
  unfold bump, sum_values. induction m as [|[k v] m IH]; [done|]. intros [Hk Hm]%sorted_cons. cbn.
  destruct (String.compare code k) eqn:E.
  - apply String.compare_eq_iff in E as ->. rewrite String.eqb_refl. cbn. lia.
  - assert (get code ((k, v) :: m) = None) as Hn.
    { apply get_not_in. cbn. rewrite List.Forall_forall in Hk. intros [->|Hin].
      - by rewrite string_compare_refl in E.
      - by eapply slt_irrefl, slt_trans, Hk. }
    cbn in Hn. rewrite Hn. cbn. lia.
  - destruct (String.eqb_spec code k) as [->|]; [by rewrite string_compare_refl in E|].
    cbn. rewrite IH by done. lia.
Qed.

Definition counted (c : EntryCounts) : Z :=
  pending c + sending c + submitted c + completed c + failed c.

Lemma count_entries refusals l c f c' f' :
  sorted f -> fold_left (count_entry refusals) l (c, f) = (c', f') ->
  total c' = total c /\ counted c' = counted c + Z.of_nat (length l) /\
  failed c' - sum_values f' = failed c - sum_values f /\
  pending c' - busy_retrying c' >= pending c - busy_retrying c /\ sorted f'.
Proof.
  revert c f. induction l as [|[k e] l IH]; intros c f Hf; cbn [fold_left].
  { intros [= <- <-]. cbn. repeat split; (done || lia). }
  unfold count_entry at 2. cbn [fst snd]. destruct (state e); intros H;
    apply IH in H as (H1 & H2 & H3 & H4 & H5); try done; unfold counted in *; cbn in *;
    try (unfold bump; by apply insert_sorted);
    try (rewrite sum_bump in H3 by done);
    try (destruct (is_some _)); repeat split; (done || lia).
Qed.

(** The admin summary's state counts partition the entries, the failure codes sum to
    the failed count, and busy retries are among the pending entries. *)
Lemma summary_counts_partition o capacity refusals c f :
  summarize o capacity refusals = (c, f) ->
  total c = size (entries (ledger o)) /\
  pending c + sending c + submitted c + completed c + failed c = total c /\
  sum_values f = failed c /\ busy_retrying c <= pending c.
Proof.
  intros H. apply count_entries in H as (H1 & H2 & H3 & H4 & _); [|apply sorted_nil].
  unfold counted in H2. cbn in *. unfold size in *. lia.
Qed.

(** ** Pages *)

(** Follows [next_after] from page to page. *)
Fixpoint all_pages (fuel : nat) (m : bmap Entry) (limit : Z) (after : option string) : list (string * Entry) :=
  match fuel with
  | O => []
  | S fuel => let '(page, next) := list_page m limit after in
              page ++ match next with
                      | Some k => all_pages fuel m limit (Some k)
                      | None => []
                      end
  end.

Lemma all_pages_spec fuel m limit after a b :
  sorted m -> 1 <= limit -> m = a ++ b -> (length b < fuel)%nat ->
  List.filter (fun kv => none_or after (fun c => sltb c (fst kv))) m = b ->
  all_pages fuel m limit after = b.
Proof.
  intros Hs Hl. revert after a b. induction fuel as [|fuel IH]; intros after a b Hm Hf Hb; [lia|].
  cbn [all_pages]. unfold list_page. rewrite Hb. set (n := Z.to_nat limit).
  assert (Hn : (1 <= n)%nat) by lia.
  destruct (drop n b) as [|x rest] eqn:Hd.
  { rewrite app_nil_r. rewrite <- (take_drop n b) at 2. by rewrite Hd, app_nil_r. }
  assert (Hlen : (n < length b)%nat).
  { apply (f_equal length) in Hd. rewrite length_drop in Hd. cbn in Hd. lia. }
  destruct (list.last (take n b)) as [[k e]|] eqn:Hlast.
  2: { apply last_None, (f_equal length) in Hlast. rewrite length_take in Hlast. cbn in Hlast. lia. }
  cbn [option_map fst]. rewrite <- (take_drop n b) at 2. f_equal.
  apply (IH (Some k) (a ++ take n b)).
  - by rewrite <- app_assoc, take_drop.
  - rewrite length_drop. lia.
  - assert (Hm' : m = (a ++ take n b) ++ drop n b) by by rewrite <- app_assoc, take_drop.
    rewrite Hm'. apply (cut_at _ _ k e); [by rewrite <- Hm'|]. by apply last_app_nonempty.
Qed.

(** Following next_after from page to page lists every ledger entry exactly once, in
    key order. *)
Lemma pages_list_every_entry m limit :
  sorted m -> 1 <= limit -> all_pages (S (length m)) m limit None = m.
Proof.
  intros Hs Hl. apply (all_pages_spec _ _ _ _ []); [done|done|done|lia|].
  apply (filter_all (fun _ => true)). done.
Qed.

(** * A concrete instance *)
Module DispatchDemo.
Import Outbox.Demo.

Definition target : Target :=
  {| origin := "https://updater.example/"; token_env := "T"; user_agent := None; allow_http := false;
     profile := "main"; t_profile_revision := "1"; t_require_full_catalog := true;
     t_require_full_export := false; t_require_publication := false |}.
Definition worker (s : State) (m : gmap string Z) : Worker :=
  {| w_region := Jp; w_environment := "production"; w_platform := "iOS"; outbox := demo_outbox s;
     remotes := [{| r_config := target; r_digest := zeros64 |}]; refusals := m;
     transport_errors := 0; posts := [] |}.
Definition accepted : http_response :=
  {| http_status := 202; http_headers := []; content_length := None; body_events := [] |}.
Definition env (r : option http_response) : Env :=
  {| now := 7; exchange := r; io_send := CommitOk; io_ack := CommitOk; io_final := CommitOk |}.
(** An updater that answers an uppercase identifier. *)
Definition upper_job (_ : list Z) : option Job :=
  Some {| id := "J"; request := id_request demo_identity; job_status := Queued;
          idempotency_sha256 := Some zeros64; outcome := None |}.
Definition lower_uuid (_ : string) : option string := Some "j"%string.

Definition demo_pass : result Error unit * Worker :=
  reconcile upper_job ledger_to_vec sha256_hex uuid_parse (worker Pending ∅) CommitOk [env None].

Lemma posts_follow_durable_sending_witness :
  exists new, posts (snd demo_pass) = new ++ [] /\ (length new <= 16)%nat.
Proof.
  destruct (posts_follow_durable_sending upper_job ledger_to_vec ledger_from_slice entry_to_vec
              entry_from_slice identity_to_vec sha256_hex uuid_parse demo_codec (worker Pending ∅)
              CommitOk [env None] (fst demo_pass) (snd demo_pass) (demo_inv_ok Pending eq_refl)
              (surjective_pairing _)) as (_ & new & E & _ & Hl & _).
  exists new. split; [exact E|exact Hl].
Defined.

Lemma reconcile_entry_outcomes_witness :
  exists s', at_state (outbox (snd demo_pass)) demo_key demo_identity s'.
Proof.
  destruct (reconcile_entry_outcomes upper_job ledger_to_vec ledger_from_slice entry_to_vec
              entry_from_slice identity_to_vec sha256_hex uuid_parse demo_codec (worker Pending ∅)
              CommitOk [env None] (fst demo_pass) (snd demo_pass) demo_key (demo_entry Pending)
              (demo_inv_ok Pending eq_refl) (surjective_pairing _) eq_refl)
    as (s' & H & _).
  exists s'. exact H.
Defined.

Lemma refusals_stay_bounded_witness :
  refusals_ok (snd demo_pass).
Proof.
  refine (proj1 (refusals_stay_bounded upper_job ledger_to_vec sha256_hex uuid_parse (worker Pending ∅)
                   CommitOk [env None] (fst demo_pass) (snd demo_pass) _ (surjective_pairing _))).
  apply map_Forall_empty.
Defined.

Lemma noncanonical_job_id_stops_worker_witness :
  fst (reconcile_entry upper_job ledger_to_vec sha256_hex lower_uuid (worker Pending ∅) demo_key
         (demo_entry Pending) (env (Some accepted))) = Err Invalid.
Proof.
  eapply (noncanonical_job_id_stops_worker upper_job ledger_to_vec ledger_from_slice entry_to_vec
            entry_from_slice identity_to_vec sha256_hex lower_uuid (demo_codec_for lower_uuid)
            (worker Pending ∅) demo_key (demo_entry Pending) (env (Some accepted))).
  - apply demo_inv_for. reflexivity.
  - reflexivity.
  - reflexivity.
  - reflexivity.
  - reflexivity.
  - vm_compute. reflexivity.
  - reflexivity.
  - discriminate.
Defined.

Lemma summary_counts_partition_witness :
  sum_values (snd (summarize (demo_outbox (Failed None "job_failed")) 8 ∅)) = 1.
Proof.
  edestruct (summary_counts_partition (demo_outbox (Failed None "job_failed")) 8 ∅) as (_ & _ & E & _).
  { reflexivity. }
  exact E.
Defined.

Lemma pages_list_every_entry_witness :
  all_pages 2 (entries (demo_ledger Pending)) 1 None = [(demo_key, demo_entry Pending)].
Proof. apply (pages_list_every_entry (entries (demo_ledger Pending)) 1); [|lia]. by apply sortedb_spec. Defined.

End DispatchDemo.
