(* ===== verification/SingleFlight.v ===== *)
(** Shared execution of identical in-flight reads ([single_flight.rs]).

    Callers interleave at every lock, poll and drop: the system is a step
    relation over the map of in-flight cells, the cells and the callers.  A
    cell is tokio's [OnceCell]: one initializer at a time, and a dropped
    initializer hands the cell to another waiter. *)
From Stdlib Require Import ZArith Lia List Bool.
From stdpp Require Import base list decidable gmap relations.
From S2P Require Import Prelude.

Section single_flight.
Context {K : Type} `{Countable K} {V : Type}.

Inductive Cell : Type :=
| Empty
| Busy (caller : nat)
| Full (v : V).

Inductive Outcome : Type := Got (v : V) | TimedOut | Dropped.

(** A caller of [run].  [leader] callers hold the registration of the entry
    they inserted; in [Publishing] it has been released. *)
Inductive Caller : Type :=
| Waiting (leader : bool) (k : K) (c : nat)
| Running (leader : bool) (k : K) (c : nat)
| Publishing (k : K) (c : nat) (v : V)
| Finished (c : nat) (o : Outcome).

Record Flight : Type := mkFlight {
  inflight : gmap K nat;
  cells : gmap nat Cell;
  callers : gmap nat Caller;
  next_cell : nat;
}.
Definition flight_new : Flight := mkFlight ∅ ∅ ∅ 0.

(** [Registration::release]: only the entry this registration inserted. *)
Definition release (m : gmap K nat) (k : K) (c : nat) : gmap K nat :=
  if bool_decide (m !! k = Some c) then delete k m else m.

(** The map after the caller's future is gone: a leader's registration is
    released by its drop. *)
Definition drop_registration (m : gmap K nat) (leader : bool) (k : K) (c : nat) : gmap K nat :=
  if leader then release m k c else m.

Inductive step : Flight -> Flight -> Prop :=
| step_join m cs us n id k c :
    us !! id = None -> m !! k = Some c ->
    step (mkFlight m cs us n) (mkFlight m cs (<[id := Waiting false k c]> us) n)
| step_lead m cs us n id k :
    us !! id = None -> m !! k = None ->
    step (mkFlight m cs us n)
         (mkFlight (<[k := n]> m) (<[n := Empty]> cs) (<[id := Waiting true k n]> us) (S n))
| step_start m cs us n id leader k c :
    us !! id = Some (Waiting leader k c) -> cs !! c = Some Empty ->
    step (mkFlight m cs us n)
         (mkFlight m (<[c := Busy id]> cs) (<[id := Running leader k c]> us) n)
| step_fetched_leader m cs us n id k c v :
    us !! id = Some (Running true k c) ->
    step (mkFlight m cs us n)
         (mkFlight (release m k c) cs (<[id := Publishing k c v]> us) n)
| step_publish_leader m cs us n id k c v :
    us !! id = Some (Publishing k c v) ->
    step (mkFlight m cs us n) (mkFlight m (<[c := Full v]> cs) (<[id := Finished c (Got v)]> us) n)
| step_publish_joiner m cs us n id k c v :
    us !! id = Some (Running false k c) ->
    step (mkFlight m cs us n) (mkFlight m (<[c := Full v]> cs) (<[id := Finished c (Got v)]> us) n)
| step_receive m cs us n id leader k c v :
    us !! id = Some (Waiting leader k c) -> cs !! c = Some (Full v) ->
    step (mkFlight m cs us n)
         (mkFlight (drop_registration m leader k c) cs (<[id := Finished c (Got v)]> us) n)
| step_timeout_waiting m cs us n id k c :
    us !! id = Some (Waiting false k c) ->
    step (mkFlight m cs us n) (mkFlight m cs (<[id := Finished c TimedOut]> us) n)
| step_timeout_running m cs us n id k c :
    us !! id = Some (Running false k c) ->
    step (mkFlight m cs us n) (mkFlight m (<[c := Empty]> cs) (<[id := Finished c TimedOut]> us) n)
| step_cancel_waiting m cs us n id leader k c :
    us !! id = Some (Waiting leader k c) ->
    step (mkFlight m cs us n)
         (mkFlight (drop_registration m leader k c) cs (<[id := Finished c Dropped]> us) n)
| step_cancel_running m cs us n id leader k c :
    us !! id = Some (Running leader k c) ->
    step (mkFlight m cs us n)
         (mkFlight (drop_registration m leader k c) (<[c := Empty]> cs)
                   (<[id := Finished c Dropped]> us) n).

Definition reachable (f : Flight) : Prop := rtc step flight_new f.

(** * Invariant *)

(** The callers that hold the registration of an entry. *)
Definition registered (u : Caller) (k : K) (c : nat) : Prop :=
  u = Waiting true k c \/ u = Running true k c.
(** The callers that initialize a cell. *)
Definition initializes (u : Caller) (c : nat) : Prop :=
  (exists l k, u = Running l k c) \/ (exists k v, u = Publishing k c v).
Definition cell_of (u : Caller) : nat :=
  match u with Waiting _ _ c | Running _ _ c | Publishing _ c _ | Finished c _ => c end.

Record invariant (f : Flight) : Prop := {
  inv_registered : forall k c, inflight f !! k = Some c ->
    exists id u, callers f !! id = Some u /\ registered u k c;
  inv_busy : forall id u c, callers f !! id = Some u -> initializes u c -> cells f !! c = Some (Busy id);
  inv_got : forall id c v, callers f !! id = Some (Finished c (Got v)) -> cells f !! c = Some (Full v);
  inv_fresh : forall id u, callers f !! id = Some u -> cell_of u < next_cell f;
}.

Lemma release_lookup m k c k' c' :
  release m k c !! k' = Some c' -> m !! k' = Some c' /\ (k', c') <> (k, c).
Proof.
  unfold release. case_bool_decide as E.
  - rewrite lookup_delete_Some. intros [Hne Hm]. split; [done|]. congruence.
  - intros Hm. split; [done|]. congruence.
Qed.

Lemma drop_registration_lookup m l k c k' c' :
  drop_registration m l k c !! k' = Some c' ->
  m !! k' = Some c' /\ (l = true -> (k', c') <> (k, c)).
Proof.
  destruct l; cbn; [|done]. intros [? ?]%release_lookup. auto.
Qed.

(** A caller that moves on keeps every entry registered whose registration it
    did not hold, or that it released. *)
Lemma registered_after (m m' : gmap K nat) (us : gmap nat Caller) id u u' :
  (forall k c, m !! k = Some c -> exists id u, us !! id = Some u /\ registered u k c) ->
  us !! id = Some u ->
  (forall k c, m' !! k = Some c -> m !! k = Some c /\ (registered u k c -> registered u' k c)) ->
  forall k c, m' !! k = Some c -> exists id0 u0, <[id := u']> us !! id0 = Some u0 /\ registered u0 k c.
Proof.
  intros Hm Hu Hm' k c Hk. destruct (Hm' k c Hk) as [Hmk Hreg].
  destruct (Hm k c Hmk) as (id0 & u0 & Hu0 & Hr). destruct (decide (id0 = id)) as [->|Hne].
  - exists id, u'. rewrite lookup_insert_eq. split; [done|]. apply Hreg. congruence.
  - exists id0, u0. by rewrite lookup_insert_ne.
Qed.

Lemma not_registered_waiting k c k' c' :
  registered (Waiting false k c) k' c' -> False.
Proof. by intros [|]. Qed.
Lemma registered_eq l k c k' c' :
  registered (Waiting l k c) k' c' \/ registered (Running l k c) k' c' -> l = true /\ (k', c') = (k, c).
Proof. intros [[[=]|[=]]|[[=]|[=]]]; subst; auto. Qed.

(** A caller's step that leaves the initializer of every other cell alone. *)
Lemma busy_after (cs cs' : gmap nat Cell) (us : gmap nat Caller) id u u' c0 :
  (forall id u c, us !! id = Some u -> initializes u c -> cs !! c = Some (Busy id)) ->
  us !! id = Some u ->
  (forall c, c <> c0 -> cs' !! c = cs !! c) ->
  (forall c, initializes u' c -> cs' !! c = Some (Busy id)) ->
  (cs' !! c0 = cs !! c0 \/ (forall id1 u1, us !! id1 = Some u1 -> initializes u1 c0 -> id1 = id)) ->
  forall id1 u1 c, <[id := u']> us !! id1 = Some u1 -> initializes u1 c -> cs' !! c = Some (Busy id1).
Proof.
  intros Hb Hu Hcs Hu' Hc0 id1 u1 c. destruct (decide (id1 = id)) as [->|Hne].
  - rewrite lookup_insert_eq. intros [= <-]. apply Hu'.
  - rewrite lookup_insert_ne by done. intros H1 Hi.
    destruct (decide (c = c0)) as [->|Hc]; [|rewrite Hcs by done; by eapply Hb].
    destruct Hc0 as [->|Hc0]; [by eapply Hb|]. by apply (Hc0 id1 u1) in Hi.
Qed.

Lemma step_registered f f' : invariant f -> step f f' ->
  forall k c, inflight f' !! k = Some c -> exists id u, callers f' !! id = Some u /\ registered u k c.
Proof.
  intros [Hr _ _ _] Hs. destruct Hs as [m cs us n id k c Hu Hk|m cs us n id k Hu Hk|m cs us n id l k c Hu Hc
    |m cs us n id k c v Hu|m cs us n id k c v Hu|m cs us n id k c v Hu|m cs us n id l k c v Hu Hc
    |m cs us n id k c Hu|m cs us n id k c Hu|m cs us n id l k c Hu|m cs us n id l k c Hu];
    cbn [inflight callers] in *.
  - intros k' c' Hk'. destruct (Hr k' c' Hk') as (id0 & u0 & Hu0 & Hreg).
    exists id0, u0. rewrite lookup_insert_ne by congruence. done.
  - intros k' c'. destruct (decide (k' = k)) as [->|Hne].
    + rewrite lookup_insert_eq. intros [= <-]. exists id, (Waiting true k n).
      rewrite lookup_insert_eq. split; [done|by left].
    + rewrite lookup_insert_ne by done. intros Hk'. destruct (Hr k' c' Hk') as (id0 & u0 & Hu0 & Hreg).
      exists id0, u0. rewrite lookup_insert_ne by congruence. done.
  - eapply registered_after; [exact Hr|exact Hu|]. intros k' c' Hk'. split; [done|].
    intros [-> [= -> ->]]%(fun x => registered_eq l k c k' c' (or_introl x)). by right.
  - eapply registered_after; [exact Hr|exact Hu|]. intros k' c' [Hk' Hne]%release_lookup. split; [done|].
    intros [_ E]%(fun x => registered_eq true k c k' c' (or_intror x)). done.
  - eapply registered_after; [exact Hr|exact Hu|]. intros k' c' Hk'. split; [done|]. by intros [|].
  - eapply registered_after; [exact Hr|exact Hu|]. intros k' c' Hk'. split; [done|]. by intros [|].
  - eapply registered_after; [exact Hr|exact Hu|]. intros k' c' [Hk' Hne]%drop_registration_lookup.
    split; [done|]. intros [-> E]%(fun x => registered_eq l k c k' c' (or_introl x)). by destruct (Hne eq_refl).
  - eapply registered_after; [exact Hr|exact Hu|]. intros k' c' Hk'. split; [done|]. by intros [|].
  - eapply registered_after; [exact Hr|exact Hu|]. intros k' c' Hk'. split; [done|]. by intros [|].
  - eapply registered_after; [exact Hr|exact Hu|]. intros k' c' [Hk' Hne]%drop_registration_lookup.
    split; [done|]. intros [-> E]%(fun x => registered_eq l k c k' c' (or_introl x)). by destruct (Hne eq_refl).
  - eapply registered_after; [exact Hr|exact Hu|]. intros k' c' [Hk' Hne]%drop_registration_lookup.
    split; [done|]. intros [-> E]%(fun x => registered_eq l k c k' c' (or_intror x)). by destruct (Hne eq_refl).
Qed.

Lemma init_waiting l k c c' : ~ initializes (Waiting l k c) c'.
Proof. by intros [(? & ? & [=])|(? & ? & [=])]. Qed.
Lemma init_finished c o c' : ~ initializes (Finished c o) c'.
Proof. by intros [(? & ? & [=])|(? & ? & [=])]. Qed.
Lemma init_running l k c c' : initializes (Running l k c) c' <-> c' = c.
Proof. split; [by intros [(? & ? & [=])|(? & ? & [=])]|intros ->; left; eauto]. Qed.
Lemma init_publishing k c v c' : initializes (Publishing k c v) c' <-> c' = c.
Proof. split; [by intros [(? & ? & [=])|(? & ? & [=])]|intros ->; right; eauto]. Qed.

(** A cell is initialized by one caller. *)
Lemma busy_unique f id1 u1 id2 u2 c :
  invariant f -> callers f !! id1 = Some u1 -> callers f !! id2 = Some u2 ->
  initializes u1 c -> initializes u2 c -> id1 = id2.
Proof. intros Hi H1 H2 I1 I2. pose proof (inv_busy _ Hi _ _ _ H1 I1). pose proof (inv_busy _ Hi _ _ _ H2 I2). congruence. Qed.

Lemma step_busy f f' : invariant f -> step f f' ->
  forall id u c, callers f' !! id = Some u -> initializes u c -> cells f' !! c = Some (Busy id).
Proof.
  intros Hi Hs. pose proof (inv_busy _ Hi) as Hb. pose proof (inv_fresh _ Hi) as Hfr.
  destruct Hs as [m cs us n id k c Hu Hk|m cs us n id k Hu Hk|m cs us n id l k c Hu Hc
    |m cs us n id k c v Hu|m cs us n id k c v Hu|m cs us n id k c v Hu|m cs us n id l k c v Hu Hc
    |m cs us n id k c Hu|m cs us n id k c Hu|m cs us n id l k c Hu|m cs us n id l k c Hu];
    cbn [cells callers next_cell] in *.
  1,2: intros id1 u1 c1; destruct (decide (id1 = id)) as [->|Hne];
    [rewrite lookup_insert_eq; intros [= <-]; by intros []%init_waiting|rewrite lookup_insert_ne by done].
  - by apply Hb.
  - intros H1 I1. pose proof (Hfr _ _ H1) as Hlt. pose proof (Hb _ _ _ H1 I1) as Hc1.
    assert (c1 <> n). { intros ->. destruct I1 as [(? & ? & ->)|(? & ? & ->)]; cbn in Hlt; lia. }
    by rewrite lookup_insert_ne.
  - eapply (busy_after cs _ us id _ _ c); [exact Hb|exact Hu| | |].
    + intros c' Hne. by rewrite lookup_insert_ne.
    + intros c' ->%init_running. by rewrite lookup_insert_eq.
    + right. intros id1 u1 H1 I1. pose proof (Hb _ _ _ H1 I1). congruence.
  - eapply (busy_after cs cs us id _ _ c); [exact Hb|exact Hu|done| |by left].
    intros c' ->%init_publishing. eapply Hb; [exact Hu|]. by apply init_running.
  - eapply (busy_after cs _ us id _ _ c); [exact Hb|exact Hu| |by intros c' []%init_finished|].
    + intros c' Hne. by rewrite lookup_insert_ne.
    + right. intros id1 u1 H1 I1. eapply (busy_unique _ _ _ _ _ c Hi H1 Hu I1). by apply init_publishing.
  - eapply (busy_after cs _ us id _ _ c); [exact Hb|exact Hu| |by intros c' []%init_finished|].
    + intros c' Hne. by rewrite lookup_insert_ne.
    + right. intros id1 u1 H1 I1. eapply (busy_unique _ _ _ _ _ c Hi H1 Hu I1). by apply init_running.
  - eapply (busy_after cs cs us id _ _ c); [exact Hb|exact Hu|done|by intros c' []%init_finished|by left].
  - eapply (busy_after cs cs us id _ _ c); [exact Hb|exact Hu|done|by intros c' []%init_finished|by left].
  - eapply (busy_after cs _ us id _ _ c); [exact Hb|exact Hu| |by intros c' []%init_finished|].
    + intros c' Hne. by rewrite lookup_insert_ne.
    + right. intros id1 u1 H1 I1. eapply (busy_unique _ _ _ _ _ c Hi H1 Hu I1). by apply init_running.
  - eapply (busy_after cs cs us id _ _ c); [exact Hb|exact Hu|done|by intros c' []%init_finished|by left].
  - eapply (busy_after cs _ us id _ _ c); [exact Hb|exact Hu| |by intros c' []%init_finished|].
    + intros c' Hne. by rewrite lookup_insert_ne.
    + right. intros id1 u1 H1 I1. eapply (busy_unique _ _ _ _ _ c Hi H1 Hu I1). by apply init_running.
Qed.

(** A published value is never replaced. *)
Lemma step_full f f' c v :
  invariant f -> step f f' -> c < next_cell f -> cells f !! c = Some (Full v) -> cells f' !! c = Some (Full v).
Proof.
  intros Hi Hs Hlt Hv. pose proof (inv_busy _ Hi) as Hb.
  assert (Hno : forall id u, callers f !! id = Some u -> initializes u c -> False).
  { intros id u H1 I1. pose proof (Hb _ _ _ H1 I1). congruence. }
  destruct Hs as [| |m cs us n id l k c0 Hu Hc|
    |m cs us n id k c0 w Hu|m cs us n id k c0 w Hu| | |m cs us n id k c0 Hu| |m cs us n id l k c0 Hu];
    cbn [cells callers next_cell] in *; try done.
  - rewrite lookup_insert_ne by lia. done.
  - destruct (decide (c0 = c)) as [->|]; [congruence|by rewrite lookup_insert_ne].
  - destruct (decide (c0 = c)) as [->|]; [|by rewrite lookup_insert_ne].
    destruct (Hno _ _ Hu). by apply init_publishing.
  - destruct (decide (c0 = c)) as [->|]; [|by rewrite lookup_insert_ne].
    destruct (Hno _ _ Hu). by apply init_running.
  - destruct (decide (c0 = c)) as [->|]; [|by rewrite lookup_insert_ne].
    destruct (Hno _ _ Hu). by apply init_running.
  - destruct (decide (c0 = c)) as [->|]; [|by rewrite lookup_insert_ne].
    destruct (Hno _ _ Hu). by apply init_running.
Qed.

Lemma step_got f f' : invariant f -> step f f' ->
  forall id c v, callers f' !! id = Some (Finished c (Got v)) -> cells f' !! c = Some (Full v).
Proof.
  intros Hi Hs id c v Hid. pose proof (inv_got _ Hi) as Hg. pose proof (inv_fresh _ Hi) as Hfr.
  assert (Hold : callers f !! id = Some (Finished c (Got v)) -> cells f' !! c = Some (Full v)).
  { intros H1. eapply step_full; [done|done|by apply (Hfr _ _ H1)|by apply (Hg id)]. }
  destruct Hs as [m cs us n i k c0 Hu Hk|m cs us n i k Hu Hk|m cs us n i l k c0 Hu Hc
    |m cs us n i k c0 w Hu|m cs us n i k c0 w Hu|m cs us n i k c0 w Hu|m cs us n i l k c0 w Hu Hc
    |m cs us n i k c0 Hu|m cs us n i k c0 Hu|m cs us n i l k c0 Hu|m cs us n i l k c0 Hu];
    cbn [cells callers] in *;
    (destruct (decide (id = i)) as [->|Hii];
      [rewrite lookup_insert_eq in Hid|rewrite lookup_insert_ne in Hid by done; auto]);
    try done; injection Hid as <- <-; by rewrite ?lookup_insert_eq.
Qed.

Lemma step_fresh f f' : invariant f -> step f f' ->
  (next_cell f <= next_cell f') /\ forall id u, callers f' !! id = Some u -> cell_of u < next_cell f'.
Proof.
  intros Hi Hs. pose proof (inv_fresh _ Hi) as Hfr. pose proof (inv_registered _ Hi) as Hr.
  destruct Hs as [m cs us n i k c0 Hu Hk|m cs us n i k Hu Hk|m cs us n i l k c0 Hu Hc
    |m cs us n i k c0 w Hu|m cs us n i k c0 w Hu|m cs us n i k c0 w Hu|m cs us n i l k c0 w Hu Hc
    |m cs us n i k c0 Hu|m cs us n i k c0 Hu|m cs us n i l k c0 Hu|m cs us n i l k c0 Hu];
    cbn [callers next_cell inflight] in *; (split; [lia|]); intros id1 u1;
    (destruct (decide (id1 = i)) as [->|Hne];
      [rewrite lookup_insert_eq; intros [= <-]|rewrite lookup_insert_ne by done; intros Hx%Hfr; lia]);
    try exact (Hfr _ _ Hu).
  - destruct (Hr _ _ Hk) as (id2 & u2 & Hu2 & [->| ->]); apply Hfr in Hu2; cbn in *; lia.
  - cbn. lia.
Qed.

Lemma flight_step_invariant f f' : invariant f -> step f f' -> invariant f'.
Proof.
  intros Hi Hs. constructor.
  - by eapply step_registered.
  - by eapply step_busy.
  - by eapply step_got.
  - by eapply step_fresh.
Qed.

Lemma flight_invariant f : reachable f -> invariant f.
Proof.
  intros Hr. assert (H0 : invariant flight_new).
  { constructor; cbn; intros *; by rewrite lookup_empty. }
  revert H0. unfold reachable in Hr. induction Hr as [|x y z Hxy _ IH]; [done|].
  intros Hx. apply IH. by eapply flight_step_invariant.
Qed.

(** In every interleaving of joins, leads, polls, timeouts and cancellations, at most
    one caller executes a flight at a time and all callers that receive its outcome
    receive the same value. *)
Lemma callers_share_one_execution f :
  reachable f ->
  (forall id1 u1 id2 u2 c, callers f !! id1 = Some u1 -> callers f !! id2 = Some u2 ->
     initializes u1 c -> initializes u2 c -> id1 = id2) /\
  (forall id1 id2 c v1 v2, callers f !! id1 = Some (Finished c (Got v1)) ->
     callers f !! id2 = Some (Finished c (Got v2)) -> v1 = v2) /\
  (forall k c v, inflight f !! k = Some c -> cells f !! c = Some (Full v) ->
     exists id, callers f !! id = Some (Waiting true k c)).
Proof.
  intros Hr%flight_invariant. split; [|split].
  - intros. by eapply (busy_unique f id1 u1 id2 u2).
  - intros id1 id2 c v1 v2 H1%(inv_got _ Hr) H2%(inv_got _ Hr). congruence.
  - intros k c v Hk Hc. destruct (inv_registered _ Hr k c Hk) as (id & u & Hu & [->| ->]); [eauto|].
    pose proof (inv_busy _ Hr _ _ c Hu ltac:(by apply init_running)). congruence.
Qed.

(** C13: When every caller has finished, timed out or been dropped, the in-flight map is
    empty. *)
Theorem flights_leave_no_entry f :
  reachable f ->
  (forall id u, callers f !! id = Some u -> exists c o, u = Finished c o) ->
  inflight f = ∅.
Proof.
  intros Hr%flight_invariant Hall. apply map_empty. intros k.
  destruct (inflight f !! k) as [c|] eqn:Hk; [|done].
  destruct (inv_registered _ Hr k c Hk) as (id & u & Hu & Hreg).
  destruct (Hall id u Hu) as (c' & o & ->). by destruct Hreg.
Qed.

(** There is an interleaving in which a joiner runs the fetch and publishes while the
    leader's entry is still registered, so that a caller arriving afterwards receives an
    outcome that was already complete. *)
Lemma outcome_published_while_registered (k : K) (v : V) :
  exists f f', reachable f /\ cells f !! 0 = Some (Full v) /\ inflight f !! k = Some 0 /\
    callers f !! 2 = None /\ rtc step f f' /\ callers f' !! 2 = Some (Finished 0 (Got v)).
Proof.
  set (u0 := Waiting true k 0). set (m := <[k := 0]> (∅ : gmap K nat)).
  set (us := <[1 := Finished 0 (Got v)]> (<[1 := Running false k 0]>
               (<[1 := Waiting false k 0]> (<[0 := u0]> (∅ : gmap nat Caller))))).
  set (cs := <[0 := Full v]> (<[0 := Busy 1]> (<[0 := Empty]> (∅ : gmap nat Cell)))).
  exists (mkFlight m cs us 1),
    (mkFlight m cs (<[2 := Finished 0 (Got v)]> (<[2 := Waiting false k 0]> us)) 1).
  split; [|split; [|split; [|split; [|split]]]].
  - unfold reachable, flight_new.
    eapply rtc_l; [apply (step_lead _ _ _ _ 0 k); [done|apply lookup_empty]|].
    eapply rtc_l; [apply (step_join _ _ _ _ 1 k 0); [done|apply lookup_insert_eq]|].
    eapply rtc_l; [apply (step_start _ _ _ _ 1 false k 0); apply lookup_insert_eq|].
    eapply rtc_l; [apply (step_publish_joiner _ _ _ _ 1 k 0 v); apply lookup_insert_eq|].
    apply rtc_refl.
  - apply lookup_insert_eq.
  - apply lookup_insert_eq.
  - done.
  - eapply rtc_l; [apply (step_join _ _ _ _ 2 k 0); [done|apply lookup_insert_eq]|].
    eapply rtc_l; [apply (step_receive _ _ _ _ 2 false k 0 v); apply lookup_insert_eq|].
    apply rtc_refl.
  - apply lookup_insert_eq.
Qed.

End single_flight.

(** A joiner has run the fetch and published while the leader still waits. *)
Definition demo_flight : Flight (K := nat) (V := nat) :=
  mkFlight (<[7 := 0]> ∅) (<[0 := Full 5]> (<[0 := Busy 1]> (<[0 := Empty]> ∅)))
    (<[1 := Finished 0 (Got 5)]> (<[1 := Running false 7 0]>
      (<[1 := Waiting false 7 0]> (<[0 := Waiting true 7 0]> ∅)))) 1.

Lemma demo_flight_reachable : reachable demo_flight.
Proof.
  unfold reachable, flight_new.
  eapply rtc_l; [apply (step_lead _ _ _ _ 0 7); [done|apply lookup_empty]|].
  eapply rtc_l; [apply (step_join _ _ _ _ 1 7 0); [done|apply lookup_insert_eq]|].
  eapply rtc_l; [apply (step_start _ _ _ _ 1 false 7 0); apply lookup_insert_eq|].
  eapply rtc_l; [apply (step_publish_joiner _ _ _ _ 1 7 0 5); apply lookup_insert_eq|].
  apply rtc_refl.
Qed.

Lemma callers_share_one_execution_witness :
  exists id, callers demo_flight !! id = Some (Waiting true 7 0).
Proof.
  exact (proj2 (proj2 (callers_share_one_execution demo_flight demo_flight_reachable)) 7 0 5
           eq_refl eq_refl).
Defined.

(** A flight with a leader and two joiners: the leader's caller is dropped while it
    fetches, one joiner times out, and the other takes over the empty cell, fetches
    and publishes. *)
Definition abandoned : Flight (K := nat) (V := nat) :=
  mkFlight (drop_registration (<[7 := 0]> ∅) true 7 0)
    (<[0 := Full 5]> (<[0 := Busy 1]> (<[0 := Empty]> (<[0 := Busy 0]> (<[0 := Empty]> ∅)))))
    (<[1 := Finished 0 (Got 5)]> (<[1 := Running false 7 0]> (<[2 := Finished 0 TimedOut]>
      (<[0 := Finished 0 Dropped]> (<[0 := Running true 7 0]>
        (<[2 := Waiting false 7 0]> (<[1 := Waiting false 7 0]> (<[0 := Waiting true 7 0]> ∅)))))))) 1.

Lemma abandoned_reachable : reachable abandoned.
Proof.
  unfold reachable, flight_new.
  eapply rtc_l; [apply (step_lead _ _ _ _ 0 7); [done|apply lookup_empty]|].
  eapply rtc_l; [apply (step_join _ _ _ _ 1 7 0); [done|apply lookup_insert_eq]|].
  eapply rtc_l; [apply (step_join _ _ _ _ 2 7 0); [done|apply lookup_insert_eq]|].
  eapply rtc_l; [apply (step_start _ _ _ _ 0 true 7 0); reflexivity|].
  eapply rtc_l; [apply (step_cancel_running _ _ _ _ 0 true 7 0); reflexivity|].
  eapply rtc_l; [apply (step_timeout_waiting _ _ _ _ 2 7 0); reflexivity|].
  eapply rtc_l; [apply (step_start _ _ _ _ 1 false 7 0); reflexivity|].
  eapply rtc_l; [apply (step_publish_joiner _ _ _ _ 1 7 0 5); reflexivity|].
  apply rtc_refl.
Qed.

Lemma abandoned_finished id u : callers abandoned !! id = Some u -> exists c o, u = Finished c o.
Proof.
  unfold abandoned. cbn [callers]. intros Hu.
  repeat (apply lookup_insert_Some in Hu as [[? <-]|[? Hu]]; [first [congruence|by eauto]|]).
  by rewrite lookup_empty in Hu.
Qed.

Lemma flights_leave_no_entry_witness :
  callers abandoned !! 0 = Some (Finished 0 Dropped) /\ callers abandoned !! 1 = Some (Finished 0 (Got 5)) /\
  callers abandoned !! 2 = Some (Finished 0 TimedOut) /\ inflight abandoned = ∅.
Proof.
  split; [reflexivity|]. split; [reflexivity|]. split; [reflexivity|].
  exact (flights_leave_no_entry abandoned abandoned_reachable abandoned_finished).
Defined.
