(* ===== verification/ResponseCache.v ===== *)
(** Response storage ([response_cache.rs]).

    The memory backend is a map of shared handles with a byte total.  A read
    takes its handle in one critical section and evicts in another, so the
    cache is a step relation in which puts and evictions of handles read
    earlier interleave.  The JSON codec and Redis are parameters. *)
From Stdlib Require Import ZArith Lia Ascii String List Bool.
From stdpp Require Import base list strings decidable gmap relations.
From S2P Require Import Prelude BTree Errors Regions Http.

Local Open Scope Z_scope.

(** ** Configuration *)
Inductive Route : Type := Announcements | Announcement | EventRankings | SongRankings | ChallengeRankings.
#[export] Instance Route_eq_dec : EqDecision Route.
Proof. solve_decision. Defined.

Definition from_rpc (route : string) : option Route :=
  if String.eqb route ANNOUNCEMENTS then Some Announcements
  else if String.eqb route ANNOUNCEMENT then Some Announcement
  else if String.eqb route EVENT_RANKING then Some EventRankings
  else if String.eqb route MUSIC_RANKING then Some SongRankings
  else if String.eqb route CHALLENGE_RANKING then Some ChallengeRankings
  else None.

Definition route_map := list (Route * Z).
Definition route_get (r : Route) (m : route_map) : option Z :=
  option_map snd (List.find (fun kv => bool_decide (fst kv = r)) m).

Inductive Config : Type :=
| Disabled
| Memory (ttl_ms stale_ms : Z) (route_ttl_ms : route_map) (max_entries max_bytes max_entry_bytes : Z)
| Redis (url_env namespace : string) (ttl_ms stale_ms : Z) (route_ttl_ms : route_map)
        (max_entry_bytes operation_timeout_ms : Z).

Definition config_valid (c : Config) : bool :=
  match c with
  | Disabled => true
  | Memory ttl stale routes max_entries max_bytes max_entry =>
      in_range 1 300000 ttl && (stale <=? 300000) && forallb (fun kv => snd kv <=? 300000) routes
      && in_range 1 100000 max_entries && in_range 1024 (1024 * 1024 * 1024) max_bytes
      && in_range 256 (8 * 1024 * 1024) max_entry && (max_entry <=? max_bytes)
  | Redis url_env namespace ttl stale routes max_entry timeout =>
      negb (is_empty url_env) && negb (is_empty namespace) && (len namespace <=? 64)
      && all_bytes (fun b => is_ascii_alphanumeric b || char_is 95 b || char_is 45 b) namespace
      && (stale <=? 300000) && forallb (fun kv => snd kv <=? 300000) routes
      && in_range 1 300000 ttl && in_range 256 (8 * 1024 * 1024) max_entry && in_range 1 2000 timeout
  end.

Definition validate (c : Config) : result AppError unit :=
  if config_valid c then Ok tt else Err (Errors.Config "invalid response cache configuration").

Definition ttl (c : Config) (rpc : string) : option Z :=
  match from_rpc rpc with
  | None => None
  | Some route =>
      match c with
      | Disabled => None
      | Memory t _ routes _ _ _ | Redis _ _ t _ routes _ _ =>
          let v := default t (route_get route routes) in
          if 0 <? v then Some v else None
      end
  end.

Definition stale_window (c : Config) : Z :=
  match c with
  | Disabled => 0
  | Memory _ s _ _ _ _ | Redis _ _ _ s _ _ _ => s
  end.

Definition entry_limit (c : Config) : option (Z * Z) :=
  match c with
  | Disabled => None
  | Memory t _ _ _ _ limit | Redis _ _ t _ _ limit _ => Some (t, limit)
  end.

(** Stripe of a key: [usize] is 64 bits wide. *)
Definition key_hash (key : string) : Z :=
  fold_left (fun h b => (h * 31 + b) mod 18446744073709551616) (bytes_of key) 0.
Definition stripe (key : string) : Z := key_hash key mod 64.

(** ** Entries *)
Record Entry : Type := { expires_ms : Z; retain_ms : Z; value : json }.
Record Cached : Type := { cached_value : json; stale : bool }.

(** A handle: the identity of the shared allocation and its bytes. *)
Record Handle : Type := { ptr : nat; data : list Z }.

Record Mem : Type := { entries : bmap Handle; bytes : Z }.
Definition mem_empty : Mem := {| entries := []; bytes := 0 |}.

Section cache.
Context (entry_to_vec : Entry -> option (list Z)) (entry_from_slice : list Z -> option Entry).

Definition decode (b : list Z) (limit : option Z) (now : Z) : option Cached :=
  if some_and limit (fun limit => limit <? llen b) then None
  else match entry_from_slice b with
       | None => None
       | Some e =>
           if now <? Z.max (retain_ms e) (expires_ms e)
           then Some {| cached_value := value e; stale := expires_ms e <=? now |}
           else None
       end.

(** First critical section of a read. *)
Definition mem_read (m : Mem) (key : string) : option Handle := get key (entries m).

(** Second critical section: drop a hard-expired entry unless it was replaced. *)
Definition mem_evict (m : Mem) (key : string) (h : Handle) : Mem :=
  match get key (entries m) with
  | Some current =>
      if (ptr current =? ptr h)%nat
      then {| entries := remove key (entries m); bytes := bytes m - llen (data h) |}
      else m
  | None => m
  end.

(** The eviction loop of a put: [pop_first] until the new entry fits. *)
Fixpoint make_room (es : bmap Handle) (total need max_entries max_bytes : Z) : Mem :=
  if (max_entries <=? size es) || (max_bytes <? total + need) then
    match es with
    | [] => {| entries := []; bytes := total |}
    | (_, removed) :: es => make_room es (total - llen (data removed)) need max_entries max_bytes
    end
  else {| entries := es; bytes := total |}.

Definition mem_put (m : Mem) (key : string) (h : Handle) (max_entries max_bytes : Z) : Mem :=
  let m := match get key (entries m) with
           | Some old => {| entries := remove key (entries m); bytes := bytes m - llen (data old) |}
           | None => m
           end in
  let m := make_room (entries m) (bytes m) (llen (data h)) max_entries max_bytes in
  {| entries := BTree.insert key h (entries m); bytes := bytes m + llen (data h) |}.

(** The serialized entry of a put, if it may be stored. *)
Definition put_bytes (c : Config) (v : json) (override_ttl : option Z) (now : Z) : option (list Z) :=
  match entry_limit c with
  | None => None
  | Some (t, limit) =>
      let t := default t override_ttl in
      let expires := sat_add U64_MAX now t in
      match entry_to_vec {| expires_ms := expires;
                            retain_ms := sat_add U64_MAX expires (stale_window c);
                            value := v |} with
      | None => None
      | Some b => if limit <? llen b then None else Some b
      end
  end.

(** [put_with_ttl] on the memory backend; [p] is the new allocation. *)
Definition put_with_ttl (c : Config) (m : Mem) (key : string) (v : json) (override_ttl : option Z)
  (now : Z) (p : nat) : Mem :=
  match c, put_bytes c v override_ttl now with
  | Memory _ _ _ max_entries max_bytes _, Some b =>
      mem_put m key {| ptr := p; data := b |} max_entries max_bytes
  | _, _ => m
  end.

Definition put_route (c : Config) (m : Mem) (rpc key : string) (v : json) (now : Z) (p : nat) : Mem :=
  match ttl c rpc with
  | Some t => put_with_ttl c m key v (Some t) now p
  | None => m
  end.

(** [get_with_state] on the memory backend when nothing runs in between. *)
Definition get_with_state (m : Mem) (key : string) (now : Z) : option Cached * Mem :=
  match mem_read m key with
  | None => (None, m)
  | Some h => match decode (data h) None now with
              | Some c => (Some c, m)
              | None => (None, mem_evict m key h)
              end
  end.

Definition get_value (m : Mem) (key : string) (now : Z) : option json :=
  match fst (get_with_state m key now) with
  | Some c => if stale c then None else Some (cached_value c)
  | None => None
  end.

(** [put_with_ttl] on the Redis backend: the key, value and expiry of the [SET]. *)
Definition put_redis (c : Config) (key : string) (v : json) (override_ttl : option Z) (now : Z) :
  option (string * list Z * Z) :=
  match c, put_bytes c v override_ttl now with
  | Redis _ namespace t _ _ _ _, Some b =>
      Some ((namespace ++ ":" ++ key)%string, b, sat_add U64_MAX (default t override_ttl) (stale_window c))
  | _, _ => None
  end.

(** [get_with_state] on the Redis backend; [getrange] answers one bounded read. *)
Definition get_redis (c : Config) (getrange : string -> Z -> option (list Z)) (key : string) (now : Z) :
  option Cached :=
  match c with
  | Redis _ namespace _ _ _ max_entry_bytes _ =>
      match getrange (namespace ++ ":" ++ key)%string max_entry_bytes with
      | Some b => decode b (Some max_entry_bytes) now
      | None => None
      end
  | _ => None
  end.

(** ** Redis reads

    [getrange] answers one pipelined chunk of keys, [None] on an error or a
    timeout. *)
Definition ANY_CHUNK : nat := 4.

Fixpoint key_chunks (fuel : nat) (keys : list string) : list (list string) :=
  match fuel with
  | O => []
  | S fuel => match keys with
              | [] => []
              | _ => take ANY_CHUNK keys :: key_chunks fuel (drop ANY_CHUNK keys)
              end
  end.

Fixpoint find_map {A B} (f : A -> option B) (l : list A) : option B :=
  match l with
  | [] => None
  | a :: l => match f a with Some b => Some b | None => find_map f l end
  end.

Fixpoint get_any_chunks (getrange : list string -> option (list (list Z))) (limit now : Z)
  (chunks : list (list string)) : option Cached :=
  match chunks with
  | [] => None
  | c :: chunks =>
      match getrange c with
      | None => None
      | Some values =>
          match find_map (fun b => decode b (Some limit) now) values with
          | Some cached => Some cached
          | None => get_any_chunks getrange limit now chunks
          end
      end
  end.

Definition get_any_redis (getrange : list string -> option (list (list Z))) (limit now : Z)
  (keys : list string) : option Cached :=
  get_any_chunks getrange limit now (key_chunks (length keys) keys).

(** The memory backend reads the keys one by one. *)
Fixpoint get_any_memory (m : Mem) (now : Z) (keys : list string) : option Cached * Mem :=
  match keys with
  | [] => (None, m)
  | k :: keys => match get_with_state m k now with
                 | (Some c, m) => (Some c, m)
                 | (None, m) => get_any_memory m now keys
                 end
  end.

End cache.

(** * The memory backend under interleaving *)

Definition total (es : bmap Handle) : Z := fold_right (fun kv acc => llen (data (snd kv)) + acc) 0 es.

(** [held] are the handles that readers took and may still evict; [heap] is
    what each allocation holds. *)
Record Sys : Type := mkSys {
  mem : Mem;
  held : list (string * Handle);
  heap : gmap nat (list Z);
}.
Definition sys_empty : Sys := mkSys mem_empty [] ∅.

Section system.
Context (entry_to_vec : Entry -> option (list Z)) (entry_from_slice : list Z -> option Entry).
Context (ttl_ms stale_ms : Z) (routes : route_map) (max_entries max_bytes max_entry_bytes : Z).
Let c : Config := Memory ttl_ms stale_ms routes max_entries max_bytes max_entry_bytes.
Hypothesis valid : validate c = Ok tt.

(** Lock-delimited steps of the readers and writers of one cache: a reader
    takes a handle; a reader whose handle did not decode evicts it; a writer
    stores a new allocation. *)
Inductive step : Sys -> Sys -> Prop :=
| step_read m held heap key h :
    mem_read m key = Some h -> step (mkSys m held heap) (mkSys m ((key, h) :: held) heap)
| step_evict m held heap key h now :
    In (key, h) held -> decode entry_from_slice (data h) None now = None ->
    step (mkSys m held heap) (mkSys (mem_evict m key h) held heap)
| step_put m held heap key v o now p b :
    heap !! p = None -> put_bytes entry_to_vec c v o now = Some b ->
    step (mkSys m held heap)
         (mkSys (put_with_ttl entry_to_vec c m key v o now p) held (<[p := b]> heap)).

Definition reachable (y : Sys) : Prop := rtc step sys_empty y.

Record mem_ok (m : Mem) : Prop := {
  ok_sorted : sorted (entries m);
  ok_bytes : bytes m = total (entries m);
  ok_count : size (entries m) <= max_entries;
  ok_total : total (entries m) <= max_bytes;
  ok_each : Forall (fun kv => llen (data (snd kv)) <= max_entry_bytes) (entries m);
}.

Record sys_ok (y : Sys) : Prop := {
  sys_mem : mem_ok (mem y);
  sys_entries : Forall (fun kv => heap y !! ptr (snd kv) = Some (data (snd kv))) (entries (mem y));
  sys_held : Forall (fun kv => heap y !! ptr (snd kv) = Some (data (snd kv))) (held y);
}.

Lemma valid_bounds : 1 <= max_entries /\ 0 <= max_entry_bytes /\ max_entry_bytes <= max_bytes.
Proof using valid.
  unfold validate in valid. destruct (config_valid c) eqn:E; [|done]. cbn in E.
  unfold in_range in E. bool_prop. lia.
Qed.

Lemma put_bytes_bound v o now b : put_bytes entry_to_vec c v o now = Some b -> llen b <= max_entry_bytes.
Proof.
  unfold put_bytes, entry_limit, c. destruct (entry_to_vec _) as [b'|]; [|done].
  destruct (Z.ltb_spec max_entry_bytes (llen b')); [done|]. intros [= <-]. lia.
Qed.

Lemma put_with_ttl_stores m key v o now p b :
  put_bytes entry_to_vec c v o now = Some b ->
  put_with_ttl entry_to_vec c m key v o now p = mem_put m key {| ptr := p; data := b |} max_entries max_bytes.
Proof. intros H. unfold put_with_ttl, c in *. by rewrite H. Qed.

Lemma total_cons k h es : total ((k, h) :: es) = llen (data h) + total es.
Proof. done. Qed.

Lemma total_nonneg es : 0 <= total es.
Proof.
  induction es as [|[k h] es IH]; [done|]. rewrite total_cons. pose proof (llen_nonneg (data h)). lia.
Qed.

Lemma total_remove k h es : get k es = Some h -> total (remove k es) = total es - llen (data h).
Proof.
  induction es as [|[k' h'] es IH]; cbn [get remove]; [done|]. rewrite total_cons.
  destruct (String.eqb k k').
  - intros [= ->]. lia.
  - intros H%IH. rewrite total_cons. lia.
Qed.

Lemma total_insert k h es : sorted es -> get k es = None -> total (BTree.insert k h es) = total es + llen (data h).
Proof.
  induction es as [|[k' h'] es IH]; cbn [get BTree.insert]; [intros; rewrite total_cons; lia|].
  intros [Hk Hs]%sorted_cons. destruct (String.eqb_spec k k') as [->|Hne]; [done|]. intros Hg.
  destruct (String.compare k k') eqn:E; rewrite ?total_cons; [|lia|rewrite IH by done; lia].
  apply String.compare_eq_iff in E. congruence.
Qed.

Lemma forall_remove (P : string * Handle -> Prop) k es : Forall P es -> Forall P (remove k es).
Proof.
  induction 1 as [|[k' h'] es Hp Hf IH]; cbn; [constructor|]. destruct (String.eqb k k'); auto.
Qed.

Lemma forall_insert (P : string * Handle -> Prop) k h es :
  P (k, h) -> Forall P es -> Forall P (BTree.insert k h es).
Proof.
  intros Hp. induction 1 as [|[k' h'] es Hp' Hf IH]; cbn; [auto|].
  destruct (String.compare k k'); auto.
Qed.

Lemma make_room_spec es need :
  sorted es -> need <= max_bytes ->
  let m := make_room es (total es) need max_entries max_bytes in
  (exists dropped, es = dropped ++ entries m) /\ sorted (entries m) /\ bytes m = total (entries m) /\
  size (entries m) < max_entries /\ bytes m + need <= max_bytes.
Proof.
  pose proof valid_bounds as HV. intros Hs Hn. induction es as [|[k h] es IH]; cbn [make_room].
  - replace ((max_entries <=? size []) || (max_bytes <? total [] + need)) with false.
    + cbn. split; [by exists []|]. split; [apply sorted_nil|]. split; [done|]. unfold size. cbn. lia.
    + symmetry. apply orb_false_iff. unfold size, total. cbn [length fold_right].
      split; [apply Z.leb_gt|apply Z.ltb_ge]; lia.
  - destruct ((max_entries <=? size ((k, h) :: es)) || (max_bytes <? total ((k, h) :: es) + need)) eqn:E.
    + apply sorted_cons in Hs as [_ Hs].
      replace (total ((k, h) :: es) - llen (data h)) with (total es) by (rewrite total_cons; lia).
      destruct (IH Hs) as ((d & Ed) & H). split; [|done]. exists ((k, h) :: d). cbn. by rewrite <- Ed.
    + bool_prop. split; [by exists []|]. split; [done|]. split; [done|]. cbn [entries bytes]. lia.
Qed.

Lemma get_dropped k (d es : bmap Handle) : sorted (d ++ es) -> get k (d ++ es) = None -> get k es = None.
Proof.
  induction d as [|[k' h'] d IH]; [done|]. cbn. intros [_ Hs]%sorted_cons.
  destruct (String.eqb k k'); [done|auto].
Qed.

Lemma mem_evict_ok m key h :
  mem_ok m -> (forall cur, get key (entries m) = Some cur -> ptr cur = ptr h -> data cur = data h) ->
  mem_ok (mem_evict m key h).
Proof.
  intros [H1 H2 H3 H4 H5] Hd. unfold mem_evict. destruct (get key (entries m)) as [cur|] eqn:Hg; [|by constructor].
  destruct (Nat.eqb_spec (ptr cur) (ptr h)) as [E|]; [|by constructor].
  pose proof (total_remove _ _ _ Hg) as Ht. rewrite <- (Hd cur eq_refl E).
  pose proof (llen_nonneg (data cur)). constructor; cbn [entries bytes]; auto using remove_sorted, forall_remove; [lia| |lia].
  rewrite size_remove. destruct (contains_key key (entries m)); lia.
Qed.

Lemma mem_put_ok m key h :
  mem_ok m -> llen (data h) <= max_entry_bytes ->
  mem_ok (mem_put m key h max_entries max_bytes) /\
  get key (entries (mem_put m key h max_entries max_bytes)) = Some h /\
  (forall P, P (key, h) -> Forall P (entries m) -> Forall P (entries (mem_put m key h max_entries max_bytes))).
Proof.
  pose proof valid_bounds as HV. intros [H1 H2 H3 H4 H5] Hh. unfold mem_put.
  set (m1 := match get key (entries m) with Some old => _ | None => m end).
  assert (Hm1 : sorted (entries m1) /\ bytes m1 = total (entries m1) /\ get key (entries m1) = None /\
                (forall P, Forall P (entries m) -> Forall P (entries m1))).
  { unfold m1. destruct (get key (entries m)) as [old|] eqn:Hg; [|done]. cbn [entries bytes].
    rewrite (total_remove _ _ _ Hg), get_remove, String.eqb_refl by done.
    split; [by apply remove_sorted|]. split; [lia|]. split; [done|]. intros. by apply forall_remove. }
  destruct Hm1 as (S1 & B1 & G1 & F1). rewrite B1.
  destruct (make_room_spec (entries m1) (llen (data h)) S1 ltac:(lia)) as ((d & Ed) & S2 & B2 & C2 & T2).
  set (m2 := make_room _ _ _ _ _) in *.
  assert (G2 : get key (entries m2) = None) by (rewrite Ed in G1, S1; by eapply get_dropped).
  assert (F2 : forall P, Forall P (entries m) -> Forall P (entries m2)).
  { intros P HP%F1. rewrite Ed in HP. apply Forall_app in HP. tauto. }
  cbn [entries bytes]. split; [constructor; cbn [entries bytes]|split].
  - by apply insert_sorted.
  - rewrite total_insert by done. lia.
  - rewrite size_insert by done. unfold contains_key. rewrite G2. lia.
  - rewrite total_insert by done. lia.
  - apply forall_insert; [done|]. by apply F2.
  - rewrite get_insert by done. by rewrite String.eqb_refl.
  - intros P Hp HP. apply forall_insert; [done|]. by apply F2.
Qed.

Lemma step_ok y y' : sys_ok y -> step y y' -> sys_ok y'.
Proof.
  intros [Hm He Hh] Hs. destruct Hs as [m hd hp key h Hr|m hd hp key h now Hin Hn|m hd hp key v o now p b Hp Hb];
    cbn [mem held heap] in *.
  - constructor; cbn; auto. constructor; [|done]. unfold mem_read in Hr.
    apply get_In in Hr; [|apply Hm]. rewrite List.Forall_forall in He. by apply (He (key, h)).
  - assert (Hcons : forall cur, get key (entries m) = Some cur -> ptr cur = ptr h -> data cur = data h).
    { intros cur Hc E. apply get_In in Hc; [|apply Hm]. rewrite List.Forall_forall in He, Hh.
      apply He in Hc. apply Hh in Hin. cbn in *. rewrite E in Hc. congruence. }
    constructor; cbn; auto; [by apply mem_evict_ok|].
    unfold mem_evict. destruct (get key (entries m)); [|done]. destruct (_ =? _)%nat; [|done].
    by apply forall_remove.
  - assert (Hgrow : forall kv : string * Handle, hp !! ptr kv.2 = Some (data kv.2) ->
                    <[p := b]> hp !! ptr kv.2 = Some (data kv.2)).
    { intros kv H. rewrite lookup_insert_ne; congruence. }
    rewrite (put_with_ttl_stores _ _ _ _ _ _ _ Hb).
    destruct (mem_put_ok m key {| ptr := p; data := b |} Hm (put_bytes_bound _ _ _ _ Hb)) as (Hok & _ & HF).
    constructor; cbn; auto.
    + apply HF; [cbn; apply lookup_insert_eq|]. eapply Forall_impl; [exact He|auto].
    + eapply Forall_impl; [exact Hh|auto].
Qed.

Lemma reachable_ok y : reachable y -> sys_ok y.
Proof.
  assert (H0 : sys_ok sys_empty).
  { pose proof valid_bounds. constructor; [constructor| |]; try constructor; unfold size, total; cbn; lia. }
  intros Hr. revert H0. unfold reachable in Hr. induction Hr as [|x z t Hxz _ IH]; [done|].
  intros Hx. apply IH. by eapply step_ok.
Qed.

(** C12: Under every interleaving of reads, evictions and puts with a validated
    configuration, the byte total is the sum of the stored lengths (so no subtraction
    underflows), at most max_bytes, with at most max_entries entries of at most
    max_entry_bytes each. *)
Theorem cache_bounds y :
  reachable y ->
  bytes (mem y) = total (entries (mem y)) /\ 0 <= bytes (mem y) <= max_bytes /\
  size (entries (mem y)) <= max_entries /\
  (forall key h, mem_read (mem y) key = Some h -> llen (data h) <= max_entry_bytes).
Proof.
  intros [[H1 H2 H3 H4 H5] _ _]%reachable_ok. pose proof (total_nonneg (entries (mem y))).
  split; [done|]. split; [lia|]. split; [done|]. intros key h Hr. unfold mem_read in Hr.
  apply get_In in Hr; [|done]. rewrite List.Forall_forall in H5. by apply (H5 (key, h)).
Qed.

(** The eviction of a handle that no longer decodes never removes an entry that is
    still retained, even when a newer fill replaced it between the read and the
    eviction. *)
Lemma evict_keeps_retained y y' now key h :
  reachable y -> In (key, h) (held y) -> decode entry_from_slice (data h) None now = None ->
  y' = mkSys (mem_evict (mem y) key h) (held y) (heap y) ->
  reachable y' /\
  forall k cur cached, mem_read (mem y) k = Some cur -> decode entry_from_slice (data cur) None now = Some cached ->
    mem_read (mem y') k = Some cur.
Proof.
  intros Hr Hin Hd ->. split.
  { eapply rtc_r; [exact Hr|]. destruct y. by econstructor. }
  intros k cur cached Hk Hc. apply reachable_ok in Hr as [Hm He Hh]. unfold mem_read, mem_evict in *. cbn.
  destruct (get key (entries (mem y))) as [cur'|] eqn:Hg; [|done].
  destruct (Nat.eqb_spec (ptr cur') (ptr h)) as [E|]; [|done]. cbn.
  rewrite get_remove by apply Hm. destruct (String.eqb_spec k key) as [->|]; [|done].
  rewrite Hk in Hg. simplify_eq. exfalso. apply get_In in Hk; [|apply Hm].
  rewrite List.Forall_forall in He, Hh. apply He in Hk. apply Hh in Hin. cbn [snd] in Hk, Hin.
  rewrite E, Hin in Hk. injection Hk as Hk. by rewrite <- Hk, Hd in Hc.
Qed.

(** A stored value is read back fresh until its ttl passes, stale until the stale
    window passes, and is then dropped by the read. *)
Lemma put_then_get y key v o now p b t :
  reachable y -> put_bytes entry_to_vec c v o now = Some b ->
  (forall e, entry_to_vec e = Some b -> entry_from_slice b = Some e) ->
  let expires := sat_add U64_MAX now (default ttl_ms o) in
  let retain := sat_add U64_MAX expires stale_ms in
  let m := put_with_ttl entry_to_vec c (mem y) key v o now p in
  get_with_state entry_from_slice m key t =
    (if t <? expires then (Some {| cached_value := v; stale := false |}, m)
     else if t <? Z.max retain expires then (Some {| cached_value := v; stale := true |}, m)
     else (None, mem_evict m key {| ptr := p; data := b |})) /\
  mem_read (mem_evict m key {| ptr := p; data := b |}) key = None.
Proof.
  intros Hr%reachable_ok Hb Hcodec expires retain m.
  destruct (mem_put_ok (mem y) key {| ptr := p; data := b |} (sys_mem _ Hr) (put_bytes_bound _ _ _ _ Hb)) as (Hok & Hg & _).
  assert (Em : m = mem_put (mem y) key {| ptr := p; data := b |} max_entries max_bytes).
  { by apply put_with_ttl_stores. }
  rewrite <- Em in Hok, Hg. clearbody m.
  assert (He : entry_from_slice b = Some {| expires_ms := expires; retain_ms := retain; value := v |}).
  { apply Hcodec.
    change (match entry_to_vec {| expires_ms := expires; retain_ms := retain; value := v |} with
            | None => None | Some b => if max_entry_bytes <? llen b then None else Some b end = Some b) in Hb.
    revert Hb. destruct (entry_to_vec _) as [x|]; [|done]. destruct (max_entry_bytes <? llen x); congruence. }
  split.
  - unfold get_with_state, mem_read. rewrite Hg. unfold decode. cbn [data some_and]. rewrite He. cbn.
    destruct (Z.ltb_spec t expires).
    + destruct (Z.ltb_spec t (Z.max retain expires)); [|lia]. by destruct (Z.leb_spec expires t); [lia|].
    + destruct (Z.ltb_spec t (Z.max retain expires)); [|done]. by destruct (Z.leb_spec expires t); [|lia].
  - unfold mem_read, mem_evict. rewrite Hg. cbn. rewrite Nat.eqb_refl. cbn.
    rewrite get_remove by apply Hok. by rewrite String.eqb_refl.
Qed.

Lemma find_map_app {A B} (f : A -> option B) l1 l2 :
  find_map f (l1 ++ l2) = match find_map f l1 with Some b => Some b | None => find_map f l2 end.
Proof. induction l1 as [|x l1 IH]; [done|]. cbn. by destruct (f x). Qed.

Lemma find_map_map {A B C} (f : B -> option C) (g : A -> B) l : find_map f (map g l) = find_map (fun x => f (g x)) l.
Proof. induction l as [|x l IH]; [done|]. cbn. by rewrite IH. Qed.

Lemma find_map_ext {A B} (f g : A -> option B) l : (forall x, f x = g x) -> find_map f l = find_map g l.
Proof. intros H. induction l as [|x l IH]; [done|]. cbn. by rewrite H, IH. Qed.

Lemma key_chunks_spec fuel keys :
  (length keys <= fuel)%nat ->
  concat (key_chunks fuel keys) = keys /\
  Forall (fun ch => (1 <= length ch <= ANY_CHUNK)%nat) (key_chunks fuel keys).
Proof.
  revert keys. induction fuel as [|fuel IH]; intros keys Hl; [destruct keys; cbn in *; [done|lia]|].
  destruct keys as [|k keys]; [done|]. cbn [key_chunks concat].
  destruct (IH (drop ANY_CHUNK (k :: keys))) as [Hc Hf].
  { rewrite length_drop. unfold ANY_CHUNK. cbn in *. lia. }
  rewrite Hc, take_drop. split; [done|]. constructor; [|done]. rewrite length_take. unfold ANY_CHUNK. cbn [length]. lia.
Qed.

Lemma get_any_chunks_concat getrange store limit now chunks :
  (forall ks, In ks chunks -> getrange ks = Some (map store ks)) ->
  get_any_chunks entry_from_slice getrange limit now chunks =
  find_map (fun k => decode entry_from_slice (store k) (Some limit) now) (concat chunks).
Proof.
  induction chunks as [|ch chunks IH]; intros H; [done|]. cbn. rewrite H by (by left).
  rewrite find_map_map, find_map_app. destruct (find_map _ ch); [done|]. apply IH. intros. apply H. by right.
Qed.

(** What a read of one key sees in memory. *)
Definition retained (now : Z) (es : bmap Handle) (k : string) : option Cached :=
  match get k es with Some h => decode entry_from_slice (data h) None now | None => None end.

Lemma get_with_state_spec m key now :
  sorted (entries m) ->
  fst (get_with_state entry_from_slice m key now) = retained now (entries m) key /\
  sorted (entries (snd (get_with_state entry_from_slice m key now))) /\
  forall k, retained now (entries (snd (get_with_state entry_from_slice m key now))) k = retained now (entries m) k.
Proof.
  intros Hs. unfold get_with_state, mem_read, retained at 1. destruct (get key (entries m)) as [h|] eqn:Hg; [|done].
  destruct (decode _ (data h) None now) eqn:Hd; [done|]. split; [done|]. cbn. unfold mem_evict. rewrite Hg, Nat.eqb_refl.
  cbn. split; [by apply remove_sorted|]. intros k. unfold retained. rewrite get_remove by done.
  destruct (String.eqb_spec k key) as [->|]; [|done]. by rewrite Hg, Hd.
Qed.

Lemma get_any_memory_spec m now keys :
  sorted (entries m) -> fst (get_any_memory entry_from_slice m now keys) = find_map (retained now (entries m)) keys.
Proof.
  revert m. induction keys as [|k keys IH]; intros m Hs; [done|]. cbn.
  destruct (get_with_state_spec m k now Hs) as (H1 & H2 & H3).
  destruct (get_with_state _ m k now) as [[x|] m'] eqn:E; cbn in *; rewrite <- H1; [done|].
  rewrite IH by done. by apply find_map_ext.
Qed.

(** The chunked Redis reads and the key-by-key memory reads both return the first
    retained entry in key order, whatever the chunk boundaries and the evictions on the
    way. *)
Lemma first_retained_entry y getrange store limit now keys :
  reachable y -> (forall ks, (1 <= length ks <= ANY_CHUNK)%nat -> getrange ks = Some (map store ks)) ->
  get_any_redis entry_from_slice getrange limit now keys =
    find_map (fun k => decode entry_from_slice (store k) (Some limit) now) keys /\
  fst (get_any_memory entry_from_slice (mem y) now keys) = find_map (retained now (entries (mem y))) keys.
Proof.
  intros Hr%reachable_ok Hg. destruct (key_chunks_spec (length keys) keys) as [Hc Hf]; [lia|]. split.
  - unfold get_any_redis. rewrite (get_any_chunks_concat _ store); [by rewrite Hc|].
    intros ks Hin. rewrite List.Forall_forall in Hf. auto.
  - apply get_any_memory_spec, Hr.
Qed.

End system.

(** * Witnesses *)
Module CacheDemo.

Definition to_vec (e : Entry) : option (list Z) :=
  match value e with JNull => Some [expires_ms e; retain_ms e] | _ => None end.
Definition from_slice (b : list Z) : option Entry :=
  match b with [x; r] => Some {| expires_ms := x; retain_ms := r; value := JNull |} | _ => None end.
Definition store (k : string) : list Z := if String.eqb k "b" then [100; 200] else [].

Definition put_one (m : Mem) (k : string) (now : Z) (p : nat) : Mem :=
  put_with_ttl to_vec (Memory 10 5 [] 2 1024 256) m k JNull None now p.
Definition y1 : Sys := mkSys (put_one mem_empty "a" 0 0) [] {[ 0%nat := [10; 15] ]}.
Definition y2 : Sys := mkSys (mem y1) [("a"%string, {| ptr := 0; data := [10; 15] |})] (heap y1).

Lemma y1_reachable : reachable to_vec from_slice 10 5 [] 2 1024 256 y1.
Proof. eapply rtc_l; [|apply rtc_refl]. by apply (step_put to_vec from_slice 10 5 [] 2 1024 256 mem_empty [] ∅ "a" JNull None 0 0 [10; 15]). Qed.

Lemma y2_reachable : reachable to_vec from_slice 10 5 [] 2 1024 256 y2.
Proof. eapply rtc_r; [apply y1_reachable|]. by apply step_read. Qed.

Lemma cache_bounds_witness : bytes (mem y1) = 2 /\ bytes (mem y1) <= 1024.
Proof.
  split; [reflexivity|].
  by destruct (cache_bounds to_vec from_slice 10 5 [] 2 1024 256 eq_refl y1 y1_reachable) as (_ & [_ H] & _).
Defined.

Lemma evict_keeps_retained_witness :
  reachable to_vec from_slice 10 5 [] 2 1024 256
    (mkSys (mem_evict (mem y2) "a" {| ptr := 0; data := [10; 15] |}) (held y2) (heap y2)).
Proof.
  eapply (evict_keeps_retained to_vec from_slice 10 5 [] 2 1024 256 eq_refl y2 _ 15 "a");
    [apply y2_reachable|by left|reflexivity|reflexivity].
Defined.

Lemma put_then_get_witness :
  fst (get_with_state from_slice (put_one (mem y1) "b" 20 1) "b" 31) = Some {| cached_value := JNull; stale := true |}.
Proof.
  destruct (put_then_get to_vec from_slice 10 5 [] 2 1024 256 eq_refl y1 "b" JNull None 20 1 [30; 35] 31 y1_reachable
              eq_refl) as [H _].
  - intros [x r v]. unfold to_vec. cbn. destruct v; try done. by intros [= -> ->].
  - unfold put_one. by rewrite H.
Defined.

Lemma first_retained_entry_witness :
  get_any_redis from_slice (fun ks => Some (map store ks)) 256 50 ["a"; "c"; "d"; "e"; "b"] =
    Some {| cached_value := JNull; stale := false |}.
Proof.
  destruct (first_retained_entry to_vec from_slice 10 5 [] 2 1024 256 eq_refl y1 (fun ks => Some (map store ks))
              store 256 50 ["a"; "c"; "d"; "e"; "b"] y1_reachable (fun _ _ => eq_refl)) as [H _].
  by rewrite H.
Defined.

End CacheDemo.
