(* ===== verification/Peer.v ===== *)
(** Peer reads: the executor's route and the caller's transport ([peer.rs],
    [peer_transport.rs]).

    [query] is the handler an executor runs, [call] the single attempt of a
    caller.  The game client behind the handler is the interface [PeerGame]; the
    network between the two is [delivery].  URL, UUID and semver parsers and the
    JSON codec are parameters. *)
From Stdlib Require Import ZArith Lia Ascii String List Bool.
From stdpp Require Import base list strings decidable gmap.
From S2P Require Import Prelude Errors Regions Http AssetJobs.

Local Open Scope Z_scope.

(** ** Messages *)
Record Identity : Type := {
  contract_version : Z;
  id_region : Region;
  environment : string;
  platform : Platform;
  client_version : string;
  protocol_sha256 : string;
}.
#[export] Instance Identity_eq_dec : EqDecision Identity.
Proof. solve_decision. Defined.

Inductive Operation : Type :=
| OVersion
| OServers
| OAnnouncements (tab : Z)
| OAnnouncement (id : Z)
| OProfile (profile_id : Z)
| OEventRanking (event_id : Z) (ranks : list Z)
| OEventDeck (event_id : Z) (player_id : string)
| OMusicRanking (music_id : Z)
| OChallengeRanking (challenge_music_id : Z).

Record Request : Type := { request_id : string; identity : Identity; operation : Operation }.

(** What the client last saw of the game; times are milliseconds. *)
Record Observation : Type := {
  observed_at : option Z;
  grpc_status : option Z;
  application_code : option string;
  server_time : option string;
  maintenance : bool;
  master_version : option string;
  resource_version : option string;
}.
Definition Observation_default : Observation :=
  {| observed_at := None; grpc_status := None; application_code := None; server_time := None;
     maintenance := false; master_version := None; resource_version := None |}.
Definition with_maintenance (o : Observation) (m : bool) : Observation :=
  {| observed_at := observed_at o; grpc_status := grpc_status o; application_code := application_code o;
     server_time := server_time o; maintenance := m; master_version := master_version o;
     resource_version := resource_version o |}.

Inductive Outcome : Type := Success (data : json) | Failed (kind : Failure).
Record Reply : Type := {
  reply_request_id : string;
  reply_identity : Identity;
  outcome : Outcome;
  observation : Observation;
}.

(** ** The RPC of an operation *)
Definition rpc_id (v : Z) : result AppError string :=
  if 0 <? v then Ok (u64_to_string v) else Err InvalidRequest.

Definition rpc (op : Operation) : result AppError (string * json) :=
  match op with
  | OVersion => Ok (VERSION, JObj [])
  | OServers => Ok (SERVER_LIST, JObj [])
  | OAnnouncements tab =>
      if in_range 0 2 tab then Ok (ANNOUNCEMENTS, JObj [("selectedTab"%string, JNum tab)])
      else Err InvalidRequest
  | OAnnouncement id =>
      rbind (rpc_id id) (fun i => Ok (ANNOUNCEMENT, JObj [("id"%string, JStr i)]))
  | OProfile id =>
      rbind (rpc_id id) (fun i => Ok (PROFILE, JObj [("playerProfileId"%string, JStr i)]))
  | OEventRanking event ranks =>
      let unique : gset Z := list_to_set ranks in
      if (llen ranks =? 0) || (100 <? llen ranks) || negb (Z.of_nat (size unique) =? llen ranks)
         || existsb (fun v => v <=? 0) ranks
      then Err InvalidRequest
      else rbind (rpc_id event) (fun i =>
           Ok (EVENT_RANKING, JObj [("eventId"%string, JStr i); ("ranks"%string, JArr (map JNum ranks))]))
  | OEventDeck event player =>
      if is_empty player || (128 <? len player)
         || negb (all_bytes (fun b => is_ascii_alphanumeric b || char_is 45 b || char_is 95 b) player)
      then Err InvalidRequest
      else rbind (rpc_id event) (fun i =>
           Ok (EVENT_DECK, JObj [("eventId"%string, JStr i); ("playerId"%string, JStr player)]))
  | OMusicRanking id =>
      rbind (rpc_id id) (fun i => Ok (MUSIC_RANKING, JObj [("musicId"%string, JStr i)]))
  | OChallengeRanking id =>
      rbind (rpc_id id) (fun i => Ok (CHALLENGE_RANKING, JObj [("challengeMusicId"%string, JStr i)]))
  end.

(** [client.rs], [strip_account_fields]; the same two removals are written out
    in [peer.rs] and [node_routing.rs]. *)
Definition account_relative (route : string) : bool :=
  String.eqb route MUSIC_RANKING || String.eqb route CHALLENGE_RANKING.
Definition strip_account_fields (route : string) (v : json) : json :=
  if account_relative route then json_remove "myScore" (json_remove "myRank" v) else v.

Lemma find_filter_none {A} (f g : A -> bool) l :
  (forall x, f x = true -> g x = false) -> List.find f (List.filter g l) = None.
Proof.
  intros H. induction l as [|x l IH]; [done|]. cbn. destruct (g x) eqn:Hg; [|done]. cbn.
  destruct (f x) eqn:Hf; [rewrite (H _ Hf) in Hg; done|done].
Qed.

Lemma json_removed (v : json) :
  json_field "myRank" (json_remove "myScore" (json_remove "myRank" v)) = None /\
  json_field "myScore" (json_remove "myScore" (json_remove "myRank" v)) = None.
Proof.
  destruct v; try done. cbn [json_remove json_field]. split.
  - assert (Hc : forall l : list (string * json), List.filter (fun kv => negb (String.eqb (fst kv) "myScore"))
                  (List.filter (fun kv => negb (String.eqb (fst kv) "myRank")) l) =
                List.filter (fun kv => negb (String.eqb (fst kv) "myRank"))
                  (List.filter (fun kv => negb (String.eqb (fst kv) "myScore")) l)).
    { intros l. induction l as [|x l IH]; [done|]. cbn.
      destruct (negb (String.eqb (fst x) "myRank")) eqn:H1, (negb (String.eqb (fst x) "myScore")) eqn:H2;
        cbn; rewrite ?H1, ?H2, ?IH; done. }
    rewrite Hc, find_filter_none; [done|]. intros x ->. done.
  - rewrite find_filter_none; [done|]. intros x ->. done.
Qed.

(** [client.rs], [authenticated]. *)
Definition authenticated (route : string) : bool :=
  mem route [PROFILE; EVENT_RANKING; EVENT_DECK; MUSIC_RANKING; CHALLENGE_RANKING; WHOAMI; PLAYER_DATA].

(** ** The game client, as peers use it

    [call_peer] answers with its result and whether an RPC with an account was
    sent for this query. *)
Record Answer : Type := { answer : result AppError json; dispatched : bool }.

(** Errors that a peer caller takes as proof that nothing was executed. *)
Definition pre_dispatch_error (e : AppError) : bool :=
  match e with
  | PeerIdentityMismatch | PeerAccountUnavailable | UnsupportedRegionOperation | UpstreamUnavailable => true
  | _ => false
  end.

Class PeerGame (call_peer : string -> json -> string -> Answer) : Prop :=
  refused_before_dispatch route input proto e :
    answer (call_peer route input proto) = Err e -> pre_dispatch_error e = true ->
    dispatched (call_peer route input proto) = false.

Section peer.
Context (uuid_parse : string -> option string).

(** *** The executor *)
Section executor.
Context (call_peer : string -> json -> string -> Answer).
Context (peer_identity : result AppError Identity) (observed : Observation).

(** The handler: its reply, and whether an RPC with an account was sent. *)
Definition query (r : Request) : result AppError Reply * bool :=
  if is_none (uuid_parse (request_id r)) || negb (len (request_id r) =? 36) then (Err InvalidRequest, false)
  else match rpc (operation r) with
       | Err e => (Err e, false)
       | Ok (route, input) =>
           match peer_identity with
           | Err e => (Err e, false)
           | Ok local =>
               let reply o obs := {| reply_request_id := request_id r; reply_identity := identity r;
                                     outcome := o; observation := obs |} in
               if negb (bool_decide (local = identity r))
               then (Ok (reply (Failed FIdentityMismatch) observed), false)
               else
                 let a := call_peer route input (protocol_sha256 (identity r)) in
                 match answer a with
                 | Ok data => (Ok (reply (Success (strip_account_fields route data)) observed), dispatched a)
                 | Err e => (Ok (reply (Failed (failure_from e)) (with_maintenance observed (is_maintenance e))),
                             dispatched a)
                 end
           end
       end.
End executor.

(** *** The caller's transport *)
Record Policy : Type := { connect_timeout_ms : Z; request_timeout_ms : Z; max_response_bytes : Z }.
Definition Policy_default : Policy :=
  {| connect_timeout_ms := 5000; request_timeout_ms := 20000; max_response_bytes := 16 * 1024 * 1024 |}.

Inductive Error : Type :=
| PConfig | PNotSent | PConnect | PTimeout | PTransport | PStatus (status : Z) | PProtocol.

Definition policy_validate (p : Policy) : result Error unit :=
  if negb (in_range 100 300000 (connect_timeout_ms p)) || negb (in_range 100 300000 (request_timeout_ms p))
     || (request_timeout_ms p <? connect_timeout_ms p)
     || negb (in_range 1024 (128 * 1024 * 1024) (max_response_bytes p))
  then Err PConfig else Ok tt.

Definition PRE_DISPATCH_STATUSES : list Z := [400; 401; 404; 405; 413; 415; 422].

Definition definitely_not_sent (e : Error) : bool :=
  match e with PConfig | PNotSent | PConnect => true | _ => false end.
Definition rejected_before_dispatch (e : Error) : bool :=
  match e with PStatus s => existsb (Z.eqb s) PRE_DISPATCH_STATUSES | _ => false end.

Record Client : Type := {
  url : Url;
  client_region : Region;
  authorization : string;
  policy : Policy;
}.

Definition set_path (u : Url) (p : string) : Url :=
  {| scheme := scheme u; host_str := host_str u; username := username u; password := password u;
     path := p; Http.query := Http.query u; fragment := fragment u |}.

Definition is_ascii_whitespace (c : ascii) : bool :=
  char_is 32 c || char_is 9 c || char_is 10 c || char_is 12 c || char_is 13 c.

(** [Client::new]; [build] is the outcome of building the HTTP client. *)
Definition client_new (url_parse : string -> option Url) (build : bool) (origin token : string)
  (region : Region) (regional_paths allow_http : bool) (p : Policy) : result Error Client :=
  rbind (policy_validate p) (fun _ =>
  match url_parse origin with
  | None => Err PConfig
  | Some u =>
      if bool_decide (region = Cn) || (2048 <? len origin) || any_byte is_ascii_whitespace origin
         || any_byte (char_is 92) origin || is_none (host_str u) || negb (is_empty (username u))
         || is_some (password u) || is_some (Http.query u) || is_some (fragment u)
         || negb (String.eqb (path u) "/")
         || negb (String.eqb (scheme u) "https" || (allow_http && String.eqb (scheme u) "http"))
         || is_empty token || (4096 <? len token)
         || negb (all_bytes (fun b => in_range 33 126 (byte_of b)) token)
      then Err PConfig
      else if negb build then Err PConfig
      else Ok {| url := set_path u (if regional_paths
                                    then "/internal/v1/" ++ region_name region ++ "/peer/query"
                                    else "/internal/v1/peer/query")%string;
                 client_region := region;
                 authorization := ("Bearer " ++ token)%string;
                 policy := p |}
  end).

(** A failed exchange, as reqwest classifies it. *)
Record NetError : Type := { is_connect : bool; is_timeout : bool }.
Definition transport_error (e : NetError) : Error :=
  if is_connect e then PConnect else if is_timeout e then PTimeout else PTransport.

Section transport.
Context (semver_ok : string -> bool).
Context (request_to_vec : Request -> option (list Z)) (reply_from_slice : list Z -> option Reply).

Definition validate_identity (i : Identity) : result Error unit :=
  if negb (contract_version i =? 1) || bool_decide (id_region i = Cn)
     || is_empty (environment i) || (256 <? len (environment i))
     || negb (all_bytes (fun b => is_ascii_alphanumeric b || char_is 45 b) (environment i))
     || negb (semver_ok (client_version i))
     || negb (len (protocol_sha256 i) =? 64) || negb (all_bytes lower_hex (protocol_sha256 i))
  then Err PConfig else Ok tt.

(** [body_error] is the class of a failed read of the body. *)
Definition send (c : Client) (r : Request) (exchange : result NetError http_response) (body_error : NetError) :
  result Error Reply :=
  match exchange with
  | Err e => Err (transport_error e)
  | Ok resp =>
      if negb (http_status resp =? 200) then Err (PStatus (http_status resp))
      else if negb (json_content resp)
              || some_and (header_get "content-encoding" (http_headers resp))
                   (fun v => negb (String.eqb v "identity"))
              || some_and (content_length resp) (fun n => max_response_bytes (policy c) <? n)
      then Err PProtocol
      else rbind (read_bounded (max_response_bytes (policy c)) (transport_error body_error) PProtocol []
                    (body_events resp)) (fun bytes =>
           match reply_from_slice bytes with
           | None => Err PProtocol
           | Some reply =>
               if negb (String.eqb (reply_request_id reply) (request_id r))
                  || negb (bool_decide (reply_identity reply = identity r))
               then Err PProtocol
               else match outcome reply with
                    | Success data => match data with JObj _ => Ok reply | _ => Err PProtocol end
                    | Failed (FGame n) => if in_range 1 16 n then Ok reply else Err PProtocol
                    | _ => Ok reply
                    end
           end)
  end.

(** What became of the request once it was handed to the HTTP client: the
    deadline cut it, or the exchange ended. *)
Inductive attempt : Type := DeadlineCut | Exchanged (e : result NetError http_response) (body_error : NetError).

(** The requests that [call] refuses before it builds anything to send. *)
Definition call_guards (c : Client) (r : Request) : result Error (list Z) :=
  rbind (validate_identity (identity r)) (fun _ =>
  match rpc (operation r) with
  | Err _ => Err PConfig
  | Ok (route, _) =>
      if negb (bool_decide (id_region (identity r) = client_region c))
         || negb (mem route (for_family (family (client_region c))))
         || match uuid_parse (request_id r) with
            | Some id => negb (String.eqb id (request_id r))
            | None => true
            end
      then Err PConfig
      else match request_to_vec r with
           | None => Err PConfig
           | Some bytes => if 16 * 1024 <? llen bytes then Err PConfig else Ok bytes
           end
  end).

Definition call (c : Client) (r : Request) (now deadline : Z) (a : attempt) : result Error Reply :=
  rbind (call_guards c r) (fun _ =>
  if deadline <=? now then Err PNotSent
  else match a with
       | DeadlineCut => Err PTimeout
       | Exchanged e b => send c r e b
       end).

(** A reply or error that proves that the query was not executed ([node_routing.rs]). *)
Definition remote_safe (r : result Error Reply) : bool :=
  match r with
  | Ok reply => match outcome reply with
                | Failed (FIdentityMismatch | FUnsupportedOperation | FUnavailableBeforeDispatch) => true
                | _ => false
                end
  | Err e => definitely_not_sent e || rejected_before_dispatch e
  end.

(** *** A caller and an executor *)
Section exchange.
Context (call_peer : string -> json -> string -> Answer) {game : PeerGame call_peer}.
Context (peer_identity : result AppError Identity) (observed : Observation).

(** The executor's route: [layer] is the status a framework layer answered
    instead of running the handler. *)
Definition serve (layer : option Z) (r : Request) : Z * option Reply * bool :=
  match layer with
  | Some status => (status, None, false)
  | None => match query call_peer peer_identity observed r with
            | (Ok reply, d) => (200, Some reply, d)
            | (Err e, d) => (status_of e, None, d)
            end
  end.

(** What the network may make of one request: [executed] is whether the
    executor dispatched a game call.  A connection error is reported only when
    nothing was delivered. *)
Inductive delivery (r : Request) : attempt -> bool -> Prop :=
| delivery_cut layer d :
    d = false \/ d = snd (serve layer r) -> delivery r DeadlineCut d
| delivery_connect e b : is_connect e = true -> delivery r (Exchanged (Err e) b) false
| delivery_broken layer e b d :
    is_connect e = false -> d = false \/ d = snd (serve layer r) -> delivery r (Exchanged (Err e) b) d
| delivery_answered layer resp b status reply d :
    serve layer r = (status, reply, d) -> layer <> Some 200 ->
    http_status resp = status -> is_connect b = false ->
    (forall bytes, body_bytes (body_events resp) = Some bytes -> reply_from_slice bytes = reply) ->
    delivery r (Exchanged (Ok resp) b) d.

Lemma query_error_undispatched r e d : query call_peer peer_identity observed r = (Err e, d) -> d = false.
Proof.
  unfold query. destruct (_ || _); [by intros [= _ <-]|].
  destruct (rpc _) as [[route input]|]; [|by intros [= _ <-]].
  destruct peer_identity; [|by intros [= _ <-]].
  destruct (negb _); [done|]. by destruct (answer _).
Qed.

(** A typed pre-dispatch failure of the handler means no dispatch. *)
Lemma query_safe_undispatched r reply d :
  query call_peer peer_identity observed r = (Ok reply, d) -> remote_safe (Ok reply) = true -> d = false.
Proof using game.
  unfold query. destruct (_ || _); [done|]. destruct (rpc _) as [[route input]|]; [|done].
  destruct peer_identity; [|done]. destruct (negb _); [by intros [= _ <-]|].
  destruct (answer _) as [data|e] eqn:Ha; intros [= <- <-]; [done|]. cbn. intros Hs.
  apply (refused_before_dispatch _ _ _ e Ha). by destruct e.
Qed.

Lemma send_ok_decodes c r resp b reply :
  send c r (Ok resp) b = Ok reply ->
  http_status resp = 200 /\ reply_request_id reply = request_id r /\ reply_identity reply = identity r /\
  exists bytes, body_bytes (body_events resp) = Some bytes /\ reply_from_slice bytes = Some reply.
Proof.
  unfold send. destruct (Z.eqb_spec (http_status resp) 200); [|done]. cbn [negb].
  destruct (_ || _ || _); [done|]. destruct (read_bounded _ _ _ _ _) as [bytes|] eqn:Hr; [|done]. cbn [rbind].
  destruct (reply_from_slice bytes) as [rep|] eqn:Hd; [|done].
  destruct (String.eqb_spec (reply_request_id rep) (request_id r)); [|done].
  destruct (bool_decide_reflect (reply_identity rep = identity r)); [|done]. cbn.
  intros Ho. assert (reply = rep) as ->.
  { destruct (outcome rep) as [[]|[]]; try done; try by injection Ho.
    destruct (in_range _ _ _); [by injection Ho|done]. }
  do 3 (split; [done|]). exists bytes. split; [|done].
  by apply read_bounded_ok in Hr as (b' & H & ->).
Qed.

(** The errors of an answered request: only a status other than 200 is ever
    taken as proof. *)
Lemma send_safe_error c r resp b e :
  is_connect b = false -> send c r (Ok resp) b = Err e ->
  definitely_not_sent e || rejected_before_dispatch e = true ->
  http_status resp <> 200.
Proof.
  unfold send. intros Hb. destruct (Z.eqb_spec (http_status resp) 200) as [E|]; [|done]. cbn [negb].
  destruct (_ || _ || _); [by intros [= <-]|].
  destruct (read_bounded _ _ _ _ _) as [bytes|x] eqn:Hr; cbn [rbind].
  - destruct (reply_from_slice bytes) as [rep|]; [|by intros [= <-]]. destruct (_ || _); [by intros [= <-]|].
    destruct (outcome rep) as [[]|[]]; try done; try by intros [= <-].
    destruct (in_range _ _ _); [done|by intros [= <-]].
  - intros [= <-]. apply read_bounded_err in Hr as [->| ->]; [|done]. unfold transport_error. rewrite Hb.
    by destruct (is_timeout b).
Qed.

(** Whether [call] hands the request to the HTTP client at all. *)
Definition sent (c : Client) (r : Request) (now deadline : Z) : bool := is_ok (call_guards c r) && (now <? deadline).

Lemma peer_safe_undispatched c r now deadline a d :
  delivery r a d ->
  remote_safe (call c r now deadline a) = true ->
  sent c r now deadline && d = false.
Proof using game.
  intros Hd. unfold call, sent. destruct (call_guards c r) as [bytes|e]; cbn [rbind is_ok andb]; [|done].
  destruct (Z.leb_spec deadline now), (Z.ltb_spec now deadline); try lia. cbn [andb]. intros Hs.
  destruct Hd as [layer d Hd|e b He|layer e b d He Hd|layer resp b st reply d Hsv Hl Hst Hb Hdec].
  - done.
  - done.
  - cbn in Hs. unfold transport_error in Hs. rewrite He in Hs. by destruct (is_timeout e).
  - unfold serve in Hsv. destruct layer as [st'|]; [by injection Hsv as _ _ <-|].
    destruct (query _ _ _ r) as [[rep|e] dq] eqn:Hq; injection Hsv as <- <- <-.
    2: by eapply query_error_undispatched.
    destruct (send c r (Ok resp) b) as [got|e] eqn:Hsend.
    + apply send_ok_decodes in Hsend as (_ & _ & _ & bytes' & Hbody & Hdc). rewrite (Hdec _ Hbody) in Hdc.
      injection Hdc as ->. by eapply query_safe_undispatched.
    + exfalso. by eapply (send_safe_error c r resp b e).
Qed.

(** C9: Whatever the network does, when the caller's transport reports a failure that it
    takes as proof of non-execution (not sent, connection failed, a pre-dispatch HTTP
    status, or a typed pre-dispatch failure) the executor dispatched no game call; and a
    query that dispatched one always answers HTTP 200 with a typed reply. *)
Theorem peer_proof_of_nonexecution c r now deadline a d :
  delivery r a d ->
  (remote_safe (call c r now deadline a) = true -> sent c r now deadline && d = false) /\
  (forall layer status reply, serve layer r = (status, reply, true) -> status = 200 /\ is_some reply = true).
Proof using game.
  intros Hd. split; [by apply peer_safe_undispatched|]. intros [st|] status reply; cbn; [done|].
  destruct (query _ _ _ r) as [[rep|e] dq] eqn:Hq; [by intros [= <- <- _]|].
  rewrite (query_error_undispatched _ _ _ Hq). done.
Qed.

(** A reply the caller accepts is the executor's own reply to this request, carries the
    request's id and identity, and on ranking reads never has the account-relative
    fields. *)
Lemma accepted_reply_is_the_executors c r now deadline a executed reply :
  delivery r a executed ->
  call c r now deadline a = Ok reply ->
  query call_peer peer_identity observed r = (Ok reply, executed) /\
  reply_request_id reply = request_id r /\ reply_identity reply = identity r /\
  (forall data route input, outcome reply = Success data -> rpc (operation r) = Ok (route, input) ->
     account_relative route = true ->
     json_field "myRank" data = None /\ json_field "myScore" data = None).
Proof.
  intros Hd. unfold call. destruct (call_guards c r) as [bytes|e] eqn:Hg; [|done]. cbn [rbind].
  destruct (deadline <=? now); [done|].
  destruct Hd as [layer d Hd|e b He|layer e b d He Hd|layer resp b st rep d Hsv Hl Hst Hb Hdec]; try done.
  intros (H200 & Hid & Hident & bytes' & Hbody & Hdc)%send_ok_decodes.
  rewrite (Hdec _ Hbody) in Hdc. subst rep. unfold serve in Hsv. destruct layer as [st'|]; [by injection Hsv|].
  destruct (query _ _ _ r) as [[rep|e] dq] eqn:Hq; injection Hsv; [|done]. intros -> -> _.
  split; [done|]. do 2 (split; [done|]). intros data route input Ho Hrpc Hrel.
  revert Hq. unfold query. rewrite Hrpc. destruct (_ || _); [done|]. destruct peer_identity; [|done].
  destruct (negb _); [intros [= <- _]; done|]. destruct (answer _) as [v|e]; intros [= <- _]; cbn in Ho; [|done].
  injection Ho as <-. unfold strip_account_fields. rewrite Hrel. apply json_removed.
Qed.

End exchange.
End transport.
End peer.

(** * A concrete exchange *)
Module PeerDemo.

Definition local : Identity :=
  {| contract_version := 1; id_region := Jp; environment := "production"; platform := Ios;
     client_version := "1.0.3";
     protocol_sha256 := "0123456789abcdef0123456789abcdef0123456789abcdef0123456789abcdef" |}.
Definition request : Request :=
  {| request_id := "00000000-0000-4000-8000-000000000000"; identity := local; operation := OMusicRanking 5 |}.
Definition root : Url :=
  {| scheme := "https"; host_str := Some "node.example"%string; username := ""; password := None; path := "/";
     Http.query := None; fragment := None |}.
Definition client : Client :=
  {| url := root; client_region := Jp; authorization := "Bearer t"; policy := Policy_default |}.
Definition uuid_parse (s : string) : option string := Some s.
Definition to_vec (_ : Request) : option (list Z) := Some [1].
Definition net : NetError := {| is_connect := false; is_timeout := false |}.
Definition ok_response : http_response :=
  {| http_status := 200; http_headers := [("content-type", "application/json; charset=utf-8")]%string;
     content_length := Some 1; body_events := [Chunk [7]] |}.

(** An executor without an account, and one that answers. *)
Definition refusing (_ : string) (_ : json) (_ : string) : Answer :=
  {| answer := Err PeerAccountUnavailable; dispatched := false |}.
Definition serving (_ : string) (_ : json) (_ : string) : Answer :=
  {| answer := Ok (JObj [("myRank", JNum 3); ("ranking", JArr [])]%string); dispatched := true |}.
#[export] Instance refusing_game : PeerGame refusing.
Proof. by intros route input proto e [= <-] _. Qed.

Definition reply (o : Outcome) : Reply :=
  {| reply_request_id := request_id request; reply_identity := local; outcome := o;
     observation := Observation_default |}.
Definition refusal : Reply := reply (Failed FUnavailableBeforeDispatch).
Definition success : Reply := reply (Success (JObj [("ranking", JArr [])]%string)).

Lemma refusal_delivery :
  delivery uuid_parse (fun _ => Some refusal) refusing (Ok local) Observation_default request
    (Exchanged (Ok ok_response) net) false.
Proof. by eapply delivery_answered with (layer := None). Qed.

Lemma success_delivery :
  delivery uuid_parse (fun _ => Some success) serving (Ok local) Observation_default request
    (Exchanged (Ok ok_response) net) true.
Proof. by eapply delivery_answered with (layer := None). Qed.

Lemma peer_proof_of_nonexecution_witness :
  sent uuid_parse (fun _ => true) to_vec client request 0 10 && false = false.
Proof.
  apply (peer_proof_of_nonexecution uuid_parse (fun _ => true) to_vec (fun _ => Some refusal) refusing (Ok local)
           Observation_default client request 0 10 (Exchanged (Ok ok_response) net) false refusal_delivery).
  reflexivity.
Defined.

Lemma accepted_reply_is_the_executors_witness :
  query uuid_parse serving (Ok local) Observation_default request = (Ok success, true).
Proof.
  apply (accepted_reply_is_the_executors uuid_parse (fun _ => true) to_vec (fun _ => Some success) serving (Ok local)
           Observation_default client request 0 10 (Exchanged (Ok ok_response) net) true success success_delivery).
  reflexivity.
Defined.

End PeerDemo.
