(* ===== verification/NodeRouting.v ===== *)
(** Ordered node selection for public reads ([node_routing.rs]).

    A target's health is driven by permits that interleave freely; one routed
    call visits the targets in order.  What a visit meets (clock readings, the
    network, the local game client) is its [visit]. *)
From Stdlib Require Import ZArith Lia Ascii String List Bool.
From stdpp Require Import base list strings decidable gmap relations sorting.
From S2P Require Import Prelude Errors Regions Http AssetJobs Peer.

Local Open Scope Z_scope.

(** ** Configuration *)
Record TargetConfig : Type := {
  tc_name : string;
  tc_origin : string;
  tc_token_env : string;
  tc_priority : Z;
  tc_regional_paths : bool;
  tc_allow_http : bool;
}.
Record Config : Type := {
  local_priority : option Z;
  targets : list TargetConfig;
  timeout_ms : Z;
  max_inflight : Z;
  failure_threshold : Z;
  cooldown_ms : Z;
  transport : Policy;
}.
Definition Config_default : Config :=
  {| local_priority := Some 0; targets := []; timeout_ms := 20000; max_inflight := 64;
     failure_threshold := 3; cooldown_ms := 30000; transport := Policy_default |}.

Definition bad_target_name (name : string) (names : gset string) : bool :=
  is_empty name || (64 <? len name) || String.eqb name "local"
  || negb (all_bytes (fun b => is_ascii_alphanumeric b || char_is 45 b || char_is 95 b) name)
  || bool_decide (name ∈ names).
Definition bad_token_env (env : string) : bool :=
  is_empty env || (256 <? len env) || negb (all_bytes (fun b => is_ascii_alphanumeric b || char_is 95 b) env).

Section config.
Context (url_parse : string -> option Url) (url_origin : Url -> string) (build : bool).

Fixpoint validate_targets (region : Region) (p : Policy) (ts : list TargetConfig)
  (names : gset string) (destinations : gset (string * bool)) : result AppError unit :=
  match ts with
  | [] => Ok tt
  | t :: ts =>
      if bad_target_name (tc_name t) names || bad_token_env (tc_token_env t)
      then Err (Errors.Config "invalid or duplicate node name or credential reference")
      else match client_new url_parse build (tc_origin t) "validation" region (tc_regional_paths t) (tc_allow_http t) p with
           | Err _ => Err (Errors.Config "invalid peer destination")
           | Ok _ =>
               match url_parse (tc_origin t) with
               | None => Err (Errors.Config "invalid peer destination")
               | Some u =>
                   let d := (url_origin u, tc_regional_paths t) in
                   if bool_decide (d ∈ destinations) then Err (Errors.Config "duplicate peer destination")
                   else validate_targets region p ts ({[tc_name t]} ∪ names) ({[d]} ∪ destinations)
               end
           end
  end.

Definition validate (c : Config) (region : Region) : result AppError unit :=
  if (16 <? llen (targets c)) || ((llen (targets c) =? 0) && is_none (local_priority c))
     || negb (in_range 100 300000 (timeout_ms c)) || negb (in_range 1 4096 (max_inflight c))
     || negb (in_range 1 100 (failure_threshold c)) || negb (in_range 100 300000 (cooldown_ms c))
  then Err (Errors.Config "invalid node routing bounds")
  else match policy_validate (transport c) with
       | Err _ => Err (Errors.Config "invalid peer transport policy")
       | Ok _ => validate_targets region (transport c) (targets c) ∅ ∅
       end.
End config.

(** ** Health of a target *)
Record Health : Type := { failures : Z; open_until : option Z; probing : bool }.
Definition Health_default : Health := {| failures := 0; open_until := None; probing := false |}.
Definition set_probing (h : Health) (b : bool) : Health :=
  {| failures := failures h; open_until := open_until h; probing := b |}.

Inductive Transition : Type := TNone | CooldownStarted | ProbeFailed | Recovered.

(** A permit is its probe flag. *)
Definition target_admit (h : Health) (now : Z) : option bool * Health :=
  match open_until h with
  | Some until => if (now <? until) || probing h then (None, h) else (Some true, set_probing h true)
  | None => (Some false, h)
  end.

Definition finish (cfg : Config) (h : Health) (probe failed : bool) (now : Z) : Transition * Health :=
  if failed then
    let n := sat_add U32_MAX (failures h) 1 in
    if failure_threshold cfg <=? n then
      (if probe then ProbeFailed else if is_some (open_until h) then TNone else CooldownStarted,
       {| failures := n; open_until := Some (now + from_millis (cooldown_ms cfg)); probing := probing h |})
    else (TNone, {| failures := n; open_until := open_until h; probing := probing h |})
  else (if is_some (open_until h) then Recovered else TNone,
        {| failures := 0; open_until := None; probing := probing h |}).

Definition drop_permit (h : Health) (probe : bool) : Health := if probe then set_probing h false else h.

(** ** The router *)
Record Target : Type := {
  name : string;
  priority : Z;
  remote : option Client;
  health : Health;
}.
Definition set_health (t : Target) (h : Health) : Target :=
  {| name := name t; priority := priority t; remote := remote t; health := h |}.

(** [sort_by_key] on the priority: a stable sort. *)
Fixpoint insert_target (t : Target) (ts : list Target) : list Target :=
  match ts with
  | [] => [t]
  | u :: us => if priority t <=? priority u then t :: ts else u :: insert_target t us
  end.
Definition sort_targets (ts : list Target) : list Target := fold_right insert_target [] ts.

Section router.
Context (url_parse : string -> option Url) (url_origin : Url -> string) (build : bool).
Context (secret : string -> result AppError string).

Definition local_target (c : Config) : list Target :=
  match local_priority c with
  | Some p => [{| name := "local"; priority := p; remote := None; health := Health_default |}]
  | None => []
  end.

Fixpoint remote_targets (region : Region) (p : Policy) (ts : list TargetConfig) : result AppError (list Target) :=
  match ts with
  | [] => Ok []
  | t :: ts =>
      rbind (secret (tc_token_env t)) (fun token =>
      match client_new url_parse build (tc_origin t) token region (tc_regional_paths t) (tc_allow_http t) p with
      | Err _ => Err (Errors.Config "invalid peer transport credential")
      | Ok c =>
          rbind (remote_targets region p ts) (fun rest =>
          Ok ({| name := tc_name t; priority := tc_priority t; remote := Some c; health := Health_default |} :: rest))
      end)
  end.

Definition router_new (c : Config) (region : Region) : result AppError (list Target) :=
  rbind (validate url_parse url_origin build c region) (fun _ =>
  rbind (remote_targets region (transport c) (targets c)) (fun remotes =>
  Ok (sort_targets (local_target c ++ remotes)))).
End router.

Definition as_millis (d : Z) : Z := d / 1000000.
Definition target_status (now : Z) (t : Target) : json :=
  JObj [("name", JStr (name t)); ("priority", JNum (priority t)); ("failures", JNum (failures (health t)));
        ("probing", JBool (probing (health t)));
        ("cooldown_remaining_ms",
          JNum (match open_until (health t) with
                | Some until => as_millis (sat_sub until now)
                | None => 0
                end))]%string.
Definition router_status (now : Z) (ts : list Target) : json :=
  JObj [("enabled", JBool true); ("targets", JArr (map (target_status now) ts))]%string.

(** ** One routed call *)
Record Execution : Type := { ex_result : result AppError json; ex_observation : Observation }.
Definition execution_error (e : AppError) : Execution :=
  {| ex_result := Err e; ex_observation := Observation_default |}.

Definition target_fault (e : AppError) : bool :=
  match e with
  | Errors.Transport | Proxy | Timeout | Protocol | PeerIdentityMismatch | PeerAccountUnavailable
  | AccountUnavailable | UnsupportedRegionOperation => true
  | _ => false
  end.
Definition result_fault (r : result AppError json) : bool :=
  match r with Err e => target_fault e | Ok _ => false end.

Definition transport_app_error (e : Peer.Error) : AppError :=
  match e with
  | PTimeout | PNotSent => Timeout
  | PProtocol => Protocol
  | _ => Errors.Transport
  end.

Definition local_safe (r : result AppError json) : bool :=
  match r with
  | Err (PeerIdentityMismatch | PeerAccountUnavailable | UnsupportedRegionOperation) => true
  | _ => false
  end.

(** What one visit meets: clock readings at the deadline check, the admission,
    the transmission and the end; the network and what the peer executed; the
    local game client, whether the deadline cut it, and its observation. *)
Record visit : Type := {
  at_check : Z;
  at_admit : Z;
  at_call : Z;
  at_finish : Z;
  network : attempt;
  peer_executed : bool;
  local_game : string -> json -> string -> Answer;
  local_cut : bool;
  local_observation : Observation;
}.

Record Attempt : Type := { tried : string; execution : Execution; executed : bool }.

Section call.
Context (uuid_parse : string -> option string) (semver_ok : string -> bool).
Context (request_to_vec : Request -> option (list Z)) (reply_from_slice : list Z -> option Reply).
Context (cfg : Config) (route : string) (input : json) (request : Request) (deadline : Z).

Definition remote_call (c : Client) (v : visit) : result Peer.Error Reply :=
  call uuid_parse semver_ok request_to_vec reply_from_slice c request (at_call v) deadline (network v).

(** The execution at one target, whether it provably did not execute, and
    whether it did. *)
Definition execute_at (t : Target) (v : visit) : Execution * bool * bool :=
  match remote t with
  | Some c =>
      let r := remote_call c v in
      (match r with
       | Ok reply =>
           {| ex_result := match outcome reply with
                           | Success data => Ok data
                           | Failed kind => Err (failure_error kind (maintenance (observation reply)))
                           end;
              ex_observation := observation reply |}
       | Err e => execution_error (transport_app_error e)
       end, remote_safe r, sent uuid_parse semver_ok request_to_vec c request (at_call v) deadline && peer_executed v)
  | None =>
      let a := local_game v route input (protocol_sha256 (identity request)) in
      let r := if local_cut v then Err Timeout else answer a in
      ({| ex_result := r; ex_observation := local_observation v |}, local_safe r, dispatched a)
  end.

(** The loop over the targets, each with what its visit meets; the targets'
    new states and the attempts made are returned with the execution. *)
Fixpoint call_targets (last : Execution) (ts : list (Target * visit)) : Execution * list Target * list Attempt :=
  match ts with
  | [] => (last, [], [])
  | (t, v) :: ts =>
      if deadline <=? at_check v then (execution_error Timeout, map fst ((t, v) :: ts), [])
      else match target_admit (health t) (at_admit v) with
           | (None, _) =>
               let '(ex, rest, log) := call_targets last ts in (ex, t :: rest, log)
           | (Some probe, h) =>
               let '(ex, definitely_not_executed, did) := execute_at t v in
               let fault := result_fault (ex_result ex) in
               let t' := set_health t (drop_permit (snd (finish cfg h probe fault (at_finish v))) probe) in
               let this := {| tried := name t; execution := ex; executed := did |} in
               let stop := negb definitely_not_executed && authenticated route in
               if negb fault || stop then (ex, t' :: map fst ts, [this])
               else let '(ex, rest, log) := call_targets ex ts in (ex, t' :: rest, this :: log)
           end
  end.

(** [admitted] is whether a slot of the semaphore was free before the deadline. *)
Definition call_inner (admitted : bool) (ts : list (Target * visit)) : Execution * list Target * list Attempt :=
  if admitted then call_targets (execution_error NodeUnavailable) ts
  else (execution_error Timeout, map fst ts, []).

End call.

(** [Router::call] once a slot and the targets' visits are known: [shared] is
    whether the read is coalesced, in which case the shared execution never
    carries account-relative fields. *)
Definition strip_execution (route : string) (e : Execution) : Execution :=
  {| ex_result := rmap (strip_account_fields route) (ex_result e); ex_observation := ex_observation e |}.

Definition router_call (uuid_parse : string -> option string) (semver_ok : string -> bool)
  (request_to_vec : Request -> option (list Z)) (reply_from_slice : list Z -> option Reply)
  (cfg : Config) (supported : list string) (peer_identity : result AppError Identity)
  (coalesces : string -> bool) (op : Operation) (new_id : string) (now : Z)
  (admitted : bool) (ts : list (Target * visit)) : Execution * list Target * list Attempt :=
  match rpc op with
  | Err e => (execution_error e, map fst ts, [])
  | Ok (route, input) =>
      if negb (mem route supported) then (execution_error UnsupportedRegionOperation, map fst ts, [])
      else match peer_identity with
           | Err e => (execution_error e, map fst ts, [])
           | Ok ident =>
               let deadline := now + from_millis (timeout_ms cfg) in
               let request := {| request_id := new_id; identity := ident; operation := op |} in
               let '(ex, ts', log) := call_inner uuid_parse semver_ok request_to_vec reply_from_slice cfg route
                                        input request deadline admitted ts in
               (if coalesces route then strip_execution route ex else ex, ts', log)
           end
  end.

(** * Failover *)
Section failover.
Context (uuid_parse : string -> option string) (semver_ok : string -> bool).
Context (request_to_vec : Request -> option (list Z)) (reply_from_slice : list Z -> option Reply).
Context (cfg : Config) (route : string) (input : json) (request : Request) (deadline : Z).

(** The local game client and the peer behind the network keep the interface;
    the network delivers requests and answers as [delivery] says. *)
Definition lawful (v : visit) : Prop :=
  PeerGame (local_game v) /\
  exists call_peer ident obs, PeerGame call_peer /\
    delivery uuid_parse reply_from_slice call_peer ident obs request (network v) (peer_executed v).

Lemma execute_at_safe t v ex did :
  lawful v -> execute_at uuid_parse semver_ok request_to_vec reply_from_slice route input request deadline t v
              = (ex, true, did) -> did = false.
Proof.
  intros [Hl (cp & ident & obs & Hg & Hd)]. unfold execute_at. destruct (remote t) as [c|].
  - intros [= _ Hs <-]. by eapply peer_safe_undispatched.
  - intros [= _ Hs <-]. destruct (local_cut v); [done|].
    destruct (answer _) as [|e] eqn:Ha; [done|]. apply (Hl _ _ _ e Ha). by destruct e.
Qed.

Local Notation loop := (call_targets uuid_parse semver_ok request_to_vec reply_from_slice cfg route input request deadline).

Lemma call_targets_executed last ts ex ts' log :
  Forall (fun tv => lawful tv.2) ts -> authenticated route = true -> loop last ts = (ex, ts', log) ->
  (forall i a, log !! i = Some a -> executed a = true -> S i = length log /\ ex = execution a) /\
  map tried log `sublist_of` map (fun tv => name tv.1) ts.
Proof.
  intros Hl Ha. revert last ex ts' log. induction Hl as [|[t v] ts Hv _ IH]; intros last ex ts' log; cbn [call_targets].
  { intros [= _ _ <-]. split; [done|constructor]. }
  destruct (deadline <=? at_check v).
  { intros [= _ _ <-]. split; [done|]. apply sublist_nil_l. }
  destruct (target_admit (health t) (at_admit v)) as [[probe|] h].
  - destruct (execute_at _ _ _ _ _ _ _ _ t v) as [[ex0 safe] did] eqn:He.
    destruct (negb (result_fault (ex_result ex0)) || negb safe && authenticated route) eqn:Hstop.
    + intros [= <- _ <-]. split.
      * intros [|i] a; [|done]. by intros [= <-].
      * cbn. apply sublist_skip, sublist_nil_l.
    + destruct (loop ex0 ts) as [[ex1 rest] log1] eqn:E. intros [= <- _ <-].
      destruct (IH _ _ _ _ E) as [H1 H2]. split.
      * intros [|i] a; cbn.
        -- intros [= <-] Hex. exfalso. rewrite Ha, andb_true_r in Hstop. destruct safe; [|by rewrite orb_true_r in Hstop].
           cbn in Hex. by rewrite (execute_at_safe _ _ _ _ Hv He) in Hex.
        -- intros Hi Hx. destruct (H1 i a Hi Hx) as [<- ->]. done.
      * cbn. by apply sublist_skip.
  - destruct (loop last ts) as [[ex1 rest] log1] eqn:E. intros [= <- _ <-].
    destruct (IH _ _ _ _ E) as [H1 H2]. split; [done|]. by apply sublist_cons.
Qed.

(** C4: A routed authenticated read is executed by at most one node: only the last attempt
    can have executed, its outcome is what the caller gets, and the targets are tried at
    most once each, in order. *)
Theorem authenticated_reads_execute_once admitted ts ex ts' log :
  Forall (fun tv => lawful tv.2) ts -> authenticated route = true ->
  call_inner uuid_parse semver_ok request_to_vec reply_from_slice cfg route input request deadline admitted ts
    = (ex, ts', log) ->
  (forall i a, log !! i = Some a -> executed a = true -> S i = length log /\ ex = execution a) /\
  map tried log `sublist_of` map (fun tv => name tv.1) ts.
Proof.
  intros Hl Ha. unfold call_inner. destruct admitted; [by apply call_targets_executed|].
  intros [= _ _ <-]. split; [done|]. apply sublist_nil_l.
Qed.

End failover.

(** * Order *)

Definition priority_le (a b : Target) : Prop := priority a <= priority b.

Lemma insert_target_perm t ts : insert_target t ts ≡ₚ t :: ts.
Proof.
  induction ts as [|u us IH]; [done|]. cbn. destruct (_ <=? _); [done|]. rewrite IH. constructor.
Qed.

Lemma insert_target_sorted t ts : StronglySorted priority_le ts -> StronglySorted priority_le (insert_target t ts).
Proof.
  induction 1 as [|u us Hs IH Hf]; cbn; [by repeat constructor|].
  destruct (Z.leb_spec (priority t) (priority u)) as [Hle|Hgt].
  - constructor; [by constructor|]. constructor; [done|]. eapply Forall_impl; [exact Hf|].
    unfold priority_le. cbn. lia.
  - constructor; [done|]. rewrite insert_target_perm. constructor; [unfold priority_le; lia|done].
Qed.

Lemma filter_insert_target p t ts :
  StronglySorted priority_le ts ->
  List.filter (fun u => priority u =? p) (insert_target t ts) = List.filter (fun u => priority u =? p) (t :: ts).
Proof.
  induction 1 as [|u us Hs IH Hf]; [done|]. cbn [insert_target].
  destruct (Z.leb_spec (priority t) (priority u)) as [Hle|Hgt]; [done|].
  cbn [List.filter] in *. rewrite IH.
  destruct (Z.eqb_spec (priority u) p), (Z.eqb_spec (priority t) p); try done. lia.
Qed.

Lemma sort_targets_spec ts :
  StronglySorted priority_le (sort_targets ts) /\ sort_targets ts ≡ₚ ts /\
  forall p, List.filter (fun u => priority u =? p) (sort_targets ts) = List.filter (fun u => priority u =? p) ts.
Proof.
  unfold sort_targets. induction ts as [|t ts (H1 & H2 & H3)]; cbn [fold_right]; [by repeat constructor|].
  split; [by apply insert_target_sorted|]. split.
  - by rewrite insert_target_perm, H2.
  - intros p. rewrite filter_insert_target by done. cbn. by rewrite H3.
Qed.

Section ready.
Context (url_parse : string -> option Url) (url_origin : Url -> string) (build : bool).

Lemma validate_targets_names region p ts names ds :
  validate_targets url_parse url_origin build region p ts names ds = Ok tt ->
  NoDup (map tc_name ts) /\ Forall (fun n => n ∉ names /\ n <> "local"%string) (map tc_name ts).
Proof.
  revert names ds. induction ts as [|t ts IH]; intros names ds; cbn [validate_targets map]; [by repeat constructor|].
  destruct (bad_target_name (tc_name t) names || _) eqn:Hb; [done|].
  destruct (client_new _ _ _ _ _ _ _ _); [|done]. destruct (url_parse _); [|done].
  destruct (bool_decide _); [done|]. intros [Hn Hf]%IH.
  unfold bad_target_name in Hb. bool_prop. split; constructor; auto.
  - intros Hin. rewrite Forall_forall in Hf. apply Hf in Hin. set_solver.
  - eapply Forall_impl; [exact Hf|]. set_solver.
Qed.

Lemma validated_targets c region :
  validate url_parse url_origin build c region = Ok tt ->
  NoDup (map tc_name (targets c)) /\ "local"%string ∉ map tc_name (targets c) /\
  (1 <= length (targets c) + match local_priority c with Some _ => 1 | None => 0 end)%nat /\
  (length (targets c) <= 16)%nat.
Proof.
  unfold validate. destruct (_ || _ || _) eqn:Hb; [done|]. destruct (policy_validate _); [|done].
  intros [Hn Hf]%validate_targets_names. split; [done|]. split.
  { intros Hin. rewrite Forall_forall in Hf. by apply Hf in Hin as [_ ?]. }
  unfold llen in Hb. bool_prop. destruct (local_priority c); cbn in *; [lia|].
  destruct (targets c); [|cbn in *; lia]. cbn in *. naive_solver.
Qed.

Context (secret : string -> result AppError string).

Lemma remote_targets_names region p ts rs :
  remote_targets url_parse build secret region p ts = Ok rs ->
  map name rs = map tc_name ts /\ map priority rs = map tc_priority ts /\
  Forall (fun t => is_some (remote t) = true /\ health t = Health_default) rs.
Proof.
  revert rs. induction ts as [|t ts IH]; cbn; intros rs; [by intros [= <-]|].
  destruct (secret _) as [token|]; [cbn|done]. destruct (client_new _ _ _ _ _ _ _ _); [|done].
  destruct (remote_targets _ _ _ _ _ ts) as [rest|]; [cbn|done]. intros [= <-].
  destruct (IH rest eq_refl) as (Hn & Hp & H). cbn. rewrite Hn, Hp. auto.
Qed.

(** A validated router holds the local node and every configured target exactly once
    under distinct names, sorted by priority, with equal priorities in configured order
    and local first. *)
Lemma router_tries_targets_in_order c region ts :
  router_new url_parse url_origin build secret c region = Ok ts ->
  exists remotes,
    map name remotes = map tc_name (targets c) /\ map priority remotes = map tc_priority (targets c) /\
    ts ≡ₚ local_target c ++ remotes /\ StronglySorted priority_le ts /\
    (forall p, List.filter (fun u => priority u =? p) ts =
               List.filter (fun u => priority u =? p) (local_target c ++ remotes)) /\
    NoDup (map name ts) /\ (1 <= length ts <= 17)%nat /\ Forall (fun t => health t = Health_default) ts.
Proof.
  unfold router_new. destruct (validate _ _ _ c region) as [[]|] eqn:Hv; [|done]. cbn [rbind].
  destruct (remote_targets _ _ _ _ _ _) as [rs|] eqn:Hr; [|done]. cbn [rbind]. intros [= <-].
  destruct (remote_targets_names _ _ _ _ Hr) as (Hn & Hp & Hf). exists rs.
  destruct (sort_targets_spec (local_target c ++ rs)) as (H1 & H2 & H3).
  do 5 (split; [done|]). destruct (validated_targets _ _ Hv) as (Hnd & Hloc & Hlen1 & Hlen2).
  assert (Hlr : length rs = length (targets c)) by (by rewrite <- (length_map name), Hn, length_map).
  split; [|split].
  - rewrite H2, map_app, Hn. unfold local_target. destruct (local_priority c); cbn; [|done].
    by constructor.
  - rewrite H2, length_app, Hlr. unfold local_target in *. destruct (local_priority c); cbn in *; lia.
  - rewrite H2. apply Forall_app. split; [unfold local_target; destruct (local_priority c); by repeat constructor|].
    eapply Forall_impl; [exact Hf|]. by intros t [_ ?].
Qed.

End ready.

(** * Health under concurrent calls

    [permits] are the outstanding permits of a target with their probe flags;
    calls take, finish and drop them in any order, at any times. *)
Record Node : Type := mkNode { node_health : Health; permits : gmap nat bool }.
Definition node_new : Node := mkNode Health_default ∅.

Section node.
Context (cfg : Config).
Hypothesis threshold_ok : 1 <= failure_threshold cfg <= 100.

Inductive node_step : Node -> Node -> Prop :=
| node_admit h ps id now probe h' :
    ps !! id = None -> target_admit h now = (Some probe, h') ->
    node_step (mkNode h ps) (mkNode h' (<[id := probe]> ps))
| node_finish h ps id probe failed now :
    ps !! id = Some probe -> node_step (mkNode h ps) (mkNode (snd (finish cfg h probe failed now)) ps)
| node_drop h ps id probe :
    ps !! id = Some probe -> node_step (mkNode h ps) (mkNode (drop_permit h probe) (delete id ps)).

Definition node_reachable (n : Node) : Prop := rtc node_step node_new n.

Record node_ok (n : Node) : Prop := {
  probe_unique : forall a b, permits n !! a = Some true -> permits n !! b = Some true -> a = b;
  probe_flag : probing (node_health n) = true <-> exists a, permits n !! a = Some true;
  open_failures : is_some (open_until (node_health n)) = (failure_threshold cfg <=? failures (node_health n));
  failures_range : 0 <= failures (node_health n) <= U32_MAX;
}.

Lemma finish_probing h probe failed now : probing (snd (finish cfg h probe failed now)) = probing h.
Proof. unfold finish. destruct failed; [|done]. by destruct (_ <=? _). Qed.

Lemma finish_ok h probe failed now :
  is_some (open_until h) = (failure_threshold cfg <=? failures h) -> 0 <= failures h <= U32_MAX ->
  let h' := snd (finish cfg h probe failed now) in
  is_some (open_until h') = (failure_threshold cfg <=? failures h') /\ 0 <= failures h' <= U32_MAX.
Proof using threshold_ok.
  intros Ho Hf. unfold finish, sat_add. destruct failed; cbn.
  - destruct (Z.leb_spec (failure_threshold cfg) (Z.min U32_MAX (failures h + 1))) as [Hle|Hgt]; cbn.
    + split; [symmetry; by apply Z.leb_le|unfold U32_MAX in *; lia].
    + split; [|unfold U32_MAX in *; lia]. rewrite Ho.
      destruct (Z.leb_spec (failure_threshold cfg) (failures h)), (Z.leb_spec (failure_threshold cfg) (Z.min U32_MAX (failures h + 1)));
        unfold U32_MAX in *; lia || done.
  - split; [symmetry; apply Z.leb_gt; lia|unfold U32_MAX; lia].
Qed.

Lemma node_step_ok n n' : node_ok n -> node_step n n' -> node_ok n'.
Proof using threshold_ok.
  intros [Hu Hp Ho Hf] Hs. destruct Hs as [h ps id now probe h' Hid Ha|h ps id probe failed now Hid|h ps id probe Hid];
    cbn [node_health permits] in *.
  - unfold target_admit in Ha. destruct (open_until h) as [until|] eqn:Hop.
    + destruct (now <? until); [done|]. destruct (probing h) eqn:Hpr; [done|]. injection Ha as <- <-.
      assert (Hno : forall a, ps !! a <> Some true) by (intros a Hx; by assert (false = true) by (apply Hp; eauto)).
      constructor; cbn; [|split; [|done]| |done].
      * intros a b Hx Hy. destruct (decide (a = id)), (decide (b = id)); subst; [done|..];
          [rewrite lookup_insert_ne in Hy by done|rewrite lookup_insert_ne in Hx by done
          |rewrite lookup_insert_ne in Hx by done]; by edestruct Hno.
      * intros _. exists id. by rewrite lookup_insert_eq.
      * rewrite ?Hop. done.
    + injection Ha as <- <-.
      assert (Hsame : forall a, <[id := false]> ps !! a = Some true <-> ps !! a = Some true).
      { intros a. destruct (decide (a = id)) as [->|]; [by rewrite lookup_insert_eq, Hid|by rewrite lookup_insert_ne]. }
      constructor; cbn; [|rewrite Hp|rewrite ?Hop; done|done].
      * intros a b Hx%Hsame Hy%Hsame. auto.
      * split; intros [a Hx%Hsame]; eauto.
  - destruct (finish_ok h probe failed now Ho Hf) as [H1 H2].
    constructor; cbn [node_health permits]; rewrite ?finish_probing; auto.
  - destruct probe; cbn [drop_permit].
    + assert (Hno : forall a, delete id ps !! a <> Some true).
      { intros a [Hne Hx]%lookup_delete_Some. by apply Hne, Hu. }
      constructor; cbn; [|split; [done|]|done|done].
      * intros a b Hx. by edestruct Hno.
      * intros [a Hx]. by edestruct Hno.
    + assert (Hsame : forall a, delete id ps !! a = Some true <-> ps !! a = Some true).
      { intros a. destruct (decide (a = id)) as [->|]; [by rewrite lookup_delete_eq, Hid|by rewrite lookup_delete_ne]. }
      constructor; cbn; [|rewrite Hp|done|done].
      * intros a b Hx%Hsame Hy%Hsame. auto.
      * split; intros [a Hx%Hsame]; eauto.
Qed.

Lemma node_reachable_ok n : node_reachable n -> node_ok n.
Proof using threshold_ok.
  assert (H0 : node_ok node_new).
  { constructor; cbn.
    - intros a b. by rewrite lookup_empty.
    - split; [done|]. intros [a Ha]. by rewrite lookup_empty in Ha.
    - symmetry. apply Z.leb_gt. lia.
    - unfold U32_MAX. lia. }
  intros Hr. revert H0. unfold node_reachable in Hr. induction Hr as [|x y z Hxy _ IH]; [done|].
  intros Hx. apply IH. by eapply node_step_ok.
Qed.

(** What a logged transition says about the cooldown. *)
Definition transition_fits (tr : Transition) (before after : option Z) : Prop :=
  match tr with
  | CooldownStarted => is_some before = false /\ is_some after = true
  | ProbeFailed => is_some after = true
  | Recovered => is_some before = true /\ is_some after = false
  | TNone => is_some before = is_some after
  end.

(** Under any interleaving of permits, a node is cooling down exactly when its failures
    reached the threshold, at most one probe is outstanding, a call is refused exactly
    while the cooldown runs or a probe is out, and every logged transition describes the
    change of the cooldown. *)
Lemma node_cooldown_and_probe n :
  node_reachable n ->
  (forall a b, permits n !! a = Some true -> permits n !! b = Some true -> a = b) /\
  is_some (open_until (node_health n)) = (failure_threshold cfg <=? failures (node_health n)) /\
  (forall now, fst (target_admit (node_health n) now) = None <->
     exists until, open_until (node_health n) = Some until /\
       (now < until \/ exists a, permits n !! a = Some true)) /\
  (forall probe failed now,
     transition_fits (fst (finish cfg (node_health n) probe failed now)) (open_until (node_health n))
       (open_until (snd (finish cfg (node_health n) probe failed now)))).
Proof using threshold_ok.
  intros [Hu Hp Ho Hf]%node_reachable_ok. split; [done|]. split; [done|]. split.
  - intros now. unfold target_admit. destruct (open_until (node_health n)) as [until|].
    + setoid_rewrite <- Hp. clear Hp. destruct (Z.ltb_spec now until), (probing (node_health n)); cbn; split; try done;
        try (intros _; exists until; by auto).
      intros (u & [= <-] & [?|?]); [lia|done].
    + split; [done|]. by intros (u & ? & _).
  - intros probe failed now. unfold finish. clear Ho. destruct failed; [destruct (failure_threshold cfg <=? sat_add _ _ _)|].
    + destruct probe, (open_until _); cbn; auto.
    + by cbn.
    + destruct (open_until _); cbn; auto.
Qed.

End node.

(** * Witnesses *)
Module RoutingDemo.
Import Peer.PeerDemo.

Definition remote_target (n : string) : Target :=
  {| name := n; priority := 10; remote := Some client; health := Health_default |}.
Definition local_node : Target := {| name := "local"; priority := 0; remote := None; health := Health_default |}.

(** A peer that refuses before dispatch, then the local game client. *)
Definition refused_visit : visit :=
  {| at_check := 0; at_admit := 0; at_call := 0; at_finish := 1; network := Exchanged (Ok ok_response) net;
     peer_executed := false; local_game := refusing; local_cut := false;
     local_observation := Observation_default |}.
Definition serving_visit : visit :=
  {| at_check := 1; at_admit := 1; at_call := 1; at_finish := 2; network := DeadlineCut;
     peer_executed := false; local_game := serving; local_cut := false;
     local_observation := Observation_default |}.

#[export] Instance serving_game : PeerGame serving.
Proof. by intros route input proto e. Qed.

Definition visits : list (Target * visit) := [(remote_target "a", refused_visit); (local_node, serving_visit)].

Lemma visits_lawful : Forall (fun tv => lawful uuid_parse (fun _ => Some refusal) request tv.2) visits.
Proof.
  repeat constructor; try apply _.
  - exists refusing, (Ok local), Observation_default. split; [apply _|]. apply refusal_delivery.
  - exists refusing, (Ok local), Observation_default. split; [apply _|].
    apply (delivery_cut _ _ _ _ _ _ None). by left.
Qed.

Lemma authenticated_reads_execute_once_witness :
  exists ex ts log,
    call_inner uuid_parse (fun _ => true) to_vec (fun _ => Some refusal) Config_default MUSIC_RANKING (JObj [])
      request 10 true visits = (ex, ts, log) /\ length log = 2%nat /\ executed <$> log !! 1%nat = Some true /\
    option_map execution (log !! 1%nat) = Some ex.
Proof.
  eexists _, _, _. split; [reflexivity|]. split; [reflexivity|]. split; [reflexivity|].
  destruct (authenticated_reads_execute_once uuid_parse (fun _ => true) to_vec (fun _ => Some refusal) Config_default
              MUSIC_RANKING (JObj []) request 10 true visits _ _ _ visits_lawful eq_refl eq_refl) as [H _].
  destruct (H 1%nat _ eq_refl eq_refl) as [_ E]. exact (f_equal Some (eq_sym E)).
Defined.

Definition two : Config :=
  {| local_priority := Some 10;
     targets := [{| tc_name := "b"; tc_origin := "https://b.example"; tc_token_env := "B"; tc_priority := 10;
                    tc_regional_paths := false; tc_allow_http := false |};
                 {| tc_name := "c"; tc_origin := "https://c.example"; tc_token_env := "C"; tc_priority := 5;
                    tc_regional_paths := false; tc_allow_http := false |}];
     timeout_ms := 20000; max_inflight := 64; failure_threshold := 3; cooldown_ms := 30000;
     transport := Policy_default |}.
Definition url_of (s : string) : option Url :=
  Some {| scheme := "https"; host_str := Some s; username := ""; password := None; path := "/";
          Http.query := None; fragment := None |}.
Definition origin_of (u : Url) : string := default ""%string (host_str u).

Lemma router_tries_targets_in_order_witness :
  exists ts, router_new url_of origin_of true (fun _ => Ok "t"%string) two Jp = Ok ts /\
    map name ts = ["c"; "local"; "b"]%string /\ StronglySorted priority_le ts.
Proof.
  eexists. split; [reflexivity|]. split; [reflexivity|].
  by edestruct (router_tries_targets_in_order url_of origin_of true (fun _ => Ok "t"%string) two Jp)
    as (? & _ & _ & _ & H & _); [reflexivity|].
Defined.

Lemma node_cooldown_and_probe_witness :
  is_some (open_until (node_health node_new)) = false.
Proof.
  destruct (node_cooldown_and_probe Config_default ltac:(split; discriminate) node_new (rtc_refl _ _)) as (_ & H & _).
  exact H.
Defined.

End RoutingDemo.
