(* ===== verification/Api.v ===== *)
(** The public operation handlers ([api.rs]): their validation, the operation
    they pass to the game client, and what they do to its answer.

    Extraction of path segments and query strings is the framework's: a handler
    is given the integers and strings of its own argument types. *)
From Stdlib Require Import ZArith Lia Ascii String List Bool Permutation.
From stdpp Require Import base list strings decidable sorting gmap.
From S2P Require Import Prelude Errors Regions Http Peer NodeRouting.

Local Open Scope Z_scope.
Local Open Scope rust_scope.

Definition I32_MAX : Z := 2147483647.

(** * Integers in text *)

(** The digits of [str::parse]: at least one, nothing else. *)
Definition digit_of (c : ascii) : option Z := if is_ascii_digit c then Some (byte_of c - 48) else None.
Fixpoint parse_digits (s : string) (acc : Z) : option Z :=
  match s with
  | EmptyString => Some acc
  | String c s => match digit_of c with Some d => parse_digits s (10 * acc + d) | None => None end
  end.
Definition parse_unsigned (s : string) : option Z := if is_empty s then None else parse_digits s 0.
(** [str::parse::<i32>]: an optional sign, and no overflow. *)
Definition parse_i32 (s : string) : option Z :=
  let n := match s with
           | String c rest =>
               if char_is 45 c then option_map Z.opp (parse_unsigned rest)
               else if char_is 43 c then parse_unsigned rest
               else parse_unsigned s
           | EmptyString => None
           end in
  match n with Some v => if in_range (-2147483648) I32_MAX v then Some v else None | None => None end.

(** [sort_unstable] and [dedup] of integers. *)
Fixpoint insert_sorted (v : Z) (l : list Z) : list Z :=
  match l with
  | [] => [v]
  | w :: l' => if v <=? w then v :: l else w :: insert_sorted v l'
  end.
Definition sort (l : list Z) : list Z := fold_right insert_sorted [] l.
Fixpoint dedup_from (v : Z) (l : list Z) : list Z :=
  match l with
  | [] => []
  | w :: l => if w =? v then dedup_from v l else w :: dedup_from w l
  end.
Definition dedup (l : list Z) : list Z := match l with [] => [] | v :: l => v :: dedup_from v l end.

Definition parse_ranks (raw : string) : result AppError (list Z) :=
  if 1100 <? len raw then Err InvalidRequest
  else
    values <-? ok_or (try_map parse_i32 (split_on "," raw)) InvalidRequest;;
    if (llen values =? 0) || (100 <? llen values) || List.existsb (fun v => v <=? 0) values then Err InvalidRequest
    else if negb (llen (dedup (sort values)) =? llen values) then Err InvalidRequest
    else Ok values.

(** * Requests *)
Inductive public_request : Type :=
| RServers
| RAnnouncements (tab : Z)
| RAnnouncement (id : Z)
| RProfile (id : Z)
| REventRanking (id : Z) (ranks : string)
| REventDeck (id : Z) (player : string)
| RMusicRanking (id : Z)
| RChallengeRanking (id : Z).

Definition positive (id : Z) : result AppError unit := if id <=? 0 then Err InvalidRequest else Ok tt.

(** The operation a handler passes on. *)
Definition public_operation (r : public_request) : result AppError Operation :=
  match r with
  | RServers => Ok OServers
  | RAnnouncements tab => if negb (in_range 0 2 tab) then Err InvalidRequest else Ok (OAnnouncements tab)
  | RAnnouncement id => _ <-? positive id;; Ok (OAnnouncement id)
  | RProfile id => _ <-? positive id;; Ok (OProfile id)
  | REventRanking id raw => _ <-? positive id;; ranks <-? parse_ranks raw;; Ok (OEventRanking id ranks)
  | REventDeck id player =>
      if (id <=? 0) || is_empty player || (128 <? len player)
         || negb (all_bytes (fun b => is_ascii_alphanumeric b || char_is 45 b || char_is 95 b) player)
      then Err InvalidRequest else Ok (OEventDeck id player)
  | RMusicRanking id => _ <-? positive id;; Ok (OMusicRanking id)
  | RChallengeRanking id => _ <-? positive id;; Ok (OChallengeRanking id)
  end.

(** [public_ranking]: the fields that describe the service account. *)
Definition is_ranking (r : public_request) : bool :=
  match r with RMusicRanking _ | RChallengeRanking _ => true | _ => false end.
Definition without_account (v : json) : json := json_remove "myScore" (json_remove "myRank" v).

(** A handler; the operations it passed to [public_call] are returned too. *)
Definition public_handler (public_call : Operation -> result AppError json) (r : public_request) : result AppError json * list Operation :=
  match public_operation r with
  | Err e => (Err e, [])
  | Ok op => (if is_ranking r then rmap without_account (public_call op) else public_call op, [op])
  end.

(** * The game client's entry points ([client.rs]) *)

(** [public_query]: the router if there is one, otherwise the local client. *)
Definition public_query (router : option (Operation -> Execution)) (call : string -> json -> result AppError json)
    (observed : Observation) (op : Operation) : Execution :=
  match router with
  | Some routed => routed op
  | None =>
      {| ex_result := match rpc op with Ok (route, input) => call route input | Err e => Err e end; ex_observation := observed |}
  end.
Definition public_call (router : option (Operation -> Execution)) (call : string -> json -> result AppError json)
    (observed : Observation) (op : Operation) : result AppError json :=
  ex_result (public_query router call observed op).
Definition call_account (call : string -> json -> option string -> result AppError json) (name route : string) : result AppError json :=
  if negb (String.eqb route WHOAMI || String.eqb route PLAYER_DATA) then Err InvalidRequest
  else call route (JObj []) (Some name).

(** [system]: the fields and the observation of an execution. *)
Definition system (region : Region) (platform : Platform) (supported : list string) (observation_json : Observation -> json)
    (x : Execution) : result AppError json :=
  let platform_json := JStr (platform_name platform) in
  match ex_result x with
  | Ok _ =>
      Ok (JObj [("status", JStr "available"); ("region", JStr (region_name region));
                ("area_id", match area_id region with Some a => JStr a | None => JNull end); ("platform", platform_json);
                ("protocol_family", JStr (family region)); ("supported_rpcs", JArr (map JStr supported));
                ("observation", observation_json (ex_observation x))]%string)
  | Err (Grpc _ | Maintenance _) =>
      Ok (JObj [("status", JStr "unavailable"); ("region", JStr (region_name region)); ("platform", platform_json);
                ("observation", observation_json (ex_observation x))]%string)
  | Err e => Err e
  end.

(** [operations]: the status a region's document gives an operation. *)
Definition OPERATIONS : list string :=
  ["version"; "announcements"; "profile"; "event_ranking"; "event_deck"; "music_ranking"; "challenge_ranking";
   "account_login"; "account_identity"; "player_data"]%string.
Definition operation_status (region : Region) (operation : string) : string :=
  match region with
  | Cn => "reserved"
  | Jp => if String.eqb operation "account_login" then "static_credentials" else "live_verified"
  | _ => if mem operation ["version"; "account_login"; "player_data"; "announcements"; "profile"; "music_ranking"]%string
         then "live_verified" else "implemented_unverified"
  end.
Definition operations (region : Region) : json :=
  JObj (map (fun o => (o, JStr (operation_status region o))) OPERATIONS ++
        [("servers"%string, JStr (match region with Cn => "reserved" | Jp => "unsupported" | _ => "live_verified" end))]).

(** * Lemmas *)
Lemma insert_sorted_perm v l : Permutation (insert_sorted v l) (v :: l).
Proof.
  induction l as [|w l IH]; [done|]. cbn. destruct (v <=? w); [done|].
  transitivity (w :: v :: l); [by constructor|apply perm_swap].
Qed.
Lemma sort_perm l : Permutation (sort l) l.
Proof. induction l as [|v l IH]; [done|]. cbn. rewrite insert_sorted_perm. by constructor. Qed.
Lemma insert_sorted_sorted v l : StronglySorted Z.le l -> StronglySorted Z.le (insert_sorted v l).
Proof.
  induction 1 as [|w l Hl IH Hw]; cbn; [by repeat constructor|]. destruct (Z.leb_spec v w) as [Hle|Hlt].
  - constructor; [by constructor|]. constructor; [done|]. eapply Forall_impl; [exact Hw|]. cbn. lia.
  - constructor; [done|]. rewrite insert_sorted_perm. constructor; [lia|done].
Qed.
Lemma sort_sorted l : StronglySorted Z.le (sort l).
Proof. induction l as [|v l IH]; [constructor|]. by apply insert_sorted_sorted. Qed.

Lemma dedup_from_length v l : (length (dedup_from v l) <= length l)%nat.
Proof.
  revert v. induction l as [|w l IH]; intros v; [done|]. cbn. destruct (_ =? _); cbn; [specialize (IH v)|specialize (IH w)]; lia.
Qed.
Lemma dedup_from_nodup v l :
  StronglySorted Z.le (v :: l) -> length (dedup_from v l) = length l <-> NoDup (v :: l).
Proof.
  revert v. induction l as [|w l IH]; intros v Hs.
  - split; [|done]. intros _. apply NoDup_singleton.
  - inversion Hs as [|? ? Hl Hv]; subst. specialize (IH w Hl). apply Forall_cons_iff in Hv as [Hw Hv]. cbn. rewrite NoDup_cons.
    destruct (Z.eqb_spec w v) as [->|Hne].
    + split; [|intros [Hn _]; destruct Hn; by left]. pose proof (dedup_from_length v l). lia.
    + cbn. split.
      * intros [= E]. apply IH in E. split; [|done]. intros [->|Hin]%elem_of_cons; [done|]. inversion Hl as [|? ? _ Hall]; subst.
        rewrite list_elem_of_In in Hin. rewrite List.Forall_forall in Hall. specialize (Hall _ Hin). lia.
      * intros [_ Hn]. f_equal. by apply IH.
Qed.

Lemma distinct_values l : (llen (dedup (sort l)) =? llen l) = true <-> NoDup l.
Proof.
  unfold llen. rewrite Z.eqb_eq, Nat2Z.inj_iff. pose proof (sort_perm l) as Hp. pose proof (sort_sorted l) as Hs.
  assert (NoDup (sort l) <-> NoDup l) as <- by (by split; apply NoDup_Permutation_proper).
  rewrite <- (Permutation_length Hp). clear Hp. destruct (sort l) as [|v l']; [by split; [constructor|]|]. cbn.
  rewrite <- dedup_from_nodup by done. lia.
Qed.

Lemma set_of_distinct (l : list Z) : (Z.of_nat (size (list_to_set l : gset Z)) =? llen l) = true <-> NoDup l.
Proof.
  unfold llen. rewrite Z.eqb_eq, Nat2Z.inj_iff. split; [|apply size_list_to_set].
  assert (Hle : forall l : list Z, (size (list_to_set l : gset Z) <= length l)%nat).
  { intros k. induction k as [|v k IH]; [done|]. cbn [list_to_set length]. rewrite size_union_alt, size_singleton.
    assert ((list_to_set k ∖ {[v]} : gset Z) ⊆ list_to_set k) as Hs%subseteq_size by set_solver. lia. }
  induction l as [|v l IH]; [constructor|]. cbn [list_to_set length]. intros E. apply NoDup_cons.
  destruct (decide (v ∈ l)) as [Hin|Hn].
  - exfalso. assert (({[v]} ∪ list_to_set l : gset Z) = list_to_set l) as E' by set_solver. rewrite E' in E. specialize (Hle l). lia.
  - split; [done|]. apply IH. rewrite size_union, size_singleton in E by set_solver. lia.
Qed.

(** ** Decimal numbers *)
Lemma digit_char_byte d : 0 <= d <= 9 -> byte_of (digit_char d) = 48 + d.
Proof. intros Hd. unfold byte_of, digit_char. rewrite nat_ascii_embedding; lia. Qed.
Lemma digit_of_char d : 0 <= d <= 9 -> digit_of (digit_char d) = Some d.
Proof.
  intros Hd. unfold digit_of, is_ascii_digit. rewrite digit_char_byte by done. rewrite (proj2 (in_range_spec _ _ _)) by lia. f_equal. lia.
Qed.

Lemma parse_printed f n acc : 0 <= n < 10 ^ Z.of_nat f -> parse_digits (dec_digits f n acc) 0 = parse_digits acc n.
Proof.
  revert n acc. induction f as [|f IH]; intros n acc Hn; [cbn in *; by replace n with 0 by lia|]. cbn [dec_digits].
  assert (Hd : 0 <= n mod 10 <= 9) by (pose proof (Z.mod_pos_bound n 10); lia). destruct (Z.ltb_spec n 10) as [Hlt|Hge].
  - cbn. rewrite digit_of_char by done. by rewrite Z.mod_small by lia.
  - rewrite IH; [|rewrite Nat2Z.inj_succ, Z.pow_succ_r in Hn by lia; split; [apply Z.div_pos; lia|apply Z.div_lt_upper_bound; lia]].
    cbn. rewrite digit_of_char by done. f_equal. pose proof (Z.div_mod n 10). lia.
Qed.
Lemma printed_length f n acc k :
  0 <= n < 10 ^ Z.of_nat (S k) -> (String.length (dec_digits f n acc) <= S k + String.length acc)%nat.
Proof.
  revert n acc k. induction f as [|f IH]; intros n acc k Hn; [cbn; lia|]. cbn [dec_digits]. destruct (Z.ltb_spec n 10) as [Hlt|Hge]; [cbn; lia|].
  destruct k as [|k]; [cbn in Hn; lia|]. transitivity (S k + String.length (String (digit_char (n mod 10)) acc))%nat; [|cbn; lia].
  apply IH. rewrite Nat2Z.inj_succ, Z.pow_succ_r in Hn by lia. split; [apply Z.div_pos; lia|apply Z.div_lt_upper_bound; lia].
Qed.
Lemma printed_digits f n acc : 0 <= n -> all_bytes is_ascii_digit (dec_digits f n acc) = all_bytes is_ascii_digit acc.
Proof.
  revert n acc. induction f as [|f IH]; intros n acc Hn; [done|]. cbn [dec_digits].
  assert (Hd : is_ascii_digit (digit_char (n mod 10)) = true).
  { pose proof (Z.mod_pos_bound n 10). unfold is_ascii_digit. rewrite digit_char_byte by lia. apply in_range_spec. lia. }
  destruct (n <? 10); [cbn; by rewrite Hd|]. rewrite IH by (apply Z.div_pos; lia). cbn. by rewrite Hd.
Qed.

Lemma u64_parse n : 0 <= n <= I32_MAX -> parse_i32 (u64_to_string n) = Some n /\ all_bytes is_ascii_digit (u64_to_string n) = true /\
  len (u64_to_string n) <= 10.
Proof.
  unfold I32_MAX. intros Hn. unfold u64_to_string.
  assert (Hp : parse_digits (dec_digits 20 n "") 0 = Some n) by (by rewrite parse_printed by (cbn; lia)).
  assert (Hd : all_bytes is_ascii_digit (dec_digits 20 n "") = true) by (by rewrite printed_digits by lia).
  assert (Hl : (String.length (dec_digits 20 n "") <= 10)%nat) by (pose proof (printed_length 20 n "" 9); cbn in *; lia).
  split; [|split; [done|unfold len; lia]]. unfold parse_i32, parse_unsigned.
  destruct (dec_digits 20 n "") as [|c s] eqn:E.
  - exfalso. assert (Hne : forall f m acc, (0 < String.length (dec_digits (S f) m acc))%nat).
    { clear. intros f. induction f as [|f IH]; intros m acc; cbn [dec_digits]; destruct (m <? 10); cbn [String.length]; try lia. apply IH. }
    specialize (Hne 19%nat n ""%string). rewrite E in Hne. cbn in Hne. lia.
  - cbn [all_bytes] in Hd. apply andb_true_iff in Hd as [Hc _]. unfold is_ascii_digit in Hc. apply in_range_spec in Hc.
    unfold char_is. destruct (Z.eqb_spec (byte_of c) 45); [lia|]. destruct (Z.eqb_spec (byte_of c) 43); [lia|]. cbn [is_empty].
    rewrite Hp. rewrite (proj2 (in_range_spec _ _ _)); [done|unfold I32_MAX; lia].
Qed.

(** ** Lists of ranks *)
Definition ranks_text (l : list Z) : string := String.concat "," (map u64_to_string l).

Lemma concat_cons x y l : String.concat "," (x :: y :: l) = (x ++ String "," (String.concat "," (y :: l)))%string.
Proof. done. Qed.

Lemma split_ranks l : l <> [] -> Forall (fun v => 0 <= v <= I32_MAX) l -> split_on "," (ranks_text l) = map u64_to_string l.
Proof.
  unfold ranks_text. intros Hne Hall.
  assert (Hw : forall v, 0 <= v <= I32_MAX -> without "," (u64_to_string v) = true).
  { intros v Hv. destruct (u64_parse v Hv) as (_ & Hd & _). revert Hd. apply all_bytes_impl. intros c Hc. apply negb_true_iff, Ascii.eqb_neq.
    intros ->. by vm_compute in Hc. }
  destruct l as [|v l]; [done|]. clear Hne. revert v Hall. induction l as [|w l IH]; intros v Hall; apply Forall_cons_iff in Hall as [Hv Hall].
  - cbn [map String.concat]. apply split_on_none. by apply Hw.
  - cbn [map]. rewrite concat_cons, split_on_app by by apply Hw. f_equal. by apply IH.
Qed.

Lemma ranks_text_length l : Forall (fun v => 0 <= v <= I32_MAX) l -> len (ranks_text l) <= 11 * llen l.
Proof.
  unfold ranks_text, len, llen. induction 1 as [|v l Hv _ IH]; [done|]. destruct (u64_parse v Hv) as (_ & _ & Hl). unfold len in Hl.
  destruct l as [|w l]; [cbn [map String.concat length]; lia|].
  cbn [map] in *. rewrite concat_cons. rewrite append_length. cbn [String.length length] in *. lia.
Qed.

Lemma existsb_positive l : List.existsb (fun v => v <=? 0) l = false <-> Forall (fun v => 0 < v) l.
Proof.
  induction l as [|v l IH]; [by split|]. cbn. rewrite orb_false_iff, IH, Forall_cons_iff, Z.leb_gt. done.
Qed.

(** What both validators ask of the ranks themselves. *)
Definition ranks_fit (l : list Z) : Prop := 1 <= llen l <= 100 /\ NoDup l /\ Forall (fun v => 0 < v) l.

Lemma parse_ranks_ok raw l :
  parse_ranks raw = Ok l <-> len raw <= 1100 /\ try_map parse_i32 (split_on "," raw) = Some l /\ ranks_fit l.
Proof.
  unfold parse_ranks, ranks_fit. destruct (Z.ltb_spec 1100 (len raw)); [split; [done|lia]|].
  destruct (try_map _ _) as [vs|]; cbn [ok_or rbind]; [|split; [done|by intros (_ & ? & _)]].
  assert (Hl : 0 <= llen vs) by (unfold llen; lia).
  destruct (Z.eqb_spec (llen vs) 0) as [E0|E0]; [split; [done|intros (_ & [= ->] & ? & _); lia]|].
  destruct (Z.ltb_spec 100 (llen vs)); [split; [done|intros (_ & [= ->] & ? & _); lia]|]. cbn [orb].
  destruct (List.existsb _ vs) eqn:E; cbn [orb].
  { split; [done|]. intros (_ & [= ->] & _ & _ & Hp). apply existsb_positive in Hp. congruence. }
  apply existsb_positive in E. destruct (llen (dedup (sort vs)) =? llen vs) eqn:Ed; cbn [negb].
  - apply distinct_values in Ed. split; [intros [= <-]|by intros (_ & [= ->] & _)]. split; [done|]. split; [done|]. split; [lia|done].
  - split; [done|]. intros (_ & [= ->] & _ & Hn & _). apply distinct_values in Hn. congruence.
Qed.

Lemma parse_ranks_error raw e : parse_ranks raw = Err e -> e = InvalidRequest.
Proof.
  unfold parse_ranks. destruct (_ <? _); [by intros [= <-]|]. destruct (try_map _ _); cbn [ok_or rbind]; [|by intros [= <-]].
  destruct (_ || _); [by intros [= <-]|]. destruct (negb _); [by intros [= <-]|done].
Qed.

(** Every list of 1 to 100 distinct positive 32-bit ranks, written in decimal and
    joined by commas, fits the request budget and parses back to itself, so every list
    the peer contract allows can be requested. *)
Lemma every_list_of_ranks_can_be_asked l :
  1 <= llen l <= 100 -> NoDup l -> Forall (fun v => 1 <= v <= I32_MAX) l ->
  parse_ranks (ranks_text l) = Ok l /\ forall id, 0 < id -> public_operation (REventRanking id (ranks_text l)) = Ok (OEventRanking id l).
Proof.
  intros Hl Hn Hall. assert (Hall' : Forall (fun v => 0 <= v <= I32_MAX) l) by (eapply List.Forall_impl; [|exact Hall]; intros v Hv; cbv beta in *; lia).
  assert (Hp : parse_ranks (ranks_text l) = Ok l).
  { apply parse_ranks_ok. pose proof (ranks_text_length l Hall') as Hlen. split; [lia|]. clear Hlen. split.
    - rewrite split_ranks; [|intros ->; unfold llen in Hl; cbn [length] in Hl; lia|done]. apply try_map_ok. clear Hl Hn Hall.
      induction Hall' as [|v l Hv _ IH]; [constructor|]. constructor; [by apply u64_parse|done].
    - split; [done|]. split; [done|]. eapply List.Forall_impl; [|exact Hall]. intros v Hv. cbv beta in *. lia. }
  split; [done|]. intros id Hid. cbn [public_operation]. unfold positive. destruct (Z.leb_spec id 0); [lia|]. cbn [rbind]. by rewrite Hp.
Qed.
Lemma every_list_of_ranks_can_be_asked_witness : parse_ranks "2147483647,1,100" = Ok [2147483647; 1; 100].
Proof.
  refine (proj1 (every_list_of_ranks_can_be_asked [2147483647; 1; 100] _ _ _)).
  - split; discriminate.
  - apply (bool_decide_eq_true_1 (NoDup [2147483647; 1; 100])). vm_compute. reflexivity.
  - repeat constructor; discriminate.
Defined.

(** * The handlers and the peer contract *)

(** The operation a request names, before any validation of its values. *)
Definition named (r : public_request) : option Operation :=
  match r with
  | RServers => Some OServers
  | RAnnouncements tab => Some (OAnnouncements tab)
  | RAnnouncement id => Some (OAnnouncement id)
  | RProfile id => Some (OProfile id)
  | REventRanking id raw =>
      if len raw <=? 1100 then option_map (OEventRanking id) (try_map parse_i32 (split_on "," raw)) else None
  | REventDeck id player => Some (OEventDeck id player)
  | RMusicRanking id => Some (OMusicRanking id)
  | RChallengeRanking id => Some (OChallengeRanking id)
  end.

Lemma rpc_ranking_ok id l :
  rpc (OEventRanking id l) = (if bool_decide (ranks_fit l /\ 0 < id)
    then Ok (EVENT_RANKING, JObj [("eventId"%string, JStr (u64_to_string id)); ("ranks"%string, JArr (map JNum l))]) else Err InvalidRequest).
Proof.
  unfold rpc, rpc_id. case_bool_decide as E.
  - destruct E as [(Hl & Hn & Hp) Hid]. apply set_of_distinct in Hn as ->. apply existsb_positive in Hp as ->.
    destruct (Z.eqb_spec (llen l) 0); [lia|]. destruct (Z.ltb_spec 100 (llen l)); [lia|]. cbn [negb orb]. by apply Z.ltb_lt in Hid as ->.
  - destruct (_ || existsb _ _) eqn:Ev; [done|]. bool_prop. destruct (Z.ltb_spec 0 id) as [Hid|]; [|done]. exfalso. apply E. split; [|done].
    assert (0 <= llen l) by (unfold llen; lia). split; [lia|]. split; [|by apply existsb_positive].
    apply set_of_distinct. by apply Z.eqb_eq.
Qed.

(** C24: A public handler accepts a request exactly when the peer contract has an RPC for
    the operation it names, passes exactly this operation on, once, and otherwise
    answers an invalid request without any call; its answer never carries account-
    relative fields on the rankings and is the game client's on every other route. *)
Theorem public_handlers_match_the_peer_contract call_public r :
  public_handler call_public r =
    match named r with
    | Some op =>
        match rpc op with
        | Ok (route, _) => (rmap (strip_account_fields route) (call_public op), [op])
        | Err _ => (Err InvalidRequest, [])
        end
    | None => (Err InvalidRequest, [])
    end.
Proof.
  assert (Hsame : forall f : json -> json, (forall v, f v = v) -> forall x : result AppError json, rmap f x = x).
  { intros f Hf [v|e]; cbn; [by rewrite Hf|done]. }
  assert (Hpos : forall id, positive id = if 0 <? id then Ok tt else Err InvalidRequest).
  { intros id. unfold positive. destruct (Z.leb_spec id 0), (Z.ltb_spec 0 id); try lia; done. }
  unfold public_handler. destruct r as [|tab|id|id|id raw|id player|id|id]; cbn [public_operation named is_ranking].
  - cbn. by rewrite Hsame.
  - cbn. destruct (in_range 0 2 tab); cbn; [by rewrite Hsame|done].
  - rewrite Hpos. unfold rpc, rpc_id. destruct (0 <? id); cbn; [by rewrite Hsame|done].
  - rewrite Hpos. unfold rpc, rpc_id. destruct (0 <? id); cbn; [by rewrite Hsame|done].
  - rewrite Hpos. destruct (Z.leb_spec (len raw) 1100) as [Hr|Hr]; [destruct (try_map _ _) as [l|] eqn:Et|]; cbn [option_map].
    + rewrite rpc_ranking_ok. destruct (parse_ranks raw) as [l'|e] eqn:Ep.
      * apply parse_ranks_ok in Ep as (_ & E & Hfit). rewrite Et in E. injection E as <-. destruct (Z.ltb_spec 0 id).
        -- rewrite bool_decide_eq_true_2 by done. cbn. by rewrite Hsame.
        -- rewrite bool_decide_eq_false_2; [done|]. lia.
      * apply parse_ranks_error in Ep as E. subst e. rewrite bool_decide_eq_false_2; [by destruct (0 <? id)|].
        intros [Hfit _]. assert (parse_ranks raw = Ok l) by (by apply parse_ranks_ok). congruence.
    + destruct (parse_ranks raw) as [l'|e] eqn:Ep; [apply parse_ranks_ok in Ep as (_ & E & _); congruence|].
      apply parse_ranks_error in Ep as ->. by destruct (0 <? id).
    + destruct (parse_ranks raw) as [l'|e] eqn:Ep; [apply parse_ranks_ok in Ep as (E & _); lia|].
      apply parse_ranks_error in Ep as ->. by destruct (0 <? id).
  - unfold rpc, rpc_id. destruct (_ || negb _) eqn:E1.
    + destruct (is_empty player || _ || _) eqn:E2; [done|]. rewrite !orb_true_iff in E1. rewrite !orb_false_iff in E2.
      destruct (Z.ltb_spec 0 id); [|done]. exfalso. destruct E1 as [[[E1|E1]|E1]|E1]; [apply Z.leb_le in E1; lia|..]; tauto || (destruct E2 as [[? ?] ?]; congruence).
    + bool_prop. match goal with H : all_bytes _ _ = true |- _ => rewrite H end.
      match goal with H : is_empty _ = false |- _ => rewrite H end.
      destruct (Z.ltb_spec 128 (len player)); [lia|]. destruct (Z.ltb_spec 0 id); [|lia]. cbn. by rewrite Hsame.
  - rewrite Hpos. unfold rpc, rpc_id. by destruct (0 <? id).
  - rewrite Hpos. unfold rpc, rpc_id. by destruct (0 <? id).
Qed.
