(* ===== verification/Upstream.v ===== *)
(** Game calls: policy, gRPC framing, answers and retries ([config.rs]'s
    [UpstreamConfig], [client.rs]'s [execute], [execute_once] and the version
    state, [resources.rs]'s release selection).

    What the HTTP client delivers is an argument of [execute_once]; the
    protocol bundle, the JSON and semver parsers and the RFC 3339 check are
    parameters. *)
From Stdlib Require Import ZArith Lia Ascii String List Bool.
From stdpp Require Import base list strings decidable gmap.
From S2P Require Import Prelude Errors Regions Versions Http AssetJobs PathHealth Peer.

Local Open Scope Z_scope.

(** ** Policy *)
Record UpstreamConfig : Type := {
  up_connect_timeout_ms : Z;
  proxy_url_env : option string;
  proxy_authorization_env : option string;
  up_timeout_ms : Z;
  up_max_response_bytes : Z;
  up_max_inflight : Z;
  anonymous_attempts : Z;
  retry_delay_ms : Z;
  anonymous_max_inflight : option Z;
  coalesce_public_reads : bool;
  http2_keepalive_interval_ms : option Z;
  http2_keepalive_timeout_ms : option Z;
  version_max_age_seconds : Z;
}.
Definition UpstreamConfig_default : UpstreamConfig :=
  {| up_connect_timeout_ms := 10000; proxy_url_env := None; proxy_authorization_env := None;
     up_timeout_ms := 20000; up_max_response_bytes := 8 * 1024 * 1024; up_max_inflight := 64;
     anonymous_attempts := 1; retry_delay_ms := 250; anonymous_max_inflight := None;
     coalesce_public_reads := false; http2_keepalive_interval_ms := None;
     http2_keepalive_timeout_ms := None; version_max_age_seconds := 600 |}.

(** Interval and acknowledgement timeout of the HTTP/2 keepalive, in
    milliseconds. *)
Definition http2_keepalive (c : UpstreamConfig) : option (Z * Z) :=
  if bool_decide (http2_keepalive_interval_ms c = Some 0) then None
  else
    let interval := default (Z.min (up_timeout_ms c / 2) 10000) (http2_keepalive_interval_ms c) in
    let ack := default (Z.min (up_timeout_ms c / 4) 5000) (http2_keepalive_timeout_ms c) in
    let explicit := is_some (http2_keepalive_interval_ms c) || is_some (http2_keepalive_timeout_ms c) in
    if negb explicit && (ack <? 1000) then None else Some (interval, ack).

Definition explicit_keepalive_misses_deadline (c : UpstreamConfig) : bool :=
  (is_some (http2_keepalive_interval_ms c) || is_some (http2_keepalive_timeout_ms c))
  && some_and (http2_keepalive c) (fun '(interval, ack) => up_timeout_ms c <=? interval + ack).

Definition upstream_validate (c : UpstreamConfig) : result AppError unit :=
  if negb (in_range 100 300000 (up_connect_timeout_ms c))
     || (is_some (proxy_authorization_env c) && is_none (proxy_url_env c))
     || some_and (proxy_url_env c) is_empty || some_and (proxy_authorization_env c) is_empty
     || negb (in_range 100 300000 (up_timeout_ms c))
     || negb (in_range 1024 (128 * 1024 * 1024) (up_max_response_bytes c))
     || negb (in_range 1 4096 (up_max_inflight c)) || negb (in_range 1 5 (anonymous_attempts c))
     || negb (in_range 1 10000 (retry_delay_ms c))
     || some_and (anonymous_max_inflight c) (fun n => negb (in_range 1 64 n) || (up_max_inflight c <? n))
     || (is_some (http2_keepalive_timeout_ms c) && bool_decide (http2_keepalive_interval_ms c = Some 0))
     || some_and (http2_keepalive_interval_ms c) (fun v => negb (v =? 0) && negb (in_range 1000 300000 v))
     || some_and (http2_keepalive_timeout_ms c) (fun v => negb (in_range 1000 60000 v))
     || explicit_keepalive_misses_deadline c
     || negb (in_range 60 86400 (version_max_age_seconds c))
  then Err (Errors.Config "upstream request policy exceeds supported bounds") else Ok tt.

Definition anonymous_slots (c : UpstreamConfig) : Z :=
  Z.min (default 4 (anonymous_max_inflight c)) (up_max_inflight c).

(** ** gRPC framing *)

(** [u32::to_be_bytes] and [from_be_bytes]. *)
Definition to_be_bytes (n : Z) : list Z := [n / 16777216 mod 256; n / 65536 mod 256; n / 256 mod 256; n mod 256].
Definition from_be_bytes (b0 b1 b2 b3 : Z) : Z := ((b0 * 256 + b1) * 256 + b2) * 256 + b3.

(** [encoded.len() as u32] wraps. *)
Definition grpc_frame (encoded : list Z) : list Z :=
  0 :: to_be_bytes (llen encoded mod 4294967296) ++ encoded.

Definition grpc_unframe (bytes : list Z) : result AppError (list Z) :=
  match bytes with
  | c :: b0 :: b1 :: b2 :: b3 :: rest =>
      if negb (c =? 0) then Err Protocol
      else if from_be_bytes b0 b1 b2 b3 =? llen rest then Ok rest else Err Protocol
  | _ => Err Protocol
  end.

(** ** Headers and codes *)

(** [header]: the value as visible ASCII. *)
Definition header (md : list (string * string)) (key : string) : option string :=
  match header_get key md with Some v => header_str v | None => None end.

(** [HeaderMap::extend]: the trailers replace the headers of their names. *)
Definition header_extend (md trailers : list (string * string)) : list (string * string) :=
  List.filter (fun kv => negb (existsb (fun t => String.eqb (fst t) (fst kv)) trailers)) md ++ trailers.

Definition application_code (md : list (string * string)) : option string :=
  match header md "x-sirius-error-code" with
  | Some v =>
      if negb (is_empty v) && (len v <=? 64)
         && all_bytes (fun c => is_ascii_upper c || is_ascii_digit c || char_is 95 c) v
      then Some v else None
  | None => None
  end.

(** [str::parse::<u16>]: decimal digits after an optional plus sign. *)
Fixpoint parse_digits (acc : Z) (s : string) : option Z :=
  match s with
  | EmptyString => Some acc
  | String c s => if is_ascii_digit c then parse_digits (acc * 10 + (byte_of c - 48)) s else None
  end.
Definition parse_u16 (s : string) : option Z :=
  let digits := match s with
                | String c s' => if char_is 43 c then s' else s
                | EmptyString => s
                end in
  if is_empty digits then None
  else match parse_digits 0 digits with
       | Some n => if n <=? U16_MAX then Some n else None
       | None => None
       end.

Definition grpc_status_of (md : list (string * string)) : option Z :=
  match header md "grpc-status" with
  | Some s => match parse_u16 s with
              | Some n => if n <=? 16 then Some n else None
              | None => None
              end
  | None => None
  end.

Definition MASTER_VERSION_MISMATCH : string := "MASTER_VERSION_MISMATCH".
Definition CLIENT_UPDATE_REQUIRED : string := "CLIENT_UPDATE_REQUIRED".
Definition version_signal (code : option string) : bool :=
  some_and code (fun c => String.eqb c MASTER_VERSION_MISMATCH || String.eqb c CLIENT_UPDATE_REQUIRED).

Definition target_not_found (global : bool) (route : string) (response : result AppError json) (code : option string) : bool :=
  (if global
   then (String.eqb route PROFILE || String.eqb route EVENT_DECK)
        && match response with Err (Grpc _) => true | _ => false end
   else String.eqb route PROFILE
        && match response with Err (Grpc n) => (n =? 2) || (n =? 7) | _ => false end)
  && bool_decide (code = Some "PLAYER_NOT_FOUND"%string).

(** ** Release selection ([resources.rs]) *)
Record Release : Type := {
  rel_version : string;
  ios : option string;
  android : option string;
  minimum : option string;
}.

Definition component_part (s : string) : bool :=
  negb (is_empty s) && (len s <=? 256) && negb (String.eqb s "." || String.eqb s "..")
  && all_bytes (fun b => is_ascii_alphanumeric b || char_is 45 b || char_is 95 b || char_is 46 b) s.

Section releases.
Context {V : Type} (vcmp : V -> V -> comparison) (semver_parse : string -> option V).
Context (json_parse : string -> option json) (release_of : json -> option Release)
        (releases_of : json -> option (list Release)).

(** [BTreeMap::insert] by minimum client version; [None] when the key exists. *)
Fixpoint insert_release (v : V) (r : Release) (m : list (V * Release)) : option (list (V * Release)) :=
  match m with
  | [] => Some [(v, r)]
  | (w, s) :: m' => match vcmp v w with
                    | Lt => Some ((v, r) :: m)
                    | Eq => None
                    | Gt => option_map (cons (w, s)) (insert_release v r m')
                    end
  end.

Fixpoint collect_releases (rs : list Release) (m : list (V * Release)) : result AppError (list (V * Release)) :=
  match rs with
  | [] => Ok m
  | r :: rs =>
      match minimum r with
      | None => Err Protocol
      | Some s => match semver_parse s with
                  | None => Err Protocol
                  | Some v => match insert_release v r m with
                              | None => Err Protocol
                              | Some m => collect_releases rs m
                              end
                  end
      end
  end.

(** [rfind(|(min, _)| min <= client)]. *)
Definition newest_for (client : V) (m : list (V * Release)) : option Release :=
  option_map snd (List.find (fun kv => match vcmp (fst kv) client with Gt => false | _ => true end) (rev m)).

Definition select_platform (raw client : string) (p : Platform) : result AppError (string * string) :=
  match json_parse raw with
  | None => Err Protocol
  | Some v =>
      match semver_parse client with
      | None => Err Protocol
      | Some client =>
          let chosen :=
            match json_field "live" v with
            | Some live => match releases_of live with
                           | None => Err Protocol
                           | Some rs => rbind (collect_releases rs []) (fun m => ok_or (newest_for client m) SnapshotUnavailable)
                           end
            | None => ok_or (release_of v) Protocol
            end in
          rbind chosen (fun r =>
          rbind (ok_or (match p with Ios => ios r | Android => android r end) SnapshotUnavailable) (fun hash =>
          if component_part (rel_version r) && component_part hash then Ok (rel_version r, hash) else Err Protocol))
      end
  end.
End releases.

Definition resource_version_component (value : string) : bool :=
  negb (is_empty value) && (len value <=? 128)
  && negb (String.eqb value "." || String.eqb value ".." || String.eqb value "unknown") && version_chars value.

(** ** What the client remembers of the game *)
(** The fields of schema 3, which a Global snapshot has. *)
Record SnapshotLayout : Type := { catalog_url : string; bundle_base_url : string; cdn_authorization_name : string }.
Record Snapshot : Type := {
  snap_protocol_version : string;
  snap_master_version : option string;
  snap_resource_version : string;
  platform_hash : string;
  effective_cdn_root : string;
  credential_ref : string;
  snap_observed_at : Z;
  snap_layout : option SnapshotLayout;
}.

Record GameState : Type := mkGame {
  obs : Observation;
  master_pair : option (string * option string);
  snapshot : option Snapshot;
  snapshot_stale : bool;
  cdn_root : string;
  credential_valid : bool;
  global_version : option (string * Z);
  version_fresh_until : option Z;
  version_suspect : bool;
  version_retry_at : option Z;
  client_update_required : bool;
}.

Record ClientConfig : Type := {
  cc_region : Region;
  cc_platform : Platform;
  cc_client_version : string;
  cdn_credential_env : list (string * string);
  cdn_secrets : list (string * string);
  cc_upstream : UpstreamConfig;
}.
Definition is_global (c : ClientConfig) : bool := String.eqb (family (cc_region c)) "global".
Definition lookup_str (k : string) (m : list (string * string)) : option string :=
  option_map snd (List.find (fun kv => String.eqb (fst kv) k) m).

Definition VERSION_RETRY : Z := from_secs 30.

Inductive VersionNeed : Type := Fresh | Required | Refresh (wait : bool).
#[export] Instance VersionNeed_eq_dec : EqDecision VersionNeed.
Proof. solve_decision. Defined.

Definition version_need (c : ClientConfig) (s : GameState) (route : string) (now : Z) : VersionNeed :=
  if String.eqb route VERSION || String.eqb route PLAYER_LOGIN then Fresh
  else
    let missing := is_none (master_version (obs s)) || (is_global c && is_none (resource_version (obs s))) in
    if missing && authenticated route then Required
    else if is_none (master_version (obs s)) || some_and (version_retry_at s) (fun at_ => now <? at_) then Fresh
    else if version_suspect s then Refresh true
    else if none_or (version_fresh_until s) (fun at_ => at_ <=? now) then Refresh false
    else Fresh.

(** [observe]: a gRPC answer; [sent] is the master version the request carried. *)
Definition observe (c : ClientConfig) (rfc3339 : string -> bool) (s : GameState) (md : list (string * string))
  (status : option Z) (sent : option string) (now : Z) : GameState :=
  let code := application_code md in
  let o := {| observed_at := Some now; grpc_status := status; Peer.application_code := code;
              server_time := match header md "x-server-time" with
                             | Some v => if rfc3339 v then Some v else None
                             | None => None
                             end;
              maintenance := bool_decide (code = Some "UNDER_MAINTENANCE"%string);
              master_version := master_version (obs s); resource_version := resource_version (obs s) |} in
  let mismatch := bool_decide (code = Some MASTER_VERSION_MISMATCH) && negb (version_suspect s)
                  && is_some sent && bool_decide (sent = master_version (obs s)) in
  let update := bool_decide (code = Some CLIENT_UPDATE_REQUIRED) && negb (client_update_required s) in
  let stale := snapshot_stale s || negb (bool_decide (status = Some 0)) in
  let '(root, valid, stale) :=
    match header md "x-sirius-env" with
    | Some root => if String.eqb root (cdn_root s) then (root, credential_valid s, stale) else (root, false, true)
    | None => (cdn_root s, credential_valid s, stale)
    end in
  let '(valid, stale) :=
    match header md "x-sirius-cred" with
    | Some credential =>
        let ok := some_and (lookup_str root (cdn_secrets c)) (String.eqb credential) in (ok, stale || negb ok)
    | None => (valid, stale)
    end in
  mkGame o (master_pair s) (snapshot s) stale root valid (global_version s) (version_fresh_until s)
    (version_suspect s || mismatch) (version_retry_at s)
    (if mismatch then client_update_required s
     else if update then true
     else if bool_decide (status = Some 0) then false else client_update_required s).

(** The VERSION branch of [execute_once_inner]: [version] was announced, the
    body's resource version and the asset version go with it. *)
Definition record_version (c : ClientConfig) (s : GameState) (version : string)
  (body_resource asset : option string) (now utc : Z) : GameState :=
  let repeated := version_suspect s && bool_decide (master_version (obs s) = Some version) in
  let o := obs s in
  mkGame {| observed_at := observed_at o; grpc_status := grpc_status o; Peer.application_code := Peer.application_code o;
            server_time := server_time o; maintenance := maintenance o;
            master_version := Some version; resource_version := body_resource |}
    (Some (version, asset)) (snapshot s) (snapshot_stale s || is_global c) (cdn_root s) (credential_valid s)
    (if is_global c
     then match body_resource with
          | Some v => if resource_version_component v then Some (v, utc) else None
          | None => None
          end
     else global_version s)
    (Some (now + from_secs (version_max_age_seconds (cc_upstream c))))
    false
    (if repeated then Some (now + VERSION_RETRY) else None)
    (client_update_required s).

Definition set_snapshot (s : GameState) (sn : option Snapshot) (st : bool) : GameState :=
  mkGame (obs s) (master_pair s) sn st (cdn_root s) (credential_valid s) (global_version s)
    (version_fresh_until s) (version_suspect s) (version_retry_at s) (client_update_required s).

(** [select] is [select_platform] at the client's version and platform. *)
Definition promote_snapshot (c : ClientConfig) (select : string -> result AppError (string * string))
  (s : GameState) (md : list (string * string)) (protocol_version : string) (utc : Z) : GameState :=
  if is_global c then s
  else match header md "x-asset-version" with
       | None => s
       | Some raw =>
           let s := set_snapshot s (snapshot s) true in
           match select raw, lookup_str (cdn_root s) (cdn_credential_env c) with
           | Ok (version, hash), Some reference =>
               if credential_valid s
               then set_snapshot s
                      (Some {| snap_protocol_version := protocol_version; snap_master_version := master_version (obs s);
                               snap_resource_version := version; platform_hash := hash;
                               effective_cdn_root := cdn_root s; credential_ref := reference;
                               snap_observed_at := utc; snap_layout := None |}) false
               else s
           | _, _ => s
           end
       end.

(** ** The protocol bundle ([protocol.rs]) *)
Record Bundle : Type := {
  bundle_version : string;
  native : bool;
  native_encode : string -> json -> option (list Z);
  native_decode : string -> list Z -> result AppError (option json);
  known_method : string -> bool;
  dynamic_encode : string -> json -> option (list Z);
  dynamic_decode : string -> list Z -> option json;
  server_area_json_name : option string;
}.

Definition encode (p : Bundle) (route : string) (value : json) : result AppError (list Z) :=
  match (if native p then native_encode p route value else None) with
  | Some encoded => Ok encoded
  | None => if known_method p route then ok_or (dynamic_encode p route value) InvalidRequest
            else Err ProtocolDefinition
  end.

Definition decode (p : Bundle) (route : string) (bytes : list Z) : result AppError json :=
  rbind (if native p then native_decode p route bytes else Ok None) (fun decoded =>
  match decoded with
  | Some v => Ok v
  | None => if known_method p route then ok_or (dynamic_decode p route bytes) Protocol
            else Err ProtocolDefinition
  end).

Definition rename_area (name : string) (server : json) : json :=
  match server, json_field name server with
  | JObj _, Some area => match json_remove "areaId" (json_remove name server) with
                         | JObj fs => JObj (fs ++ [("areaId"%string, area)])
                         | v => v
                         end
  | _, _ => server
  end.
Definition normalize_servers (p : Bundle) (value : json) : json :=
  match server_area_json_name p with
  | Some name =>
      if String.eqb name "areaId" then value
      else match value with
           | JObj fs => JObj (map (fun kv => if String.eqb (fst kv) "servers"
                                             then (fst kv, match snd kv with
                                                           | JArr l => JArr (map (rename_area name) l)
                                                           | v => v
                                                           end)
                                             else kv) fs)
           | v => v
           end
  | None => value
  end.

(** ** One unary call *)
Record Auth : Type := { auth_account : string; player_id : string; credential : string; bid : option string }.

Inductive body_frame : Type := DataFrame (data : list Z) | TrailersFrame (md : list (string * string)) | BrokenFrame.
Record grpc_answer : Type := { http_success : bool; answer_headers : list (string * string); frames : list body_frame }.

(** What a call leaves: its response, the application code, the outcome for the
    path's health ([None] is neutral), the client's state and the headers that
    were sent, if the request was. *)
Record Once : Type := {
  response : result AppError json;
  code : option string;
  path_outcome : option PathHealth.Outcome;
  game : GameState;
  sent_headers : option (list (string * string));
}.

(** [grpc-timeout]: the remaining time in milliseconds, rounded up. *)
Definition grpc_timeout_ms (remaining : Z) : Z :=
  Z.max (remaining / 1000000 + (if remaining mod 1000000 =? 0 then 0 else 1)) 1.

Section execute.
Context (c : ClientConfig) (p : Bundle) (user_agent : string).
Context (rfc3339 header_value_ok : string -> bool) (select : string -> result AppError (string * string)).

(** The credentials a route's request carries. *)
Definition auth_headers (s : GameState) (route : string) (auth : option Auth) : result AppError (list (string * string)) :=
  let login := String.eqb route PLAYER_LOGIN in
  rbind (if authenticated route then
           rbind (ok_or auth AccountUnavailable) (fun a =>
           Ok ([("x-player-id", player_id a); ("x-player-credential", credential a)]%string
               ++ match resource_version (obs s) with
                  | Some v => if is_global c then [("x-resource-version"%string, v)] else []
                  | None => []
                  end))
         else Ok []) (fun hs =>
  if is_global c && (login || authenticated route)
  then match auth with
       | Some {| bid := Some b |} => Ok (hs ++ [("x-player-bid"%string, b)])
       | _ => Err AccountUnavailable
       end
  else Ok hs).

Definition sent_version (s : GameState) (route : string) : option string :=
  if String.eqb route PLAYER_LOGIN || (String.eqb route VERSION && version_suspect s) then None
  else master_version (obs s).

(** The headers of every request. *)
Definition base_headers (remaining : Z) (request_id : string) : list (string * string) :=
  [("content-type", "application/grpc+proto"); ("user-agent", user_agent); ("te", "trailers");
   ("grpc-accept-encoding", "identity"); ("grpc-timeout", u64_to_string (grpc_timeout_ms remaining) ++ "m");
   ("x-platform", platform_header (cc_platform c)); ("x-client-version", cc_client_version c);
   ("x-request-id", request_id)]%string.
Definition version_headers (s : GameState) (route : string) : list (string * string) :=
  match sent_version s route with Some v => [("x-master-version"%string, v)] | None => [] end.

Definition request_headers (s : GameState) (route : string) (auth : option Auth) (remaining : Z) (request_id : string) :
  result AppError (list (string * string)) :=
  rbind (auth_headers s route auth) (fun extra =>
  let hs := base_headers remaining request_id ++ version_headers s route ++ extra in
  if forallb (fun kv => header_value_ok (snd kv)) hs then Ok hs else Err Protocol).

(** The body: its bytes and the metadata with the trailers, or how reading it
    failed ([true] when the response was too large). *)
Fixpoint read_body (limit : Z) (bytes : list Z) (md : list (string * string)) (fs : list body_frame) :
  result bool (list Z * list (string * string)) :=
  match fs with
  | [] => Ok (bytes, md)
  | BrokenFrame :: _ => Err false
  | DataFrame d :: fs => if limit <? llen bytes + llen d then Err true else read_body limit (bytes ++ d) md fs
  | TrailersFrame t :: fs => read_body limit bytes (header_extend md t) fs
  end.

Definition grpc_content (md : list (string * string)) : bool :=
  some_and (header md "content-type") (fun s => String.eqb s "application/grpc" || starts_with s "application/grpc+").

(** How a complete answer counts for the path. *)
Definition answer_outcome (ok : bool) (status : option Z) (code : option string) : PathHealth.Outcome :=
  if negb ok then Fault (Errors.code Protocol)
  else match status with
       | None => Fault (Errors.code Protocol)
       | Some n => if (n =? 14) && is_none code then Fault (Errors.code (Grpc 14)) else Healthy
       end.

(** The announced version, the body's resource version and the asset version. *)
Definition announced (value : json) (md : list (string * string)) : option (string * option string * option string) :=
  match json_field "version" value with
  | Some (JStr v) =>
      if negb (is_empty v) && (len v <=? 256) && header_value_ok v then
        let body := match json_field "resourceVersion" value with
                    | Some (JStr r) => if safe_version r then Some r else None
                    | _ => None
                    end in
        let asset := match body with
                     | Some r => Some r
                     | None => match header md "x-asset-version" with
                               | Some raw => match select raw with
                                             | Ok (a, _) => if safe_version a then Some a else None
                                             | Err _ => None
                                             end
                               | None => None
                               end
                     end in
        Some (v, body, asset)
      else None
  | _ => None
  end.

(** The answered call, from the complete body and metadata to its value. *)
Definition grpc_value (s : GameState) (route : string) (auth : option Auth) (ok : bool) (bytes : list Z)
  (md : list (string * string)) (now utc : Z) : result AppError json * GameState :=
  if negb ok then (Err Protocol, s)
  else match grpc_status_of md with
       | None => (Err Protocol, s)
       | Some status =>
           if negb (status =? 0) then
             (Err (if bool_decide (application_code md = Some "UNDER_MAINTENANCE"%string) then Maintenance status
                   else Grpc status), s)
           else if some_and (header md "grpc-encoding") (fun v => negb (String.eqb v "identity")) then (Err Protocol, s)
           else match rbind (grpc_unframe bytes) (decode p route) with
                | Err e => (Err e, s)
                | Ok value =>
                    if String.eqb route WHOAMI
                       && negb (bool_decide (match json_field "playerId" value with Some v => json_str v | None => None end
                                             = option_map player_id auth))
                    then (Err Protocol, s)
                    else
                      let value := if String.eqb route SERVER_LIST then normalize_servers p value else value in
                      if String.eqb route VERSION then
                        match announced value md with
                        | None => (Err Protocol, s)
                        | Some (v, body, asset) =>
                            (Ok value, promote_snapshot c select (record_version c s v body asset now utc) md
                                         (bundle_version p) utc)
                        end
                      else (Ok value, promote_snapshot c select s md (bundle_version p) utc)
                end
       end.

(** [exchange]: [Err proxy] is a failed exchange, at the proxy or elsewhere. *)
Definition execute_once (s : GameState) (route : string) (input : json) (auth : option Auth)
  (now deadline utc : Z) (request_id : string) (exchange : result bool grpc_answer) : Once :=
  let stop e := {| response := Err e; code := None; path_outcome := None; game := s; sent_headers := None |} in
  if deadline <=? now then stop Timeout
  else match encode p route input with
       | Err e => stop e
       | Ok encoded =>
           match request_headers s route auth (deadline - now) request_id with
           | Err e => stop e
           | Ok hs =>
               let fail e o := {| response := Err e; code := None; path_outcome := o; game := s; sent_headers := Some hs |} in
               match exchange with
               | Err proxy => let e := if proxy then Proxy else Errors.Transport in fail e (Some (Fault (Errors.code e)))
               | Ok a =>
                   match read_body (up_max_response_bytes (cc_upstream c)) [] (answer_headers a) (frames a) with
                   | Err true => fail Protocol None
                   | Err false => fail Errors.Transport (Some (Fault (Errors.code Errors.Transport)))
                   | Ok (bytes, md) =>
                       let ok := http_success a && grpc_content (answer_headers a) in
                       let status := grpc_status_of md in
                       let s := observe c rfc3339 s md status (sent_version s route) now in
                       let '(r, s) := grpc_value s route auth ok bytes md now utc in
                       {| response := r; code := application_code md;
                          path_outcome := Some (answer_outcome ok status (application_code md));
                          game := s; sent_headers := Some hs |}
                   end
               end
           end
       end.

(** ** Retries *)
Definition retried_route (route : string) : bool :=
  String.eqb route VERSION || String.eqb route ANNOUNCEMENTS || String.eqb route ANNOUNCEMENT
  || String.eqb route SERVER_LIST.
Definition attempts_for (route : string) : Z :=
  if retried_route route then anonymous_attempts (cc_upstream c) else 1.

(** What one attempt meets: its clock readings, request id and exchange. *)
Record try : Type := { try_now : Z; try_utc : Z; try_id : string; try_exchange : result bool grpc_answer }.

Definition retryable (o : Once) : bool :=
  match response o with
  | Err (Errors.Transport) => true
  | Err (Grpc n) => n =? 14
  | _ => false
  end.

(** [attempt] counts the attempts made; [sleeps] the delays between them, in
    milliseconds.  The tries left are the ones the loop may still make. *)
Fixpoint execute_loop (s : GameState) (route : string) (input : json) (auth : option Auth) (deadline : Z)
  (attempt : Z) (tries : list try) : option (list Once * list Z) :=
  match tries with
  | [] => None
  | t :: tries =>
      let o := execute_once s route input auth (try_now t) deadline (try_utc t) (try_id t) (try_exchange t) in
      let attempt := attempt + 1 in
      if (attempts_for route <=? attempt) || negb (retryable o) || version_signal (code o) || maintenance (obs (game o))
      then Some ([o], [])
      else option_map (fun '(os, ds) => (o :: os, sat_mul U64_MAX (retry_delay_ms (cc_upstream c)) (2 ^ (attempt - 1)) :: ds))
             (execute_loop (game o) route input auth deadline attempt tries)
  end.

Definition execute (s : GameState) (route : string) (input : json) (auth : option Auth) (deadline : Z) (tries : list try) :
  option (list Once * list Z) := execute_loop s route input auth deadline 0 tries.

End execute.

(** * Policy *)

(** With a validated upstream policy the HTTP/2 keepalive, explicit or derived, detects
    a dead connection before the call's deadline, and there is at least one anonymous
    slot, at most 64 and at most max_inflight. *)
Lemma validated_policy_bounds (c : UpstreamConfig) :
  upstream_validate c = Ok tt ->
  (forall interval ack, http2_keepalive c = Some (interval, ack) ->
     0 < interval /\ 0 < ack /\ interval + ack < up_timeout_ms c) /\
  1 <= anonymous_slots c <= 64 /\ anonymous_slots c <= up_max_inflight c.
Proof.
  unfold upstream_validate. destruct (_ || _) eqn:H; [done|]. intros _. bool_prop.
  split.
  - intros i a Hk. match goal with E : explicit_keepalive_misses_deadline c = false |- _ => revert E end.
    unfold explicit_keepalive_misses_deadline. rewrite Hk. cbn [some_and].
    revert Hk. unfold http2_keepalive.
    destruct (bool_decide_reflect (http2_keepalive_interval_ms c = Some 0)) as [|Hne]; [done|].
    pose proof (Z.div_mod (up_timeout_ms c) 2 ltac:(lia)). pose proof (Z.mod_pos_bound (up_timeout_ms c) 2 ltac:(lia)).
    pose proof (Z.div_mod (up_timeout_ms c) 4 ltac:(lia)). pose proof (Z.mod_pos_bound (up_timeout_ms c) 4 ltac:(lia)).
    destruct (http2_keepalive_interval_ms c) as [iv|], (http2_keepalive_timeout_ms c) as [av|];
      cbn [is_some default orb andb negb some_and from_option id] in *; bool_prop.
    1, 2: assert (iv <> 0) by congruence; destruct (Z.eqb_spec iv 0); [done|]; cbn in *; bool_prop;
          intros [= <- <-] Hd; bool_prop; lia.
    + intros [= <- <-] Hd. bool_prop. lia.
    + destruct (Z.ltb_spec (Z.min (up_timeout_ms c / 4) 5000) 1000); [done|]. intros [= <- <-] _. lia.
  - unfold anonymous_slots. destruct (anonymous_max_inflight c) as [n|]; cbn in *; bool_prop; lia.
Qed.

(** * Framing *)

Lemma from_to_be_bytes n :
  0 <= n < 4294967296 ->
  from_be_bytes (n / 16777216 mod 256) (n / 65536 mod 256) (n / 256 mod 256) (n mod 256) = n.
Proof.
  intros Hn. unfold from_be_bytes.
  assert (E2 : n / 65536 = n / 256 / 256) by (rewrite Z.div_div; [reflexivity|lia..]).
  assert (E3 : n / 16777216 = n / 256 / 256 / 256) by (rewrite !Z.div_div; [reflexivity|lia..]).
  rewrite (Z.mod_small (n / 16777216)).
  - rewrite E2, E3. pose proof (Z.div_mod n 256 ltac:(lia)). pose proof (Z.div_mod (n / 256) 256 ltac:(lia)).
    pose proof (Z.div_mod (n / 256 / 256) 256 ltac:(lia)). lia.
  - split; [apply Z.div_pos; lia|]. apply Z.div_lt_upper_bound; lia.
Qed.

Lemma to_from_be_bytes b0 b1 b2 b3 :
  0 <= b0 < 256 -> 0 <= b1 < 256 -> 0 <= b2 < 256 -> 0 <= b3 < 256 ->
  to_be_bytes (from_be_bytes b0 b1 b2 b3) = [b0; b1; b2; b3] /\ 0 <= from_be_bytes b0 b1 b2 b3 < 4294967296.
Proof.
  intros H0 H1 H2 H3. unfold to_be_bytes, from_be_bytes. split; [|lia].
  assert (E1 : (((b0 * 256 + b1) * 256 + b2) * 256 + b3) / 256 = (b0 * 256 + b1) * 256 + b2).
  { symmetry. apply Z.div_unique with b3; lia. }
  assert (E2 : (((b0 * 256 + b1) * 256 + b2) * 256 + b3) / 65536 = b0 * 256 + b1).
  { symmetry. apply Z.div_unique with (b2 * 256 + b3); lia. }
  assert (E3 : (((b0 * 256 + b1) * 256 + b2) * 256 + b3) / 16777216 = b0).
  { symmetry. apply Z.div_unique with ((b1 * 256 + b2) * 256 + b3); lia. }
  rewrite E1, E2, E3. f_equal; [apply Z.mod_small; lia|]. f_equal; [symmetry; apply Z.mod_unique with b0; lia|].
  f_equal; [symmetry; apply Z.mod_unique with (b0 * 256 + b1); lia|].
  f_equal. symmetry. apply Z.mod_unique with ((b0 * 256 + b1) * 256 + b2); lia.
Qed.

(** Unframing a response accepts exactly the uncompressed gRPC frames of payloads below
    4 GiB and returns their payload. *)
Lemma grpc_frames_exact bytes payload :
  Forall (fun b => 0 <= b < 256) bytes ->
  grpc_unframe bytes = Ok payload <-> bytes = grpc_frame payload /\ llen payload < 4294967296.
Proof.
  intros Hb. pose proof (llen_nonneg payload). split.
  - unfold grpc_unframe. destruct bytes as [|c [|b0 [|b1 [|b2 [|b3 rest]]]]]; try done.
    destruct (Z.eqb_spec c 0) as [->|]; [|done]. cbn [negb].
    destruct (Z.eqb_spec (from_be_bytes b0 b1 b2 b3) (llen rest)) as [E|]; [|done]. intros [= <-].
    apply Forall_cons in Hb as [_ Hb]. rewrite !Forall_cons in Hb. destruct Hb as (B0 & B1 & B2 & B3 & _).
    destruct (to_from_be_bytes b0 b1 b2 b3 B0 B1 B2 B3) as [Ht Hr]. rewrite E in Ht, Hr.
    split; [|lia]. unfold grpc_frame. rewrite Z.mod_small by lia. by rewrite Ht.
  - intros [-> Hl]. unfold grpc_frame. rewrite Z.mod_small by lia. cbn [app to_be_bytes grpc_unframe].
    rewrite from_to_be_bytes by lia. by rewrite !Z.eqb_refl.
Qed.

(** * Credentials *)
Section headers.
Context (c : ClientConfig) (p : Bundle) (user_agent : string).
Context (rfc3339 header_value_ok : string -> bool) (select : string -> result AppError (string * string)).

Definition player_headers : list string := ["x-player-id"; "x-player-credential"; "x-player-bid"; "x-resource-version"]%string.
Definition has_header (hs : list (string * string)) (k : string) : bool := is_some (header_get k hs).

Lemma has_header_app hs1 hs2 k : has_header (hs1 ++ hs2) k = has_header hs1 k || has_header hs2 k.
Proof.
  unfold has_header, header_get. induction hs1 as [|[a b] hs1 IH]; [done|]. cbn.
  by destruct (String.eqb a k).
Qed.

Lemma auth_headers_names s route auth hs :
  auth_headers c s route auth = Ok hs ->
  (authenticated route = false ->
     Forall (fun k => has_header hs k = false) ["x-player-id"; "x-player-credential"; "x-resource-version"]%string /\
     (has_header hs "x-player-bid" = true -> route = PLAYER_LOGIN /\ is_global c = true)) /\
  (authenticated route = true -> exists a, auth = Some a /\
     header_get "x-player-id" hs = Some (player_id a) /\ header_get "x-player-credential" hs = Some (credential a)) /\
  has_header hs "x-master-version" = false.
Proof.
  unfold auth_headers. destruct (authenticated route) eqn:Ha.
  - destruct auth as [a|]; [|done]. cbn [ok_or rbind]. intros H. split; [done|]. split.
    + intros _. exists a. split; [done|]. revert H.
      destruct (resource_version (obs s)), (is_global c); cbn; rewrite ?orb_true_r; cbn;
        try (destruct a as [? ? ? [b|]]; cbn; [|done]); by intros [= <-].
    + revert H. destruct (resource_version (obs s)), (is_global c); cbn; rewrite ?orb_true_r; cbn;
        try (destruct a as [? ? ? [b|]]; cbn; [|done]); by intros [= <-].
  - cbn [rbind]. rewrite orb_false_r. destruct (is_global c); cbn [andb].
    + destruct (String.eqb_spec route PLAYER_LOGIN) as [->|].
      * destruct auth as [[? ? ? [b|]]|]; [|done..]. intros [= <-]. split; [|done]. intros _. split; [|done].
        by repeat constructor.
      * intros [= <-]. split; [|done]. intros _. split; [by repeat constructor|done].
    + intros [= <-]. split; [|done]. intros _. split; [by repeat constructor|done].
Qed.

(** A request that is sent carries game credentials exactly on authenticated routes,
    the SDK id otherwise only on the login, no master version on the login or on a
    version call after a mismatch, and is sent only before its deadline. *)
Lemma credentials_only_on_authenticated_routes s route input auth now deadline utc request_id exchange hs :
  sent_headers (execute_once c p user_agent rfc3339 header_value_ok select s route input auth now deadline utc
                  request_id exchange) = Some hs ->
  (authenticated route = false ->
     has_header hs "x-player-id" = false /\ has_header hs "x-player-credential" = false /\
     (has_header hs "x-player-bid" = true -> route = PLAYER_LOGIN)) /\
  (authenticated route = true -> exists a, auth = Some a /\
     header_get "x-player-credential" hs = Some (credential a)) /\
  (route = PLAYER_LOGIN \/ (route = VERSION /\ version_suspect s = true) -> has_header hs "x-master-version" = false) /\
  now < deadline.
Proof.
  unfold execute_once. destruct (Z.leb_spec deadline now) as [|Hd]; [done|].
  destruct (encode p route input) as [encoded|]; [|done].
  destruct (request_headers _ _ _ s route auth (deadline - now) request_id) as [hs'|] eqn:Hh; [|done].
  intros Hs. assert (hs = hs') as ->.
  { revert Hs. destruct exchange as [a|b]; cbn; [|congruence].
    destruct (read_body _ _ _ _) as [[bytes md]|[]]; cbn; [|congruence..].
    destruct (grpc_value _ _ _ _ _ _ _ _ _ _ _ _) as [r st]. cbn. congruence. }
  clear Hs. revert Hh. unfold request_headers. destruct (auth_headers c s route auth) as [extra|] eqn:Hx; [|done].
  cbn [rbind]. cbv zeta. destruct (forallb _ _); [|done]. intros Hh.
  assert (Ehs : hs' = base_headers c user_agent (deadline - now) request_id ++ version_headers s route ++ extra)
    by congruence.
  rewrite Ehs. clear Hh Ehs hs'. destruct (auth_headers_names _ _ _ _ Hx) as (Hno & Hyes & Hm).
  assert (Hpre : forall k, has_header (version_headers s route) k
                 = is_some (sent_version s route) && String.eqb "x-master-version" k).
  { intros k. unfold has_header, header_get, version_headers. destruct (sent_version s route); [|done].
    cbn [List.find fst is_some andb option_map snd]. by destruct (String.eqb "x-master-version" k). }
  split; [|split; [|split; [|done]]].
  - intros Ha. destruct (Hno Ha) as [Hf Hb]. rewrite !Forall_cons in Hf. destruct Hf as (F1 & F2 & _ & _).
    rewrite !has_header_app, !Hpre, F1, F2. cbn. rewrite !andb_false_r. cbn. split; [done|]. split; [done|]. apply Hb.
  - intros Ha. destruct (Hyes Ha) as (a & -> & _ & Hc). exists a. split; [done|].
    unfold header_get, version_headers in *. destruct (sent_version s route); cbn in *; done.
  - intros Hr. rewrite !has_header_app, Hpre, Hm. cbn. unfold sent_version.
    destruct Hr as [->|[-> ->]]; done.
Qed.

End headers.

(** * Retries *)
Section retries.
Context (c : ClientConfig) (p : Bundle) (user_agent : string).
Context (rfc3339 header_value_ok : string -> bool) (select : string -> result AppError (string * string)).
Hypothesis policy_ok : upstream_validate (cc_upstream c) = Ok tt.

Definition sum_z (l : list Z) : Z := fold_right Z.add 0 l.

Lemma policy_attempts : 1 <= anonymous_attempts (cc_upstream c) <= 5 /\ 1 <= retry_delay_ms (cc_upstream c) <= 10000.
Proof using policy_ok.
  revert policy_ok. unfold upstream_validate. destruct (_ || _) eqn:H; [done|]. intros _. bool_prop. lia.
Qed.

Lemma attempts_for_range route : 1 <= attempts_for c route <= 5.
Proof using policy_ok.
  pose proof policy_attempts. unfold attempts_for. destruct (retried_route route); lia.
Qed.

Local Abbreviation loop := (execute_loop c p user_agent rfc3339 header_value_ok select).

Lemma execute_loop_spec s route input auth deadline attempt tries os ds :
  0 <= attempt < attempts_for c route ->
  loop s route input auth deadline attempt tries = Some (os, ds) ->
  (1 <= length os)%nat /\ attempt + llen os <= attempts_for c route /\ length os = S (length ds) /\
  (forall i o, os !! i = Some o -> (S i < length os)%nat ->
     retryable o = true /\ version_signal (code o) = false /\ maintenance (obs (game o)) = false) /\
  sum_z ds = retry_delay_ms (cc_upstream c) * (2 ^ (attempt + llen ds) - 2 ^ attempt).
Proof using policy_ok.
  pose proof policy_attempts as Hp. pose proof (attempts_for_range route) as Hr.
  revert s attempt os ds. induction tries as [|t tries IH]; intros s attempt os ds Ha; cbn [execute_loop]; [done|].
  set (o := execute_once _ _ _ _ _ _ _ _ _ _ _ _ _ _ _).
  destruct ((attempts_for c route <=? attempt + 1) || _ || _ || _) eqn:Hstop.
  - intros [= <- <-]. unfold llen. cbn. split; [lia|]. split; [lia|]. split; [done|]. split; [|by rewrite Z.add_0_r; lia].
    intros [|i] o' Hi Hlt; cbn in *; [lia|done].
  - destruct (loop (game o) route input auth deadline (attempt + 1) tries) as [[os' ds']|] eqn:E; [|done]. intros [= <- <-].
    bool_prop. apply IH in E as (Q1 & Q2 & Q3 & Q4 & Q5); [|lia].
    assert (Hl : llen (o :: os') = llen os' + 1) by (unfold llen; cbn [length]; lia).
    split; [cbn; lia|]. split; [lia|]. split; [cbn; lia|]. split.
    + intros [|i] o' Hi Hlt; cbn in *; [by injection Hi as <-|]. apply (Q4 i); [done|lia].
    + assert (Hpow : 2 ^ (attempt + 1) = 2 * 2 ^ attempt) by (rewrite Z.pow_add_r by lia; lia).
      assert (Hpos : 1 <= 2 ^ attempt <= 2 ^ 4).
      { split; [pose proof (Z.pow_pos_nonneg 2 attempt); lia|]. apply Z.pow_le_mono_r; lia. }
      cbn [sum_z fold_right]. fold (sum_z ds'). rewrite Q5.
      replace (attempt + 1 - 1) with attempt by lia. unfold sat_mul, U64_MAX.
      rewrite Z.min_r by nia.
      replace (llen (_ :: ds')) with (llen ds' + 1) by (unfold llen; cbn [length]; lia).
      replace (attempt + (llen ds' + 1)) with (attempt + 1 + llen ds') by lia. rewrite Hpow. nia.
Qed.

Lemma execute_loop_total s route input auth deadline attempt tries :
  0 <= attempt < attempts_for c route -> attempts_for c route - attempt <= llen tries ->
  is_some (loop s route input auth deadline attempt tries) = true.
Proof.
  revert s attempt. induction tries as [|t tries IH]; intros s attempt Ha Hl; [unfold llen in Hl; cbn in Hl; lia|].
  assert (llen (t :: tries) = llen tries + 1) by (unfold llen; cbn [length]; lia). cbn [execute_loop].
  set (o := execute_once _ _ _ _ _ _ _ _ _ _ _ _ _ _ _).
  destruct ((attempts_for c route <=? attempt + 1) || _ || _ || _) eqn:Hstop; [done|]. bool_prop.
  specialize (IH (game o) (attempt + 1) ltac:(lia) ltac:(lia)).
  destruct (loop (game o) route input auth deadline (attempt + 1) tries) as [[]|]; [done|done].
Qed.

(** C16: With a validated policy the retry loop ends within the configured attempts (one for
    authenticated reads), repeats only transport failures and gRPC 14 without a version
    signal or maintenance, and sleeps delay * (2^retries - 1) milliseconds in total. *)
Theorem retries_are_bounded s route input auth deadline tries :
  attempts_for c route <= llen tries ->
  exists os ds, execute c p user_agent rfc3339 header_value_ok select s route input auth deadline tries = Some (os, ds) /\
    1 <= llen os <= attempts_for c route /\ attempts_for c route <= 5 /\
    (authenticated route = true -> llen os = 1) /\
    (forall i o, os !! i = Some o -> (S i < length os)%nat ->
       retryable o = true /\ version_signal (code o) = false /\ maintenance (obs (game o)) = false) /\
    length os = S (length ds) /\ sum_z ds = retry_delay_ms (cc_upstream c) * (2 ^ (llen ds) - 1).
Proof using policy_ok.
  intros Hl. pose proof (attempts_for_range route) as Hr. unfold execute.
  pose proof (execute_loop_total s route input auth deadline 0 tries ltac:(lia) ltac:(lia)) as Ht.
  destruct (loop s route input auth deadline 0 tries) as [[os ds]|] eqn:E; [|done]. exists os, ds. split; [done|].
  apply execute_loop_spec in E as (H1 & H2 & H3 & H4 & H5); [|lia]. unfold llen in *.
  split; [lia|]. split; [lia|]. split.
  - intros Ha. assert (attempts_for c route = 1); [|lia]. unfold attempts_for.
    destruct (retried_route route) eqn:Hrt; [|done]. exfalso. revert Ha Hrt. unfold retried_route, authenticated, mem.
    intros Ha Hrt. rewrite !orb_true_iff, !String.eqb_eq in Hrt. naive_solver.
  - split; [done|]. split; [done|]. by rewrite H5.
Qed.

End retries.

(** * Versions *)
Section versions.
Context (c : ClientConfig) (rfc3339 : string -> bool).

(** A version mismatch marks the version suspect exactly when it answers the version in
    use, a suspect version makes authenticated reads wait for a refresh, and a version
    call makes it fresh until its age limit, or for the retry interval when the game
    announced the same version again. *)
Lemma version_refresh_policy s md status sent now t route v body asset utc :
  0 <= version_max_age_seconds (cc_upstream c) -> authenticated route = true ->
  let s1 := observe c rfc3339 s md status sent now in
  let s2 := record_version c s v body asset now utc in
  (application_code md = Some MASTER_VERSION_MISMATCH ->
     version_suspect s1 = version_suspect s || (is_some sent && bool_decide (sent = master_version (obs s))) /\
     (version_suspect s1 = true -> is_some (master_version (obs s)) = true ->
      (is_global c = true -> is_some (resource_version (obs s)) = true) ->
      (forall r, version_retry_at s = Some r -> r <= t) -> version_need c s1 route t = Refresh true)) /\
  (master_version (obs s2) = Some v /\ master_pair s2 = Some (v, asset) /\ version_suspect s2 = false) /\
  ((is_global c = true -> is_some body = true) ->
   (t < now + from_secs (version_max_age_seconds (cc_upstream c)) -> version_need c s2 route t = Fresh) /\
   (version_suspect s = true -> master_version (obs s) = Some v -> t < now + VERSION_RETRY ->
      version_need c s2 route t = Fresh)).
Proof.
  intros Hage Ha s1 s2.
  assert (Hr : String.eqb route VERSION || String.eqb route PLAYER_LOGIN = false).
  { apply orb_false_iff. rewrite !String.eqb_neq. split; intros ->; vm_compute in Ha; done. }
  split; [|split].
  - intros Hc. unfold s1, observe. rewrite Hc.
    destruct (match header md "x-sirius-env" with Some _ => _ | None => _ end) as [[root valid] stale].
    destruct (match header md "x-sirius-cred" with Some _ => _ | None => _ end) as [valid' stale'].
    cbn [version_suspect obs]. rewrite bool_decide_true by done. cbn [andb]. split.
    { by destruct (version_suspect s), (is_some sent); cbn. }
    intros Hs Hm Hres Hretry. unfold version_need. rewrite Hr. cbn [obs master_version resource_version version_retry_at version_suspect].
    destruct (master_version (obs s)) as [mv|]; [|done]. cbn [is_none orb].
    replace (is_global c && is_none (resource_version (obs s))) with false.
    2: { destruct (is_global c); [|done]. specialize (Hres eq_refl). by destruct (resource_version (obs s)). }
    cbn [andb]. destruct (version_retry_at s) as [r|]; cbn [some_and].
    + specialize (Hretry r eq_refl). destruct (Z.ltb_spec t r); [lia|]. by rewrite Hs.
    + by rewrite Hs.
  - by unfold s2, record_version.
  - intros Hb. unfold s2, version_need. rewrite Hr. unfold record_version.
    cbn [obs master_version resource_version version_retry_at version_suspect version_fresh_until is_none orb].
    replace (is_global c && is_none body) with false.
    2: { destruct (is_global c); [|done]. specialize (Hb eq_refl). by destruct body. }
    cbn [andb]. split.
    + intros Ht. destruct (some_and _ _); [done|]. cbn [none_or].
      destruct (Z.leb_spec (now + from_secs (version_max_age_seconds (cc_upstream c))) t); [lia|done].
    + intros -> -> Ht. rewrite bool_decide_true by done. cbn [andb some_and].
      destruct (Z.ltb_spec t (now + VERSION_RETRY)); [done|lia].
Qed.

End versions.

(** * Witnesses *)
Module UpstreamDemo.

Definition client : ClientConfig :=
  {| cc_region := Jp; cc_platform := Ios; cc_client_version := "1.0.3"; cdn_credential_env := []; cdn_secrets := [];
     cc_upstream := UpstreamConfig_default |}.
Definition bundle : Bundle :=
  {| bundle_version := "1.0.4"; native := false; native_encode := fun _ _ => None; native_decode := fun _ _ => Ok None;
     known_method := fun _ => true; dynamic_encode := fun _ _ => Some [8; 1]; dynamic_decode := fun _ _ => Some (JObj []);
     server_area_json_name := None |}.
Definition seen : Observation :=
  {| observed_at := None; grpc_status := None; Peer.application_code := None; server_time := None; maintenance := false;
     master_version := Some "m1"%string; resource_version := None |}.
Definition state : GameState := mkGame seen None None false "" false None None false None false.
Definition account : Auth := {| auth_account := "a"; player_id := "p"; credential := "c"; bid := None |}.
Definition select (_ : string) : result AppError (string * string) := Err Protocol.
Definition call (route : string) : Once :=
  execute_once client bundle "proxy" (fun _ => true) (fun _ => true) select state route (JObj []) (Some account)
    0 1500000 0 "id" (Err false).
Definition mismatch : list (string * string) := [("x-sirius-error-code", "MASTER_VERSION_MISMATCH")]%string.

Lemma validated_policy_bounds_witness :
  http2_keepalive UpstreamConfig_default = Some (10000, 5000) /\ 10000 + 5000 < 20000.
Proof.
  split; [reflexivity|]. by apply (proj1 (validated_policy_bounds UpstreamConfig_default eq_refl) 10000 5000).
Defined.

Lemma grpc_frames_exact_witness : [0; 0; 0; 0; 2; 8; 1] = grpc_frame [8; 1].
Proof. apply (grpc_frames_exact [0; 0; 0; 0; 2; 8; 1] [8; 1]); [repeat constructor; lia|reflexivity]. Defined.

Lemma credentials_only_on_authenticated_routes_witness :
  exists hs, sent_headers (call ANNOUNCEMENTS) = Some hs /\ has_header hs "x-player-credential" = false.
Proof.
  eexists. split; [reflexivity|].
  by edestruct (credentials_only_on_authenticated_routes client bundle "proxy" (fun _ => true) (fun _ => true) select
                  state ANNOUNCEMENTS (JObj []) (Some account) 0 1500000 0 "id" (Err false)) as [H _];
    [reflexivity|apply H].
Defined.

Lemma retries_are_bounded_witness :
  exists os ds, execute client bundle "proxy" (fun _ => true) (fun _ => true) select state PROFILE (JObj [])
    (Some account) 1500000 [{| try_now := 0; try_utc := 0; try_id := "id"; try_exchange := Err false |}] = Some (os, ds) /\
    llen os = 1.
Proof.
  destruct (retries_are_bounded client bundle "proxy" (fun _ => true) (fun _ => true) select eq_refl state PROFILE
              (JObj []) (Some account) 1500000
              [{| try_now := 0; try_utc := 0; try_id := "id"; try_exchange := Err false |}]) as (os & ds & E & _ & _ & H & _).
  - vm_compute. discriminate.
  - exists os, ds. split; [exact E|]. by apply H.
Defined.

Lemma version_refresh_policy_witness :
  version_need client (observe client (fun _ => true) state mismatch (Some 2) (Some "m1"%string) 5) PROFILE 6 = Refresh true.
Proof.
  destruct (version_refresh_policy client (fun _ => true) state mismatch (Some 2) (Some "m1"%string) 5 6 PROFILE
              "m2" None None 0) as [H _]; [vm_compute; discriminate|reflexivity|].
  destruct (H eq_refl) as [_ H']. by apply H'.
Defined.

End UpstreamDemo.
