(* ===== verification/GameClient.v ===== *)
(** Logical calls of the game client ([client.rs]'s [call_selected],
    [call_admitted], [ensure_version] and the cache lookup before admission).

    A call is a program that the deadline may cut at any of its awaits: its
    budget is the number of awaits that finish in time.  What the parts it
    awaits answer (semaphores, the account pool, the response cache, the SDK
    login, the upstream) is its [env]; what it does is its trace of events. *)
From Stdlib Require Import ZArith Lia Ascii String List Bool.
From stdpp Require Import base list strings decidable gmap.
From S2P Require Import Prelude Errors Regions Http AssetJobs PathHealth Peer ResponseCache Upstream.

Local Open Scope Z_scope.

(** ** Events and programs *)
Inductive event : Type :=
| EvVersion                            (* a VERSION call, without an account, before the call itself *)
| EvLogin                              (* the account's credentials are asked for, or renewed *)
| EvAttempt                            (* the account is about to be used *)
| EvWhoami (sent : bool)               (* the identity check before player data *)
| EvDispatch (sent : bool)             (* the call's own RPC *)
| EvReport                             (* the outcome is charged to the lease *)
| EvRefresh (key : string)             (* a background refresh is spawned *)
| EvStore (key : string) (v : json)    (* the value enters the response cache *)
| EvStale.                             (* the resource snapshot is marked stale *)

Record St : Type := { trace : list event; attempted : bool; ticket : bool }.
Definition st0 : St := {| trace := []; attempted := false; ticket := false |}.

(** [None] is a call cut at its deadline. *)
Definition M (A : Type) : Type := nat -> St -> option (result AppError A) * nat * St.

Definition ret {A} (a : A) : M A := fun n s => (Some (Ok a), n, s).
Definition lift {A} (r : result AppError A) : M A := fun n s => (Some r, n, s).
Definition fail {A} (e : AppError) : M A := lift (Err e).
Definition bindM {A B} (m : M A) (k : A -> M B) : M B := fun n s =>
  match m n s with
  | (Some (Ok a), n, s) => k a n s
  | (Some (Err e), n, s) => (Some (Err e), n, s)
  | (None, n, s) => (None, n, s)
  end.
Definition await : M unit := fun n s =>
  match n with
  | O => (None, O, s)
  | S n => (Some (Ok tt), n, s)
  end.
Definition emit (e : event) : M unit := fun n s =>
  (Some (Ok tt), n, {| trace := trace s ++ [e]; attempted := attempted s; ticket := ticket s |}).
Definition set_attempted (b : bool) : M unit := fun n s =>
  (Some (Ok tt), n, {| trace := trace s; attempted := b; ticket := ticket s |}).
Definition take_ticket : M unit := fun n s =>
  (Some (Ok tt), n, {| trace := trace s; attempted := attempted s; ticket := true |}).
Definition has_ticket : M bool := fun n s => (Some (Ok (ticket s)), n, s).

Declare Scope call_scope.
Delimit Scope call_scope with call.
Notation "'let!' x ':=' m 'in' k" := (bindM m (fun x => k)) (at level 200, x name, m at level 100, k at level 200) : call_scope.
Notation "m ';!' k" := (bindM m (fun _ => k)) (at level 60, k at level 200, right associativity) : call_scope.
Local Open Scope call_scope.

(** ** What a call meets *)
Record env : Type := {
  slot_in_time : bool;                       (* the inflight semaphore, before the deadline *)
  slot_open : bool;                          (* and not closed *)
  barrier : bool;                            (* the protocol barrier, before the deadline *)
  protocol_sha : option string;              (* [protocol_status] *)
  lease : result AppError unit;              (* the account pool's [select] *)
  need1 : VersionNeed;
  bootstrap_free : bool;
  need2 : VersionNeed;
  admit1 : bool;                             (* the path admits, when asked for a version call *)
  version_call : result AppError json;
  key1 : result AppError (option string);    (* [response_cache_key] *)
  cached1 : option Cached;
  cached2 : option json;
  guard_result : result AppError unit;       (* the session lock or an anonymous slot *)
  account_available : bool;
  key2 : result AppError (option string);
  has_session : bool;
  admit2 : bool;                             (* the path admits the call itself *)
  login : result AppError Auth;              (* [account_auth] *)
  whoami : Once;
  once : Once;                               (* the authenticated RPC *)
  anonymous : list Once;                     (* the attempts of [execute] *)
}.

Section call.
Context (global : bool) (e : env).
Context (route : string) (refresh_key : option string) (expected_protocol : option string)
        (checked : option string).

Definition identity_only : bool := global && String.eqb route WHOAMI.

(** [admit_path]: one admission for the whole call. *)
Definition admit_path (ok : bool) : M unit :=
  let! held := has_ticket in
  if held then ret tt else if ok then take_ticket else fail UpstreamUnavailable.

Definition ensure_version : M unit :=
  match need1 e with
  | Fresh => ret tt
  | _ =>
      let locked := match need1 e with Refresh false => bootstrap_free e | _ => true end in
      if negb locked then ret tt
      else await ;!
      match need2 e with
      | Fresh => ret tt
      | Required =>
          admit_path (admit1 e) ;! emit EvVersion ;! await ;!
          lift (rmap (fun _ => tt) (version_call e))
      | Refresh _ =>
          let! held := has_ticket in
          if held || admit1 e then take_ticket ;! emit EvVersion ;! await
          else ret tt
      end
  end.

(** The reads of the response cache that may answer a call. *)
Definition strip_cached (c : Cached) : Cached :=
  {| cached_value := strip_account_fields route (cached_value c); stale := stale c |}.

Definition cache_lookup (key : option string) : M (option json) :=
  match key with
  | Some k =>
      if bool_decide (checked = Some k) then ret None
      else
        await ;!
        match refresh_key, cached1 e with
        | None, Some c =>
            (if stale c then emit (EvRefresh k) else ret tt) ;! ret (Some (cached_value (strip_cached c)))
        | Some _, Some c => ret (if stale c then None else Some (cached_value (strip_cached c)))
        | _, None => ret None
        end
  | None => ret None
  end.

Definition refill_lookup (key : option string) : M (option json) :=
  match key with
  | Some _ => await ;! ret (option_map (strip_account_fields route) (cached2 e))
  | None => ret None
  end.

Definition check_refresh (key : option string) : M unit :=
  match refresh_key with
  | Some r => if bool_decide (key = Some r) then ret tt else fail ProtocolDefinition
  | None => ret tt
  end.

(** [Once] attempts as events: whether anything was sent. *)
Definition was_sent (o : Once) : bool := is_some (sent_headers o).

Definition player_data_check : M unit :=
  if String.eqb route PLAYER_DATA && negb global then
    emit (EvWhoami (was_sent (whoami e))) ;! await ;!
    match response (whoami e) with
    | Err x => emit EvReport ;! set_attempted false ;! fail x
    | Ok _ => ret tt
    end
  else ret tt.

(** The RPC: authenticated reads are made once, anonymous ones by [execute]. *)
Definition rpc_response : M (result AppError json) :=
  if authenticated route then
    emit (EvDispatch (was_sent (once e))) ;! await ;!
    ret (if target_not_found global route (response (once e)) (code (once e)) then Err NotFound else response (once e))
  else
    emit (EvDispatch (existsb was_sent (anonymous e))) ;! await ;!
    ret (match last (anonymous e) with Some o => response o | None => Err Errors.Transport end).

(** Everything before the account is used: a value that answers the call, or
    the cache key to fill. *)
Definition before_rpc : M (json + option string) :=
  (if identity_only then ret tt else ensure_version) ;!
  await ;!
  let! key := lift (key1 e) in
  check_refresh key ;!
  let! hit := cache_lookup key in
  match hit with
  | Some v => ret (inl v)
  | None =>
      let! hit := refill_lookup key in
      match hit with
      | Some v => ret (inl v)
      | None =>
          await ;!
          lift (guard_result e) ;!
          (if authenticated route && negb (account_available e) then fail AccountUnavailable else ret tt) ;!
          (match refresh_key with
           | Some _ => await ;! (let! k := lift (key2 e) in check_refresh k)
           | None => ret tt
           end) ;!
          (if identity_only && (authenticated route && has_session e) then ret tt else admit_path (admit2 e)) ;!
          (if authenticated route then emit EvLogin ;! await ;! lift (rmap (fun _ => tt) (login e)) else ret tt) ;!
          if identity_only then
            match login e with
            | Ok a => ret (inl (JObj [("playerId"%string, JStr (player_id a))]))
            | Err x => fail x
            end
          else ret (inr key)
      end
  end.

(** The use of the account, the RPC and the cache fill. *)
Definition rpc_phase (key : option string) : M json :=
  (if authenticated route then emit EvAttempt ;! set_attempted true else ret tt) ;!
  player_data_check ;!
  let! r := rpc_response in
  (if authenticated route then emit EvReport ;! set_attempted false else ret tt) ;!
  let! v := lift r in
  match key with
  | Some k => emit (EvStore k (strip_account_fields route v)) ;! await ;! ret (strip_account_fields route v)
  | None => ret v
  end.

Definition inner_call : M json :=
  let! x := before_rpc in
  match x with
  | inl v => ret v
  | inr key => rpc_phase key
  end.

(** The guards before the account, the cut call, and the report of an account
    whose call was cut. *)
Definition admitted_result (budget : nat) : result AppError json * list event :=
  if negb (slot_in_time e) then (Err Timeout, [])
  else if negb (slot_open e) then (Err Errors.Transport, [])
  else if negb (barrier e) then (Err Timeout, [])
  else if some_and expected_protocol (fun x => none_or (protocol_sha e) (fun sha => negb (String.eqb sha x)))
  then (Err PeerIdentityMismatch, [])
  else
    match (if authenticated route then lease e else Ok tt) with
    | Err x => (Err (if is_some expected_protocol then PeerAccountUnavailable else x), [])
    | Ok _ =>
        let '(r, _, s) := inner_call budget st0 in
        (match r with Some r => r | None => Err Timeout end,
         if attempted s then trace s ++ [EvReport] else trace s)
    end.

Definition marks_stale (r : result AppError json) : bool :=
  match r with Err (Timeout | Errors.Transport | Protocol) => true | _ => false end.

Definition call_admitted (budget : nat) : result AppError json * list event :=
  let '(r, tr) := admitted_result budget in
  match r, expected_protocol with
  | Err UpstreamUnavailable, Some _ => (Err PeerAccountUnavailable, tr)
  | _, _ => (r, if marks_stale r then tr ++ [EvStale] else tr)
  end.

End call.

(** ** The whole call *)

(** What [cached_before_admission] found. *)
Inductive Precheck : Type := Hit (v : json) | Miss (key : string) | Skipped.

(** The role of a coalesced call: it leads its flight, or joins one that another
    call with the same key leads, in which case it may give up waiting. *)
Inductive role : Type := Leads | Joins (leader : env) (checked : option string) (budget : nat) (gave_up : bool).

Definition coalesces (coalesce_public_reads : bool) (route : string) : bool :=
  if Regions.mem route [VERSION; SERVER_LIST; ANNOUNCEMENTS; ANNOUNCEMENT] then true
  else Regions.mem route [EVENT_RANKING; MUSIC_RANKING; CHALLENGE_RANKING] && coalesce_public_reads.

Definition call_selected (global : bool) (supported : list string) (coalesce : bool) (route : string)
  (name refresh_key expected_protocol : option string) (pre : Precheck) (r : role) (e : env) (budget : nat) :
  result AppError json * list event :=
  if negb (Regions.mem route ROUTES) && negb (String.eqb route SERVER_LIST) then (Err InvalidRequest, [])
  else if negb (identity_only global route) && negb (Regions.mem route supported) then (Err UnsupportedRegionOperation, [])
  else
    let looked := is_none name && is_none refresh_key && negb (identity_only global route) in
    match (if looked then pre else Skipped) with
    | Hit v => (Ok v, [])
    | x =>
        let checked := match x with Miss k => Some k | _ => None end in
        if is_none name && is_none refresh_key && coalesces coalesce route then
          match r with
          | Leads => let '(res, tr) := call_admitted global e route None expected_protocol checked budget in
                     (rmap (strip_account_fields route) res, tr)
          | Joins leader ck n gave_up =>
              let '(res, tr) := call_admitted global leader route None expected_protocol ck n in
              (if gave_up then Err Timeout else rmap (strip_account_fields route) res, tr)
          end
        else call_admitted global e route refresh_key expected_protocol checked budget
    end.

(** * What a call does *)

Definition is_attempt (ev : event) : bool := match ev with EvAttempt => true | _ => false end.
Definition is_report (ev : event) : bool := match ev with EvReport => true | _ => false end.
Definition is_dispatch (ev : event) : bool := match ev with EvDispatch _ => true | _ => false end.
Definition count (f : event -> bool) (tr : list event) : nat := length (List.filter f tr).

(** Whether an RPC with the account was sent: the read, or the identity check
    before it. *)
Definition dispatched_in (tr : list event) : bool :=
  existsb (fun ev => match ev with EvDispatch sent | EvWhoami sent => sent | _ => false end) tr.

(** A program that emits only events of [P] and leaves the account alone. *)
Definition only (P : event -> Prop) {A} (m : M A) : Prop :=
  forall n s r n' s', m n s = (r, n', s') ->
  exists l, trace s' = trace s ++ l /\ Forall P l /\ attempted s' = attempted s.

Section only.
Context (P : event -> Prop).

Lemma only_same {A} (m : M A) :
  (forall n s r n' s', m n s = (r, n', s') -> trace s' = trace s /\ attempted s' = attempted s) -> only P m.
Proof. intros H n s r n' s' E. destruct (H _ _ _ _ _ E) as [-> ->]. exists []. by rewrite app_nil_r. Qed.

Lemma only_ret {A} (a : A) : only P (ret a).
Proof. apply only_same. by intros n s r n' s' [= <- <- <-]. Qed.
Lemma only_lift {A} (x : result AppError A) : only P (lift x).
Proof. apply only_same. by intros n s r n' s' [= <- <- <-]. Qed.
Lemma only_fail {A} x : only P (fail (A := A) x).
Proof. apply only_lift. Qed.
Lemma only_await : only P await.
Proof. apply only_same. intros [|n] s r n' s' [= <- <- <-]; done. Qed.
Lemma only_take_ticket : only P take_ticket.
Proof. apply only_same. by intros n s r n' s' [= <- <- <-]. Qed.
Lemma only_has_ticket : only P has_ticket.
Proof. apply only_same. by intros n s r n' s' [= <- <- <-]. Qed.
Lemma only_emit ev : P ev -> only P (emit ev).
Proof. intros HP n s r n' s' [= <- <- <-]. exists [ev]. cbn. auto. Qed.
Lemma only_bind {A B} (m : M A) (k : A -> M B) : only P m -> (forall a, only P (k a)) -> only P (bindM m k).
Proof.
  intros Hm Hk n s r n' s'. unfold bindM. destruct (m n s) as [[r1 n1] s1] eqn:E.
  destruct (Hm _ _ _ _ _ E) as (l1 & T1 & F1 & A1).
  destruct r1 as [[a|x]|]; [|intros [= <- <- <-]; eauto..].
  intros (l2 & T2 & F2 & A2)%Hk. exists (l1 ++ l2). rewrite T2, T1, app_assoc, Forall_app, A2. auto.
Qed.
End only.

Create HintDb quiet.
#[export] Hint Resolve only_ret only_lift only_fail only_await only_take_ticket only_has_ticket only_emit only_bind : quiet.

(** Solves [only] goals by the structure of the program. *)
Ltac quiet :=
  repeat match goal with
  | |- only _ (bindM _ _) => apply only_bind; [|intros ?]
  | |- only _ (match ?x with _ => _ end) => destruct x
  | |- only _ (if ?x then _ else _) => destruct x
  | |- only _ (emit _) => apply only_emit
  | _ => solve [eauto with quiet]
  end.

(** Events before the account is used. *)
Definition preliminary (ev : event) : Prop :=
  match ev with EvVersion | EvLogin | EvRefresh _ => True | _ => False end.

Lemma before_rpc_quiet global e route rk ck : only preliminary (before_rpc global e route rk ck).
Proof.
  unfold before_rpc, ensure_version, admit_path, cache_lookup, refill_lookup, check_refresh. quiet; done.
Qed.

(** An upstream call never ends in an error that peers take as proof of
    non-execution. *)
Definition once_ok (o : Once) : Prop := forall x, response o = Err x -> pre_dispatch_error x = false.
Definition calls_ok (e : env) : Prop := once_ok (whoami e) /\ once_ok (once e) /\ Forall once_ok (anonymous e).

Lemma encode_error p route input x : encode p route input = Err x -> pre_dispatch_error x = false.
Proof.
  unfold encode. destruct (if native p then _ else _); [done|]. destruct (known_method p route); [|by intros [= <-]].
  destruct (dynamic_encode p route input); [done|by intros [= <-]].
Qed.

Lemma decode_error p route bytes x :
  (forall x, native_decode p route bytes = Err x -> pre_dispatch_error x = false) ->
  decode p route bytes = Err x -> pre_dispatch_error x = false.
Proof.
  intros Hn. unfold decode. destruct (if native p then _ else _) as [[v|]|y] eqn:E; cbn [rbind]; [done| |].
  - destruct (known_method p route); [|by intros [= <-]]. destruct (dynamic_decode p route bytes); [done|by intros [= <-]].
  - intros [= <-]. destruct (native p); [auto|done].
Qed.

Lemma request_headers_error c ua hv s route auth rem rid x :
  request_headers c ua hv s route auth rem rid = Err x -> pre_dispatch_error x = false.
Proof.
  unfold request_headers, auth_headers.
  destruct (authenticated route); cbn [rbind]; [destruct auth as [[? ? ? [b|]]|]; cbn [ok_or rbind]|];
    try (by intros [= <-]); destruct (is_global c && _); cbn [rbind];
    try (destruct auth as [[? ? ? [b'|]]|]; cbn [rbind]);
    try (by intros [= <-]); destruct (forallb _ _); done || by intros [= <-].
Qed.

Lemma grpc_value_error c p hv sel s route auth ok bytes md now utc x :
  (forall r b x, native_decode p r b = Err x -> pre_dispatch_error x = false) ->
  fst (grpc_value c p hv sel s route auth ok bytes md now utc) = Err x -> pre_dispatch_error x = false.
Proof.
  intros Hn. unfold grpc_value. destruct (negb ok); [by intros [= <-]|].
  destruct (grpc_status_of md) as [st|]; [|by intros [= <-]]. destruct (negb (st =? 0)).
  { cbn. intros [= <-]. by destruct (bool_decide _). }
  destruct (some_and _ _); [by intros [= <-]|]. destruct (rbind _ _) as [v|y] eqn:E.
  - destruct (_ && _); [by intros [= <-]|]. destruct (String.eqb route VERSION); [|done].
    destruct (announced _ _ _ _) as [[[]]|]; [done|by intros [= <-]].
  - cbn. intros [= <-]. revert E. unfold grpc_unframe.
    destruct bytes as [|? [|? [|? [|? [|? rest]]]]]; cbn [rbind]; try (by intros [= <-]).
    destruct (negb _); cbn [rbind]; [by intros [= <-]|]. destruct (_ =? _); cbn [rbind]; [|by intros [= <-]].
    apply decode_error, Hn.
Qed.

Lemma execute_once_ok c p ua rfc hv sel s route input auth now deadline utc rid exchange :
  (forall r b x, native_decode p r b = Err x -> pre_dispatch_error x = false) ->
  once_ok (execute_once c p ua rfc hv sel s route input auth now deadline utc rid exchange).
Proof.
  intros Hn x. unfold execute_once. destruct (deadline <=? now); [by intros [= <-]|].
  destruct (encode p route input) as [enc|y] eqn:E1; [|cbn; intros [= <-]; by eapply encode_error].
  destruct (request_headers _ _ _ _ _ _ _ _) as [hs|y] eqn:E2; [|cbn; intros [= <-]; by eapply request_headers_error].
  destruct exchange as [a|[]]; [|by intros [= <-]..].
  destruct (read_body _ _ _ _) as [[bytes md]|[]]; [|by intros [= <-]..].
  destruct (grpc_value _ _ _ _ _ _ _ _ _ _ _ _) as [r st] eqn:E. cbn. intros ->.
  eapply grpc_value_error; [exact Hn|]. by rewrite E.
Qed.

(** The phase that uses the account. *)
Record rpc_events (route : string) (l : list event) (left : bool) : Prop := {
  one_attempt : count is_attempt l = if authenticated route then 1%nat else 0%nat;
  one_report : (count is_report l + (if left then 1 else 0))%nat = count is_attempt l;
  one_dispatch : (count is_dispatch l <= 1)%nat;
  stored : forall k v, In (EvStore k v) l -> exists v0, v = strip_account_fields route v0;
}.

(** The events of a run as a list, and the facts about a concrete list. *)
Ltac rpc_list Hau Hs :=
  split;
  [ eexists; split; [rewrite <- ?app_assoc; cbn [app]; first [reflexivity|by rewrite app_nil_r]|];
    constructor; rewrite ?Hau; cbn; rewrite ?Hs; try lia; intros; naive_solver
  | ].

Lemma rpc_phase_spec global e route key n s r n' s' :
  calls_ok e -> attempted s = false -> rpc_phase global e route key n s = (r, n', s') ->
  (exists l, trace s' = trace s ++ l /\ rpc_events route l (attempted s')) /\
  (forall x, r = Some (Err x) -> pre_dispatch_error x = false).
Proof.
  intros (Hw & Ho & Ha) Hs. unfold rpc_phase, player_data_check, rpc_response, bindM, emit, set_attempted, await, ret, lift, fail.
  assert (Hlast : forall x, match last (anonymous e) with Some o => response o | None => Err Errors.Transport end = Err x ->
                            pre_dispatch_error x = false).
  { intros x. destruct (last (anonymous e)) as [o|] eqn:El; [|by intros [= <-]].
    apply last_Some in El as [l El]. rewrite El in Ha. apply Forall_app in Ha as [_ Ha]. apply Forall_cons in Ha as [Ha _]. apply Ha. }
  assert (Honce : forall x, (if target_not_found global route (response (once e)) (code (once e)) then Err NotFound
                             else response (once e)) = Err x -> pre_dispatch_error x = false).
  { intros x. destruct (target_not_found _ _ _ _); [by intros [= <-]|apply Ho]. }
  revert Hlast Honce. generalize (match last (anonymous e) with Some o => response o | None => Err Errors.Transport end).
  generalize (if target_not_found global route (response (once e)) (code (once e)) then Err NotFound else response (once e)).
  intros ro ra Hlast Honce.
  destruct (authenticated route) eqn:Hau; [destruct (String.eqb route PLAYER_DATA && negb global)|].
  - destruct n as [|n]; [intros [= <- <- <-]; rpc_list Hau Hs; done|].
    destruct (response (whoami e)) as [w|x] eqn:Ew; [|intros [= <- <- <-]; rpc_list Hau Hs; intros y [= <-]; by apply Hw].
    destruct n as [|n]; [intros [= <- <- <-]; rpc_list Hau Hs; done|].
    destruct ro as [v|x]; [|intros [= <- <- <-]; rpc_list Hau Hs; intros y [= <-]; auto].
    destruct key as [k|], n as [|n]; intros [= <- <- <-]; rpc_list Hau Hs; done.
  - destruct n as [|n]; [intros [= <- <- <-]; rpc_list Hau Hs; done|].
    destruct ro as [v|x]; [|intros [= <- <- <-]; rpc_list Hau Hs; intros y [= <-]; auto].
    destruct key as [k|], n as [|n]; intros [= <- <- <-]; rpc_list Hau Hs; done.
  - assert (Hpd : String.eqb route PLAYER_DATA = false).
    { apply String.eqb_neq. intros ->. vm_compute in Hau. done. }
    rewrite Hpd. cbn [andb].
    destruct n as [|n]; [intros [= <- <- <-]; rpc_list Hau Hs; done|].
    destruct ra as [v|x]; [|intros [= <- <- <-]; rpc_list Hau Hs; intros y [= <-]; auto].
    destruct key as [k|], n as [|n]; intros [= <- <- <-]; rpc_list Hau Hs; done.
Qed.

Lemma count_app f l1 l2 : count f (l1 ++ l2) = (count f l1 + count f l2)%nat.
Proof. unfold count. by rewrite List.filter_app, length_app. Qed.

Lemma preliminary_count f l :
  (forall ev, preliminary ev -> f ev = false) -> Forall preliminary l -> count f l = 0%nat.
Proof. intros Hf. induction 1 as [|ev l Hp _ IH]; [done|]. unfold count in *. cbn. by rewrite Hf. Qed.

Lemma preliminary_not_dispatched l : Forall preliminary l -> dispatched_in l = false.
Proof. induction 1 as [|ev l Hp _ IH]; [done|]. by destruct ev. Qed.

Lemma inner_call_spec global e route rk ck n r n' s' :
  calls_ok e -> inner_call global e route rk ck n st0 = (r, n', s') ->
  exists pre l, trace s' = pre ++ l /\ Forall preliminary pre /\
    ((l = [] /\ attempted s' = false) \/ rpc_events route l (attempted s')) /\
    (forall x, r = Some (Err x) -> pre_dispatch_error x = true -> l = [] /\ attempted s' = false).
Proof.
  intros Hok. unfold inner_call. unfold bindM at 1.
  destruct (before_rpc global e route rk ck n st0) as [[r1 n1] s1] eqn:E.
  destruct (before_rpc_quiet _ _ _ _ _ _ _ _ _ _ E) as (pre & T1 & F1 & A1). cbn in T1, A1.
  assert (Hquiet : forall s2, s2 = s1 -> trace s2 = pre ++ [] /\ attempted s2 = false).
  { intros s2 ->. by rewrite app_nil_r. }
  destruct r1 as [[[v|key]|x]|].
  - intros [= <- <- <-]. exists pre, []. destruct (Hquiet s1 eq_refl). do 2 (split; [done|]). split; [by left|done].
  - intros Hr. destruct (rpc_phase_spec _ _ _ _ _ _ _ _ _ Hok A1 Hr) as ((l & T2 & L2) & Hx).
    exists pre, l. rewrite T2, T1. split; [done|]. split; [done|]. split; [auto|].
    intros x Hx1 Hx2. by rewrite (Hx x Hx1) in Hx2.
  - intros [= <- <- <-]. exists pre, []. destruct (Hquiet s1 eq_refl). do 2 (split; [done|]). split; [by left|done].
  - intros [= <- <- <-]. exists pre, []. destruct (Hquiet s1 eq_refl). do 2 (split; [done|]). split; [by left|done].
Qed.

(** What is promised of every trace. *)
Record trace_ok (route : string) (tr : list event) : Prop := {
  reports_match : count is_report tr = count is_attempt tr;
  attempt_once : (count is_attempt tr <= 1)%nat;
  dispatch_once : (count is_dispatch tr <= 1)%nat;
  dispatch_charged : authenticated route = true -> (count is_dispatch tr <= count is_attempt tr)%nat;
  stores_stripped : forall k v, In (EvStore k v) tr -> exists v0, v = strip_account_fields route v0;
}.

Lemma trace_ok_nil route : trace_ok route [].
Proof. by constructor; cbn; try lia. Qed.

Lemma trace_ok_run route pre l left :
  Forall preliminary pre -> rpc_events route l left ->
  trace_ok route (if left then (pre ++ l) ++ [EvReport] else pre ++ l).
Proof.
  intros Hp [L1 L2 L3 L4].
  assert (C1 : count is_attempt pre = 0%nat) by (apply preliminary_count; [by intros []|done]).
  assert (C2 : count is_report pre = 0%nat) by (apply preliminary_count; [by intros []|done]).
  assert (C3 : count is_dispatch pre = 0%nat) by (apply preliminary_count; [by intros []|done]).
  assert (Hst : forall k v, In (EvStore k v) (pre ++ l) -> exists v0, v = strip_account_fields route v0).
  { intros k v [Hin|Hin]%in_app_iff; [|eauto]. rewrite List.Forall_forall in Hp. by apply Hp in Hin. }
  destruct left; constructor; rewrite ?count_app, ?C1, ?C2, ?C3; cbn [count is_report is_attempt is_dispatch List.filter length];
    try (destruct (authenticated route); lia); auto.
  intros k v [Hin|[Hin|[]]]%in_app_iff; [eauto|done].
Qed.

Lemma trace_ok_stale route tr : trace_ok route tr -> trace_ok route (tr ++ [EvStale]).
Proof.
  intros [T1 T2 T3 T4 T5]. constructor; rewrite ?count_app; cbn [count is_report is_attempt is_dispatch List.filter length];
    rewrite ?Nat.add_0_r; auto.
  intros k v [Hin|[Hin|[]]]%in_app_iff; [eauto|done].
Qed.

Lemma admitted_result_spec global e route rk xp ck n r tr :
  calls_ok e -> admitted_result global e route rk xp ck n = (r, tr) ->
  trace_ok route tr /\
  (forall x, r = Err x -> pre_dispatch_error x = true -> Forall preliminary tr).
Proof.
  intros Hok. unfold admitted_result.
  destruct (negb (slot_in_time e)); [intros [= <- <-]; split; [apply trace_ok_nil|done]|].
  destruct (negb (slot_open e)); [intros [= <- <-]; split; [apply trace_ok_nil|done]|].
  destruct (negb (barrier e)); [intros [= <- <-]; split; [apply trace_ok_nil|done]|].
  destruct (some_and _ _); [intros [= <- <-]; split; [apply trace_ok_nil|done]|].
  destruct (if authenticated route then lease e else Ok ()) as [[]|x0];
    [|intros [= <- <-]; split; [apply trace_ok_nil|done]].
  destruct (inner_call global e route rk ck n st0) as [[r1 n1] s1] eqn:E.
  destruct (inner_call_spec _ _ _ _ _ _ _ _ _ Hok E) as (pre & l & T & Fp & Hl & Hx).
  intros [= <- <-]. rewrite T. split.
  - destruct Hl as [[-> ->]|Hl]; [|by apply trace_ok_run].
    rewrite app_nil_r. constructor; rewrite ?preliminary_count by (done || by intros []); try lia.
    intros k v Hin. rewrite List.Forall_forall in Fp. by apply Fp in Hin.
  - intros x Hr Hp. destruct r1 as [r1|]; [subst r1|by injection Hr as <-]. destruct (Hx x eq_refl Hp) as [-> ->].
    by rewrite app_nil_r.
Qed.

Lemma call_admitted_spec global e route rk xp ck n r tr :
  calls_ok e -> call_admitted global e route rk xp ck n = (r, tr) ->
  trace_ok route tr /\
  (forall x, r = Err x -> pre_dispatch_error x = true -> Forall preliminary tr) /\
  (is_some xp = true -> r <> Err UpstreamUnavailable).
Proof.
  intros Hok. unfold call_admitted.
  destruct (admitted_result global e route rk xp ck n) as [r1 tr1] eqn:E.
  apply admitted_result_spec in E as (Ht & Hp); [|done]. intros Hr.
  assert (Hcase : (r = Err PeerAccountUnavailable /\ r1 = Err UpstreamUnavailable /\ tr = tr1) \/
                  (r = r1 /\ tr = (if marks_stale r1 then tr1 ++ [EvStale] else tr1) /\
                   (is_some xp = true -> r1 <> Err UpstreamUnavailable))).
  { destruct r1 as [v|x]; [right; injection Hr as <- <-; done|].
    destruct (decide (x = UpstreamUnavailable)) as [->|Hne].
    - destruct xp; injection Hr as <- <-; [by left|right; auto].
    - right. assert (Hr' : (Err x, if marks_stale (Err x) then tr1 ++ [EvStale] else tr1) = (r, tr))
        by (rewrite <- Hr; by destruct x, xp).
      injection Hr' as <- <-. split; [done|]. split; [done|]. congruence. }
  destruct Hcase as [(-> & -> & ->)|(-> & -> & Hne)].
  - split; [done|]. split; [|done]. intros x _ _. by apply (Hp UpstreamUnavailable).
  - split; [destruct (marks_stale r1); auto using trace_ok_stale|]. split; [|auto].
    intros x -> Hx. replace (marks_stale (Err x)) with false by (by destruct x). by apply (Hp x).
Qed.

(** * The interface to peers *)

(** What one peer read meets. *)
Record world : Type := { w_pre : Precheck; w_role : role; w_env : env; w_budget : nat }.

(** Every upstream call of an environment was made by [execute_once]. *)
Definition made_upstream (p : Bundle) (o : Once) : Prop :=
  exists c ua rfc hv sel s route input auth now deadline utc rid exchange,
    o = execute_once c p ua rfc hv sel s route input auth now deadline utc rid exchange.
Definition from_upstream (p : Bundle) (e : env) : Prop :=
  made_upstream p (whoami e) /\ made_upstream p (once e) /\ Forall (made_upstream p) (anonymous e).
Definition world_upstream (p : Bundle) (w : world) : Prop :=
  from_upstream p (w_env w) /\ match w_role w with Joins leader _ _ _ => from_upstream p leader | Leads => True end.

Section game.
Context (p : Bundle) (global : bool) (supported : list string) (coalesce : bool).
(** The generated decoder reports every failure as a protocol error. *)
Hypothesis native_errors : forall route bytes x, native_decode p route bytes = Err x -> x = Protocol.

Lemma from_upstream_ok e : from_upstream p e -> calls_ok e.
Proof using native_errors.
  assert (Hok : forall o, made_upstream p o -> once_ok o).
  { intros o (c & ua & rfc & hv & sel & s & route & input & auth & now & deadline & utc & rid & exchange & ->).
    apply execute_once_ok. intros r b x ->%native_errors. done. }
  intros (Hw & Ho & Ha). split; [auto|]. split; [auto|]. eapply Forall_impl; [exact Ha|auto].
Qed.

Lemma call_selected_spec route name rk xp w r tr :
  world_upstream p w ->
  call_selected global supported coalesce route name rk xp (w_pre w) (w_role w) (w_env w) (w_budget w) = (r, tr) ->
  trace_ok route tr /\
  (forall x, r = Err x -> pre_dispatch_error x = true -> Forall preliminary tr) /\
  (is_some xp = true -> r <> Err UpstreamUnavailable).
Proof using native_errors.
  intros [He Hro]. pose proof (from_upstream_ok _ He) as Hok. unfold call_selected.
  destruct (_ && _); [intros [= <- <-]; split; [apply trace_ok_nil|done]|].
  destruct (_ && _); [intros [= <- <-]; split; [apply trace_ok_nil|done]|].
  assert (Hmap : forall (v : result AppError json) x, rmap (strip_account_fields route) v = Err x -> v = Err x) by (by intros []).
  destruct (if is_none name && is_none rk && _ then w_pre w else Skipped) as [v|k|]; [intros [= <- <-]; split; [apply trace_ok_nil|done]|..].
  all: destruct (_ && _); [|by apply call_admitted_spec].
  all: destruct (w_role w) as [|leader ck n gave_up];
    [destruct (call_admitted global (w_env w) _ _ _ _ _) as [r1 tr1] eqn:E
    |destruct (call_admitted global leader _ _ _ _ _) as [r1 tr1] eqn:E].
  all: apply call_admitted_spec in E as (H1 & H2 & H3); [|by auto using from_upstream_ok].
  all: intros [= <- <-]; split; [done|]; try (destruct gave_up; [split; [by intros x [= <-]|done]|]).
  all: split; [intros x Hx%Hmap; eauto|intros Hxp Hx%Hmap; by apply H3].
Qed.

(** A peer read: its result and its trace. *)
Definition peer_read (worlds : string -> json -> string -> world) (route : string) (input : json) (proto : string) :
  result AppError json * list event :=
  let w := worlds route input proto in
  call_selected global supported coalesce route None None (Some proto) (w_pre w) (w_role w) (w_env w) (w_budget w).

Definition call_peer (worlds : string -> json -> string -> world) (route : string) (input : json) (proto : string) : Answer :=
  let '(r, tr) := peer_read worlds route input proto in
  {| answer := r; dispatched := dispatched_in tr |}.

(** C8: The game client keeps the interface that peers rely on: whatever its parts answer
    and wherever its deadline cuts it, a peer read that fails with one of the errors
    that callers take as proof of non-execution has sent neither the read nor the
    identity check before it: what it did is at most a VERSION call, which carries no
    account, a background refresh and a request for the account's credentials. Peers
    never see the local upstream-unavailable error. *)
Theorem peer_refusals_precede_dispatch worlds :
  (forall route input proto, world_upstream p (worlds route input proto)) ->
  PeerGame (call_peer worlds) /\
  (forall route input proto x, fst (peer_read worlds route input proto) = Err x -> pre_dispatch_error x = true ->
     Forall preliminary (snd (peer_read worlds route input proto))) /\
  (forall route input proto, answer (call_peer worlds route input proto) <> Err UpstreamUnavailable).
Proof using native_errors.
  intros Hw.
  assert (Hp : forall route input proto x, fst (peer_read worlds route input proto) = Err x -> pre_dispatch_error x = true ->
     Forall preliminary (snd (peer_read worlds route input proto))).
  { intros route input proto x. unfold peer_read. destruct (call_selected _ _ _ _ _ _ _ _ _ _ _) as [r tr] eqn:E.
    apply call_selected_spec in E as (_ & H & _); [|auto]. apply H. }
  split; [|split; [exact Hp|]]; intros route input proto; unfold call_peer; specialize (Hp route input proto).
  - intros x. destruct (peer_read _ _ _ _) as [r tr]. cbn in *. intros Hr Hx. by eapply preliminary_not_dispatched, Hp.
  - clear Hp. unfold peer_read. destruct (call_selected _ _ _ _ _ _ _ _ _ _ _) as [r tr] eqn:E.
    apply call_selected_spec in E as (_ & _ & H); [|auto]. by apply H.
Qed.

(** C14: Every call that uses an account charges it exactly once, also when it is cut at any
    await, dispatches at most one RPC of its own, and stores ranking values only without
    the account-relative fields. *)
Theorem account_charged_once_per_call route name rk xp w r tr :
  world_upstream p w ->
  call_selected global supported coalesce route name rk xp (w_pre w) (w_role w) (w_env w) (w_budget w) = (r, tr) ->
  count is_report tr = count is_attempt tr /\ (count is_attempt tr <= 1)%nat /\ (count is_dispatch tr <= 1)%nat /\
  (authenticated route = true -> (count is_dispatch tr <= count is_report tr)%nat) /\
  (forall k v, In (EvStore k v) tr -> account_relative route = true ->
     json_field "myRank" v = None /\ json_field "myScore" v = None).
Proof using native_errors.
  intros Hw H. apply call_selected_spec in H as ([T1 T2 T3 T4 T5] & _); [|done].
  do 3 (split; [done|]). split; [intros Ha; rewrite T1; auto|].
  intros k v (v0 & ->)%T5 Hrel. unfold strip_account_fields. rewrite Hrel. apply json_removed.
Qed.

End game.

(** * Witnesses *)
Module ClientDemo.
Import Upstream.UpstreamDemo.

Definition ranking : Once := call MUSIC_RANKING.
Definition demo_env : env :=
  {| slot_in_time := true; slot_open := true; barrier := true; protocol_sha := Some "s"%string; lease := Ok tt;
     need1 := Fresh; bootstrap_free := true; need2 := Fresh; admit1 := true; version_call := Ok JNull;
     key1 := Ok None; cached1 := None; cached2 := None; guard_result := Ok tt; account_available := true;
     key2 := Ok None; has_session := true; admit2 := true; login := Ok account; whoami := call WHOAMI;
     once := ranking; anonymous := [call VERSION] |}.
Definition demo_world : world := {| w_pre := Skipped; w_role := Leads; w_env := demo_env; w_budget := 10 |}.

Lemma made route : made_upstream bundle (call route).
Proof. unfold call. repeat eexists. Qed.

Lemma demo_upstream : world_upstream bundle demo_world.
Proof. split; [|done]. split; [apply made|]. split; [apply made|]. repeat constructor. apply made. Qed.

(** After a VERSION call the login finds the account unavailable. *)
Definition refusing_env : env :=
  {| slot_in_time := true; slot_open := true; barrier := true; protocol_sha := Some "s"%string; lease := Ok tt;
     need1 := Required; bootstrap_free := true; need2 := Required; admit1 := true; version_call := Ok JNull;
     key1 := Ok None; cached1 := None; cached2 := None; guard_result := Ok tt; account_available := true;
     key2 := Ok None; has_session := false; admit2 := true; login := Err UpstreamUnavailable; whoami := call WHOAMI;
     once := ranking; anonymous := [call VERSION] |}.
Definition refusing_world : world := {| w_pre := Skipped; w_role := Leads; w_env := refusing_env; w_budget := 10 |}.

Lemma refusing_upstream : world_upstream bundle refusing_world.
Proof. split; [|done]. split; [apply made|]. split; [apply made|]. repeat constructor. apply made. Qed.

Lemma peer_refusals_precede_dispatch_witness :
  PeerGame (call_peer false ROUTES false (fun _ _ _ => refusing_world)) /\
  peer_read false ROUTES false (fun _ _ _ => refusing_world) MUSIC_RANKING (JObj []) "s"%string =
    (Err PeerAccountUnavailable, [EvVersion; EvLogin]) /\
  Forall preliminary [EvVersion; EvLogin].
Proof.
  destruct (peer_refusals_precede_dispatch bundle false ROUTES false (fun _ _ _ => ltac:(done)) (fun _ _ _ => refusing_world)
    (fun _ _ _ => refusing_upstream)) as (H1 & H2 & _).
  split; [exact H1|]. split; [reflexivity|]. exact (H2 MUSIC_RANKING (JObj []) "s"%string PeerAccountUnavailable eq_refl eq_refl).
Defined.

Lemma account_charged_once_per_call_witness :
  exists r tr, call_selected false ROUTES false MUSIC_RANKING None None None Skipped Leads demo_env 10 = (r, tr) /\
    count is_dispatch tr = 1%nat /\ count is_report tr = 1%nat.
Proof.
  eexists _, _. split; [reflexivity|].
  edestruct (account_charged_once_per_call bundle false ROUTES false (fun _ _ _ => ltac:(done)) MUSIC_RANKING None None None
              demo_world) as (H & _); [apply demo_upstream|reflexivity|].
  split; [vm_compute; reflexivity|]. etransitivity; [exact H|]. vm_compute. reflexivity.
Defined.

End ClientDemo.
