(* ===== verification/Accounts.v ===== *)
(** Account scheduling and health ([accounts.rs]) and the login limits of Global
    accounts ([global_account.rs]).

    Instants are nanoseconds of one monotonic clock.  The shared SDK session of
    a Global account is seen only through the generation a signal marks stale. *)
From Stdlib Require Import ZArith Lia Ascii String List Bool Sorted.
From stdpp Require Import base list strings decidable gmap.
From S2P Require Import Prelude Errors Regions Http PathHealth Upstream.

Local Open Scope Z_scope.

(** ** Health *)
Record Health : Type := mkHealth {
  failures : Z;
  path_failures : Z;
  path_streak : Z;
  until : option Z;
  threshold_until : option Z;
  disabled : bool;
}.
Definition Health_default : Health := mkHealth 0 0 0 None None false.

(** [Option::max]: [None] is below every instant. *)
Definition opt_max (a b : option Z) : option Z :=
  match a, b with
  | Some x, Some y => Some (Z.max x y)
  | Some x, None => Some x
  | None, b => b
  end.
Definition cooldown_until (h : Health) : option Z := opt_max (until h) (threshold_until h).

Definition succeeded (h : Health) : Health := mkHealth 0 0 (path_streak h) None None (disabled h).

Definition transient (policy : PoolPolicy) (h : Health) (streak : option Z) (now : Z) : Health :=
  let f := sat_add U32_MAX (failures h) 1 in
  let '(ps, pf) := match streak with
                   | Some s => (s, sat_add U32_MAX (if path_streak h =? s then path_failures h else 0) 1)
                   | None => (path_streak h, path_failures h)
                   end in
  mkHealth f pf ps (until h)
    (if failure_threshold policy <=? f then Some (now + from_secs (cooldown_seconds policy)) else threshold_until h)
    (disabled h).

Definition path_fault (policy : PoolPolicy) (h : Health) (charge : Charge) (now : Z) : Health :=
  match charge with
  | ChargeAccount streak => transient policy h streak now
  | ChargePath => h
  end.

Definition disable (h : Health) : Health :=
  mkHealth (failures h) (path_failures h) (path_streak h) (until h) (threshold_until h) true.
Definition cool_down (h : Health) (t : Z) : Health :=
  mkHealth (failures h) (path_failures h) (path_streak h)
    (Some (match until h with Some current => Z.max current t | None => t end)) (threshold_until h) (disabled h).

Definition revoke_path_failures (policy : PoolPolicy) (h : Health) (streak : Z) : Health :=
  if negb (path_streak h =? streak) || (path_failures h =? 0) then h
  else
    let f := sat_sub (failures h) (path_failures h) in
    mkHealth f 0 (path_streak h) (until h)
      (if f <? failure_threshold policy then None else threshold_until h) (disabled h).

Definition available_health (h : Health) (now : Z) : bool :=
  negb (disabled h) && none_or (cooldown_until h) (fun t => t <=? now).

(** ** Login limits *)
Record LoginConfig : Type := {
  login_min_interval_seconds : Z;
  max_logins_per_day : Z;
  aegis_cooldown_seconds : Z;
  concurrent_device_limit : Z;
  sdk_timeout_ms : Z;
  sdk_refusal_retry_seconds : Z;
  sdk_keepalive_seconds : Z;
  sdk_origin : string;
  sdk_app_key_env : string;
  state_directory : option string;
}.
Definition login_validate (origin_allowed : string -> bool) (c : LoginConfig) : result AppError unit :=
  if negb (origin_allowed (sdk_origin c))
  then Err (Errors.Config "global_login.sdk_origin must be one of the official SDK HTTPS origins")
  else if is_empty (sdk_app_key_env c) || negb (in_range 1000 60000 (sdk_timeout_ms c))
          || (86400 <? login_min_interval_seconds c) || negb (in_range 1 100 (max_logins_per_day c))
          || negb (in_range 60 86400 (aegis_cooldown_seconds c)) || negb (in_range 1 100 (concurrent_device_limit c))
          || negb (in_range 3600 (30 * 86400) (sdk_refusal_retry_seconds c))
          || negb (in_range 86400 (28 * 86400) (sdk_keepalive_seconds c))
          || some_and (state_directory c) is_empty
  then Err (Errors.Config "global_login values exceed supported bounds")
  else Ok tt.

Definition DAY : Z := from_secs 86400.

Record LoginState : Type := {
  session : option (string * string);       (* player id and credential *)
  sdk_generation : Z;
  attempts : list Z;
  last_login_at : option Z;
  last_error_code : option string;
  last_sdk_code : option Z;
  invalidations : Z;
  concurrent_device : list Z;
}.
Definition LoginState_default : LoginState :=
  {| session := None; sdk_generation := 0; attempts := []; last_login_at := None; last_error_code := None;
     last_sdk_code := None; invalidations := 0; concurrent_device := [] |}.

(** [while front.is_some_and(|t| now - t >= DAY) { pop_front }]. *)
Fixpoint prune_front (now : Z) (l : list Z) : list Z :=
  match l with
  | t :: l' => if DAY <=? sat_sub now t then prune_front now l' else l
  | [] => []
  end.
Definition set_times (s : LoginState) (a c : list Z) : LoginState :=
  {| session := session s; sdk_generation := sdk_generation s; attempts := a; last_login_at := last_login_at s;
     last_error_code := last_error_code s; last_sdk_code := last_sdk_code s; invalidations := invalidations s;
     concurrent_device := c |}.
Definition prune (s : LoginState) (now : Z) : LoginState :=
  set_times s (prune_front now (attempts s)) (prune_front now (concurrent_device s)).

Definition next_allowed (c : LoginConfig) (s : LoginState) (now : Z) : option Z * LoginState :=
  let s := prune s now in
  let by_interval := match last (attempts s) with
                     | Some t => let t := t + from_secs (login_min_interval_seconds c) in if now <? t then Some t else None
                     | None => None
                     end in
  let by_cap := if max_logins_per_day c <=? llen (attempts s)
                then option_map (fun t => t + DAY) (head (attempts s)) else None in
  (opt_max by_interval by_cap, s).

(** A login attempt is recorded when it is allowed. *)
Definition try_login (c : LoginConfig) (s : LoginState) (now : Z) : bool * LoginState :=
  let '(blocked, s) := next_allowed c s now in
  match blocked with
  | Some _ => (false, s)
  | None => (true, set_times s (attempts s ++ [now]) (concurrent_device s))
  end.

(** ** Accounts *)
Record Global : Type := { sdk_uid : string; login_state : LoginState }.
Record Account : Type := {
  name : string;
  global : option Global;
  active : Z;
  health : Health;
}.
Definition with_health (a : Account) (h : Health) : Account :=
  {| name := name a; global := global a; active := active a; health := h |}.
Definition with_login (a : Account) (f : LoginState -> LoginState) : Account :=
  {| name := name a;
     global := option_map (fun g => {| sdk_uid := sdk_uid g; login_state := f (login_state g) |}) (global a);
     active := active a; health := health a |}.
Definition with_active (a : Account) (n : Z) : Account :=
  {| name := name a; global := global a; active := n; health := health a |}.
Definition available (a : Account) (now : Z) : bool := available_health (health a) now.

Definition set_codes (code : option string) (s : LoginState) : LoginState :=
  {| session := session s; sdk_generation := sdk_generation s; attempts := attempts s; last_login_at := last_login_at s;
     last_error_code := code; last_sdk_code := None; invalidations := invalidations s;
     concurrent_device := concurrent_device s |}.
Definition set_session (o : option (string * string)) (n : Z) (s : LoginState) : LoginState :=
  {| session := o; sdk_generation := sdk_generation s; attempts := attempts s; last_login_at := last_login_at s;
     last_error_code := last_error_code s; last_sdk_code := last_sdk_code s; invalidations := n;
     concurrent_device := concurrent_device s |}.

(** [invalidate]: drops the session and counts; the count decides about
    disabling. *)
Definition invalidate (a : Account) : Account * Z :=
  match global a with
  | Some g => let n := sat_add U32_MAX (invalidations (login_state g)) 1 in
              (with_login a (set_session None n), n)
  | None => (a, 0)
  end.

(** [global_signal]: the account, and the SDK generation it marked stale. *)
Definition global_signal (policy : PoolPolicy) (login : LoginConfig) (a : Account) (result : result AppError json)
  (code : option string) (charge : Charge) (now : Z) : Account * option Z :=
  match global a with
  | None => (a, None)
  | Some g =>
      match result with
      | Ok _ => (with_health (with_login a (fun s => set_codes None (set_session (session s) 0 s))) (succeeded (health a)), None)
      | Err error =>
          let status := match error with Grpc n | Maintenance n => Some n | _ => None end in
          let code := match code with
                      | Some c => if (len c <=? 64) && all_bytes (fun b => is_ascii_upper b || is_ascii_digit b || char_is 95 b) c
                                  then Some c else None
                      | None => None
                      end in
          let a := match code with Some c => with_login a (set_codes (Some c)) | None => a end in
          let stale := Some (sdk_generation (login_state g)) in
          let disabled_at_two '(a, n) := if 2 <=? n then with_health a (disable (health a)) else a in
          let by_status :=
            if bool_decide (status = Some 16) then (disabled_at_two (invalidate a), stale)
            else if bool_decide (status = Some 7) then (with_health a (disable (health a)), None)
            else if match error with Timeout | Errors.Transport | Protocol => true | _ => bool_decide (status = Some 14) end
            then (with_health a (path_fault policy (health a) charge now), None)
            else if bool_decide (status = Some 8) || bool_decide (status = Some 13)
            then (with_health a (transient policy (health a) None now), None)
            else (a, None) in
          match code with
          | Some c =>
              if starts_with c "BAN_" then
                (with_health (with_login a (fun s => set_session None (invalidations s) s)) (disable (health a)), None)
              else if starts_with c "AEGIS_" then
                (with_health a (cool_down (health a) (now + from_secs (aegis_cooldown_seconds login))), None)
              else if String.eqb c "CONCURRENT_DEVICE" then
                let a := fst (invalidate a) in
                let a := with_login a (fun s => let s := prune s now in set_times s (attempts s) (concurrent_device s ++ [now])) in
                let events := match global a with Some g => llen (concurrent_device (login_state g)) | None => 0 end in
                (with_health a (if concurrent_device_limit login <=? events then disable (health a)
                                else cool_down (health a) (now + from_secs (cooldown_seconds policy))), None)
              else if starts_with c "TOKEN_" || starts_with c "PLAYER_NOT_" then
                (disabled_at_two (invalidate a), if starts_with c "TOKEN_" then stale else None)
              else if String.eqb c "UNDER_MAINTENANCE" then (a, None)
              else if version_signal (Some c) then (a, None)
              else by_status
          | None => by_status
          end
      end
  end.

(** [Lease::report]. *)
Definition report (policy : PoolPolicy) (login : option LoginConfig) (a : Account) (result : result AppError json)
  (code : option string) (charge : Charge) (now : Z) : Account * option Z :=
  match login, global a with
  | Some l, Some _ => global_signal policy l a result code charge now
  | _, _ =>
      if bool_decide (code = Some "UNDER_MAINTENANCE"%string) || version_signal code then (a, None)
      else
        let h := health a in
        (with_health a
           match result with
           | Ok _ => succeeded h
           | Err (Grpc n) =>
               if (n =? 7) || (n =? 16) then
                 mkHealth (sat_add U32_MAX (failures h) 1) (path_failures h) (path_streak h) (until h) (threshold_until h) true
               else if n =? 14 then path_fault policy h charge now
               else if (n =? 8) || (n =? 13) then transient policy h None now
               else h
           | Err (Timeout | Errors.Transport | Protocol) => path_fault policy h charge now
           | _ => h
           end, None)
  end.

(** ** The pool *)
Record Pool : Type := { entries : list Account; next : nat; generation : Z }.

Definition rotation_indices (p : Pool) : list nat :=
  map (fun offset => ((next p + offset) mod length (entries p))%nat) (seq 0 (length (entries p))).

Definition active_at (p : Pool) (i : nat) : Z := match entries p !! i with Some a => active a | None => 0 end.
Definition available_at (p : Pool) (now : Z) (i : nat) : bool :=
  match entries p !! i with Some a => available a now | None => false end.

(** [min_by_key]: the first of the least. *)
Fixpoint min_by_key (key : nat -> Z) (l : list nat) : option nat :=
  match l with
  | [] => None
  | i :: l => match min_by_key key l with
              | None => Some i
              | Some j => if key j <? key i then Some j else Some i
              end
  end.

Definition public_index (p : Pool) (now : Z) : option nat :=
  min_by_key (active_at p) (List.filter (available_at p now) (rotation_indices p)).
Definition peek_public (p : Pool) (now : Z) : option Account :=
  match public_index p now with Some i => entries p !! i | None => None end.
Definition rotation (p : Pool) : list Account := omap (fun i => entries p !! i) (rotation_indices p).

Fixpoint position (f : Account -> bool) (l : list Account) : option nat :=
  match l with
  | [] => None
  | a :: l => if f a then Some 0%nat else option_map S (position f l)
  end.

Definition select (p : Pool) (by_name : option string) (private : bool) (now : Z) : result AppError (nat * Pool) :=
  rbind (match by_name with
         | Some n => ok_or (position (fun a => String.eqb (name a) n) (entries p)) NotFound
         | None => if private then Ok 0%nat else ok_or (public_index p now) AccountUnavailable
         end) (fun index =>
  match entries p !! index with
  | Some a =>
      if available a now
      then Ok (index, {| entries := <[index := with_active a (active a + 1)]> (entries p);
                         next := ((index + 1) mod length (entries p))%nat; generation := generation p |})
      else Err AccountUnavailable
  | None => Err AccountUnavailable
  end).

(** [Lease::drop]. *)
Definition release (p : Pool) (index : nat) : Pool :=
  {| entries := match entries p !! index with
                | Some a => <[index := with_active a (active a - 1)]> (entries p)
                | None => entries p
                end; next := next p; generation := generation p |}.

Definition pool_revoke (policy : PoolPolicy) (p : Pool) (streak : Z) : Pool :=
  {| entries := map (fun a => with_health a (revoke_path_failures policy (health a) streak)) (entries p);
     next := next p; generation := generation p |}.

(** [inherit_login_history]. *)
Definition inherit_account (previous : list Account) (a : Account) : Account :=
  match global a, List.find (fun o => String.eqb (name o) (name a)) previous with
  | Some new, Some o =>
      match global o with
      | Some old =>
          if String.eqb (sdk_uid old) (sdk_uid new)
          then with_login a (fun s =>
                 {| session := session s; sdk_generation := sdk_generation s; attempts := attempts (login_state old);
                    last_login_at := last_login_at (login_state old); last_error_code := last_error_code s;
                    last_sdk_code := last_sdk_code s; invalidations := invalidations s;
                    concurrent_device := concurrent_device (login_state old) |})
          else a
      | None => a
      end
  | _, _ => a
  end.
Definition inherit_login_history (p previous : Pool) : Pool :=
  {| entries := map (inherit_account (entries previous)) (entries p); next := next p; generation := generation p |}.

(** * Health invariant *)
Section health.
Context (policy : PoolPolicy).
Hypothesis policy_ok : 1 <= failure_threshold policy <= 100 /\ 1 <= cooldown_seconds policy <= 3600.

Record health_ok (h : Health) : Prop := {
  path_part : 0 <= path_failures h <= failures h;
  failures_bound : failures h <= U32_MAX;
  threshold_reached : is_some (threshold_until h) = true -> failure_threshold policy <= failures h;
}.

(** Everything the code does to an account's health. *)
Inductive health_op : Type :=
| HSucceeded
| HTransient (streak : option Z) (now : Z)
| HRefused (now : Z)
| HDisable
| HCoolDown (t : Z)
| HRevoke (streak : Z).

Definition apply_op (h : Health) (op : health_op) : Health :=
  match op with
  | HSucceeded => succeeded h
  | HTransient s now => transient policy h s now
  | HRefused _ => mkHealth (sat_add U32_MAX (failures h) 1) (path_failures h) (path_streak h) (until h) (threshold_until h) true
  | HDisable => disable h
  | HCoolDown t => cool_down h t
  | HRevoke s => revoke_path_failures policy h s
  end.

Lemma transient_ok h s now : health_ok h -> health_ok (transient policy h s now).
Proof using policy_ok.
  intros [H1 H2 H3]. unfold transient, sat_add, U32_MAX in *. destruct s as [s|]; [destruct (path_streak h =? s)|];
    constructor; cbn; unfold U32_MAX; try lia;
    destruct (Z.leb_spec (failure_threshold policy) (Z.min 4294967295 (failures h + 1))); cbn; try lia;
    intros Hx%H3; lia.
Qed.

Lemma revoke_ok h s : health_ok h -> health_ok (revoke_path_failures policy h s).
Proof.
  intros [H1 H2 H3]. unfold revoke_path_failures. destruct (_ || _); [by constructor|].
  unfold sat_sub. constructor; cbn; [lia|lia|].
  destruct (Z.ltb_spec (Z.max 0 (failures h - path_failures h)) (failure_threshold policy)); [done|lia].
Qed.

Lemma apply_op_ok h op : health_ok h -> health_ok (apply_op h op).
Proof using policy_ok.
  intros H. destruct op; cbn; auto using transient_ok, revoke_ok; destruct H as [H1 H2 H3]; constructor; cbn; auto;
    unfold sat_add, U32_MAX in *; try lia; try done. intros Hx%H3. lia.
Qed.

Lemma health_default_ok : health_ok Health_default.
Proof. constructor; cbn; unfold U32_MAX; lia || done. Qed.

Lemma run_ok ops h : health_ok h -> health_ok (fold_left apply_op ops h).
Proof using policy_ok. revert h. induction ops as [|op ops IH]; cbn; auto using apply_op_ok. Qed.

(** A report is a sequence of such operations. *)
Definition charge_ops (charge : Charge) (now : Z) : list health_op :=
  match charge with ChargeAccount s => [HTransient s now] | ChargePath => [] end.

Lemma path_fault_ops h charge now : path_fault policy h charge now = fold_left apply_op (charge_ops charge now) h.
Proof. by destruct charge. Qed.

Lemma invalidate_health a : health (fst (invalidate a)) = health a.
Proof. unfold invalidate. by destruct (global a). Qed.

Lemma with_login_health a f : health (with_login a f) = health a.
Proof. done. Qed.

Lemma disabled_at_two_ops a :
  exists ops, health (let '(b, n) := invalidate a in if 2 <=? n then with_health b (disable (health b)) else b)
              = fold_left apply_op ops (health a).
Proof.
  pose proof (invalidate_health a) as Hi. destruct (invalidate a) as [b n]. cbn in Hi.
  destruct (2 <=? n); cbn; rewrite Hi; [by exists [HDisable]|by exists []].
Qed.

Lemma global_signal_ops login a r code charge now :
  exists ops, health (fst (global_signal policy login a r code charge now)) = fold_left apply_op ops (health a).
Proof.
  unfold global_signal. destruct (global a) as [g|] eqn:Hg; [|by exists []].
  destruct r as [v|error]; [by exists [HSucceeded]|].
  set (code' := match code with Some c => _ | None => None end). clearbody code'.
  set (b := match code' with Some c => _ | None => a end).
  assert (Hb : health b = health a) by (unfold b; by destruct code').
  clearbody b. rewrite <- Hb.
  set (st := match error with Grpc n | Maintenance n => Some n | _ => None end). clearbody st.
  set (pf := match error with Timeout | Errors.Transport | Protocol => true | _ => bool_decide (st = Some 14) end). clearbody pf.
  match goal with |- context [match code' with Some _ => _ | None => ?x end] => set (by_status := x) end.
  assert (Hst : exists ops, health (fst by_status) = fold_left apply_op ops (health b)).
  { unfold by_status. destruct (bool_decide (st = Some 16)); [apply disabled_at_two_ops|].
    destruct (bool_decide (st = Some 7)); [by exists [HDisable]|].
    destruct pf; [exists (charge_ops charge now); apply path_fault_ops|].
    destruct (_ || _); [by exists [HTransient None now]|by exists []]. }
  clearbody by_status. destruct code' as [c|]; [|done].
  destruct (starts_with c "BAN_"); [by exists [HDisable]|].
  destruct (starts_with c "AEGIS_"); [by eexists [HCoolDown _]|].
  destruct (String.eqb c "CONCURRENT_DEVICE").
  { cbn [fst health with_health]. rewrite with_login_health, invalidate_health.
    destruct (_ <=? _); [by exists [HDisable]|by eexists [HCoolDown _]]. }
  destruct (starts_with c "TOKEN_" || _); [apply disabled_at_two_ops|].
  destruct (String.eqb c "UNDER_MAINTENANCE"); [by exists []|].
  destruct (version_signal (Some c)); [by exists []|done].
Qed.

Lemma report_ops login a r code charge now :
  exists ops, health (fst (report policy login a r code charge now)) = fold_left apply_op ops (health a).
Proof.
  unfold report. destruct login as [l|], (global a) eqn:Hg; try apply global_signal_ops.
  all: destruct (_ || _); [by exists []|]; destruct r as [v|[]]; cbn [fst health with_health];
    try (by exists []); try (by exists [HSucceeded]);
    try (exists (charge_ops charge now); apply path_fault_ops).
  all: destruct (_ || _); [by exists [HRefused now]|]; destruct (_ =? 14);
    [exists (charge_ops charge now); apply path_fault_ops|]; destruct (_ || _);
    [by exists [HTransient None now]|by exists []].
Qed.

(** The failures of one path streak. *)
Definition charge_streak (h : Health) (streak : Z) (times : list Z) : Health :=
  fold_left (fun h now => transient policy h (Some streak) now) times h.

Lemma charge_streak_spec streak times h :
  failures h + llen times <= U32_MAX -> path_streak h = streak -> 0 <= path_failures h <= failures h ->
  let h' := charge_streak h streak times in
  failures h' = failures h + llen times /\ path_failures h' = path_failures h + llen times /\
  path_streak h' = streak /\ until h' = until h /\ disabled h' = disabled h.
Proof.
  unfold charge_streak. revert h. induction times as [|t times IH]; intros h Hb Hs Hp; cbn [fold_left].
  { unfold llen. cbn. rewrite !Z.add_0_r. done. }
  assert (Hl : llen (t :: times) = llen times + 1) by (unfold llen; cbn [length]; lia).
  pose proof (llen_nonneg times).
  assert (Ht : failures (transient policy h (Some streak) t) = failures h + 1 /\
               path_failures (transient policy h (Some streak) t) = path_failures h + 1 /\
               path_streak (transient policy h (Some streak) t) = streak /\
               until (transient policy h (Some streak) t) = until h /\
               disabled (transient policy h (Some streak) t) = disabled h).
  { unfold transient. rewrite Hs, Z.eqb_refl. unfold sat_add. cbn. rewrite !Z.min_r by lia. done. }
  destruct Ht as (T1 & T2 & T3 & T4 & T5).
  destruct (IH (transient policy h (Some streak) t)) as (I1 & I2 & I3 & I4 & I5); [lia|done|lia|].
  rewrite I1, I2, I3, I4, I5, T1, T2, T4, T5, Hl. split; [lia|]. split; [lia|]. done.
Qed.

(** After any history of reports, cooldowns and revocations an account's counters stay
    consistent, and charging any number of path faults of a streak and then attributing
    the streak to the path leaves the failure count, signal cooldown and disabled flag
    as they were and no threshold cooldown below the threshold; nothing re-enables a
    disabled account. *)
Lemma path_charges_are_withdrawn ops streak times :
  let h := fold_left apply_op ops Health_default in
  path_streak h <> streak -> failures h + llen times <= U32_MAX ->
  let h' := revoke_path_failures policy (charge_streak h streak times) streak in
  health_ok h /\ failures h' = failures h /\ until h' = until h /\ disabled h' = disabled h /\
  (failures h < failure_threshold policy -> threshold_until h' = None) /\
  (forall op, disabled h = true -> disabled (apply_op h op) = true) /\
  (forall login a r code charge now, health a = h ->
     exists ops', health (fst (report policy login a r code charge now)) = fold_left apply_op (ops ++ ops') Health_default).
Proof using policy_ok.
  intros h Hne Hb h'. assert (Hok : health_ok h) by apply run_ok, health_default_ok.
  assert (Hrep : forall login a r code charge now, health a = h ->
     exists ops', health (fst (report policy login a r code charge now)) = fold_left apply_op (ops ++ ops') Health_default).
  { intros login a r code charge now Ha. destruct (report_ops login a r code charge now) as [ops' E].
    exists ops'. by rewrite E, fold_left_app, Ha. }
  split; [done|]. clearbody h. destruct Hok as [H1 H2 H3].
  assert (Hdis : forall op, disabled h = true -> disabled (apply_op h op) = true).
  { intros [] Hd; cbn; auto; unfold transient, revoke_path_failures.
    - destruct streak0; done.
    - by destruct (_ || _). }
  destruct times as [|t times].
  - assert (E : h' = h).
    { unfold h', charge_streak. cbn. unfold revoke_path_failures. destruct (Z.eqb_spec (path_streak h) streak); [done|].
      done. }
    rewrite E. repeat split; auto. intros Hlt. destruct (threshold_until h); [|done]. specialize (H3 eq_refl). lia.
  - assert (Hl : llen (t :: times) = llen times + 1) by (unfold llen; cbn [length]; lia).
    pose proof (llen_nonneg times). unfold h', charge_streak. cbn [fold_left]. fold (charge_streak (transient policy h (Some streak) t) streak times).
    assert (Ht : failures (transient policy h (Some streak) t) = failures h + 1 /\
                 path_failures (transient policy h (Some streak) t) = 1 /\
                 path_streak (transient policy h (Some streak) t) = streak /\
                 until (transient policy h (Some streak) t) = until h /\
                 disabled (transient policy h (Some streak) t) = disabled h).
    { unfold transient, sat_add. destruct (Z.eqb_spec (path_streak h) streak); [done|]. cbn.
      rewrite Z.min_r by lia. split; [lia|]. done. }
    destruct Ht as (T1 & T2 & T3 & T4 & T5).
    destruct (charge_streak_spec streak times (transient policy h (Some streak) t)) as (I1 & I2 & I3 & I4 & I5);
      [lia|done|lia|].
    set (k := charge_streak _ streak times) in *. clearbody k.
    unfold revoke_path_failures. rewrite I3, Z.eqb_refl. destruct (Z.eqb_spec (path_failures k) 0); [lia|]. cbn.
    unfold sat_sub. rewrite I4, I5, T4, T5.
    replace (Z.max 0 (failures k - path_failures k)) with (failures h) by lia.
    split; [done|]. split; [done|]. split; [done|]. split; [|by split].
    intros Hlt. destruct (Z.ltb_spec (failures h) (failure_threshold policy)); [done|lia].
Qed.

End health.

(** * Selection *)

Lemma min_by_key_spec key l :
  match min_by_key key l with
  | None => l = []
  | Some i => exists l1 l2, l = l1 ++ i :: l2 /\ Forall (fun j => key i < key j) l1 /\ Forall (fun j => key i <= key j) l2
  end.
Proof.
  induction l as [|i l IH]; cbn; [done|]. destruct (min_by_key key l) as [j|].
  - destruct IH as (l1 & l2 & -> & F1 & F2). destruct (Z.ltb_spec (key j) (key i)).
    + exists (i :: l1), l2. auto.
    + exists [], (l1 ++ j :: l2). split; [done|]. split; [done|]. apply Forall_app. split.
      * eapply Forall_impl; [exact F1|]. cbn. lia.
      * constructor; [lia|]. eapply Forall_impl; [exact F2|]. cbn. lia.
  - subst l. by exists [], [].
Qed.

Lemma rotation_covers p j : (j < length (entries p))%nat -> In j (rotation_indices p).
Proof.
  intros Hj. unfold rotation_indices. set (n := length (entries p)) in *. apply in_map_iff.
  exists ((j + n - next p mod n) mod n)%nat. split.
  - rewrite Nat.Div0.add_mod_idemp_r.
    rewrite <- Nat.Div0.add_mod_idemp_l. pose proof (Nat.mod_upper_bound (next p) n ltac:(lia)).
    replace (next p mod n + (j + n - next p mod n))%nat with (j + 1 * n)%nat by lia.
    rewrite Nat.Div0.mod_add. by apply Nat.mod_small.
  - apply in_seq. pose proof (Nat.mod_upper_bound (j + n - next p mod n) n ltac:(lia)). lia.
Qed.

Lemma available_at_lookup p now i : available_at p now i = true -> exists a, entries p !! i = Some a /\ available a now = true.
Proof. unfold available_at. destruct (entries p !! i) as [a|]; [eauto|done]. Qed.

Lemma public_index_spec p now :
  match public_index p now with
  | None => forall a, In a (entries p) -> available a now = false
  | Some i =>
      available_at p now i = true /\
      (forall j, available_at p now j = true -> active_at p i <= active_at p j) /\
      exists before after, rotation_indices p = before ++ i :: after /\
        forall j, In j before -> available_at p now j = true -> active_at p i < active_at p j
  end.
Proof.
  unfold public_index. pose proof (min_by_key_spec (active_at p) (List.filter (available_at p now) (rotation_indices p))) as H.
  destruct (min_by_key _ _) as [i|].
  - destruct H as (l1 & l2 & E & F1 & F2).
    assert (Hi : In i (List.filter (available_at p now) (rotation_indices p))) by (rewrite E; apply in_elt).
    apply filter_In in Hi as [Hi Hav]. split; [done|]. split.
    + intros j Hj. assert (Hin : In j (l1 ++ i :: l2)).
      { rewrite <- E. apply filter_In. split; [|done]. apply available_at_lookup in Hj as (a & Ha & _).
        apply rotation_covers. by eapply lookup_lt_Some. }
      rewrite Forall_forall in F1, F2. apply in_app_iff in Hin as [Hin|[->|Hin]]; [|lia|].
      * apply list_elem_of_In, F1 in Hin. lia.
      * apply list_elem_of_In, F2 in Hin. lia.
    + clear Hi. revert l1 E F1. generalize (rotation_indices p). intros l. induction l as [|k l IH]; intros l1 E F1.
      { by destruct l1. }
      cbn in E. destruct (available_at p now k) eqn:Hk.
      * destruct l1 as [|k' l1]; injection E as -> E.
        -- exists [], l. split; [done|]. by intros j [].
        -- apply Forall_cons in F1 as [Fk F1]. destruct (IH l1 E F1) as (b & a & -> & Hb).
           exists (k' :: b), a. split; [done|]. intros j [<-|Hj]; auto.
      * destruct (IH l1 E F1) as (b & a & -> & Hb). exists (k :: b), a. split; [done|].
        intros j [<-|Hj] Hav'; [congruence|auto].
  - intros a Ha. destruct (available a now) eqn:Hav; [|done]. apply list_elem_of_In, list_elem_of_lookup in Ha as [j Hj].
    assert (Hin : In j (List.filter (available_at p now) (rotation_indices p))).
    { apply filter_In. split; [by apply rotation_covers; eapply lookup_lt_Some|]. unfold available_at. by rewrite Hj. }
    by rewrite H in Hin.
Qed.

(** A public call leases an available account with the fewest active calls, the first
    such in rotation order and the one peek_public announces, advances the rotation past
    it, and fails only when no account is available; releasing the lease restores the
    count. *)
Lemma public_calls_lease_the_least_active p now :
  match select p None false now with
  | Err x => x = AccountUnavailable /\ forall a, In a (entries p) -> available a now = false
  | Ok (i, p') => exists a,
      entries p !! i = Some a /\ available a now = true /\ peek_public p now = Some a /\
      (forall j b, entries p !! j = Some b -> available b now = true -> active a <= active b) /\
      (exists before after, rotation_indices p = before ++ i :: after /\
         forall j b, In j before -> entries p !! j = Some b -> available b now = true -> active a < active b) /\
      entries p' = <[i := with_active a (active a + 1)]> (entries p) /\
      next p' = ((i + 1) mod length (entries p))%nat /\
      entries (release p' i) = entries p
  end.
Proof.
  pose proof (public_index_spec p now) as H. unfold select.
  destruct (public_index p now) as [i|] eqn:Hpi; cbn [ok_or rbind]; [|done].
  destruct H as (Hav & Hmin & b & af & Hrot & Hfirst). apply available_at_lookup in Hav as (a & Ha & Hav).
  rewrite Ha, Hav. exists a. split; [done|]. split; [done|]. split; [unfold peek_public; by rewrite Hpi|].
  assert (Hact : active_at p i = active a) by (unfold active_at; by rewrite Ha).
  assert (Hothers : forall j x, entries p !! j = Some x -> available x now = true ->
                    available_at p now j = true /\ active_at p j = active x).
  { intros j x Hx Hax. unfold available_at, active_at. by rewrite Hx. }
  split; [|split; [|split; [done|split; [done|]]]].
  - intros j x Hx Hax. destruct (Hothers j x Hx Hax) as [H1 H2]. specialize (Hmin j H1). lia.
  - exists b, af. split; [done|]. intros j x Hj Hx Hax. destruct (Hothers j x Hx Hax) as [H1 H2].
    specialize (Hfirst j Hj H1). lia.
  - unfold release. cbn. rewrite list_lookup_insert_eq by (by eapply lookup_lt_Some). cbn.
    rewrite list_insert_insert_eq. rewrite list_insert_id; [done|]. rewrite Ha. f_equal. destruct a. unfold with_active. cbn. f_equal. lia.
Qed.

(** * Login limits *)
Section logins.
Context (c : LoginConfig).
Hypothesis interval_ok : 0 <= login_min_interval_seconds c <= 86400.
Hypothesis cap_ok : 1 <= max_logins_per_day c.

(** The attempts recorded when logins are tried at the given times. *)
Fixpoint logins (s : LoginState) (times : list Z) : list Z :=
  match times with
  | [] => []
  | t :: times => let '(ok, s') := try_login c s t in if ok then t :: logins s' times else logins s' times
  end.

Definition cap : nat := Z.to_nat (max_logins_per_day c).
Definition spaced (hist : list Z) : Prop :=
  (forall i x y, hist !! i = Some x -> hist !! S i = Some y -> x + from_secs (login_min_interval_seconds c) <= y) /\
  (forall i x y, hist !! i = Some x -> hist !! (i + cap)%nat = Some y -> x + DAY <= y).

Lemma spaced_snoc hist t :
  spaced hist -> (forall x, last hist = Some x -> x + from_secs (login_min_interval_seconds c) <= t) ->
  (forall i x, hist !! i = Some x -> (i + cap)%nat = length hist -> x + DAY <= t) -> spaced (hist ++ [t]).
Proof using cap_ok.
  intros [H1 H2] Hl Hc. split; intros i x y Hx Hy.
  - apply lookup_snoc_Some in Hy as [[Hlt Hy]|[Hlen <-]].
    + rewrite lookup_app_l in Hx by lia. eauto.
    + rewrite lookup_app_l in Hx by lia. apply Hl. rewrite last_lookup. by replace (Nat.pred (length hist)) with i by lia.
  - assert (1 <= cap)%nat by (unfold cap; lia). apply lookup_snoc_Some in Hy as [[Hlt Hy]|[Hlen <-]].
    + rewrite lookup_app_l in Hx by lia. eauto.
    + rewrite lookup_app_l in Hx by lia. eauto.
Qed.

Lemma prune_front_spec now l :
  exists dropped, l = dropped ++ prune_front now l /\ Forall (fun x => x + DAY <= now) dropped.
Proof.
  induction l as [|t l IH]; [by exists []|]. cbn [prune_front].
  destruct (Z.leb_spec DAY (sat_sub now t)) as [Hle|]; [|by exists []].
  destruct IH as (d & E & F). exists (t :: d). cbn. rewrite <- E. split; [done|]. constructor; [|done].
  unfold sat_sub, DAY, from_secs in *. lia.
Qed.

Lemma try_login_spec hist old s t ok s' :
  hist = old ++ attempts s -> Forall (fun x => x + DAY <= t) old -> spaced hist -> try_login c s t = (ok, s') ->
  let hist' := if ok then hist ++ [t] else hist in
  spaced hist' /\ exists old', hist' = old' ++ attempts s' /\ Forall (fun x => x + DAY <= t) old'.
Proof using cap_ok interval_ok.
  intros Hh Ho Hs. destruct (prune_front_spec t (attempts s)) as (d & Hd & Fd).
  set (kept := prune_front t (attempts s)) in *.
  assert (Hk : hist = (old ++ d) ++ kept) by (rewrite Hh, Hd at 1; by rewrite app_assoc).
  assert (Hold : Forall (fun x => x + DAY <= t) (old ++ d)) by (by apply Forall_app).
  unfold try_login, next_allowed. cbn [attempts prune set_times]. fold kept.
  set (by_cap := if max_logins_per_day c <=? llen kept then _ else None).
  set (by_int := match last kept with Some _ => _ | None => None end).
  destruct (opt_max by_int by_cap) as [b|] eqn:E; intros [= <- <-]; cbn [attempts set_times prune].
  { split; [done|]. by exists (old ++ d). }
  assert (by_int = None /\ by_cap = None) as [Hi Hc] by (by destruct by_int, by_cap).
  assert (Hlen : llen kept < max_logins_per_day c).
  { unfold by_cap in Hc. destruct (Z.leb_spec (max_logins_per_day c) (llen kept)) as [Hle|]; [|done]. exfalso.
    destruct kept; [unfold llen in Hle; cbn in Hle; lia|done]. }
  split.
  - apply spaced_snoc; [done|..].
    + intros x Hx. destruct (last kept) as [y|] eqn:Hy.
      * rewrite Hk, last_app, Hy in Hx. injection Hx as ->. unfold by_int in Hi.
        destruct (Z.ltb_spec t (x + from_secs (login_min_interval_seconds c))); [done|lia].
      * apply last_None in Hy. rewrite Hk, Hy, app_nil_r in Hx.
        apply last_Some_elem_of in Hx. rewrite Forall_forall in Hold. apply Hold in Hx.
        unfold DAY, from_secs in *. lia.
    + intros i x Hx Hic. rewrite Forall_forall in Hold. apply Hold, (list_elem_of_lookup_2 _ i).
      rewrite Hk in Hx, Hic. rewrite length_app in Hic. rewrite lookup_app_l in Hx; [done|].
      unfold cap, llen in *. lia.
  - exists (old ++ d). by rewrite Hk, <- app_assoc, <- app_assoc.
Qed.

Lemma logins_spaced times hist old s now :
  hist = old ++ attempts s -> Forall (fun x => x + DAY <= now) old -> spaced hist ->
  StronglySorted Z.le (now :: times) -> spaced (hist ++ logins s times).
Proof using cap_ok interval_ok.
  revert hist old s now. induction times as [|t times IH]; intros hist old s now Hh Ho Hs Hst; cbn [logins].
  { by rewrite app_nil_r. }
  apply StronglySorted_inv in Hst as [Hst Hall]. apply Forall_cons in Hall as [Hle _].
  destruct (try_login c s t) as [ok s'] eqn:E.
  assert (Ho' : Forall (fun x => x + DAY <= t) old) by (eapply Forall_impl; [exact Ho|]; cbn; lia).
  destruct (try_login_spec hist old s t ok s' Hh Ho' Hs E) as (Hs' & old' & Hh' & Fo').
  specialize (IH _ old' s' t Hh' Fo' Hs' Hst). destruct ok; [|done]. by rewrite <- app_assoc in IH.
Qed.

(** When every login attempt is checked and recorded in turn, attempts of an account
    are at least the minimum interval apart and at most the daily cap fall in any 24
    hours. *)
Lemma logins_keep_interval_and_cap times :
  StronglySorted Z.le times ->
  let h := logins LoginState_default times in
  (forall i x y, h !! i = Some x -> h !! S i = Some y -> x + from_secs (login_min_interval_seconds c) <= y) /\
  (forall i x y, h !! i = Some x -> h !! (i + Z.to_nat (max_logins_per_day c))%nat = Some y -> x + DAY <= y).
Proof using cap_ok interval_ok.
  intros Hst. destruct times as [|t times]; [by split|].
  apply (logins_spaced (t :: times) [] [] LoginState_default t); [done|constructor| |].
  - by split.
  - apply StronglySorted_inv in Hst as [H1 H2]. constructor; [by constructor|]. constructor; [lia|done].
Qed.

End logins.

(** * Witnesses *)
Module AccountsDemo.

Definition login : LoginConfig :=
  {| login_min_interval_seconds := 300; max_logins_per_day := 24; aegis_cooldown_seconds := 900;
     concurrent_device_limit := 3; sdk_timeout_ms := 15000; sdk_refusal_retry_seconds := 86400;
     sdk_keepalive_seconds := 20 * 86400; sdk_origin := ""; sdk_app_key_env := "K"; state_directory := None |}.

Lemma path_charges_are_withdrawn_witness :
  failures (revoke_path_failures default_policy
    (charge_streak default_policy (fold_left (apply_op default_policy) [HTransient None 0] Health_default) 7 [1; 2; 3]) 7) = 1.
Proof.
  destruct (path_charges_are_withdrawn default_policy ltac:(split; split; discriminate) [HTransient None 0] 7 [1; 2; 3])
    as (_ & H & _); [discriminate|vm_compute; discriminate|].
  rewrite H. reflexivity.
Defined.

Lemma logins_keep_interval_and_cap_witness :
  logins login LoginState_default [0; from_secs 10; from_secs 301] = [0; from_secs 301] /\ 0 + from_secs 300 <= from_secs 301.
Proof.
  split; [reflexivity|].
  apply (proj1 (logins_keep_interval_and_cap login ltac:(split; discriminate) ltac:(discriminate)
                  [0; from_secs 10; from_secs 301] ltac:(repeat constructor; discriminate)) 0%nat); reflexivity.
Defined.

End AccountsDemo.
