(* ===== verification/SdkSession.v ===== *)
(** Shared SDK sessions ([sdk_session.rs]).

    The session of one identity: its state in memory, the state file that
    processes share, and the merge between them.  Times are UTC
    nanoseconds, as chrono keeps and serialises them, and one operation takes
    place at one instant.  The [exp] of a JWT, the header-value check and the
    outcomes of the file system and of the lock file are parameters.  A state
    file is what JSON decoding makes of it: a write that succeeds leaves a file
    that decodes to the value written (it fits [MAX_FILE_BYTES]).  [generation]
    is a [u64] that counts logins, kept unbounded; the [attempts] and
    [revalidations] counters are not part of the state here. *)
From Stdlib Require Import ZArith Lia Ascii String List Bool.
From stdpp Require Import base list strings decidable gmap.
From S2P Require Import Prelude Errors.

Local Open Scope Z_scope.

Record SdkAccount : Type := { uid : string; access_key : string; id_token : string; mid : option string }.
Record Refusal : Type := { refusal_code : Z; refusal_at : Z }.
#[export] Instance SdkAccount_eq_dec : EqDecision SdkAccount.
Proof. solve_decision. Defined.

Record State : Type := mkState {
  account : option SdkAccount;
  validated_at : option Z;
  generation : Z;
  stale : bool;
  state_refusal : option Refusal;
}.
Definition State_default : State := mkState None None 0 false None.

Definition SCHEMA : Z := 1.
Definition EXPIRY_MARGIN_SECONDS : Z := 300.

Record Persisted : Type := {
  schema : Z;
  p_uid : string;
  access_key_fingerprint : string;
  p_id_token : string;
  p_mid : option string;
  p_validated_at : option Z;
  p_refusal : option Refusal;
}.

(** What [read] makes of the file. *)
Record Loaded : Type := { l_account : option SdkAccount; l_validated_at : option Z; l_refusal : option Refusal }.

(** The file of one identity: none without a state directory, missing,
    unreadable (too large and not private included), or its content, [None]
    where it does not decode. *)
Inductive file : Type := NoFile | Missing | Unreadable | Content (p : option Persisted).

(** What becomes of the attempts to lock the lock file until the deadline. *)
Inductive lock_result : Type := Held | LockUnavailable | LockTimeout.

Section session.
Context (token_expiry : string -> option Z) (header_value_ok : string -> bool).

(** The identity a session belongs to. *)
Context (own_uid own_key own_fingerprint : string).

(** [now.timestamp()] of a UTC time in nanoseconds. *)
Definition timestamp (now : Z) : Z := now / 1000000000.
Definition expiring (token : string) (now : Z) : bool :=
  some_and (token_expiry token) (fun exp => exp - EXPIRY_MARGIN_SECONDS <=? timestamp now).
Definition header_safe (v : string) : bool := negb (is_empty v) && (len v <=? 4096) && header_value_ok v.

Definition state_reusable (s : State) (now : Z) : option (SdkAccount * Z) :=
  if stale s || is_some (state_refusal s) then None
  else match account s with
       | Some a => if expiring (id_token a) now then None else Some (a, generation s)
       | None => None
       end.

Definition refusal (s : State) (now retry : Z) : option Refusal :=
  match state_refusal s with
  | Some r => if now <? refusal_at r + retry then Some r else None
  | None => None
  end.
Definition keepalive_due (s : State) (now interval : Z) : bool :=
  is_none (state_refusal s) && some_and (validated_at s) (fun t => interval <=? now - t).
Definition label (s : State) (now : Z) : string :=
  match state_refusal s, account s with
  | Some _, _ => "refused"
  | None, None => "none"
  | None, Some a => if stale s then "stale" else if expiring (id_token a) now then "expired" else "valid"
  end.

Definition read (f : file) (now : Z) : option Loaded :=
  match f with
  | Content (Some p) =>
      if (schema p =? SCHEMA) && String.eqb (p_uid p) own_uid && String.eqb (access_key_fingerprint p) own_fingerprint
      then Some {| l_account :=
                     if is_none (p_refusal p) && header_safe (p_id_token p) && is_some (token_expiry (p_id_token p))
                        && negb (expiring (p_id_token p) now) && none_or (p_mid p) header_safe
                     then Some {| uid := own_uid; access_key := own_key; id_token := p_id_token p; mid := p_mid p |}
                     else None;
                   l_validated_at := p_validated_at p;
                   l_refusal := p_refusal p |}
      else None
  | _ => None
  end.

Definition newer (s : State) (t : Z) : bool :=
  none_or (validated_at s) (fun v => v <? t) && none_or (state_refusal s) (fun r => refusal_at r <? t).

(** [merge]: adopts a newer refusal or a newer session from the file. *)
Definition merge (f : file) (s : State) (now : Z) : State :=
  match read f now with
  | None => s
  | Some disk =>
      match l_refusal disk with
      | Some r =>
          if newer s (refusal_at r) then mkState None (validated_at s) (generation s + 1) false (Some r)
          else match l_validated_at disk with
               | Some t =>
                   if newer s t
                   then match l_account disk with
                        | Some a => mkState (Some a) (Some t) (generation s + 1) false None
                        | None => mkState (account s) (Some t) (generation s) (stale s) (state_refusal s)
                        end
                   else s
               | None => s
               end
      | None =>
          match l_validated_at disk with
          | Some t =>
              if newer s t
              then match l_account disk with
                   | Some a => mkState (Some a) (Some t) (generation s + 1) false None
                   | None => mkState (account s) (Some t) (generation s) (stale s) (state_refusal s)
                   end
              else s
          | None => s
          end
      end
  end.

Definition to_persisted (s : State) : Persisted :=
  let a := if stale s then None else account s in
  {| schema := SCHEMA; p_uid := own_uid; access_key_fingerprint := own_fingerprint;
     p_id_token := match a with Some a => id_token a | None => ""%string end;
     p_mid := match a with Some a => mid a | None => None end;
     p_validated_at := validated_at s; p_refusal := state_refusal s |}.

(** [written] is whether the file was replaced. *)
Definition persist (f : file) (s : State) (now : Z) (written : bool) : State * file :=
  match f with
  | NoFile => (s, f)
  | _ => let s := merge f s now in (s, if written then Content (Some (to_persisted s)) else f)
  end.

Definition mark_stale (f : file) (s : State) (g now : Z) (written : bool) : State * file :=
  if negb (generation s =? g) || stale s then (s, f)
  else
    let s := mkState (account s) (validated_at s) (generation s) true (state_refusal s) in
    if is_some (account s) then persist f s now written else (s, f).

Definition validated (f : file) (s : State) (a : SdkAccount) (now : Z) (written : bool) : Z * (State * file) :=
  let '(s, f) := persist f (mkState (Some a) (Some now) (generation s + 1) false None) now written in
  (generation s, (s, f)).

Definition refused (f : file) (s : State) (code now : Z) (written : bool) : State * file :=
  persist f (mkState None (validated_at s) (generation s + 1) false (Some {| refusal_code := code; refusal_at := now |}))
    now written.

(** The session of a new process, and the merge once the lock file is held. *)
Definition session_open (f : file) (now : Z) : State := merge f State_default now.
Definition exclusive (f : file) (s : State) (now : Z) (l : lock_result) : sum bool AppError * State :=
  match f, l with
  | NoFile, _ | _, LockUnavailable => (inl false, s)
  | _, LockTimeout => (inr Timeout, s)
  | _, Held => (inl true, merge f s now)
  end.

(** * One process *)
Inductive op : Type :=
| Validated (a : SdkAccount)
| Refused (code : Z)
| MarkStale (g : Z)
| Exclusive (l : lock_result).

Definition exec (o : op) (now : Z) (y : State * file) : State * file :=
  let '(s, f) := y in
  match o with
  | Validated a => snd (validated f s a now true)
  | Refused code => refused f s code now true
  | MarkStale g => mark_stale f s g now true
  | Exclusive l => (snd (exclusive f s now l), f)
  end.

Fixpoint run (ops : list (op * Z)) (y : State * file) : State * file :=
  match ops with
  | [] => y
  | (o, now) :: ops => run ops (exec o now y)
  end.

(** The file holds what memory holds, and nothing is later than the clock. *)
Record synced (s : State) (f : file) (clock : Z) : Prop := {
  sync_file : f = Content (Some (to_persisted s)) \/
              (f = Missing /\ account s = None /\ state_refusal s = None /\ validated_at s = None);
  sync_validated : forall v, validated_at s = Some v -> v <= clock;
  sync_refused : forall r, state_refusal s = Some r -> refusal_at r <= clock /\ account s = None;
  sync_account : forall a, account s = Some a -> is_some (validated_at s) = true;
}.

(** A file without newer times changes nothing. *)
Lemma merge_noop f s now p :
  f = Content (Some p) ->
  (forall r, p_refusal p = Some r -> newer s (refusal_at r) = false) ->
  (forall v, p_validated_at p = Some v -> newer s v = false) -> merge f s now = s.
Proof.
  intros -> Hr Hv. unfold merge, read. destruct (_ && _ && _); [|done]. cbn [l_refusal l_validated_at l_account].
  destruct (p_refusal p) as [r|]; [rewrite (Hr r eq_refl)|]; destruct (p_validated_at p) as [v|]; try done;
    by rewrite (Hv v eq_refl).
Qed.

Lemma newer_false_v s v t : validated_at s = Some v -> t <= v -> newer s t = false.
Proof. intros H Hle. unfold newer. rewrite H. cbn. destruct (Z.ltb_spec v t); [lia|done]. Qed.

Lemma newer_false_r s r t : state_refusal s = Some r -> t <= refusal_at r -> newer s t = false.
Proof. intros H Hle. unfold newer. rewrite H. cbn. destruct (Z.ltb_spec (refusal_at r) t); [lia|by rewrite andb_false_r]. Qed.

(** Merging with the own file is a no-op for every update made at a later time. *)
Lemma synced_merge s f clock now s' :
  synced s f clock -> clock <= now ->
  (validated_at s' = Some now /\ state_refusal s' = None) \/
  (validated_at s' = validated_at s /\
   (state_refusal s' = state_refusal s \/ exists r, state_refusal s' = Some r /\ refusal_at r = now)) ->
  merge f s' now = s'.
Proof.
  intros [[->|(-> & _)] Hv Hr Ha] Hc Hs; [|done]. eapply merge_noop; [done|..]; cbn [to_persisted p_refusal p_validated_at].
  - intros r E. destruct (Hr r E) as [Hle _]. destruct Hs as [[E1 E2]|[E1 [E2|(r' & E2 & E3)]]].
    + eapply newer_false_v; [exact E1|lia].
    + eapply newer_false_r; [by rewrite E2|lia].
    + eapply newer_false_r; [exact E2|lia].
  - intros v E. pose proof (Hv v E) as Hle. destruct Hs as [[E1 E2]|[E1 _]].
    + eapply newer_false_v; [exact E1|lia].
    + eapply newer_false_v; [by rewrite E1|lia].
Qed.

Lemma synced_later s f clock now : synced s f clock -> clock <= now -> synced s f now.
Proof.
  intros [H1 H2 H3 H4] Hc. constructor; [done|..|done].
  - intros v E. pose proof (H2 v E). lia.
  - intros r E. destruct (H3 r E). split; [lia|done].
Qed.

(** Such an update is written as it is. *)
Lemma synced_persist s f clock now s' :
  synced s f clock -> clock <= now ->
  (validated_at s' = Some now /\ state_refusal s' = None) \/
  (validated_at s' = validated_at s /\
   (state_refusal s' = state_refusal s \/ exists r, state_refusal s' = Some r /\ refusal_at r = now)) ->
  persist f s' now true = (s', Content (Some (to_persisted s'))).
Proof.
  intros Hs Hc H. unfold persist. rewrite (synced_merge s f clock now s') by done.
  by destruct (sync_file _ _ _ Hs) as [->|(-> & _)].
Qed.

Lemma exec_synced o s f clock now s' f' :
  synced s f clock -> clock <= now -> exec o now (s, f) = (s', f') -> synced s' f' now.
Proof.
  intros Hs Hc. pose proof (synced_later _ _ _ _ Hs Hc) as Hn. destruct o as [a|code|g|l]; cbn [exec].
  - unfold validated. rewrite (synced_persist s f clock now) by (done || by left). intros [= <- <-].
    constructor; cbn; [by left|intros v [= <-]; lia|done|done].
  - unfold refused. rewrite (synced_persist s f clock now) by (done || (right; split; [done|right; by eexists])).
    intros [= <- <-]. constructor; cbn; [by left|exact (sync_validated _ _ _ Hn)| |done].
    intros r [= <-]. cbn. split; [lia|done].
  - unfold mark_stale. destruct (negb _ || _); [by intros [= <- <-]|]. cbn [account].
    destruct (account s) as [a|] eqn:Ea; cbn [is_some].
    + rewrite (synced_persist s f clock now) by (done || (right; split; [done|by left])).
      intros [= <- <-]. destruct Hn as [H1 H2 H3 H4]. constructor; cbn; [by left|done|..].
      * intros r E. destruct (H3 r E). congruence.
      * intros a' [= <-]. by apply (H4 a).
    + intros [= <- <-]. destruct Hn as [H1 H2 H3 H4]. constructor; cbn; [|done| |done].
      * destruct H1 as [->|(-> & _ & H1)]; [|right; auto]. left. unfold to_persisted. cbn. by rewrite Ea; destruct (stale s).
      * intros r E. destruct (H3 r E). by split.
  - destruct (sync_file _ _ _ Hs) as [->|(-> & _)], l; cbn [exclusive snd]; try by intros [= <- <-].
    rewrite (synced_merge s _ clock now) by (done || (right; split; [done|by left])). by intros [= <- <-].
Qed.

Fixpoint times_from (clock : Z) (ops : list (op * Z)) : Prop :=
  match ops with
  | [] => True
  | (_, now) :: ops => clock <= now /\ times_from now ops
  end.

Lemma run_synced ops s f clock s' f' :
  synced s f clock -> times_from clock ops -> run ops (s, f) = (s', f') ->
  exists clock', synced s' f' clock'.
Proof.
  revert s f clock. induction ops as [|[o now] ops IH]; intros s f clock Hs Ht; cbn [run].
  { intros [= <- <-]. eauto. }
  destruct Ht as [Hc Ht]. destruct (exec o now (s, f)) as [s1 f1] eqn:E.
  apply IH with now; [|done]. by eapply exec_synced.
Qed.

Lemma synced_default clock : synced State_default Missing clock.
Proof. constructor; try done. by right. Qed.

(** What a restart can read back of an account. *)
Definition storable (a : SdkAccount) : Prop :=
  uid a = own_uid /\ access_key a = own_key /\ header_safe (id_token a) = true /\
  is_some (token_expiry (id_token a)) = true /\ none_or (mid a) header_safe = true.

(** C15: After any sequence of logins, refusals, stale marks and lock acquisitions of a
    process at non-decreasing times whose writes succeed, a new process that opens the
    state file has the same refusal, reuses the account that the old one would reuse if
    its tokens may be stored, and reuses no token that the old process would not reuse. *)
Theorem sdk_session_survives_restart clock ops now s f :
  times_from clock ops -> run ops (State_default, Missing) = (s, f) ->
  let s' := session_open f now in
  state_refusal s' = state_refusal s /\
  (forall a g, state_reusable s now = Some (a, g) -> storable a -> exists g', state_reusable s' now = Some (a, g')) /\
  (forall a g, state_reusable s' now = Some (a, g) ->
     exists b g', state_reusable s now = Some (b, g') /\ id_token b = id_token a /\ mid b = mid a).
Proof.
  intros Ht Hr s'. destruct (run_synced _ _ _ _ _ _ (synced_default clock) Ht Hr) as (clock' & [Hf Hv Hre Ha]).
  unfold s', session_open. destruct Hf as [->|(-> & Ea & Er & Ev)].
  2: { cbn. rewrite Er. split; [done|]. split; [|done]. intros a g. unfold state_reusable. by rewrite Ea, orb_comm, Er; destruct (stale s). }
  unfold merge, read. cbn [to_persisted schema p_uid access_key_fingerprint p_refusal p_id_token p_mid p_validated_at].
  rewrite Z.eqb_refl, !String.eqb_refl. cbn [andb l_refusal l_validated_at l_account].
  destruct (state_refusal s) as [r|] eqn:Er.
  { cbn. split; [done|]. split; [|done]. intros a g. unfold state_reusable. by rewrite Er, orb_true_r. }
  cbn [is_none andb].
  destruct (validated_at s) as [v|] eqn:Ev.
  2: { cbn. split; [done|]. split; [|done]. intros a g. unfold state_reusable. rewrite Er, orb_false_r.
       destruct (stale s); [done|]. destruct (account s) as [b|] eqn:Eb; [|done]. by specialize (Ha b eq_refl). }
  cbn [newer none_or State_default validated_at state_refusal andb].
  destruct (stale s) eqn:Est.
  { cbn [header_safe is_empty negb andb]. cbn. split; [done|]. split; [|done].
    intros a g. unfold state_reusable. by rewrite Est. }
  destruct (account s) as [b|] eqn:Eb.
  2: { cbn. split; [done|]. split; [|done]. intros a g. unfold state_reusable. by rewrite Est, Er, Eb. }
  unfold state_reusable at 1 3. rewrite Est, Er, Eb. cbn [orb is_some].
  destruct (header_safe (id_token b)) eqn:H1, (is_some (token_expiry (id_token b))) eqn:H2, (expiring (id_token b) now) eqn:H3,
    (none_or (mid b) header_safe) eqn:H4; cbn [andb negb]; split; try (cbn; congruence); split; try done;
    try (intros a g [= <- <-] (S1 & S2 & S3 & S4 & S5); congruence).
  - intros a g [= <- <-] (S1 & S2 & _). unfold state_reusable. cbn. rewrite H3. exists 1. f_equal. f_equal.
    destruct b. cbn in *. by subst.
  - intros a g. unfold state_reusable. cbn. rewrite H3. intros [= <- <-]. exists b, (generation s). by rewrite Est, Er, Eb, H3.
Qed.

(** * A refusal another process wrote *)

(** The file holds the refusal [r] of this identity. *)
Definition holds_refusal (r : Refusal) (f : file) : Prop :=
  exists p, f = Content (Some p) /\ schema p = SCHEMA /\ p_uid p = own_uid /\ access_key_fingerprint p = own_fingerprint /\
    p_refusal p = Some r /\ none_or (p_validated_at p) (fun t => t <=? refusal_at r) = true.

(** Memory has adopted [r], or knows nothing as late as [r]. *)
Definition behind (r : Refusal) (s : State) : Prop :=
  none_or (validated_at s) (fun v => v <? refusal_at r) = true /\
  ((state_refusal s = Some r /\ account s = None) \/ none_or (state_refusal s) (fun q => refusal_at q <? refusal_at r) = true).

Lemma merge_refusal r f s now :
  holds_refusal r f -> behind r s ->
  state_refusal (merge f s now) = Some r /\ account (merge f s now) = None /\ validated_at (merge f s now) = validated_at s.
Proof.
  intros (p & -> & H1 & H2 & H3 & H4 & H5) [Hv Hr]. unfold merge, read.
  rewrite H1, H2, H3, Z.eqb_refl, !String.eqb_refl, H4. cbn [andb l_refusal l_validated_at l_account].
  destruct (newer s (refusal_at r)) eqn:En; [done|].
  destruct Hr as [[Hr Ha]|Hr]; [|unfold newer in En; by rewrite Hv, Hr in En].
  destruct (p_validated_at p) as [t|]; [|done]. cbn in H5. apply Z.leb_le in H5. by rewrite (newer_false_r s r t Hr H5).
Qed.

Lemma persist_refusal r f s now :
  holds_refusal r f -> behind r s ->
  holds_refusal r (snd (persist f s now true)) /\ behind r (fst (persist f s now true)).
Proof.
  intros Hf Hs. destruct (merge_refusal r f s now Hf Hs) as (E1 & E2 & E3). destruct Hf as (p & -> & _).
  unfold persist. cbn [fst snd]. destruct Hs as [Hv _]. split.
  - eexists. split; [done|]. cbn [to_persisted schema p_uid access_key_fingerprint p_refusal p_validated_at].
    rewrite E1, E3. repeat split. destruct (validated_at s); [|done]. cbn in *. lia.
  - split; [by rewrite E3|by left].
Qed.

Lemma exec_refusal r o f s now :
  holds_refusal r f -> behind r s -> now < refusal_at r ->
  holds_refusal r (snd (exec o now (s, f))) /\ behind r (fst (exec o now (s, f))).
Proof.
  intros Hf Hs Hlt. pose proof Hs as [Hv Hr]. destruct o as [a|code|g|l]; cbn [exec].
  - unfold validated. set (s1 := mkState _ _ _ _ _). assert (behind r s1) as H1 by (split; [by apply Z.ltb_lt|by right]).
    destruct (persist_refusal r f s1 now Hf H1). by destruct (persist f s1 now true).
  - apply persist_refusal; [done|]. split; [done|]. right. by apply Z.ltb_lt.
  - unfold mark_stale. destruct (negb _ || _); [by split|]. cbn [account].
    assert (behind r (mkState (account s) (validated_at s) (generation s) true (state_refusal s))) by (by split).
    destruct (is_some _); [by apply persist_refusal|by split].
  - split; [done|]. destruct (merge_refusal r f s now Hf Hs) as (E1 & E2 & E3).
    destruct Hf as (p & -> & _), l; try done. cbn [exclusive snd fst]. split; [by rewrite E3|by left].
Qed.

Lemma run_refusal r ops f s :
  holds_refusal r f -> behind r s -> Forall (fun o => snd o < refusal_at r) ops ->
  holds_refusal r (snd (run ops (s, f))) /\ behind r (fst (run ops (s, f))).
Proof.
  intros Hf Hs Ho. revert f s Hf Hs. induction Ho as [|[o now] ops Hlt _ IH]; intros f s Hf Hs; [done|].
  cbn [run]. destruct (exec_refusal r o f s now Hf Hs Hlt). destruct (exec o now (s, f)). by apply IH.
Qed.

(** A refusal that another process wrote to the shared file survives every sequence of
    this process's earlier-timed logins, refusals, stale marks and lock acquisitions:
    the file keeps it, the next lock acquisition adopts it and leaves nothing reusable,
    and a restarted process reuses nothing and reports the refusal exactly until its
    retry time. *)
Lemma foreign_refusal_is_kept r ops f s now :
  holds_refusal r f -> behind r s -> Forall (fun o => snd o < refusal_at r) ops ->
  let '(s', f') := run ops (s, f) in
  holds_refusal r f' /\
  (let s'' := snd (exclusive f' s' now Held) in
   state_refusal s'' = Some r /\ account s'' = None /\ state_reusable s'' now = None /\ label s'' now = "refused"%string) /\
  (forall t retry, state_reusable (session_open f' now) t = None /\
     (is_some (refusal (session_open f' now) t retry) = true <-> t < refusal_at r + retry)).
Proof.
  intros Hf Hs Ho. destruct (run_refusal r ops f s Hf Hs Ho) as [Hf' Hs']. destruct (run ops (s, f)) as [s' f'].
  cbn [fst snd] in *. split; [done|].
  destruct (merge_refusal r f' s' now Hf' Hs') as (E1 & E2 & _).
  destruct (merge_refusal r f' State_default now Hf' ltac:(split; [done|by right])) as (D1 & D2 & _). split.
  - destruct Hf' as (p & -> & _). cbn [exclusive snd]. repeat split; try done.
    + unfold state_reusable. by rewrite E1, orb_true_r.
    + unfold label. by rewrite E1.
  - intros t retry. unfold session_open, state_reusable, refusal. rewrite D1, orb_true_r. split; [done|].
    destruct (Z.ltb_spec t (refusal_at r + retry)); cbn; split; lia || done.
Qed.

End session.

Module Witnesses.

Definition expiry (t : string) : option Z := if String.eqb t "t1" then Some 5000 else None.
Definition ok (_ : string) : bool := true.
Definition a1 : SdkAccount := {| uid := "u"; access_key := "k"; id_token := "t1"; mid := Some "m"%string |}.
Definition r1 : Refusal := {| refusal_code := 200007; refusal_at := 90 |}.
Definition p1 : Persisted :=
  {| schema := 1; p_uid := "u"; access_key_fingerprint := "h"; p_id_token := ""; p_mid := None;
     p_validated_at := Some 20; p_refusal := Some r1 |}.

Definition ops1 : list (op * Z) := [(Refused 7, 10); (Exclusive Held, 11); (Validated a1, 12)].
Definition ops2 : list (op * Z) := [(Validated a1, 50); (MarkStale 2, 60); (Refused 7, 70)].

(** A refusal, then a login, then a restart: the new process reuses the token. *)
Lemma sdk_session_survives_restart_witness :
  state_reusable expiry (session_open expiry ok "u" "k" "h" (snd (run expiry ok "u" "k" "h" ops1 (State_default, Missing))) 13) 13
    = Some (a1, 1).
Proof.
  destruct (run expiry ok "u" "k" "h" ops1 (State_default, Missing)) as [s f] eqn:E. cbn [snd].
  destruct (sdk_session_survives_restart expiry ok "u" "k" "h" 0 ops1 13 s f) as (_ & H & _);
    [cbn; lia|exact E|].
  vm_compute in E. injection E as <- <-.
  destruct (H a1 2) as [g Hg]; [reflexivity|repeat split; reflexivity|].
  vm_compute in Hg |- *. reflexivity.
Defined.

(** Another process's refusal at 90 outlives a login, a stale mark and a refusal made before it. *)
Lemma foreign_refusal_is_kept_witness :
  exists p, snd (run expiry ok "u" "k" "h" ops2 (State_default, Content (Some p1))) = Content (Some p) /\ p_refusal p = Some r1.
Proof.
  pose proof (foreign_refusal_is_kept expiry ok "u" "k" "h" r1 ops2 (Content (Some p1)) State_default 71) as H.
  destruct (run expiry ok "u" "k" "h" ops2 (State_default, Content (Some p1))) as [s f] eqn:E.
  destruct H as ((p & Hp & _ & _ & _ & Hr & _) & _).
  - exists p1. repeat split; reflexivity.
  - split; [reflexivity|right; reflexivity].
  - repeat constructor; cbn; lia.
  - exists p. split; [exact Hp|exact Hr].
Defined.

End Witnesses.
