(* ===== verification/MasterFiles.v ===== *)
(** Master files ([master.rs], first part): the file system a Master directory
    lives in, the data of its files, name and version checks, manifests, hashes
    and the decoder of encrypted tables.

    JSON decoding and encoding, SHA-256 and gzip are external crates: the class
    [MasterCodecs] names the functions the code calls, [MasterCodecsOk] what it
    relies on. *)
From Stdlib Require Import ZArith Lia Ascii String List Bool.
From stdpp Require Import base list strings decidable gmap.
From S2P Require Import Prelude BTree Errors Regions Versions Http Rijndael.

Local Open Scope Z_scope.
Local Open Scope rust_scope.

Definition MAX_MANIFEST : Z := 1024 * 1024.
Definition MAX_ENCRYPTED : Z := 32 * 1024 * 1024.
Definition MAX_JSON : Z := 64 * 1024 * 1024.
Definition MAX_TOTAL : Z := 512 * 1024 * 1024.
Definition MAX_INDEX : Z := 1024 * 1024.

(** * Bytes *)
Fixpoint string_of_bytes (b : list Z) : string :=
  match b with
  | [] => EmptyString
  | x :: b => String (ascii_of_nat (Z.to_nat x)) (string_of_bytes b)
  end.

(** [std::str::from_utf8]. *)
Definition continuation (x : Z) : bool := in_range 128 191 x.
Fixpoint utf8_valid (b : list Z) : bool :=
  match b with
  | [] => true
  | x :: b1 =>
      if x <? 128 then utf8_valid b1
      else match b1 with
           | [] => false
           | y :: b2 =>
               if in_range 194 223 x && continuation y then utf8_valid b2
               else match b2 with
                    | [] => false
                    | z :: b3 =>
                        if ((x =? 224) && in_range 160 191 y
                            || (in_range 225 236 x || in_range 238 239 x) && continuation y
                            || (x =? 237) && in_range 128 159 y) && continuation z
                        then utf8_valid b3
                        else match b3 with
                             | [] => false
                             | w :: b4 =>
                                 if ((x =? 240) && in_range 144 191 y
                                     || in_range 241 243 x && continuation y
                                     || (x =? 244) && in_range 128 143 y) && continuation z && continuation w
                                 then utf8_valid b4 else false
                             end
                    end
           end
  end.
Definition from_utf8 (b : list Z) : option string :=
  if utf8_valid b then Some (string_of_bytes b) else None.

(** * Strings *)

(** [str::strip_suffix], [str::replace] and [str::trim_end_matches] on a
    pattern string that is not empty. *)
Fixpoint strip_suffix (s pat : string) : option string :=
  if String.eqb s pat then Some ""%string
  else match s with
       | EmptyString => None
       | String c s' => option_map (String c) (strip_suffix s' pat)
       end.
Fixpoint replace_from (skip : nat) (s pat rep : string) : string :=
  match s with
  | EmptyString => EmptyString
  | String c s' =>
      match skip with
      | S n => replace_from n s' pat rep
      | O => if String.prefix pat s
             then (rep ++ replace_from (String.length pat - 1) s' pat rep)%string
             else String c (replace_from 0 s' pat rep)
      end
  end.
Definition replace (s pat rep : string) : string := replace_from 0 s pat rep.
Fixpoint trim_end_fuel (fuel : nat) (s pat : string) : string :=
  match fuel with
  | O => s
  | S n => match strip_suffix s pat with Some s' => trim_end_fuel n s' pat | None => s end
  end.
(** Each round removes at least one byte. *)
Definition trim_end_matches (s pat : string) : string := trim_end_fuel (S (String.length s)) s pat.

Definition safe_component (value : string) : bool :=
  negb (is_empty value) && (len value <=? 128)
  && all_bytes (fun b => is_ascii_alphanumeric b || char_is 45 b || char_is 95 b) value.

(** [hash_valid] of [master_registry.rs]. *)
Definition hash_valid (hash : string) : bool :=
  (len hash =? 64) && all_bytes (fun b => is_ascii_digit b || in_range 97 102 (byte_of b)) hash.

Definition hex_value (c : ascii) : Z :=
  if is_ascii_digit c then byte_of c - 48
  else if in_range 65 70 (byte_of c) then byte_of c - 55 else byte_of c - 87.
Fixpoint hex_bytes (s : string) : list Z :=
  match s with
  | String a (String b s') => (hex_value a * 16 + hex_value b) :: hex_bytes s'
  | _ => []
  end.
Definition key_from_hex (value : string) : result MasterError (list Z) :=
  if negb (len value =? 64) || negb (all_bytes is_ascii_hexdigit value) then Err MKey
  else Ok (hex_bytes value).

(** * Data *)
Record Entry : Type := mkEntry { e_name : string; e_hash : string; e_size : Z }.
Record Manifest : Type := mkManifest { m_version : string; m_files : list Entry }.

Record File : Type := mkFile { f_name : string; f_size : Z; f_sha256 : string }.
Record Inventory : Type := mkInventory { i_schema_version : Z; i_version : string; i_files : list File }.
Record Scope : Type := mkScope { region : Region; environment : string; platform : Platform }.
Record PublishedManifest : Type := mkPublished {
  p_schema_version : Z;
  p_scope : Scope;
  p_snapshot : string;
  p_version : string;
  p_resource_version : option string;
  content_sha256 : string;
  p_files : list File;
  source_manifest : Manifest;
}.
Record Publication : Type := mkPublication {
  pub_schema_version : Z;
  pub_snapshot : string;
  previous_snapshot : option string;
  published_at : Z;
}.
Record RetentionRecord : Type := mkRetention { ret_schema_version : Z; boundary : string }.
Record ImportReceipt : Type := mkReceipt {
  r_version : string;
  r_snapshot : string;
  r_tables : Z;
  r_json_bytes : Z;
  r_source : string;
  r_region : Region;
  r_resource_version : option string;
}.
Record Document : Type := mkDocument { d_bytes : list Z; d_etag : string; d_version : string }.
Record MasterDocument : Type := mkMasterDocument { md_version : string; md_sha256 : string; md_bytes : list Z }.

#[export] Instance Entry_eq_dec : EqDecision Entry.
Proof. solve_decision. Defined.
#[export] Instance Manifest_eq_dec : EqDecision Manifest.
Proof. solve_decision. Defined.
#[export] Instance File_eq_dec : EqDecision File.
Proof. solve_decision. Defined.
#[export] Instance Inventory_eq_dec : EqDecision Inventory.
Proof. solve_decision. Defined.
#[export] Instance Scope_eq_dec : EqDecision Scope.
Proof. solve_decision. Defined.

(** The JSON object a receipt is written as; an absent asset version is left
    out. *)
Definition receipt_value (r : ImportReceipt) : json :=
  JObj ([("version"%string, JStr (r_version r)); ("snapshot"%string, JStr (r_snapshot r)); ("tables"%string, JNum (r_tables r));
         ("json_bytes"%string, JNum (r_json_bytes r)); ("source"%string, JStr (r_source r));
         ("region"%string, JStr (region_name (r_region r)))]
        ++ match r_resource_version r with Some v => [("resource_version"%string, JStr v)] | None => [] end).

Definition recorded_resource_version (receipt : json) : result MasterError (option string) :=
  match json_field "resource_version" receipt with
  | None => Ok None
  | Some (JStr v) => if safe_version v then Ok (Some v) else Err MFormat
  | Some _ => Err MFormat
  end.
Definition recorded_region (receipt : json) : result MasterError Region :=
  match json_field "region" receipt with
  | None => Ok Jp
  | Some v =>
      match json_str v with
      | Some name =>
          match from_recorded_name name with
          | Some r => if master_supported r then Ok r else Err MFormat
          | None => Err MFormat
          end
      | None => Err MFormat
      end
  end.

(** * Files *)

(** What a path in a directory names: a regular file, a symbolic link with what
    opening it gives, something that is neither and what reading it gives, a
    regular file that cannot be opened, or a path that cannot even be examined. *)
Inductive node : Type :=
| Regular (b : list Z)
| Link (t : result IoKind (list Z))
| Special (e : MasterError)
| Denied (k : IoKind)
| Hidden.
Notation files := (gmap string node).

Definition bounded (b : list Z) (limit : Z) : result MasterError (list Z) :=
  if limit <? llen b then Err MLimit else Ok b.
Definition read_bounded (n : option node) (limit : Z) : result MasterError (list Z) :=
  match n with
  | None => Err (MIo IoNotFound)
  | Some (Regular b) | Some (Link (Ok b)) => bounded b limit
  | Some (Link (Err k)) | Some (Denied k) => Err (MIo k)
  | Some (Special e) => Err e
  | Some Hidden => Err (MIo IoOther)
  end.
(** [regular]: [symlink_metadata] first. *)
Definition regular (n : option node) (limit : Z) : result MasterError (list Z) :=
  match n with
  | None => Err (MIo IoNotFound)
  | Some Hidden => Err (MIo IoOther)
  | Some (Link _) | Some (Special _) => Err MFormat
  | Some (Regular _) | Some (Denied _) => read_bounded n limit
  end.
(** [fs::symlink_metadata(path)] without its [is_file]. *)
Definition stat (n : option node) : result IoKind unit :=
  match n with
  | None => Err IoNotFound
  | Some Hidden => Err IoOther
  | Some _ => Ok tt
  end.

(** * External code *)
Class MasterCodecs : Type := {
  manifest_from_slice : list Z -> option Manifest;
  manifest_to_vec : Manifest -> option (list Z);
  inventory_from_slice : list Z -> option Inventory;
  inventory_to_vec : Inventory -> option (list Z);
  published_from_slice : list Z -> option PublishedManifest;
  published_to_vec : PublishedManifest -> option (list Z);
  publication_from_slice : list Z -> option Publication;
  publication_to_vec : Publication -> option (list Z);
  retention_from_slice : list Z -> option RetentionRecord;
  retention_to_vec : RetentionRecord -> option (list Z);
  value_from_slice : list Z -> option json;
  value_to_vec : json -> option (list Z);
  receipt_to_vec : ImportReceipt -> option (list Z);
  content_to_vec : Scope -> Manifest -> list File -> option (list Z);
  digest : list Z -> string;
  json_valid : list Z -> bool;
  gunzip : Z -> list Z -> option (list Z);
}.

(** * Manifests *)

(** The loop over the entries of [Manifest::parse]: the names seen so far and
    the running total, which cannot overflow within 4096 entries of at most
    [MAX_ENCRYPTED]. *)
Fixpoint parse_entries (names : list string) (total : Z) (es : list Entry) : result MasterError Z :=
  match es with
  | [] => Ok total
  | e :: es =>
      stem <-? ok_or (strip_suffix (e_name e) ".bin") MFormat;;
      if String.eqb stem "MasterManifest" || negb (starts_with stem "Master") || negb (safe_component stem)
         || mem (e_name e) names || negb (len (e_hash e) =? 64) || negb (all_bytes is_ascii_hexdigit (e_hash e))
         || (e_size e <=? 64) || (MAX_ENCRYPTED <? e_size e) || negb (e_size e mod 32 =? 0)
      then Err MFormat
      else parse_entries (e_name e :: names) (total + e_size e) es
  end.

Definition check_manifest (m : Manifest) : result MasterError unit :=
  guard? negb (negb (safe_version (m_version m)) || (Z.of_nat (length (m_files m)) =? 0)
               || (4096 <? Z.of_nat (length (m_files m)))) else MFormat;;
  total <-? parse_entries [] 0 (m_files m);;
  ensure (total <=? MAX_TOTAL) MLimit.

Section parsing.
Context `{MasterCodecs}.

Definition parse (bytes : list Z) : result MasterError Manifest :=
  if MAX_MANIFEST <? llen bytes then Err MLimit
  else m <-? ok_or (manifest_from_slice bytes) MFormat;;
       _ <-? check_manifest m;;
       Ok m.

(** * Encrypted tables *)
Definition validate_json (bytes : list Z) : result MasterError unit := ensure (json_valid bytes) MFormat.

(** [data.get(32..)]. *)
Definition from_32 (data : list Z) : option (list Z) :=
  if (length data <? 32)%nat then None else Some (drop 32 data).

Record MasterDecoder : Type := { cipher : Rijndael256; iv : list Z }.
Definition decoder_new (key iv : list Z) : MasterDecoder := {| cipher := Rijndael.new key; iv := iv |}.

Definition decode (d : MasterDecoder) (entry : Entry) (data : list Z) : result MasterError (list Z) :=
  if MAX_ENCRYPTED <? llen data then Err MLimit
  else if negb (llen data =? e_size entry) || negb (eq_ignore_ascii_case (digest data) (e_hash entry))
  then Err MIntegrity
  else
    ciphertext <-? ok_or (from_32 data) MCipher;;
    plaintext <-? decrypt (cipher d) ciphertext (iv d);;
    compressed <-? ok_or (from_32 plaintext) MCipher;;
    json <-? ok_or (gunzip (MAX_JSON + 1) compressed) MCipher;;
    if MAX_JSON <? llen json then Err MLimit
    else _ <-? validate_json json;; Ok json.

Definition file (name : string) (bytes : list Z) : File := mkFile name (llen bytes) (digest bytes).
End parsing.

(** What the code relies on of the external crates: values survive encoding,
    the encodings of checked values fit the bounds they are read with, digests
    are 64 lower-case hexadecimal digits. *)
Class MasterCodecsOk `{MasterCodecs} : Prop := {
  manifest_roundtrip : forall m, exists b, manifest_to_vec m = Some b /\ manifest_from_slice b = Some m /\
    (check_manifest m = Ok tt -> llen b <= MAX_MANIFEST);
  inventory_roundtrip : forall i, exists b, inventory_to_vec i = Some b /\ inventory_from_slice b = Some i /\
    ((length (i_files i) <= 4096)%nat -> Forall (fun f => len (f_name f) <= 133 /\ 0 <= f_size f <= MAX_JSON /\ len (f_sha256 f) = 64) (i_files i) ->
     len (i_version i) <= 256 -> llen b <= MAX_INDEX);
  published_roundtrip : forall p, exists b, published_to_vec p = Some b /\ published_from_slice b = Some p;
  publication_roundtrip : forall p, exists b, publication_to_vec p = Some b /\ publication_from_slice b = Some p /\
    (len (pub_snapshot p) <= 128 -> none_or (previous_snapshot p) (fun s => len s <=? 128) = true -> llen b <= 4096);
  retention_roundtrip : forall r, exists b, retention_to_vec r = Some b /\ retention_from_slice b = Some r /\
    (len (boundary r) <= 128 -> llen b <= 4096);
  receipt_roundtrip : forall r, exists b, receipt_to_vec r = Some b /\ value_from_slice b = Some (receipt_value r) /\
    (len (r_version r) <= 256 -> len (r_snapshot r) <= 128 -> len (r_source r) <= 16 ->
     none_or (r_resource_version r) (fun v => len v <=? 256) = true -> llen b <= 4096);
  value_encodes : forall v, is_some (value_to_vec v) = true;
  content_encodes : forall s m fs, is_some (content_to_vec s m fs) = true;
  digest_valid : forall b, hash_valid (digest b) = true;
}.

(** * Lemmas *)

(** ASCII text survives the trip through its bytes. *)
Lemma from_utf8_ascii s :
  all_bytes (fun c => byte_of c <? 128) s = true -> from_utf8 (bytes_of s) = Some s.
Proof.
  intros Hs. unfold from_utf8. assert (utf8_valid (bytes_of s) = true /\ string_of_bytes (bytes_of s) = s) as [-> ->]; [|done].
  induction s as [|c s IH]; [done|]. cbn in Hs. apply andb_true_iff in Hs as [Hc Hs]. destruct (IH Hs) as [H1 H2].
  cbn [bytes_of utf8_valid string_of_bytes]. rewrite Hc, H1, H2. split; [done|]. f_equal.
  unfold byte_of. by rewrite Nat2Z.id, ascii_nat_embedding.
Qed.

Lemma safe_component_ascii s : safe_component s = true -> all_bytes (fun c => byte_of c <? 128) s = true.
Proof.
  unfold safe_component. intros Hs. apply andb_true_iff in Hs as [_ Hs]. revert Hs. apply all_bytes_impl.
  intros c. unfold is_ascii_alphanumeric, is_ascii_digit, is_ascii_upper, is_ascii_lower, char_is, in_range. lia.
Qed.


Lemma append_inj_r (s t p : string) : (s ++ p)%string = (t ++ p)%string -> s = t.
Proof.
  intros E. assert (El : String.length s = String.length t).
  { apply (f_equal String.length) in E. rewrite !append_length in E. lia. }
  revert t E El. induction s as [|c s IH]; intros [|d t] E El; cbn in *; try done. injection E as -> E. f_equal. eauto.
Qed.

Lemma strip_suffix_spec s pat p : strip_suffix s pat = Some p <-> s = (p ++ pat)%string.
Proof.
  revert p. induction s as [|c s IH]; intros p; cbn [strip_suffix].
  - destruct (String.eqb_spec "" pat) as [<-|Hne].
    + split; [intros [= <-]; done|]. destruct p; [done|discriminate].
    + split; [done|]. destruct p; [|discriminate]. cbn. congruence.
  - destruct (String.eqb_spec (String c s) pat) as [<-|Hne].
    + split; [intros [= <-]; done|]. intros E. f_equal. apply (append_inj_r "" p (String c s)). exact E.
    + split.
      * destruct (strip_suffix s pat) as [q|] eqn:E; [|done]. intros [= <-]. cbn. by rewrite (proj1 (IH q) eq_refl).
      * destruct p as [|d p]; cbn; [congruence|]. intros [= -> E]. by rewrite (proj2 (IH p) E).
Qed.

(** A table's name: the stem of a manifest entry. *)
Definition stem_ok (stem : string) : Prop :=
  stem <> "MasterManifest"%string /\ starts_with stem "Master" = true /\ safe_component stem = true.

Record entry_ok (e : Entry) : Prop := {
  eo_name : exists stem, e_name e = (stem ++ ".bin")%string /\ stem_ok stem;
  eo_hash : len (e_hash e) = 64 /\ all_bytes is_ascii_hexdigit (e_hash e) = true;
  eo_size : 64 < e_size e <= MAX_ENCRYPTED /\ e_size e mod 32 = 0;
}.

Lemma parse_entries_ok names total es total' :
  parse_entries names total es = Ok total' ->
  Forall entry_ok es /\ NoDup (map e_name es) /\ (forall n, In n names -> ~ In n (map e_name es)) /\
  total' = total + List.fold_right (fun e t => e_size e + t) 0 es.
Proof.
  revert names total. induction es as [|e es IH]; intros names total; cbn [parse_entries].
  { intros [= <-]. cbn. repeat split; [constructor|constructor|auto|lia]. }
  intros Hp. apply rbind_ok in Hp as (stem & Hs & Hp).
  destruct (strip_suffix (e_name e) ".bin") as [stem'|] eqn:E; [|done]. injection Hs as ->.
  apply strip_suffix_spec in E.
  match type of Hp with (if ?c then _ else _) = _ => destruct c eqn:Ec; [done|] end.
  destruct (IH _ _ Hp) as (H1 & H2 & H3 & H4). bool_prop.
  assert (Hnot : ~ In (e_name e) (map e_name es)) by (apply H3; by left).
  repeat split.
  - constructor; [|done]. constructor; [exists stem; split; [done|]; repeat split; assumption|auto|]. lia.
  - constructor; [by rewrite list_elem_of_In|done].
  - intros n Hn [<-|Hin]; [|by apply (H3 n); [right|]].
    assert (mem (e_name e) names = true) by by apply mem_spec. congruence.
  - cbn. lia.
Qed.

(** What parsing a manifest guarantees. *)
Record manifest_ok (m : Manifest) : Prop := {
  mo_version : safe_version (m_version m) = true;
  mo_count : (0 < length (m_files m) <= 4096)%nat;
  mo_entries : Forall entry_ok (m_files m);
  mo_nodup : NoDup (map e_name (m_files m));
  mo_total : List.fold_right (fun e t => e_size e + t) 0 (m_files m) <= MAX_TOTAL;
}.

Lemma check_manifest_ok m : check_manifest m = Ok tt -> manifest_ok m.
Proof.
  unfold check_manifest. intros Hc. inv_ok. bool_prop.
  match goal with E : parse_entries _ _ _ = Ok _ |- _ => apply parse_entries_ok in E as (Hes & Hnd & _ & ->) end.
  constructor; [done|lia|done|done|lia].
Qed.

Lemma parse_ok `{MasterCodecs} bytes m :
  parse bytes = Ok m -> manifest_from_slice bytes = Some m /\ check_manifest m = Ok tt /\ llen bytes <= MAX_MANIFEST.
Proof.
  unfold parse. destruct (Z.ltb_spec MAX_MANIFEST (llen bytes)); [done|]. intros Hp. inv_ok. subst.
  destruct (manifest_from_slice bytes); [|done]. cbn in *. simplify_eq. destruct a0. auto.
Qed.

Lemma parse_to_vec `{MasterCodecsOk} m : check_manifest m = Ok tt ->
  exists b, manifest_to_vec m = Some b /\ parse b = Ok m.
Proof.
  intros Hc. destruct (manifest_roundtrip m) as (b & E1 & E2 & E3). exists b. split; [done|].
  unfold parse. specialize (E3 Hc). destruct (Z.ltb_spec MAX_MANIFEST (llen b)); [lia|]. by rewrite E2; cbn; rewrite Hc.
Qed.

(** Only the suffix of a safe name is replaced. *)
Lemma replace_bin stem : safe_component stem = true -> replace (stem ++ ".bin") ".bin" ".json" = (stem ++ ".json")%string.
Proof.
  unfold safe_component. intros Hs. apply andb_true_iff in Hs as [_ Hs]. unfold replace.
  induction stem as [|c s IH]; [reflexivity|]. cbn [all_bytes] in Hs. apply andb_true_iff in Hs as [Hc Hs].
  change (String c s ++ ".bin")%string with (String c (s ++ ".bin")). cbn [replace_from].
  assert (String.prefix ".bin" (String c (s ++ ".bin")) = false) as ->.
  { cbn [String.prefix]. destruct (ascii_dec "." c) as [<-|]; [by vm_compute in Hc|done]. }
  change (String c s ++ ".json")%string with (String c (s ++ ".json")). by rewrite IH.
Qed.

(** The checks depend on the entries only up to their order. *)
Lemma parse_entries_complete names total es :
  Forall entry_ok es -> NoDup (map e_name es) -> (forall n, In n names -> ~ In n (map e_name es)) ->
  parse_entries names total es = Ok (total + List.fold_right (fun e t => e_size e + t) 0 es).
Proof.
  intros He. revert names total. induction He as [|e es He Hes IH]; intros names total Hn Hd; cbn [parse_entries].
  { cbn. f_equal. lia. }
  cbn in Hn. apply NoDup_cons in Hn as [Hne Hn]. rewrite list_elem_of_In in Hne.
  destruct He as [(stem & E & Hs1 & Hs2 & Hs3) [Hh1 Hh2] [Hz1 Hz2]].
  rewrite (proj2 (strip_suffix_spec (e_name e) ".bin" stem) E). cbn [ok_or rbind].
  assert (mem (e_name e) names = false) as ->.
  { apply not_true_iff_false. rewrite mem_spec. intros Hin. apply (Hd _ Hin). by left. }
  rewrite Hs2, Hs3, Hh1, Hh2, Hz2, Z.eqb_refl.
  destruct (String.eqb_spec stem "MasterManifest") as [->|_]; [done|].
  destruct (Z.leb_spec (e_size e) 64); [lia|]. destruct (Z.ltb_spec MAX_ENCRYPTED (e_size e)); [lia|]. cbn [negb orb].
  change (0 =? 0) with true. cbn [negb]. rewrite IH; [cbn; f_equal; lia|done|].
  intros n [<-|Hin]; [done|]. intros Hin'. apply (Hd n Hin). by right.
Qed.

Lemma check_manifest_complete m : manifest_ok m -> check_manifest m = Ok tt.
Proof.
  intros [Hv Hc He Hn Ht]. unfold check_manifest. rewrite Hv. cbn [negb orb].
  destruct (Z.eqb_spec (Z.of_nat (length (m_files m))) 0); [lia|].
  destruct (Z.ltb_spec 4096 (Z.of_nat (length (m_files m)))); [lia|]. cbn [orb negb ensure rbind].
  rewrite parse_entries_complete by (done || (intros n [])). cbn [rbind]. rewrite Z.add_0_l.
  by apply Z.leb_le in Ht as ->.
Qed.

Lemma fold_sizes_perm (es es' : list Entry) :
  es ≡ₚ es' -> List.fold_right (fun e t => e_size e + t) 0 es = List.fold_right (fun e t => e_size e + t) 0 es'.
Proof. induction 1; cbn; lia. Qed.

Lemma manifest_ok_perm v es es' : es ≡ₚ es' -> manifest_ok (mkManifest v es) -> manifest_ok (mkManifest v es').
Proof.
  intros Hp [H1 H2 H3 H4 H5]. cbn in *. constructor; cbn.
  - done.
  - by rewrite <- (Permutation_length Hp).
  - by rewrite <- Hp.
  - by rewrite <- Hp.
  - by rewrite <- (fold_sizes_perm _ _ Hp).
Qed.

(** C17: Manifest::parse returns a manifest exactly when the bytes fit the manifest limit,
    decode to it and it is well-formed: a safe version, 1 to 4096 entries without
    repetition, each named by a safe path component that starts with Master and is not
    MasterManifest, followed by .bin, with a 64-digit hexadecimal hash and an encrypted
    size that is a multiple of 32 above 64 and within the limit, and a total of the
    sizes within the total limit. *)
Theorem parse_exact `{MasterCodecs} bytes m :
  parse bytes = Ok m <-> llen bytes <= MAX_MANIFEST /\ manifest_from_slice bytes = Some m /\ manifest_ok m.
Proof.
  split.
  - intros Hp. apply parse_ok in Hp as (H1 & H2 & H3). split; [done|]. split; [done|]. by apply check_manifest_ok.
  - intros (H1 & H2 & H3). unfold parse. destruct (Z.ltb_spec MAX_MANIFEST (llen bytes)); [lia|].
    rewrite H2. cbn [ok_or rbind]. by rewrite check_manifest_complete.
Qed.

Lemma from_32_spec data rest :
  from_32 data = Some rest <-> exists seed, length seed = 32%nat /\ data = seed ++ rest.
Proof.
  unfold from_32. destruct (Nat.ltb_spec (length data) 32) as [Hlt|Hge].
  - split; [done|]. intros (seed & Hl & ->). rewrite length_app in Hlt. lia.
  - split.
    + intros [= <-]. exists (take 32 data). rewrite take_drop, length_take. split; [lia|done].
    + intros (seed & Hl & ->). by rewrite <- Hl, drop_app_length.
Qed.

(** C18: For a 32-byte key and IV the table decoder returns json on bytes data exactly when
    data has the size and digest of its manifest entry, is 32 leading bytes followed by
    the Rijndael-256 CBC encryption of 32 salt bytes and a gzip member, and json is that
    member's content, within its limit and valid JSON. *)
Theorem table_decode_exact `{MasterCodecs} key v e data json :
  length key = 32%nat -> Forall is_byte key -> is_state v -> Forall is_byte data ->
  decode (decoder_new key v) e data = Ok json <->
  llen data <= MAX_ENCRYPTED /\ llen data = e_size e /\ eq_ignore_ascii_case (digest data) (e_hash e) = true /\
  exists seed salt gz, length seed = 32%nat /\ length salt = 32%nat /\ Forall is_byte (salt ++ gz) /\
    data = seed ++ encrypt (Rijndael.new key) (salt ++ gz) v /\
    gunzip (MAX_JSON + 1) gz = Some json /\ llen json <= MAX_JSON /\ json_valid json = true.
Proof.
  intros Hkl Hk Hv Hd. unfold decode, decoder_new. cbn [cipher iv].
  destruct (Z.ltb_spec MAX_ENCRYPTED (llen data)) as [Hlt|Hle].
  { split; [discriminate|]. intros (Hle & _). apply Z.lt_nge in Hlt. contradiction. }
  destruct (Z.eqb_spec (llen data) (e_size e)) as [Hs|Hs]; cbn [negb orb]; [|split; [discriminate|]; intros (_ & E & _); contradiction].
  destruct (eq_ignore_ascii_case _ _); cbn [negb]; [|split; [discriminate|]; intros (_ & _ & E & _); discriminate].
  split.
  - intros Hx. apply rbind_ok in Hx as (c & Hc & Hx). apply rbind_ok in Hx as (p & Hp & Hx).
    apply rbind_ok in Hx as (gz & Hgz & Hx). apply rbind_ok in Hx as (j & Hj & Hx).
    destruct (from_32 data) as [c'|] eqn:Ec; [|done]. injection Hc as ->. apply from_32_spec in Ec as (seed & Hsl & ->).
    apply Forall_app in Hd as [_ Hd]. apply decrypt_iff in Hp as (Hpb & ->); [|done..].
    destruct (from_32 p) as [g'|] eqn:Eg; [|done]. injection Hgz as ->. apply from_32_spec in Eg as (salt & Hsa & ->).
    destruct (gunzip _ _) as [j'|] eqn:Ej; [|done]. injection Hj as ->.
    destruct (Z.ltb_spec MAX_JSON (llen j)); [done|]. apply rbind_ok in Hx as ([] & Hval & [= ->]). apply ensure_ok in Hval.
    split; [done|]. split; [done|]. split; [done|]. exists seed, salt, gz. repeat split; try done; lia.
  - intros (_ & _ & _ & seed & salt & gz & Hsl & Hsa & Hpb & -> & Hg & Hjl & Hj).
    rewrite (proj2 (from_32_spec _ (encrypt (Rijndael.new key) (salt ++ gz) v))) by eauto. cbn [ok_or rbind].
    apply Forall_app in Hd as [_ Hd]. rewrite (proj2 (decrypt_iff key v _ (salt ++ gz) Hkl Hk Hv Hd)) by done. cbn [rbind].
    rewrite (proj2 (from_32_spec _ gz)) by eauto. cbn [ok_or rbind]. rewrite Hg. cbn [ok_or rbind].
    destruct (Z.ltb_spec MAX_JSON (llen json)); [lia|]. unfold validate_json. by rewrite Hj.
Qed.
