(* ===== verification/MasterRegistry.v ===== *)
(** Master snapshots and their registry ([master.rs]'s reads,
    [master_registry.rs]).

    A Master directory holds [CURRENT], [retention.json] and snapshot
    directories.  Readers take no lock: a reader sees, at each of its file
    accesses, the directory of that moment, so the read operations take a [view]
    (the directory at each time) and access it at increasing times.  The writer
    is alone; the time between two of its effects is a state of the view. *)
From Stdlib Require Import ZArith Lia Ascii String List Bool Sorted Permutation.
From stdpp Require Import base list strings decidable gmap sorting.
From S2P Require Import Prelude BTree Errors Regions Versions Http MasterFiles.

Local Open Scope Z_scope.
Local Open Scope rust_scope.

(** * Directories *)
Inductive top : Type := Dir (d : files) | DirLink (d : files) | NotDir | HiddenDir.
Record root : Type := mkRoot { current : option node; retention : option node; snapshots : gmap string top }.
Definition view : Type := Z -> root.
Definition later (k : Z) (v : view) : view := fun t => v (k + t).

(** A file of a snapshot directory. *)
Definition dir_node (r : root) (snapshot name : string) : option node :=
  match snapshots r !! snapshot with
  | Some (Dir d) | Some (DirLink d) => d !! name
  | None => None
  | Some NotDir | Some HiddenDir => Some Hidden
  end.

Definition snapshot_name (s : string) : bool := starts_with s "master-" && safe_component s.

Definition snapshot_directory (r : root) (snapshot : string) : result MasterError unit :=
  if negb (snapshot_name snapshot) then Err MNotFound
  else match snapshots r !! snapshot with
       | None => Err MNotFound
       | Some HiddenDir => Err (MIo IoOther)
       | Some (Dir _) => Ok tt
       | Some (DirLink _) | Some NotDir => Err MFormat
       end.

(** [str::cmp] on names, and the stable sort by it. *)
Fixpoint insert_by {A} (key : A -> string) (x : A) (l : list A) : list A :=
  match l with
  | [] => [x]
  | y :: l' => if sleb (key x) (key y) then x :: l else y :: insert_by key x l'
  end.
Definition sort_by {A} (key : A -> string) (l : list A) : list A := List.fold_right (insert_by key) [] l.

(** * The index *)
Definition table_name (e : Entry) : string := replace (e_name e) ".bin" ".json".

Fixpoint check_files (total : Z) (fs : list File) (expected : list string) : result MasterError Z :=
  match fs, expected with
  | f :: fs, name :: expected =>
      if negb (String.eqb (f_name f) name) || (f_size f =? 0) || (MAX_JSON <? f_size f) || negb (hash_valid (f_sha256 f))
      then Err MFormat
      else if U64_MAX <? total + f_size f then Err MLimit
      else check_files (total + f_size f) fs expected
  | _, _ => Ok total
  end.
Definition inventory_validate (i : Inventory) (source : Manifest) : result MasterError unit :=
  guard? negb (negb (i_schema_version i =? 1) || negb (String.eqb (i_version i) (m_version source))
               || negb (Nat.eqb (length (i_files i)) (length (m_files source)))) else MFormat;;
  total <-? check_files 0 (i_files i) (sort_by id (map table_name (m_files source)));;
  ensure (total <=? MAX_TOTAL) MLimit.

Section registry.
Context `{MasterCodecs}.

Definition content_hash (scope : Scope) (source : Manifest) (files : list File) : result MasterError string :=
  bytes <-? ok_or (content_to_vec scope source files) MFormat;;
  Ok (digest bytes).

Fixpoint strictly_increasing (l : list string) : bool :=
  match l with
  | a :: ((b :: _) as l') => sltb a b && strictly_increasing l'
  | _ => true
  end.

(** [PublishedManifest::validate]. *)
Definition published_validate (p : PublishedManifest) (scope : Scope) : result MasterError unit :=
  guard? negb (negb (p_schema_version p =? 1) || negb (bool_decide (p_scope p = scope))
               || negb (master_supported (region scope)) || negb (starts_with (p_snapshot p) "master-")
               || negb (safe_component (p_snapshot p)) || negb (String.eqb (p_version p) (m_version (source_manifest p)))
               || some_and (p_resource_version p) (fun v => negb (safe_version v))) else MFormat;;
  bytes <-? ok_or (manifest_to_vec (source_manifest p)) MFormat;;
  source <-? parse bytes;;
  guard? strictly_increasing (map e_name (m_files source)) else MFormat;;
  _ <-? inventory_validate (mkInventory 1 (p_version p) (p_files p)) source;;
  content <-? content_hash scope source (p_files p);;
  ensure (String.eqb content (content_sha256 p)) MIntegrity.

(** * Snapshot directories *)
Definition known_source (s : option string) : bool :=
  some_and s (fun s => String.eqb s "local-import" || String.eqb s "remote" || String.eqb s "registry").
Definition receipt_str (receipt : json) (k : string) : option string :=
  match json_field k receipt with Some v => json_str v | None => None end.
Definition receipt_u64 (receipt : json) (k : string) : option Z :=
  match json_field k receipt with
  | Some (JNum n) => if in_range 0 U64_MAX n then Some n else None
  | _ => None
  end.

(** Two accesses: the manifest and the receipt. *)
Definition source_with_provenance (v : view) (snapshot : string)
  : result MasterError (Manifest * option string * Region) :=
  bytes <-? regular (dir_node (v 0) snapshot "MasterManifest.json") MAX_MANIFEST;;
  source <-? parse bytes;;
  rbytes <-? regular (dir_node (v 1) snapshot "receipt.json") 4096;;
  receipt <-? ok_or (value_from_slice rbytes) MFormat;;
  guard? negb (negb (bool_decide (receipt_str receipt "version" = Some (m_version source)))
               || negb (bool_decide (receipt_str receipt "snapshot" = Some snapshot))
               || negb (bool_decide (receipt_u64 receipt "tables" = Some (Z.of_nat (length (m_files source)))))
               || negb (known_source (receipt_str receipt "source"))) else MFormat;;
  resource_version <-? recorded_resource_version receipt;;
  region <-? recorded_region receipt;;
  Ok (source, resource_version, region).

Definition source (v : view) (snapshot : string) (region : Region) : result MasterError Manifest :=
  x <-? source_with_provenance v snapshot;;
  let '(source, _, recorded) := x in
  if bool_decide (recorded = region) then Ok source else Err MFormat.

Definition snapshot_region (v : view) (snapshot : string) : result MasterError Region :=
  _ <-? snapshot_directory (v 0) snapshot;;
  x <-? source_with_provenance (later 1 v) snapshot;;
  Ok (snd x).

(** The scan of a legacy snapshot's tables, one access each. *)
Fixpoint scan_tables (v : view) (snapshot : string) (total : Z) (es : list Entry) : result MasterError (list File) :=
  match es with
  | [] => Ok []
  | e :: es =>
      let name := table_name e in
      bytes <-? regular (dir_node (v 0) snapshot name) MAX_JSON;;
      if MAX_TOTAL <? total + llen bytes then Err MLimit
      else _ <-? validate_json bytes;;
           fs <-? scan_tables (later 1 v) snapshot (total + llen bytes) es;;
           Ok (file name bytes :: fs)
  end.

Definition inventory (v : view) (snapshot : string) (source : Manifest) : result MasterError Inventory :=
  value <-?
    match stat (dir_node (v 0) snapshot "tables.json") with
    | Ok _ =>
        bytes <-? regular (dir_node (v 1) snapshot "tables.json") MAX_INDEX;;
        ok_or (inventory_from_slice bytes) MFormat
    | Err IoNotFound =>
        fs <-? scan_tables (later 1 v) snapshot 0 (m_files source);;
        Ok (mkInventory 1 (m_version source) (sort_by f_name fs))
    | Err IoOther => Err (MIo IoOther)
    end;;
  _ <-? inventory_validate value source;;
  Ok value.

Definition current_snapshot (v : view) : result MasterError string :=
  bytes <-? regular (current (v 0)) 128;;
  snapshot <-? ok_or (from_utf8 bytes) MFormat;;
  _ <-? snapshot_directory (v 1) snapshot;;
  Ok snapshot.

Definition environment_ok (e : string) : bool :=
  negb (is_empty e) && (len e <=? 256) && all_bytes (fun b => is_ascii_alphanumeric b || char_is 45 b) e.
Definition quoted (s : string) : string := (String "034" s ++ String "034" "")%string.

Definition sort_source (m : Manifest) : Manifest := mkManifest (m_version m) (sort_by e_name (m_files m)).

(** The manifest value of a snapshot, and [manifest] over [CURRENT] or a pinned
    snapshot. *)
Definition manifest (v : view) (snapshot : option string) (scope : Scope) : result MasterError Document :=
  guard? negb (negb (master_supported (region scope)) || negb (environment_ok (environment scope))) else MFormat;;
  snapshot <-? match snapshot with Some s => Ok s | None => current_snapshot v end;;
  _ <-? snapshot_directory (v 2) snapshot;;
  x <-? source_with_provenance (later 3 v) snapshot;;
  let '(source, resource_version, recorded) := x in
  guard? bool_decide (recorded = region scope) else MFormat;;
  let source := sort_source source in
  inventory <-? inventory (later 5 v) snapshot source;;
  content <-? content_hash scope source (i_files inventory);;
  let manifest := mkPublished 1 scope snapshot (m_version source) resource_version content (i_files inventory) source in
  bytes <-? ok_or (published_to_vec manifest) MFormat;;
  Ok (mkDocument bytes (quoted (digest bytes)) (m_version source)).

(** * Tables *)
Definition verify_indexed_digest (v : view) (snapshot : string) (source : Manifest) (table : string) (size : Z) (sha256 : string)
  : result MasterError bool :=
  match stat (dir_node (v 0) snapshot "tables.json") with
  | Ok _ =>
      bytes <-? regular (dir_node (v 1) snapshot "tables.json") MAX_INDEX;;
      index <-? ok_or (inventory_from_slice bytes) MFormat;;
      _ <-? inventory_validate index source;;
      entry <-? ok_or (List.find (fun e => String.eqb (f_name e) (table ++ ".json")) (i_files index)) MFormat;;
      if negb (f_size entry =? size) || negb (String.eqb (f_sha256 entry) sha256) then Err MIntegrity else Ok true
  | Err IoNotFound => Ok false
  | Err IoOther => Err (MIo IoOther)
  end.

Definition table_read (v : view) (region : Region) (snapshot table expected_hash : string) (validate_indexed : bool)
  : result MasterError Document :=
  if negb (safe_component table) || negb (hash_valid expected_hash) then Err MNotFound
  else
    _ <-? snapshot_directory (v 0) snapshot;;
    source <-? source (later 1 v) snapshot region;;
    guard? List.existsb (fun e => String.eqb (e_name e) (table ++ ".bin")) (m_files source) else MNotFound;;
    bytes <-? regular (dir_node (v 3) snapshot (table ++ ".json")) MAX_JSON;;
    guard? String.eqb (digest bytes) expected_hash else MIntegrity;;
    indexed <-? verify_indexed_digest (later 4 v) snapshot source table (llen bytes) expected_hash;;
    _ <-? (if validate_indexed || negb indexed then validate_json bytes else Ok tt);;
    Ok (mkDocument bytes (quoted expected_hash) (m_version source)).
Definition table (v : view) (region : Region) (snapshot table expected_hash : string) : result MasterError Document :=
  table_read v region snapshot table expected_hash true.
Definition table_intact (v : view) (region : Region) (snapshot table expected_hash : string) : bool :=
  is_ok (table_read v region snapshot table expected_hash false).

(** [read_current_inner]; the pinned directory may be a link here. *)
Definition status_value (m : Manifest) (snapshot source : string) (region : Region) (resource : option string) : json :=
  JObj ([("version"%string, JStr (m_version m)); ("snapshot"%string, JStr snapshot); ("source"%string, JStr source);
         ("region"%string, JStr (region_name region));
         ("tables"%string, JArr (map (fun e => JStr (trim_end_matches (e_name e) ".bin")) (m_files m)))]
        ++ match resource with Some v => [("resource_version"%string, JStr v)] | None => [] end).

Definition read_current_inner (v : view) (table : option string) (expected : option Region)
  : result MasterError (MasterDocument * bool) :=
  pointer <-? read_bounded (current (v 0)) 128;;
  snapshot <-? ok_or (from_utf8 pointer) MFormat;;
  guard? snapshot_name snapshot else MFormat;;
  bytes <-? read_bounded (dir_node (v 1) snapshot "MasterManifest.json") MAX_MANIFEST;;
  manifest <-? parse bytes;;
  rbytes <-? read_bounded (dir_node (v 2) snapshot "receipt.json") 4096;;
  receipt <-? ok_or (value_from_slice rbytes) MFormat;;
  region <-? recorded_region receipt;;
  guard? none_or expected (fun e => bool_decide (e = region)) else MFormat;;
  x <-?
    match table with
    | Some table =>
        guard? negb (negb (safe_component table)
                     || negb (List.existsb (fun e => String.eqb (e_name e) (table ++ ".bin")) (m_files manifest)))
          else MNotFound;;
        bytes <-? read_bounded (dir_node (v 3) snapshot (table ++ ".json")) MAX_JSON;;
        indexed <-? verify_indexed_digest (later 4 v) snapshot manifest table (llen bytes) (digest bytes);;
        Ok (digest bytes, bytes, indexed)
    | None =>
        guard? known_source (receipt_str receipt "source") else MFormat;;
        source <-? ok_or (receipt_str receipt "source") MFormat;;
        guard? negb (negb (bool_decide (receipt_str receipt "version" = Some (m_version manifest)))
                     || negb (bool_decide (receipt_str receipt "snapshot" = Some snapshot))) else MFormat;;
        resource <-? recorded_resource_version receipt;;
        bytes <-? ok_or (value_to_vec (status_value manifest snapshot source region resource)) MFormat;;
        Ok (digest bytes, bytes, false)
    end;;
  let '(sha256, bytes, indexed) := x in
  Ok (mkMasterDocument (m_version manifest) sha256 bytes, indexed).
Definition read_current (v : view) (table : option string) : result MasterError MasterDocument :=
  rmap fst (read_current_inner v table None).
Definition read_current_in (v : view) (table : option string) (region : Region) : result MasterError MasterDocument :=
  rmap fst (read_current_inner v table (Some region)).
Definition current_table_intact (v : view) (table : string) (region : Region) (version : string) : bool :=
  match read_current_inner v (Some table) (Some region) with
  | Ok (document, indexed) =>
      String.eqb (md_version document) version && (indexed || is_ok (validate_json (md_bytes document)))
  | Err _ => false
  end.
End registry.

(** * Lemmas *)

(** ** Sorting *)
Definition sle (a b : string) : Prop := sleb a b = true.

Lemma sle_iff a b : sle a b <-> a = b \/ slt a b.
Proof. unfold sle, sleb. rewrite negb_true_iff, sltb_false. split; intros [->|]; auto. Qed.

#[export] Instance sle_transitive : Transitive sle.
Proof.
  intros a b c. rewrite !sle_iff. intros [->|H1] [->|H2]; auto. right. by eapply slt_trans.
Qed.
#[export] Instance sle_antisymm : AntiSymm eq sle.
Proof.
  intros a b. rewrite !sle_iff. intros [->|H1] [|H2]; auto. exfalso. eapply slt_irrefl. by eapply slt_trans.
Qed.
Lemma sle_total a b : sleb a b = false -> sle b a.
Proof. unfold sle, sleb. intros E. apply negb_false_iff, sltb_spec in E. apply negb_true_iff, sltb_false. auto. Qed.

Section sorting.
Context {A : Type} (key : A -> string).
Definition by_key (x y : A) : Prop := sle (key x) (key y).

Lemma insert_by_perm x l : insert_by key x l ≡ₚ x :: l.
Proof. induction l as [|y l IH]; cbn; [done|]. destruct (sleb _ _); [done|]. rewrite IH. constructor. Qed.
Lemma sort_by_perm l : sort_by key l ≡ₚ l.
Proof. induction l as [|x l IH]; cbn; [done|]. by rewrite insert_by_perm, IH. Qed.

Lemma insert_by_sorted x l : StronglySorted by_key l -> StronglySorted by_key (insert_by key x l).
Proof.
  induction 1 as [|y l Hl IH Hy]; cbn; [repeat constructor|]. destruct (sleb (key x) (key y)) eqn:E.
  - constructor; [by constructor|]. constructor; [exact E|]. eapply Forall_impl; [exact Hy|]. intros z Hz.
    unfold by_key in *. by etransitivity.
  - constructor; [done|]. rewrite (insert_by_perm x l). constructor; [by apply sle_total|done].
Qed.
Lemma sort_by_sorted l : StronglySorted by_key (sort_by key l).
Proof. induction l as [|x l IH]; cbn; [constructor|]. by apply insert_by_sorted. Qed.
End sorting.

(** Sorting names does not depend on their order. *)
Lemma sort_names_perm l l' : l ≡ₚ l' -> sort_by id l = sort_by id l'.
Proof.
  intros Hp. apply (StronglySorted_unique sle); [apply (sort_by_sorted id)|apply (sort_by_sorted id)|].
  by rewrite !sort_by_perm.
Qed.

Lemma inventory_validate_perm i v es es' :
  es ≡ₚ es' -> inventory_validate i (mkManifest v es) = inventory_validate i (mkManifest v es').
Proof.
  intros Hp. unfold inventory_validate. cbn [m_version m_files].
  by rewrite (sort_names_perm _ (map table_name es')), (Permutation_length Hp) by by rewrite Hp.
Qed.

(** ** Indexes *)
Record file_ok (f : File) : Prop := {
  fo_size : 0 < f_size f <= MAX_JSON \/ f_size f < 0;
  fo_hash : hash_valid (f_sha256 f) = true;
}.
Definition total_size (fs : list File) : Z := List.fold_right (fun f t => f_size f + t) 0 fs.

Lemma check_files_ok total fs expected total' :
  length fs = length expected -> check_files total fs expected = Ok total' ->
  map f_name fs = expected /\ Forall file_ok fs /\ total' = total + total_size fs.
Proof.
  revert total expected. induction fs as [|f fs IH]; intros total [|n expected] Hl; cbn [check_files]; try done.
  { intros [= <-]. cbn. repeat split; [constructor|lia]. }
  match goal with |- (if ?c then _ else _) = _ -> _ => destruct c eqn:Ec; [done|] end.
  match goal with |- (if ?c then _ else _) = _ -> _ => destruct c eqn:Eo; [done|] end.
  intros Hc. destruct (IH _ expected ltac:(cbn in Hl; lia) Hc) as (H1 & H2 & ->). bool_prop.
  cbn [map total_size List.fold_right]. subst. repeat split; [constructor; [constructor; [lia|done]|done]|fold (total_size fs); lia].
Qed.

Lemma inventory_validate_ok i m :
  inventory_validate i m = Ok tt ->
  i_schema_version i = 1 /\ i_version i = m_version m /\ map f_name (i_files i) = sort_by id (map table_name (m_files m)) /\
  Forall file_ok (i_files i) /\ total_size (i_files i) <= MAX_TOTAL /\ length (i_files i) = length (m_files m).
Proof.
  unfold inventory_validate. intros Hv. inv_ok. bool_prop.
  match goal with E : Nat.eqb _ _ = true |- _ => apply Nat.eqb_eq in E; rename E into Hlen end.
  match goal with E : check_files _ _ _ = Ok _ |- _ => apply check_files_ok in E as (Hnames & Hfiles & ->) end.
  - repeat split; try done; lia.
  - by rewrite (Permutation_length (sort_by_perm id _)), length_map.
Qed.

(** A table name is its stem with the suffix of tables. *)
Lemma table_name_stem e : entry_ok e -> exists stem, e_name e = (stem ++ ".bin")%string /\ table_name e = (stem ++ ".json")%string /\ stem_ok stem.
Proof.
  intros [(stem & E & Hs) _ _]. exists stem. split; [done|]. split; [|done]. unfold table_name. rewrite E.
  apply replace_bin, Hs.
Qed.

Lemma table_name_reserved e n :
  entry_ok e -> In n ["tables.json"; "MasterManifest.json"; "receipt.json"; "publication.json"]%string -> table_name e <> n.
Proof.
  intros He Hn. destruct (table_name_stem e He) as (stem & _ & -> & Hs1 & Hs2 & _).
  intros E. apply Hs1. destruct Hn as [<-|[<-|[<-|[<-|[]]]]].
  - apply (append_inj_r stem "tables") in E. subst. by vm_compute in Hs2.
  - by apply (append_inj_r stem "MasterManifest") in E.
  - apply (append_inj_r stem "receipt") in E. subst. by vm_compute in Hs2.
  - apply (append_inj_r stem "publication") in E. subst. by vm_compute in Hs2.
Qed.

Lemma table_names_nodup es : Forall entry_ok es -> NoDup (map e_name es) -> NoDup (map table_name es).
Proof.
  intros He Hn. induction He as [|e es He Hes IH]; cbn in *; [constructor|].
  apply NoDup_cons in Hn as [Hne Hn]. apply NoDup_cons. split; [|by apply IH].
  intros Hin. apply Hne. apply list_elem_of_In, in_map_iff in Hin as (e' & E & Hin).
  apply list_elem_of_In, in_map_iff. exists e'. split; [|done].
  rewrite Forall_forall in Hes. destruct (table_name_stem e He) as (s1 & E1 & E2 & _).
  destruct (table_name_stem e' (Hes e' ltac:(by apply list_elem_of_In))) as (s2 & E3 & E4 & _).
  rewrite E2, E4 in E. apply append_inj_r in E. by rewrite E1, E3, E.
Qed.
