(* ===== verification/MasterHistory.v ===== *)
(** The committed chain of Master snapshots ([master_registry.rs], second part):
    publication records, history pages, lookup by content hash, and retention.

    A walk visits at most 10,000 snapshots: the number still allowed is the
    measure of its recursion, and its exhaustion is the source's [Limit].  Step
    [n] of a walk takes place in its own slot of times, so that every
    interleaving of a walk with a retention pass is a view. *)
From Stdlib Require Import ZArith Lia Ascii String List Bool.
From stdpp Require Import base list strings decidable gmap.
From S2P Require Import Prelude BTree Errors Regions Versions Http MasterFiles MasterRegistry.

Local Open Scope Z_scope.
Local Open Scope rust_scope.

Definition WALK_LIMIT : nat := Z.to_nat 10000.
Definition MAX_PRUNED_PER_PASS : Z := 64.

Record HistoryEntry : Type := mkHistoryEntry {
  h_snapshot : string;
  h_version : string;
  h_resource_version : option string;
  h_content_sha256 : string;
  h_published_at : option Z;
  h_file_count : Z;
  h_total_size : Z;
}.
Record History : Type := mkHistory {
  hist_schema_version : Z;
  hist_scope : Scope;
  hist_head : string;
  entries : list HistoryEntry;
  has_more : bool;
  next_before : option string;
  legacy_boundary : bool;
  retention_boundary_flag : bool;
}.

Section chain.
Context `{MasterCodecs}.

Definition publication (r : root) (snapshot : string) (visited : list string) : result MasterError (option Publication) :=
  match regular (dir_node r snapshot "publication.json") 4096 with
  | Ok bytes =>
      record <-? ok_or (publication_from_slice bytes) MFormat;;
      guard? negb (negb (pub_schema_version record =? 1) || negb (String.eqb (pub_snapshot record) snapshot)
                   || some_and (previous_snapshot record) (fun p =>
                        negb (starts_with p "master-") || negb (safe_component p) || mem p visited)) else MFormat;;
      Ok (Some record)
  | Err (MIo IoNotFound) => Ok None
  | Err e => Err e
  end.

Definition predecessor (v : view) : result MasterError (option string) :=
  match regular (current (v 0)) 128 with
  | Ok pointer =>
      snapshot <-? ok_or (from_utf8 pointer) MFormat;;
      _ <-? snapshot_directory (v 1) snapshot;;
      _ <-? source_with_provenance (later 2 v) snapshot;;
      Ok (Some snapshot)
  | Err (MIo IoNotFound) => Ok None
  | Err e => Err e
  end.

Definition retention_boundary (r : root) : result MasterError (option string) :=
  match regular (retention r) 4096 with
  | Ok bytes =>
      record <-? ok_or (retention_from_slice bytes) MFormat;;
      guard? negb (negb (ret_schema_version record =? 1) || negb (starts_with (boundary record) "master-")
                   || negb (safe_component (boundary record))) else MFormat;;
      Ok (Some (boundary record))
  | Err (MIo IoNotFound) => Ok None
  | Err e => Err e
  end.

(** The slots of one step: the manifest, the publication record, the check that
    the directory is still there, and the boundary read again. *)
Definition PUBLICATION_SLOT : Z := 5000.
Definition RECHECK_SLOT : Z := 5001.
Definition BOUNDARY_SLOT : Z := 5002.
Definition STEP : Z := 5003.

Definition chain_step (v : view) (scope : Scope) (snapshot : string) (visited : list string)
  : result MasterError (Document * option Publication) :=
  _ <-? snapshot_directory (v 0) snapshot;;
  document <-? manifest (later 1 v) (Some snapshot) scope;;
  record <-? publication (v PUBLICATION_SLOT) snapshot visited;;
  _ <-? (if is_none record then snapshot_directory (v RECHECK_SLOT) snapshot else Ok tt);;
  Ok (document, record).

Definition missing (e : MasterError) : bool :=
  match e with MNotFound | MIo IoNotFound => true | _ => false end.
Definition crossed_boundary (r : root) (error : MasterError) (failed : string) (visited : list string)
  : result MasterError string :=
  if negb (missing error) then Err error
  else match retention_boundary r with
       | Ok (Some b) => if negb (String.eqb b failed) && mem b visited then Ok b else Err error
       | _ => Err error
       end.

(** * History *)
Fixpoint position (s : string) (es : list HistoryEntry) : option nat :=
  match es with
  | [] => None
  | e :: es => if String.eqb (h_snapshot e) s then Some O else option_map S (position s es)
  end.

Definition entry_of (snapshot : string) (value : PublishedManifest) (record : option Publication) : HistoryEntry :=
  mkHistoryEntry snapshot (p_version value) (p_resource_version value) (content_sha256 value)
    (option_map published_at record) (Z.of_nat (length (p_files value)))
    (List.fold_right (fun f t => f_size f + t) 0 (p_files value)).

(** The variables of the loop after it ends. *)
Record walked : Type := mkWalked {
  w_next : option string;
  w_found : bool;
  w_entries : list HistoryEntry;
  w_legacy : bool;
  w_retained : bool;
}.

Fixpoint history_loop (fuel : nat) (v : view) (scope : Scope) (limit : Z) (before bound : option string)
    (visited : list string) (w : walked) : result MasterError walked :=
  match w_next w with
  | None => Ok w
  | Some snapshot =>
      match fuel with
      | O => Err MLimit
      | S fuel =>
          if mem snapshot visited then Err MFormat
          else
            let visited := snapshot :: visited in
            match chain_step v scope snapshot visited with
            | Err error =>
                crossed <-? crossed_boundary (v BOUNDARY_SLOT) error snapshot visited;;
                if bool_decide (before = Some crossed)
                then Ok (mkWalked None (w_found w) [] (w_legacy w) true)
                else match position crossed (w_entries w) with
                     | Some at_ => Ok (mkWalked None (w_found w) (take (at_ + 1) (w_entries w)) (w_legacy w) true)
                     | None => Err MNotFound
                     end
            | Ok (doc, record) =>
                value <-? ok_or (published_from_slice (d_bytes doc)) MFormat;;
                let legacy := w_legacy w || is_none record in
                let next := match record with Some p => previous_snapshot p | None => None end in
                let stop := is_some next && bool_decide (bound = Some snapshot) in
                let next := if stop then None else next in
                let retained := w_retained w || stop in
                if negb (w_found w)
                then history_loop fuel (later STEP v) scope limit before bound visited
                       (mkWalked next (bool_decide (before = Some snapshot)) (w_entries w) legacy retained)
                else
                  let es := w_entries w ++ [entry_of snapshot value record] in
                  let w := mkWalked next true es legacy retained in
                  if Z.of_nat (length es) =? limit then Ok w
                  else history_loop fuel (later STEP v) scope limit before bound visited w
            end
      end
  end.

Definition last_snapshot (es : list HistoryEntry) : option string := option_map h_snapshot (last es).

Definition valid_history_cursor (s : string) : bool := (len s <=? 128) && starts_with s "master-" && safe_component s.

Definition history_walk (v : view) (scope : Scope) (limit : Z) (before bound : option string) : result MasterError History :=
  guard? none_or before valid_history_cursor else MFormat;;
  h <-? predecessor v;;
  head <-? ok_or h MNotFound;;
  w <-? history_loop WALK_LIMIT (later 10 v) scope limit before bound []
          (mkWalked (Some head) (is_none before) [] false false);;
  guard? w_found w else MNotFound;;
  Ok (mkHistory 1 scope head (w_entries w) (is_some (w_next w))
        (if is_some (w_next w) then last_snapshot (w_entries w) else None) (w_legacy w) (w_retained w)).

Definition history_page_inner (v : view) (scope : Scope) (limit : Z) (before : option string) : result MasterError History :=
  bound <-? retention_boundary (v 0);;
  history_walk (later 1 v) scope limit before bound.
Definition history_page (v : view) (scope : Scope) (limit : Z) (before : option string) : result MasterError History :=
  if negb (in_range 1 100 limit) then Err MLimit else history_page_inner v scope limit before.
Definition committed_history (v : view) (scope : Scope) : result MasterError History :=
  history <-? history_page_inner v scope 10000 None;;
  if has_more history then Err MLimit else Ok history.

(** * Lookup by content *)
Fixpoint by_hash_loop (fuel : nat) (v : view) (scope : Scope) (hash : string) (bound : option string)
    (visited : list string) (next : option string) : result MasterError Document :=
  match next with
  | None => Err MNotFound
  | Some snapshot =>
      match fuel with
      | O => Err MLimit
      | S fuel =>
          if mem snapshot visited then Err MFormat
          else
            let visited := snapshot :: visited in
            match chain_step v scope snapshot visited with
            | Err error => _ <-? crossed_boundary (v BOUNDARY_SLOT) error snapshot visited;; Err MNotFound
            | Ok (document, record) =>
                value <-? ok_or (published_from_slice (d_bytes document)) MFormat;;
                if String.eqb (content_sha256 value) hash then Ok document
                else if bool_decide (bound = Some snapshot) then Err MNotFound
                else by_hash_loop fuel (later STEP v) scope hash bound visited
                       (match record with Some r => previous_snapshot r | None => None end)
            end
      end
  end.
Definition manifest_by_hash (v : view) (scope : Scope) (hash : string) : result MasterError Document :=
  guard? hash_valid hash else MFormat;;
  bound <-? retention_boundary (v 0);;
  next <-? predecessor (later 1 v);;
  by_hash_loop WALK_LIMIT (later 11 v) scope hash bound [] next.

(** * Retention *)
Definition retention_valid (keep : Z) : bool := in_range 2 10000 keep.

(** Writing [retention.json]: as a whole, or nothing, or written with a failed
    directory sync. *)
Inductive WriteIo : Type := WriteOk | WriteFailed | WriteUnsynced.
(** Renaming a snapshot away: done, failed, or done with a failed sync. *)
Inductive RenameIo : Type := RenameOk | RenameFailed | RenameUnsynced.

Definition set_retention (r : root) (n : node) : root := mkRoot (current r) (Some n) (snapshots r).
Definition set_snapshots (r : root) (s : gmap string top) : root := mkRoot (current r) (retention r) s.
Definition set_current (r : root) (n : node) : root := mkRoot (Some n) (retention r) (snapshots r).

Definition write_retention (r : root) (b : string) (io : WriteIo) : result MasterError unit * root :=
  match retention_to_vec (mkRetention 1 b) with
  | None => (Err MFormat, r)
  | Some bytes =>
      match io with
      | WriteOk => (Ok tt, set_retention r (Regular bytes))
      | WriteFailed => (Err (MIo IoOther), r)
      | WriteUnsynced => (Err (MIo IoOther), set_retention r (Regular bytes))
      end
  end.

(** The boundary: the [keep]-th installation, or an earlier recorded one.  The
    number of installations still to keep decreases. *)
Fixpoint find_boundary (fuel : nat) (r : root) (old : option string) (visited : list string) (next : option string)
  : result MasterError (option (string * option string * list string)) :=
  match next, fuel with
  | None, _ | _, O => Ok None
  | Some snapshot, S fuel =>
      if mem snapshot visited then Err MFormat
      else
        let visited := snapshot :: visited in
        _ <-? snapshot_directory r snapshot;;
        record <-? publication r snapshot visited;;
        match record with
        | None => Ok None
        | Some record =>
            if match fuel with O => true | _ => false end || bool_decide (old = Some snapshot)
            then Ok (Some (snapshot, previous_snapshot record, visited))
            else find_boundary fuel r old visited (previous_snapshot record)
        end
  end.

(** The committed snapshots beyond the boundary, newest first. *)
Fixpoint find_candidates (fuel : nat) (r : root) (visited : list string) (next : option string)
  : result MasterError (list string) :=
  match next with
  | None => Ok []
  | Some snapshot =>
      match fuel with
      | O => Err MLimit
      | S fuel =>
          if mem snapshot visited then Err MFormat
          else
            let visited := snapshot :: visited in
            match snapshot_directory r snapshot with
            | Err MNotFound => Ok []
            | Err e => Err e
            | Ok _ =>
                record <-? publication r snapshot visited;;
                match record with
                | None => Ok []
                | Some record =>
                    rest <-? find_candidates fuel r visited (previous_snapshot record);;
                    Ok (snapshot :: rest)
                end
            end
      end
  end.

(** Removing the oldest first; the directory after every effect is recorded. *)
Fixpoint remove_oldest (r : root) (io : string -> RenameIo) (pruned : Z) (cands : list string)
  : result MasterError Z * list root :=
  match cands with
  | [] => (Ok pruned, [])
  | s :: cands =>
      let r' := set_snapshots r (delete s (snapshots r)) in
      match io s with
      | RenameFailed => (Err (MIo IoOther), [])
      | RenameUnsynced => (Err (MIo IoOther), [r'])
      | RenameOk => let '(res, trace) := remove_oldest r' io (pruned + 1) cands in (res, r' :: trace)
      end
  end.

(** [prune_within]: the result and the directory after each effect. *)
Definition prune_within (r : root) (keep budget : Z) (wio : WriteIo) (io : string -> RenameIo)
  : result MasterError Z * list root :=
  let v : view := fun _ => r in
  if negb (retention_valid keep) then (Err MLimit, [])
  else
    match predecessor v with
    | Err e => (Err e, [])
    | Ok None => (Ok 0, [])
    | Ok (Some head) =>
        match retention_boundary r with
        | Err e => (Err e, [])
        | Ok old =>
            match find_boundary (Z.to_nat keep) r old [] (Some head) with
            | Err e => (Err e, [])
            | Ok None => (Ok 0, [])
            | Ok (Some (b, next, visited)) =>
                match find_candidates WALK_LIMIT r visited next with
                | Err e => (Err e, [])
                | Ok [] => (Ok 0, [])
                | Ok cands =>
                    let oldest := take (Z.to_nat budget) (rev cands) in
                    if bool_decide (old = Some b) then remove_oldest r io 0 oldest
                    else match write_retention r b wio with
                         | (Err e, r') => (Err e, [r'])
                         | (Ok _, r') => let '(res, trace) := remove_oldest r' io 0 oldest in (res, r' :: trace)
                         end
                end
            end
        end
    end.
Definition prune (r : root) (keep : Z) (wio : WriteIo) (io : string -> RenameIo) : result MasterError Z * list root :=
  prune_within r keep MAX_PRUNED_PER_PASS wio io.

(** [retain]: no retention, a lock that is not acquired and a failed pass are all
    silent. *)
Definition retain (r : root) (keep_snapshots : option Z) (lock : result MasterError unit) (wio : WriteIo) (io : string -> RenameIo)
  : option Z * list root :=
  match keep_snapshots, lock with
  | None, _ | _, Err _ => (None, [])
  | Some keep, Ok _ =>
      match prune r keep wio io with
      | (Ok pruned, trace) => (Some pruned, trace)
      | (Err _, trace) => (None, trace)
      end
  end.
End chain.
