(* ===== verification/MasterChain.v ===== *)
(** Readers of the committed chain during retention: the chain of installed
    snapshots as a list, the directory as its representation, and what history
    pages and lookups return while a retention pass removes snapshots. *)
From Stdlib Require Import ZArith Lia Ascii String List Bool.
From stdpp Require Import base list strings decidable gmap.
From S2P Require Import Prelude BTree Errors Regions Versions Http MasterFiles MasterRegistry MasterHistory.

Local Open Scope Z_scope.
Local Open Scope rust_scope.

(** * One snapshot that may disappear *)
Section fading.
Context `{MasterCodecs}.
Context (s : string) (d : files) (gone : Prop).

(** A directory with this snapshot alone. *)
Definition pure (s : string) (d : files) : root := mkRoot None None {[s := Dir d]}.

(** Up to time [n] the snapshot is there with its files, or it is gone for
    good. *)
Record near (v : view) (n : Z) : Prop := {
  near_dir : forall t, 0 <= t <= n -> snapshots (v t) !! s = Some (Dir d) \/ (snapshots (v t) !! s = None /\ gone);
  near_mono : forall t t', 0 <= t <= t' -> t' <= n -> snapshots (v t) !! s = None -> snapshots (v t') !! s = None;
}.

(** The result on the directory alone, or an error that says the snapshot is
    missing. *)
Definition agree {A} (x y : result MasterError A) : Prop :=
  x = y \/ (gone /\ exists e, x = Err e /\ missing e = true).

Lemma agree_refl {A} (x : result MasterError A) : agree x x.
Proof. by left. Qed.

Lemma agree_missing {A} e (y : result MasterError A) : gone -> missing e = true -> agree (Err e) y.
Proof. right. eauto. Qed.

Lemma agree_bind {A B} (x y : result MasterError A) (k k' : A -> result MasterError B) :
  agree x y -> (forall a, y = Ok a -> agree (k a) (k' a)) -> agree (rbind x k) (rbind y k').
Proof.
  intros [->|(Hg & e & -> & He)] Hk; [|by apply agree_missing].
  destruct y as [a|e]; [by apply Hk|apply agree_refl].
Qed.

Lemma near_later v n k : 0 <= k <= n -> near v n -> near (later k v) (n - k).
Proof.
  intros Hk [H1 H2]. constructor; unfold later; intros.
  - apply H1. lia.
  - apply (H2 (k + t)); [lia|lia|done].
Qed.

Lemma near_le v n n' : n' <= n -> near v n -> near v n'.
Proof. intros Hn [H1 H2]. constructor; intros; [apply H1; lia|apply (H2 t); lia || done]. Qed.

Lemma dir_node_pure name : dir_node (pure s d) s name = d !! name.
Proof. unfold dir_node, pure. cbn. by rewrite lookup_singleton_eq. Qed.

Lemma dir_node_near v n t name :
  near v n -> 0 <= t <= n ->
  dir_node (v t) s name = dir_node (pure s d) s name \/ (dir_node (v t) s name = None /\ gone /\ snapshots (v t) !! s = None).
Proof.
  intros Hn Ht. rewrite dir_node_pure. unfold dir_node.
  destruct (near_dir v n Hn t Ht) as [->|[-> Hg]]; auto.
Qed.

Lemma regular_near v n t name limit :
  near v n -> 0 <= t <= n -> agree (regular (dir_node (v t) s name) limit) (regular (dir_node (pure s d) s name) limit).
Proof.
  intros Hn Ht. destruct (dir_node_near v n t name Hn Ht) as [->|(-> & Hg & _)]; [apply agree_refl|].
  by apply agree_missing.
Qed.

Lemma directory_near v n t :
  near v n -> 0 <= t <= n -> agree (snapshot_directory (v t) s) (snapshot_directory (pure s d) s).
Proof.
  intros Hn Ht. unfold snapshot_directory. destruct (negb _); [apply agree_refl|].
  unfold pure. cbn [snapshots]. rewrite lookup_singleton_eq.
  destruct (near_dir v n Hn t Ht) as [->|[-> Hg]]; [apply agree_refl|by apply agree_missing].
Qed.

Lemma source_near v n :
  1 <= n -> near v n -> agree (source_with_provenance v s) (source_with_provenance (fun _ => pure s d) s).
Proof.
  intros Hle Hn. unfold source_with_provenance.
  apply agree_bind; [by apply (regular_near v n); [|lia]|]. intros bytes _.
  apply agree_bind; [apply agree_refl|]. intros m _.
  apply agree_bind; [by apply (regular_near v n); [|lia]|]. intros rb _. apply agree_refl.
Qed.

Lemma scan_near es v total :
  near v (Z.of_nat (length es)) -> agree (scan_tables v s total es) (scan_tables (fun _ => pure s d) s total es).
Proof.
  revert v total. induction es as [|e es IH]; intros v total Hn; cbn [scan_tables]; [apply agree_refl|].
  cbn [length] in Hn.
  apply agree_bind; [by apply (regular_near v (Z.of_nat (S (length es)))); [|lia]|]. intros bytes _.
  destruct (_ <? _); [apply agree_refl|].
  apply agree_bind; [apply agree_refl|]. intros [] _.
  apply agree_bind; [|intros; apply agree_refl].
  apply IH. eapply near_le; [|apply (near_later v (Z.of_nat (S (length es))) 1)]; [lia|lia|done].
Qed.

Lemma inventory_near v m :
  m_files m <> [] -> near v (Z.of_nat (length (m_files m)) + 1) ->
  agree (inventory v s m) (inventory (fun _ => pure s d) s m).
Proof.
  intros Hne Hn. set (n := Z.of_nat (length (m_files m)) + 1) in *.
  assert (Hsc : near (later 1 v) (Z.of_nat (length (m_files m)))).
  { eapply near_le; [|apply (near_later v n 1)]; [lia|lia|done]. }
  unfold inventory. apply agree_bind; [|intros; apply agree_refl].
  destruct (dir_node_near v n 0 "tables.json" Hn ltac:(lia)) as [->|(-> & Hg & Hnone)].
  - destruct (stat _) as [[]|[]]; [| |apply agree_refl].
    + apply agree_bind; [by apply (regular_near v n); [|lia]|]. intros; apply agree_refl.
    + apply agree_bind; [|intros; apply agree_refl]. by apply scan_near.
  - cbn [stat]. destruct (m_files m) as [|e es]; [done|]. cbn [scan_tables].
    assert (snapshots (later 1 v 0) !! s = None) as E.
    { apply (near_mono v n Hn 0); unfold n; [lia|cbn [length]; lia|done]. }
    unfold dir_node. rewrite E. cbn [regular rbind]. by apply agree_missing.
Qed.

Lemma insert_by_length {A} (key : A -> string) x l : length (insert_by key x l) = S (length l).
Proof. induction l as [|y l IH]; cbn [insert_by]; [done|]. destruct (sleb _ _); cbn [length]; congruence. Qed.
Lemma sort_by_length {A} (key : A -> string) l : length (sort_by key l) = length l.
Proof. induction l as [|x l IH]; cbn; [done|]. by rewrite insert_by_length, <- IH. Qed.

Lemma parse_files bytes m : parse bytes = Ok m -> (0 < length (m_files m) <= 4096)%nat.
Proof.
  unfold parse. destruct (_ <? _); [done|]. intros Hp. inv_ok. subst.
  unfold check_manifest in *. inv_ok. bool_prop. lia.
Qed.

Lemma source_files v s' m rv g : source_with_provenance v s' = Ok (m, rv, g) -> (0 < length (m_files m) <= 4096)%nat.
Proof. unfold source_with_provenance. intros Hs. inv_ok. subst. eauto using parse_files. Qed.

Lemma manifest_near v scope :
  near v 4999 -> agree (manifest v (Some s) scope) (manifest (fun _ => pure s d) (Some s) scope).
Proof.
  intros Hn. unfold manifest. apply agree_bind; [apply agree_refl|]. intros [] _. cbn [rbind].
  apply agree_bind; [by apply (directory_near v 4999); [|lia]|]. intros [] _.
  apply agree_bind.
  { apply (source_near (later 3 v) 4996); [lia|]. by apply (near_later v 4999 3). }
  intros [[m rv] g] E. apply source_files in E.
  apply agree_bind; [apply agree_refl|]. intros [] _.
  apply agree_bind; [|intros; apply agree_refl].
  apply inventory_near; unfold sort_source; cbn [m_files].
  - intros E'. apply (f_equal length) in E'. rewrite sort_by_length in E'. cbn in E'. lia.
  - rewrite sort_by_length. eapply near_le; [|apply (near_later v 4999 5)]; [lia|lia|done].
Qed.

Lemma chain_step_near v scope visited :
  near v RECHECK_SLOT ->
  agree (chain_step v scope s visited) (chain_step (fun _ => pure s d) scope s visited).
Proof.
  intros Hn. unfold chain_step, RECHECK_SLOT, PUBLICATION_SLOT in *.
  apply agree_bind; [by apply (directory_near v 5001); [|lia]|]. intros [] _.
  apply agree_bind; [apply manifest_near; eapply near_le; [|apply (near_later v 5001 1)]; lia || done|].
  intros doc _.
  destruct (near_dir v _ Hn 5000 ltac:(lia)) as [Hp|[Hp Hg]].
  - assert (publication (v 5000) s visited = publication (pure s d) s visited) as ->.
    { unfold publication. rewrite dir_node_pure. unfold dir_node. by rewrite Hp. }
    apply agree_bind; [apply agree_refl|]. intros record _.
    apply agree_bind; [|intros; apply agree_refl].
    destruct (is_none record); [by apply (directory_near v 5001); [|lia]|apply agree_refl].
  - assert (Hr : snapshots (v 5001) !! s = None) by (eapply (near_mono v _ Hn 5000); lia || done).
    unfold publication. unfold dir_node at 1. rewrite Hp. cbn [regular rbind is_none].
    unfold snapshot_directory at 1. rewrite Hr.
    by destruct (negb (snapshot_name s)); apply agree_missing.
Qed.
End fading.

(** * The chain *)

(** An installed snapshot: its directory, and what a step over it reads. *)
Record inst : Type := mkInst {
  i_name : string;
  i_dir : files;
  i_doc : Document;
  i_value : PublishedManifest;
  i_pub : option Publication;
}.
Definition hist_entry (x : inst) : HistoryEntry := entry_of (i_name x) (i_value x) (i_pub x).
Definition names (cs : list inst) : list string := map i_name cs.

Section store.
Context `{MasterCodecs} (scope : Scope).

Record inst_ok (x : inst) : Prop := {
  ok_step : chain_step (fun _ => pure (i_name x) (i_dir x)) scope (i_name x) [] = Ok (i_doc x, i_pub x);
  ok_value : published_from_slice (d_bytes (i_doc x)) = Some (i_value x);
}.

Definition previous_of (x : inst) : option string :=
  match i_pub x with Some p => previous_snapshot p | None => None end.

(** Every snapshot's record names the next older one; the oldest has none, or no
    record at all. *)
Fixpoint linked (cs : list inst) : Prop :=
  match cs with
  | [] => True
  | x :: cs' => inst_ok x /\ previous_of x = option_map i_name (head cs') /\ linked cs'
  end.

Record chain (cs : list inst) : Prop := {
  ch_linked : linked cs;
  ch_nodup : NoDup (names cs);
  ch_len : (0 < length cs)%nat;
}.

(** The directory [r] holds the chain [cs] down to the snapshot with index [k];
    [b] is the index of the recorded boundary.  Snapshots without a record are
    never removed. *)
Record store (cs : list inst) (k : nat) (b : option nat) (r : root) : Prop := {
  st_current : exists x, head cs = Some x /\ current r = Some (Regular (bytes_of (i_name x)));
  st_present : forall i x, cs !! i = Some x -> (i <= k)%nat \/ i_pub x = None -> snapshots r !! i_name x = Some (Dir (i_dir x));
  st_absent : forall i x, cs !! i = Some x -> (k < i)%nat -> is_some (i_pub x) = true -> snapshots r !! i_name x = None;
  st_bound : match b with
             | Some j => (j <= k)%nat /\ exists x, cs !! j = Some x /\ retention_boundary r = Ok (Some (i_name x))
             | None => retention_boundary r = Ok None
             end;
  st_pruned : forall i x, cs !! i = Some x -> (k < i)%nat -> is_some (i_pub x) = true -> is_some b = true;
}.

(** A later boundary is nearer to the head; no boundary is the farthest. *)
Definition bound_le (b b' : option nat) : Prop :=
  match b, b' with
  | Some j, Some j' => (j <= j')%nat
  | Some _, None => True
  | None, None => True
  | None, Some _ => False
  end.

(** A view of the chain during retention. *)
Record retaining (cs : list inst) (k : Z -> nat) (b : Z -> option nat) (v : view) : Prop := {
  rt_store : forall t, 0 <= t -> store cs (k t) (b t) (v t);
  rt_k : forall t t', 0 <= t <= t' -> (k t' <= k t)%nat;
  rt_b : forall t t', 0 <= t <= t' -> bound_le (b t') (b t);
}.

Lemma retaining_later cs k b v n :
  0 <= n -> retaining cs k b v -> retaining cs (fun t => k (n + t)) (fun t => b (n + t)) (later n v).
Proof. intros Hn [H1 H2 H3]. constructor; intros; [apply H1|apply H2|apply H3]; lia. Qed.

Lemma linked_lookup cs i x :
  linked cs -> cs !! i = Some x -> inst_ok x /\ previous_of x = option_map i_name (cs !! S i).
Proof.
  revert i. induction cs as [|y cs IH]; intros i Hl; [done|]. destruct Hl as (H1 & H2 & H3).
  destruct i as [|i]; cbn; [|by apply IH]. intros [= <-]. split; [done|]. rewrite H2. by destruct cs.
Qed.

Lemma names_lookup cs i : names cs !! i = option_map i_name (cs !! i).
Proof. unfold names. by rewrite list_lookup_fmap. Qed.

Lemma names_inj cs i j x y :
  NoDup (names cs) -> cs !! i = Some x -> cs !! j = Some y -> i_name x = i_name y -> i = j.
Proof.
  intros Hn Hi Hj E. eapply NoDup_lookup; [done| |]; rewrite names_lookup.
  - by rewrite Hi.
  - rewrite Hj. cbn. by rewrite E.
Qed.

(** The visited set of a walk at index [i]. *)
Definition seen (cs : list inst) (i : nat) : list string := rev (names (take i cs)).

Lemma mem_seen cs i n : mem n (seen cs i) = true <-> exists j x, (j < i)%nat /\ cs !! j = Some x /\ i_name x = n.
Proof.
  unfold seen. rewrite mem_spec, <- in_rev. unfold names. rewrite in_map_iff. split.
  - intros (x & E & Hx). apply list_elem_of_In, list_elem_of_lookup in Hx as [j Hj].
    apply lookup_take_Some in Hj as [Hj Hlt]. eauto.
  - intros (j & x & Hlt & Hj & E). exists x. split; [done|].
    apply list_elem_of_In, list_elem_of_lookup. exists j. by apply lookup_take_Some.
Qed.

Lemma mem_seen_self cs i x : NoDup (names cs) -> cs !! i = Some x -> mem (i_name x) (seen cs i) = false.
Proof.
  intros Hn Hi. apply not_true_iff_false. rewrite mem_seen. intros (j & y & Hlt & Hj & E).
  pose proof (names_inj cs j i y x Hn Hj Hi E). lia.
Qed.

Lemma seen_S cs i x : cs !! i = Some x -> seen cs (S i) = i_name x :: seen cs i.
Proof.
  intros Hi. unfold seen. rewrite (take_S_r _ _ _ Hi). unfold names. by rewrite map_app, rev_app_distr.
Qed.

Lemma publication_visited r s visited p :
  publication r s [] = Ok p ->
  none_or (match p with Some p => previous_snapshot p | None => None end) (fun q => negb (mem q visited)) = true ->
  publication r s visited = Ok p.
Proof.
  unfold publication. destruct (regular _ _) as [bytes|[]]; try done.
  destruct (publication_from_slice bytes) as [rec|]; cbn [ok_or rbind]; [|done]. cbn [mem existsb].
  destruct (negb (pub_schema_version rec =? 1)); cbn [orb negb rbind ensure]; [done|].
  destruct (negb (String.eqb _ s)); cbn [orb negb rbind ensure]; [done|].
  destruct (previous_snapshot rec) as [q|] eqn:Eq; cbn [some_and].
  - rewrite orb_false_r. destruct (_ || _) eqn:Eo; cbn [negb rbind ensure]; [done|].
    intros [= <-]. rewrite Eq. cbn [none_or]. intros Hm. apply negb_true_iff in Hm. rewrite Hm. done.
  - done.
Qed.

(** The parts of a step over a snapshot alone. *)
Lemma ok_parts x :
  inst_ok x ->
  let r := pure (i_name x) (i_dir x) in
  snapshot_directory r (i_name x) = Ok tt /\ manifest (fun _ => r) (Some (i_name x)) scope = Ok (i_doc x) /\
  publication r (i_name x) [] = Ok (i_pub x).
Proof.
  intros [Hok _] r. unfold chain_step in Hok. fold r in Hok.
  change (later 1 (fun _ : Z => r)) with (fun _ : Z => r) in Hok.
  apply rbind_ok in Hok as ([] & Hd & Hok). apply rbind_ok in Hok as (doc & Hdoc & Hok).
  apply rbind_ok in Hok as (p & Hp & Hok). apply rbind_ok in Hok as (u & _ & [= -> ->]). done.
Qed.

Lemma previous_unseen cs i x :
  linked cs -> NoDup (names cs) -> cs !! i = Some x ->
  none_or (previous_of x) (fun q => negb (mem q (seen cs (S i)))) = true.
Proof.
  intros Hl Hn Hi. destruct (linked_lookup cs i x Hl Hi) as [_ ->].
  destruct (cs !! S i) as [y|] eqn:Ey; cbn; [|done]. by rewrite (mem_seen_self cs (S i) y).
Qed.

(** What a present snapshot shows the writer. *)
Lemma present_parts cs i x r :
  linked cs -> NoDup (names cs) -> cs !! i = Some x -> snapshots r !! i_name x = Some (Dir (i_dir x)) ->
  snapshot_directory r (i_name x) = Ok tt /\ publication r (i_name x) (seen cs (S i)) = Ok (i_pub x).
Proof.
  intros Hl Hn Hi Hp. destruct (linked_lookup cs i x Hl Hi) as [Hok _]. apply ok_parts in Hok as (H1 & _ & H3). split.
  - unfold snapshot_directory in *. destruct (negb _); [done|]. by rewrite Hp.
  - apply publication_visited; [|by apply previous_unseen].
    unfold publication in *. rewrite dir_node_pure in H3. unfold dir_node. by rewrite Hp.
Qed.

Lemma static_step cs i x :
  linked cs -> NoDup (names cs) -> cs !! i = Some x ->
  chain_step (fun _ => pure (i_name x) (i_dir x)) scope (i_name x) (seen cs (S i)) = Ok (i_doc x, i_pub x).
Proof.
  intros Hl Hn Hi. destruct (linked_lookup cs i x Hl Hi) as [Hok _]. apply ok_parts in Hok as (H1 & H2 & H3).
  unfold chain_step. change (later 1 (fun _ : Z => pure (i_name x) (i_dir x))) with (fun _ : Z => pure (i_name x) (i_dir x)).
  cbv beta. rewrite H1. cbn [rbind]. rewrite H2. cbn [rbind].
  rewrite (publication_visited _ _ (seen cs (S i)) _ H3) by by apply previous_unseen. cbn [rbind].
  by destruct (is_none _).
Qed.

(** A step over the snapshot with index [i] reads the snapshot, or finds it
    missing behind a boundary that the walk has passed. *)
Lemma step_retaining cs k b v i x :
  chain cs -> retaining cs k b v -> cs !! i = Some x ->
  (chain_step v scope (i_name x) (seen cs (S i)) = Ok (i_doc x, i_pub x) /\ ((i <= k 0%Z)%nat \/ i_pub x = None)) \/
  exists e j y, chain_step v scope (i_name x) (seen cs (S i)) = Err e /\ b BOUNDARY_SLOT = Some j /\ (j < i)%nat /\
    cs !! j = Some y /\ crossed_boundary (v BOUNDARY_SLOT) e (i_name x) (seen cs (S i)) = Ok (i_name y).
Proof.
  intros [Hl Hnd _] Hr Hi. pose proof (static_step cs i x Hl Hnd Hi) as Hstatic.
  set (gone := exists t, 0 <= t <= RECHECK_SLOT /\ (k t < i)%nat /\ is_some (i_pub x) = true).
  assert (Hnear : near (i_name x) (i_dir x) gone v RECHECK_SLOT).
  { assert (Hdec : forall t, 0 <= t -> ((i <= k t)%nat \/ i_pub x = None) \/ ((k t < i)%nat /\ is_some (i_pub x) = true)).
    { intros t Ht. destruct (le_lt_dec i (k t)); [by left; left|]. destruct (i_pub x); [by right|by left; right]. }
    constructor.
    - intros t Ht. pose proof (rt_store _ _ _ _ Hr t ltac:(lia)) as Hst.
      destruct (Hdec t ltac:(lia)) as [Hp|[H1 H2]]; [left; by eapply st_present|].
      right. split; [by eapply st_absent|]. exists t. done.
    - intros t t' Ht Ht' Hnone. destruct (Hdec t' ltac:(lia)) as [Hp|[H1 H2]].
      + pose proof (rt_k _ _ _ _ Hr t t' ltac:(lia)). pose proof (rt_store _ _ _ _ Hr t ltac:(lia)) as Hst.
        assert (snapshots (v t) !! i_name x = Some (Dir (i_dir x))) by (eapply st_present; [done..|]; destruct Hp; [left; lia|by right]).
        congruence.
      + eapply st_absent; [apply (rt_store _ _ _ _ Hr t'); lia|done..]. }
  destruct (chain_step_near (i_name x) (i_dir x) gone v scope (seen cs (S i)) Hnear) as [E|(Hg & e & E & He)].
  { left. split; [congruence|]. destruct (le_lt_dec i (k 0)) as [|Hlt]; [by left|right].
    destruct (i_pub x) as [p|] eqn:Ep; [exfalso|done]. rewrite Hstatic in E. unfold chain_step in E.
    apply rbind_ok in E as (u & E & _). unfold snapshot_directory in E.
    rewrite (st_absent _ _ _ _ (rt_store _ _ _ _ Hr 0 ltac:(lia)) i x Hi Hlt) in E by by rewrite Ep.
    by destruct (negb _). }
  right. destruct Hg as (t & Ht & Hlt & Hpub).
  pose proof (rt_k _ _ _ _ Hr t BOUNDARY_SLOT ltac:(unfold RECHECK_SLOT, BOUNDARY_SLOT in *; lia)) as Hk.
  pose proof (rt_store _ _ _ _ Hr BOUNDARY_SLOT ltac:(unfold BOUNDARY_SLOT; lia)) as Hst.
  pose proof (st_pruned _ _ _ _ Hst i x Hi ltac:(lia) Hpub) as Hb. pose proof (st_bound _ _ _ _ Hst) as Hbd.
  destruct (b BOUNDARY_SLOT) as [j|] eqn:Eb; [|done]. destruct Hbd as (Hj & y & Ey & Hrb).
  assert (j < i)%nat by lia. exists e, j, y. split; [done|]. split; [done|]. split; [done|]. split; [done|].
  unfold crossed_boundary. rewrite He, Hrb. cbn [negb].
  destruct (String.eqb_spec (i_name y) (i_name x)) as [E'|E'].
  { pose proof (names_inj cs j i y x Hnd Ey Hi E'). lia. }
  cbn [negb andb]. assert (mem (i_name y) (seen cs (S i)) = true) as ->; [|done].
  apply mem_seen. exists j, y. split; [lia|done].
Qed.

(** * History pages *)

(** Where a page starts, and whether its cursor is behind a boundary recorded at
    some time. *)
Definition page_start (cs : list inst) (before : option string) (start : nat) : Prop :=
  match before with
  | None => start = O
  | Some c => (exists j x, start = S j /\ cs !! j = Some x /\ i_name x = c) \/ (start = S (length cs) /\ ~ In c (names cs))
  end.

(** The walk at index [i]: its variables. *)
Definition walking (cs : list inst) (start i : nat) (next : option string) : walked :=
  mkWalked next (start <=? i)%nat (map hist_entry (drop start (take i cs))) false false.

(** The page that ends before index [m]: it is full, or the chain ends there, or
    a recorded boundary ([B]) does. *)
Definition page_end (cs : list inst) (B : nat -> Prop) (limit : Z) (start m : nat) (w : walked) : Prop :=
  w_found w = true /\ (start <= m <= length cs)%nat /\ w_entries w = map hist_entry (drop start (take m cs)) /\
  Z.of_nat (m - start) <= limit /\
  ((w_retained w = false /\ w_legacy w = false /\ (exists x, cs !! m = Some x /\ w_next w = Some (i_name x)) /\ Z.of_nat (m - start) = limit)
   \/ (w_retained w = false /\ m = length cs /\ w_next w = None /\
       w_legacy w = some_and (last cs) (fun x => is_none (i_pub x)))
   \/ (w_retained w = true /\ w_legacy w = false /\ w_next w = None /\ (0 < m)%nat /\ B (m - 1)%nat)).

(** The cursor is behind a recorded boundary, or not in the chain. *)
Definition cursor_lost (cs : list inst) (B : nat -> Prop) (start : nat) : Prop :=
  (exists j, B j /\ (S j < start)%nat) \/ (length cs < start)%nat.

Definition page_result (cs : list inst) (B : nat -> Prop) (limit : Z) (start : nat) (res : result MasterError walked) : Prop :=
  (exists w m, res = Ok w /\ page_end cs B limit start m w) \/
  (cursor_lost cs B start /\ (res = Err MNotFound \/ exists w, res = Ok w /\ w_found w = false)).

Lemma position_entries cs start i j x :
  NoDup (names cs) -> cs !! j = Some x ->
  position (i_name x) (map hist_entry (drop start (take i cs))) =
    if (start <=? j)%nat && (j <? i)%nat then Some (j - start)%nat else None.
Proof.
  intros Hn Hj. set (l := drop start (take i cs)).
  assert (Hl : forall n y, l !! n = Some y <-> (start + n < i)%nat /\ cs !! (start + n)%nat = Some y).
  { intros n y. unfold l. rewrite lookup_drop, lookup_take_Some. tauto. }
  assert (Hp : forall l' off, (forall n y, l' !! n = Some y -> cs !! (off + n)%nat = Some y) ->
    position (i_name x) (map hist_entry l') =
      if (off <=? j)%nat && (j <? off + length l')%nat then Some (j - off)%nat else None).
  { clear l Hl. induction l' as [|y l' IH]; intros off Hl; cbn [map position length].
    { destruct (Nat.leb_spec off j), (Nat.ltb_spec j (off + 0)); cbn; try done; lia. }
    pose proof (Hl O y eq_refl) as Hy. rewrite Nat.add_0_r in Hy.
    unfold hist_entry at 1, entry_of at 1. cbn [h_snapshot].
    destruct (String.eqb_spec (i_name y) (i_name x)) as [E|E].
    - pose proof (names_inj cs off j y x Hn Hy Hj E) as <-.
      destruct (Nat.leb_spec off off), (Nat.ltb_spec off (off + S (length l'))); cbn; try lia. f_equal. lia.
    - assert (off <> j) by (intros ->; congruence).
      rewrite (IH (S off)); [|intros n z Hz; specialize (Hl (S n) z Hz); by rewrite Nat.add_succ_comm].
      destruct (Nat.leb_spec (S off) j), (Nat.leb_spec off j), (Nat.ltb_spec j (S off + length l')),
        (Nat.ltb_spec j (off + S (length l'))); cbn; try done; try lia. f_equal. lia. }
  rewrite (Hp l start); [|intros n y Hy; by apply Hl].
  assert (Hlen : length l = (min i (length cs) - start)%nat) by (unfold l; by rewrite length_drop, length_take).
  apply lookup_lt_Some in Hj.
  destruct (Nat.leb_spec start j), (Nat.ltb_spec j (start + length l)), (Nat.ltb_spec j i); cbn; try done; lia.
Qed.

Lemma take_entries cs start i n :
  take n (map hist_entry (drop start (take i cs))) = map hist_entry (drop start (take (min i (start + n)) cs)).
Proof.
  change (@map inst HistoryEntry) with (@fmap list _ inst HistoryEntry).
  rewrite <- fmap_take. f_equal. rewrite take_drop_commute, take_take. do 2 f_equal. lia.
Qed.

Lemma entries_step cs start i x :
  cs !! i = Some x -> (start <= i)%nat ->
  map hist_entry (drop start (take i cs)) ++ [hist_entry x] = map hist_entry (drop start (take (S i) cs)).
Proof.
  intros Hi Hs. rewrite (take_S_r _ _ _ Hi), drop_app_le; [by rewrite map_app|].
  apply lookup_lt_Some in Hi. rewrite length_take. lia.
Qed.

Lemma entries_none cs start i : (i <= start)%nat -> map hist_entry (drop start (take i cs)) = [].
Proof. intros Hle. rewrite drop_ge; [done|]. rewrite length_take. lia. Qed.

Lemma page_start_at cs before start i x :
  NoDup (names cs) -> page_start cs before start -> cs !! i = Some x -> before = Some (i_name x) <-> start = S i.
Proof.
  intros Hn Hs Hi. destruct before as [c|]; cbn in Hs; [|split; [done|lia]].
  destruct Hs as [(j & y & -> & Hj & <-)|[-> Hc]].
  - split; [intros [= E]; by rewrite (names_inj cs j i y x Hn Hj Hi E)|]. intros [= ->]. congruence.
  - apply lookup_lt_Some in Hi as Hlt. split; [|lia]. intros [= ->]. destruct Hc. apply in_map_iff. exists x.
    split; [done|]. by apply list_elem_of_In, list_elem_of_lookup_2 with i.
Qed.

(** A walk that finds a snapshot missing ends at the boundary it has crossed. *)
Lemma page_crossed cs (B : nat -> Prop) limit before start i j y w :
  NoDup (names cs) -> page_start cs before start -> (j < i)%nat -> cs !! j = Some y -> B j ->
  (i <= length cs)%nat -> ((start <= i)%nat -> Z.of_nat (i - start) < limit) ->
  w = walking cs start i (w_next w) ->
  page_result cs B limit start
    (if bool_decide (before = Some (i_name y)) then Ok (mkWalked None (w_found w) [] (w_legacy w) true)
     else match position (i_name y) (w_entries w) with
          | Some at_ => Ok (mkWalked None (w_found w) (take (at_ + 1) (w_entries w)) (w_legacy w) true)
          | None => Err MNotFound
          end).
Proof.
  intros Hn Hs Hlt Hj HB Hi Hlim ->. cbn [w_entries w_found w_legacy walking].
  pose proof (page_start_at cs before start j y Hn Hs Hj) as Hat.
  case_bool_decide as Hb.
  - apply Hat in Hb as ->. left. eexists _, (S j). split; [done|]. unfold page_end. cbn [w_found w_entries w_retained w_legacy w_next].
    rewrite (proj2 (Nat.leb_le (S j) i)) by lia. split; [done|]. split; [lia|].
    rewrite entries_none by done. split; [done|]. split; [specialize (Hlim ltac:(lia)); lia|].
    right; right. split; [done|]. split; [done|]. split; [done|]. split; [lia|]. by replace (S j - 1)%nat with j by lia.
  - rewrite (position_entries cs start i j y Hn Hj). destruct (Nat.leb_spec start j) as [Hle|Hgt]; cbn [andb].
    + rewrite (proj2 (Nat.ltb_lt j i)) by done. left. eexists _, (S j). split; [done|]. unfold page_end. cbn [w_found w_entries w_retained w_legacy w_next].
      rewrite (proj2 (Nat.leb_le start i)) by lia. split; [done|]. split; [lia|].
      rewrite take_entries. replace (Nat.min i (start + (j - start + 1)))%nat with (S j) by lia.
      split; [done|]. specialize (Hlim ltac:(lia)). split; [lia|]. right; right.
      split; [done|]. split; [done|]. split; [done|]. split; [lia|]. by replace (S j - 1)%nat with j by lia.
    + right. split; [|by left]. left. exists j. split; [done|].
      assert (start <> S j) by (intros E; by apply Hb, Hat). lia.
Qed.

(** The walk after its visit of index [i]. *)
Definition after (cs : list inst) (start i : nat) (next : option string) (legacy retained : bool) : walked :=
  mkWalked next (start <=? S i)%nat (map hist_entry (drop start (take (S i) cs))) legacy retained.

Lemma visit_body cs start i x before limit (loop : walked -> result MasterError walked) n n' legacy retained :
  NoDup (names cs) -> page_start cs before start -> cs !! i = Some x ->
  (if negb (w_found (walking cs start i n'))
   then loop (mkWalked n (bool_decide (before = Some (i_name x))) (w_entries (walking cs start i n')) legacy retained)
   else if Z.of_nat (length (w_entries (walking cs start i n') ++ [hist_entry x])) =? limit
        then Ok (mkWalked n true (w_entries (walking cs start i n') ++ [hist_entry x]) legacy retained)
        else loop (mkWalked n true (w_entries (walking cs start i n') ++ [hist_entry x]) legacy retained)) =
  if (start <=? i)%nat && (Z.of_nat (S i - start) =? limit) then Ok (after cs start i n legacy retained)
  else loop (after cs start i n legacy retained).
Proof.
  intros Hn Hs Hi. pose proof (page_start_at cs before start i x Hn Hs Hi) as Hat. pose proof (lookup_lt_Some _ _ _ Hi).
  cbn [walking w_found w_entries]. unfold after. destruct (Nat.leb_spec start i) as [Hle|Hgt]; cbn [negb andb].
  - rewrite (entries_step cs start i x Hi Hle), (proj2 (Nat.leb_le start (S i))) by lia.
    rewrite length_map, length_drop, length_take. by replace (Nat.min (S i) (length cs) - start)%nat with (S i - start)%nat by lia.
  - rewrite !entries_none by lia. do 2 f_equal. apply eq_true_iff_eq. rewrite bool_decide_eq_true, Nat.leb_le, Hat. lia.
Qed.

Lemma history_loop_done fuel v limit before bound visited w :
  w_next w = None -> history_loop fuel v scope limit before bound visited w = Ok w.
Proof. intros E. by destruct fuel; cbn [history_loop]; rewrite E. Qed.

(** A walk that stops after index [i]. *)
Lemma after_ends cs (B : nat -> Prop) limit start i legacy retained :
  (i < length cs)%nat -> 1 <= limit -> ((start <= i)%nat -> Z.of_nat (i - start) < limit) ->
  (retained = true /\ legacy = false /\ B i) \/
  (retained = false /\ S i = length cs /\ legacy = some_and (last cs) (fun x => is_none (i_pub x))) ->
  page_result cs B limit start (Ok (after cs start i None legacy retained)).
Proof.
  intros Hi Hl Hlim Hend. unfold after. destruct (Nat.leb_spec start (S i)) as [Hle|Hgt].
  - left. eexists _, (S i). split; [done|]. split; [done|]. split; [lia|]. split; [done|].
    split; [destruct (le_lt_dec start i) as [Hs|]; [specialize (Hlim Hs)|]; lia|]. right.
    destruct Hend as [(-> & -> & HB)|(-> & Hlen & ->)]; [right|left; done].
    repeat split; [lia|]. by replace (S i - 1)%nat with i by lia.
  - right. split; [|right; by eexists].
    destruct Hend as [(_ & _ & HB)|(_ & Hlen & _)]; [left; eauto|right; lia].
Qed.

(** A page that ends behind the [N]th snapshot of a directory with at least so
    many, and no recorded boundary ([b]) before it. *)
Definition walk_exhausted (cs : list inst) (N k : nat) (b : option nat) (limit : Z) (start : nat) : Prop :=
  (N < length cs)%nat /\ (N <= S k)%nat /\ (forall j, b = Some j -> (N <= j)%nat) /\ Z.of_nat N < Z.of_nat start + limit.

Lemma history_loop_page cs k b v K bj (B : nat -> Prop) limit before bound start fuel i x N :
  chain cs -> retaining cs k b v -> (forall t j, 0 <= t -> b t = Some j -> B j) -> 1 <= limit ->
  page_start cs before start ->
  (forall j y, cs !! j = Some y -> bound = Some (i_name y) -> B j) ->
  (forall j, bj = Some j -> exists y, cs !! j = Some y /\ bound = Some (i_name y) /\ (i <= j)%nat) ->
  (forall t, 0 <= t -> (k t <= K)%nat) -> cs !! i = Some x -> (i <= S K)%nat -> (i + fuel = N)%nat -> ((start <= i)%nat -> Z.of_nat (i - start) < limit) ->
  let res := history_loop fuel v scope limit before bound (seen cs i) (walking cs start i (Some (i_name x))) in
  page_result cs B limit start res \/ (res = Err MLimit /\ walk_exhausted cs N K bj limit start).
Proof.
  intros Hch. pose proof (ch_nodup _ Hch) as Hnd. revert k b v i x.
  induction fuel as [|fuel IH]; intros k b v i x Hr HB Hl Hs Hbd Hbj HK Hi HiK Hf Hlim.
  { right. split; [done|]. apply lookup_lt_Some in Hi. unfold walk_exhausted. repeat split; try lia.
    intros j Hj. destruct (Hbj j Hj) as (_ & _ & _ & Hle). lia. }
  pose proof (lookup_lt_Some _ _ _ Hi) as Hlt. cbv zeta.
  cbn [history_loop w_next walking]. rewrite (mem_seen_self cs i x Hnd Hi), <- (seen_S cs i x Hi). cbv zeta.
  destruct (step_retaining cs k b v i x Hch Hr Hi) as [[E Hin]|(e & j & y & E & Eb & Hj & Ey & Ec)]; rewrite E.
  2: { left. rewrite Ec. cbn [rbind]. apply (page_crossed cs B limit before start i j y (walking cs start i (Some (i_name x)))); try done; [|lia].
       by apply (HB BOUNDARY_SLOT). }
  destruct (linked_lookup cs i x (ch_linked _ Hch) Hi) as [[_ Hval] Hprev].
  rewrite Hval. cbn [ok_or rbind]. fold (previous_of x) (hist_entry x). rewrite Hprev.
  rewrite (visit_body cs start i x before limit (history_loop fuel (later STEP v) scope limit before bound (seen cs (S i)))) by done.
  cbn [walking w_legacy w_retained orb].
  destruct (cs !! S i) as [y|] eqn:Ey; cbn [option_map is_some andb].
  - assert (is_none (i_pub x) = false) as Hpub by (unfold previous_of in Hprev; by destruct (i_pub x)). rewrite Hpub.
    assert (Hlow : (i <= K)%nat) by (specialize (HK 0 ltac:(lia)); destruct Hin as [|Hin]; [lia|by rewrite Hin in Hpub]).
    case_bool_decide as Ebd.
    + left. rewrite history_loop_done by done. assert (page_result cs B limit start (Ok (after cs start i None false true))).
      { apply after_ends; try done. left. eauto. }
      by destruct (_ && _).
    + assert (Hrec : ((start <= i)%nat -> Z.of_nat (S i - start) < limit) ->
        let res := history_loop fuel (later STEP v) scope limit before bound (seen cs (S i)) (walking cs start (S i) (Some (i_name y))) in
        page_result cs B limit start res \/ (res = Err MLimit /\ walk_exhausted cs N K bj limit start)).
      { intros Hlim'. apply (IH _ _ _ (S i) y (retaining_later cs k b v STEP ltac:(unfold STEP; lia) Hr)); try done; try lia.
        - intros t j Ht. apply HB. unfold STEP. lia.
        - intros j Hj. destruct (Hbj j Hj) as (z & Hz & Ez & Hle). exists z. split; [done|]. split; [done|].
          assert (j <> i) by (intros ->; apply Ebd; congruence). lia.
        - intros t Ht. apply HK. unfold STEP. lia. }
      destruct (Nat.leb_spec start i) as [Hle|Hgt]; cbn [andb]; [destruct (Z.eqb_spec (Z.of_nat (S i - start)) limit) as [El|El]|].
      * left. left. eexists _, (S i). split; [done|]. split; [cbn [after w_found]; apply Nat.leb_le; lia|]. split; [lia|]. split; [done|].
        split; [lia|]. left. split; [done|]. split; [done|]. split; [|done]. by exists y.
      * apply Hrec. specialize (Hlim Hle). lia.
      * apply Hrec. lia.
  - left. rewrite history_loop_done by done. apply lookup_ge_None in Ey.
    assert (page_result cs B limit start (Ok (after cs start i None (is_none (i_pub x)) false))).
    { apply after_ends; try done. right. split; [done|]. split; [lia|]. rewrite last_lookup.
      replace (pred (length cs)) with i by lia. by rewrite Hi. }
    by destruct (_ && _).
Qed.

(** * Retention *)

Lemma store_here cs k b r i x :
  store cs k b r -> cs !! i = Some x -> (i <= k)%nat \/ i_pub x = None ->
  snapshots r !! i_name x = Some (Dir (i_dir x)).
Proof. intros Hst. apply (st_present _ _ _ _ Hst). Qed.

(** Without a boundary, or up to it, everything is there. *)
Lemma store_window cs k b r i x :
  store cs k b r -> cs !! i = Some x -> (forall jb, b = Some jb -> (i <= jb)%nat) -> (i <= k)%nat \/ i_pub x = None.
Proof.
  intros Hst Hi Hb. destruct (le_lt_dec i k) as [|Hlt]; [by left|]. right.
  destruct (i_pub x) eqn:Ep; [|done]. pose proof (st_bound _ _ _ _ Hst) as Hbd.
  pose proof (st_pruned _ _ _ _ Hst i x Hi Hlt ltac:(by rewrite Ep)) as Hs.
  destruct b as [jb|]; [|done]. destruct Hbd as [Hle _]. specialize (Hb jb eq_refl). lia.
Qed.

Lemma store_bound_lookup cs k b r jb : store cs k b r -> b = Some jb -> exists y, cs !! jb = Some y.
Proof. intros Hst E. pose proof (st_bound _ _ _ _ Hst) as Hb. rewrite E in Hb. destruct Hb as (_ & y & Hy & _). eauto. Qed.

Definition old_name (cs : list inst) (b : option nat) (old : option string) : Prop :=
  old = match b with Some j => option_map i_name (cs !! j) | None => None end.

Lemma store_old cs k b r : store cs k b r -> exists old, retention_boundary r = Ok old /\ old_name cs b old.
Proof.
  intros Hst. pose proof (st_bound _ _ _ _ Hst) as Hb. destruct b as [j|]; [|by exists None].
  destruct Hb as (_ & x & Hx & ->). eexists. split; [done|]. unfold old_name. by rewrite Hx.
Qed.

Lemma old_name_at cs b old i x :
  NoDup (names cs) -> old_name cs b old -> (forall jb, b = Some jb -> exists y, cs !! jb = Some y) -> cs !! i = Some x ->
  old = Some (i_name x) <-> b = Some i.
Proof.
  unfold old_name. intros Hn -> Hb Hi. destruct b as [j|]; [|done]. destruct (Hb j eq_refl) as [y Hy].
  rewrite Hy. cbn. split.
  - intros [= E]. by rewrite (names_inj cs j i y x Hn Hy Hi E).
  - intros [= ->]. congruence.
Qed.

Lemma find_boundary_result cs k b r old fuel i :
  chain cs -> store cs k b r -> old_name cs b old -> (forall jb, b = Some jb -> (i <= jb)%nat) ->
  let res := find_boundary fuel r old (seen cs i) (option_map i_name (cs !! i)) in
  (res = Ok None /\ forall jb x, (i <= jb)%nat -> (S jb = i + fuel \/ b = Some jb /\ jb < i + fuel)%nat -> cs !! jb = Some x -> i_pub x = None) \/
  exists j y, res = Ok (Some (i_name y, previous_of y, seen cs (S j))) /\ cs !! j = Some y /\ (i <= j <= k /\ j < i + fuel)%nat /\
    (forall jb, b = Some jb -> (j <= jb)%nat) /\ (S j = i + fuel \/ b = Some j)%nat.
Proof.
  intros Hch Hst Hold. pose proof (ch_nodup _ Hch) as Hnd. revert i.
  assert (Hbx : forall jb, b = Some jb -> exists y, cs !! jb = Some y) by eauto using store_bound_lookup.
  induction fuel as [|fuel IH]; intros i Hib; cbn [find_boundary].
  { left. split; [by destruct (cs !! i)|]. intros jb x Hle [|[_ ?]]; lia. }
  destruct (cs !! i) as [x|] eqn:Hi; cbn [option_map].
  2: { left. split; [done|]. intros jb x Hle _ Hx. apply lookup_lt_Some in Hx. apply lookup_ge_None in Hi. lia. }
  pose proof (store_window cs k b r i x Hst Hi Hib) as Hw.
  destruct (present_parts cs i x r (ch_linked _ Hch) Hnd Hi (store_here _ _ _ _ _ _ Hst Hi Hw)) as [Hd Hp].
  rewrite (mem_seen_self cs i x Hnd Hi), <- (seen_S cs i x Hi), Hd. cbn [rbind]. rewrite Hp. cbn [rbind].
  destruct (linked_lookup cs i x (ch_linked _ Hch) Hi) as [_ Hnext].
  destruct (i_pub x) as [p|] eqn:Ep.
  2: { left. split; [done|]. intros jb y Hle _ Hy. unfold previous_of in Hnext. rewrite Ep in Hnext.
       destruct (cs !! S i) as [z|] eqn:Ez; [done|]. apply lookup_ge_None in Ez. apply lookup_lt_Some in Hy as Hlt.
       assert (jb = i) by lia. congruence. }
  assert (Hprev : previous_snapshot p = previous_of x) by (unfold previous_of; by rewrite Ep). rewrite Hprev.
  pose proof (old_name_at cs b old i x Hnd Hold Hbx Hi) as Hat.
  assert (Hk : (i <= k)%nat) by (destruct Hw; congruence).
  destruct (_ || _) eqn:Eo.
  - right. exists i, x. split; [done|]. split; [done|]. split; [lia|]. split; [done|].
    apply orb_true_iff in Eo as [Ef|Eb]; [left; destruct fuel; [lia|done]|right]. apply bool_decide_eq_true in Eb. by apply Hat.
  - apply orb_false_iff in Eo as [Ef Eb]. apply bool_decide_eq_false in Eb. rewrite Hnext.
    destruct (IH (S i)) as [[-> Hleg]|(j & y & E & Hy & Hj & Hjb & Hf)]; [|left; split; [done|]|].
    { intros jb Hjb. specialize (Hib jb Hjb). assert (jb <> i) by (intros ->; by apply Eb, Hat). lia. }
    { destruct fuel; [done|]. intros jb y Hle Hc Hy. apply (Hleg jb y); [|destruct Hc as [|[]]; [left|right; split; [done|]]; lia|done].
      destruct (decide (jb = i)) as [->|]; [|lia]. destruct Hc as [|[Hc _]]; [lia|]. by destruct Eb; apply Hat. }
    right. exists j, y. split; [done|]. split; [done|]. split; [lia|]. split; [done|]. destruct Hf; [left; lia|by right].
Qed.

(** The indices a pass may remove: those with a record after [i], down to [k]. *)
Definition prunable (cs : list inst) (k i : nat) : list inst :=
  List.filter (fun x => is_some (i_pub x)) (drop i (take (S k) cs)).

Lemma prunable_In cs k i x : In x (prunable cs k i) -> In x cs.
Proof.
  intros [Hin _]%filter_In. apply list_elem_of_In, list_elem_of_lookup in Hin as [n Hn].
  rewrite lookup_drop in Hn. apply lookup_take_Some in Hn as [Hn _]. by apply list_elem_of_In, list_elem_of_lookup_2 with (i + n)%nat.
Qed.

Lemma prunable_step cs k i x :
  cs !! i = Some x -> (i <= k)%nat -> prunable cs k i = (if is_some (i_pub x) then [x] else []) ++ prunable cs k (S i).
Proof.
  intros Hi Hk. unfold prunable. rewrite (drop_S (take (S k) cs) x i) by (apply lookup_take_Some; split; [done|lia]).
  cbn [List.filter]. by destruct (is_some _).
Qed.

Lemma prunable_end cs k i : (k < i)%nat -> prunable cs k i = [].
Proof. intros Hk. unfold prunable. by rewrite drop_ge by (rewrite length_take; lia). Qed.

Lemma prunable_over cs k i : (length cs <= i)%nat -> prunable cs k i = [].
Proof. intros Hk. unfold prunable. by rewrite drop_ge by (rewrite length_take; lia). Qed.

Lemma find_candidates_result cs k b r fuel i :
  chain cs -> store cs k b r -> (i <= S k)%nat ->
  let res := find_candidates fuel r (seen cs i) (option_map i_name (cs !! i)) in
  res = Ok (names (prunable cs k i)) \/ (res = Err MLimit /\ (i + fuel <= S k)%nat).
Proof.
  intros Hch Hst. pose proof (ch_nodup _ Hch) as Hnd. cbv zeta. revert i.
  induction fuel as [|fuel IH]; intros i Hpos.
  { destruct (cs !! i) as [x|] eqn:Hi; cbn [option_map find_candidates]; [right; split; [done|lia]|left].
    by rewrite prunable_over by by apply lookup_ge_None. }
  destruct (cs !! i) as [x|] eqn:Hi; cbn [option_map find_candidates].
  2: { left. by rewrite prunable_over by by apply lookup_ge_None. }
  rewrite (mem_seen_self cs i x Hnd Hi), <- (seen_S cs i x Hi). cbv zeta.
  destruct (linked_lookup cs i x (ch_linked _ Hch) Hi) as [Hok Hprev].
  destruct (i_pub x) as [p|] eqn:Ep; [destruct (le_lt_dec i k) as [Hle|Hgt]|].
  - destruct (present_parts cs i x r (ch_linked _ Hch) Hnd Hi) as [-> Hp]; [by eapply store_here; [done..|left]|].
    rewrite Hp, Ep. cbn [rbind]. assert (previous_snapshot p = previous_of x) as -> by (unfold previous_of; by rewrite Ep).
    rewrite Hprev. destruct (IH (S i) ltac:(lia)) as [->|[-> ?]]; [left|right; split; [done|lia]].
    cbn [rbind]. rewrite (prunable_step cs k i x Hi Hle), Ep. done.
  - left. assert (snapshots r !! i_name x = None) as E by (eapply st_absent; [done..|by rewrite Ep]).
    apply ok_parts in Hok as (H1 & _). unfold snapshot_directory in *. rewrite E.
    destruct (negb _); [done|]. by rewrite prunable_end.
  - left. destruct (present_parts cs i x r (ch_linked _ Hch) Hnd Hi) as [-> Hp]; [by eapply store_here; [done..|right]|].
    rewrite Hp, Ep. cbn [rbind]. destruct (le_lt_dec i k); [|by rewrite prunable_end].
    assert (cs !! S i = None) as HN by (unfold previous_of in Hprev; rewrite Ep in Hprev; by destruct (cs !! S i)).
    rewrite (prunable_step cs k i x Hi), Ep by done. apply lookup_ge_None in HN. by rewrite prunable_over.
Qed.

(** The states of a retention pass: index of the oldest snapshot left and of the
    boundary. *)
Definition older (x y : nat * option nat) : Prop := (fst y <= fst x)%nat /\ bound_le (snd y) (snd x).
Fixpoint descends (x : nat * option nat) (l : list (nat * option nat)) : Prop :=
  match l with
  | [] => True
  | y :: l => older x y /\ descends y l
  end.
(** What is not in the chain is left alone. *)
Definition others (cs : list inst) (r r' : root) : Prop :=
  forall s, ~ In s (names cs) -> snapshots r' !! s = snapshots r !! s.
Definition stores (cs : list inst) (x : nat * option nat) (r : root) : Prop := store cs (fst x) (snd x) r.

Lemma bound_le_refl b : bound_le b b.
Proof. by destruct b; cbn. Qed.
Lemma bound_le_trans a b c : bound_le a b -> bound_le b c -> bound_le a c.
Proof. destruct a, b, c; cbn; try done; lia. Qed.
Lemma older_trans x y z : older x y -> older y z -> older x z.
Proof. intros [H1 H2] [H3 H4]. split; [lia|by eapply bound_le_trans]. Qed.

Lemma filter_snoc {A} (f : A -> bool) l ps x :
  List.filter f l = ps ++ [x] -> exists l1 l2, l = l1 ++ x :: l2 /\ List.filter f l1 = ps /\ List.filter f l2 = [] /\ f x = true.
Proof.
  revert ps. induction l as [|y l IH]; intros ps E; cbn in E; [by destruct ps|].
  destruct (f y) eqn:Ey.
  - destruct ps as [|z ps]; cbn in E.
    + injection E as -> E. exists [], l. done.
    + injection E as -> E. destruct (IH ps E) as (l1 & l2 & -> & E1 & E2 & E3).
      exists (z :: l1), l2. cbn. by rewrite Ey, E1.
  - destruct (IH ps E) as (l1 & l2 & -> & E1 & E2 & E3). exists (y :: l1), l2. cbn. by rewrite Ey.
Qed.

Lemma remove_one cs k j r ps x :
  chain cs -> store cs k (Some j) r -> prunable cs k (S j) = ps ++ [x] ->
  exists k', (k' < k)%nat /\ store cs k' (Some j) (set_snapshots r (delete (i_name x) (snapshots r))) /\ prunable cs k' (S j) = ps.
Proof.
  intros Hch Hst Hp. pose proof (ch_nodup _ Hch) as Hnd.
  destruct (filter_snoc _ _ _ _ Hp) as (l1 & l2 & El & E1 & E2 & E3).
  set (ix := (S j + length l1)%nat).
  assert (Hix : cs !! ix = Some x /\ (ix <= k)%nat).
  { assert (drop (S j) (take (S k) cs) !! length l1 = Some x) as Hlk by (rewrite El; by apply list_lookup_middle).
    rewrite lookup_drop in Hlk. apply lookup_take_Some in Hlk as [H1 H2]. split; [done|unfold ix; lia]. }
  destruct Hix as [Hx Hk].
  assert (Hpre : prunable cs (ix - 1) (S j) = ps).
  { unfold prunable. rewrite <- E1. f_equal. replace (S (ix - 1)) with ix by (unfold ix; lia).
    assert (l1 = take (length l1) (drop (S j) (take (S k) cs))) as -> by (rewrite El; by rewrite take_app_length).
    rewrite take_drop_commute, take_take. do 2 f_equal. unfold ix in *. lia. }
  assert (Hrest : forall i y, cs !! i = Some y -> (ix < i)%nat -> (i <= k)%nat -> i_pub y = None).
  { intros i y Hy Hlt Hle. assert (l2 !! (i - S ix)%nat = Some y) as Hl2.
    { assert (drop (S j) (take (S k) cs) !! (i - S j)%nat = Some y) as Hlk.
      { rewrite lookup_drop. apply lookup_take_Some. unfold ix in *. split; [|lia]. by replace (S j + (i - S j))%nat with i by lia. }
      rewrite El, (lookup_app_r l1) in Hlk by (unfold ix in *; lia).
      replace (i - S j - length l1)%nat with (S (i - S ix)) in Hlk by (unfold ix in *; lia). done. }
    destruct (i_pub y) eqn:Ey; [|done]. exfalso.
    assert (In y (List.filter (fun x => is_some (i_pub x)) l2)) as Hin.
    { apply filter_In. split; [|by rewrite Ey]. by apply list_elem_of_In, list_elem_of_lookup_2 with (i - S ix)%nat. }
    by rewrite E2 in Hin. }
  exists (ix - 1)%nat. split; [unfold ix in *; lia|]. split; [|done].
  assert (Hne : forall i y, cs !! i = Some y -> i <> ix -> i_name y <> i_name x).
  { intros i y Hy Hne E. by pose proof (names_inj cs i ix y x Hnd Hy Hx E). }
  destruct Hst as [H1 H2 H3 H4 H5]. constructor; cbn [set_snapshots current snapshots].
  - done.
  - intros i y Hy Hc. assert (i <> ix). { intros ->. rewrite Hx in Hy. injection Hy as <-. destruct Hc as [|Hc]; [unfold ix in *; lia|by rewrite Hc in E3]. }
    rewrite lookup_delete_ne by (apply not_eq_sym; by apply (Hne i)). apply (H2 i y Hy). destruct Hc; [left; lia|by right].
  - intros i y Hy Hlt Hpub. destruct (decide (i = ix)) as [->|Hi].
    + rewrite Hx in Hy. injection Hy as <-. apply lookup_delete_eq.
    + rewrite lookup_delete_ne by (apply not_eq_sym; by apply (Hne i)).
      destruct (le_lt_dec i k) as [Hle|Hgt]; [|by apply (H3 i y)].
      rewrite (Hrest i y Hy) in Hpub; [done|lia|done].
  - destruct H4 as [H4 H7]. split; [unfold ix; lia|exact H7].
  - done.
Qed.

Lemma remove_oldest_trace cs k j r io n pruned :
  chain cs -> store cs k (Some j) r ->
  let '(res, trace) := remove_oldest r io pruned (names (take n (rev (prunable cs k (S j))))) in
  exists st, Forall2 (stores cs) st trace /\ descends (k, Some j) st /\ Forall (fun x => snd x = Some j) st /\
    Forall (others cs r) trace /\
    ((forall s, io s = RenameOk) ->
     res = Ok (pruned + Z.of_nat (Nat.min n (length (prunable cs k (S j))))) /\
     prunable cs (fst (List.last st (k, Some j))) (S j) = take (length (prunable cs k (S j)) - n) (prunable cs k (S j))).
Proof.
  intros Hch. revert k r pruned. induction n as [|n IH]; intros k r pruned Hst.
  { cbn. exists []. split; [constructor|]. split; [done|]. split; [constructor|]. split; [constructor|]. intros _. split; [f_equal; lia|]. cbn. by rewrite Nat.sub_0_r, firstn_all. }
  destruct (rev (prunable cs k (S j))) as [|x rp] eqn:Er.
  { apply (f_equal (@rev _)) in Er. rewrite rev_involutive in Er. cbn in Er. cbn.
    exists []. split; [constructor|]. split; [done|]. split; [constructor|]. split; [constructor|]. intros _. cbn. rewrite Er. cbn. split; [f_equal; lia|done]. }
  assert (Ep : prunable cs k (S j) = rev rp ++ [x]) by (rewrite <- (rev_involutive (prunable _ _ _)), Er; done).
  destruct (remove_one cs k j r (rev rp) x Hch Hst Ep) as (k' & Hk & Hst' & Ep').
  cbn [take names map remove_oldest]. set (r' := set_snapshots r _) in *.
  assert (Hold : older (k, Some j) (k', Some j)) by (split; cbn; lia).
  assert (Ho : others cs r r').
  { intros s Hs. cbn. rewrite lookup_delete_ne; [done|]. intros <-. apply Hs, in_map.
    assert (In x (prunable cs k (S j))) as Hin by (rewrite Ep; apply in_app_iff; right; by left).
    by apply prunable_In in Hin. }
  destruct (io (i_name x)) eqn:Eio.
  - specialize (IH k' r' (pruned + 1) Hst'). rewrite Ep', rev_involutive in IH. fold (names (take n rp)).
    destruct (remove_oldest r' io (pruned + 1) (names (take n rp))) as [res trace].
    destruct IH as (st & Hall & Hd & Hsnd & Hoth & Hok). exists ((k', Some j) :: st). split; [by constructor|]. split; [done|]. split; [by constructor|].
    split; [constructor; [done|]; eapply Forall_impl; [exact Hoth|]; intros r2 H2 s Hs; by rewrite (H2 s Hs), (Ho s Hs)|].
    intros Hio. destruct (Hok Hio) as [-> E2]. rewrite Ep, length_app, length_rev in *. cbn [length].
    split; [f_equal; lia|]. replace (length rp + 1 - S n)%nat with (length rp - n)%nat by lia.
    rewrite take_app_le by (rewrite length_rev; lia).
    by rewrite last_cons_default.
  - exists []. split; [constructor|]. split; [done|]. split; [constructor|]. split; [constructor|]. intros Hio. by rewrite Hio in Eio.
  - exists [(k', Some j)]. split; [constructor; [exact Hst'|constructor]|]. split; [done|]. split; [by repeat constructor|]. split; [by repeat constructor|]. intros Hio. by rewrite Hio in Eio.
Qed.

Lemma inst_name x : inst_ok x -> snapshot_name (i_name x) = true.
Proof.
  intros Hok. apply ok_parts in Hok as (H1 & _). unfold snapshot_directory in H1.
  destruct (snapshot_name _) eqn:E; done.
Qed.

Lemma snapshot_name_len s : snapshot_name s = true -> len s <= 128 /\ starts_with s "master-" = true /\ safe_component s = true.
Proof. unfold snapshot_name, safe_component. intros Hs. bool_prop. rewrite !andb_true_iff, negb_true_iff, Z.leb_le. auto. Qed.

Lemma snapshot_name_utf8 s : snapshot_name s = true -> from_utf8 (bytes_of s) = Some s.
Proof. intros (_ & _ & Hs)%snapshot_name_len. by apply from_utf8_ascii, safe_component_ascii. Qed.

(** The head of a chain is always found. *)
Lemma predecessor_head cs k b v x :
  chain cs -> retaining cs k b v -> head cs = Some x -> predecessor v = Ok (Some (i_name x)).
Proof.
  intros Hch Hr Hx. assert (Hi : cs !! O = Some x) by (by destruct cs).
  destruct (linked_lookup cs O x (ch_linked _ Hch) Hi) as [Hok _].
  pose proof (inst_name x Hok) as Hname. pose proof (snapshot_name_len _ Hname) as (Hlen & _).
  assert (Hcur : current (v 0) = Some (Regular (bytes_of (i_name x)))).
  { destruct (st_current _ _ _ _ (rt_store _ _ _ _ Hr 0 ltac:(lia))) as (y & Hy & Hc). congruence. }
  assert (Hthere : forall t, 0 <= t -> snapshots (v t) !! i_name x = Some (Dir (i_dir x))).
  { intros t Ht. apply (st_present _ _ _ _ (rt_store _ _ _ _ Hr t Ht) O x Hi). left. lia. }
  unfold predecessor. rewrite Hcur. cbn [regular read_bounded]. unfold bounded.
  replace (llen _) with (len (i_name x)) by (unfold llen; by rewrite bytes_of_length).
  destruct (Z.ltb_spec 128 (len (i_name x))); [lia|]. rewrite snapshot_name_utf8 by done. cbn [ok_or rbind].
  unfold snapshot_directory. rewrite Hname, (Hthere 1 ltac:(lia)). cbn [negb rbind].
  assert (Hn : near (i_name x) (i_dir x) False (later 2 v) 1).
  { constructor; intros; unfold later; [left; apply Hthere; lia|]. unfold later in *. rewrite Hthere in * by lia. done. }
  destruct (source_near (i_name x) (i_dir x) False (later 2 v) 1 ltac:(lia) Hn) as [->|[[] _]].
  apply ok_parts in Hok as (_ & Hm & _). unfold manifest in Hm.
  change (later 3 (fun _ : Z => ?r)) with (fun _ : Z => r) in Hm. inv_ok. cbn [rbind] in *. by inv_ok.
Qed.

Lemma page_start_exists cs before : exists start, page_start cs before start.
Proof.
  destruct before as [c|]; [|by exists O].
  destruct (in_dec string_dec c (names cs)) as [Hin|Hout]; [|exists (S (length cs)); by right].
  apply in_map_iff in Hin as (x & E & Hx). apply list_elem_of_In, list_elem_of_lookup in Hx as [j Hj].
  exists (S j). left. eauto.
Qed.

(** A history page of the chain [cs] from [start] to [m]. *)
Definition page (cs : list inst) (start m : nat) (legacy retained : bool) : History :=
  let more := negb legacy && negb retained && (m <? length cs)%nat in
  let es := map hist_entry (drop start (take m cs)) in
  mkHistory 1 scope (match head cs with Some x => i_name x | None => "" end) es more
    (if more then last_snapshot es else None) legacy retained.

(** What a reader of a page may be told: a full page, the rest of the chain, or
    the rest down to a recorded boundary; [NotFound] only for a cursor that is
    behind such a boundary or was never in the chain; [Limit] only when the walk
    is too long ([over]). *)
Inductive page_answer (cs : list inst) (B : nat -> Prop) (over : Prop) (limit : Z) (start : nat) : result MasterError History -> Prop :=
| answer_full m : (start < m < length cs)%nat -> Z.of_nat (m - start) = limit ->
    page_answer cs B over limit start (Ok (page cs start m false false))
| answer_rest : (start <= length cs)%nat -> Z.of_nat (length cs - start) <= limit ->
    page_answer cs B over limit start (Ok (page cs start (length cs) (some_and (last cs) (fun x => is_none (i_pub x))) false))
| answer_bound m : (start <= m <= length cs)%nat -> (0 < m)%nat -> Z.of_nat (m - start) <= limit -> B (m - 1)%nat ->
    page_answer cs B over limit start (Ok (page cs start m false true))
| answer_lost : cursor_lost cs B start -> page_answer cs B over limit start (Err MNotFound)
| answer_limit : over -> page_answer cs B over limit start (Err MLimit).

Lemma bound_recorded cs k b v bound j y :
  chain cs -> retaining cs k b v -> old_name cs (b 0) bound -> cs !! j = Some y -> bound = Some (i_name y) -> b 0 = Some j.
Proof.
  intros Hch Hr Hold Hy E. apply (old_name_at cs (b 0) bound j y (ch_nodup _ Hch) Hold); [|done..].
  intros jb. apply (store_bound_lookup _ _ _ _ _ (rt_store _ _ _ _ Hr 0 ltac:(lia))).
Qed.

Lemma page_answers cs k b v limit before :
  chain cs -> retaining cs k b v -> 1 <= limit <= 100 -> none_or before valid_history_cursor = true ->
  exists start, page_start cs before start /\
    page_answer cs (fun j => exists t, 0 <= t /\ b t = Some j) (walk_exhausted cs WALK_LIMIT (k 0) (b 0) limit start)
      limit start (history_page v scope limit before).
Proof.
  intros Hch Hr Hl Hc. destruct (page_start_exists cs before) as [start Hs]. exists start. split; [done|].
  unfold history_page, history_page_inner, history_walk.
  rewrite (proj2 (in_range_spec 1 100 limit)) by lia. cbn [negb].
  destruct (store_old _ _ _ _ (rt_store _ _ _ _ Hr 0 ltac:(lia))) as (bound & -> & Hbound). cbn [rbind].
  rewrite Hc. cbn [ensure rbind].
  destruct cs as [|x cs'] eqn:Ecs; [by pose proof (ch_len _ Hch); cbn in *; lia|]. rewrite <- Ecs in *.
  assert (Hx : cs !! O = Some x) by (by rewrite Ecs).
  assert (Hhd : head cs = Some x) by (by rewrite Ecs).
  rewrite (predecessor_head cs _ _ (later 1 v) x Hch (retaining_later _ _ _ _ 1 ltac:(lia) Hr) Hhd). cbn [rbind ok_or].
  set (B := fun j => exists t, 0 <= t /\ b t = Some j).
  assert (Hw : mkWalked (Some (i_name x)) (is_none before) [] false false = walking cs start 0 (Some (i_name x))).
  { unfold walking. rewrite entries_none by lia. f_equal.
    destruct before as [c|]; cbn in Hs |- *; [destruct Hs as [(j & y & -> & _)|[-> _]]; done|by subst start]. }
  rewrite Hw. change [] with (seen cs 0).
  pose proof (retaining_later _ _ _ _ 10 ltac:(lia) (retaining_later _ _ _ _ 1 ltac:(lia) Hr)) as Hr'.
  destruct (history_loop_page cs _ _ _ (k 0) (b 0) B limit before bound start WALK_LIMIT O x WALK_LIMIT Hch Hr')
    as [[(w & m & -> & Hp)|[Hlost [->|(w & -> & Hf)]]]|[-> Hover]]; try done; try lia.
  - intros t j Ht E. exists (1 + (10 + t)). split; [lia|done].
  - intros j y Hy E. exists 0. split; [lia|]. by eapply bound_recorded.
  - intros j E. destruct (store_bound_lookup _ _ _ _ j (rt_store _ _ _ _ Hr 0 ltac:(lia)) E) as [y Hy].
    exists y. split; [done|]. split; [|lia]. unfold old_name in Hbound. by rewrite E, Hy in Hbound.
  - intros t Ht. apply (rt_k _ _ _ _ Hr). lia.
  - destruct Hp as (Hfound & Hm & He & Hlim & Hcases). cbn [rbind]. rewrite Hfound. cbn [ensure rbind].
    assert (Hpage : forall legacy retained, w_legacy w = legacy -> w_retained w = retained ->
      is_some (w_next w) = negb legacy && negb retained && (m <? length cs)%nat ->
      Ok (mkHistory 1 scope (i_name x) (w_entries w) (is_some (w_next w))
            (if is_some (w_next w) then last_snapshot (w_entries w) else None) (w_legacy w) (w_retained w))
      = Ok (page cs start m legacy retained) :> result MasterError History).
    { intros legacy retained <- <- Hmore. unfold page. by rewrite Hhd, <- Hmore, He. }
    destruct Hcases as [(H1 & H2 & (y & Hy & Hn) & H4)|[(H1 & -> & H3 & H4)|(H1 & H2 & H3 & H4 & H5)]].
    + apply lookup_lt_Some in Hy. rewrite (Hpage false false); [|done..|].
      * apply answer_full; lia.
      * rewrite Hn. cbn. symmetry. by apply Nat.ltb_lt.
    + rewrite (Hpage _ false H4); [|done|].
      * by apply answer_rest; lia.
      * rewrite H3, Nat.ltb_irrefl. by rewrite andb_false_r.
    + rewrite (Hpage false true); [|done..|by rewrite H3]. by apply answer_bound.
  - by apply answer_lost.
  - cbn [rbind]. rewrite Hf. by apply answer_lost.
  - by apply answer_limit.
Qed.

(** * Lookups *)

(** The newest installation with the content hash, or [NotFound] when every
    installation with it is behind a recorded boundary, or [Limit] when the first
    [N] snapshots of a longer walk have other content. *)
Definition lookup_exhausted (cs : list inst) (N k : nat) (hash : string) : Prop :=
  (N < length cs)%nat /\ (N <= S k)%nat /\
  (forall j y, (j < N)%nat -> cs !! j = Some y -> content_sha256 (i_value y) <> hash).

Inductive lookup_answer (cs : list inst) (B : nat -> Prop) (over : Prop) (hash : string) : result MasterError Document -> Prop :=
| lookup_found i x : cs !! i = Some x -> content_sha256 (i_value x) = hash ->
    (forall j y, (j < i)%nat -> cs !! j = Some y -> content_sha256 (i_value y) <> hash) ->
    lookup_answer cs B over hash (Ok (i_doc x))
| lookup_lost : (forall i x, cs !! i = Some x -> content_sha256 (i_value x) = hash -> exists j, B j /\ (j < i)%nat) ->
    lookup_answer cs B over hash (Err MNotFound)
| lookup_limit : over -> lookup_answer cs B over hash (Err MLimit).

Lemma by_hash_loop_answers cs k b v K (B : nat -> Prop) hash bound fuel i N :
  chain cs -> retaining cs k b v -> (forall t j, 0 <= t -> b t = Some j -> B j) ->
  (forall j y, cs !! j = Some y -> bound = Some (i_name y) -> B j) ->
  (forall t, 0 <= t -> (k t <= K)%nat) -> (i <= S K)%nat -> (i + fuel = N)%nat -> (forall j y, (j < i)%nat -> cs !! j = Some y -> content_sha256 (i_value y) <> hash) ->
  lookup_answer cs B (lookup_exhausted cs N K hash) hash (by_hash_loop fuel v scope hash bound (seen cs i) (option_map i_name (cs !! i))).
Proof.
  intros Hch. pose proof (ch_nodup _ Hch) as Hnd. revert k b v i.
  assert (Hbeyond : forall i j, (forall j' y, (j' < i)%nat -> cs !! j' = Some y -> content_sha256 (i_value y) <> hash) ->
    B j -> (j < i)%nat -> lookup_answer cs B (lookup_exhausted cs N K hash) hash (Err MNotFound)).
  { intros i j Hno HB Hlt. apply lookup_lost. intros i' x Hx E. exists j. split; [done|].
    destruct (le_lt_dec i i'); [lia|]. by destruct (Hno i' x). }
  induction fuel as [|fuel IH]; intros k b v i Hr HB Hbd HK HiK Hf Hno.
  all: destruct (cs !! i) as [x|] eqn:Hi; cbn [option_map by_hash_loop];
    [|apply lookup_ge_None in Hi; apply lookup_lost; intros i' x Hx E; apply lookup_lt_Some in Hx as Hlt;
      destruct (Hno i' x); [lia|done..]].
  { apply lookup_lt_Some in Hi. apply lookup_limit. replace N with i by lia. split; [done|]. split; done. }
  rewrite (mem_seen_self cs i x Hnd Hi), <- (seen_S cs i x Hi). cbv zeta.
  destruct (step_retaining cs k b v i x Hch Hr Hi) as [[E Hin]|(e & j & y & E & Eb & Hj & Ey & Ec)]; rewrite E.
  2: { rewrite Ec. cbn [rbind]. apply (Hbeyond i j Hno); [|done]. apply (HB BOUNDARY_SLOT); [unfold BOUNDARY_SLOT; lia|done]. }
  destruct (linked_lookup cs i x (ch_linked _ Hch) Hi) as [[_ Hval] Hprev]. rewrite Hval. cbn [ok_or rbind].
  destruct (String.eqb_spec (content_sha256 (i_value x)) hash) as [Eh|Eh]; [by eapply lookup_found|].
  assert (Hno' : forall j y, (j < S i)%nat -> cs !! j = Some y -> content_sha256 (i_value y) <> hash).
  { intros j y Hlt Hy. destruct (decide (j = i)) as [->|]; [congruence|]. apply (Hno j); [lia|done]. }
  case_bool_decide as Ebd; [apply (Hbeyond (S i) i Hno'); [by eapply Hbd|lia]|].
  fold (previous_of x). rewrite Hprev.
  destruct (cs !! S i) as [y|] eqn:Ey.
  - rewrite <- Ey. assert (i <= K)%nat.
    { specialize (HK 0 ltac:(lia)). destruct Hin as [|Hin]; [lia|]. unfold previous_of in Hprev. by rewrite Hin in Hprev. }
    apply (IH _ _ _ (S i) (retaining_later cs k b v STEP ltac:(unfold STEP; lia) Hr)); try done; try lia.
    + intros t j Ht. apply HB. unfold STEP. lia.
    + intros t Ht. apply HK. unfold STEP. lia.
  - apply lookup_ge_None in Ey. assert (lookup_answer cs B (lookup_exhausted cs N K hash) hash (Err MNotFound)); [|by destruct fuel].
    apply lookup_lost. intros i' z Hz E'. apply lookup_lt_Some in Hz as Hlt. destruct (Hno' i' z); [lia|done..].
Qed.

Lemma lookup_answers cs k b v hash :
  chain cs -> retaining cs k b v -> hash_valid hash = true ->
  lookup_answer cs (fun j => exists t, 0 <= t /\ b t = Some j) (lookup_exhausted cs WALK_LIMIT (k 0) hash)
    hash (manifest_by_hash v scope hash).
Proof.
  intros Hch Hr Hh. unfold manifest_by_hash. rewrite Hh. cbn [ensure rbind].
  destruct (store_old _ _ _ _ (rt_store _ _ _ _ Hr 0 ltac:(lia))) as (bound & -> & Hbound). cbn [rbind].
  destruct cs as [|x cs'] eqn:Ecs; [by pose proof (ch_len _ Hch); cbn in *; lia|]. rewrite <- Ecs in *.
  rewrite (predecessor_head cs _ _ (later 1 v) x Hch (retaining_later _ _ _ _ 1 ltac:(lia) Hr)) by (by rewrite Ecs). cbn [rbind].
  replace (Some (i_name x)) with (option_map i_name (cs !! O)) by (by rewrite Ecs). change [] with (seen cs 0).
  eapply (by_hash_loop_answers cs _ _ _ (k 0) _ _ _ _ O WALK_LIMIT); [done|apply (retaining_later _ _ _ _ 11 ltac:(lia) Hr)|..].
  - intros t j Ht E. exists (11 + t). split; [lia|done].
  - intros j y Hy E. exists 0. split; [lia|]. by eapply bound_recorded.
  - intros t Ht. apply (rt_k _ _ _ _ Hr). lia.
  - lia.
  - lia.
  - intros; lia.
Qed.

(** * A retention pass *)

Lemma retention_readback `{!MasterCodecsOk} name r bytes :
  snapshot_name name = true -> retention_to_vec (mkRetention 1 name) = Some bytes ->
  retention_boundary (set_retention r (Regular bytes)) = Ok (Some name).
Proof.
  intros Hn Hb. destruct (retention_roundtrip (mkRetention 1 name)) as (bytes' & E1 & E2 & E3).
  rewrite E1 in Hb. injection Hb as ->. apply snapshot_name_len in Hn as (Hlen & Hs & Hc).
  unfold retention_boundary, set_retention. cbn [retention regular read_bounded]. unfold bounded.
  cbn in E3. specialize (E3 Hlen). destruct (Z.ltb_spec 4096 (llen bytes)); [lia|].
  rewrite E2. cbn [ok_or rbind ret_schema_version boundary]. by rewrite Hs, Hc.
Qed.

Lemma store_bounded cs k b j y r r' :
  store cs k b r -> cs !! j = Some y -> (j <= k)%nat -> retention_boundary r' = Ok (Some (i_name y)) ->
  current r' = current r -> snapshots r' = snapshots r -> store cs k (Some j) r'.
Proof.
  intros [H1 H2 H3 H4 H5] Hy Hj Hb Ec Es. constructor; rewrite ?Ec, ?Es; try done. eauto.
Qed.

(** A pass without a boundary has nothing to remove. *)
Lemma no_boundary cs k b keep :
  chain cs -> (0 < keep)%nat ->
  (forall jb x, (S jb = keep \/ b = Some jb /\ jb < keep)%nat -> cs !! jb = Some x -> i_pub x = None) ->
  exists j, (S j <= keep)%nat /\ (S j = keep \/ b = Some j) /\ bound_le (Some j) b /\ prunable cs k (S j) = [].
Proof.
  intros Hch Hk Hleg.
  assert (Hend : forall j, (S j = keep \/ b = Some j /\ j < keep)%nat -> prunable cs k (S j) = []).
  { intros j Hc. apply prunable_over. destruct (cs !! j) as [z|] eqn:Ez; [|apply lookup_ge_None in Ez; lia].
    destruct (linked_lookup cs j z (ch_linked _ Hch) Ez) as [_ Hnext]. unfold previous_of in Hnext.
    rewrite (Hleg j z Hc Ez) in Hnext. destruct (cs !! S j) eqn:Es; [done|]. by apply lookup_ge_None. }
  destruct b as [jb|]; [destruct (lt_dec jb keep) as [Hlt|Hge]|].
  - exists jb. rewrite Hend by auto. cbn. auto.
  - exists (pred keep). rewrite Hend by lia. cbn. repeat split; lia.
  - exists (pred keep). rewrite Hend by lia. cbn. repeat split; lia.
Qed.

(** Every state of a pass represents the chain; the boundary is the [keep]-th
    installation or the one recorded before, and working file operations remove
    as many of the oldest as the budget allows. *)
Lemma prune_pass `{!MasterCodecsOk} cs k b r keep budget wio io :
  chain cs -> store cs k b r -> retention_valid keep = true ->
  let '(res, trace) := prune_within r keep budget wio io in
  exists st, Forall2 (stores cs) st trace /\ descends (k, b) st /\
    Forall (fun x => x = (k, b) \/ exists j, snd x = Some j /\ (S j = Z.to_nat keep \/ b = Some j)) st /\
    Forall (others cs r) trace /\
    (wio = WriteOk -> (forall s, io s = RenameOk) -> (k < WALK_LIMIT)%nat ->
     exists j, (S j <= Z.to_nat keep)%nat /\ (S j = Z.to_nat keep \/ b = Some j) /\ bound_le (Some j) b /\
       (snd (List.last st (k, b)) = Some j \/ prunable cs k (S j) = []) /\
       res = Ok (Z.of_nat (Nat.min (Z.to_nat budget) (length (prunable cs k (S j))))) /\
       prunable cs (fst (List.last st (k, b))) (S j) = take (length (prunable cs k (S j)) - Z.to_nat budget) (prunable cs k (S j))).
Proof.
  intros Hch Hst Hk. pose proof (ch_nodup _ Hch) as Hnd. unfold prune_within. rewrite Hk. cbn [negb].
  assert (Hnil : forall P : list (nat * option nat) -> Prop, P [] ->
    exists st, Forall2 (stores cs) st [] /\ descends (k, b) st /\
      Forall (fun x => x = (k, b) \/ exists j, snd x = Some j /\ (S j = Z.to_nat keep \/ b = Some j)) st /\
      Forall (others cs r) [] /\ P st).
  { intros P HP. exists []. repeat split; [constructor..|done]. }
  destruct cs as [|x cs'] eqn:Ecs; [by pose proof (ch_len _ Hch); cbn in *; lia|]. rewrite <- Ecs in *.
  assert (Hr : retaining cs (fun _ => k) (fun _ => b) (fun _ => r)).
  { constructor; intros; [done|lia|apply bound_le_refl]. }
  rewrite (predecessor_head cs _ _ _ x Hch Hr) by (by rewrite Ecs).
  destruct (store_old _ _ _ _ Hst) as (old & -> & Hold).
  replace (Some (i_name x)) with (option_map i_name (cs !! O)) by (by rewrite Ecs). change [] with (seen cs 0) at 1.
  destruct (find_boundary_result cs k b r old (Z.to_nat keep) O Hch Hst Hold) as [[-> Hleg]|(j & y & -> & Hy & Hj & Hjb & Hwhich)];
    [intros; lia| |].
  { apply Hnil. intros _ _ _. unfold retention_valid in Hk. apply in_range_spec in Hk.
    destruct (no_boundary cs k b (Z.to_nat keep) Hch ltac:(lia)) as (j & H1 & H2 & H3 & H4); [intros jb z; apply Hleg; lia|].
    exists j. rewrite H4. cbn. rewrite Nat.min_0_r, take_nil. auto 10. }
  destruct (linked_lookup cs j y (ch_linked _ Hch) Hy) as [Hok ->].
  destruct (find_candidates_result cs k b r WALK_LIMIT (S j) Hch Hst ltac:(lia)) as [->|[-> Hover]];
    [|apply Hnil; intros _ _ Hshort; exfalso; revert Hover; clear -Hshort; lia].
  destruct (names (prunable cs k (S j))) as [|c cands] eqn:Ec.
  { apply Hnil. intros _ _ _. apply map_eq_nil in Ec. exists j. rewrite Ec. cbn. rewrite Nat.min_0_r.
    split; [lia|]. split; [exact Hwhich|]. split; [by destruct b; [apply Hjb|]|]. rewrite take_nil. auto. } rewrite <- Ec. clear c cands Ec.
  assert (Hcands : take (Z.to_nat budget) (rev (names (prunable cs k (S j)))) = names (take (Z.to_nat budget) (rev (prunable cs k (S j))))).
  { unfold names. by rewrite <- map_rev, firstn_map. }
  rewrite Hcands.
  assert (Hat : old = Some (i_name y) <-> b = Some j).
  { apply (old_name_at cs b old j y Hnd Hold); [|done]. eauto using store_bound_lookup. }
  assert (Hdone : forall r0, store cs k (Some j) r0 ->
    let '(res, trace) := remove_oldest r0 io 0 (names (take (Z.to_nat budget) (rev (prunable cs k (S j))))) in
    exists st, Forall2 (stores cs) st trace /\ descends (k, Some j) st /\
      Forall (fun x => x = (k, b) \/ exists j, snd x = Some j /\ (S j = Z.to_nat keep \/ b = Some j)) st /\
      Forall (others cs r0) trace /\
      ((forall s, io s = RenameOk) -> snd (List.last st (k, Some j)) = Some j /\
       res = Ok (Z.of_nat (Nat.min (Z.to_nat budget) (length (prunable cs k (S j))))) /\
       prunable cs (fst (List.last st (k, Some j))) (S j) = take (length (prunable cs k (S j)) - Z.to_nat budget) (prunable cs k (S j)))).
  { intros r0 Hst0. pose proof (remove_oldest_trace cs k j r0 io (Z.to_nat budget) 0 Hch Hst0) as Hrm.
    destruct (remove_oldest _ _ _ _) as [res trace]. destruct Hrm as (st & Hall & Hd & Hsnd & Hoth & Hio).
    exists st. split; [done|]. split; [done|]. split; [eapply Forall_impl; [exact Hsnd|]; intros z Hz; right; exists j; split; [exact Hz|exact Hwhich]|].
    split; [done|].
    intros Hok'. destruct (Hio Hok') as [-> E]. split; [|done].
    destruct st as [|z st] using rev_ind; [done|]. rewrite last_last. apply Forall_app in Hsnd as [_ Hz]. by inversion Hz. }
  case_bool_decide as Eold.
  - apply Hat in Eold as ->. specialize (Hdone r Hst). destruct (remove_oldest _ _ _ _) as [res trace].
    destruct Hdone as (st & H1 & H2 & H3 & Ho & H4). exists st. split; [done|]. split; [done|]. split; [done|]. split; [done|]. intros _ Hio _.
    destruct (H4 Hio) as (E1 & E2). exists j. split; [lia|]. split; [by right|]. split; [cbn; lia|]. split; [by left|exact E2].
  - assert (Hwhich' : S j = Z.to_nat keep) by (destruct Hwhich as [|Hb]; [done|by destruct Eold; apply Hat]).
    destruct (retention_roundtrip (mkRetention 1 (i_name y))) as (bytes & Eb & _). unfold write_retention. rewrite Eb.
    assert (Hst' : store cs k (Some j) (set_retention r (Regular bytes))).
    { apply (store_bounded cs k b j y r); [done|done|lia|apply retention_readback; [by apply inst_name|done]|done|done]. }
    assert (Hold' : older (k, b) (k, Some j)).
    { split; cbn; [lia|]. destruct b as [jb|]; [|done]. by apply Hjb. }
    destruct wio.
    + specialize (Hdone _ Hst'). destruct (remove_oldest _ _ _ _) as [res trace].
      destruct Hdone as (st & H1 & H2 & H3 & Ho & H4). exists ((k, Some j) :: st). split; [by constructor|]. split; [done|].
      split; [constructor; [right; eauto|done]|]. split; [by constructor|]. intros _ Hio _. destruct (H4 Hio) as (E1 & E2). exists j.
      rewrite last_cons_default. split; [lia|]. split; [by left|]. split; [apply Hold'|]. split; [by left|exact E2].
    + exists [(k, b)]. split; [constructor; [done|constructor]|]. split; [split; [split; [cbn; lia|apply bound_le_refl]|done]|].
      split; [constructor; [by left|constructor]|]. split; [by repeat constructor|done].
    + exists [(k, Some j)]. split; [constructor; [done|constructor]|]. split; [done|]. split; [constructor; [right; eauto|constructor]|]. split; [by repeat constructor|done].
Qed.

(** A reader during a pass: at time [t] it sees the state after the first [f t]
    effects. *)
Definition during (r : root) (trace : list root) (f : Z -> nat) : view :=
  fun t => List.nth (f t) (r :: trace) (List.last trace r).
Definition increasing (f : Z -> nat) : Prop := forall t t', 0 <= t <= t' -> (f t <= f t')%nat.

Lemma nth_stores cs st trace x r n :
  stores cs x r -> Forall2 (stores cs) st trace ->
  stores cs (List.nth n (x :: st) (List.last st x)) (List.nth n (r :: trace) (List.last trace r)).
Proof.
  intros Hx Hall. revert x r n Hx. induction Hall as [|y r' st trace Hy Hall IH]; intros x r n Hx.
  { by destruct n as [|[]]. }
  destruct n as [|n]; [done|]. rewrite !last_cons_default. apply (IH y r' n Hy).
Qed.

Lemma descends_older x st n m :
  descends x st -> (n <= m)%nat -> older (List.nth n (x :: st) (List.last st x)) (List.nth m (x :: st) (List.last st x)).
Proof.
  assert (Hrefl : forall y, older y y) by (intros y; split; [lia|apply bound_le_refl]).
  assert (Hhd : forall st x m, descends x st -> older x (List.nth m (x :: st) (List.last st x))).
  { clear x st n m. induction st as [|y st IH]; intros x m Hd; [by destruct m as [|[]]|].
    destruct Hd as [H1 H2]. destruct m as [|m]; [done|]. rewrite last_cons_default. eapply older_trans; [done|]. by apply IH. }
  revert x n m. induction st as [|y st IH]; intros x n m Hd Hle; [by destruct n as [|[]], m as [|[]]; try lia|].
  destruct n as [|n]; [by apply Hhd|]. destruct m as [|m]; [lia|]. destruct Hd as [_ Hd].
  rewrite last_cons_default. apply (IH y n m Hd). lia.
Qed.

Lemma retaining_during cs k b r st trace f :
  store cs k b r -> Forall2 (stores cs) st trace -> descends (k, b) st -> increasing f ->
  let at_ t := List.nth (f t) ((k, b) :: st) (List.last st (k, b)) in
  retaining cs (fun t => fst (at_ t)) (fun t => snd (at_ t)) (during r trace f).
Proof.
  intros Hst Hall Hd Hf at_. constructor.
  - intros t Ht. by apply (nth_stores cs st trace (k, b) r (f t)).
  - intros t t' Ht. apply (descends_older (k, b) st (f t) (f t') Hd). by apply Hf.
  - intros t t' Ht. apply (descends_older (k, b) st (f t) (f t') Hd). by apply Hf.
Qed.

(** The boundaries a reader may meet during a pass: the one recorded before, or
    the [keep]-th installation. *)
Definition pass_boundary (b : option nat) (keep : Z) (j : nat) : Prop := b = Some j \/ S j = Z.to_nat keep.

Lemma pass_boundaries (k : nat) b keep st n j :
  Forall (fun x : nat * option nat => x = (k, b) \/ exists j, snd x = Some j /\ (S j = Z.to_nat keep \/ b = Some j)) st ->
  snd (List.nth n ((k, b) :: st) (List.last st (k, b))) = Some j -> pass_boundary b keep j.
Proof.
  intros Hall. assert (Hin : In (List.nth n ((k, b) :: st) (List.last st (k, b))) ((k, b) :: st)).
  { destruct (lt_dec n (length ((k, b) :: st))) as [Hlt|Hge]; [by apply nth_In|].
    rewrite nth_overflow by lia. rewrite <- (last_cons_default (k, b) (k, b) st). 
    destruct (exists_last (l := (k, b) :: st)) as (l & y & E); [done|]. rewrite E, last_last. apply in_app_iff. right. by left. }
  destruct Hin as [<-|Hin]; [by left|]. rewrite Forall_forall in Hall.
  intros E. destruct (Hall _ ltac:(by apply list_elem_of_In)) as [E'|(j' & E' & Hj)].
  - left. rewrite E' in E. done.
  - rewrite E' in E. injection E as ->. destruct Hj; [by right|by left].
Qed.

Lemma page_answer_impl cs (B B' : nat -> Prop) (over over' : Prop) limit start res :
  (forall j, B j -> B' j) -> (over -> over') -> page_answer cs B over limit start res -> page_answer cs B' over' limit start res.
Proof.
  intros HB Ho [m H1 H2|H1 H2|m H1 H2 H3 H4|Hlost|Hov].
  - by apply answer_full.
  - by apply answer_rest.
  - apply answer_bound; auto.
  - apply answer_lost. destruct Hlost as [(j & Hj & Hlt)|Hlt]; [left; eauto|by right].
  - by apply answer_limit, Ho.
Qed.

Lemma lookup_answer_impl cs (B B' : nat -> Prop) (over over' : Prop) hash res :
  (forall j, B j -> B' j) -> (over -> over') -> lookup_answer cs B over hash res -> lookup_answer cs B' over' hash res.
Proof.
  intros HB Ho [i x H1 H2 H3|Hlost|Hov]; [by eapply lookup_found| |by apply lookup_limit, Ho].
  apply lookup_lost. intros i x Hx E. destruct (Hlost i x Hx E) as (j & Hj & Hlt). eauto.
Qed.

(** A walk too long during a pass is too long for the directory before it. *)
Lemma exhausted_before cs N k b x limit start :
  older (k, b) x -> walk_exhausted cs N (fst x) (snd x) limit start -> walk_exhausted cs N k b limit start.
Proof.
  intros [Hk Hb] (H1 & H2 & H3 & H4). cbn in Hk, Hb. split; [done|]. split; [lia|]. split; [|done].
  intros j ->. destruct (snd x) as [j'|]; [|done]. cbn in Hb. specialize (H3 j' eq_refl). lia.
Qed.
End store.

Section theorems.
Context `{!MasterCodecs, !MasterCodecsOk} (scope : Scope).

(** C6: A reader of a history page during a retention pass that interleaves with it in any
    way, and stops at any file operation, gets a full page of the chain from its cursor,
    the rest of the chain, or the rest down to a boundary that was recorded or is the
    keep-th installation; it gets NotFound only for a cursor that is behind such a
    boundary or was never in the chain, and Limit only when 10,000 snapshots of the
    chain are there before the end of the page, with no boundary recorded among them; it
    gets no other error. *)
Theorem history_during_retention cs k b r keep budget wio io f limit before :
  chain scope cs -> store cs k b r -> retention_valid keep = true -> increasing f -> 1 <= limit <= 100 ->
  none_or before valid_history_cursor = true ->
  let trace := snd (prune_within r keep budget wio io) in
  exists start, page_start cs before start /\
    page_answer scope cs (pass_boundary b keep) (walk_exhausted cs WALK_LIMIT k b limit start) limit start
      (history_page (during r trace f) scope limit before).
Proof.
  intros Hch Hst Hk Hf Hl Hc. pose proof (prune_pass scope cs k b r keep budget wio io Hch Hst Hk) as Hp.
  destruct (prune_within _ _ _ _ _) as [res trace]. destruct Hp as (st & Hall & Hd & Hbd & _). cbn [snd].
  destruct (page_answers scope cs _ _ _ limit before Hch (retaining_during cs k b r st trace f Hst Hall Hd Hf) Hl Hc)
    as (start & Hs & Ha).
  exists start. split; [done|]. eapply page_answer_impl; [| |exact Ha].
  - intros j (t & _ & E). by eapply pass_boundaries.
  - apply exhausted_before. by apply (descends_older (k, b) st O (f 0) Hd ltac:(lia)).
Qed.

(** A lookup by content hash during a retention pass returns the newest installation
    with that content, or NotFound when every installation with it is behind a boundary
    that was recorded or is the keep-th installation, or Limit when the newest 10,000
    snapshots of a longer chain are there and have other content. *)
Lemma lookup_during_retention cs k b r keep budget wio io f hash :
  chain scope cs -> store cs k b r -> retention_valid keep = true -> increasing f -> hash_valid hash = true ->
  let trace := snd (prune_within r keep budget wio io) in
  lookup_answer cs (pass_boundary b keep) (lookup_exhausted cs WALK_LIMIT k hash) hash (manifest_by_hash (during r trace f) scope hash).
Proof.
  intros Hch Hst Hk Hf Hh. pose proof (prune_pass scope cs k b r keep budget wio io Hch Hst Hk) as Hp.
  destruct (prune_within _ _ _ _ _) as [res trace]. destruct Hp as (st & Hall & Hd & Hbd & _). cbn [snd].
  eapply lookup_answer_impl;
    [| |exact (lookup_answers scope cs _ _ _ hash Hch (retaining_during cs k b r st trace f Hst Hall Hd Hf) Hh)].
  - intros j (t & _ & E). by eapply pass_boundaries.
  - intros (H1 & H2 & H3). destruct (descends_older (k, b) st O (f 0) Hd ltac:(lia)) as [Hle _].
    split; [done|]. split; [|done]. etransitivity; [exact H2|]. apply le_n_S, Hle.
Qed.

(** Passes one after the other, with working file operations. *)
Fixpoint passes (n : nat) (r : root) (keep budget : Z) : root :=
  match n with
  | O => r
  | S n => passes n (List.last (snd (prune_within r keep budget WriteOk (fun _ => RenameOk))) r) keep budget
  end.

Lemma Forall2_last cs st trace x r :
  stores cs x r -> Forall2 (stores cs) st trace -> stores cs (List.last st x) (List.last trace r).
Proof.
  intros Hx Hall. revert x r Hx. induction Hall as [|y r' st trace Hy Hall IH]; intros x r Hx; [done|].
  rewrite !last_cons_default. by apply IH.
Qed.

Lemma prunable_none_absent cs k b r j i x :
  store cs k b r -> prunable cs k (S j) = [] -> cs !! i = Some x -> (j < i)%nat -> is_some (i_pub x) = true ->
  snapshots r !! i_name x = None.
Proof.
  intros Hst Hp Hx Hlt Hpub. destruct (le_lt_dec i k) as [Hle|Hgt]; [exfalso|by eapply st_absent].
  assert (In x (prunable cs k (S j))) as Hin; [|by rewrite Hp in Hin].
  apply filter_In. split; [|done]. apply list_elem_of_In, list_elem_of_lookup. exists (i - S j)%nat.
  rewrite lookup_drop. apply lookup_take_Some. split; [|lia]. by replace (S j + (i - S j))%nat with i by lia.
Qed.

(** The index of the boundary a pass works with. *)
Definition kept_to (b : option nat) (keep : Z) : nat :=
  match b with Some jb => Nat.min jb (pred (Z.to_nat keep)) | None => pred (Z.to_nat keep) end.

Lemma kept_to_present cs k b r keep i x :
  store cs k b r -> (i <= kept_to b keep)%nat -> cs !! i = Some x -> snapshots r !! i_name x = Some (Dir (i_dir x)).
Proof.
  intros Hst Hi Hx. apply (store_here cs k b r i x Hst Hx), (store_window cs k b r i x Hst Hx).
  intros jb ->. cbn in Hi. lia.
Qed.

Lemma kept_to_unique b keep j :
  (S j <= Z.to_nat keep)%nat -> (S j = Z.to_nat keep \/ b = Some j) -> bound_le (Some j) b -> j = kept_to b keep.
Proof. unfold kept_to. destruct b as [jb|]; cbn; intros H1 [H2|H2] H3; simplify_eq; lia. Qed.

Lemma kept_to_pass b b' keep :
  retention_valid keep = true -> bound_le b' b -> b' = b \/ (exists j, b' = Some j /\ (S j = Z.to_nat keep \/ b = Some j)) ->
  kept_to b' keep = kept_to b keep.
Proof.
  intros Hk Hb [->|(j & -> & [E| ->])]; [done| |done].
  destruct b as [jb|]; cbn in *; [|by rewrite <- E; cbn; lia]. rewrite <- E. cbn. lia.
Qed.

Lemma descends_In x st y : descends x st -> In y st -> older x y.
Proof.
  revert x. induction st as [|z st IH]; intros x Hd; [done|]. destruct Hd as [H1 H2]. intros [<-|Hin]; [done|].
  eapply older_trans; [done|]. by apply IH.
Qed.

(** Every state of a pass keeps the window. *)
Lemma pass_states cs k b r keep budget wio io :
  chain scope cs -> store cs k b r -> retention_valid keep = true ->
  Forall (fun r' => exists k' b', store cs k' b' r' /\ (k' <= k)%nat /\ kept_to b' keep = kept_to b keep /\ bound_le b' b /\ others cs r r')
    (snd (prune_within r keep budget wio io)).
Proof.
  intros Hch Hst Hk. pose proof (prune_pass scope cs k b r keep budget wio io Hch Hst Hk) as Hp.
  destruct (prune_within _ _ _ _ _) as [res trace]. destruct Hp as (st & Hall & Hd & Hbd & Hoth & _). cbn [snd].
  apply Forall_forall. intros r' Hr'. apply list_elem_of_lookup in Hr' as [n Hn].
  destruct (Forall2_lookup_r _ _ _ _ _ Hall Hn) as ([k' b'] & Hst' & Hs).
  assert (Hin : In (k', b') st) by (by apply list_elem_of_In, list_elem_of_lookup_2 with n).
  destruct (descends_In _ _ _ Hd Hin) as [H1 H2]. exists k', b'. split; [done|]. split; [done|].
  split; [|split; [done|by apply (proj1 (Forall_lookup _ _) Hoth n)]].
  apply kept_to_pass; [done|done|]. rewrite Forall_forall in Hbd.
  destruct (Hbd _ ltac:(by apply list_elem_of_In)) as [E|(j & E & Hj)]; [injection E as -> ->; by left|right; eauto].
Qed.

Lemma pass_progress cs k b r keep budget :
  chain scope cs -> store cs k b r -> retention_valid keep = true -> 1 <= budget -> (k < WALK_LIMIT)%nat ->
  let j := kept_to b keep in
  exists k' b', store cs k' b' (passes 1 r keep budget) /\ (k' <= k)%nat /\ kept_to b' keep = j /\
    (length (prunable cs k' (S j)) <= length (prunable cs k (S j)) - 1)%nat.
Proof.
  intros Hch Hst Hk Hb Hshort j. pose proof (prune_pass scope cs k b r keep budget WriteOk (fun _ => RenameOk) Hch Hst Hk) as Hp.
  cbn [passes]. destruct (prune_within _ _ _ _ _) as [res trace]. destruct Hp as (st & Hall & Hd & Hbd & _ & Hlive). cbn [snd].
  pose proof (Forall2_last cs st trace (k, b) r Hst Hall) as Hlast.
  destruct (Hlive eq_refl (fun _ => eq_refl) Hshort) as (j' & H1 & H2 & H3 & _ & _ & H6).
  pose proof (kept_to_unique b keep j' H1 H2 H3) as ->. fold j in H6.
  exists (fst (List.last st (k, b))), (snd (List.last st (k, b))). split; [done|].
  assert (Hcase : List.last st (k, b) = (k, b) \/ In (List.last st (k, b)) st).
  { destruct st as [|y st] using rev_ind; [by left|right]. rewrite last_last. apply in_app_iff. right. by left. }
  assert (Hold : older (k, b) (List.last st (k, b))).
  { destruct Hcase as [->|Hin]; [split; [lia|apply bound_le_refl]|by eapply descends_In]. }
  split; [apply Hold|]. split.
  - apply kept_to_pass; [done|apply Hold|]. rewrite Forall_forall in Hbd. destruct Hcase as [->|Hin]; [by left|].
    destruct (Hbd _ ltac:(by apply list_elem_of_In)) as [->|(j0 & E & Hj)]; [by left|right; eauto].
  - rewrite H6, length_take. lia.
Qed.

Lemma passes_S n r keep budget : passes (S n) r keep budget = passes n (passes 1 r keep budget) keep budget.
Proof. done. Qed.

Lemma passes_progress cs k b r keep budget n :
  chain scope cs -> store cs k b r -> retention_valid keep = true -> 1 <= budget -> (k < WALK_LIMIT)%nat ->
  let j := kept_to b keep in
  exists k' b', store cs k' b' (passes n r keep budget) /\ (k' <= k)%nat /\ kept_to b' keep = j /\
    (length (prunable cs k' (S j)) <= length (prunable cs k (S j)) - n)%nat.
Proof.
  intros Hch Hst Hk Hb. revert k b r Hst. induction n as [|n IH]; intros k b r Hst Hshort j.
  { exists k, b. split; [done|]. split; [lia|]. split; [done|]. lia. }
  rewrite passes_S. destruct (pass_progress cs k b r keep budget Hch Hst Hk Hb Hshort) as (k1 & b1 & H1 & H2 & H3 & H4).
  destruct (IH k1 b1 _ H1 ltac:(lia)) as (k2 & b2 & H5 & H6 & H7 & H8). rewrite H3 in *.
  exists k2, b2. split; [done|]. split; [lia|]. split; [done|]. unfold j. lia.
Qed.

(** C19: Every directory a retention pass leaves, whichever file operation fails, has the
    same CURRENT, every directory that is no committed snapshot, every snapshot of the
    retained window and every legacy snapshot untouched, and is again a store of the
    same chain with a boundary that never moves back. *)
Theorem retention_keeps_window cs k b r keep budget wio io r' :
  chain scope cs -> store cs k b r -> retention_valid keep = true -> In r' (snd (prune_within r keep budget wio io)) ->
  current r' = current r /\ others cs r r' /\
  (forall i x, cs !! i = Some x -> (i <= kept_to b keep)%nat \/ i_pub x = None -> snapshots r' !! i_name x = Some (Dir (i_dir x))) /\
  exists k' b', store cs k' b' r' /\ (k' <= k)%nat /\ bound_le b' b.
Proof.
  intros Hch Hst Hk Hr'. destruct (proj1 (Forall_forall _ _) (pass_states cs k b r keep budget wio io Hch Hst Hk) r') as (k' & b' & H1 & H2 & H3 & H4 & H5);
    [by apply list_elem_of_In|].
  split; [destruct (st_current _ _ _ _ Hst) as (x & Hx & ->), (st_current _ _ _ _ H1) as (y & Hy & ->); congruence|].
  split; [done|]. split; [|by exists k', b'].
  intros i x Hx [Hi|Hp]; [eapply kept_to_present; [done| |done]; by rewrite H3|by eapply store_here; [..|right]].
Qed.

(** After as many passes with a positive budget as the chain has snapshots, exactly the
    snapshots of the retained window and the legacy snapshots are left, when at most
    10,000 snapshots were there. *)
Lemma retention_converges cs k b r keep budget n i x :
  chain scope cs -> store cs k b r -> retention_valid keep = true -> 1 <= budget -> (k < WALK_LIMIT)%nat ->
  (length cs <= n)%nat -> cs !! i = Some x ->
  snapshots (passes n r keep budget) !! i_name x =
    if (i <=? kept_to b keep)%nat || is_none (i_pub x) then Some (Dir (i_dir x)) else None.
Proof.
  intros Hch Hst Hk Hb Hshort Hn Hx.
  destruct (passes_progress cs k b r keep budget n Hch Hst Hk Hb Hshort) as (k' & b' & H1 & H2 & H3 & H4).
  assert (Hlen : (length (prunable cs k (S (kept_to b keep))) <= length cs)%nat).
  { unfold prunable. etransitivity; [apply filter_length_le|]. rewrite length_drop, length_take. lia. }
  assert (Hnil : prunable cs k' (S (kept_to b keep)) = []) by (destruct (prunable _ _ _); [done|cbn in *; lia]).
  destruct (Nat.leb_spec i (kept_to b keep)) as [Hle|Hgt]; cbn [orb].
  - eapply kept_to_present; [done| |done]. by rewrite H3.
  - destruct (i_pub x) as [p|] eqn:Ep; cbn [is_none].
    + by eapply prunable_none_absent; [..|by rewrite Ep].
    + by eapply store_here; [..|right].
Qed.
End theorems.
