(* ===== verification/MasterImport.v ===== *)
(** Writing Master snapshots ([master.rs], second part): the staging directory
    of an import or of a registry transfer, and its publication.

    The writer holds the writer lock, so it is the only one to change the
    directory.  The outcome of every file operation is an argument; the random
    part of a snapshot name and the time are arguments too. *)
From Stdlib Require Import ZArith Lia Ascii String List Bool Sorted Permutation.
From stdpp Require Import base list strings decidable gmap.
From S2P Require Import Prelude BTree Errors Regions Versions Http MasterFiles MasterRegistry MasterHistory MasterChain.

Local Open Scope Z_scope.
Local Open Scope rust_scope.

(** Whether each write or sync of staging succeeds, by the name of its file. *)
Definition staging_io : Type := string -> option IoKind.

Section import.
Context `{MasterCodecs}.

Definition write_synced (io : staging_io) (staging : files) (name : string) (bytes : list Z) : result MasterError files :=
  match io name with
  | Some k => Err (MIo k)
  | None => Ok (<[name := Regular bytes]> staging)
  end.

Record PreparedImport : Type := { staging : files; receipt : ImportReceipt }.

Fixpoint stage_tables (input : files) (io : staging_io) (decoder : MasterDecoder) (staged : files) (total : Z) (es : list Entry)
  : result MasterError (files * Z * list File) :=
  match es with
  | [] => Ok (staged, total, [])
  | e :: es =>
      bytes <-? read_bounded (input !! e_name e) MAX_ENCRYPTED;;
      json <-? decode decoder e bytes;;
      let total := total + llen json in
      if MAX_TOTAL <? total then Err MLimit
      else
        staged <-? write_synced io staged (table_name e) json;;
        x <-? stage_tables input io decoder staged total es;;
        let '(staged, total, fs) := x in
        Ok (staged, total, file (table_name e) json :: fs)
  end.

(** Synchronising the staging directory is the write of its empty name. *)
Definition sync_staging (io : staging_io) : result MasterError unit :=
  match io ""%string with Some k => Err (MIo k) | None => Ok tt end.

Definition snapshot_id (simple : string) : string := ("master-" ++ simple)%string.

Definition prepare_directory (input : files) (io : staging_io) (decoder : MasterDecoder) (source : string)
    (resource_version : option string) (region : Region) (simple : string) : result MasterError PreparedImport :=
  guard? negb (negb (master_supported region) || some_and resource_version (fun v => negb (safe_version v))) else MFormat;;
  manifest_bytes <-? read_bounded (input !! "MasterManifest.json"%string) MAX_MANIFEST;;
  manifest <-? parse manifest_bytes;;
  _ <-? match io "."%string with Some k => Err (MIo k) | None => Ok tt end;;
  x <-? stage_tables input io decoder ∅ 0 (m_files manifest);;
  let '(staged, total, indexed_files) := x in
  let index := mkInventory 1 (m_version manifest) (sort_by f_name indexed_files) in
  _ <-? inventory_validate index manifest;;
  index_bytes <-? ok_or (inventory_to_vec index) MFormat;;
  staged <-? write_synced io staged "tables.json" index_bytes;;
  staged <-? write_synced io staged "MasterManifest.json" manifest_bytes;;
  let receipt := mkReceipt (m_version manifest) (snapshot_id simple) (Z.of_nat (length (m_files manifest))) total source region
                   resource_version in
  receipt_bytes <-? ok_or (receipt_to_vec receipt) MFormat;;
  staged <-? write_synced io staged "receipt.json" receipt_bytes;;
  _ <-? sync_staging io;;
  Ok {| staging := staged; receipt := receipt |}.

(** The checks of [prepare_registry] over the downloaded tables. *)
Fixpoint check_tables (staged : files) (io : staging_io) (total : Z) (fs : list File) : result MasterError Z :=
  match fs with
  | [] => Ok total
  | f :: fs =>
      _ <-? match staged !! f_name f with
            | None => Err (MIo IoNotFound)
            | Some Hidden => Err (MIo IoOther)
            | Some (Link _) | Some (Special _) => Err MFormat
            | Some (Regular _) | Some (Denied _) => Ok tt
            end;;
      bytes <-? read_bounded (staged !! f_name f) (f_size f);;
      guard? negb (negb (llen bytes =? f_size f) || negb (String.eqb (digest bytes) (f_sha256 f))) else MIntegrity;;
      _ <-? validate_json bytes;;
      _ <-? match io (f_name f) with Some k => Err (MIo k) | None => Ok tt end;;
      check_tables staged io (total + f_size f) fs
  end.

Definition prepare_registry (staged : files) (io : staging_io) (manifest : PublishedManifest) (simple : string)
  : result MasterError PreparedImport :=
  _ <-? published_validate manifest (p_scope manifest);;
  total <-? check_tables staged io 0 (p_files manifest);;
  index_bytes <-? ok_or (inventory_to_vec (mkInventory 1 (p_version manifest) (p_files manifest))) MFormat;;
  staged <-? write_synced io staged "tables.json" index_bytes;;
  manifest_bytes <-? ok_or (manifest_to_vec (source_manifest manifest)) MFormat;;
  staged <-? write_synced io staged "MasterManifest.json" manifest_bytes;;
  let receipt := mkReceipt (p_version manifest) (snapshot_id simple) (Z.of_nat (length (p_files manifest))) total "registry"
                   (region (p_scope manifest)) (p_resource_version manifest) in
  receipt_bytes <-? ok_or (receipt_to_vec receipt) MFormat;;
  staged <-? write_synced io staged "receipt.json" receipt_bytes;;
  _ <-? sync_staging io;;
  Ok {| staging := staged; receipt := receipt |}.

(** Where a publication fails: before the rename, in it, in the sync after it,
    before [CURRENT] is replaced, in the sync after that, or nowhere. *)
Inductive PublishIo : Type := PublishOk | PublishStaging | PublishRename | PublishUnsynced | PublishPointer | PublishPointerUnsynced.

(** [publish]: the result and the directory after each effect.  A name that is
    already taken makes the rename fail. *)
Definition publish (p : PreparedImport) (r : root) (now : Z) (io : PublishIo) : result MasterError ImportReceipt * list root :=
  let v : view := fun _ => r in
  let snapshot := r_snapshot (receipt p) in
  let failed := (Err (MIo IoOther) : result MasterError ImportReceipt) in
  match predecessor v with
  | Err e => (Err e, [])
  | Ok previous =>
      match match previous with
            | Some s => region <-? snapshot_region v s;;
                        if bool_decide (region = r_region (receipt p)) then Ok tt else Err MFormat
            | None => Ok tt
            end with
      | Err e => (Err e, [])
      | Ok _ =>
          match publication_to_vec (mkPublication 1 snapshot previous now) with
          | None => (Err MFormat, [])
          | Some bytes =>
              let dir := <["publication.json"%string := Regular bytes]> (staging p) in
              let r1 := set_snapshots r (<[snapshot := Dir dir]> (snapshots r)) in
              let r2 := set_current r1 (Regular (bytes_of snapshot)) in
              match io, snapshots r !! snapshot with
              | PublishStaging, _ | PublishRename, _ | _, Some _ => (failed, [])
              | PublishUnsynced, None | PublishPointer, None => (failed, [r1])
              | PublishPointerUnsynced, None => (failed, [r1; r2])
              | PublishOk, None => (Ok (receipt p), [r1; r2])
              end
          end
      end
  end.

(** [import_directory_for_region]; the writer lock is held or busy. *)
Definition import_directory_for_region (locked : bool) (input : files) (r : root) (io : staging_io) (pio : PublishIo)
    (decoder : MasterDecoder) (resource_version : option string) (region : Region) (simple : string) (now : Z)
  : result MasterError ImportReceipt * list root :=
  if negb (master_supported region) then (Err MFormat, [])
  else if negb locked then (Err MBusy, [])
  else match prepare_directory input io decoder "local-import" resource_version region simple with
       | Err e => (Err e, [])
       | Ok p => publish p r now pio
       end.
End import.

(** * Complete snapshots *)
Section complete.
Context `{!MasterCodecs, !MasterCodecsOk}.

(** A staging directory whose files agree: the manifest, the receipt, an index
    of the manifest's tables, and the tables the index describes. *)
Record complete (staged : files) (rc : ImportReceipt) (m : Manifest) (index : Inventory) : Prop := {
  cp_manifest : exists b, staged !! "MasterManifest.json"%string = Some (Regular b) /\ parse b = Ok m;
  cp_receipt : exists b, staged !! "receipt.json"%string = Some (Regular b) /\ llen b <= 4096 /\
                 value_from_slice b = Some (receipt_value rc);
  cp_index : exists b, staged !! "tables.json"%string = Some (Regular b) /\ llen b <= MAX_INDEX /\
               inventory_from_slice b = Some index;
  cp_valid : inventory_validate index m = Ok tt;
  cp_tables : Forall (fun f => exists b, staged !! f_name f = Some (Regular b) /\ f = file (f_name f) b /\ json_valid b = true)
                (i_files index);
  cp_version : r_version rc = m_version m;
  cp_count : r_tables rc = Z.of_nat (length (m_files m));
  cp_source : known_source (Some (r_source rc)) = true;
  cp_region : master_supported (r_region rc) = true;
  cp_resource : none_or (r_resource_version rc) safe_version = true;
  cp_name : snapshot_name (r_snapshot rc) = true;
}.

Lemma known_source_len s : known_source (Some s) = true -> len s <= 16.
Proof.
  unfold known_source. cbn [some_and]. rewrite !orb_true_iff, !String.eqb_eq.
  intros [[-> | ->]| ->]; vm_compute; discriminate.
Qed.

Lemma recorded_region_value rc : master_supported (r_region rc) = true -> recorded_region (receipt_value rc) = Ok (r_region rc).
Proof.
  intros Hs. unfold recorded_region, receipt_value. cbn.
  destruct (r_region rc); cbn in *; done.
Qed.

Lemma recorded_resource_value rc :
  none_or (r_resource_version rc) safe_version = true -> recorded_resource_version (receipt_value rc) = Ok (r_resource_version rc).
Proof.
  intros Hs. unfold recorded_resource_version, receipt_value.
  destruct (r_resource_version rc) as [v|]; cbn in *; [by rewrite Hs|done].
Qed.

(** Reading a complete directory back, whatever else is written into it. *)
Lemma complete_source staged rc m index dir :
  complete staged rc m index -> (forall n, n <> "publication.json"%string -> dir !! n = staged !! n) ->
  source_with_provenance (fun _ => pure (r_snapshot rc) dir) (r_snapshot rc) = Ok (m, r_resource_version rc, r_region rc).
Proof.
  intros Hc Hd. unfold source_with_provenance. rewrite !dir_node_pure, !Hd by done.
  destruct (cp_manifest _ _ _ _ Hc) as (mb & -> & Hp), (cp_receipt _ _ _ _ Hc) as (rb & -> & Hl & Hv).
  pose proof (parse_ok _ _ Hp) as (_ & Hcm & Hml). cbn [regular read_bounded]. unfold bounded.
  destruct (Z.ltb_spec MAX_MANIFEST (llen mb)); [lia|]. cbn [rbind]. rewrite Hp. cbn [rbind].
  destruct (Z.ltb_spec 4096 (llen rb)); [lia|]. cbn [rbind]. rewrite Hv. cbn [ok_or rbind].
  assert (receipt_str (receipt_value rc) "version" = Some (m_version m)) as -> by (rewrite <- (cp_version _ _ _ _ Hc); done).
  assert (receipt_str (receipt_value rc) "snapshot" = Some (r_snapshot rc)) as -> by done.
  assert (receipt_u64 (receipt_value rc) "tables" = Some (Z.of_nat (length (m_files m)))) as ->.
  { pose proof (mo_count _ (check_manifest_ok _ Hcm)) as Hcount. unfold receipt_u64. cbn. rewrite (cp_count _ _ _ _ Hc).
    assert (in_range 0 U64_MAX (Z.of_nat (length (m_files m))) = true) as ->; [|done].
    apply in_range_spec. unfold U64_MAX. lia. }
  assert (receipt_str (receipt_value rc) "source" = Some (r_source rc)) as -> by done.
  rewrite (cp_source _ _ _ _ Hc), !bool_decide_eq_true_2 by done. cbn [negb orb ensure rbind].
  rewrite (recorded_resource_value rc (cp_resource _ _ _ _ Hc)), (recorded_region_value rc (cp_region _ _ _ _ Hc)). done.
Qed.

Lemma complete_inventory staged rc m m' index dir :
  complete staged rc m index -> (forall n, n <> "publication.json"%string -> dir !! n = staged !! n) ->
  m_version m' = m_version m -> m_files m' ≡ₚ m_files m ->
  inventory (fun _ => pure (r_snapshot rc) dir) (r_snapshot rc) m' = Ok index.
Proof.
  intros Hc Hd Hv Hp. unfold inventory. rewrite !dir_node_pure, !Hd by done.
  destruct (cp_index _ _ _ _ Hc) as (ib & -> & Hl & Hi). cbn [stat regular read_bounded]. unfold bounded.
  destruct (Z.ltb_spec MAX_INDEX (llen ib)); [lia|]. cbn [rbind]. rewrite Hi. cbn [ok_or rbind].
  pose proof (cp_valid _ _ _ _ Hc) as Hval. destruct m as [v es], m' as [v' es']. cbn in Hv, Hp. subst v'.
  by rewrite (inventory_validate_perm _ _ _ _ Hp), Hval.
Qed.

Definition content_of (scope : Scope) (m : Manifest) (fs : list File) : string :=
  match content_hash scope m fs with Ok h => h | Err _ => "" end.
Lemma content_hash_ok scope m fs : content_hash scope m fs = Ok (content_of scope m fs).
Proof.
  unfold content_of, content_hash. pose proof (content_encodes scope m fs) as E. by destruct (content_to_vec _ _ _).
Qed.

(** The manifest a complete snapshot is published with. *)
Definition published_of (scope : Scope) (rc : ImportReceipt) (m : Manifest) (index : Inventory) : PublishedManifest :=
  mkPublished 1 scope (r_snapshot rc) (m_version m) (r_resource_version rc)
    (content_of scope (sort_source m) (i_files index)) (i_files index) (sort_source m).

Lemma complete_manifest_doc staged rc m index dir scope :
  complete staged rc m index -> (forall n, n <> "publication.json"%string -> dir !! n = staged !! n) ->
  region scope = r_region rc -> environment_ok (environment scope) = true ->
  exists doc, manifest (fun _ => pure (r_snapshot rc) dir) (Some (r_snapshot rc)) scope = Ok doc /\
    published_from_slice (d_bytes doc) = Some (published_of scope rc m index) /\ d_version doc = m_version m.
Proof.
  intros Hc Hd Hr He. unfold manifest. rewrite Hr, He, (cp_region _ _ _ _ Hc). cbn [negb orb ensure rbind].
  unfold snapshot_directory. rewrite (cp_name _ _ _ _ Hc). cbn [negb pure snapshots]. rewrite lookup_singleton_eq. cbn [rbind].
  change (later 3 (fun _ : Z => ?r)) with (fun _ : Z => r). change (later 5 (fun _ : Z => ?r)) with (fun _ : Z => r).
  fold (pure (r_snapshot rc) dir). rewrite (complete_source staged rc m index dir Hc Hd). cbn [rbind].
  rewrite bool_decide_eq_true_2 by done. cbn [ensure rbind].
  rewrite (complete_inventory staged rc m (sort_source m) index dir Hc Hd) by (done || apply sort_by_perm). cbn [rbind].
  rewrite content_hash_ok. cbn [rbind]. change (mkPublished _ _ _ _ _ _ _ _) with (published_of scope rc m index).
  destruct (published_roundtrip (published_of scope rc m index)) as (b & -> & Hb). cbn. eauto.
Qed.

Lemma complete_stem staged rc m index f :
  complete staged rc m index -> In f (i_files index) ->
  exists e stem, In e (m_files m) /\ e_name e = (stem ++ ".bin")%string /\ f_name f = (stem ++ ".json")%string /\ stem_ok stem.
Proof.
  intros Hc Hf. destruct (cp_manifest _ _ _ _ Hc) as (mb & _ & Hp). apply parse_ok in Hp as (_ & Hcm & _).
  apply check_manifest_ok in Hcm. destruct (inventory_validate_ok _ _ (cp_valid _ _ _ _ Hc)) as (_ & _ & Hn & _).
  assert (Hin : In (f_name f) (map table_name (m_files m))).
  { apply (in_map f_name) in Hf. rewrite Hn in Hf. by rewrite (sort_by_perm id) in Hf. }
  apply in_map_iff in Hin as (e & E & He). exists e.
  pose proof (mo_entries _ Hcm) as Hes. rewrite Forall_forall in Hes.
  destruct (table_name_stem e (Hes e ltac:(by apply list_elem_of_In))) as (stem & E1 & E2 & Hs). exists stem.
  split; [done|]. split; [done|]. split; [congruence|done].
Qed.

Lemma complete_not_publication staged rc m index f :
  complete staged rc m index -> In f (i_files index) -> f_name f <> "publication.json"%string.
Proof.
  intros Hc Hf. destruct (complete_stem staged rc m index f Hc Hf) as (e & stem & _ & _ & -> & _ & Hs & _).
  intros E. apply (append_inj_r stem "publication") in E. subst. by vm_compute in Hs.
Qed.

(** Every indexed table of a complete snapshot is read back with its digest. *)
Lemma complete_table staged rc m index dir f stem validate :
  complete staged rc m index -> (forall n, n <> "publication.json"%string -> dir !! n = staged !! n) ->
  In f (i_files index) -> f_name f = (stem ++ ".json")%string ->
  exists b, dir !! f_name f = Some (Regular b) /\ digest b = f_sha256 f /\
    table_read (fun _ => pure (r_snapshot rc) dir) (r_region rc) (r_snapshot rc) stem (f_sha256 f) validate
      = Ok (mkDocument b (quoted (f_sha256 f)) (m_version m)).
Proof.
  intros Hc Hd Hf Hn. destruct (complete_stem staged rc m index f Hc Hf) as (e & stem' & He & E1 & E2 & _ & _ & Hsafe).
  assert (stem' = stem) as -> by (apply (append_inj_r stem' stem ".json"); congruence).
  pose proof (cp_tables _ _ _ _ Hc) as Ht. rewrite Forall_forall in Ht.
  destruct (Ht f ltac:(by apply list_elem_of_In)) as (b & Hb & Efile & Hj).
  destruct (inventory_validate_ok _ _ (cp_valid _ _ _ _ Hc)) as (_ & _ & _ & Hfs & _). rewrite Forall_forall in Hfs.
  destruct (Hfs f ltac:(by apply list_elem_of_In)) as [Hsize Hhash].
  assert (Hsz : f_size f = llen b /\ f_sha256 f = digest b) by (rewrite Efile; done). destruct Hsz as [Hsz Hsha].
  assert (Hdir : dir !! f_name f = Some (Regular b)) by (rewrite Hd; [done|by eapply complete_not_publication]).
  exists b. split; [done|]. split; [done|]. unfold table_read. rewrite Hsafe, Hhash. cbn [negb orb].
  unfold snapshot_directory. rewrite (cp_name _ _ _ _ Hc). cbn [negb pure snapshots]. rewrite lookup_singleton_eq. cbn [rbind].
  change (later 1 (fun _ : Z => ?r)) with (fun _ : Z => r). change (later 4 (fun _ : Z => ?r)) with (fun _ : Z => r).
  fold (pure (r_snapshot rc) dir). unfold source. rewrite (complete_source staged rc m index dir Hc Hd). cbn [rbind].
  rewrite bool_decide_eq_true_2 by done. cbn [rbind].
  assert (existsb (fun e => String.eqb (e_name e) (stem ++ ".bin")) (m_files m) = true) as ->.
  { apply existsb_exists. exists e. split; [done|]. by apply String.eqb_eq. }
  cbn [ensure rbind]. rewrite dir_node_pure, <- Hn, Hdir. cbn [regular read_bounded]. unfold bounded.
  assert (0 <= llen b) by (unfold llen; lia). destruct (Z.ltb_spec MAX_JSON (llen b)); [lia|]. cbn [rbind].
  rewrite Hsha, String.eqb_refl. cbn [ensure rbind].
  assert (verify_indexed_digest (fun _ => pure (r_snapshot rc) dir) (r_snapshot rc) m stem (llen b) (digest b) = Ok true) as ->.
  { unfold verify_indexed_digest. rewrite !dir_node_pure, !Hd by done.
    destruct (cp_index _ _ _ _ Hc) as (ib & -> & Hl & Hi). cbn [stat regular read_bounded]. unfold bounded.
    destruct (Z.ltb_spec MAX_INDEX (llen ib)); [lia|]. cbn [rbind]. rewrite Hi. cbn [ok_or rbind].
    rewrite (cp_valid _ _ _ _ Hc). cbn [rbind].
    destruct (List.find _ _) as [f'|] eqn:Ef.
    - apply find_some in Ef as [Hf' En]. apply String.eqb_eq in En.
      destruct (Ht f' ltac:(by apply list_elem_of_In)) as (b' & Hb' & Efile' & _).
      assert (b' = b) as -> by (rewrite En, <- Hn in Hb'; congruence).
      cbn [ok_or rbind]. rewrite Efile'. cbn [f_size f_sha256 file]. by rewrite Z.eqb_refl, String.eqb_refl.
    - exfalso. pose proof (find_none _ _ Ef f Hf) as Hno. cbn in Hno. by rewrite Hn, String.eqb_refl in Hno. }
  cbn [rbind]. unfold validate_json. rewrite Hj. by destruct (validate || negb true).
Qed.

(** * Imports *)

Lemma write_synced_ok io staged name bytes staged' :
  write_synced io staged name bytes = Ok staged' -> staged' = <[name := Regular bytes]> staged.
Proof. unfold write_synced. by destruct (io name); [|intros [= <-]]. Qed.

Lemma decode_valid d e data json : decode d e data = Ok json -> json_valid json = true.
Proof.
  unfold decode. intros Hd. repeat match type of Hd with (if ?c then _ else _) = _ => destruct c; [done|] end. inv_ok.
  match type of Hd with (if ?c then _ else _) = _ => destruct c; [done|] end. unfold validate_json in Hd. inv_ok. by subst.
Qed.

(** The table of an entry, as the input holds it. *)
Definition decoded (input : files) (decoder : MasterDecoder) (e : Entry) (json : list Z) : Prop :=
  exists data, read_bounded (input !! e_name e) MAX_ENCRYPTED = Ok data /\ decode decoder e data = Ok json.

Lemma stage_tables_ok input io decoder staged total es staged' total' fs :
  stage_tables input io decoder staged total es = Ok (staged', total', fs) -> NoDup (map table_name es) ->
  Forall2 (fun e f => exists json, decoded input decoder e json /\ f = file (table_name e) json /\
             staged' !! table_name e = Some (Regular json)) es fs /\
  (forall n, ~ In n (map table_name es) -> staged' !! n = staged !! n).
Proof.
  revert staged total staged' total' fs. induction es as [|e es IH]; intros staged total staged' total' fs; cbn [stage_tables].
  { intros [= <- <- <-] _. split; [constructor|done]. }
  intros Hs Hn. cbn in Hn. apply NoDup_cons in Hn as [Hne Hn]. rewrite list_elem_of_In in Hne.
  apply rbind_ok in Hs as (data & Hr & Hs). apply rbind_ok in Hs as (json & Hd & Hs).
  destruct (MAX_TOTAL <? total + llen json); [done|].
  apply rbind_ok in Hs as (staged1 & Hw & Hs). apply write_synced_ok in Hw as ->.
  apply rbind_ok in Hs as ([[s2 t2] fs2] & Hs & [= <- <- <-]).
  destruct (IH _ _ _ _ _ Hs Hn) as [H1 H2]. split.
  - constructor; [|done]. exists json. split; [by exists data|]. split; [done|]. rewrite H2 by done. apply lookup_insert_eq.
  - intros n Hout. cbn in Hout. rewrite H2 by tauto. apply lookup_insert_ne. tauto.
Qed.

Lemma hash_valid_len h : hash_valid h = true -> len h = 64.
Proof. unfold hash_valid. intros Hh. bool_prop. done. Qed.

Lemma safe_component_len s : safe_component s = true -> len s <= 128.
Proof. unfold safe_component. intros Hs. bool_prop. done. Qed.

Lemma len_append a b : len (a ++ b) = len a + len b.
Proof. unfold len. rewrite append_length. lia. Qed.

(** The index of a checked manifest fits its bound. *)
Lemma index_fits index m b :
  check_manifest m = Ok tt -> inventory_validate index m = Ok tt -> Forall (fun f => 0 <= f_size f) (i_files index) ->
  inventory_to_vec index = Some b -> llen b <= MAX_INDEX /\ inventory_from_slice b = Some index.
Proof.
  intros Hm Hv Hpos Hb. apply check_manifest_ok in Hm. destruct (inventory_validate_ok _ _ Hv) as (_ & Hver & Hn & Hf & _ & Hlen).
  destruct (inventory_roundtrip index) as (b' & E1 & E2 & E3). rewrite E1 in Hb. injection Hb as ->. split; [|done].
  apply E3.
  - rewrite Hlen. apply (mo_count _ Hm).
  - rewrite Forall_forall in Hf, Hpos |- *. intros f Hin. destruct (Hf f Hin) as [Hs Hh]. specialize (Hpos f Hin). cbn in Hpos.
    split; [|split; [lia|by apply hash_valid_len]].
    assert (In (f_name f) (map table_name (m_files m))) as Hname.
    { apply list_elem_of_In in Hin. apply (in_map f_name) in Hin. rewrite Hn in Hin. by rewrite (sort_by_perm id) in Hin. }
    apply in_map_iff in Hname as (e & E & He). pose proof (mo_entries _ Hm) as Hes. rewrite Forall_forall in Hes.
    destruct (table_name_stem e (Hes e ltac:(by apply list_elem_of_In))) as (stem & _ & E' & _ & _ & Hsafe).
    rewrite <- E, E', len_append. apply safe_component_len in Hsafe. change (len ".json") with 5. lia.
  - rewrite Hver. apply safe_version_len, (mo_version _ Hm).
Qed.

(** The three metadata files complete a directory of tables. *)
Definition with_metadata (st : files) (ib mb rb : list Z) : files :=
  <["receipt.json"%string := Regular rb]> (<["MasterManifest.json"%string := Regular mb]> (<["tables.json"%string := Regular ib]> st)).

Lemma with_metadata_table st ib mb rb e :
  entry_ok e -> with_metadata st ib mb rb !! table_name e = st !! table_name e.
Proof.
  intros He. unfold with_metadata.
  assert (Hne : forall n, In n ["tables.json"; "MasterManifest.json"; "receipt.json"; "publication.json"]%string -> n <> table_name e).
  { intros n Hn E. by apply (table_name_reserved e n He Hn). }
  rewrite lookup_insert_ne by (apply Hne; cbn; auto). rewrite lookup_insert_ne by (apply Hne; cbn; auto).
  apply lookup_insert_ne, Hne. cbn. auto.
Qed.

Lemma complete_build st ib mb rb m index rc :
  parse mb = Ok m -> inventory_validate index m = Ok tt -> inventory_to_vec index = Some ib -> receipt_to_vec rc = Some rb ->
  Forall (fun f => exists b, st !! f_name f = Some (Regular b) /\ f = file (f_name f) b /\ json_valid b = true) (i_files index) ->
  r_version rc = m_version m -> r_tables rc = Z.of_nat (length (m_files m)) -> known_source (Some (r_source rc)) = true ->
  master_supported (r_region rc) = true -> none_or (r_resource_version rc) safe_version = true -> snapshot_name (r_snapshot rc) = true ->
  complete (with_metadata st ib mb rb) rc m index.
Proof.
  intros Hm Hval Hib Hrb Ht Hv Hcount Hsrc Hreg Hres Hname.
  pose proof (parse_ok _ _ Hm) as (_ & Hcm & _). pose proof (check_manifest_ok _ Hcm) as Hmo.
  destruct (receipt_roundtrip rc) as (rb' & Erb & Hrv & Hrl). rewrite Erb in Hrb. injection Hrb as ->.
  assert (Hpos : Forall (fun f => 0 <= f_size f) (i_files index)).
  { eapply Forall_impl; [exact Ht|]. intros f (b & _ & -> & _). cbn. unfold llen. lia. }
  destruct (index_fits _ _ _ Hcm Hval Hpos Hib) as [Hfit Hindex].
  constructor; try done.
  - exists mb. split; [|done]. unfold with_metadata. rewrite lookup_insert_ne by done. apply lookup_insert_eq.
  - exists rb. split; [apply lookup_insert_eq|]. split; [|done]. apply Hrl.
    + rewrite Hv. apply safe_version_len, (mo_version _ Hmo).
    + apply snapshot_name_len in Hname as (Hl & _). done.
    + by apply known_source_len.
    + destruct (r_resource_version rc) as [v|]; [|done]. cbn in *. apply Z.leb_le. by apply safe_version_len.
  - exists ib. split; [|done]. unfold with_metadata. rewrite !lookup_insert_ne by done. apply lookup_insert_eq.
  - destruct (inventory_validate_ok _ _ Hval) as (_ & _ & Hn & _). rewrite Forall_forall in Ht |- *. intros f Hf.
    destruct (Ht f Hf) as (b & Hb & Hfile). exists b. split; [|done].
    assert (In (f_name f) (map table_name (m_files m))) as Hin.
    { apply list_elem_of_In in Hf. apply (in_map f_name) in Hf. rewrite Hn in Hf. by rewrite (sort_by_perm id) in Hf. }
    apply in_map_iff in Hin as (e & E & He). pose proof (mo_entries _ Hmo) as Hes. rewrite Forall_forall in Hes.
    rewrite <- E, with_metadata_table; [by rewrite E|]. apply Hes. by apply list_elem_of_In.
Qed.

Lemma prepare_directory_complete input io decoder source resource region simple p :
  prepare_directory input io decoder source resource region simple = Ok p ->
  known_source (Some source) = true -> snapshot_name (snapshot_id simple) = true ->
  exists mb m index, read_bounded (input !! "MasterManifest.json"%string) MAX_MANIFEST = Ok mb /\ parse mb = Ok m /\
    complete (staging p) (receipt p) m index /\ r_snapshot (receipt p) = snapshot_id simple /\
    r_region (receipt p) = region /\ r_resource_version (receipt p) = resource /\
    Forall (fun e => exists json, decoded input decoder e json /\ staging p !! table_name e = Some (Regular json)) (m_files m).
Proof.
  unfold prepare_directory. intros Hp Hsrc Hname.
  apply rbind_ok in Hp as ([] & Hg & Hp). apply ensure_ok in Hg.
  apply rbind_ok in Hp as (mb & Hmb & Hp). apply rbind_ok in Hp as (m & Hm & Hp).
  apply rbind_ok in Hp as (u2 & _ & Hp). apply rbind_ok in Hp as ([[st tot] fs] & Hst & Hp).
  set (index := mkInventory 1 (m_version m) (sort_by f_name fs)) in Hp.
  apply rbind_ok in Hp as (u3 & Hval & Hp). destruct u3. apply rbind_ok in Hp as (ib & Hib & Hp).
  apply rbind_ok in Hp as (s1 & Hw1 & Hp). apply rbind_ok in Hp as (s2 & Hw2 & Hp).
  set (rc := mkReceipt _ _ _ _ _ _ _) in Hp. apply rbind_ok in Hp as (rb & Hrb & Hp).
  apply rbind_ok in Hp as (s3 & Hw3 & Hp). apply rbind_ok in Hp as (u4 & _ & [= <-]).
  apply write_synced_ok in Hw1 as ->, Hw2 as ->, Hw3 as ->.
  pose proof (parse_ok _ _ Hm) as (_ & Hcm & _). pose proof (check_manifest_ok _ Hcm) as Hmo.
  destruct (stage_tables_ok _ _ _ _ _ _ _ _ _ Hst (table_names_nodup _ (mo_entries _ Hmo) (mo_nodup _ Hmo))) as [H2 _].
  destruct (inventory_to_vec index) as [ib'|] eqn:Eib; [|done]. injection Hib as ->.
  destruct (receipt_to_vec rc) as [rb'|] eqn:Erb; [|done]. injection Hrb as ->.
  assert (Hguard : master_supported region = true /\ none_or resource safe_version = true).
  { destruct (master_supported region); [|done]. destruct resource as [v|]; cbn in *; [|done]. by destruct (safe_version v). }
  exists mb, m, index. split; [done|]. split; [done|]. cbn [staging receipt]. fold (with_metadata st ib mb rb).
  split; [|split; [done|split; [done|split; [done|]]]].
  - apply complete_build; try done; try apply Hguard. cbn [i_files index].
    rewrite (sort_by_perm f_name). clear -H2. induction H2 as [|e f es fs (json & (data & _ & Hd) & -> & Hl) _ IH]; constructor; [|done].
    exists json. split; [done|]. split; [done|]. by eapply decode_valid.
  - pose proof (mo_entries _ Hmo) as Hes. rewrite Forall_forall in Hes |- *. intros e He.
    apply list_elem_of_lookup in He as Hlk. destruct Hlk as [n Hlk]. destruct (Forall2_lookup_l _ _ _ _ _ H2 Hlk) as (f & _ & json & Hdec & _ & Hl).
    exists json. split; [done|]. rewrite with_metadata_table; [done|by apply Hes].
Qed.

(** * Registry transfers *)
Lemma check_tables_ok staged io total fs total' :
  check_tables staged io total fs = Ok total' ->
  Forall (fun f => exists b, staged !! f_name f = Some (Regular b) /\ f = file (f_name f) b /\ json_valid b = true) fs.
Proof.
  revert total. induction fs as [|f fs IH]; intros total; cbn [check_tables]; [constructor|].
  intros Hc. apply rbind_ok in Hc as (u1 & H1 & Hc). apply rbind_ok in Hc as (bytes & H2 & Hc).
  apply rbind_ok in Hc as ([] & H3 & Hc). apply ensure_ok in H3. apply rbind_ok in Hc as ([] & H4 & Hc). apply ensure_ok in H4.
  apply rbind_ok in Hc as (u5 & _ & Hc). constructor; [|by eapply IH].
  destruct (staged !! f_name f) as [[]|]; try done. cbn in H2. unfold bounded in H2. destruct (_ <? _); [done|]. injection H2 as ->.
  bool_prop. exists bytes. split; [done|]. split; [|done]. destruct f. cbn in *. unfold file. by subst.
Qed.

Lemma prepare_registry_complete staged io pm simple p :
  prepare_registry staged io pm simple = Ok p -> snapshot_name (snapshot_id simple) = true ->
  complete (staging p) (receipt p) (source_manifest pm) (mkInventory 1 (p_version pm) (p_files pm)) /\
  r_snapshot (receipt p) = snapshot_id simple /\ r_region (receipt p) = region (p_scope pm) /\
  r_resource_version (receipt p) = p_resource_version pm.
Proof.
  unfold prepare_registry. intros Hp Hname. apply rbind_ok in Hp as ([] & Hv & Hp). apply rbind_ok in Hp as (tot & Ht & Hp).
  apply rbind_ok in Hp as (ib & Hib & Hp). apply rbind_ok in Hp as (s1 & Hw1 & Hp).
  apply rbind_ok in Hp as (mb & Hmb & Hp). apply rbind_ok in Hp as (s2 & Hw2 & Hp). set (rc := mkReceipt _ _ _ _ _ _ _) in Hp.
  apply rbind_ok in Hp as (rb & Hrb & Hp). apply rbind_ok in Hp as (s3 & Hw3 & Hp). apply rbind_ok in Hp as (u4 & _ & [= <-]).
  apply write_synced_ok in Hw1 as ->, Hw2 as ->, Hw3 as ->. cbn [staging receipt]. split; [|done].
  destruct (inventory_to_vec _) as [ib'|] eqn:Eib in Hib; [|done]. injection Hib as ->.
  destruct (receipt_to_vec rc) as [rb'|] eqn:Erb; [|done]. injection Hrb as ->.
  unfold published_validate in Hv. apply rbind_ok in Hv as ([] & Hg & Hv). apply ensure_ok in Hg.
  destruct (manifest_to_vec (source_manifest pm)) as [mb'|] eqn:Emb; [|done]. injection Hmb as ->. cbn [ok_or rbind] in Hv.
  apply rbind_ok in Hv as (src & Hsrc & Hv). apply rbind_ok in Hv as ([] & _ & Hv). apply rbind_ok in Hv as ([] & Hval & _).
  assert (src = source_manifest pm) as ->.
  { apply parse_ok in Hsrc as (E & _). destruct (manifest_roundtrip (source_manifest pm)) as (b & E1 & E2 & _).
    rewrite E1 in Emb. congruence. }
  bool_prop. destruct (inventory_validate_ok _ _ Hval) as (_ & _ & _ & _ & _ & Hlen). cbn in Hlen.
  apply complete_build; try done.
  - by eapply check_tables_ok.
  - cbn. by rewrite Hlen.
  - cbn. destruct (p_resource_version pm) as [v|]; [|done]. cbn in *. by apply negb_false_iff.
Qed.

(** * Publication *)
Lemma publication_readback snapshot previous now bytes (st : files) :
  publication_to_vec (mkPublication 1 snapshot previous now) = Some bytes -> snapshot_name snapshot = true ->
  none_or previous snapshot_name = true ->
  publication (pure snapshot (<["publication.json"%string := Regular bytes]> st)) snapshot [] = Ok (Some (mkPublication 1 snapshot previous now)).
Proof.
  intros Hb Hs Hp. destruct (publication_roundtrip (mkPublication 1 snapshot previous now)) as (b & E1 & E2 & E3).
  rewrite E1 in Hb. injection Hb as ->. unfold publication. rewrite dir_node_pure, lookup_insert_eq.
  cbn [regular read_bounded]. unfold bounded. apply snapshot_name_len in Hs as (Hl & _).
  assert (llen bytes <= 4096).
  { apply E3; [done|]. cbn. destruct previous as [q|]; [|done]. cbn in *. apply snapshot_name_len in Hp as (? & _). by apply Z.leb_le. }
  destruct (Z.ltb_spec 4096 (llen bytes)); [lia|]. rewrite E2. cbn. rewrite String.eqb_refl. cbn.
  destruct previous as [q|]; [|done]. cbn in *. apply snapshot_name_len in Hp as (_ & Hq1 & Hq2). by rewrite Hq1, Hq2.
Qed.

(** The snapshot a publication installs. *)
Lemma published_inst scope p m index previous now bytes :
  complete (staging p) (receipt p) m index -> region scope = r_region (receipt p) -> environment_ok (environment scope) = true ->
  publication_to_vec (mkPublication 1 (r_snapshot (receipt p)) previous now) = Some bytes -> none_or previous snapshot_name = true ->
  exists x, inst_ok scope x /\ i_name x = r_snapshot (receipt p) /\
    i_dir x = <["publication.json"%string := Regular bytes]> (staging p) /\
    i_value x = published_of scope (receipt p) m index /\ i_pub x = Some (mkPublication 1 (r_snapshot (receipt p)) previous now).
Proof.
  intros Hc Hr He Hb Hp. set (dir := <["publication.json"%string := Regular bytes]> (staging p)).
  assert (Hd : forall n, n <> "publication.json"%string -> dir !! n = staging p !! n).
  { intros n Hn. unfold dir. by rewrite lookup_insert_ne. }
  destruct (complete_manifest_doc _ _ _ _ dir scope Hc Hd Hr He) as (doc & Hdoc & Hval & _).
  exists (mkInst (r_snapshot (receipt p)) dir doc (published_of scope (receipt p) m index)
            (Some (mkPublication 1 (r_snapshot (receipt p)) previous now))).
  split; [|done]. constructor; cbn [i_name i_dir i_doc i_value i_pub]; [|done].
  unfold chain_step. cbv beta. unfold snapshot_directory at 1. rewrite (cp_name _ _ _ _ Hc). cbn [negb pure snapshots].
  rewrite lookup_singleton_eq. cbn [rbind]. change (later 1 (fun _ : Z => ?r)) with (fun _ : Z => r).
  fold (pure (r_snapshot (receipt p)) dir). rewrite Hdoc. cbn [rbind].
  unfold dir. rewrite (publication_readback _ _ _ _ _ Hb (cp_name _ _ _ _ Hc) Hp). done.
Qed.

(** A directory that holds the chain [cs]: empty, or a store of it. *)
Inductive holds (scope : Scope) : list inst -> root -> Prop :=
| holds_nothing r : current r = None -> retention_boundary r = Ok None -> holds scope [] r
| holds_chain cs k b r : chain scope cs -> store cs k b r -> (k < length cs)%nat -> holds scope cs r.

Lemma store_static cs k b r : store cs k b r -> retaining cs (fun _ => k) (fun _ => b) (fun _ => r).
Proof. intros Hst. constructor; intros; [done|lia|apply bound_le_refl]. Qed.

Lemma inst_region scope x :
  inst_ok scope x -> exists m rv, source_with_provenance (fun _ => pure (i_name x) (i_dir x)) (i_name x) = Ok (m, rv, region scope).
Proof.
  intros Hok. apply ok_parts in Hok as (_ & Hm & _). unfold manifest in Hm.
  change (later 3 (fun _ : Z => ?r)) with (fun _ : Z => r) in Hm.
  apply rbind_ok in Hm as ([] & _ & Hm). cbn [rbind] in Hm. apply rbind_ok in Hm as ([] & _ & Hm).
  apply rbind_ok in Hm as ([[m rv] g] & E & Hm). apply rbind_ok in Hm as ([] & Hg & _). apply ensure_ok, bool_decide_eq_true in Hg.
  subst g. eauto.
Qed.

(** The head of a chain belongs to the chain's region. *)
Lemma head_region scope cs k b r x :
  chain scope cs -> store cs k b r -> head cs = Some x -> snapshot_region (fun _ => r) (i_name x) = Ok (region scope).
Proof.
  intros Hch Hst Hx. assert (Hi : cs !! O = Some x) by (by destruct cs).
  destruct (linked_lookup scope cs O x (ch_linked _ _ Hch) Hi) as [Hok _].
  assert (Hthere : snapshots r !! i_name x = Some (Dir (i_dir x))) by (apply (st_present _ _ _ _ Hst O x Hi); left; lia).
  unfold snapshot_region, snapshot_directory. rewrite (inst_name scope x Hok), Hthere. cbn [negb rbind].
  change (later 1 (fun _ : Z => r)) with (fun _ : Z => r).
  assert (Hn : near (i_name x) (i_dir x) False (fun _ => r) 1).
  { constructor; intros; [by left|]. congruence. }
  destruct (source_near (i_name x) (i_dir x) False (fun _ => r) 1 ltac:(lia) Hn) as [->|[[] _]].
  destruct (inst_region scope x Hok) as (m & rv & ->). done.
Qed.

Lemma store_orphan cs k b r name d :
  store cs k b r -> ~ In name (names cs) -> store cs k b (set_snapshots r (<[name := d]> (snapshots r))).
Proof.
  intros [H1 H2 H3 H4 H5] Hn. assert (Hne : forall i x, cs !! i = Some x -> name <> i_name x).
  { intros i x Hx ->. apply Hn, in_map. by apply list_elem_of_In, list_elem_of_lookup_2 with i. }
  constructor; cbn [set_snapshots current snapshots]; try done.
  - intros i x Hx Hc. rewrite lookup_insert_ne by eauto. eauto.
  - intros i x Hx Hlt Hp. rewrite lookup_insert_ne by eauto. eauto.
Qed.

Lemma store_extend scope x cs k b r :
  store cs k b r -> chain scope (x :: cs) ->
  store (x :: cs) (S k) (option_map S b)
    (set_current (set_snapshots r (<[i_name x := Dir (i_dir x)]> (snapshots r))) (Regular (bytes_of (i_name x)))).
Proof.
  intros Hst Hch. pose proof (ch_nodup _ _ Hch) as Hnd. cbn in Hnd. apply NoDup_cons in Hnd as [Hx _].
  rewrite list_elem_of_In in Hx. destruct (store_orphan cs k b r (i_name x) (Dir (i_dir x)) Hst Hx) as [H1 H2 H3 H4 H5].
  constructor; cbn [set_current set_snapshots current snapshots] in *.
  - by exists x.
  - intros [|i] y; cbn; [intros [= <-] _; apply lookup_insert_eq|]. intros Hy Hc. apply (H2 i y Hy). destruct Hc; [left; lia|by right].
  - intros [|i] y; cbn; [lia|]. intros Hy Hlt. apply (H3 i y Hy). lia.
  - unfold retention_boundary in *. cbn [retention set_snapshots] in *. destruct b as [j|]; cbn; [|done].
    destruct H4 as (Hj & y & Hy & Hr). split; [lia|]. by exists y.
  - intros [|i] y; cbn; [lia|]. intros Hy Hlt Hp. specialize (H5 i y Hy ltac:(lia) Hp). by destruct b.
Qed.

Lemma store_first scope x r :
  retention_boundary r = Ok None -> chain scope [x] ->
  store [x] 0 None (set_current (set_snapshots r (<[i_name x := Dir (i_dir x)]> (snapshots r))) (Regular (bytes_of (i_name x)))).
Proof.
  intros Hr Hch. constructor; cbn [set_current set_snapshots current snapshots].
  - by exists x.
  - intros [|i] y; cbn; [|done]. intros [= <-] _. apply lookup_insert_eq.
  - intros [|i] y; cbn; [lia|done].
  - exact Hr.
  - intros [|i] y; cbn; [lia|done].
Qed.

(** What a publication finds of the chain. *)
Lemma holds_previous scope cs r :
  holds scope cs r ->
  predecessor (fun _ => r) = Ok (option_map i_name (head cs)) /\
  (is_some (head cs) = true -> forall x, head cs = Some x -> snapshot_region (fun _ => r) (i_name x) = Ok (region scope)) /\
  none_or (option_map i_name (head cs)) snapshot_name = true.
Proof.
  intros [r' Hc Hr|cs' k b r' Hch Hst Hk].
  { split; [|done]. unfold predecessor. by rewrite Hc. }
  destruct (head cs') as [x|] eqn:Hx; [|by destruct cs'; [cbn in Hk; lia|]].
  split; [by rewrite (predecessor_head scope cs' _ _ _ x Hch (store_static _ _ _ _ Hst) Hx)|].
  split; [intros _ y [= <-]; by eapply head_region|]. cbn.
  destruct (linked_lookup scope cs' O x (ch_linked _ _ Hch)) as [Hok _]; [by destruct cs'|]. by apply (inst_name scope).
Qed.

Lemma holds_orphan scope cs r name d :
  holds scope cs r -> ~ In name (names cs) -> holds scope cs (set_snapshots r (<[name := d]> (snapshots r))).
Proof.
  intros [r' Hc Hr|cs' k b r' Hch Hst Hk] Hn; [by apply holds_nothing|].
  apply (holds_chain scope cs' k b); [done|by apply store_orphan|done].
Qed.

Lemma holds_extend scope x cs r :
  holds scope cs r -> inst_ok scope x -> previous_of x = option_map i_name (head cs) -> ~ In (i_name x) (names cs) ->
  holds scope (x :: cs)
    (set_current (set_snapshots r (<[i_name x := Dir (i_dir x)]> (snapshots r))) (Regular (bytes_of (i_name x)))).
Proof.
  intros Hh Hok Hprev Hn. destruct Hh as [r' Hc Hr|cs' k b r' Hch Hst Hk].
  - assert (Hch : chain scope [x]).
    { constructor; [by split|cbn; apply NoDup_cons; split; [apply not_elem_of_nil|constructor]|cbn; lia]. }
    apply (holds_chain scope [x] 0 None); [done|by eapply store_first|cbn; lia].
  - assert (Hch' : chain scope (x :: cs')).
    { constructor; [split; [done|split; [done|apply Hch]]| |cbn; lia]. cbn. apply NoDup_cons. rewrite list_elem_of_In.
      split; [done|apply Hch]. }
    apply (holds_chain scope (x :: cs') (S k) (option_map S b)); [done| |cbn; lia]. by apply (store_extend scope).
Qed.

(** Publication at every point of failure. *)
Lemma publish_outcome scope cs r p m index now io :
  holds scope cs r -> complete (staging p) (receipt p) m index -> region scope = r_region (receipt p) ->
  environment_ok (environment scope) = true -> snapshots r !! r_snapshot (receipt p) = None ->
  ~ In (r_snapshot (receipt p)) (names cs) ->
  exists x, i_name x = r_snapshot (receipt p) /\ i_value x = published_of scope (receipt p) m index /\
    (forall n, n <> "publication.json"%string -> i_dir x !! n = staging p !! n) /\
    let '(res, trace) := publish p r now io in
    Forall (fun r' => holds scope cs r' \/ holds scope (x :: cs) r') trace /\
    (io = PublishOk -> res = Ok (receipt p)) /\
    (forall rc, res = Ok rc -> rc = receipt p /\ holds scope (x :: cs) (List.last trace r)).
Proof.
  intros Hh Hc Hr He Hfresh Hn. destruct (holds_previous scope cs r Hh) as (Hp & Hreg & Hpn).
  destruct (publication_roundtrip (mkPublication 1 (r_snapshot (receipt p)) (option_map i_name (head cs)) now)) as (bytes & Eb & _).
  destruct (published_inst scope p m index _ now bytes Hc Hr He Eb Hpn) as (x & Hok & Hname & Hdir & Hval & Hpub).
  exists x. split; [done|]. split; [done|]. split; [intros n Hne; rewrite Hdir; by rewrite lookup_insert_ne|].
  unfold publish. rewrite Hp. cbn [rbind].
  assert (match option_map i_name (head cs) with
          | Some s => region <-? snapshot_region (fun _ => r) s;; (if bool_decide (region = r_region (receipt p)) then Ok tt else Err MFormat)
          | None => Ok tt end = Ok tt :> result MasterError unit) as ->.
  { destruct (head cs) as [y|] eqn:Ey; cbn [option_map]; [|done]. rewrite (Hreg eq_refl y eq_refl). cbn [rbind].
    by rewrite bool_decide_eq_true_2. }
  rewrite Eb, Hfresh, <- Hdir, <- Hname. rewrite <- Hname in Hn.
  assert (H1 : holds scope cs (set_snapshots r (<[i_name x := Dir (i_dir x)]> (snapshots r)))) by by apply holds_orphan.
  assert (H2 : holds scope (x :: cs)
    (set_current (set_snapshots r (<[i_name x := Dir (i_dir x)]> (snapshots r))) (Regular (bytes_of (i_name x))))).
  { apply holds_extend; try done. unfold previous_of. by rewrite Hpub. }
  destruct io; (split; [repeat constructor; auto|]); (split; [done|]); intros rc [= <-]; done.
Qed.

(** Another region's snapshot is never chained on. *)
Lemma publish_other_region scope cs r p now io x :
  holds scope cs r -> head cs = Some x -> region scope <> r_region (receipt p) -> publish p r now io = (Err MFormat, []).
Proof.
  intros Hh Hx Hne. destruct (holds_previous scope cs r Hh) as (Hp & Hreg & _). unfold publish. rewrite Hp, Hx. cbn [option_map].
  rewrite (Hreg ltac:(by rewrite Hx) x Hx). cbn [rbind]. by rewrite bool_decide_eq_false_2.
Qed.

(** * What is served *)
Lemma sorted_increasing (l : list string) : StronglySorted sle l -> NoDup l -> strictly_increasing l = true.
Proof.
  induction 1 as [|a l Hl IH Ha]; intros Hn; [done|]. apply NoDup_cons in Hn as [Hna Hn]. specialize (IH Hn).
  destruct l as [|b l]; [done|]. cbn [strictly_increasing] in *. rewrite IH, andb_true_r. apply sltb_spec.
  apply Forall_cons in Ha as [Ha _]. apply sle_iff in Ha as [->|]; [|done]. destruct Hna. apply list_elem_of_here.
Qed.

Lemma sort_map_sorted {A} (key : A -> string) l : StronglySorted sle (map key (sort_by key l)).
Proof.
  pose proof (sort_by_sorted key l) as Hs. induction Hs as [|x l' Hl IH Hx]; cbn; constructor; [done|].
  rewrite Forall_map. exact Hx.
Qed.

(** The published manifest of a complete snapshot passes a consumer's checks. *)
Lemma published_validates staged rc m index scope :
  complete staged rc m index -> region scope = r_region rc -> published_validate (published_of scope rc m index) scope = Ok tt.
Proof.
  intros Hc Hr. destruct (cp_manifest _ _ _ _ Hc) as (mb & _ & Hp). apply parse_ok in Hp as (_ & Hcm & _).
  apply check_manifest_ok in Hcm as Hmo.
  assert (Hsorted : check_manifest (sort_source m) = Ok tt).
  { apply check_manifest_complete. destruct m as [v es]. eapply (manifest_ok_perm v es); [|exact Hmo]. symmetry. apply sort_by_perm. }
  destruct (parse_to_vec _ Hsorted) as (b & Eb & Hb). pose proof (snapshot_name_len _ (cp_name _ _ _ _ Hc)) as (_ & Hn1 & Hn2).
  unfold published_validate, published_of.
  cbn [p_schema_version p_scope p_snapshot p_version p_resource_version content_sha256 p_files source_manifest].
  rewrite (bool_decide_eq_true_2 (scope = scope)) by done.
  rewrite Hr, (cp_region _ _ _ _ Hc), Hn1, Hn2.
  change (m_version (sort_source m)) with (m_version m). rewrite String.eqb_refl.
  assert (some_and (r_resource_version rc) (fun v => negb (safe_version v)) = false) as ->.
  { pose proof (cp_resource _ _ _ _ Hc) as Hres. destruct (r_resource_version rc); [|done]. cbn in *. by rewrite Hres. }
  cbn [Z.eqb negb orb ensure rbind]. rewrite Eb. cbn [ok_or rbind]. rewrite Hb. cbn [rbind].
  rewrite sorted_increasing; [|apply (sort_map_sorted e_name)|cbn [sort_source m_files]; rewrite (sort_by_perm e_name); apply (mo_nodup _ Hmo)].
  cbn [ensure rbind]. destruct (inventory_validate_ok _ _ (cp_valid _ _ _ _ Hc)) as (Hs & Hv & _).
  assert (mkInventory 1 (m_version m) (i_files index) = index) as -> by (destruct index; cbn in *; by subst).
  assert (inventory_validate index (sort_source m) = Ok tt) as ->.
  { rewrite <- (cp_valid _ _ _ _ Hc). destruct m as [v es]. apply inventory_validate_perm, sort_by_perm. }
  cbn [rbind]. rewrite content_hash_ok. cbn [rbind]. by rewrite String.eqb_refl.
Qed.

Lemma dir_node_present r s d n : snapshots r !! s = Some (Dir d) -> dir_node r s n = dir_node (pure s d) s n.
Proof. intros Hs. rewrite dir_node_pure. unfold dir_node. by rewrite Hs. Qed.

Lemma table_present r s d g t h b :
  snapshots r !! s = Some (Dir d) -> table_read (fun _ => r) g s t h b = table_read (fun _ => pure s d) g s t h b.
Proof.
  intros Hs. unfold table_read, source, source_with_provenance, verify_indexed_digest, later, snapshot_directory.
  rewrite Hs. cbn [pure snapshots]. rewrite lookup_singleton_eq. fold (pure s d).
  by rewrite !(dir_node_present r s d _ Hs).
Qed.

Lemma manifest_current scope cs r x :
  holds scope cs r -> head cs = Some x -> manifest (fun _ => r) None scope = Ok (i_doc x).
Proof.
  intros [r' Hc Hr|cs' k b r' Hch Hst Hk] Hx; [done|]. assert (Hi : cs' !! O = Some x) by (by destruct cs').
  destruct (linked_lookup scope cs' O x (ch_linked _ _ Hch) Hi) as [Hok _].
  assert (Hthere : snapshots r' !! i_name x = Some (Dir (i_dir x))) by (apply (st_present _ _ _ _ Hst O x Hi); left; lia).
  assert (Hn : near (i_name x) (i_dir x) False (fun _ => r') 4999) by (constructor; intros; [by left|congruence]).
  assert (Hm : manifest (fun _ => r') (Some (i_name x)) scope = Ok (i_doc x)).
  { destruct (manifest_near (i_name x) (i_dir x) False (fun _ => r') scope Hn) as [->|[[] _]].
    by apply ok_parts in Hok as (_ & ? & _). }
  rewrite <- Hm. unfold manifest. destruct (_ || _); [done|]. cbn [negb ensure rbind].
  assert (current_snapshot (fun _ => r') = Ok (i_name x)) as ->; [|done].
  unfold current_snapshot. destruct (st_current _ _ _ _ Hst) as (y & Hy & ->). rewrite Hx in Hy. injection Hy as <-.
  pose proof (inst_name scope x Hok) as Hname. pose proof (snapshot_name_len _ Hname) as (Hlen & _).
  cbn [regular read_bounded]. unfold bounded. replace (llen _) with (len (i_name x)) by (unfold llen; by rewrite bytes_of_length).
  destruct (Z.ltb_spec 128 (len (i_name x))); [lia|]. cbn [rbind]. rewrite snapshot_name_utf8 by done. cbn [ok_or rbind].
  unfold snapshot_directory. by rewrite Hname, Hthere.
Qed.
End complete.
