(* ===== verification/MasterService.v ===== *)
(** A Master directory over its life: imports, transfers and retention passes,
    each cut short at any of its file operations, and what readers are served
    between them. *)
From Stdlib Require Import ZArith Lia Ascii String List Bool Permutation.
From stdpp Require Import base list strings decidable gmap.
From S2P Require Import Prelude BTree Errors Regions Versions Http MasterFiles MasterRegistry MasterHistory MasterChain MasterImport.

Local Open Scope Z_scope.
Local Open Scope rust_scope.

Section service.
Context `{!MasterCodecs, !MasterCodecsOk}.

(** A snapshot that is served in full: its manifest passes a consumer's checks
    and every listed file is read with the listed digest. *)
Definition served (scope : Scope) (v : view) (p : PublishedManifest) : Prop :=
  published_validate p scope = Ok tt /\
  forall f stem, In f (p_files p) -> f_name f = (stem ++ ".json")%string ->
    exists b, digest b = f_sha256 f /\ llen b = f_size f /\
      table v (region scope) (p_snapshot p) stem (f_sha256 f) = Ok (mkDocument b (quoted (f_sha256 f)) (p_version p)).

Definition sound (scope : Scope) (x : inst) : Prop :=
  p_snapshot (i_value x) = i_name x /\ served scope (fun _ => pure (i_name x) (i_dir x)) (i_value x).

Lemma complete_sound scope p m index x :
  complete (staging p) (receipt p) m index -> region scope = r_region (receipt p) ->
  i_name x = r_snapshot (receipt p) -> i_value x = published_of scope (receipt p) m index ->
  (forall n, n <> "publication.json"%string -> i_dir x !! n = staging p !! n) -> sound scope x.
Proof.
  intros Hc Hr Hn Hv Hd. unfold sound, served. rewrite Hn, Hv. split; [done|]. split; [by eapply published_validates|].
  intros f stem Hf Hs. destruct (complete_table _ _ _ _ (i_dir x) f stem true Hc Hd Hf Hs) as (b & Hb & Hdig & Ht).
  exists b. split; [done|]. split; [|by rewrite Hr].
  pose proof (cp_tables _ _ _ _ Hc) as Hall. rewrite Forall_forall in Hall.
  destruct (Hall f ltac:(by apply list_elem_of_In)) as (b' & Hb' & E & _).
  rewrite Hd in Hb by (by eapply complete_not_publication). assert (b' = b) as -> by congruence. by rewrite E.
Qed.

Lemma served_present scope r x :
  sound scope x -> snapshots r !! i_name x = Some (Dir (i_dir x)) -> served scope (fun _ => r) (i_value x).
Proof.
  intros (Hn & Hv & Ht) Hp. split; [done|]. intros f stem Hf Hs. destruct (Ht f stem Hf Hs) as (b & H1 & H2 & H3).
  exists b. split; [done|]. split; [done|]. rewrite <- H3, Hn. unfold table. by apply table_present.
Qed.

Lemma holds_head_present scope cs r x :
  holds scope cs r -> head cs = Some x -> snapshots r !! i_name x = Some (Dir (i_dir x)).
Proof.
  intros [r' Hc Hr|cs' k b r' Hch Hst Hk] Hx; [done|].
  apply (st_present _ _ _ _ Hst O x); [by destruct cs'|left; lia].
Qed.

Lemma holds_prune scope cs r keep budget wio io r' :
  holds scope cs r -> In r' (snd (prune_within r keep budget wio io)) -> holds scope cs r'.
Proof.
  intros Hh Hin. destruct (retention_valid keep) eqn:Hk; [|unfold prune_within in Hin; by rewrite Hk in Hin].
  destruct Hh as [r Hc Hr|cs k b r Hch Hst Hlt].
  { unfold prune_within, predecessor in Hin. by rewrite Hk, Hc in Hin. }
  destruct (proj1 (Forall_forall _ _) (pass_states scope cs k b r keep budget wio io Hch Hst Hk) r') as (k' & b' & H1 & H2 & _);
    [by apply list_elem_of_In|]. apply (holds_chain scope cs k' b'); [done|done|lia].
Qed.

(** * Reachable directories *)

(** A staged snapshot: an import's, with the source names the code gives, or a
    registry transfer's. *)
Inductive prepared (name : string) : PreparedImport -> Prop :=
| prepared_import input io decoder source resource region simple p :
    snapshot_id simple = name -> snapshot_name name = true -> (source = "local-import" \/ source = "remote")%string ->
    prepare_directory input io decoder source resource region simple = Ok p -> prepared name p
| prepared_transfer staged io manifest simple p :
    snapshot_id simple = name -> snapshot_name name = true ->
    prepare_registry staged io manifest simple = Ok p -> prepared name p.

Lemma prepared_complete name p :
  prepared name p -> r_snapshot (receipt p) = name /\ exists m index, complete (staging p) (receipt p) m index.
Proof.
  intros [input io decoder source resource region simple p' <- Hname Hsrc Hp|staged io manifest simple p' <- Hname Hp].
  - destruct (prepare_directory_complete _ _ _ _ _ _ _ _ Hp) as (mb & m & index & _ & _ & Hc & Hn & _); [|done|].
    { by destruct Hsrc as [-> | ->]. }
    eauto.
  - destruct (prepare_registry_complete _ _ _ _ _ Hp Hname) as (Hc & Hn & _). eauto.
Qed.

(** The directories the writer leaves, with the snapshot names used so far: a
    publication or a retention pass may stop after any of its effects. *)
Inductive reachable : gset string -> root -> Prop :=
| reach_empty : reachable ∅ (mkRoot None None ∅)
| reach_publish used r name p now io r' :
    reachable used r -> name ∉ used -> prepared name p -> In r' (snd (publish p r now io)) ->
    reachable ({[name]} ∪ used) r'
| reach_prune used r keep budget wio io r' :
    reachable used r -> In r' (snd (prune_within r keep budget wio io)) -> reachable used r'.

(** A directory that holds a chain of one scope's installations, each served in
    full, under names used so far. *)
Definition held (scope : Scope) (used : gset string) (r : root) : Prop :=
  exists cs, holds scope cs r /\ Forall (sound scope) cs /\ (forall n, In n (names cs) -> n ∈ used).
Definition holding (environment : string) (platform : Platform) (used : gset string) (r : root) : Prop :=
  exists g, held (mkScope g environment platform) used r.

Lemma publish_taken p r now io : is_some (snapshots r !! r_snapshot (receipt p)) = true -> snd (publish p r now io) = [].
Proof.
  intros Hs. unfold publish. destruct (predecessor _) as [previous|e]; [|done]. destruct (match previous with Some _ => _ | None => _ end); [|done].
  destruct (publication_to_vec _); [|done]. destruct (snapshots r !! _); [|done]. by destruct io.
Qed.

Lemma publish_refused p r now io rc : fst (publish p r now io) = Ok rc -> is_some (snapshots r !! r_snapshot (receipt p)) = false.
Proof.
  unfold publish. destruct (predecessor _) as [previous|e]; [|done]. destruct (match previous with Some _ => _ | None => _ end); [|done].
  destruct (publication_to_vec _); [|done]. destruct (snapshots r !! _); [|done]. by destruct io.
Qed.

(** What every publication leaves of a held directory. *)
Lemma held_publish scope used r name p m index now io :
  environment_ok (environment scope) = true -> held scope used r -> name ∉ used ->
  r_snapshot (receipt p) = name -> complete (staging p) (receipt p) m index -> region scope = r_region (receipt p) ->
  let '(res, trace) := publish p r now io in
  Forall (held scope ({[name]} ∪ used)) trace /\
  (io = PublishOk -> snapshots r !! name = None -> res = Ok (receipt p)) /\
  (forall rc, res = Ok rc -> rc = receipt p /\
     exists x cs, holds scope (x :: cs) (List.last trace r) /\ sound scope x /\ i_name x = name /\
       i_value x = published_of scope (receipt p) m index /\
       (forall n, n <> "publication.json"%string -> i_dir x !! n = staging p !! n)).
Proof.
  intros He (cs & Hh & Hs & Hu) Hfresh Hname Hc Hr.
  assert (Hout : ~ In (r_snapshot (receipt p)) (names cs)) by (rewrite Hname; intros Hi; by apply Hfresh, Hu).
  destruct (snapshots r !! r_snapshot (receipt p)) eqn:Et.
  { assert (Htaken : is_some (snapshots r !! r_snapshot (receipt p)) = true) by by rewrite Et.
    destruct (publish p r now io) as [res trace] eqn:Ep.
    assert (trace = []) as -> by (pose proof (publish_taken p r now io Htaken) as E; by rewrite Ep in E).
    split; [constructor|]. rewrite <- Hname, Et. split; [done|].
    intros rc ->. by rewrite (publish_refused p r now io rc) in Htaken by by rewrite Ep. }
  destruct (publish_outcome scope cs r p m index now io Hh Hc Hr He Et Hout) as (x & Hn & Hv & Hd & Hpub).
  assert (Hx : sound scope x) by by eapply complete_sound.
  destruct (publish p r now io) as [res trace]. destruct Hpub as (Hall & Hok & Hlast). split; [|split; [auto|]].
  - eapply Forall_impl; [exact Hall|]. intros r' [H1|H1].
    + exists cs. split; [done|]. split; [done|]. intros n Hi. apply elem_of_union_r. auto.
    + exists (x :: cs). split; [done|]. split; [by constructor|].
      intros n [<-|Hi]; [|apply elem_of_union_r; auto]. rewrite Hn, Hname. apply elem_of_union_l. by apply elem_of_singleton.
  - intros rc E. destruct (Hlast rc E) as (-> & Hh'). split; [done|]. exists x, cs. by rewrite Hn, Hname.
Qed.

(** An empty chain is one of every region. *)
Lemma held_empty scope scope' used r : held scope used r -> current r = None -> held scope' used r.
Proof.
  intros (cs & Hh & Hs & Hu) Hc. exists []. split; [|split; [constructor|done]].
  destruct Hh as [r' H1 H2|cs k b r' Hch Hst Hk]; [by constructor|].
  destruct (st_current _ _ _ _ Hst) as (x & _ & E). congruence.
Qed.

Lemma held_other_region scope used r p now io :
  held scope used r -> current r <> None -> region scope <> r_region (receipt p) -> publish p r now io = (Err MFormat, []).
Proof.
  intros (cs & Hh & Hs & Hu) Hc Hne. destruct (head cs) as [x|] eqn:Ex; [by eapply publish_other_region|].
  destruct Hh as [r' H1 H2|cs k b r' Hch Hst Hk]; [done|]. destruct cs; [cbn in Hk; lia|done].
Qed.

Lemma holding_publish env plat used r name p now io r' :
  environment_ok env = true -> holding env plat used r -> name ∉ used -> prepared name p ->
  In r' (snd (publish p r now io)) -> holding env plat ({[name]} ∪ used) r'.
Proof.
  intros He (g & Hheld) Hfresh Hprep Hin. destruct (prepared_complete name p Hprep) as (Hname & m & index & Hc).
  set (scope := mkScope (r_region (receipt p)) env plat).
  assert (Hheld' : held scope used r).
  { destruct (current r) eqn:Ec; [|by eapply held_empty]. destruct (decide (g = r_region (receipt p))) as [E|Hne].
    - by unfold scope; rewrite <- E.
    - rewrite (held_other_region (mkScope g env plat) used r p now io Hheld) in Hin; [done|by rewrite Ec|done]. }
  pose proof (held_publish scope used r name p m index now io He Hheld' Hfresh Hname Hc eq_refl) as Hpub.
  destruct (publish p r now io) as [res trace]. destruct Hpub as (Hall & _). rewrite Forall_forall in Hall.
  exists (r_region (receipt p)). apply Hall. by apply list_elem_of_In.
Qed.

Lemma held_prune scope used r keep budget wio io r' :
  held scope used r -> In r' (snd (prune_within r keep budget wio io)) -> held scope used r'.
Proof. intros (cs & Hh & Hs & Hu) Hin. exists cs. split; [by eapply holds_prune|done]. Qed.

Lemma reachable_holding env plat used r : environment_ok env = true -> reachable used r -> holding env plat used r.
Proof.
  intros He. induction 1 as [|used r name p now io r' Hr IH Hfresh Hp Hin|used r keep budget wio io r' Hr IH Hin].
  - exists Jp, []. split; [by constructor|]. split; [constructor|done].
  - by eapply holding_publish.
  - destruct IH as (g & Hheld). exists g. by eapply held_prune.
Qed.

(** The current snapshot of a held directory is served. *)
Lemma holds_served scope x cs r :
  holds scope (x :: cs) r -> sound scope x ->
  manifest (fun _ => r) None scope = Ok (i_doc x) /\ published_from_slice (d_bytes (i_doc x)) = Some (i_value x) /\
  served scope (fun _ => r) (i_value x).
Proof.
  intros Hh Hx. pose proof (holds_head_present _ _ _ x Hh eq_refl) as Hp.
  split; [by eapply manifest_current|]. split; [|by apply served_present].
  inversion Hh as [|cs0 k b r0 Hch]; subst. by destruct (ch_linked _ _ Hch) as (Hok & _); destruct Hok.
Qed.

Lemma held_served scope used r :
  held scope used r -> current r = None \/
  exists doc p, manifest (fun _ => r) None scope = Ok doc /\ published_from_slice (d_bytes doc) = Some p /\ served scope (fun _ => r) p.
Proof.
  intros (cs & Hh & Hs & _). destruct cs as [|x cs].
  - left. inversion Hh as [r0 H1 H2|cs0 k b r0 Hch]; subst; [done|]. pose proof (ch_len _ _ Hch). cbn in *. lia.
  - right. apply Forall_cons in Hs as [Hx _]. exists (i_doc x), (i_value x). by eapply holds_served.
Qed.

(** C5: In every directory reachable from an empty one by imports, registry transfers and
    retention passes, each stopped after any of its effects, CURRENT is absent or names
    a snapshot of one region whose manifest is served, passes a consumer's validation,
    and whose every listed table is read with the listed size and digest. *)
Theorem directory_always_served env plat used r :
  environment_ok env = true -> reachable used r ->
  current r = None \/
  exists g doc p, let scope := mkScope g env plat in
    manifest (fun _ => r) None scope = Ok doc /\ published_from_slice (d_bytes doc) = Some p /\ served scope (fun _ => r) p.
Proof.
  intros He Hr. destruct (reachable_holding env plat used r He Hr) as (g & Hheld).
  destruct (held_served _ _ _ Hheld) as [|(doc & p & Hd)]; [by left|]. right. by exists g, doc, p.
Qed.

(** After a successful import the current manifest is the imported one, sorted, with
    the given asset version; it passes a consumer's validation, and the file served for
    every entry holds exactly the bytes its encrypted input decodes to. *)
Lemma import_is_served scope used r input io decoder resource simple now rc trace :
  held scope used r -> environment_ok (environment scope) = true -> snapshot_name (snapshot_id simple) = true ->
  snapshot_id simple ∉ used ->
  import_directory_for_region true input r io PublishOk decoder resource (region scope) simple now = (Ok rc, trace) ->
  exists mb m doc p, let r' := List.last trace r in
    read_bounded (input !! "MasterManifest.json"%string) MAX_MANIFEST = Ok mb /\ parse mb = Ok m /\
    manifest (fun _ => r') None scope = Ok doc /\ published_from_slice (d_bytes doc) = Some p /\
    p_snapshot p = r_snapshot rc /\ source_manifest p = sort_source m /\ p_resource_version p = resource /\
    served scope (fun _ => r') p /\
    Forall (fun e => exists json, decoded input decoder e json /\
      dir_node r' (r_snapshot rc) (table_name e) = Some (Regular json)) (m_files m).
Proof.
  intros Hh He Hname Hout Himp. unfold import_directory_for_region in Himp.
  destruct (master_supported (region scope)); [|done]. cbn [negb] in Himp.
  destruct (prepare_directory _ _ _ _ _ _ _) as [p|] eqn:Hprep; [|done].
  destruct (prepare_directory_complete _ _ _ _ _ _ _ _ Hprep eq_refl Hname) as (mb & m & index & Hmb & Hm & Hc & Hn & Hreg & Hres & Hdec).
  pose proof (held_publish scope used r _ p m index now PublishOk He Hh Hout Hn Hc (eq_sym Hreg)) as Hpub.
  rewrite Himp in Hpub. destruct Hpub as (_ & _ & Hlast). destruct (Hlast rc eq_refl) as (-> & x & cs & Hh' & Hsound & Hxn & Hxv & Hxd).
  destruct (holds_served _ _ _ _ Hh' Hsound) as (H1 & H2 & H3).
  exists mb, m, (i_doc x), (i_value x). split; [done|]. split; [done|]. split; [done|]. split; [done|].
  rewrite Hxv at 1 2 3. split; [done|]. split; [done|]. split; [done|]. split; [done|].
  pose proof (parse_ok _ _ Hm) as (_ & Hcm & _). pose proof (mo_entries _ (check_manifest_ok _ Hcm)) as Hes.
  rewrite Forall_forall in Hdec, Hes |- *. intros e Hin. destruct (Hdec e Hin) as (json & H4 & H5). exists json. split; [done|].
  unfold dir_node. rewrite Hn, <- Hxn, (holds_head_present _ _ _ x Hh' eq_refl), Hxd; [done|].
  apply table_name_reserved; [by apply Hes|cbn; auto].
Qed.
End service.

Section validated.
Context `{!MasterCodecs, !MasterCodecsOk} (scope : Scope).

(** What a validated manifest guarantees of its files. *)
Record published_ok (p : PublishedManifest) : Prop := {
  po_scope : p_scope p = scope;
  po_source : check_manifest (source_manifest p) = Ok tt;
  po_sorted : strictly_increasing (map e_name (m_files (source_manifest p))) = true;
  po_index : inventory_validate (mkInventory 1 (p_version p) (p_files p)) (source_manifest p) = Ok tt;
  po_content : content_hash scope (source_manifest p) (p_files p) = Ok (content_sha256 p);
  po_version : p_version p = m_version (source_manifest p);
  po_snapshot : snapshot_name (p_snapshot p) = true;
}.

Lemma published_validate_ok p : published_validate p scope = Ok tt -> published_ok p.
Proof.
  unfold published_validate. intros Hv. apply rbind_ok in Hv as ([] & Hg & Hv). apply ensure_ok in Hg.
  apply rbind_ok in Hv as (mb & Hmb & Hv). destruct (manifest_to_vec _) as [mb'|] eqn:Emb; [|done]. injection Hmb as ->.
  apply rbind_ok in Hv as (src & Hsrc & Hv). apply rbind_ok in Hv as ([] & Hinc & Hv). apply ensure_ok in Hinc.
  apply rbind_ok in Hv as ([] & Hval & Hv). apply rbind_ok in Hv as (content & Hc & Hv). apply ensure_ok, String.eqb_eq in Hv.
  pose proof (parse_ok _ _ Hsrc) as (E & Hcm & _). destruct (manifest_roundtrip (source_manifest p)) as (b & E1 & E2 & _).
  assert (src = source_manifest p) as -> by congruence. bool_prop.
  constructor; try done; try congruence.
  unfold snapshot_name. repeat match goal with E : _ = true |- _ => rewrite E end. done.
Qed.
End validated.
