(* ===== verification/MasterSync.v ===== *)
(** Owner-to-consumer synchronization of Master snapshots ([master_sync.rs]).

    The consumer's directory is a [root] under its writer lock; the owner is what
    its requests are answered with.  The end of an await before the deadline, the
    clock and the outcome of every file operation are arguments.  A panic of a
    blocking worker is not modelled. *)
From Stdlib Require Import ZArith Lia Ascii String List Bool Permutation.
From stdpp Require Import base list strings decidable gmap.
From S2P Require Import Prelude BTree Errors Regions Versions Http MasterFiles MasterRegistry MasterHistory MasterChain MasterImport MasterService.

Local Open Scope Z_scope.
Local Open Scope rust_scope.

Inductive SyncError : Type := Download | SyncTimeout | Integrity | Changed | Storage.
Definition sync_error_text (e : SyncError) : string :=
  match e with
  | Download => "Master owner request failed"
  | SyncTimeout => "Master synchronization timed out"
  | Integrity => "Master owner manifest or file integrity failed"
  | Changed => "Master owner changed during synchronization"
  | Storage => "Master consumer storage failed"
  end.
Definition storage {A} (x : result MasterError A) : result SyncError A :=
  match x with Ok a => Ok a | Err _ => Err Storage end.

(** What became of a request: the URL did not join, it was not answered, or it
    was. *)
Inductive exchange : Type := NotJoined | NotAnswered | Answered (r : http_response).

(** The owner over one update: the manifest at its start, the tables by path, and
    the manifest at its end. *)
Record owner : Type := { at_start : exchange; at_path : string -> exchange; at_end : exchange }.

Definition download (x : exchange) (limit : Z) : result SyncError (list Z) :=
  match x with
  | NotJoined => Err Integrity
  | NotAnswered => Err Download
  | Answered response =>
      if negb (http_status response =? 200) || some_and (content_length response) (fun n => limit <? n)
         || negb (json_content response)
      then Err Download
      else Http.read_bounded limit Download Integrity [] (body_events response)
  end.

Section sync.
Context `{MasterCodecs} (scope : Scope).

Definition sync_manifest (x : exchange) : result SyncError PublishedManifest :=
  bytes <-? download x (4 * 1024 * 1024);;
  value <-? ok_or (published_from_slice bytes) Integrity;;
  match published_validate value scope with
  | Err _ => Err Integrity
  | Ok _ => Ok value
  end.

Definition json_stem (f : File) : string := trim_end_matches (f_name f) ".json".

(** The installed manifest, and whether it is the target already. *)
Definition installed_manifest (r : root) : option PublishedManifest :=
  match manifest (fun _ => r) None scope with
  | Ok document => published_from_slice (d_bytes document)
  | Err _ => None
  end.
Definition unchanged (r : root) (current : option PublishedManifest) (target : PublishedManifest) : bool :=
  some_and current (fun current =>
    String.eqb (content_sha256 current) (content_sha256 target)
    && bool_decide (p_resource_version current = p_resource_version target)
    && forallb (fun f => table_intact (fun _ => r) (region scope) (p_snapshot current) (json_stem f) (f_sha256 f)) (p_files current)).

Definition table_path (snapshot table hash : string) : string :=
  ("snapshots/" ++ snapshot ++ "/tables/" ++ table ++ "/" ++ hash)%string.
Definition cached (r : root) (current : option PublishedManifest) (f : File) : option (list Z) :=
  match current with
  | Some current =>
      if List.existsb (fun old => bool_decide (old = f)) (p_files current)
      then match table (fun _ => r) (region scope) (p_snapshot current) (json_stem f) (f_sha256 f) with
           | Ok doc => Some (d_bytes doc)
           | Err _ => None
           end
      else None
  | None => None
  end.

(** The loop over the target's files: reuse, or download, check and write. *)
Fixpoint fetch (r : root) (o : owner) (current : option PublishedManifest) (snapshot : string) (write : staging_io)
    (staged : files) (downloaded reused : Z) (fs : list File) : result SyncError (files * Z * Z) :=
  match fs with
  | [] => Ok (staged, downloaded, reused)
  | f :: fs =>
      let '(counts, bytes) :=
        match cached r current f with
        | Some bytes => ((downloaded, reused + 1), Ok bytes)
        | None => ((downloaded + 1, reused), download (at_path o (table_path snapshot (json_stem f) (f_sha256 f))) (f_size f))
        end in
      bytes <-? bytes;;
      guard? negb (negb (Http.llen bytes =? f_size f) || negb (String.eqb (digest bytes) (f_sha256 f))) else Integrity;;
      staged <-? storage (write_synced write staged (f_name f) bytes);;
      fetch r o current snapshot write staged counts.1 counts.2 fs
  end.

Definition unchanged_value (target : PublishedManifest) : json :=
  JObj [("action"%string, JStr "unchanged"); ("content_sha256"%string, JStr (content_sha256 target))].
Definition updated_value (receipt : ImportReceipt) (target : PublishedManifest) (downloaded reused : Z) : json :=
  JObj [("action"%string, JStr "updated"); ("receipt"%string, receipt_value receipt);
        ("content_sha256"%string, JStr (content_sha256 target)); ("downloaded_files"%string, JNum downloaded);
        ("reused_files"%string, JNum reused)].

(** Everything [update] meets: the lock, the owner, the file operations, whether
    the deadline has passed at the end, the snapshot name and the time. *)
Record pass : Type := {
  lock : result MasterError unit;
  the_owner : owner;
  write : staging_io;
  prepare : staging_io;
  late : bool;
  simple : string;
  now : Z;
  pio : PublishIo;
}.

Definition update (r : root) (x : pass) : result SyncError json * list root :=
  match (_ <-? storage (lock x);;
         target <-? sync_manifest (at_start (the_owner x));;
         let current := installed_manifest r in
         if unchanged r current target then Ok (inl (unchanged_value target))
         else
           _ <-? match write x "."%string with Some _ => Err Storage | None => Ok tt end;;
           y <-? fetch r (the_owner x) current (p_snapshot target) (write x) ∅ 0 0 (p_files target);;
           let '(staged, downloaded, reused) := y in
           prepared <-? storage (prepare_registry staged (prepare x) target (simple x));;
           latest <-? sync_manifest (at_end (the_owner x));;
           guard? String.eqb (content_sha256 latest) (content_sha256 target) else Changed;;
           guard? negb (late x) else SyncTimeout;;
           Ok (inr (prepared, target, downloaded, reused))) with
  | Err e => (Err e, [])
  | Ok (inl v) => (Ok v, [])
  | Ok (inr (prepared, target, downloaded, reused)) =>
      let '(res, trace) := publish prepared r (now x) (pio x) in
      (receipt <-? storage res;; Ok (updated_value receipt target downloaded reused), trace)
  end.

(** [update_once]: where the deadline cuts it, what is recorded with the game
    client, and retention after a settled result. *)
Inductive Cut : Type := Uncut | CutWaiting | CutRunning.
Definition put_field (k : string) (x v : json) : json :=
  match v with JObj fields => JObj (fields ++ [(k, x)]) | v => v end.
Definition running_record : json := JObj [("mode"%string, JStr "sync"); ("status"%string, JStr "running")].
Definition settled_record (completed_at : json) (res : result SyncError json) : json :=
  match res with
  | Ok v => JObj [("mode"%string, JStr "sync"); ("status"%string, JStr "ready"); ("completed_at"%string, completed_at); ("result"%string, v)]
  | Err e => JObj [("mode"%string, JStr "sync"); ("status"%string, JStr "failed"); ("error"%string, JStr (sync_error_text e))]
  end.
Definition update_once (game : bool) (keep : option Z) (r : root) (cut : Cut) (x : pass) (retain_lock : result MasterError unit)
    (wio : WriteIo) (io : string -> RenameIo) (completed_at : json) : result SyncError json * list json * list root :=
  let started := match cut with CutWaiting => [] | _ => if game then [running_record] else [] end in
  let '(res, trace) := match cut with Uncut => update r x | _ => (Err SyncTimeout, []) end in
  let '(res, trace) :=
    match res with
    | Ok value =>
        let '(pruned, trace') := retain (List.last trace r) keep retain_lock wio io in
        (Ok (match pruned with Some n => put_field "pruned_snapshots" (JNum n) value | None => value end), trace ++ trace')
    | Err e => (Err e, trace)
    end in
  (res, started ++ (if game then [settled_record completed_at res] else []), trace).
End sync.

(** * Lemmas *)
Section sync_facts.
Context `{!MasterCodecs, !MasterCodecsOk} (scope : Scope).

(** The stem of a table file is the name without its suffix. *)
Lemma trim_json stem : safe_component stem = true -> trim_end_matches (stem ++ ".json") ".json" = stem.
Proof.
  intros Hs. unfold trim_end_matches. cbn [trim_end_fuel]. rewrite (proj2 (strip_suffix_spec _ _ stem) eq_refl).
  destruct (String.length (stem ++ ".json")); [done|]. cbn [trim_end_fuel].
  destruct (strip_suffix stem ".json") as [q|] eqn:E; [|done]. apply strip_suffix_spec in E as ->.
  unfold safe_component in Hs. apply andb_true_iff in Hs as [_ Hs]. rewrite all_bytes_app in Hs.
  apply andb_true_iff in Hs as [_ Hs]. by vm_compute in Hs.
Qed.

Lemma published_file p f :
  published_ok scope p -> In f (p_files p) -> exists stem, f_name f = (stem ++ ".json")%string /\ json_stem f = stem /\ file_ok f.
Proof.
  intros Hp Hf. destruct (inventory_validate_ok _ _ (po_index _ _ Hp)) as (_ & _ & Hn & Hfs & _). cbn in Hn, Hfs.
  pose proof (check_manifest_ok _ (po_source _ _ Hp)) as Hmo.
  assert (Hin : In (f_name f) (map table_name (m_files (source_manifest p)))).
  { apply (in_map f_name) in Hf. rewrite Hn in Hf. by rewrite (sort_by_perm id) in Hf. }
  apply in_map_iff in Hin as (e & E & He). pose proof (mo_entries _ Hmo) as Hes. rewrite Forall_forall in Hes. rewrite Forall_forall in Hfs.
  destruct (table_name_stem e (Hes e ltac:(by apply list_elem_of_In))) as (stem & _ & E2 & _ & _ & Hs). exists stem.
  assert (En : f_name f = (stem ++ ".json")%string) by congruence. split; [done|]. split; [|apply Hfs; by apply list_elem_of_In].
  unfold json_stem. rewrite En. by apply trim_json.
Qed.

Lemma strictly_increasing_sorted l : strictly_increasing l = true -> Sorted.StronglySorted sle l.
Proof.
  induction l as [|a l IH]; [constructor|]. intros Hs.
  assert (Hl : strictly_increasing l = true) by (destruct l; [done|]; cbn in Hs; by apply andb_true_iff in Hs as [_ ?]).
  constructor; [by apply IH|]. specialize (IH Hl). destruct l as [|b l]; [constructor|].
  cbn in Hs. apply andb_true_iff in Hs as [Hab _]. apply sltb_spec in Hab. assert (sle a b) by (apply sle_iff; by right).
  inversion IH; subst. constructor; [done|]. eapply Forall_impl; [eassumption|]. intros c Hc. by etransitivity.
Qed.

(** A validated source manifest is its own sorted form. *)
Lemma published_sorted p : published_ok scope p -> sort_source (source_manifest p) = source_manifest p.
Proof.
  intros Hp. unfold sort_source. destruct (source_manifest p) as [v es] eqn:E. cbn [m_version m_files]. f_equal.
  pose proof (po_sorted _ _ Hp) as Hs. pose proof (mo_nodup _ (check_manifest_ok _ (po_source _ _ Hp))) as Hn. rewrite E in Hs, Hn.
  cbn [m_files] in Hs, Hn. clear E Hp. induction es as [|e es IH]; [done|].
  assert (Hs' : strictly_increasing (map e_name es) = true).
  { destruct es; [done|]. cbn in Hs. by apply andb_true_iff in Hs as [_ ?]. }
  cbn in Hn. apply NoDup_cons in Hn as [_ Hn]. change (insert_by e_name e (sort_by e_name es) = e :: es). rewrite (IH Hs' Hn).
  destruct es as [|e' es]; [done|]. cbn in Hs |- *. apply andb_true_iff in Hs as [Hlt _]. apply sltb_spec in Hlt.
  assert (sleb (e_name e) (e_name e') = true) as ->; [|done]. apply (proj2 (sle_iff _ _)). by right.
Qed.

Lemma sync_manifest_ok x p : sync_manifest scope x = Ok p -> published_validate p scope = Ok tt.
Proof.
  unfold sync_manifest. intros Hm. apply rbind_ok in Hm as (b & _ & Hm). apply rbind_ok in Hm as (v & _ & Hm).
  destruct (published_validate v scope) as [[]|] eqn:E; [|done]. by injection Hm as ->.
Qed.

(** The installed content is the owner's. *)
Definition in_step (r : root) (target : PublishedManifest) : Prop :=
  exists doc p, manifest (fun _ => r) None scope = Ok doc /\ published_from_slice (d_bytes doc) = Some p /\
    content_sha256 p = content_sha256 target /\ p_resource_version p = p_resource_version target /\ served scope (fun _ => r) p.

Lemma unchanged_in_step used r target :
  held scope used r -> unchanged scope r (installed_manifest scope r) target = true -> in_step r target.
Proof.
  intros Hh Hu. unfold unchanged, installed_manifest in Hu. destruct (held_served _ _ _ Hh) as [Hc|(doc & p & H1 & H2 & H3)].
  - exfalso. revert Hu. unfold manifest. destruct (_ || _); [done|]. cbn [negb ensure rbind]. unfold current_snapshot. by rewrite Hc.
  - rewrite H1, H2 in Hu. cbn [some_and] in Hu. apply andb_true_iff in Hu as [Hu _]. apply andb_true_iff in Hu as [E1 E2].
    apply String.eqb_eq in E1. apply bool_decide_eq_true in E2. by exists doc, p.
Qed.

Lemma prepared_target_in_step used r p target pm now io rc trace :
  held scope used r -> environment_ok (environment scope) = true -> r_snapshot (receipt p) ∉ used ->
  published_ok scope target -> complete (staging p) (receipt p) (source_manifest target) (mkInventory 1 (p_version target) (p_files target)) ->
  r_region (receipt p) = region scope -> r_resource_version (receipt p) = p_resource_version target ->
  publish p r now io = (Ok rc, trace) -> pm = published_of scope (receipt p) (source_manifest target) (mkInventory 1 (p_version target) (p_files target)) ->
  in_step (List.last trace r) target /\ p_files pm = p_files target /\ source_manifest pm = source_manifest target.
Proof.
  intros Hh He Hout Hp Hc Hreg Hres Hpub ->.
  pose proof (held_publish scope used r _ p _ _ now io He Hh Hout eq_refl Hc (eq_sym Hreg)) as H1.
  rewrite Hpub in H1. destruct H1 as (_ & _ & Hlast). destruct (Hlast rc eq_refl) as (_ & x & cs & Hh' & Hsound & Hxn & Hxv & _).
  destruct (holds_served _ _ _ _ Hh' Hsound) as (E1 & E2 & E3). cbn [p_files source_manifest published_of i_files].
  split; [|split; [done|by apply published_sorted]].
  exists (i_doc x), (i_value x). rewrite Hxv in *. split; [done|]. split; [done|]. split; [|split; [done|done]].
  cbn [content_sha256 published_of i_files]. rewrite (published_sorted _ Hp). unfold content_of. by rewrite (po_content _ _ Hp).
Qed.
End sync_facts.

Section sync_theorems.
Context `{!MasterCodecs, !MasterCodecsOk} (scope : Scope).

Lemma update_sound used r x res trace :
  held scope used r -> environment_ok (environment scope) = true ->
  snapshot_name (snapshot_id (simple x)) = true -> snapshot_id (simple x) ∉ used ->
  update scope r x = (res, trace) ->
  Forall (held scope ({[snapshot_id (simple x)]} ∪ used)) trace /\
  (forall v, res = Ok v -> exists target, sync_manifest scope (at_start (the_owner x)) = Ok target /\ in_step scope (List.last trace r) target).
Proof.
  intros Hh He Hname Hout. unfold update. destruct (rbind _ _) as [[v|[[[p target] d] u]]|e] eqn:E.
  - intros [= <- <-]. split; [constructor|]. intros v' _. apply rbind_ok in E as ([] & _ & E). apply rbind_ok in E as (target & Ht & E).
    exists target. split; [done|]. destruct (unchanged _ _ _ _) eqn:Eu; [by eapply unchanged_in_step|].
    exfalso. apply rbind_ok in E as ([] & _ & E). apply rbind_ok in E as ([[? ?] ?] & _ & E).
    by do 4 apply rbind_ok in E as (? & _ & E).
  - apply rbind_ok in E as ([] & _ & E). apply rbind_ok in E as (target' & Ht & E). destruct (unchanged _ _ _ _); [done|].
    apply rbind_ok in E as ([] & _ & E). apply rbind_ok in E as ([[staged d'] u'] & _ & E). apply rbind_ok in E as (p' & Hp & E).
    apply rbind_ok in E as (latest & _ & E). apply rbind_ok in E as ([] & _ & E). apply rbind_ok in E as ([] & _ & E).
    injection E as -> -> -> ->. unfold storage in Hp. destruct (prepare_registry _ _ _ _) as [p''|] eqn:Epr; [|done]. injection Hp as ->.
    pose proof (published_validate_ok scope _ (sync_manifest_ok scope _ _ Ht)) as Hok.
    destruct (prepare_registry_complete _ _ _ _ _ Epr Hname) as (Hc & Hn & Hreg & Hres). rewrite (po_scope _ _ Hok) in Hreg.
    pose proof (held_publish scope used r _ p _ _ (now x) (pio x) He Hh Hout Hn Hc (eq_sym Hreg)) as Hall.
    destruct (publish p r (now x) (pio x)) as [pres ptrace] eqn:Epub. intros [= <- <-]. split; [apply Hall|].
    intros v Hv. exists target. split; [done|]. apply rbind_ok in Hv as (rc & Hrc & _). destruct pres as [rc'|]; [|done]. injection Hrc as ->.
    rewrite <- Hn in Hout. by eapply prepared_target_in_step.
  - intros [= <- <-]. split; [constructor|done].
Qed.

(** C20: Whatever the owner answers and whichever file operation fails, every directory a
    synchronization leaves still serves an intact snapshot of its region, and an update
    that reports success has installed (or found installed) the content and asset
    version of a manifest that the owner served at its start and that passed validation. *)
Theorem sync_installs_only_the_owner used r x res trace :
  held scope used r -> environment_ok (environment scope) = true ->
  snapshot_name (snapshot_id (simple x)) = true -> snapshot_id (simple x) ∉ used ->
  update scope r x = (res, trace) ->
  Forall (held scope ({[snapshot_id (simple x)]} ∪ used)) trace /\
  (forall v, res = Ok v -> exists target, sync_manifest scope (at_start (the_owner x)) = Ok target /\ in_step scope (List.last trace r) target).
Proof. apply update_sound. Qed.

(** * An owner that serves *)

(** A request is answered with the JSON document [b], in any number of chunks. *)
Definition answers (x : exchange) (b : list Z) : Prop :=
  exists r, x = Answered r /\ http_status r = 200 /\ json_content r = true /\
    none_or (content_length r) (fun n => n =? Http.llen b) = true /\ body_bytes (body_events r) = Some b.

(** The owner answers with what its directory [ro] reads as. *)
Record serves (ro : root) (doc : Document) (target : PublishedManifest) (o : owner) : Prop := {
  sv_doc : manifest (fun _ => ro) None scope = Ok doc;
  sv_target : published_from_slice (d_bytes doc) = Some target;
  sv_start : answers (at_start o) (d_bytes doc);
  sv_end : answers (at_end o) (d_bytes doc);
  sv_tables : forall f d, In f (p_files target) ->
    table (fun _ => ro) (region scope) (p_snapshot target) (json_stem f) (f_sha256 f) = Ok d ->
    answers (at_path o (table_path (p_snapshot target) (json_stem f) (f_sha256 f))) (d_bytes d);
}.

Lemma download_answer x b limit : answers x b -> Http.llen b <= limit -> download x limit = Ok b.
Proof.
  intros (r & -> & Hs & Hj & Hl & Hb) Hle. unfold download. rewrite Hs, Hj. change (negb (200 =? 200)) with false. cbn [orb negb].
  rewrite orb_false_r. assert (some_and (content_length r) (fun n => limit <? n) = false) as ->.
  { destruct (content_length r) as [n|]; [|done]. cbn in *. apply Z.eqb_eq in Hl. by apply Z.ltb_ge; rewrite Hl. }
  apply read_bounded_spec; [pose proof (llen_nonneg b); cbn; unfold Http.llen in *; cbn; lia|]. by exists b.
Qed.

Lemma table_read_facts v g s t h doc :
  table v g s t h = Ok doc -> json_valid (d_bytes doc) = true /\ digest (d_bytes doc) = h.
Proof.
  unfold table, table_read. destruct (_ || _); [done|]. intros Ht. apply rbind_ok in Ht as (? & _ & Ht). apply rbind_ok in Ht as (src & _ & Ht).
  apply rbind_ok in Ht as (? & _ & Ht). apply rbind_ok in Ht as (b & _ & Ht). apply rbind_ok in Ht as ([] & Hd & Ht).
  apply ensure_ok, String.eqb_eq in Hd. apply rbind_ok in Ht as (i & _ & Ht). apply rbind_ok in Ht as ([] & Hv & [= <-]).
  cbn [orb] in Hv. by apply ensure_ok in Hv.
Qed.

(** Bytes that are the file [f]. *)
Definition is_file (f : File) (b : list Z) : Prop := Http.llen b = f_size f /\ digest b = f_sha256 f /\ json_valid b = true.

Lemma served_file v p f :
  published_ok scope p -> served scope v p -> In f (p_files p) ->
  exists d, table v (region scope) (p_snapshot p) (json_stem f) (f_sha256 f) = Ok d /\ is_file f (d_bytes d).
Proof.
  intros Hp (_ & Hs) Hf. destruct (published_file scope p f Hp Hf) as (stem & E1 & E2 & _).
  destruct (Hs f stem Hf E1) as (b & H1 & H2 & H3). rewrite E2. eexists. split; [exact H3|].
  split; [done|]. split; [done|]. by apply table_read_facts in H3 as [H3 _].
Qed.

Lemma fetch_one r o ro doc target f :
  serves ro doc target o -> served scope (fun _ => ro) target -> published_ok scope target -> In f (p_files target) ->
  (forall p, installed_manifest scope r = Some p -> published_ok scope p /\ served scope (fun _ => r) p) ->
  exists b, is_file f b /\
    match cached scope r (installed_manifest scope r) f with
    | Some bytes => bytes = b
    | None => download (at_path o (table_path (p_snapshot target) (json_stem f) (f_sha256 f))) (f_size f) = Ok b
    end.
Proof.
  intros Hsv Hserved Hok Hf Hinst. destruct (cached scope r (installed_manifest scope r) f) as [bytes|] eqn:Ec.
  - exists bytes. split; [|done]. unfold cached in Ec. destruct (installed_manifest scope r) as [p|]; [|done].
    destruct (Hinst p eq_refl) as (Hpo & Hps). destruct (existsb _ _) eqn:Ex; [|done].
    apply existsb_exists in Ex as (old & Hin & E). apply bool_decide_eq_true in E as ->.
    destruct (served_file _ p f Hpo Hps Hin) as (d & Ht & Hd). rewrite Ht in Ec. by injection Ec as <-.
  - destruct (served_file _ target f Hok Hserved Hf) as (d & Ht & Hd). exists (d_bytes d). split; [done|].
    apply (download_answer _ _ _ (sv_tables _ _ _ _ Hsv f d Hf Ht)). destruct Hd as [-> _]. lia.
Qed.

Lemma fetch_complete r o ro doc target wr staged d u fs :
  serves ro doc target o -> served scope (fun _ => ro) target -> published_ok scope target -> (forall f, In f fs -> In f (p_files target)) ->
  (forall p, installed_manifest scope r = Some p -> published_ok scope p /\ served scope (fun _ => r) p) ->
  (forall n, wr n = None) -> NoDup (map f_name fs) ->
  exists staged' d' u', fetch scope r o (installed_manifest scope r) (p_snapshot target) wr staged d u fs = Ok (staged', d', u') /\
    Forall (fun f => exists b, staged' !! f_name f = Some (Regular b) /\ is_file f b) fs /\
    (forall n, ~ In n (map f_name fs) -> staged' !! n = staged !! n).
Proof.
  intros Hsv Hserved Hok Hsub Hinst Hwr. revert staged d u. induction fs as [|f fs IH]; intros staged d u Hn.
  { exists staged, d, u. split; [done|]. split; [constructor|done]. }
  cbn in Hn. apply NoDup_cons in Hn as [Hnf Hn]. rewrite list_elem_of_In in Hnf.
  destruct (fetch_one r o ro doc target f Hsv Hserved Hok (Hsub f ltac:(by left)) Hinst) as (b & Hb & Hc).
  assert (Hstep : exists d1 u1, fetch scope r o (installed_manifest scope r) (p_snapshot target) wr staged d u (f :: fs)
    = fetch scope r o (installed_manifest scope r) (p_snapshot target) wr (<[f_name f := Regular b]> staged) d1 u1 fs).
  { destruct Hb as (H1 & H2 & _). cbn [fetch]. destruct (cached _ _ _ _) as [bytes|]; [subst bytes|rewrite Hc]; cbn [rbind fst snd];
      rewrite H1, H2, Z.eqb_refl, String.eqb_refl; cbn [negb orb ensure rbind]; unfold write_synced; rewrite Hwr; cbn [storage rbind]; eauto. }
  destruct Hstep as (d1 & u1 & ->).
  destruct (IH ltac:(intros g Hg; apply Hsub; by right) (<[f_name f := Regular b]> staged) d1 u1 Hn) as (s' & d' & u' & E & Hall & Hother).
  exists s', d', u'. split; [done|]. split.
  - constructor; [|done]. exists b. split; [|done]. rewrite Hother by done. apply lookup_insert_eq.
  - intros n Hnot. cbn in Hnot. rewrite Hother by tauto. apply lookup_insert_ne. tauto.
Qed.

Lemma check_tables_complete staged io total fs :
  Forall (fun f => exists b, staged !! f_name f = Some (Regular b) /\ is_file f b) fs -> (forall n, io n = None) ->
  exists total', check_tables staged io total fs = Ok total'.
Proof.
  intros Hall Hio. revert total. induction Hall as [|f fs (b & Hb & H1 & H2 & H3) _ IH]; intros total; [by eexists|].
  cbn [check_tables]. rewrite Hb. cbn [rbind MasterFiles.read_bounded]. unfold bounded. rewrite H1, Z.ltb_irrefl. cbn [rbind].
  rewrite H1, Z.eqb_refl, H2, String.eqb_refl. cbn [negb orb ensure rbind]. unfold validate_json. rewrite H3. cbn [ensure rbind].
  rewrite Hio. cbn [rbind]. apply IH.
Qed.

Lemma prepare_registry_succeeds staged io target simple :
  published_validate target scope = Ok tt -> published_ok scope target ->
  Forall (fun f => exists b, staged !! f_name f = Some (Regular b) /\ is_file f b) (p_files target) -> (forall n, io n = None) ->
  exists p, prepare_registry staged io target simple = Ok p.
Proof.
  intros Hv Hok Hall Hio. unfold prepare_registry. rewrite (po_scope _ _ Hok), Hv. cbn [rbind].
  destruct (check_tables_complete staged io 0 _ Hall Hio) as (total & ->). cbn [rbind].
  destruct (inventory_roundtrip (mkInventory 1 (p_version target) (p_files target))) as (ib & -> & _). cbn [ok_or rbind].
  destruct (manifest_roundtrip (source_manifest target)) as (mb & -> & _).
  unfold write_synced. rewrite !Hio. cbn [ok_or rbind]. 
  match goal with |- context [receipt_to_vec ?rc] => destruct (receipt_roundtrip rc) as (rb & -> & _) end. cbn [ok_or rbind].
  unfold sync_staging. rewrite !Hio. cbn [rbind]. eauto.
Qed.

Lemma published_names_nodup p : published_ok scope p -> NoDup (map f_name (p_files p)).
Proof.
  intros Hp. destruct (inventory_validate_ok _ _ (po_index _ _ Hp)) as (_ & _ & Hn & _). cbn in Hn. rewrite Hn, (sort_by_perm id).
  pose proof (check_manifest_ok _ (po_source _ _ Hp)) as Hmo. apply table_names_nodup; apply Hmo.
Qed.

Lemma held_installed used r p :
  held scope used r -> installed_manifest scope r = Some p -> published_ok scope p /\ served scope (fun _ => r) p.
Proof.
  intros Hh. unfold installed_manifest. destruct (held_served _ _ _ Hh) as [Hc|(doc & p' & H1 & H2 & H3)].
  - unfold manifest. destruct (_ || _); [done|]. cbn [negb ensure rbind]. unfold current_snapshot. by rewrite Hc.
  - rewrite H1, H2. intros [= <-]. split; [|done]. apply published_validate_ok, H3.
Qed.

(** With an owner that serves and working file operations an update succeeds. *)
Lemma update_follows used r ro doc target o x :
  held scope used r -> environment_ok (environment scope) = true ->
  snapshot_name (snapshot_id (simple x)) = true -> snapshot_id (simple x) ∉ used -> snapshots r !! snapshot_id (simple x) = None ->
  serves ro doc target o -> served scope (fun _ => ro) target -> Http.llen (d_bytes doc) <= 4 * 1024 * 1024 ->
  lock x = Ok tt -> the_owner x = o -> (forall n, write x n = None) -> (forall n, prepare x n = None) -> late x = false -> pio x = PublishOk ->
  exists v trace, update scope r x = (Ok v, trace) /\ in_step scope (List.last trace r) target.
Proof.
  intros Hh He Hname Hout Hfresh Hsv Hserved Hsize Hlock Ho Hwr Hpr Hlate Hpio.
  assert (Hm : forall e, e = at_start o \/ e = at_end o -> sync_manifest scope e = Ok target).
  { intros e Hc. assert (answers e (d_bytes doc)) as He' by (destruct Hc as [-> | ->]; apply Hsv).
    unfold sync_manifest. rewrite (download_answer _ _ _ He') by done. cbn [rbind]. rewrite (sv_target _ _ _ _ Hsv). cbn [ok_or rbind].
    by rewrite (proj1 Hserved). }
  pose proof (published_validate_ok scope target (proj1 Hserved)) as Hok.
  assert (Hupd : exists v trace, update scope r x = (Ok v, trace)).
  { unfold update. rewrite Hlock, Ho. cbn [storage rbind]. rewrite (Hm _ (or_introl eq_refl)). cbn [rbind].
    destruct (unchanged _ _ _ _); [eauto|]. rewrite Hwr. cbn [rbind].
    destruct (fetch_complete r o ro doc target (write x) ∅ 0 0 (p_files target) Hsv Hserved Hok (fun f Hf => Hf)
      (fun p => held_installed used r p Hh) Hwr (published_names_nodup _ Hok)) as (staged & d & u & -> & Hall & _). cbn [rbind].
    destruct (prepare_registry_succeeds staged (prepare x) target (simple x) (proj1 Hserved) Hok Hall Hpr) as (p & Hp).
    rewrite Hp. cbn [storage rbind]. rewrite (Hm _ (or_intror eq_refl)). cbn [rbind]. rewrite String.eqb_refl, Hlate. cbn [negb ensure rbind].
    destruct (prepare_registry_complete _ _ _ _ _ Hp Hname) as (Hc & Hn & Hreg & _). rewrite (po_scope _ _ Hok) in Hreg.
    pose proof (held_publish scope used r _ p _ _ (now x) (pio x) He Hh Hout Hn Hc (eq_sym Hreg)) as Hpub.
    destruct (publish p r (now x) (pio x)) as [res trace]. destruct Hpub as (_ & Hdone & _). rewrite (Hdone Hpio Hfresh). cbn [storage rbind]. eauto. }
  destruct Hupd as (v & trace & E). exists v, trace. split; [done|].
  destruct (update_sound used r x _ _ Hh He Hname Hout E) as (_ & Hin). destruct (Hin v eq_refl) as (target' & Ht & Hstep).
  rewrite Ho, (Hm _ (or_introl eq_refl)) in Ht. by injection Ht as ->.
Qed.
End sync_theorems.
