(* ===== verification/MasterAdmission.v ===== *)
(** Admission of Master table reads ([master_admission.rs]): the gate of permits
    with its FIFO queue, the body that hands a table over in chunks and keeps its
    permit until the last one, and the rate-limited warning.

    The semaphore is the library's, with its documented behaviour: permits are
    granted in order of arrival, and a permit whose last clone is dropped goes to
    the first waiter. *)
From Stdlib Require Import ZArith Lia Ascii String List Bool.
From stdpp Require Import base list decidable gmap.
From S2P Require Import Prelude Errors Http.

Local Open Scope Z_scope.
Local Open Scope rust_scope.

Definition TABLE_READS : Z := 16.
Definition WARN_EVERY_SECS : Z := 60.
Definition CHUNK : Z := 64 * 1024.

(** * Bodies *)

(** What polling the inner body gives next: a data frame, another frame, an
    error, or nothing yet.  Its end is the end of the list. *)
Inductive event : Type := Data (b : list Z) | Trailers | Broken | NotReady.

Record Held : Type := mkHeld { inner : list event; pending : list Z }.

Inductive polled : Type := Frame (b : list Z) | OtherFrame | Failed | Pending | End.

Definition take_chunk (data : list Z) (inner : list event) : polled * Held :=
  let n := Z.to_nat (Z.min (llen data) CHUNK) in
  (Frame (take n data), mkHeld inner (drop n data)).

Definition poll_frame (h : Held) : polled * Held :=
  match pending h with
  | [] =>
      match inner h with
      | [] => (End, h)
      | NotReady :: i => (Pending, mkHeld i [])
      | Data d :: i => if CHUNK <? llen d then take_chunk d i else (Frame d, mkHeld i [])
      | Trailers :: i => (OtherFrame, mkHeld i [])
      | Broken :: i => (Failed, mkHeld i [])
      end
  | d => take_chunk d (inner h)
  end.

Definition is_nil {A} (l : list A) : bool := match l with [] => true | _ => false end.
Definition is_end_stream (inner_end : bool) (h : Held) : bool := is_nil (pending h) && inner_end.
Definition size_hint (lower : Z) (upper : option Z) (h : Held) : Z * option Z :=
  (lower + llen (pending h), option_map (fun u => u + llen (pending h)) upper).

(** The bytes a body has still to hand over. *)
Fixpoint inner_bytes (i : list event) : list Z :=
  match i with
  | [] => []
  | Data d :: i => d ++ inner_bytes i
  | _ :: i => inner_bytes i
  end.
Definition remaining (h : Held) : list Z := pending h ++ inner_bytes (inner h).

Definition frame_bytes (p : polled) : list Z := match p with Frame b => b | _ => [] end.

(** The connection's polls, each result with the body after it. *)
Fixpoint drain (n : nat) (h : Held) : list (polled * Held) :=
  match n with
  | O => []
  | S n => let '(p, h') := poll_frame h in (p, h') :: drain n h'
  end.

(** [attach]: a 200 with its body held, anything else as it is. *)
Definition attach (status : Z) (body : list Z) : option Held :=
  if negb (status =? 200) then None else Some (mkHeld (match body with [] => [] | _ => [Data body] end) []).

(** * The gate *)

(** Who holds a clone of a permit: the handler, the blocking read, the body. *)
Record request : Type := mkRequest { handler : bool; worker : bool; body : option Held }.
Record gate : Type := mkGate { permits : Z; queue : list nat; requests : gmap nat request }.

Definition new_gate : gate := mkGate TABLE_READS [] ∅.
Definition fresh_request : request := mkRequest true false None.
Definition live (q : request) : bool := handler q || worker q || is_some (body q).

(** [admit] before it waits. *)
Definition arrive (g : gate) (i : nat) : gate :=
  if 0 <? permits g then mkGate (permits g - 1) (queue g) (<[i := fresh_request]> (requests g))
  else mkGate (permits g) (queue g ++ [i]) (requests g).
(** The wait passed, or the caller went away: the 503 of [admit], or nothing. *)
Definition leave_queue (g : gate) (i : nat) : gate :=
  mkGate (permits g) (List.filter (fun j => negb (Nat.eqb i j)) (queue g)) (requests g).

(** A change of who holds a permit; the last clone gives it to the first waiter
    or back. *)
Definition settle (g : gate) (i : nat) (q : request) : gate :=
  if live q then mkGate (permits g) (queue g) (<[i := q]> (requests g))
  else match queue g with
       | j :: queue' => mkGate (permits g) queue' (<[j := fresh_request]> (delete i (requests g)))
       | [] => mkGate (permits g + 1) [] (delete i (requests g))
       end.

Section steps.
Context (max_json : Z).

Inductive step : gate -> gate -> Prop :=
| step_arrive g i : requests g !! i = None -> ~ In i (queue g) -> step g (arrive g i)
| step_leave g i : In i (queue g) -> step g (leave_queue g i)
| step_read g i q : requests g !! i = Some q -> handler q = true -> worker q = false -> body q = None ->
    step g (settle g i (mkRequest true true None))
| step_read_done g i q : requests g !! i = Some q -> worker q = true -> step g (settle g i (mkRequest (handler q) false (body q)))
| step_cancel g i q : requests g !! i = Some q -> handler q = true -> step g (settle g i (mkRequest false (worker q) (body q)))
| step_respond g i q status bytes : requests g !! i = Some q -> handler q = true -> worker q = false -> llen bytes <= max_json ->
    step g (settle g i (mkRequest false false (attach status bytes)))
| step_poll g i q h : requests g !! i = Some q -> body q = Some h ->
    step g (settle g i (mkRequest (handler q) (worker q) (Some (snd (poll_frame h)))))
| step_drop g i q h : requests g !! i = Some q -> body q = Some h -> step g (settle g i (mkRequest (handler q) (worker q) None)).

Inductive gate_reachable : gate -> Prop :=
| gate_new : gate_reachable new_gate
| gate_step g g' : gate_reachable g -> step g g' -> gate_reachable g'.

(** The bytes of tables that bodies hold. *)
Definition request_bytes (q : request) : Z := match body q with Some h => llen (remaining h) | None => 0 end.
Definition held_bytes (g : gate) : Z :=
  List.fold_right (fun x t => request_bytes (snd x) + t) 0 (map_to_list (requests g)).
End steps.

(** * The warning *)

(** One rejection's trip through [warn_busy]: the time and the value it read. *)
Record warner : Type := mkWarner { w_now : Z; w_last : Z }.
Record warning : Type := mkWarning { last_warned : Z; between : list warner; logged : list Z }.

Definition warn_load (s : warning) (elapsed : Z) : warning :=
  mkWarning (last_warned s) (mkWarner (elapsed + WARN_EVERY_SECS) (last_warned s) :: between s) (logged s).
(** The test and the exchange of one of the rejections between load and exchange. *)
Definition warn_exchange (s : warning) (w : warner) (rest : list warner) : warning :=
  if (w_last w + WARN_EVERY_SECS <=? w_now w) && (last_warned s =? w_last w)
  then mkWarning (w_now w) rest (w_now w :: logged s)
  else mkWarning (last_warned s) rest (logged s).

Inductive warn_step : warning -> warning -> Prop :=
| warn_step_load s elapsed : 0 <= elapsed -> warn_step s (warn_load s elapsed)
| warn_step_exchange s before w after : between s = before ++ w :: after -> warn_step s (warn_exchange s w (before ++ after)).

(** * Lemmas *)
Lemma poll_frame_remaining h :
  remaining h = frame_bytes (fst (poll_frame h)) ++ remaining (snd (poll_frame h)) /\ llen (frame_bytes (fst (poll_frame h))) <= CHUNK.
Proof.
  assert (Hc : 0 <= CHUNK) by (unfold CHUNK; lia).
  assert (Htake : forall d i, d ++ inner_bytes i = frame_bytes (fst (take_chunk d i)) ++ remaining (snd (take_chunk d i)) /\
    llen (frame_bytes (fst (take_chunk d i))) <= CHUNK).
  { intros d i. unfold take_chunk, remaining. cbn. rewrite app_assoc, take_drop. split; [done|].
    unfold llen. rewrite length_take. lia. }
  unfold poll_frame. destruct h as [i [|x p]]; cbn [pending inner]; [|exact (Htake (x :: p) i)].
  destruct i as [|[d| | |] i]; try (split; [done|unfold llen; cbn; lia]).
  destruct (Z.ltb_spec CHUNK (llen d)); [exact (Htake d i)|]. split; [done|]. cbn. lia.
Qed.

Lemma drain_bytes n h :
  let polls := drain n h in
  remaining h = concat (map (fun x => frame_bytes (fst x)) polls) ++ remaining (List.last (map snd polls) h) /\
  Forall (fun x => llen (frame_bytes (fst x)) <= CHUNK) polls.
Proof.
  revert h. induction n as [|n IH]; intros h; cbn [drain]; [by split; [|constructor]|].
  destruct (poll_frame_remaining h) as [H1 H2]. destruct (poll_frame h) as [p h'] eqn:E. cbn [fst snd] in *.
  destruct (IH h') as [H3 H4]. cbn [map concat fst snd]. split; [|by constructor].
  rewrite last_cons_default, <- app_assoc, <- H3. exact H1.
Qed.

(** Polling a body that always makes progress ends, with an end. *)
Fixpoint ready (i : list event) : bool :=
  match i with [] => true | NotReady :: _ => false | _ :: i => ready i end.
Fixpoint events_left (i : list event) : nat :=
  match i with [] => 0 | Data d :: i => S (length d + events_left i) | _ :: i => S (events_left i) end.
Definition polls_left (h : Held) : nat := length (pending h) + events_left (inner h).

Lemma poll_frame_progress h :
  match fst (poll_frame h) with
  | End => remaining h = [] /\ snd (poll_frame h) = h
  | _ => (polls_left (snd (poll_frame h)) < polls_left h)%nat
  end.
Proof.
  assert (Htake : forall d i, (0 < length d)%nat -> (polls_left (snd (take_chunk d i)) < length d + events_left i)%nat).
  { intros d i Hd. unfold take_chunk, polls_left. cbn [snd pending inner]. rewrite length_drop. unfold CHUNK, llen. lia. }
  unfold poll_frame. destruct h as [i [|x p]]; cbn [pending inner]; [|apply (Htake (x :: p) i); cbn; lia].
  destruct i as [|[d| | |] i]; try (unfold polls_left; cbn; lia); [by split|].
  destruct (Z.ltb_spec CHUNK (llen d)) as [Hlt|Hge]; [|unfold polls_left; cbn; lia].
  unfold CHUNK, llen in Hlt. specialize (Htake d i ltac:(lia)). cbn [fst take_chunk].
  change (polls_left (mkHeld (Data d :: i) [])) with (S (length d + events_left i)). lia.
Qed.

Lemma drain_end n h :
  (polls_left h < n)%nat -> List.last (map fst (drain n h)) Pending = End /\ remaining (List.last (map snd (drain n h)) h) = [].
Proof.
  revert h. induction n as [|n IH]; intros h Hn; [lia|]. cbn [drain]. pose proof (poll_frame_progress h) as Hp.
  destruct (poll_frame h) as [p h'] eqn:E. cbn [fst snd] in Hp. cbn [map fst snd]. rewrite !last_cons_default.
  assert (Hcase : (p = End /\ h' = h /\ remaining h = []) \/ (polls_left h' < polls_left h)%nat).
  { destruct p; try (by right). left. destruct Hp. auto. }
  destruct n as [|n].
  - destruct Hcase as [(-> & -> & Hr)|Hlt]; [by split|lia].
  - assert (Hlt : (polls_left h' < S n)%nat).
    { destruct Hcase as [(-> & -> & Hr)|Hlt]; [|lia]. unfold poll_frame in E. destruct h as [i [|x q]]; [|done].
      destruct i as [|[d| | |] i]; cbn in E; [cbn; lia| |done..]. by destruct (_ <? _). }
    destruct (IH h' Hlt) as [H1 H2]. split; [|done].
    destruct (drain (S n) h') as [|[a b] l] eqn:Ed; [cbn in Ed; by destruct (poll_frame h')|].
    cbn [map fst] in *. by rewrite last_cons_default in *.
Qed.

(** Polling a held table body hands over exactly the bytes of the inner body, in frames
    of at most a chunk, ends only after the last byte, after finitely many polls, and
    its size hint and end-of-stream flag account for the bytes still pending. *)
Lemma body_hands_over_everything n h :
  let polls := drain n h in
  remaining h = concat (map (fun x => frame_bytes (fst x)) polls) ++ remaining (List.last (map snd polls) h) /\
  Forall (fun x => llen (frame_bytes (fst x)) <= CHUNK) polls /\
  Forall (fun x => fst x = End -> remaining (snd x) = []) polls /\
  fst (size_hint (llen (inner_bytes (inner h))) None h) = llen (remaining h) /\
  (is_end_stream (is_nil (inner h)) h = true -> remaining h = []) /\
  ((polls_left h < n)%nat -> List.last (map fst polls) Pending = End /\ concat (map (fun x => frame_bytes (fst x)) polls) = remaining h).
Proof.
  intros polls. destruct (drain_bytes n h) as [H1 H2]. split; [done|]. split; [done|]. split; [|split; [|split]].
  - unfold polls. clear. revert h. induction n as [|n IH]; intros h; cbn [drain]; [constructor|].
    pose proof (poll_frame_progress h) as Hp. destruct (poll_frame h) as [p h'] eqn:E. constructor; [|apply IH].
    cbn [fst snd] in *. intros ->. destruct Hp as [Hr ->]. done.
  - unfold size_hint, remaining. cbn [fst]. unfold llen. rewrite length_app. lia.
  - unfold is_end_stream, remaining. destruct (pending h); [|done]. destruct (inner h); [done|done].
  - intros Hn. destruct (drain_end n h Hn) as [H3 H4]. split; [done|]. rewrite H4, app_nil_r in H1. by rewrite H1.
Qed.

Section gate_facts.
Context (max_json : Z) (Hmax : 0 <= max_json).

Record gate_ok (g : gate) : Prop := {
  go_permits : permits g + Z.of_nat (size (requests g)) = TABLE_READS;
  go_nonneg : 0 <= permits g;
  go_queue : queue g <> [] -> permits g = 0;
  go_nodup : NoDup (queue g);
  go_waiting : forall i, In i (queue g) -> requests g !! i = None;
  go_live : forall i q, requests g !! i = Some q -> live q = true /\ 0 <= request_bytes q <= max_json;
}.

Lemma fresh_ok : live fresh_request = true /\ 0 <= request_bytes fresh_request <= max_json.
Proof. split; [done|]. cbn. lia. Qed.

Lemma insert_live (rs : gmap nat request) i q :
  (forall j x, rs !! j = Some x -> live x = true /\ 0 <= request_bytes x <= max_json) ->
  live q = true /\ 0 <= request_bytes q <= max_json ->
  forall j x, <[i := q]> rs !! j = Some x -> live x = true /\ 0 <= request_bytes x <= max_json.
Proof.
  intros Hall Hq j x. destruct (decide (i = j)) as [->|Hne].
  - rewrite lookup_insert_eq. by intros [= <-].
  - rewrite lookup_insert_ne by done. apply Hall.
Qed.

Lemma settle_ok g i q0 q :
  gate_ok g -> requests g !! i = Some q0 -> 0 <= request_bytes q <= max_json -> gate_ok (settle g i q).
Proof.
  intros [H1 H2 H3 H4 H5 H6] Hi Hb. unfold settle. destruct (live q) eqn:El.
  - constructor; cbn [permits queue requests]; try done.
    + by rewrite map_size_insert_Some by by rewrite Hi.
    + intros j Hj. rewrite lookup_insert_ne; [by apply H5|]. intros ->. apply H5 in Hj. congruence.
    + by apply insert_live.
  - assert (Hdel : Z.of_nat (size (delete i (requests g))) = Z.of_nat (size (requests g)) - 1).
    { rewrite map_size_delete_Some by by rewrite Hi. assert (size (requests g) <> 0%nat); [|lia].
      intros E. apply map_size_empty_inv in E. by rewrite E, lookup_empty in Hi. }
    assert (Hlive : forall j x, delete i (requests g) !! j = Some x -> live x = true /\ 0 <= request_bytes x <= max_json).
    { intros j x Hj. apply lookup_delete_Some in Hj as [_ Hj]. by eapply H6. }
    destruct (queue g) as [|j rest] eqn:Eq.
    + constructor; cbn [permits queue requests]; [lia|lia|done|constructor|done|done].
    + assert (Hij : i <> j) by (intros ->; specialize (H5 j ltac:(by left)); congruence).
      apply NoDup_cons in H4 as [Hjr H4]. rewrite list_elem_of_In in Hjr.
      constructor; cbn [permits queue requests].
      * rewrite map_size_insert_None; [lia|]. apply lookup_delete_None. right. apply H5. by left.
      * done.
      * intros _. by apply H3.
      * done.
      * intros k Hk. rewrite lookup_insert_ne by congruence. apply lookup_delete_None. right. apply H5. by right.
      * apply insert_live; [done|apply fresh_ok].
Qed.

Lemma filter_subset (i : nat) l j : In j (List.filter (fun j => negb (Nat.eqb i j)) l) -> In j l.
Proof. intros Hj. apply filter_In in Hj. tauto. Qed.

Lemma gate_step_ok g g' : gate_ok g -> step max_json g g' -> gate_ok g'.
Proof.
  intros Hok Hs. destruct Hs as [g i Hi Hq|g i Hi|g i q Hi Hh Hw Hb|g i q Hi Hw|g i q Hi Hh|g i q status bytes Hi Hh Hw Hl|g i q h Hi Hb|g i q h Hi Hb].
  - destruct Hok as [H1 H2 H3 H4 H5 H6]. unfold arrive. destruct (Z.ltb_spec 0 (permits g)) as [Hp|Hp].
    + assert (queue g = []) as E by (destruct (queue g); [done|]; specialize (H3 ltac:(done)); lia).
      constructor; cbn [permits queue requests]; rewrite ?E; try done; [|lia|constructor|by apply insert_live, fresh_ok].
      rewrite map_size_insert_None by done. lia.
    + constructor; cbn [permits queue requests]; try done; [intros _; lia| |].
      * apply NoDup_app. split; [done|]. split; [|apply NoDup_singleton]. intros j Hj Hj'. apply list_elem_of_singleton in Hj' as ->.
        by apply Hq, list_elem_of_In.
      * intros j Hj. apply in_app_iff in Hj as [Hj|[<-|[]]]; auto.
  - destruct Hok as [H1 H2 H3 H4 H5 H6]. unfold leave_queue. constructor; cbn [permits queue requests]; try done.
    + intros Hne. apply H3. intros E. by rewrite E in Hne.
    + clear -H4. induction (queue g) as [|x l IH]; cbn; [constructor|]. apply NoDup_cons in H4 as [Hx H4]. specialize (IH H4).
      destruct (negb _); [|done]. apply NoDup_cons. split; [|done]. rewrite list_elem_of_In in *. intros Hin. by apply filter_subset in Hin.
    + intros j Hj. by eapply H5, filter_subset.
  - eapply settle_ok; [done..|]. cbn. lia.
  - eapply settle_ok; [done..|]. destruct (go_live g Hok i q Hi) as [_ Hq]. exact Hq.
  - eapply settle_ok; [done..|]. destruct (go_live g Hok i q Hi) as [_ Hq]. exact Hq.
  - eapply settle_ok; [done..|]. unfold request_bytes. cbn [body]. unfold attach. destruct (negb _); [unfold llen in *; lia|].
    unfold remaining. cbn [pending inner]. destruct bytes; [unfold llen in *; cbn; lia|]. cbn [inner_bytes]. rewrite !app_nil_r. unfold llen in *. cbn in *. lia.
  - destruct (go_live g Hok i q Hi) as [_ Hq]. unfold request_bytes in Hq. rewrite Hb in Hq.
    eapply settle_ok; [done..|]. unfold request_bytes. cbn [body]. destruct (poll_frame_remaining h) as [E _].
    apply (f_equal llen) in E. rewrite llen_app in E. pose proof (llen_nonneg (frame_bytes (fst (poll_frame h)))).
    pose proof (llen_nonneg (remaining (snd (poll_frame h)))). lia.
  - eapply settle_ok; [done..|]. cbn. lia.
Qed.

Lemma gate_reachable_ok g : gate_reachable max_json g -> gate_ok g.
Proof.
  induction 1 as [|g g' _ IH Hs]; [|by eapply gate_step_ok]. constructor; cbn; try done; try constructor.
Qed.

Lemma held_bytes_bound g : gate_ok g -> held_bytes g <= TABLE_READS * max_json.
Proof.
  intros Hok. pose proof (go_permits g Hok). pose proof (go_nonneg g Hok).
  assert (Hall : Forall (fun x => 0 <= request_bytes (snd x) <= max_json) (map_to_list (requests g))).
  { apply Forall_forall. intros [i q] Hin. apply elem_of_map_to_list in Hin. by apply (go_live g Hok i q). }
  assert (Hsum : held_bytes g <= Z.of_nat (length (map_to_list (requests g))) * max_json).
  { unfold held_bytes. induction Hall as [|x l Hx Hl IH]; cbn; lia. }
  rewrite length_map_to_list in Hsum. nia.
Qed.
End gate_facts.

(** Under every interleaving of arrivals, timeouts, cancellations, reads, responses and
    slow bodies, at most the gate's permits are held at a time, nobody waits while a
    permit is free, every holder is a request that still has a handler, a read or a
    body, and the table bytes held by bodies are at most permits times the table limit. *)
Lemma table_reads_are_bounded max_json g :
  0 <= max_json -> gate_reachable max_json g ->
  permits g + Z.of_nat (size (requests g)) = TABLE_READS /\ 0 <= permits g /\
  (forall i q, requests g !! i = Some q -> live q = true) /\
  (queue g <> [] -> Z.of_nat (size (requests g)) = TABLE_READS) /\
  held_bytes g <= TABLE_READS * max_json /\
  (requests g = ∅ -> permits g = TABLE_READS /\ queue g = []).
Proof.
  intros Hm Hr. pose proof (gate_reachable_ok max_json Hm g Hr) as Hok. pose proof (held_bytes_bound max_json Hm g Hok) as Hb.
  destruct Hok as [H1 H2 H3 H4 H5 H6]. split; [done|]. split; [done|]. split; [intros i q Hi; by apply (H6 i q)|].
  split; [intros Hq; specialize (H3 Hq); lia|]. split; [done|]. intros E. rewrite E in H1. change (size ∅) with 0%nat in H1.
  split; [lia|]. destruct (queue g); [done|]. specialize (H3 ltac:(done)). unfold TABLE_READS in *. lia.
Qed.

(** Warnings are at least a minute apart. *)
Fixpoint spaced (l : list Z) : Prop :=
  match l with
  | a :: ((b :: _) as l') => b + WARN_EVERY_SECS <= a /\ spaced l'
  | _ => True
  end.
Inductive warn_reachable : warning -> Prop :=
| warn_new : warn_reachable (mkWarning 0 [] [])
| warn_next s s' : warn_reachable s -> warn_step s s' -> warn_reachable s'.

Lemma warnings_spaced s : warn_reachable s -> last_warned s = hd 0 (logged s) /\ spaced (logged s).
Proof.
  induction 1 as [|s s' _ [H1 H2] Hs]; [done|]. destruct Hs as [s elapsed He|s before w after Hb]; [done|].
  unfold warn_exchange. destruct (_ && _) eqn:E; [|done]. cbn [last_warned logged hd]. split; [done|].
  apply andb_true_iff in E as [Hle Heq]. apply Z.leb_le in Hle. apply Z.eqb_eq in Heq.
  destruct (logged s) as [|x l]; [done|]. cbn in H1. split; [lia|done].
Qed.

(** The first rejection of a process warns. *)
Lemma first_rejection_warns elapsed :
  0 <= elapsed ->
  let s := warn_load (mkWarning 0 [] []) elapsed in
  logged (warn_exchange s (mkWarner (elapsed + WARN_EVERY_SECS) 0) []) = [elapsed + WARN_EVERY_SECS].
Proof.
  intros He. cbv zeta. unfold warn_exchange, warn_load. cbn [w_last w_now last_warned logged].
  by rewrite (proj2 (Z.leb_le _ _)) by lia.
Qed.

(** * Examples *)
Lemma table_reads_are_bounded_witness :
  let g := settle (arrive new_gate 1) 1 (mkRequest true true None) in
  gate_reachable 100 g /\ permits g + Z.of_nat (size (requests g)) = TABLE_READS.
Proof.
  assert (Hr : gate_reachable 100 (settle (arrive new_gate 1) 1 (mkRequest true true None))).
  { eapply gate_step; [eapply gate_step; [apply gate_new|]|].
    - apply step_arrive; [reflexivity|intros []].
    - apply (step_read 100 (arrive new_gate 1) 1 fresh_request); reflexivity. }
  split; [exact Hr|]. exact (proj1 (table_reads_are_bounded 100 _ ltac:(lia) Hr)).
Defined.
