(* ===== verification/MasterHttp.v ===== *)
(** Master documents over HTTP: the handlers of the standalone registry
    ([registry_service.rs], files backend) and of the API ([api.rs]), bearer
    authorization, conditional reads, and the service as the owner a consumer
    synchronizes with.

    A reply is a status, headers and the bytes of its body; the connection turns
    a held body into chunks as [MasterAdmission] says.  The PostgreSQL backend
    is not modelled here; bundles are in [MasterBundle]; history is encoded by an
    external codec. *)
From Stdlib Require Import ZArith Lia Ascii String List Bool Permutation.
From stdpp Require Import base list strings decidable gmap.
From S2P Require Import Prelude BTree Errors Regions Versions Http MasterFiles MasterRegistry MasterHistory MasterChain MasterImport MasterService MasterSync MasterAdmission.

Local Open Scope Z_scope.
Local Open Scope rust_scope.

(** * Documents *)
Record reply : Type := mkReply { rp_status : Z; rp_headers : header_map; rp_body : list Z }.

(** The items of [If-None-Match] that match an entity tag. *)
Definition tag_matches (etag item : string) : bool :=
  let item := trim item in
  String.eqb (match strip_prefix item "W/" with Some rest => rest | None => item end) etag || String.eqb item "*".
Definition if_none_match (hs : header_map) (etag : string) : bool :=
  match header_get "if-none-match" hs with
  | Some v => match header_str v with
              | Some v => List.existsb (tag_matches etag) (split_on "," v)
              | None => false
              end
  | None => false
  end.

Definition registry_document (document : Document) (hs : header_map) (pinned : bool) : result AppError reply :=
  let unchanged := if_none_match hs (d_etag document) in
  if negb (header_value_ok (d_etag document)) || negb (header_value_ok (d_version document)) then Err MasterUnavailable
  else Ok (mkReply (if unchanged then 304 else 200)
             [("content-type", "application/json"); ("etag", d_etag document); ("x-master-version", d_version document);
              ("cache-control", if pinned then "private, max-age=31536000, immutable" else "private, no-cache")]%string
             (if unchanged then [] else d_bytes document)).

Definition file_error (e : MasterError) : AppError :=
  match e with MNotFound => NotFound | _ => MasterUnavailable end.
Definition from_file {A} (x : result MasterError A) : result AppError A :=
  match x with Ok a => Ok a | Err e => Err (file_error e) end.

Section handlers.
Context `{MasterCodecs} (history_to_vec : History -> option (list Z)).

(** ** The standalone registry *)
Inductive Selection : Type := Current | Snapshot (s : string) | ByHash (h : string).

Definition document (v : view) (scope : Scope) (selection : Selection) (table : option (string * string))
  : result AppError Document :=
  if match selection with
     | ByHash h => negb (hash_valid h)
     | Snapshot s => negb (valid_history_cursor s)
     | Current => false
     end || some_and table (fun t => negb (safe_component (fst t)) || negb (hash_valid (snd t)))
  then Err InvalidRequest
  else from_file (match selection, table with
                  | Snapshot id, Some (name, hash) => MasterRegistry.table v (region scope) id name hash
                  | Snapshot id, None => manifest v (Some id) scope
                  | ByHash hash, None => manifest_by_hash v scope hash
                  | Current, None => manifest v None scope
                  | _, _ => Err MFormat
                  end).

Definition respond (v : view) (scope : Scope) (selection : Selection) (hs : header_map) : result AppError reply :=
  doc <-? document v scope selection None;;
  registry_document doc hs false.

Definition invalid_table (snapshot name hash : string) : bool :=
  negb (valid_history_cursor snapshot) || negb (safe_component name) || negb (hash_valid hash).

(** [admitted] is whether the gate grants a permit within its wait. *)
Definition gate_admit (admitted : bool) : result AppError unit := if admitted then Ok tt else Err MasterUnavailable.
Definition table_handler (v : view) (scope : Scope) (admitted : bool) (snapshot table hash : string) (hs : header_map)
  : result AppError reply :=
  if invalid_table snapshot table hash then Err InvalidRequest
  else
    _ <-? gate_admit admitted;;
    doc <-? document v scope (Snapshot snapshot) (Some (table, hash));;
    registry_document doc hs true.

Definition history_reply (bytes : list Z) : reply :=
  mkReply 200 [("content-type", "application/json"); ("cache-control", "private, no-store")]%string bytes.
Definition history_handler (v : view) (scope : Scope) (limit : Z) (before : option string) : result AppError reply :=
  if negb (in_range 1 100 limit) then Err InvalidRequest
  else if some_and before (fun b => negb (valid_history_cursor b)) then Err InvalidRequest
  else
    page <-? from_file (history_page v scope limit before);;
    bytes <-? ok_or (history_to_vec page) MasterUnavailable;;
    Ok (history_reply bytes).

(** ** The API over a configured directory *)
Definition no_directory {A} (directory : option view) (k : view -> result AppError A) : result AppError A :=
  match directory with None => Err MasterUnavailable | Some v => k v end.

Definition registry_response (directory : option view) (scope : Scope) (admitted : bool) (snapshot : option string)
    (table : option (string * string)) (hs : header_map) : result AppError reply :=
  no_directory directory (fun v =>
    _ <-? match table with Some _ => gate_admit admitted | None => Ok tt end;;
    doc <-? from_file (match table with
                       | Some (table, hash) => match snapshot with
                                               | Some s => MasterRegistry.table v (region scope) s table hash
                                               | None => Err MFormat
                                               end
                       | None => manifest v snapshot scope
                       end);;
    registry_document doc hs (is_some table)).
Definition registry_by_hash (directory : option view) (scope : Scope) (hash : string) (hs : header_map) : result AppError reply :=
  if negb (hash_valid hash) then Err InvalidRequest
  else no_directory directory (fun v =>
         doc <-? from_file (manifest_by_hash v scope hash);;
         registry_document doc hs false).
Definition registry_history (directory : option view) (scope : Scope) (limit : Z) (before : option string) : result AppError reply :=
  if negb (in_range 1 100 limit) || some_and before (fun b => negb (valid_history_cursor b)) then Err InvalidRequest
  else no_directory directory (fun v =>
         page <-? from_file (history_page v scope limit before);;
         bytes <-? ok_or (history_to_vec page) MasterUnavailable;;
         Ok (history_reply bytes)).
Definition master_document (directory : option view) (region : Region) (admitted : bool) (table : option string) (hs : header_map)
  : result AppError reply :=
  no_directory directory (fun v =>
    _ <-? match table with Some _ => gate_admit admitted | None => Ok tt end;;
    doc <-? from_file (read_current_in v table region);;
    registry_document (mkDocument (md_bytes doc) (quoted (md_sha256 doc)) (md_version doc)) hs false).

(** ** Routes of the standalone registry *)
Inductive target : Type := ToManifest (s : Selection) | ToTable (snapshot table hash : string) | ToHistory (limit : Z) (before : option string).

(** The path below the prefix, by segments. *)
Definition route (path : string) : option target :=
  match split_on "/" path with
  | ["manifest"%string] => Some (ToManifest Current)
  | ["by-hash"; hash; "manifest"]%string => Some (ToManifest (ByHash hash))
  | ["snapshots"; s; "manifest"]%string => Some (ToManifest (Snapshot s))
  | ["snapshots"; s; "tables"; t; hash]%string => Some (ToTable s t hash)
  | _ => None
  end.

(** A request: authorization, then the handler; whether its body is held. *)
Definition serve (token : string) (v : view) (scope : Scope) (admitted : bool) (t : target) (hs : header_map)
  : result AppError (reply * bool) :=
  _ <-? authorize token hs;;
  match t with
  | ToManifest s => rmap (fun r => (r, false)) (respond v scope s hs)
  | ToTable s t h => rmap (fun r => (r, true)) (table_handler v scope admitted s t h hs)
  | ToHistory limit before => rmap (fun r => (r, false)) (history_handler v scope limit before)
  end.
End handlers.

(** * The service as a consumer's owner *)

(** The chunks a connection hands over. *)
Definition chunks_of (polls : list (polled * Held)) : list chunk_event :=
  List.flat_map (fun x => match fst x with Frame b => [Chunk b] | Failed => [ChunkError] | _ => [] end) polls.
Definition body_chunks (status : Z) (held : bool) (body : list Z) : list chunk_event :=
  match (if held then attach status body else None) with
  | Some h => chunks_of (drain (S (polls_left h)) h)
  | None => match body with [] => [] | _ => [Chunk body] end
  end.

Section owner.
Context `{MasterCodecs} (history_to_vec : History -> option (list Z)).

Definition error_body (e : AppError) : list Z :=
  match content (into_response e) with
  | BJson v => match value_to_vec v with Some b => b | None => [] end
  | BText s => bytes_of s
  end.
Definition to_http (r : result AppError (reply * bool)) : http_response :=
  match r with
  | Ok (r, held) =>
      {| http_status := rp_status r; http_headers := rp_headers r; content_length := Some (Http.llen (rp_body r));
         body_events := body_chunks (rp_status r) held (rp_body r) |}
  | Err e =>
      {| http_status := status_of e; http_headers := headers (into_response e); content_length := Some (Http.llen (error_body e));
         body_events := body_chunks (status_of e) false (error_body e) |}
  end.

(** The request a consumer sends for a path, and the service's answer to it. *)
Definition consumer_headers (token : string) : header_map :=
  [("authorization"%string, bearer token); ("accept"%string, "application/json"%string)].
Definition ask (token sent : string) (v : view) (scope : Scope) (admitted : bool) (path : string) : exchange :=
  match route path with
  | Some t => Answered (to_http (serve history_to_vec token v scope admitted t (consumer_headers sent)))
  | None => Answered {| http_status := 404; http_headers := []; content_length := Some 0; body_events := [] |}
  end.
Definition service_owner (token sent : string) (ro : root) (scope : Scope) (admitted : bool) : owner :=
  {| at_start := ask token sent (fun _ => ro) scope admitted "manifest";
     at_path := ask token sent (fun _ => ro) scope admitted;
     at_end := ask token sent (fun _ => ro) scope admitted "manifest" |}.
End owner.

(** * Lemmas *)
Lemma safe_component_without s : safe_component s = true -> without "/" s = true.
Proof.
  unfold safe_component. intros Hs. apply andb_true_iff in Hs as [_ Hs]. revert Hs. apply all_bytes_impl. intros c Hc.
  apply negb_true_iff. apply Ascii.eqb_neq. intros ->. by vm_compute in Hc.
Qed.
Lemma hash_valid_without sep s : in_range 48 57 (byte_of sep) || in_range 97 102 (byte_of sep) = false ->
  hash_valid s = true -> without sep s = true.
Proof.
  unfold hash_valid. intros Hsep Hs. apply andb_true_iff in Hs as [_ Hs]. revert Hs. apply all_bytes_impl. intros c Hc.
  apply negb_true_iff. apply Ascii.eqb_neq. intros ->. unfold is_ascii_digit in Hc. congruence.
Qed.

Lemma route_table s t h :
  safe_component s = true -> safe_component t = true -> hash_valid h = true -> route (table_path s t h) = Some (ToTable s t h).
Proof.
  intros Hs Ht Hh. apply safe_component_without in Hs, Ht. apply (hash_valid_without "/") in Hh; [|done]. unfold route, table_path.
  change ("snapshots/" ++ ?x)%string with ("snapshots" ++ String "/" x)%string. rewrite split_on_app by done.
  change (s ++ "/tables/" ++ ?x)%string with (s ++ String "/" ("tables" ++ String "/" x))%string.
  rewrite split_on_app by done. rewrite split_on_app by done.
  change (t ++ "/" ++ h)%string with (t ++ String "/" h)%string. rewrite split_on_app by done. by rewrite split_on_none.
Qed.

Lemma hash_header h : hash_valid h = true -> header_value_ok (quoted h) = true.
Proof.
  unfold hash_valid, header_value_ok, quoted. intros Hh. apply andb_true_iff in Hh as [_ Hh]. set (f := fun c : ascii => _ || _).
  assert (Hf : all_bytes f h = true).
  { revert Hh. apply all_bytes_impl. intros c. unfold f, is_ascii_digit, char_is, in_range. lia. }
  rewrite all_bytes_app. change (all_bytes f (String "034" h)) with (all_bytes f h). rewrite Hf. reflexivity.
Qed.

(** Bytes of the parts and of the separator are the bytes of the whole. *)
Lemma all_bytes_split f sep s : f sep = true -> Forall (fun w => all_bytes f w = true) (split_on sep s) -> all_bytes f s = true.
Proof.
  intros Hf. induction s as [|c s IH]; [done|]. cbn. destruct (Ascii.eqb_spec c sep) as [->|_].
  - intros Hall. apply Forall_cons in Hall as [_ Hall]. by rewrite Hf, IH.
  - destruct (split_on sep s) as [|w ws]; intros Hall; apply Forall_cons in Hall as [Hw Hall]; cbn in Hw;
      apply andb_true_iff in Hw as [Hc Hw]; rewrite Hc; cbn [andb]; apply IH; by constructor.
Qed.

Lemma version_header v : safe_version v = true -> header_value_ok v = true.
Proof.
  intros Hs. apply (all_bytes_split _ "/"); [done|]. unfold safe_version in Hs. destruct (split_on "/" v) as [|a l]; [done|]. bool_prop.
  assert (Ha : all_bytes (fun c => in_range 32 255 (byte_of c) && negb (char_is 127 c) || char_is 9 c) a = true).
  { unfold version_chars in *. eapply all_bytes_impl; [|eassumption]. intros c.
    unfold is_ascii_alphanumeric, is_ascii_digit, is_ascii_upper, is_ascii_lower, char_is, in_range. lia. }
  constructor; [done|]. destruct l as [|b [|c l]]; [constructor| |done]. bool_prop. constructor; [|constructor].
  eapply all_bytes_impl; [|eassumption]. intros c. unfold is_ascii_hexdigit, is_ascii_digit, char_is, in_range. lia.
Qed.

Lemma unbroken_poll h :
  ~ In Broken (inner h) -> fst (poll_frame h) <> Failed /\ ~ In Broken (inner (snd (poll_frame h))).
Proof.
  intros Hb. unfold poll_frame. destruct h as [i [|x p]]; cbn [pending inner] in *; [|by split].
  destruct i as [|[d| | |] i]; try (destruct Hb; by left); try destruct (_ <? _); split; try done; cbn; intros Hin; apply Hb; by right.
Qed.

Lemma chunks_bytes n h :
  ~ In Broken (inner h) -> body_bytes (chunks_of (drain n h)) = Some (concat (map (fun x => frame_bytes (fst x)) (drain n h))).
Proof.
  revert h. induction n as [|n IH]; intros h Hb; [done|]. cbn [drain]. destruct (unbroken_poll h Hb) as [Hf Hb'].
  destruct (poll_frame h) as [p h']. cbn [fst snd] in *. specialize (IH h' Hb'). unfold chunks_of in *. cbn [List.flat_map map concat fst].
  destruct p; cbn [app frame_bytes body_bytes]; [by rewrite IH|done|by destruct Hf|done|done].
Qed.

Lemma body_chunks_bytes held body : body_bytes (body_chunks 200 held body) = Some body.
Proof.
  unfold body_chunks. destruct held.
  - unfold attach. cbn [negb]. change (200 =? 200) with true. cbn [negb]. set (h := mkHeld _ _).
    assert (Hb : ~ In Broken (inner h)) by (destruct body; cbn; [tauto|intros [E|[]]; discriminate]).
    assert (Hr : remaining h = body) by (unfold h, remaining; destruct body; cbn; by rewrite ?app_nil_r).
    rewrite chunks_bytes by done. destruct (drain_bytes (S (polls_left h)) h) as [H1 _].
    destruct (drain_end (S (polls_left h)) h ltac:(lia)) as [_ H2]. by rewrite H2, app_nil_r, Hr in H1; rewrite <- H1.
  - destruct body as [|x body]; [done|]. cbn. by rewrite app_nil_r.
Qed.

Section service_facts.
Context `{!MasterCodecs, !MasterCodecsOk} (history_to_vec : History -> option (list Z)).

Lemma source_version v s m rv g : source_with_provenance v s = Ok (m, rv, g) -> safe_version (m_version m) = true.
Proof.
  unfold source_with_provenance. intros Hs. apply rbind_ok in Hs as (b & _ & Hs). apply rbind_ok in Hs as (m' & Hm & Hs).
  do 3 apply rbind_ok in Hs as (? & _ & Hs). do 2 apply rbind_ok in Hs as (? & _ & Hs). injection Hs as <- _ _.
  apply parse_ok in Hm as (_ & Hm & _). by apply check_manifest_ok in Hm as [].
Qed.

(** The headers of every document the registry serves are valid. *)
Definition header_ok (doc : Document) : Prop := header_value_ok (d_etag doc) = true /\ header_value_ok (d_version doc) = true.

Lemma manifest_header_ok v s scope doc : manifest v s scope = Ok doc -> header_ok doc.
Proof.
  unfold manifest. intros Hm. apply rbind_ok in Hm as (? & _ & Hm). apply rbind_ok in Hm as (s' & _ & Hm).
  apply rbind_ok in Hm as (? & _ & Hm). apply rbind_ok in Hm as ([[m rv] g] & Hs & Hm). do 2 apply rbind_ok in Hm as (? & _ & Hm).
  apply rbind_ok in Hm as (? & _ & Hm). apply rbind_ok in Hm as (bytes & _ & [= <-]). split; cbn [d_etag d_version].
  - apply hash_header, digest_valid.
  - apply version_header. cbn [sort_source m_version]. by eapply source_version.
Qed.

Lemma table_header_ok v g s t h b doc : table_read v g s t h b = Ok doc -> header_ok doc.
Proof.
  unfold table_read. destruct (negb (safe_component t) || negb (hash_valid h)) eqn:E; [done|]. intros Ht.
  apply orb_false_iff in E as [_ E]. apply negb_false_iff in E.
  apply rbind_ok in Ht as (? & _ & Ht). apply rbind_ok in Ht as (m & Hs & Ht). do 3 apply rbind_ok in Ht as (? & _ & Ht).
  do 2 apply rbind_ok in Ht as (? & _ & Ht). injection Ht as <-. split; cbn [d_etag d_version]; [by apply hash_header|].
  unfold source in Hs. apply rbind_ok in Hs as ([[m' rv] g'] & Hs & Hm). destruct (bool_decide _); [|done]. injection Hm as ->.
  apply version_header. by eapply source_version.
Qed.

Lemma document_reply doc hs pinned :
  header_ok doc -> if_none_match hs (d_etag doc) = false ->
  exists r, registry_document doc hs pinned = Ok r /\ forall held, answers (Answered (to_http (Ok (r, held)))) (d_bytes doc).
Proof.
  intros [H1 H2] Hn. unfold registry_document. rewrite H1, H2, Hn. cbn [negb orb]. eexists. split; [done|].
  intros held. eexists. split; [done|]. cbn [to_http http_status rp_status http_headers rp_headers content_length rp_body body_events].
  split; [done|]. split; [reflexivity|]. split; [cbn; by rewrite Z.eqb_refl|apply body_chunks_bytes].
Qed.

Lemma bearer_str token : token_ok token = true -> header_str (bearer token) = Some (bearer token).
Proof.
  unfold token_ok, header_str, bearer. intros Ht. apply andb_true_iff in Ht as [_ Ht]. rewrite all_bytes_app.
  set (f := fun c : ascii => _ || _). assert (Hf : all_bytes f token = true).
  { revert Ht. apply all_bytes_impl. intros c. unfold f, is_ascii_graphic, char_is, in_range. lia. }
  by rewrite Hf.
Qed.

Lemma authorize_one token sent hs :
  token_ok sent = true -> get_all "authorization" hs = [bearer sent] ->
  authorize token hs = if String.eqb token sent then Ok tt else Err Unauthorized.
Proof.
  intros Hs Hg. unfold authorize. rewrite Hg, (bearer_str sent Hs). destruct (String.eqb_spec token sent) as [->|Hne].
  - by rewrite bool_decide_eq_true_2.
  - rewrite bool_decide_eq_false_2; [done|]. intros E. injection E as E. done.
Qed.
Lemma authorize_consumer token sent :
  token_ok sent = true -> authorize token (consumer_headers sent) = if String.eqb token sent then Ok tt else Err Unauthorized.
Proof. intros Hs. by apply authorize_one. Qed.

Lemma snapshot_cursor s : snapshot_name s = true -> valid_history_cursor s = true.
Proof.
  intros Hs. apply snapshot_name_len in Hs as (H1 & H2 & H3). unfold valid_history_cursor. rewrite H2, H3.
  by apply Z.leb_le in H1 as ->.
Qed.

(** The service answers a consumer with what its directory reads as. *)
Lemma service_serves scope used ro token doc target :
  held scope used ro -> token_ok token = true ->
  manifest (fun _ => ro) None scope = Ok doc -> published_from_slice (d_bytes doc) = Some target -> served scope (fun _ => ro) target ->
  serves scope ro doc target (service_owner history_to_vec token token ro scope true).
Proof.
  intros Hh Ht Hd Hp Hserved. pose proof (published_validate_ok scope target (proj1 Hserved)) as Hok.
  assert (Hauth : authorize token (consumer_headers token) = Ok tt) by (rewrite authorize_consumer by done; by rewrite String.eqb_refl).
  assert (Hstart : answers (ask history_to_vec token token (fun _ => ro) scope true "manifest") (d_bytes doc)).
  { unfold ask. change (route "manifest") with (Some (ToManifest Current)). cbn [serve]. unfold serve. rewrite Hauth. cbn [rbind].
    unfold respond, document. cbn [some_and orb]. rewrite Hd. cbn [from_file rbind].
    destruct (document_reply doc (consumer_headers token) false (manifest_header_ok _ _ _ _ Hd) eq_refl) as (r & -> & Hr).
    cbn [rmap]. apply Hr. }
  constructor; [done|done|exact Hstart|exact Hstart|].
  intros f d Hf Hd'. cbn [at_path service_owner]. destruct (published_file scope target f Hok Hf) as (stem & Hn & Hstem & Hfo).
  destruct (served_file scope (fun _ => ro) target f Hok Hserved Hf) as (d0 & Hd0 & _). rewrite Hd' in Hd0. injection Hd0 as <-.
  pose proof (po_snapshot _ _ Hok) as Hsn. pose proof (snapshot_name_len _ Hsn) as (_ & _ & Hsafe).
  assert (Hst : safe_component (json_stem f) = true /\ hash_valid (f_sha256 f) = true).
  { unfold table, table_read in Hd'. destruct (safe_component (json_stem f)); [|done]. by destruct (hash_valid (f_sha256 f)). }
  unfold ask. rewrite route_table by tauto. unfold serve. rewrite Hauth. cbn [rbind].
  unfold table_handler, invalid_table. rewrite (snapshot_cursor _ Hsn), (proj1 Hst), (proj2 Hst). cbn [negb orb gate_admit rbind].
  unfold document. cbn [some_and fst snd]. rewrite (snapshot_cursor _ Hsn), (proj1 Hst), (proj2 Hst). cbn [negb orb].
  rewrite Hd'. cbn [from_file rbind].
  destruct (document_reply d (consumer_headers token) true (table_header_ok _ _ _ _ _ _ _ Hd') eq_refl) as (r & -> & Hr).
  cbn [rmap]. apply Hr.
Qed.
End service_facts.

Section service_theorems.
Context `{!MasterCodecs, !MasterCodecsOk} (history_to_vec : History -> option (list Z)) (scope : Scope).

(** A consumer's pass with working file operations, in time, under the lock. *)
Record works (x : pass) : Prop := {
  wk_lock : lock x = Ok tt;
  wk_write : forall n, write x n = None;
  wk_prepare : forall n, prepare x n = None;
  wk_late : late x = false;
  wk_pio : pio x = PublishOk;
}.

(** C7: When a consumer synchronizes with a registry service over any directory the program
    may reach, with its token and admitted tables, and its own file operations work, the
    update succeeds and the consumer then serves the service's content hash and asset
    version with every table intact, whatever it had installed before; with another
    token it fails and changes nothing. *)
Theorem consumer_follows_service used r uo ro token sent x :
  held scope used r -> held scope uo ro -> current ro <> None -> environment_ok (environment scope) = true ->
  snapshot_name (snapshot_id (simple x)) = true -> snapshot_id (simple x) ∉ used -> snapshots r !! snapshot_id (simple x) = None ->
  token_ok token = true -> token_ok sent = true -> works x -> the_owner x = service_owner history_to_vec token sent ro scope true ->
  (forall doc, manifest (fun _ => ro) None scope = Ok doc -> Http.llen (d_bytes doc) <= 4 * 1024 * 1024) ->
  if String.eqb token sent
  then exists target v trace, installed_manifest scope ro = Some target /\
         update scope r x = (Ok v, trace) /\ in_step scope (List.last trace r) target
  else update scope r x = (Err Download, []).
Proof.
  intros Hh Ho Hc He Hname Hout Hfresh Ht Hs [W1 W2 W3 W4 W5] Hx Hsize.
  destruct (String.eqb_spec token sent) as [->|Hne].
  - destruct (held_served _ _ _ Ho) as [|(doc & target & Hd & Hp & Hserved)]; [done|].
    destruct (update_follows scope used r ro doc target _ x Hh He Hname Hout Hfresh
      (service_serves history_to_vec scope uo ro sent doc target Ho Ht Hd Hp Hserved) Hserved (Hsize doc Hd) W1 Hx W2 W3 W4 W5)
      as (v & trace & E & Hin).
    exists target, v, trace. split; [|done]. unfold installed_manifest. by rewrite Hd.
  - unfold update. rewrite W1, Hx. cbn [storage rbind service_owner at_start].
    assert (sync_manifest scope (ask history_to_vec token sent (fun _ => ro) scope true "manifest") = Err Download) as ->; [|done].
    unfold ask. change (route "manifest") with (Some (ToManifest Current)). unfold serve. rewrite authorize_consumer by done.
    destruct (String.eqb_spec token sent); [done|]. done.
Qed.

(** ** Conditional reads *)
Lemma all_not_blank s : all_bytes (fun c => negb (is_blank c)) s = true -> trim s = s.
Proof.
  intros Hs. unfold trim. assert (trim_start s = s) as ->.
  { destruct s as [|c s]; [done|]. cbn in *. apply andb_true_iff in Hs as [Hc _]. apply negb_true_iff in Hc. by rewrite Hc. }
  induction s as [|c s IH]; [done|]. cbn in *. apply andb_true_iff in Hs as [Hc Hs]. apply negb_true_iff in Hc.
  rewrite (IH Hs). destruct s; [by rewrite Hc|done].
Qed.

Lemma quoted_bytes f h : f "034"%char = true -> all_bytes f h = true -> all_bytes f (quoted h) = true.
Proof.
  intros Hf Hh. unfold quoted. rewrite all_bytes_app. change (all_bytes f (String "034" h)) with (f "034"%char && all_bytes f h).
  cbn. by rewrite Hf, Hh.
Qed.

Lemma quoted_inj a b : quoted a = quoted b -> a = b.
Proof. unfold quoted. intros E. apply append_inj_r in E. by injection E. Qed.

(** The tag of a hash, strong or weak, matches exactly itself. *)
Lemma tag_matches_hash h d weak :
  hash_valid h = true -> tag_matches (quoted d) ((if weak : bool then "W/" else "") ++ quoted h) = String.eqb h d.
Proof.
  intros Hh. assert (Hb : all_bytes (fun c => negb (is_blank c)) h = true).
  { unfold hash_valid in Hh. apply andb_true_iff in Hh as [_ Hh]. revert Hh. apply all_bytes_impl. intros c.
    unfold is_ascii_digit, is_blank, char_is, in_range. lia. }
  assert (Hq : all_bytes (fun c => negb (is_blank c)) (quoted h) = true) by by apply quoted_bytes.
  assert (Heq : String.eqb (quoted h) (quoted d) = String.eqb h d).
  { destruct (String.eqb_spec h d) as [->|Hne]; [apply String.eqb_refl|]. apply String.eqb_neq. intros E. by apply quoted_inj in E. }
  unfold tag_matches. destruct weak.
  - rewrite all_not_blank by (change (all_bytes (fun c => negb (is_blank c)) (quoted h) = true); exact Hq).
    change (strip_prefix ("W/" ++ quoted h) "W/") with (Some (quoted h)).
    change (String.eqb ("W/" ++ quoted h) "*") with false. cbv iota. rewrite Heq. by rewrite orb_false_r.
  - change ("" ++ quoted h)%string with (quoted h). rewrite all_not_blank by exact Hq.
    change (strip_prefix (quoted h) "W/") with (@None string).
    change (String.eqb (quoted h) "*") with false. cbv iota. rewrite Heq. by rewrite orb_false_r.
Qed.

(** A document is read with the digest of its bytes. *)
Lemma read_current_facts v table g doc :
  read_current_in v table g = Ok doc -> safe_version (md_version doc) = true /\ md_sha256 doc = digest (md_bytes doc).
Proof.
  unfold read_current_in, read_current_inner. intros Hr. destruct (rbind _ _) as [[doc' i]|] eqn:E in Hr; [|done]. injection Hr as <-.
  do 3 apply rbind_ok in E as (? & _ & E). apply rbind_ok in E as (b & _ & E). apply rbind_ok in E as (m & Hm & E).
  do 2 apply rbind_ok in E as (? & _ & E). apply rbind_ok in E as (r & _ & E). apply rbind_ok in E as (? & _ & E).
  apply rbind_ok in E as ([[sha bytes] indexed] & Hx & [= <- <-]). cbn [md_version md_sha256 md_bytes]. split.
  - apply parse_ok in Hm as (_ & Hm & _). by apply check_manifest_ok in Hm as [].
  - destruct table as [t|].
    + apply rbind_ok in Hx as (? & _ & Hx). apply rbind_ok in Hx as (bs & _ & Hx). apply rbind_ok in Hx as (ix & _ & Hx). by injection Hx as <- <- _.
    + do 4 apply rbind_ok in Hx as (? & _ & Hx). apply rbind_ok in Hx as (bs & _ & Hx). by injection Hx as <- <- _.
Qed.

(** A read of the current master snapshot with a matching or weakly matching entity tag
    answers 304 without a body exactly when the tag is the digest of the bytes that an
    unconditional read returns, and 200 with these bytes otherwise; a corrupt snapshot
    answers its error whatever the tag. *)
Lemma conditional_reads v table hs h weak admitted :
  hash_valid h = true -> header_get "if-none-match" hs = Some ((if weak : bool then "W/" else "") ++ quoted h)%string ->
  (table = None \/ admitted = true) ->
  match read_current_in v table (region scope) with
  | Err e => master_document (Some v) (region scope) admitted table hs = Err (file_error e)
  | Ok doc =>
      md_sha256 doc = digest (md_bytes doc) /\ exists r, master_document (Some v) (region scope) admitted table hs = Ok r /\
        header_get "etag" (rp_headers r) = Some (quoted (md_sha256 doc)) /\
        (rp_status r, rp_body r) = (if String.eqb h (md_sha256 doc) then (304, []) else (200, md_bytes doc))
  end.
Proof.
  intros Hh Hn Hadm. unfold master_document, no_directory.
  assert (match table with Some _ => gate_admit admitted | None => Ok tt end = Ok tt) as -> by (destruct Hadm as [-> | ->]; [done|by destruct table]).
  cbn [rbind]. destruct (read_current_in v table (region scope)) as [doc|e] eqn:E; [|done].
  apply read_current_facts in E as [Hv Hd]. apply version_header in Hv. split; [done|]. cbn [from_file rbind].
  assert (Hd' : hash_valid (md_sha256 doc) = true) by (rewrite Hd; apply digest_valid).
  unfold registry_document. cbn [d_etag d_version d_bytes]. rewrite (hash_header _ Hd'), Hv. cbn [negb orb].
  assert (if_none_match hs (quoted (md_sha256 doc)) = String.eqb h (md_sha256 doc)) as ->.
  { unfold if_none_match. rewrite Hn. assert (Hs : header_str ((if weak then "W/" else "") ++ quoted h) = Some ((if weak then "W/" else "") ++ quoted h)%string).
    { unfold header_str. rewrite all_bytes_app, quoted_bytes; [by destruct weak|done|]. unfold hash_valid in Hh. apply andb_true_iff in Hh as [_ Hh].
      revert Hh. apply all_bytes_impl. intros c. unfold is_ascii_digit, char_is, in_range. lia. }
    rewrite Hs, split_on_none; [cbn [List.existsb]; by rewrite tag_matches_hash, orb_false_r|].
    unfold without. rewrite all_bytes_app, quoted_bytes; [by destruct weak|done|]. by apply (hash_valid_without ","). }
  eexists. split; [done|]. split; [done|]. cbn [rp_status rp_body]. by destruct (String.eqb _ _).
Qed.
End service_theorems.
