(* ===== verification/HttpCompression.v ===== *)
(** Negotiated encoding of public answers ([http_compression.rs]).

    The encoding layer is the library's: what it does to an answer is a
    parameter, and [layer_ok] what the code relies on.  The code's part is which
    answers may be encoded and the validators of the ones that were. *)
From Stdlib Require Import ZArith Lia Ascii String List Bool.
From stdpp Require Import base list strings decidable.
From S2P Require Import Prelude Errors Http MasterFiles MasterRegistry MasterHttp.

Local Open Scope Z_scope.
Local Open Scope rust_scope.

Definition MIN_BYTES : Z := 1024.

(** [json]: the first content type. *)
Definition json_type (hs : header_map) : bool :=
  match header_get "content-type" hs with
  | Some v => match header_str v with Some v => starts_with v "application/json" | None => false end
  | None => false
  end.
Definition eligible (status : Z) (hs : header_map) : bool := (status =? 200) && json_type hs.

Definition weak_tag (hs : header_map) : option string :=
  match header_get "etag" hs with
  | Some v => match header_str v with
              | Some v => if negb (starts_with v "W/") && header_value_ok ("W/" ++ v) then Some ("W/" ++ v)%string else None
              | None => None
              end
  | None => None
  end.
Definition varies (hs : header_map) : bool :=
  List.existsb (fun v => match header_str v with Some v => str_contains (to_ascii_lowercase v) "accept-encoding" | None => false end)
    (get_all "vary" hs).
Definition representation (r : reply) : reply :=
  let hs := rp_headers r in
  let hs := if is_some (header_get "content-encoding" hs)
            then match weak_tag hs with Some weak => header_insert "etag" weak hs | None => hs end
            else hs in
  let hs := if ((rp_status r =? 200) || (rp_status r =? 304)) && json_type hs && negb (varies hs)
            then hs ++ [("vary", "accept-encoding")]%string else hs in
  mkReply (rp_status r) hs (rp_body r).

(** [wrap]: [encode] is the layer for a request's headers, restricted to eligible
    answers above [MIN_BYTES]. *)
Definition wrap (enabled : bool) (encode : header_map -> reply -> reply) (request : header_map) (r : reply) : reply :=
  if enabled then representation (encode request r) else r.

(** What an encoding layer may do: an answer that is not eligible, too small or
    not accepted only gains names in [Vary]; any other keeps its status, type and
    tag and says how it is encoded. *)
Record layer_ok (encode : header_map -> reply -> reply) : Prop := {
  lk_status : forall q r, rp_status (encode q r) = rp_status r;
  lk_type : forall q r, header_get "content-type" (rp_headers (encode q r)) = header_get "content-type" (rp_headers r);
  lk_etag : forall q r, header_get "etag" (rp_headers (encode q r)) = header_get "etag" (rp_headers r);
  lk_identity : forall q r, header_get "content-encoding" (rp_headers (encode q r)) = None -> rp_body (encode q r) = rp_body r;
  lk_eligible : forall q r, header_get "content-encoding" (rp_headers r) = None ->
    header_get "content-encoding" (rp_headers (encode q r)) <> None ->
    eligible (rp_status r) (rp_headers r) = true /\ MIN_BYTES <= llen (rp_body r);
}.

(** * Facts *)
Lemma representation_etag r :
  header_get "etag" (rp_headers (representation r)) =
  match header_get "content-encoding" (rp_headers r) with
  | Some _ => match weak_tag (rp_headers r) with Some weak => Some weak | None => header_get "etag" (rp_headers r) end
  | None => header_get "etag" (rp_headers r)
  end.
Proof.
  unfold representation. cbn [rp_headers]. destruct (header_get "content-encoding" (rp_headers r)) as [c|]; cbn [is_some].
  - destruct (weak_tag (rp_headers r)) as [weak|].
    + destruct (_ && negb _); [rewrite header_get_app|]; by rewrite header_get_insert.
    + destruct (_ && negb _); [rewrite header_get_app|done]. by destruct (header_get "etag" (rp_headers r)).
  - destruct (_ && negb _); [rewrite header_get_app|done]. by destruct (header_get "etag" (rp_headers r)).
Qed.

Lemma json_type_get hs hs' : header_get "content-type" hs = header_get "content-type" hs' -> json_type hs = json_type hs'.
Proof. unfold json_type. by intros ->. Qed.

(** Every JSON answer that could be encoded says that it varies. *)
Lemma representation_varies r :
  (rp_status r = 200 \/ rp_status r = 304) -> json_type (rp_headers r) = true -> varies (rp_headers (representation r)) = true.
Proof.
  intros Hs Hj. unfold representation. cbn [rp_headers].
  set (hs := if is_some _ then _ else _). assert (Hj' : json_type hs = true).
  { rewrite <- Hj. apply json_type_get. unfold hs. destruct (is_some _); [|done]. destruct (weak_tag _); [by apply header_get_insert_ne|done]. }
  rewrite Hj', andb_true_r. assert ((rp_status r =? 200) || (rp_status r =? 304) = true) as -> by (destruct Hs as [-> | ->]; done).
  cbn [andb]. destruct (varies hs) eqn:Hv; [exact Hv|]. cbn [negb]. unfold varies, get_all. rewrite List.filter_app, map_app, existsb_app.
  apply orb_true_iff. right. reflexivity.
Qed.

(** * Revalidation through the encoding *)
Section revalidation.
Context (encode : header_map -> reply -> reply) (Hencode : layer_ok encode) (document : Document) (h : string)
  (Htag : d_etag document = quoted h) (Hhash : hash_valid h = true) (Hversion : header_value_ok (d_version document) = true).

Lemma quoted_visible c : is_ascii_digit c || in_range 97 102 (byte_of c) || char_is 34 c || char_is 87 c || char_is 47 c = true ->
  in_range 32 126 (byte_of c) || char_is 9 c = true.
Proof. unfold is_ascii_digit, char_is, in_range. lia. Qed.
Lemma tag_bytes weak :
  all_bytes (fun c => is_ascii_digit c || in_range 97 102 (byte_of c) || char_is 34 c || char_is 87 c || char_is 47 c)
    ((if weak : bool then "W/" else "") ++ quoted h) = true.
Proof using Hhash.
  assert (Hh : all_bytes (fun c => is_ascii_digit c || in_range 97 102 (byte_of c) || char_is 34 c || char_is 87 c || char_is 47 c) h = true).
  { unfold hash_valid in Hhash. apply andb_true_iff in Hhash as [_ Hb]. revert Hb. apply all_bytes_impl. intros c ->. done. }
  rewrite all_bytes_app, quoted_bytes by done. by destruct weak.
Qed.
Lemma tag_value_ok weak : header_value_ok ((if weak : bool then "W/" else "") ++ quoted h) = true /\
  header_str ((if weak then "W/" else "") ++ quoted h) = Some ((if weak then "W/" else "") ++ quoted h)%string.
Proof using Hhash.
  pose proof (tag_bytes weak) as Hb. split.
  - unfold header_value_ok. revert Hb. apply all_bytes_impl. intros c Hc%quoted_visible. revert Hc. unfold char_is, in_range. lia.
  - unfold header_str. rewrite (all_bytes_impl _ (fun c => in_range 32 126 (byte_of c) || char_is 9 c) _ quoted_visible Hb). done.
Qed.
Lemma tag_unsplit weak : split_on "," ((if weak : bool then "W/" else "") ++ quoted h) = [((if weak then "W/" else "") ++ quoted h)%string].
Proof using Hhash.
  apply split_on_none. unfold without. pose proof (tag_bytes weak) as Hb. revert Hb. apply all_bytes_impl. intros c Hc. apply negb_true_iff, Ascii.eqb_neq.
  intros ->. discriminate.
Qed.

(** Either form of the tag revalidates. *)
Lemma revalidates weak later pinned :
  header_get "if-none-match" later = Some ((if weak : bool then "W/" else "") ++ quoted h)%string ->
  exists again, registry_document document later pinned = Ok again /\ rp_status again = 304 /\ rp_body again = [] /\
    header_get "etag" (rp_headers again) = Some (quoted h) /\ header_get "content-encoding" (rp_headers again) = None.
Proof using Htag Hhash Hversion.
  intros Hl. unfold registry_document. rewrite Htag, (proj1 (tag_value_ok false) : header_value_ok (quoted h) = true), Hversion. cbn [negb orb].
  assert (if_none_match later (quoted h) = true) as ->.
  { unfold if_none_match. rewrite Hl, (proj2 (tag_value_ok weak)), tag_unsplit. cbn [List.existsb]. by rewrite tag_matches_hash, String.eqb_refl. }
  eexists. split; [done|]. by destruct pinned.
Qed.

(** The entity tag of a document answer, sent back by a client, is answered with 304,
    no body and the strong tag, whether the first answer or the second is encoded; an
    encoded answer carries a weak tag. *)
Lemma encoded_answers_revalidate enabled request later first pinned pinned' :
  registry_document document request pinned = Ok first -> rp_status first = 200 ->
  exists tag, header_get "etag" (rp_headers (wrap enabled encode request first)) = Some tag /\
    (header_get "content-encoding" (rp_headers (wrap enabled encode request first)) <> None -> starts_with tag "W/" = true) /\
    (header_get "if-none-match" later = Some tag ->
     exists again, registry_document document later pinned' = Ok again /\ rp_status (wrap enabled encode later again) = 304 /\
       rp_body (wrap enabled encode later again) = [] /\ header_get "etag" (rp_headers (wrap enabled encode later again)) = Some (quoted h)).
Proof using Hencode Htag Hhash Hversion.
  intros Hfirst Hs.
  assert (Hf : header_get "etag" (rp_headers first) = Some (quoted h) /\ header_get "content-encoding" (rp_headers first) = None).
  { revert Hfirst. unfold registry_document. destruct (_ || _); [done|]. intros [= <-]. rewrite Htag. by destruct pinned. }
  destruct Hf as [Het Hce].
  assert (Hagain : forall weak, header_get "if-none-match" later = Some ((if weak : bool then "W/" else "") ++ quoted h)%string ->
    exists again, registry_document document later pinned' = Ok again /\ rp_status (wrap enabled encode later again) = 304 /\
       rp_body (wrap enabled encode later again) = [] /\ header_get "etag" (rp_headers (wrap enabled encode later again)) = Some (quoted h)).
  { intros weak Hl. destruct (revalidates weak later pinned' Hl) as (again & Ha & Hst & Hb & He & Hc). exists again. split; [done|].
    unfold wrap. destruct enabled; [|done]. cbn [representation rp_status rp_body]. rewrite (lk_status _ Hencode), Hst. split; [done|].
    assert (Hid : header_get "content-encoding" (rp_headers (encode later again)) = None).
    { destruct (header_get "content-encoding" (rp_headers (encode later again))) eqn:E; [|done]. exfalso.
      destruct (lk_eligible _ Hencode later again Hc) as [Hel _]; [by rewrite E|]. unfold eligible in Hel. by rewrite Hst in Hel. }
    split; [by rewrite (lk_identity _ Hencode _ _ Hid)|]. change (mkReply _ _ _) with (representation (encode later again)).
    by rewrite representation_etag, Hid, (lk_etag _ Hencode). }
  unfold wrap in *. destruct enabled.
  - rewrite representation_etag, (lk_etag _ Hencode), Het.
    destruct (header_get "content-encoding" (rp_headers (encode request first))) as [c|] eqn:Ec.
    + assert (weak_tag (rp_headers (encode request first)) = Some ("W/" ++ quoted h)%string) as ->.
      { unfold weak_tag. rewrite (lk_etag _ Hencode), Het, (proj2 (tag_value_ok false) : header_str (quoted h) = _).
        change ("" ++ quoted h)%string with (quoted h). by rewrite (proj1 (tag_value_ok true) : header_value_ok ("W/" ++ quoted h) = true). }
      eexists. split; [done|]. split; [done|]. apply (Hagain true).
    + eexists. split; [done|]. split; [|apply (Hagain false)]. intros Hn. exfalso. apply Hn. unfold representation. cbn [rp_headers]. rewrite Ec. cbn [is_some].
      destruct (_ && negb _); [rewrite header_get_app, Ec|]; done.
  - rewrite Het. eexists. split; [done|]. split; [by rewrite Hce|]. apply (Hagain false).
Qed.
End revalidation.

(** * A layer and a document *)
Definition gzip_layer (q : header_map) (r : reply) : reply :=
  if eligible (rp_status r) (rp_headers r) && (MIN_BYTES <=? llen (rp_body r)) && is_none (header_get "content-encoding" (rp_headers r))
     && is_some (header_get "accept-encoding" q)
  then mkReply (rp_status r) (rp_headers r ++ [("content-encoding", "gzip"); ("vary", "accept-encoding")]%string) [31; 139]
  else r.
Lemma gzip_layer_ok : layer_ok gzip_layer.
Proof.
  split; intros q r; unfold gzip_layer; destruct (_ && _) eqn:E; cbn [rp_status rp_headers rp_body]; try done.
  - rewrite header_get_app. by destruct (header_get "content-type" (rp_headers r)).
  - rewrite header_get_app. by destruct (header_get "etag" (rp_headers r)).
  - rewrite header_get_app. by destruct (header_get "content-encoding" (rp_headers r)).
  - intros _ _. bool_prop. auto.
Qed.
Definition some_hash : string := "0123456789abcdef0123456789abcdef0123456789abcdef0123456789abcdef".
Definition large_document : Document := mkDocument (repeat 32 2000) (quoted some_hash) "1.0".
Definition accepts_gzip : header_map := [("accept-encoding", "gzip")]%string.
Definition first_answer : reply := match registry_document large_document accepts_gzip false with Ok r => r | Err _ => mkReply 0 [] [] end.
Lemma encoded_answers_revalidate_witness :
  header_get "etag" (rp_headers (wrap true gzip_layer accepts_gzip first_answer)) = Some ("W/" ++ quoted some_hash)%string /\
  exists again, registry_document large_document [("if-none-match", "W/" ++ quoted some_hash)]%string true = Ok again /\
    rp_status (wrap true gzip_layer [("if-none-match", "W/" ++ quoted some_hash)]%string again) = 304.
Proof.
  split; [vm_compute; reflexivity|].
  destruct (encoded_answers_revalidate gzip_layer gzip_layer_ok large_document some_hash eq_refl eq_refl eq_refl true accepts_gzip
    [("if-none-match", "W/" ++ quoted some_hash)]%string first_answer false true eq_refl eq_refl) as (tag & Htag & _ & Hagain).
  assert (tag = ("W/" ++ quoted some_hash)%string) as -> by (vm_compute in Htag; injection Htag as <-; vm_compute; reflexivity).
  destruct (Hagain eq_refl) as (again & H1 & H2 & _). exists again. split; [exact H1|exact H2].
Defined.
