(* ===== verification/MasterBundle.v ===== *)
(** Bundles: a snapshot as one verified archive ([master_bundle.rs]) and the
    handlers that serve it ([registry_service.rs], [api.rs]).

    The archive format is a library's: [tar_append] is what it writes for an
    entry, piece by piece, and [tar_end] what it closes an archive with.  Each
    piece is written in full through [Writer], which the file may accept only in
    parts. *)
From Stdlib Require Import ZArith Lia Ascii String List Bool.
From stdpp Require Import base list strings decidable gmap.
From S2P Require Import Prelude BTree Errors Regions Versions Http MasterFiles MasterRegistry MasterHistory MasterChain MasterImport MasterService MasterSync MasterHttp.

Local Open Scope Z_scope.
Local Open Scope rust_scope.

Definition MAX_ARCHIVE : Z := 528 * 1024 * 1024.
Definition MAX_BUNDLE_MANIFEST : Z := 4 * 1024 * 1024.

(** * The archive file *)
Record Writer : Type := mkWriter { w_file : list Z; w_hash : list Z; w_len : Z }.
Definition new_writer : Writer := mkWriter [] [] 0.

(** [Writer::write]; [accepted] is how many bytes the file takes, or its error.
    The running hash is the bytes it was updated with. *)
Definition writer_write (w : Writer) (bytes : list Z) (accepted : option nat) : option (nat * Writer) :=
  if sat_sub MAX_ARCHIVE (w_len w) <? Http.llen bytes then None
  else match accepted with
       | None => None
       | Some n =>
           let n := Nat.min n (length bytes) in
           Some (n, mkWriter (w_file w ++ take n bytes) (w_hash w ++ take n bytes) (w_len w + Z.of_nat n))
       end.

Section archive.
Context `{MasterCodecs}.
Context (tar_append : string -> list Z -> option (list (list Z))) (tar_end : list (list Z)).
(** What the file answers to a write at a position. *)
Context (accepts : Z -> option nat).

(** [write_all]: a write that takes nothing is an error, so the bytes left are fuel. *)
Fixpoint write_all (fuel : nat) (w : Writer) (bytes : list Z) : option Writer :=
  match bytes with
  | [] => Some w
  | _ =>
      match fuel with
      | O => None
      | S fuel =>
          match writer_write w bytes (accepts (w_len w)) with
          | None | Some (O, _) => None
          | Some (n, w) => write_all fuel w (drop n bytes)
          end
      end
  end.
Fixpoint write_pieces (w : Writer) (pieces : list (list Z)) : option Writer :=
  match pieces with
  | [] => Some w
  | p :: ps => match write_all (length p) w p with Some w => write_pieces w ps | None => None end
  end.
Definition append (w : Writer) (name : string) (bytes : list Z) : option Writer :=
  match tar_append name bytes with Some pieces => write_pieces w pieces | None => None end.

(** * Building *)
Record Bundle : Type := mkBundle { b_file : list Z; b_etag : string; b_len : Z }.

Definition unavailable {A} (o : option A) : result AppError A := ok_or o MasterUnavailable.

Definition append_table (w : Writer) (f : File) (bytes : list Z) : result AppError Writer :=
  if negb (Http.llen bytes =? f_size f) || negb (String.eqb (digest bytes) (f_sha256 f)) || negb (is_ok (validate_json bytes))
  then Err MasterUnavailable
  else unavailable (append w ("tables/" ++ f_name f) bytes).
Fixpoint append_tables (w : Writer) (load : File -> result AppError (list Z)) (fs : list File) : result AppError Writer :=
  match fs with
  | [] => Ok w
  | f :: fs =>
      bytes <-? load f;;
      w <-? append_table w f bytes;;
      append_tables w load fs
  end.

(** [in_time]: the deadline did not cut the build; [flushed]: the file could be
    flushed and rewound. *)
Definition build (manifest : PublishedManifest) (load : File -> result AppError (list Z)) (in_time flushed : bool) : result AppError Bundle :=
  guard? in_time else MasterUnavailable;;
  guard? is_ok (published_validate manifest (p_scope manifest)) else MasterUnavailable;;
  bytes <-? unavailable (published_to_vec manifest);;
  guard? negb (MAX_BUNDLE_MANIFEST <? Http.llen bytes) else MasterUnavailable;;
  w <-? unavailable (append new_writer "metadata/manifest.json" bytes);;
  w <-? append_tables w load (p_files manifest);;
  w <-? unavailable (write_pieces w tar_end);;
  guard? flushed else MasterUnavailable;;
  Ok (mkBundle (w_file w) (quoted (digest (w_hash w))) (w_len w)).

Definition response (b : Bundle) (hs : header_map) (version content_hash : string) : result AppError reply :=
  let unchanged := if_none_match hs (b_etag b) in
  let disposition := ("attachment; filename=" ++ quoted ("master-" ++ content_hash ++ ".tar"))%string in
  if negb (header_value_ok (b_etag b)) || negb (header_value_ok version) || negb (header_value_ok content_hash)
     || negb (header_value_ok disposition)
  then Err MasterUnavailable
  else Ok (mkReply (if unchanged then 304 else 200)
             ([("content-type", "application/x-tar"); ("etag", b_etag b); ("cache-control", "private, no-cache");
               ("x-master-version", version); ("x-master-content-sha256", content_hash); ("content-disposition", disposition)]%string ++
              (if unchanged then [] else [("content-length"%string, u64_to_string (b_len b))]))
             (if unchanged then [] else b_file b)).

(** * Handlers *)

(** What a request meets: a free permit, the directory while the manifest is
    read and while each table is, the deadline and the file. *)
Record bundle_run : Type := mkBundleRun {
  permit : bool;
  at_manifest : view;
  at_table : string -> view;
  in_time : bool;
  flushed : bool;
}.

(** [bundle] of the registry service. *)
Definition service_load (x : bundle_run) (scope : Scope) (snapshot : string) (f : File) : result AppError (list Z) :=
  name <-? unavailable (strip_suffix (f_name f) ".json");;
  d <-? document (at_table x (f_name f)) scope (Snapshot snapshot) (Some (name, f_sha256 f));;
  Ok (d_bytes d).
Definition service_bundle (x : bundle_run) (scope : Scope) (selection : Selection) (hs : header_map) : result AppError reply :=
  guard? permit x else MasterUnavailable;;
  doc <-? document (at_manifest x) scope selection None;;
  m <-? unavailable (published_from_slice (d_bytes doc));;
  b <-? build m (service_load x scope (p_snapshot m)) (in_time x) (flushed x);;
  response b hs (p_version m) (content_sha256 m).

(** [registry_bundle] of the API, and its two routes. *)
Definition api_load (x : bundle_run) (scope : Scope) (snapshot : string) (f : File) : result AppError (list Z) :=
  name <-? unavailable (strip_suffix (f_name f) ".json");;
  match table (at_table x (f_name f)) (region scope) snapshot name (f_sha256 f) with
  | Ok d => Ok (d_bytes d)
  | Err _ => Err MasterUnavailable
  end.
Definition registry_bundle (configured : bool) (x : bundle_run) (scope : Scope) (hash : option string) (hs : header_map) : result AppError reply :=
  guard? permit x else MasterUnavailable;;
  guard? configured else MasterUnavailable;;
  doc <-? from_file (match hash with
                     | Some h => manifest_by_hash (at_manifest x) scope h
                     | None => manifest (at_manifest x) None scope
                     end);;
  m <-? unavailable (published_from_slice (d_bytes doc));;
  b <-? build m (api_load x scope (p_snapshot m)) (in_time x) (flushed x);;
  response b hs (p_version m) (content_sha256 m).
Definition registry_bundle_hash (configured : bool) (x : bundle_run) (scope : Scope) (hash : string) (hs : header_map) : result AppError reply :=
  if negb (hash_valid hash) then Err InvalidRequest else registry_bundle configured x scope (Some hash) hs.

(** * Lemmas *)

(** What a writer holds: all the bytes given to it, hashed as written, within
    the limit. *)
Definition written (w : Writer) (bytes : list Z) : Prop :=
  w_file w = bytes /\ w_hash w = bytes /\ w_len w = Http.llen bytes /\ Http.llen bytes <= MAX_ARCHIVE.

Lemma written_new : written new_writer [].
Proof. split; [done|]. split; [done|]. split; [done|]. unfold Http.llen, MAX_ARCHIVE. cbn [length]. lia. Qed.

Lemma write_facts w bs bytes acc n w' :
  written w bs -> writer_write w bytes acc = Some (n, w') -> written w' (bs ++ take n bytes) /\ (n <= length bytes)%nat.
Proof.
  intros (H1 & H2 & H3 & H4). unfold writer_write, sat_sub. destruct (Z.ltb_spec (Z.max 0 (MAX_ARCHIVE - w_len w)) (Http.llen bytes)) as [|Hl]; [done|].
  destruct acc as [k|]; [|done]. cbn zeta. intros [= <- <-]. split; [|lia].
  assert (E : Http.llen (bs ++ take (Nat.min k (length bytes)) bytes) = Http.llen bs + Z.of_nat (Nat.min k (length bytes))).
  { unfold Http.llen. rewrite length_app, length_take. lia. }
  unfold Http.llen in Hl. unfold written. cbn [w_file w_hash w_len]. rewrite H1, H2, H3, E. repeat split; lia.
Qed.

Lemma write_all_facts fuel w bs bytes w' : written w bs -> write_all fuel w bytes = Some w' -> written w' (bs ++ bytes).
Proof.
  revert w bs bytes. induction fuel as [|fuel IH]; intros w bs [|x bytes] Hw; cbn [write_all]; try done; try (intros [= <-]; by rewrite app_nil_r).
  destruct (writer_write w (x :: bytes) _) as [[[|n] w1]|] eqn:E; try done. intros Hr.
  destruct (write_facts _ _ _ _ _ _ Hw E) as [Hw1 Hn]. specialize (IH _ _ _ Hw1 Hr). by rewrite <- app_assoc, take_drop in IH.
Qed.

Lemma write_pieces_facts pieces w bs w' : written w bs -> write_pieces w pieces = Some w' -> written w' (bs ++ concat pieces).
Proof.
  revert w bs. induction pieces as [|p ps IH]; intros w bs Hw; cbn [write_pieces concat]; [intros [= <-]; by rewrite app_nil_r|].
  destruct (write_all _ w p) as [w1|] eqn:E; [|done]. intros Hr. rewrite app_assoc. apply (IH w1); [|done]. by eapply write_all_facts.
Qed.

(** A file that takes at least one byte takes them all, within the limit. *)
Definition healthy : Prop := forall at_, exists n, accepts at_ = Some (S n).

Lemma write_all_ok fuel w bs bytes :
  healthy -> written w bs -> Http.llen bs + Http.llen bytes <= MAX_ARCHIVE -> (length bytes <= fuel)%nat ->
  exists w', write_all fuel w bytes = Some w'.
Proof.
  intros Ha. revert w bs bytes. induction fuel as [|fuel IH]; intros w bs [|x bytes] Hw Hl Hf; cbn [write_all]; eauto; [cbn in Hf; lia|].
  destruct (Ha (w_len w)) as [n En]. destruct (writer_write w (x :: bytes) (accepts (w_len w))) as [[k w1]|] eqn:E.
  - destruct (write_facts _ _ _ _ _ _ Hw E) as [Hw1 Hk]. rewrite En in E. unfold writer_write in E. destruct (_ <? _); [done|]. cbn zeta in E.
    destruct k as [|k]; [injection E as E _; cbn [length] in E; lia|]. apply (IH w1 _ _ Hw1).
    + unfold Http.llen in *. rewrite length_app, length_take, length_drop. lia.
    + rewrite length_drop. cbn [length] in *. lia.
  - exfalso. destruct Hw as (_ & _ & H3 & H4). rewrite En in E. unfold writer_write, sat_sub in E.
    destruct (Z.ltb_spec (Z.max 0 (MAX_ARCHIVE - w_len w)) (Http.llen (x :: bytes))); [lia|done].
Qed.
Lemma write_pieces_ok pieces w bs :
  healthy -> written w bs -> Http.llen bs + Http.llen (concat pieces) <= MAX_ARCHIVE -> exists w', write_pieces w pieces = Some w'.
Proof.
  intros Ha. revert w bs. induction pieces as [|p ps IH]; intros w bs Hw Hl; cbn [write_pieces]; [eauto|].
  cbn [concat] in Hl. unfold Http.llen in Hl. rewrite length_app in Hl.
  destruct (write_all_ok (length p) w bs p Ha Hw) as [w1 E]; [unfold Http.llen; lia|done|]. rewrite E.
  apply (IH w1 (bs ++ p)); [by eapply write_all_facts|]. unfold Http.llen. rewrite length_app. lia.
Qed.
End archive.

(** * What a bundle is *)
Section contents.
Context `{MasterCodecs}.
Context (tar_append : string -> list Z -> option (list (list Z))) (tar_end : list (list Z)).

(** The bytes of an archive's entries, in order. *)
Fixpoint entries_bytes (es : list (string * list Z)) : option (list Z) :=
  match es with
  | [] => Some []
  | (name, bytes) :: es =>
      match tar_append name bytes, entries_bytes es with
      | Some pieces, Some rest => Some (concat pieces ++ rest)
      | _, _ => None
      end
  end.
Definition table_entries (tables : list (File * list Z)) : list (string * list Z) :=
  map (fun x => ("tables/" ++ f_name (fst x), snd x)%string) tables.
Lemma table_entries_cons f b tables : table_entries ((f, b) :: tables) = ("tables/" ++ f_name f, b)%string :: table_entries tables.
Proof. done. Qed.
Definition bundle_entries (manifest_bytes : list Z) (tables : list (File * list Z)) : list (string * list Z) :=
  ("metadata/manifest.json"%string, manifest_bytes) :: table_entries tables.

(** [file] is the archive of a manifest and of one verified table per entry. *)
Definition archives (m : PublishedManifest) (file : list Z) : Prop :=
  exists manifest_bytes tables bytes,
    published_to_vec m = Some manifest_bytes /\ map fst tables = p_files m /\
    Forall (fun x => is_file (fst x) (snd x)) tables /\
    entries_bytes (bundle_entries manifest_bytes tables) = Some bytes /\ file = bytes ++ concat tar_end.

Context (accepts : Z -> option nat).

Lemma append_facts w bs name bytes w' :
  written w bs -> append tar_append accepts w name bytes = Some w' ->
  exists pieces, tar_append name bytes = Some pieces /\ written w' (bs ++ concat pieces).
Proof.
  unfold append. intros Hw. destruct (tar_append name bytes) as [pieces|]; [|done]. intros E. exists pieces. split; [done|].
  by eapply write_pieces_facts.
Qed.

Lemma append_tables_facts load fs w bs w' :
  written w bs -> append_tables tar_append accepts w load fs = Ok w' ->
  exists tables bytes, map fst tables = fs /\ Forall (fun x => load (fst x) = Ok (snd x) /\ is_file (fst x) (snd x)) tables /\
    entries_bytes (table_entries tables) = Some bytes /\ written w' (bs ++ bytes).
Proof.
  revert w bs. induction fs as [|f fs IH]; intros w bs Hw; cbn [append_tables].
  - intros [= <-]. exists [], []. rewrite app_nil_r. split; [done|]. split; [constructor|]. by split.
  - intros Ha. apply rbind_ok in Ha as (b & Hb & Ha). apply rbind_ok in Ha as (w1 & Ht & Ha). unfold append_table in Ht.
    destruct (_ || _) eqn:E; [done|]. rewrite !orb_false_iff, !negb_false_iff in E. destruct E as [[E1 E2] E3].
    destruct (append _ _ w _ b) as [w2|] eqn:Ew; [|done]. injection Ht as ->.
    destruct (append_facts _ _ _ _ _ Hw Ew) as (pieces & Hp & Hw1). destruct (IH _ _ Hw1 Ha) as (tables & bytes & H1 & H2 & H3 & H4).
    exists ((f, b) :: tables), (concat pieces ++ bytes). split; [cbn; by rewrite H1|]. split.
    + constructor; [|done]. cbn. split; [done|]. apply Z.eqb_eq in E1. apply String.eqb_eq in E2. split; [done|]. split; [done|].
      unfold validate_json in E3. by destruct (json_valid b).
    + rewrite table_entries_cons. cbn [entries_bytes]. rewrite Hp, H3. split; [done|]. by rewrite app_assoc.
Qed.

Lemma build_facts m load in_time flushed b :
  build tar_append tar_end accepts m load in_time flushed = Ok b ->
  published_validate m (p_scope m) = Ok tt /\ archives m (b_file b) /\
  b_etag b = quoted (digest (b_file b)) /\ b_len b = Http.llen (b_file b) /\ b_len b <= MAX_ARCHIVE.
Proof.
  unfold build. intros Hb. apply rbind_ok in Hb as (? & _ & Hb). apply rbind_ok in Hb as ([] & Hv & Hb). apply ensure_ok in Hv.
  apply rbind_ok in Hb as (mb & Hm & Hb). destruct (published_to_vec m) as [mb'|] eqn:Em; [|done]. injection Hm as ->.
  apply rbind_ok in Hb as (? & _ & Hb). apply rbind_ok in Hb as (w1 & H1 & Hb). apply rbind_ok in Hb as (w2 & H2 & Hb).
  apply rbind_ok in Hb as (w3 & H3 & Hb). apply rbind_ok in Hb as (? & _ & [= <-]). cbn [b_file b_etag b_len].
  destruct (append _ _ new_writer _ mb) as [w1'|] eqn:E1; [|done]. injection H1 as ->.
  destruct (append_facts _ _ _ _ _ written_new E1) as (pieces & Hp & Hw1).
  destruct (append_tables_facts _ _ _ _ _ Hw1 H2) as (tables & bytes & T1 & T2 & T3 & Hw2).
  destruct (write_pieces _ w2 tar_end) as [w3'|] eqn:E3; [|done]. injection H3 as ->.
  destruct (write_pieces_facts _ _ _ _ _ Hw2 E3) as (F1 & F2 & F3 & F4). split; [by destruct (published_validate m _) as [[]|]|]. split.
  - exists mb, tables, (concat pieces ++ bytes). split; [done|]. split; [done|]. split.
    + eapply List.Forall_impl; [|exact T2]. by intros y [_ Hy].
    + cbn [bundle_entries entries_bytes]. rewrite Hp, T3. split; [done|]. by rewrite F1.
  - rewrite F1, F2, F3. split; [done|]. split; [done|]. exact F4.
Qed.

(** With a healthy file and enough room every archive of verified tables is built. *)
Lemma append_ok w bs name bytes pieces :
  healthy accepts -> written w bs -> tar_append name bytes = Some pieces -> Http.llen bs + Http.llen (concat pieces) <= MAX_ARCHIVE ->
  exists w', append tar_append accepts w name bytes = Some w' /\ written w' (bs ++ concat pieces).
Proof.
  intros Ha Hw Hp Hl. unfold append. rewrite Hp. destruct (write_pieces_ok _ pieces w bs Ha Hw Hl) as [w' E]. exists w'. split; [done|].
  by eapply write_pieces_facts.
Qed.

Lemma append_tables_ok load tables w bs bytes :
  healthy accepts -> written w bs -> Forall (fun x => load (fst x) = Ok (snd x) /\ is_file (fst x) (snd x)) tables ->
  entries_bytes (table_entries tables) = Some bytes -> Http.llen bs + Http.llen bytes <= MAX_ARCHIVE ->
  exists w', append_tables tar_append accepts w load (map fst tables) = Ok w' /\ written w' (bs ++ bytes).
Proof.
  intros Ha. revert w bs bytes. induction tables as [|[f b] tables IH]; intros w bs bytes Hw Hall He Hl.
  - injection He as <-. exists w. by rewrite app_nil_r.
  - apply Forall_cons_iff in Hall as [[Hload (Hs & Hd & Hj)] Hall]. cbn [fst snd map append_tables] in *.
    rewrite table_entries_cons in He. cbn [entries_bytes] in He. destruct (tar_append _ b) as [pieces|] eqn:Ep; [|done].
    destruct (entries_bytes _) as [rest|] eqn:Er; [|done]. injection He as <-. unfold Http.llen in Hl. rewrite length_app in Hl.
    rewrite Hload. cbn [rbind]. unfold append_table. rewrite Hs, Hd, Z.eqb_refl, String.eqb_refl. unfold validate_json. rewrite Hj. cbn [negb orb ensure is_ok].
    destruct (append_ok w bs _ b pieces Ha Hw Ep) as (w1 & E1 & Hw1); [unfold Http.llen; lia|].
    rewrite E1. cbn [unavailable ok_or rbind]. rewrite app_assoc. apply IH; [done|done|done|].
    unfold Http.llen. rewrite length_app. lia.
Qed.

Lemma build_ok m load mb tables bytes :
  healthy accepts -> published_validate m (p_scope m) = Ok tt -> published_to_vec m = Some mb -> Http.llen mb <= MAX_BUNDLE_MANIFEST ->
  map fst tables = p_files m -> Forall (fun x => load (fst x) = Ok (snd x) /\ is_file (fst x) (snd x)) tables ->
  entries_bytes (bundle_entries mb tables) = Some bytes -> Http.llen (bytes ++ concat tar_end) <= MAX_ARCHIVE ->
  let file := bytes ++ concat tar_end in
  build tar_append tar_end accepts m load true true = Ok (mkBundle file (quoted (digest file)) (Http.llen file)).
Proof.
  intros Ha Hv Emb Hsize Hfs Hload He Hl. cbn [bundle_entries entries_bytes] in He. destruct (tar_append _ mb) as [pieces|] eqn:Ep; [|done].
  destruct (entries_bytes _) as [rest|] eqn:Er; [|done]. injection He as <-. unfold Http.llen in Hl. rewrite !length_app in Hl.
  destruct (append_ok new_writer [] _ mb pieces Ha written_new Ep) as (w1 & E1 & Hw1); [unfold Http.llen; cbn [length]; lia|].
  destruct (append_tables_ok load tables w1 _ rest Ha Hw1 Hload Er) as (w2 & E2 & Hw2); [unfold Http.llen; cbn [app]; lia|].
  destruct (write_pieces_ok accepts tar_end w2 _ Ha Hw2) as [w3 E3]; [unfold Http.llen; cbn [app]; rewrite length_app; lia|].
  destruct (write_pieces_facts _ _ _ _ _ Hw2 E3) as (F1 & F2 & F3 & _). unfold build. rewrite Hv, Emb. cbn [is_ok ensure rbind unavailable ok_or].
  destruct (Z.ltb_spec MAX_BUNDLE_MANIFEST (Http.llen mb)); [lia|]. rewrite E1. cbn [negb ensure rbind unavailable ok_or]. rewrite <- Hfs, E2. cbn [rbind].
  rewrite E3. cbn [unavailable ok_or rbind]. by rewrite F1, F2, F3.
Qed.
End contents.

Section theorems.
Context `{!MasterCodecs, !MasterCodecsOk}.
Context (tar_append : string -> list Z -> option (list (list Z))) (tar_end : list (list Z)) (accepts : Z -> option nat).
Context (scope : Scope).

(** A reply that carries, or stands for, the archive of a validated manifest. *)
Definition bundle_reply (hs : header_map) (r : reply) (m : PublishedManifest) : Prop :=
  exists file,
    published_validate m (p_scope m) = Ok tt /\ archives tar_append tar_end m file /\ Http.llen file <= MAX_ARCHIVE /\
    header_get "etag" (rp_headers r) = Some (quoted (digest file)) /\
    header_get "x-master-content-sha256" (rp_headers r) = Some (content_sha256 m) /\
    (if if_none_match hs (quoted (digest file)) then rp_status r = 304 /\ rp_body r = []
     else rp_status r = 200 /\ rp_body r = file /\ header_get "content-length" (rp_headers r) = Some (u64_to_string (Http.llen file))).

Lemma response_facts b hs m r load in_time flushed :
  build tar_append tar_end accepts m load in_time flushed = Ok b -> response b hs (p_version m) (content_sha256 m) = Ok r ->
  bundle_reply hs r m.
Proof.
  intros Hb Hr. destruct (build_facts _ _ _ _ _ _ _ _ Hb) as (Hv & Ha & He & Hl & Hmax). unfold response in Hr.
  destruct (_ || _); [done|]. injection Hr as <-. rewrite He. exists (b_file b). rewrite <- Hl.
  split; [done|]. split; [done|]. split; [done|]. split; [done|]. split; [done|]. by destruct (if_none_match _ _).
Qed.

(** Whatever the directory does while a bundle is built, a bundle that is answered
    holds the manifest and one table per entry with the size, digest and JSON validity
    the manifest states, in order, within the archive limit, with its own digest as
    entity tag and its exact length; an answer without a body stands for the same
    archive. *)
Lemma bundles_are_verified x hs r :
  (exists selection, service_bundle tar_append tar_end accepts x scope selection hs = Ok r) \/
  (exists configured hash, registry_bundle tar_append tar_end accepts configured x scope hash hs = Ok r) ->
  permit x = true /\ exists m, bundle_reply hs r m.
Proof.
  intros [[selection Hr]|(configured & hash & Hr)].
  - unfold service_bundle in Hr. destruct (permit x); [|done]. split; [done|]. cbn [ensure rbind] in Hr.
    apply rbind_ok in Hr as (doc & _ & Hr). apply rbind_ok in Hr as (m & _ & Hr). apply rbind_ok in Hr as (b & Hb & Hr).
    exists m. by eapply response_facts.
  - unfold registry_bundle in Hr. destruct (permit x); [|done]. split; [done|]. cbn [ensure rbind] in Hr.
    apply rbind_ok in Hr as (? & _ & Hr). apply rbind_ok in Hr as (doc & _ & Hr). apply rbind_ok in Hr as (m & _ & Hr).
    apply rbind_ok in Hr as (b & Hb & Hr). exists m. by eapply response_facts.
Qed.

(** A quiet directory behind a free permit, in time, on a healthy file. *)
Definition quiet (ro : root) : bundle_run := mkBundleRun true (fun _ => ro) (fun _ _ => ro) true true.

Lemma header_value_app a b : header_value_ok a = true -> header_value_ok b = true -> header_value_ok (a ++ b) = true.
Proof. unfold header_value_ok. rewrite all_bytes_app. by intros -> ->. Qed.

(** The tables of what a quiet directory serves load, through either handler. *)
Lemma loaded_tables ro m :
  published_ok scope m -> served scope (fun _ => ro) m ->
  exists tables, map fst tables = p_files m /\
    Forall (fun x => service_load (quiet ro) scope (p_snapshot m) (fst x) = Ok (snd x) /\ is_file (fst x) (snd x)) tables /\
    Forall (fun x => api_load (quiet ro) scope (p_snapshot m) (fst x) = Ok (snd x) /\ is_file (fst x) (snd x)) tables.
Proof.
  intros Hok Hserved. assert (Hsub : forall f, In f (p_files m) -> In f (p_files m)) by done. revert Hsub.
  generalize (p_files m) at 1 3 as fs. induction fs as [|f fs IH]; intros Hsub; [exists []; split; [done|]; by split|].
  destruct IH as (tables & H1 & H2 & H3); [intros g Hg; apply Hsub; by right|].
  assert (Hf : In f (p_files m)) by (apply Hsub; by left). destruct (published_file scope m f Hok Hf) as (stem & En & Es & Hfo).
  destruct (served_file scope (fun _ => ro) m f Hok Hserved Hf) as (d & Hd & Hif). rewrite Es in Hd.
  assert (Hstem : strip_suffix (f_name f) ".json" = Some stem) by (rewrite En; by apply strip_suffix_spec).
  exists ((f, d_bytes d) :: tables). split; [cbn; by rewrite H1|].
  split; (constructor; [|done]); (split; [|done]); cbn [fst snd].
  - unfold service_load. rewrite Hstem. cbn [unavailable ok_or rbind]. unfold document.
    rewrite (snapshot_cursor _ (po_snapshot _ _ Hok)). cbn [some_and fst snd]. rewrite (fo_hash f Hfo).
    assert (safe_component stem = true) as -> by (unfold table, table_read in Hd; by destruct (safe_component stem)).
    cbn [negb orb quiet at_table]. by rewrite Hd.
  - unfold api_load. rewrite Hstem. cbn [unavailable ok_or rbind quiet at_table]. by rewrite Hd.
Qed.

(** The headers of a bundle of a published manifest are valid. *)
Lemma response_ok b hs m load in_time flushed :
  published_ok scope m -> build tar_append tar_end accepts m load in_time flushed = Ok b ->
  exists r, response b hs (p_version m) (content_sha256 m) = Ok r.
Proof.
  intros Hok Eb. assert (Hcontent : hash_valid (content_sha256 m) = true).
  { pose proof (po_content _ _ Hok) as Hc. unfold content_hash in Hc. apply rbind_ok in Hc as (cb & _ & Hc). injection Hc as <-. apply digest_valid. }
  destruct (build_facts _ _ _ _ _ _ _ _ Eb) as (_ & _ & He & _). unfold response. rewrite He, (hash_header _ (digest_valid _)).
  assert (Hv : header_value_ok (p_version m) = true).
  { rewrite (po_version _ _ Hok). apply version_header. by destruct (check_manifest_ok _ (po_source _ _ Hok)). }
  assert (Hq : header_value_ok (content_sha256 m) = true).
  { pose proof (hash_header _ Hcontent) as Hq. unfold quoted, header_value_ok in *. rewrite !all_bytes_app in Hq.
    rewrite !andb_true_iff in Hq. tauto. }
  assert (Hd : header_value_ok ("attachment; filename=" ++ quoted ("master-" ++ content_sha256 m ++ ".tar")) = true).
  { unfold quoted. repeat apply header_value_app; done. }
  rewrite Hv, Hq, Hd. eauto.
Qed.

(** For every directory the program may reach that serves a snapshot, with a free
    permit, in time, and a file that takes at least a byte of every write, both bundle
    routes answer the same verified archive whenever the archive fits. *)
Lemma installed_snapshot_is_bundled used ro m hs :
  held scope used ro -> installed_manifest scope ro = Some m -> healthy accepts ->
  (forall bytes, published_to_vec m = Some bytes -> Http.llen bytes <= MAX_BUNDLE_MANIFEST) ->
  (forall bytes tables, published_to_vec m = Some bytes -> map fst tables = p_files m -> Forall (fun x => is_file (fst x) (snd x)) tables ->
     exists entries, entries_bytes tar_append (bundle_entries bytes tables) = Some entries /\
       Http.llen entries + Http.llen (concat tar_end) <= MAX_ARCHIVE) ->
  exists r, service_bundle tar_append tar_end accepts (quiet ro) scope Current hs = Ok r /\
    registry_bundle tar_append tar_end accepts true (quiet ro) scope None hs = Ok r /\ bundle_reply hs r m.
Proof.
  intros Hh Hm Ha Hsize Hfit.
  destruct (held_installed scope used ro m Hh Hm) as (Hok & Hserved). destruct (published_roundtrip m) as (mb & Emb & _).
  destruct (loaded_tables ro m Hok Hserved) as (tables & T1 & T2 & T3). destruct (Hfit mb tables Emb T1) as (bytes & He & Hl).
  { eapply List.Forall_impl; [|exact T2]. by intros y [_ Hy]. }
  assert (Hv : published_validate m (p_scope m) = Ok tt) by (rewrite (po_scope _ _ Hok); apply Hserved).
  assert (Hroom : Http.llen (bytes ++ concat tar_end) <= MAX_ARCHIVE) by (unfold Http.llen in *; rewrite length_app; lia).
  pose proof (build_ok tar_append tar_end accepts m _ mb tables bytes Ha Hv Emb (Hsize mb Emb) T1 T2 He Hroom) as Eb.
  pose proof (build_ok tar_append tar_end accepts m _ mb tables bytes Ha Hv Emb (Hsize mb Emb) T1 T3 He Hroom) as Eb'.
  destruct (response_ok _ hs m _ _ _ Hok Eb) as [r Er]. exists r. unfold installed_manifest in Hm.
  destruct (manifest _ None scope) as [doc|] eqn:Ed; [|done]. split; [|split].
  - unfold service_bundle. cbn [quiet permit at_manifest in_time flushed ensure rbind]. unfold document. cbn [some_and orb]. rewrite Ed.
    cbn [from_file rbind]. rewrite Hm. cbn [unavailable ok_or rbind]. by rewrite Eb.
  - unfold registry_bundle. cbn [quiet permit at_manifest in_time flushed ensure rbind]. rewrite Ed.
    cbn [from_file rbind]. rewrite Hm. cbn [unavailable ok_or rbind]. by rewrite Eb'.
  - by eapply response_facts.
Qed.
End theorems.
