(* ===== verification/RegistryOwner.v ===== *)
(** The worker of a registry owner ([registry_owner.rs]): hints, requests to
    refresh or to publish, and the loop that serves them; the verification of the
    local snapshot it ends with ([master_database.rs], [verify_current]).

    A request sets a bit of [pending] and then notifies; the two are separate
    steps of concurrent callers.  [Notify] is the library's: one notification is
    kept while nobody waits, and a wait consumes it. *)
From Stdlib Require Import ZArith Lia Ascii String List Bool.
From stdpp Require Import base list strings decidable gmap.
From S2P Require Import Prelude BTree Errors Regions Versions Http MasterFiles MasterRegistry MasterHistory MasterChain MasterImport MasterService MasterSync.

Local Open Scope Z_scope.
Local Open Scope rust_scope.

(** * Configuration and hints *)
Definition worker_interval (source_interval : option Z) (local_interval : option Z) : Z :=
  match source_interval with Some i => i | None => match local_interval with Some i => i | None => 300 end end.

(** [Worker::new]; the syncer it constructs is the argument [standalone]. *)
Definition worker_new (source_interval local_interval : option Z) (keep : option Z) (standalone : result AppError unit) (directory_empty : bool)
  : result AppError Z :=
  if is_some source_interval && is_some local_interval
  then Err (Config "local interval requires a local-only registry publisher")
  else
    let interval := worker_interval source_interval local_interval in
    if negb (in_range 60 86400 interval) then Err (Config "invalid registry publication interval")
    else if some_and keep (fun k => is_none source_interval || negb (retention_valid k))
    then Err (Config "registry owner retention requires a source and keep_snapshots 2..10000")
    else
      _ <-? (if is_some source_interval then standalone else Ok tt);;
      if directory_empty then Err (Config "registry publication directory is required") else Ok interval.

Record UpdateHint : Type := { hint_scope : Scope; hint_content : string }.
(** The request a hint makes, if any. *)
Definition hint (has_source : bool) (scope : Scope) (h : UpdateHint) : result AppError unit :=
  if negb has_source then Err NotFound
  else if negb (bool_decide (hint_scope h = scope)) || negb (hash_valid (hint_content h)) then Err InvalidRequest
  else Ok tt.

(** * Requests and the loop *)
Inductive phase : Type := Running (pull : bool) | Waiting | Stopped.

(** The shared bits, the kept notification, the worker's phase, the callers
    between their two steps; and what is owed: a refresh, or a publication, that
    was requested after the last run that serves it began. *)
Record worker : Type := mkWorker {
  refresh_bit : bool;
  publish_bit : bool;
  notified : bool;
  at_phase : phase;
  callers : nat;
  owes_refresh : bool;
  owes_publish : bool;
}.
Definition initial : worker := mkWorker false false false (Running true) 0 false false.

(** [refresh] and [publish_local]: setting the bit. *)
Definition request_refresh (w : worker) : worker :=
  mkWorker true (publish_bit w) (notified w) (at_phase w) (S (callers w)) true (owes_publish w).
Definition request_publish (w : worker) : worker :=
  mkWorker (refresh_bit w) true (notified w) (at_phase w) (S (callers w)) (owes_refresh w) true.
(** [notify_one]. *)
Definition notify (w : worker) : worker :=
  mkWorker (refresh_bit w) (publish_bit w) true (at_phase w) (pred (callers w)) (owes_refresh w) (owes_publish w).

(** A run begins: it serves the refresh when it pulls, the publication when it
    does not. *)
Definition begin_run (pull : bool) (w : worker) : worker :=
  mkWorker (refresh_bit w) (publish_bit w) (notified w) (Running pull) (callers w)
    (if pull then false else owes_refresh w) (if pull then owes_publish w else false).

(** The branch of the notification: the swap and what follows from it.  The
    refresh that is put off to the next iteration is the worker's own. *)
Definition wake (w : worker) : worker :=
  let r := refresh_bit w in
  let p := publish_bit w in
  let w := mkWorker false false false (at_phase w) (callers w) (owes_refresh w) (owes_publish w) in
  if p
  then begin_run false (if r then mkWorker true false true (at_phase w) (callers w) (owes_refresh w) (owes_publish w) else w)
  else begin_run true w.

(** What a step does; a run of the loop begins with its [pull]. *)
Inductive action : Type := Refresh | Publish | Notify | Finish | Begin (pull : bool) | Shutdown.

(** The select is biased: the interval begins a run only when the notification
    was not there at its poll. *)
Inductive worker_step : worker -> action -> worker -> Prop :=
| ws_refresh w : worker_step w Refresh (request_refresh w)
| ws_publish w : worker_step w Publish (request_publish w)
| ws_notify w : (0 < callers w)%nat -> worker_step w Notify (notify w)
| ws_finish w pull : at_phase w = Running pull ->
    worker_step w Finish (mkWorker (refresh_bit w) (publish_bit w) (notified w) Waiting (callers w) (owes_refresh w) (owes_publish w))
| ws_wake w : at_phase w = Waiting -> notified w = true -> worker_step w (Begin (negb (publish_bit w))) (wake w)
| ws_interval w : at_phase w = Waiting -> notified w = false -> worker_step w (Begin true) (begin_run true w)
| ws_shutdown w :
    worker_step w Shutdown (mkWorker (refresh_bit w) (publish_bit w) (notified w) Stopped (callers w) (owes_refresh w) (owes_publish w)).

(** Steps one after the other, with what they do. *)
Inductive worker_run : worker -> list action -> worker -> Prop :=
| run_nil w : worker_run w [] w
| run_cons w a w1 tr w' : worker_step w a w1 -> worker_run w1 tr w' -> worker_run w (a :: tr) w'.

Definition worker_reachable (w : worker) : Prop := exists tr, worker_run initial tr w.

(** What is owed has its bit, and a set bit has its notification, or a caller
    that is about to give it. *)
Record worker_ok (w : worker) : Prop := {
  wo_refresh : owes_refresh w = true -> refresh_bit w = true;
  wo_publish : owes_publish w = true -> publish_bit w = true;
  wo_notified : refresh_bit w = true \/ publish_bit w = true -> notified w = true \/ (0 < callers w)%nat;
}.

Lemma worker_step_ok w a w' : worker_ok w -> worker_step w a w' -> worker_ok w'.
Proof.
  intros [H1 H2 H3] Hs. destruct Hs as [w|w|w Hc|w pull Hp|w Hp Hn|w Hp Hn|w].
  - constructor; cbn; auto. intros _. right. lia.
  - constructor; cbn; auto. intros _. right. lia.
  - constructor; cbn; auto.
  - constructor; cbn; auto.
  - destruct w as [r p n ph c o1 o2]. cbn in *. destruct p, r; constructor; cbn; auto; try (intros [|]; done).
  - constructor; cbn; auto. discriminate.
  - constructor; cbn; auto.
Qed.

Lemma worker_run_ok w tr w' : worker_ok w -> worker_run w tr w' -> worker_ok w'.
Proof. intros Hw Hr. induction Hr as [|w a w1 tr w' Hs _ IH]; [done|]. by eapply IH, worker_step_ok. Qed.

Lemma worker_reachable_ok w : worker_reachable w -> worker_ok w.
Proof. intros (tr & Hr). eapply worker_run_ok; [|exact Hr]. constructor; cbn; auto. intros [|]; done. Qed.

(** What is owed stays owed until a run that serves it begins. *)
Lemma step_owes_refresh w a w' : worker_step w a w' -> owes_refresh w = true -> a <> Begin true -> owes_refresh w' = true.
Proof. intros [w0|w0|w0 Hc|w0 pull Hp|w0 Hp Hn|w0 Hp Hn|w0]; cbn; try done. unfold wake. by destruct (publish_bit w0), (refresh_bit w0). Qed.
Lemma step_owes_publish w a w' : worker_step w a w' -> owes_publish w = true -> a <> Begin false -> owes_publish w' = true.
Proof. intros [w0|w0|w0 Hc|w0 pull Hp|w0 Hp Hn|w0 Hp Hn|w0]; cbn; try done. unfold wake. by destruct (publish_bit w0), (refresh_bit w0). Qed.

(** Every run that begins as a publication uses up a request for one. *)
Definition bit (b : bool) : nat := if b then 1 else 0.
Definition is_request (a : action) : bool := match a with Publish => true | _ => false end.
Definition is_publication (a : action) : bool := match a with Begin false => true | _ => false end.
Definition count (f : action -> bool) (tr : list action) : nat := length (List.filter f tr).

Lemma step_publications w a w' :
  worker_step w a w' -> (bit (is_publication a) + bit (publish_bit w') <= bit (is_request a) + bit (publish_bit w))%nat.
Proof.
  intros [w0|w0|w0 Hc|w0 pull Hp|w0 Hp Hn|w0 Hp Hn|w0]; cbn; try lia.
  unfold wake. destruct (publish_bit w0), (refresh_bit w0); cbn; lia.
Qed.

Lemma run_publications w tr w' :
  worker_run w tr w' -> (count is_publication tr + bit (publish_bit w') <= count is_request tr + bit (publish_bit w))%nat.
Proof.
  induction 1 as [w|w a w1 tr w' Hs _ IH]; [done|]. apply step_publications in Hs. unfold count in *. cbn [List.filter].
  destruct (is_publication a), (is_request a); cbn [length bit] in *; lia.
Qed.

Lemma run_owes w tr w' :
  worker_run w tr w' ->
  (owes_refresh w = true -> ~ In (Begin true) tr -> owes_refresh w' = true) /\
  (owes_publish w = true -> ~ In (Begin false) tr -> owes_publish w' = true).
Proof.
  induction 1 as [w|w a w1 tr w' Hs _ [IH1 IH2]]; [done|]. split; intros Ho Hn.
  - apply IH1; [|intros Hi; apply Hn; by right]. eapply step_owes_refresh; [done..|]. intros ->. apply Hn. by left.
  - apply IH2; [|intros Hi; apply Hn; by right]. eapply step_owes_publish; [done..|]. intros ->. apply Hn. by left.
Qed.

(** C21: In every interleaving of refresh and publish requests with the owner's loop, from
    every state it may reach: a requested refresh stays requested until a run that pulls
    begins, and before that at most one run begins for the publication already requested
    and one for every publication requested meanwhile; a requested publication stays
    requested until a run that publishes begins; and when the loop waits with no caller
    between its two steps while a request is not served, a notification is kept, and the
    one way for a run to begin is the wake-up, which publishes if a publication is
    requested and otherwise pulls. *)
Theorem requests_are_not_lost w tr w' :
  worker_reachable w -> worker_run w tr w' ->
  (owes_refresh w = true -> ~ In (Begin true) tr ->
     owes_refresh w' = true /\ refresh_bit w' = true /\
     (count is_publication tr + bit (publish_bit w') <= count is_request tr + bit (publish_bit w))%nat) /\
  (owes_publish w = true -> ~ In (Begin false) tr -> owes_publish w' = true /\ publish_bit w' = true) /\
  (at_phase w' = Waiting -> callers w' = 0%nat -> owes_refresh w' = true \/ owes_publish w' = true ->
     notified w' = true /\ worker_step w' (Begin (negb (publish_bit w'))) (wake w') /\
     (forall pull w2, worker_step w' (Begin pull) w2 -> pull = negb (publish_bit w') /\ w2 = wake w') /\
     owes_publish (wake w') = false /\ (publish_bit w' = false -> owes_refresh (wake w') = false)).
Proof.
  intros Hr Hrun. pose proof (worker_run_ok w tr w' (worker_reachable_ok w Hr) Hrun) as [H1 H2 H3].
  destruct (run_owes w tr w' Hrun) as [Hor Hop]. split; [|split].
  - intros Ho Hn. specialize (Hor Ho Hn). split; [done|]. split; [auto|by apply run_publications].
  - intros Ho Hn. specialize (Hop Ho Hn). auto.
  - intros Hp Hc Ho. assert (Hn : notified w' = true) by (destruct H3 as [|Hlt]; [destruct Ho; auto|done|lia]).
    split; [done|]. split; [by apply ws_wake|]. split.
    { intros pull w2 Hs. inversion Hs; subst; [done|congruence]. }
    unfold wake. destruct (publish_bit w') eqn:Eb; [by destruct (refresh_bit w')|].
    destruct (owes_publish w') eqn:Eo; [by specialize (H2 eq_refl)|done].
Qed.

(** A refresh and a publication are requested while the first run goes on; the loop
    publishes, a second publication is requested and is served too, and then the loop
    waits with the refresh requested and notified. *)
Definition put_off : list action :=
  [Refresh; Notify; Publish; Notify; Finish; Begin false; Publish; Notify; Finish; Begin false; Finish].
Definition after_put_off : worker := mkWorker true false true Waiting 0 true false.

Lemma put_off_run : worker_run (request_refresh initial) (List.tl put_off) after_put_off.
Proof.
  do 3 (eapply run_cons; [constructor; cbn; lia|]). eapply run_cons; [by eapply ws_finish|].
  eapply run_cons; [by apply (ws_wake (mkWorker true true true Waiting 0 true true))|].
  do 2 (eapply run_cons; [constructor; cbn; lia|]). eapply run_cons; [by eapply ws_finish|].
  eapply run_cons; [by apply (ws_wake (mkWorker true true true Waiting 0 true true))|].
  eapply run_cons; [by eapply ws_finish|]. apply run_nil.
Qed.

Lemma requests_are_not_lost_witness :
  owes_refresh after_put_off = true /\ count is_publication (List.tl put_off) = 2%nat /\
  count is_request (List.tl put_off) = 2%nat /\ worker_step after_put_off (Begin true) (wake after_put_off) /\
  owes_refresh (wake after_put_off) = false.
Proof.
  assert (Hr : worker_reachable (request_refresh initial)).
  { exists [Refresh]. eapply run_cons; [apply ws_refresh|apply run_nil]. }
  assert (Hno : ~ In (Begin true) (List.tl put_off)) by (cbn; intuition discriminate).
  destruct (requests_are_not_lost _ _ _ Hr put_off_run) as (H1 & _ & H3).
  destruct (H3 eq_refl eq_refl (or_introl eq_refl)) as (_ & H4 & _ & _ & H5).
  split; [exact (proj1 (H1 eq_refl Hno))|]. split; [reflexivity|]. split; [reflexivity|]. split; [exact H4|exact (H5 eq_refl)].
Defined.

(** * What a run does *)
Section run.
Context `{MasterCodecs} (scope : Scope).

Record Receipt : Type := mkDbReceipt { db_content : string; db_tables : Z; db_bytes : Z; db_changed : bool }.

(** [verified_snapshot] over the pinned snapshot, table by table. *)
Fixpoint verified_tables (v : view) (snapshot : string) (fs : list File) : option (list (File * list Z * json)) :=
  match fs with
  | [] => Some []
  | f :: fs =>
      match strip_suffix (f_name f) ".json" with
      | None => None
      | Some name =>
          match table v (region scope) snapshot name (f_sha256 f) with
          | Err _ => None
          | Ok data =>
              if negb (Http.llen (d_bytes data) =? f_size f) then None
              else match value_from_slice (d_bytes data) with
                   | None => None
                   | Some value => option_map (cons (f, d_bytes data, value)) (verified_tables v snapshot fs)
                   end
          end
      end
  end.
Definition verified_snapshot (v : view) (id : option string) : option (PublishedManifest * list Z * list (File * list Z * json)) :=
  match manifest v id scope with
  | Err _ => None
  | Ok document =>
      match published_from_slice (d_bytes document) with
      | None => None
      | Some m =>
          if is_ok (published_validate m scope)
          then option_map (fun tables => (m, d_bytes document, tables)) (verified_tables v (p_snapshot m) (p_files m))
          else None
      end
  end.
Definition verify_current (v : view) : option Receipt :=
  match verified_snapshot v None with
  | None => None
  | Some (m, _, tables) =>
      Some (mkDbReceipt (content_sha256 m) (Z.of_nat (length tables))
              (List.fold_right (fun x t => f_size (fst (fst x)) + t) 0 tables) false)
  end.

(** [update] of an owner with a files backend: the synchronization when it pulls
    and has a source, then the verification of what is served. *)
Definition owner_update (pull : bool) (sync : option (result SyncError json)) (after : view) : result string (option json * Receipt) :=
  synced <-? match pull, sync with
             | true, Some (Ok v) => Ok (Some v)
             | true, Some (Err _) => Err "owner_sync_failed"%string
             | _, _ => Ok None
             end;;
  local <-? ok_or (verify_current after) "local_verification_failed"%string;;
  Ok (synced, local).
End run.

Section run_facts.
Context `{!MasterCodecs, !MasterCodecsOk} (scope : Scope).

(** Whatever a held directory serves is verified. *)
Lemma held_verified used r p :
  (forall b, json_valid b = true -> is_some (value_from_slice b) = true) ->
  held scope used r -> installed_manifest scope r = Some p ->
  exists receipt, verify_current scope (fun _ => r) = Some receipt /\ db_content receipt = content_sha256 p /\
    db_tables receipt = Z.of_nat (length (p_files p)).
Proof.
  intros Hjson Hh Hp. destruct (held_installed scope used r p Hh Hp) as (Hok & Hserved).
  assert (Hall : forall fs, (forall f, In f fs -> In f (p_files p)) ->
    exists ts, verified_tables scope (fun _ => r) (p_snapshot p) fs = Some ts /\ length ts = length fs).
  { induction fs as [|f fs IH]; intros Hsub; [by exists []|].
    destruct (published_file scope p f Hok (Hsub f ltac:(by left))) as (stem & E1 & E2 & _).
    destruct (served_file scope (fun _ => r) p f Hok Hserved (Hsub f ltac:(by left))) as (d & Hd & H1 & _ & H3).
    cbn [verified_tables]. rewrite E1, (proj2 (strip_suffix_spec _ _ stem) eq_refl). rewrite E2 in Hd. rewrite Hd, H1, Z.eqb_refl. cbn [negb].
    specialize (Hjson _ H3). destruct (value_from_slice (d_bytes d)); [|done].
    destruct IH as (ts & -> & Hl); [intros g Hg; apply Hsub; by right|]. eexists. split; [done|]. cbn. by rewrite Hl. }
  destruct (Hall (p_files p) (fun f Hf => Hf)) as (ts & Hts & Hlen).
  unfold installed_manifest in Hp. unfold verify_current, verified_snapshot.
  destruct (manifest (fun _ => r) None scope) as [doc|]; [|done]. rewrite Hp, (proj1 Hserved). cbn [is_ok]. rewrite Hts.
  eexists. split; [done|]. cbn. by rewrite Hlen.
Qed.
End run_facts.
