(* ===== verification/MasterNotify.v ===== *)
(** Notifications of consumers ([master_notify.rs]; the notifier of
    [registry_service.rs]): delivery of the served content hash to every
    configured target, the acknowledgements, and the consumer's end of a hint
    ([client.rs], [request_master_sync]; [api.rs], [master_sync_hint]).

    The JSON of a hint and of a reply, URLs and the environment are external; a
    request is answered by its target's own exchange. *)
From Stdlib Require Import ZArith Lia Ascii String List Bool.
From stdpp Require Import base list strings decidable gmap.
From S2P Require Import Prelude BTree Errors Regions Versions Http Environment Peer NodeRouting MasterFiles MasterRegistry MasterHistory MasterChain MasterImport MasterService MasterSync MasterAdmission MasterHttp RegistryOwner.

Local Open Scope Z_scope.
Local Open Scope rust_scope.

Inductive NotifyError : Type := NConfig | NDelivery.

(** * Targets *)
Record NotifyTarget : Type := mkNotifyTarget {
  nt_url : Url;
  nt_authorization : string;
  nt_scope : Scope;
  accepted : option string;
}.

Section targets.
Context (url_parse : string -> option Url) (build : bool).

Definition notify_target_new (origin token : string) (scope : Scope) (regional_paths allow_http : bool) (timeout_ms : Z)
  : result NotifyError NotifyTarget :=
  if negb (master_supported (region scope)) || negb (in_range 100 30000 timeout_ms) then Err NConfig
  else
    let policy := {| connect_timeout_ms := Z.min timeout_ms 5000; request_timeout_ms := timeout_ms;
                     max_response_bytes := max_response_bytes Policy_default |} in
    match client_new url_parse build origin token (region scope) regional_paths allow_http policy, url_parse origin with
    | Ok _, Some url =>
        if negb (header_value_ok (bearer token)) || negb build then Err NConfig
        else Ok (mkNotifyTarget
                   (set_path url (if regional_paths then "/internal/v1/" ++ region_name (region scope) ++ "/master-data/sync"
                                  else "/internal/v1/master-data/sync")%string)
                   (bearer token) scope None)
    | _, _ => Err NConfig
    end.

Record NotifyTargetConfig : Type := mkNotifyTargetConfig {
  ntc_name : string;
  ntc_origin : string;
  ntc_token_env : string;
  ntc_regional_paths : bool;
  ntc_allow_http : bool;
}.
Record NotifyConfig : Type := mkNotifyConfig { nc_targets : list NotifyTargetConfig; nc_interval_seconds : Z; nc_request_timeout_ms : Z }.

Definition bad_config : AppError := Errors.Config "invalid Master notification configuration".
Definition bad_notify_name (name : string) (names : gset string) : bool :=
  is_empty name || (64 <? len name)
  || negb (all_bytes (fun b => is_ascii_alphanumeric b || char_is 45 b || char_is 95 b) name)
  || bool_decide (name ∈ names).
Fixpoint validate_notify_targets (scope : Scope) (timeout_ms : Z) (ts : list NotifyTargetConfig) (names : gset string) : result AppError unit :=
  match ts with
  | [] => Ok tt
  | t :: ts =>
      if bad_notify_name (ntc_name t) names || bad_token_env (ntc_token_env t) then Err bad_config
      else match notify_target_new (ntc_origin t) "validation" scope (ntc_regional_paths t) (ntc_allow_http t) timeout_ms with
           | Err _ => Err bad_config
           | Ok _ => validate_notify_targets scope timeout_ms ts ({[ntc_name t]} ∪ names)
           end
  end.
Definition validate_policy (c : NotifyConfig) (scope : Scope) : result AppError unit :=
  if negb (master_supported (region scope)) || (Http.llen (nc_targets c) =? 0) || (16 <? Http.llen (nc_targets c))
     || negb (in_range 10 3600 (nc_interval_seconds c)) || negb (in_range 100 30000 (nc_request_timeout_ms c))
  then Err bad_config
  else validate_notify_targets scope (nc_request_timeout_ms c) (nc_targets c) ∅.

(** [Targets::new]. *)
Context (env : string -> option string).
Fixpoint new_targets (scope : Scope) (timeout_ms : Z) (ts : list NotifyTargetConfig) : result AppError (list (string * NotifyTarget)) :=
  match ts with
  | [] => Ok []
  | t :: ts =>
      token <-? secret env (ntc_token_env t);;
      match notify_target_new (ntc_origin t) token scope (ntc_regional_paths t) (ntc_allow_http t) timeout_ms with
      | Err _ => Err (Errors.Config "invalid Master notification destination or token")
      | Ok target => rest <-? new_targets scope timeout_ms ts;; Ok ((ntc_name t, target) :: rest)
      end
  end.
Definition targets_new (c : NotifyConfig) (scope : Scope) : result AppError (list (string * NotifyTarget)) :=
  _ <-? validate_policy c scope;;
  new_targets scope (nc_request_timeout_ms c) (nc_targets c).
End targets.

(** * Tokens *)

(** The part of a profile's configuration that names credentials. *)
Record Profile : Type := mkProfile {
  pr_region : Region;
  api_token_env : string;
  internal_token_env : string;
  peer_token_env : option string;
  player_credential_env : option string;
  cdn_credential_env : list string;
  account_credential_env : list (option string);
  sync_token_env : option string;
  dispatch_token_env : list string;
  node_token_env : list string;
  proxy_authorization_env : option string;
  update_env : option (option string * string * string * option string);
  notify_token_env : list string;
}.
Definition some_list {A} (o : option A) : list A := match o with Some a => [a] | None => [] end.
Definition credential_names (c : Profile) : list string :=
  [api_token_env c; internal_token_env c] ++ some_list (peer_token_env c) ++ some_list (player_credential_env c) ++ cdn_credential_env c
  ++ flat_map some_list (account_credential_env c) ++ some_list (sync_token_env c) ++ dispatch_token_env c ++ node_token_env c
  ++ some_list (proxy_authorization_env c)
  ++ match update_env c with
     | Some (username, key, iv, proxy) => some_list username ++ [key; iv] ++ some_list proxy
     | None => []
     end.
Definition protected_tokens (env : string -> option string) (configs : list Profile) : list string :=
  flat_map (fun c => flat_map (fun n => some_list (env n)) (credential_names c)) configs.

Definition TOKENS_SHARED : AppError :=
  Errors.Config "Master notification tokens must be region-scoped and distinct from local API/internal/peer/game/CDN/sync/updater credentials".
Fixpoint check_tokens (env : string -> option string) (protected : list string) (r : Region) (names : list string)
    (outgoing : list (Region * string)) : result AppError (list (Region * string)) :=
  match names with
  | [] => Ok outgoing
  | n :: names =>
      token <-? secret env n;;
      if mem token protected || List.existsb (fun o => negb (bool_decide (fst o = r)) && String.eqb (snd o) token) outgoing
      then Err TOKENS_SHARED
      else check_tokens env protected r names (outgoing ++ [(r, token)])
  end.
Fixpoint check_profiles (env : string -> option string) (protected : list string) (configs : list Profile) (outgoing : list (Region * string))
  : result AppError (list (Region * string)) :=
  match configs with
  | [] => Ok outgoing
  | c :: cs =>
      outgoing <-? check_tokens env protected (pr_region c) (notify_token_env c) outgoing;;
      check_profiles env protected cs outgoing
  end.
Definition validate_tokens (env : string -> option string) (configs : list Profile) : result AppError unit :=
  rmap (fun _ => tt) (check_profiles env (protected_tokens env configs) configs []).

(** * Delivery *)
Section delivery.
Context (hint_to_vec : UpdateHint -> option (list Z)) (reply_status : list Z -> option string).

Definition hex64 (h : string) : bool := (len h =? 64) && all_bytes is_ascii_hexdigit h.

(** The answer of a target is accepted. *)
Definition notify_answered (answer : option http_response) : result NotifyError unit :=
  match answer with
  | None => Err NDelivery
  | Some r =>
      if negb (http_status r =? 202) || some_and (content_length r) (fun n => 1024 <? n) then Err NDelivery
      else
        bytes <-? Http.read_bounded 1024 NDelivery NDelivery [] (body_events r);;
        status <-? ok_or (reply_status bytes) NDelivery;;
        ensure (String.eqb status "accepted") NDelivery
  end.

(** [Target::deliver]; the bytes it posted, if it posted, are returned too. *)
Definition deliver (t : NotifyTarget) (hash : string) (exchange : list Z -> option http_response)
  : result NotifyError bool * NotifyTarget * option (list Z) :=
  if negb (hex64 hash) then (Err NConfig, t, None)
  else if bool_decide (accepted t = Some hash) then (Ok false, t, None)
  else match hint_to_vec {| hint_scope := nt_scope t; hint_content := hash |} with
       | None => (Err NConfig, t, None)
       | Some body =>
           match notify_answered (exchange body) with
           | Err e => (Err e, t, Some body)
           | Ok _ => (Ok true, mkNotifyTarget (nt_url t) (nt_authorization t) (nt_scope t) (Some hash), Some body)
           end
       end.

(** [Targets::deliver]: each target with its own exchange. *)
Definition peers : Type := list (string * NotifyTarget * (list Z -> option http_response)).
Fixpoint deliver_all (hash : string) (ts : peers) (delivered : Z) (failed : bool) : result NotifyError Z * list (string * NotifyTarget) :=
  match ts with
  | [] => (if failed then Err NDelivery else Ok delivered, [])
  | (name, t, exchange) :: ts =>
      match deliver t hash exchange with
      | (Ok sent, t', _) =>
          let '(r, rest) := deliver_all hash ts (delivered + (if sent then 1 else 0)) failed in (r, (name, t') :: rest)
      | (Err _, t', _) =>
          let '(r, rest) := deliver_all hash ts delivered true in (r, (name, t') :: rest)
      end
  end.
Definition targets_deliver (hash : string) (ts : peers) : result NotifyError Z * list (string * NotifyTarget) := deliver_all hash ts 0 false.

(** * Notifiers *)
Context `{MasterCodecs}.

(** [Worker::reconcile] over a directory, and [Notifier::reconcile] of the
    registry service; [None] is the served state that could not be read. *)
Definition worker_hash (v : view) (scope : Scope) : result NotifyError string :=
  match manifest v None scope with
  | Err _ => Err NDelivery
  | Ok doc => match published_from_slice (d_bytes doc) with Some m => Ok (content_sha256 m) | None => Err NDelivery end
  end.
Definition worker_reconcile (v : view) (scope : Scope) (ts : peers) : result NotifyError Z * list (string * NotifyTarget) :=
  match worker_hash v scope with
  | Err e => (Err e, map (fun x => (fst (fst x), snd (fst x))) ts)
  | Ok hash => targets_deliver hash ts
  end.

Definition served_hash (v : view) (scope : Scope) : result AppError string :=
  doc <-? document v scope Current None;;
  m <-? ok_or (published_from_slice (d_bytes doc)) MasterUnavailable;;
  Ok (content_sha256 m).
Definition notifier_reconcile (v : view) (scope : Scope) (ts : peers) : result string Z * list (string * NotifyTarget) :=
  match served_hash v scope with
  | Err _ => (Err "served_state_unavailable"%string, map (fun x => (fst (fst x), snd (fst x))) ts)
  | Ok hash =>
      match targets_deliver hash ts with
      | (Ok n, ts) => (Ok n, ts)
      | (Err _, ts) => (Err "delivery_incomplete"%string, ts)
      end
  end.

(** * The consumer *)

(** [request_master_sync] of a profile with or without synchronization. *)
Definition request_master_sync (has_sync : bool) (scope : Scope) (h : UpdateHint) : result AppError unit :=
  if negb has_sync then Err MasterUnavailable
  else if negb (bool_decide (region (hint_scope h) = region scope)) || negb (String.eqb (environment (hint_scope h)) (environment scope))
          || negb (bool_decide (platform (hint_scope h) = platform scope)) || negb (len (hint_content h) =? 64)
          || negb (all_bytes is_ascii_hexdigit (hint_content h))
  then Err InvalidRequest
  else Ok tt.

(** The internal route of a consumer: its answer, and whether it was woken.
    [rejected] is the framework's answer to a body over the limit or that is no
    hint. *)
Context (hint_from_slice : list Z -> option UpdateHint) (rejected : list Z -> http_response).
Definition sync_route (token : string) (has_sync : bool) (scope : Scope) (hs : header_map) (body : list Z) : http_response * bool :=
  let answer (r : result AppError unit) :=
    match r with
    | Err e => (to_http (Err e), false)
    | Ok _ =>
        let bytes := match value_to_vec (JObj [("status"%string, JStr "accepted")]) with Some b => b | None => [] end in
        ({| http_status := 202; http_headers := [("content-type"%string, "application/json"%string)];
            content_length := Some (Http.llen bytes); body_events := body_chunks 202 false bytes |}, true)
    end in
  match authorize token hs with
  | Err e => answer (Err e)
  | Ok _ =>
      if 4096 <? Http.llen body then (rejected body, false)
      else match hint_from_slice body with
           | None => (rejected body, false)
           | Some h => answer (request_master_sync has_sync scope h)
           end
  end.
End delivery.

(** * Lemmas *)
Section delivery_facts.
Context (hint_to_vec : UpdateHint -> option (list Z)) (reply_status : list Z -> option string).
Notation deliver := (deliver hint_to_vec reply_status).
Notation deliver_all := (deliver_all hint_to_vec reply_status).
Notation targets_deliver := (targets_deliver hint_to_vec reply_status).

Definition same_target (t t' : NotifyTarget) : Prop :=
  nt_url t' = nt_url t /\ nt_authorization t' = nt_authorization t /\ nt_scope t' = nt_scope t.

(** A delivery acknowledges, or leaves the target as it was. *)
Lemma deliver_facts t hash exchange r t' posted :
  hex64 hash = true -> deliver t hash exchange = (r, t', posted) ->
  same_target t t' /\ (accepted t = Some hash -> posted = None) /\
  match r with
  | Ok sent => accepted t' = Some hash /\ sent = negb (bool_decide (accepted t = Some hash))
  | Err _ => t' = t /\ accepted t <> Some hash
  end.
Proof.
  intros Hh. unfold MasterNotify.deliver. rewrite Hh. cbn [negb]. case_bool_decide as Ha; [intros [= <- <- <-]; by repeat split|].
  destruct (hint_to_vec _) as [body|]; [|intros [= <- <- <-]; by repeat split].
  destruct (notify_answered _ _) as [u|e]; intros [= <- <- <-]; by repeat split.
Qed.

(** How many of the targets have not acknowledged a content. *)
Definition behind (hash : string) (ts : peers) : Z :=
  List.fold_right (fun x n => (if bool_decide (accepted (snd (fst x)) = Some hash) then 0 else 1) + n) 0 ts.
Definition delivered_target (hash : string) (x : string * NotifyTarget * (list Z -> option http_response)) : string * NotifyTarget :=
  (fst (fst x), snd (fst (deliver (snd (fst x)) hash (snd x)))).

Lemma deliver_all_facts hash ts n failed r ts' :
  hex64 hash = true -> deliver_all hash ts n failed = (r, ts') ->
  ts' = map (delivered_target hash) ts /\
  (forall k, r = Ok k <-> failed = false /\ Forall (fun t => accepted (snd t) = Some hash) ts' /\ k = n + behind hash ts).
Proof.
  intros Hh. revert n failed r ts'. induction ts as [|[[name t] exchange] ts IH]; intros n failed r ts'; cbn [MasterNotify.deliver_all].
  - intros [= <- <-]. split; [done|]. intros k. cbn. destruct failed; split; try done; [by intros [? _]| |].
    + intros [= <-]. split; [done|]. split; [constructor|lia].
    + intros (_ & _ & ->). f_equal. lia.
  - destruct (deliver t hash exchange) as [[d t'] posted] eqn:E. destruct (deliver_facts _ _ _ _ _ _ Hh E) as (_ & _ & Hd).
    assert (Hhead : delivered_target hash (name, t, exchange) = (name, t')) by (unfold delivered_target; cbn; by rewrite E).
    change (behind hash ((name, t, exchange) :: ts)) with ((if bool_decide (accepted t = Some hash) then 0 else 1) + behind hash ts).
    destruct d as [sent|e].
    + destruct (deliver_all hash ts _ failed) as [r1 rest] eqn:Er. intros [= <- <-]. destruct (IH _ _ _ _ Er) as [-> Hr].
      cbn [map]. rewrite Hhead. split; [done|]. intros k. rewrite Hr, Forall_cons_iff. destruct Hd as [Ha ->]. cbn [snd].
      destruct (bool_decide _); cbn [negb]; split; intros (H1 & H2 & H3); repeat split; try tauto; lia.
    + destruct (deliver_all hash ts _ true) as [r1 rest] eqn:Er. intros [= <- <-]. destruct (IH _ _ _ _ Er) as [-> Hr].
      cbn [map]. rewrite Hhead. split; [done|]. intros k. rewrite Hr, Forall_cons_iff. destruct Hd as [-> Hne]. cbn [snd].
      split; [by intros [? _]|]. intros (_ & [Ha _] & _). congruence.
Qed.

(** A delivery tries every target whatever happens at the others: each target ends as
    its own delivery leaves it, an acknowledged content is not posted again, a failed
    delivery changes nothing, and the pass succeeds exactly when every target has
    acknowledged the content, with the number of new acknowledgements. *)
Lemma every_target_is_tried hash ts :
  hex64 hash = true ->
  let '(r, ts') := targets_deliver hash ts in
  ts' = map (delivered_target hash) ts /\
  (forall n, r = Ok n <-> Forall (fun t => accepted (snd t) = Some hash) ts' /\ n = behind hash ts) /\
  Forall (fun x => let '(d, t', posted) := deliver (snd (fst x)) hash (snd x) in
    same_target (snd (fst x)) t' /\ (accepted (snd (fst x)) = Some hash -> posted = None /\ t' = snd (fst x)) /\
    (is_ok d = false -> t' = snd (fst x))) ts.
Proof.
  intros Hh. destruct (targets_deliver hash ts) as [r ts'] eqn:E. destruct (deliver_all_facts _ _ _ _ _ _ Hh E) as [H1 H2].
  split; [done|]. split; [intros n; rewrite H2; cbn; tauto|]. apply List.Forall_forall. intros [[name t] exchange] _. cbn [fst snd].
  destruct (deliver t hash exchange) as [[d t'] posted] eqn:Ed. destruct (deliver_facts _ _ _ _ _ _ Hh Ed) as (H3 & H4 & H5).
  split; [done|]. split.
  - intros Ha. split; [auto|]. destruct d as [sent|e]; [|by destruct H5]. unfold MasterNotify.deliver in Ed.
    rewrite Hh in Ed. cbn [negb] in Ed. rewrite bool_decide_eq_true_2 in Ed by done. by injection Ed as <- <- <-.
  - destruct d; [done|]. by destruct H5.
Qed.
End delivery_facts.

Section consumers.
Context `{!MasterCodecs}.
Context (hint_to_vec : UpdateHint -> option (list Z)) (hint_from_slice : list Z -> option UpdateHint).
Context (reply_status : list Z -> option string) (rejected : list Z -> http_response).

(** Hints and replies read back as written and are small; the framework rejects
    with a client error. *)
Class NotifyCodecs : Prop := {
  hint_roundtrip : forall h, environment_ok (environment (hint_scope h)) = true -> hex64 (hint_content h) = true ->
    exists b, hint_to_vec h = Some b /\ hint_from_slice b = Some h /\ Http.llen b <= 4096;
  reply_roundtrip : exists b, value_to_vec (JObj [("status"%string, JStr "accepted")]) = Some b /\ reply_status b = Some "accepted"%string /\
    Http.llen b <= 1024;
  rejections : forall b, 400 <= http_status (rejected b) < 500;
}.
Context {codecs : NotifyCodecs}.

(** What a target sends, and a consumer at its other end. *)
Definition hint_headers (t : NotifyTarget) : header_map :=
  [("authorization"%string, nt_authorization t); ("content-type"%string, "application/json"%string)].
Record Consumer : Type := mkConsumer { cs_token : string; cs_sync : bool; cs_scope : Scope }.
Definition at_consumer (c : Consumer) (t : NotifyTarget) (body : list Z) : http_response * bool :=
  sync_route hint_from_slice rejected (cs_token c) (cs_sync c) (cs_scope c) (hint_headers t) body.

Lemma error_not_accepted e : notify_answered reply_status (Some (to_http (Err e))) = Err NDelivery.
Proof.
  unfold notify_answered. cbn [to_http http_status]. assert (status_of e =? 202 = false) as ->; [|done].
  destruct e; try done. cbn [status_of]. match goal with |- context [?n =? 14] => by destruct (n =? 14) end.
Qed.

Lemma request_master_sync_ok has_sync scope h :
  request_master_sync has_sync scope h = Ok tt <-> has_sync = true /\ hint_scope h = scope /\ hex64 (hint_content h) = true.
Proof.
  unfold request_master_sync, hex64. destruct has_sync; cbn [negb]; [|split; [done|by intros [? _]]].
  destruct h as [[g en pl] content], scope as [g' en' pl']. cbn [hint_scope hint_content region environment platform].
  case_bool_decide as H1; cbn [negb orb]; [subst g'|by split; [done|intros (_ & E & _); injection E as -> _ _]].
  destruct (String.eqb_spec en en') as [->|H2]; cbn [negb orb]; [|by split; [done|intros (_ & E & _); injection E as ->]].
  case_bool_decide as H3; cbn [negb orb]; [subst pl'|by split; [done|intros (_ & E & _); injection E as ->]].
  destruct (len content =? 64), (all_bytes _ _); cbn; split; try done; by intros (_ & _ & ?).
Qed.

Definition consumes (c : Consumer) (sent : string) (scope : Scope) : Prop := cs_token c = sent /\ cs_sync c = true /\ cs_scope c = scope.
#[export] Instance consumes_dec c sent scope : Decision (consumes c sent scope).
Proof. unfold consumes. apply _. Defined.

Lemma accepted_answer b :
  reply_status b = Some "accepted"%string -> Http.llen b <= 1024 ->
  notify_answered reply_status (Some {| http_status := 202; http_headers := [("content-type"%string, "application/json"%string)];
    content_length := Some (Http.llen b); body_events := body_chunks 202 false b |}) = Ok tt.
Proof.
  intros Hr Hl. unfold notify_answered. cbn [http_status content_length body_events some_and]. destruct (Z.ltb_spec 1024 (Http.llen b)); [lia|].
  change (202 =? 202) with true. cbn [negb orb].
  assert (Http.read_bounded 1024 NDelivery NDelivery [] (body_chunks 202 false b) = Ok b) as ->; [|cbn [rbind]; by rewrite Hr].
  apply Http.read_bounded_spec; [unfold Http.llen; cbn [length]; lia|]. exists b. split; [|by split]. destruct b; cbn; by rewrite ?app_nil_r.
Qed.

Lemma consumer_answer c t sent hash body :
  nt_authorization t = bearer sent -> token_ok sent = true -> hex64 hash = true -> Http.llen body <= 4096 ->
  hint_from_slice body = Some {| hint_scope := nt_scope t; hint_content := hash |} ->
  exists resp, at_consumer c t body = (resp, bool_decide (consumes c sent (nt_scope t))) /\
    notify_answered reply_status (Some resp) = if bool_decide (consumes c sent (nt_scope t)) then Ok tt else Err NDelivery.
Proof.
  intros Ha Ht Hh Hl Hs. assert (Hauth : authorize (cs_token c) (hint_headers t) = if String.eqb (cs_token c) sent then Ok tt else Err Unauthorized).
  { apply authorize_one; [done|]. unfold hint_headers. rewrite Ha. done. }
  unfold at_consumer, sync_route. rewrite Hauth. destruct (String.eqb_spec (cs_token c) sent) as [Etok|Etok].
  - destruct (Z.ltb_spec 4096 (Http.llen body)); [lia|]. rewrite Hs. set (h := {| hint_scope := nt_scope t; hint_content := hash |}).
    pose proof (request_master_sync_ok (cs_sync c) (cs_scope c) h) as Hok. destruct (request_master_sync _ _ h) as [[]|e].
    + destruct (proj1 Hok eq_refl) as (H1 & H2 & _). rewrite bool_decide_eq_true_2 by by repeat split.
      destruct reply_roundtrip as (b & -> & F2 & F3). eexists. split; [done|]. by apply accepted_answer.
    + rewrite bool_decide_eq_false_2; [eexists; split; [done|apply error_not_accepted]|]. intros (_ & H1 & H2).
      discriminate (proj2 Hok (conj H1 (conj (eq_sym H2) Hh))).
  - rewrite bool_decide_eq_false_2 by by intros [? _]. eexists. split; [done|]. apply error_not_accepted.
Qed.

(** A target acknowledges a hint exactly when the consumer at its other end has the
    same token and scope and synchronizes; then that consumer has been woken, and
    otherwise nothing has changed on either side. *)
Lemma hints_wake_exactly_their_consumer c t sent hash :
  nt_authorization t = bearer sent -> token_ok sent = true -> environment_ok (environment (nt_scope t)) = true ->
  hex64 hash = true -> accepted t <> Some hash ->
  let '(r, t', posted) := deliver hint_to_vec reply_status t hash (fun body => Some (fst (at_consumer c t body))) in
  exists body, posted = Some body /\ snd (at_consumer c t body) = bool_decide (consumes c sent (nt_scope t)) /\
    if bool_decide (consumes c sent (nt_scope t)) then r = Ok true /\ accepted t' = Some hash else r = Err NDelivery /\ t' = t.
Proof.
  intros Ha Ht He Hh Hne. unfold deliver. rewrite Hh. cbn [negb]. rewrite bool_decide_eq_false_2 by done.
  set (h := {| hint_scope := nt_scope t; hint_content := hash |}). destruct (hint_roundtrip h He Hh) as (body & E1 & E2 & E3). rewrite E1.
  destruct (consumer_answer c t sent hash body Ha Ht Hh E3 E2) as (resp & Ec & Er). rewrite Ec. cbn [fst]. rewrite Er.
  destruct (bool_decide (consumes _ _ _)); exists body; rewrite Ec; by repeat split.
Qed.

(** A target and the consumer it reaches. *)
Record Link : Type := mkLink { lk_name : string; lk_target : NotifyTarget; lk_consumer : Consumer; lk_sent : string }.
Definition connected (scope : Scope) (l : Link) : Prop :=
  nt_authorization (lk_target l) = bearer (lk_sent l) /\ token_ok (lk_sent l) = true /\ nt_scope (lk_target l) = scope /\
  consumes (lk_consumer l) (lk_sent l) scope.
Definition link_peer (l : Link) : string * NotifyTarget * (list Z -> option http_response) :=
  (lk_name l, lk_target l, fun body => Some (fst (at_consumer (lk_consumer l) (lk_target l) body))).

Lemma connected_accepts scope hash l :
  connected scope l -> environment_ok (environment scope) = true -> hex64 hash = true ->
  accepted (snd (delivered_target hint_to_vec reply_status hash (link_peer l))) = Some hash.
Proof.
  intros (Ha & Ht & Hs & Hc) He Hh. unfold delivered_target, link_peer. cbn [fst snd].
  destruct (decide (accepted (lk_target l) = Some hash)) as [Hacc|Hacc].
  - unfold deliver. rewrite Hh, bool_decide_eq_true_2 by done. done.
  - pose proof (hints_wake_exactly_their_consumer (lk_consumer l) (lk_target l) (lk_sent l) hash Ha Ht) as Hw.
    rewrite Hs in Hw. specialize (Hw He Hh Hacc). destruct (deliver _ _ _ _ _) as [[r t'] posted].
    destruct Hw as (body & _ & _ & Hw). rewrite bool_decide_eq_true_2 in Hw by done. apply Hw.
Qed.
End consumers.

Section reconcile.
Context `{!MasterCodecs, !MasterCodecsOk}.
Context (hint_to_vec : UpdateHint -> option (list Z)) (hint_from_slice : list Z -> option UpdateHint).
Context (reply_status : list Z -> option string) (rejected : list Z -> http_response).
Context {codecs : NotifyCodecs hint_to_vec hint_from_slice reply_status rejected}.

Lemma hash_valid_hex64 h : hash_valid h = true -> hex64 h = true.
Proof.
  unfold hash_valid, hex64. intros Hh. apply andb_true_iff in Hh as [-> Hh]. revert Hh. apply all_bytes_impl. intros c Hc.
  unfold is_ascii_hexdigit. apply orb_true_iff in Hc as [-> | ->]; [done|by rewrite orb_true_r].
Qed.

(** C25: With connected consumers, one pass of either notifier over any directory the
    program may reach that serves a snapshot acknowledges the served content at every
    target, and counts the targets that were behind. *)
Theorem reconciling_acknowledges_what_is_served used ro scope m links :
  held scope used ro -> installed_manifest scope ro = Some m -> environment_ok (environment scope) = true ->
  Forall (connected scope) links ->
  let peers := map (link_peer hint_from_slice rejected) links in
  exists ts, notifier_reconcile hint_to_vec reply_status (fun _ => ro) scope peers = (Ok (behind (content_sha256 m) peers), ts) /\
    worker_reconcile hint_to_vec reply_status (fun _ => ro) scope peers = (Ok (behind (content_sha256 m) peers), ts) /\
    map fst ts = map lk_name links /\ Forall (fun t => accepted (snd t) = Some (content_sha256 m)) ts.
Proof.
  intros Hh Hm He Hl peers. destruct (held_installed scope used ro m Hh Hm) as (Hok & _).
  assert (Hhash : hex64 (content_sha256 m) = true).
  { apply hash_valid_hex64. pose proof (po_content _ _ Hok) as Hc. unfold content_hash in Hc. apply rbind_ok in Hc as (cb & _ & Hc).
    injection Hc as <-. apply digest_valid. }
  destruct (targets_deliver hint_to_vec reply_status (content_sha256 m) peers) as [r ts] eqn:E.
  destruct (deliver_all_facts _ _ _ _ _ _ _ _ Hhash E) as [Hts Hr].
  assert (Hall : Forall (fun t => accepted (snd t) = Some (content_sha256 m)) ts).
  { rewrite Hts. unfold peers. apply List.Forall_map, List.Forall_map. eapply List.Forall_impl; [|exact Hl]. intros l Hc.
    by eapply connected_accepts. }
  assert (Er : r = Ok (behind (content_sha256 m) peers)) by (apply Hr; split; [done|]; split; [done|lia]). subst r.
  assert (Hnames : map fst ts = map lk_name links) by (rewrite Hts; unfold peers; rewrite !List.map_map; done).
  exists ts. unfold installed_manifest in Hm. destruct (manifest _ None scope) as [doc|] eqn:Ed; [|done]. split; [|split; [|split; [done|done]]].
  - unfold notifier_reconcile, served_hash, document. cbn [some_and orb]. rewrite Ed. cbn [from_file rbind]. rewrite Hm. cbn [ok_or rbind]. by rewrite E.
  - unfold worker_reconcile, worker_hash. rewrite Ed, Hm. done.
Qed.
End reconcile.

(** * Tokens are kept apart *)
Lemma check_tokens_facts env protected r names outgoing outgoing' :
  check_tokens env protected r names outgoing = Ok outgoing' ->
  exists new, outgoing' = outgoing ++ new /\ map (fun n => secret env n) names = map (fun o => Ok (snd o)) new /\
    Forall (fun o => fst o = r /\ mem (snd o) protected = false /\ forall q, In q outgoing -> snd q = snd o -> fst q = r) new.
Proof.
  revert outgoing. induction names as [|n names IH]; intros outgoing; cbn [check_tokens]; [intros [= <-]; exists []; rewrite app_nil_r; repeat split; constructor|].
  intros Hc. apply rbind_ok in Hc as (token & Hs & Hc). destruct (_ || _) eqn:E; [done|]. apply orb_false_iff in E as [E1 E2].
  destruct (IH _ Hc) as (new & -> & H1 & H2). exists ((r, token) :: new). rewrite <- app_assoc. split; [done|]. split; [cbn; by rewrite Hs, H1|].
  constructor.
  - split; [done|]. split; [done|]. intros q Hq Eq. cbn in Eq |- *. destruct (decide (fst q = r)) as [|Hne]; [done|]. exfalso.
    apply Bool.not_true_iff_false in E2. apply E2. apply existsb_exists. exists q. split; [done|]. rewrite bool_decide_eq_false_2 by done.
    cbn. by apply String.eqb_eq.
  - eapply List.Forall_impl; [|exact H2]. intros o (F1 & F2 & F3). split; [done|]. split; [done|]. intros q Hq. apply F3. apply in_or_app. by left.
Qed.

Lemma check_profiles_facts env protected configs outgoing outgoing' :
  check_profiles env protected configs outgoing = Ok outgoing' ->
  (forall p q, In p outgoing -> In q outgoing -> snd p = snd q -> fst p = fst q) ->
  Forall (fun o => mem (snd o) protected = false) outgoing ->
  (forall p q, In p outgoing' -> In q outgoing' -> snd p = snd q -> fst p = fst q) /\
  Forall (fun o => mem (snd o) protected = false) outgoing' /\ (forall o, In o outgoing -> In o outgoing') /\
  forall c n, In c configs -> In n (notify_token_env c) -> exists token, secret env n = Ok token /\ In (pr_region c, token) outgoing'.
Proof.
  revert outgoing. induction configs as [|c configs IH]; intros outgoing; cbn [check_profiles]; [intros [= <-] H1 H2; by repeat split|].
  intros Hc H1 H2. apply rbind_ok in Hc as (mid & Ht & Hc). destruct (check_tokens_facts _ _ _ _ _ _ Ht) as (new & -> & Hn & Hnew).
  rewrite List.Forall_forall in Hnew. destruct (IH _ Hc) as (G1 & G2 & G3 & G4).
  - intros p q Hp Hq E. apply in_app_iff in Hp, Hq. destruct Hp as [Hp|Hp], Hq as [Hq|Hq]; [by apply H1|..].
    + destruct (Hnew q Hq) as (-> & _ & F). by apply F.
    + destruct (Hnew p Hp) as (-> & _ & F). symmetry. by apply F.
    + destruct (Hnew q Hq) as (-> & _ & _), (Hnew p Hp) as (-> & _ & _). done.
  - apply List.Forall_app. split; [done|]. apply List.Forall_forall. intros o Ho. by destruct (Hnew o Ho) as (_ & ? & _).
  - split; [done|]. split; [done|]. split; [intros o Ho; apply G3, in_or_app; by left|]. intros c' n [<-|Hin] Hn'; [|by apply G4].
    apply (in_map (fun n => secret env n)) in Hn'. rewrite Hn in Hn'. apply in_map_iff in Hn' as (o & Eo & Ho). exists (snd o). split; [done|].
    apply G3, in_or_app. right. destruct (Hnew o Ho) as (<- & _ & _). by destruct o.
Qed.

(** Profiles whose notification tokens pass the check never send a token that any
    profile uses as another credential, and never the same token for two regions. *)
Lemma notification_tokens_are_apart env configs :
  validate_tokens env configs = Ok tt ->
  forall c n, In c configs -> In n (notify_token_env c) -> exists token, secret env n = Ok token /\
    (forall d name, In d configs -> In name (credential_names d) -> env name <> Some token) /\
    (forall d n', In d configs -> In n' (notify_token_env d) -> secret env n' = Ok token -> pr_region d = pr_region c).
Proof.
  unfold validate_tokens. destruct (check_profiles _ _ _ _) as [out|] eqn:E; [|done]. intros _ c n Hc Hn.
  destruct (check_profiles_facts _ _ _ _ _ E) as (G1 & G2 & _ & G4); [intros p q []|constructor|].
  destruct (G4 c n Hc Hn) as (token & Ht & Hin). exists token. split; [done|]. split.
  - intros d name Hd Hname Henv. rewrite List.Forall_forall in G2. specialize (G2 _ Hin). cbn in G2. apply Bool.not_true_iff_false in G2. apply G2.
    apply mem_spec. unfold protected_tokens. apply in_flat_map. exists d. split; [done|]. apply in_flat_map. exists name. split; [done|].
    rewrite Henv. by left.
  - intros d n' Hd Hn' Ht'. destruct (G4 d n' Hd Hn') as (token' & E' & Hin'). rewrite Ht' in E'. injection E' as <-.
    exact (G1 _ _ Hin' Hin eq_refl).
Qed.
