(* ===== verification/MasterExamples.v ===== *)
(** Concrete Master directories: codecs that satisfy [MasterCodecsOk], a store
    built by three imports, and the theorems on imports, readers and retention
    at it. *)
From Stdlib Require Import ZArith Lia Ascii String List Bool Permutation.
From stdpp Require Import base list strings decidable gmap countable.
From S2P Require Import Prelude BTree Errors Regions Versions Http Environment Rijndael MasterFiles MasterRegistry MasterHistory MasterChain MasterImport MasterService MasterSync MasterAdmission MasterHttp MasterBundle RegistryOwner MasterNotify.

Local Open Scope Z_scope.
Local Open Scope rust_scope.

(** * Codecs *)

(** Values as sequences of numbers; a whole file is one number. *)
Class Serial (A : Type) : Type := {
  ser : A -> list Z;
  par : list Z -> option (A * list Z);
  par_ser : forall a l, par (ser a ++ l) = Some (a, l);
}.

#[export] Instance serial_Z : Serial Z :=
  {| ser := fun a => [a]; par := fun l => match l with a :: l => Some (a, l) | [] => None end; par_ser := fun a l => eq_refl |}.

Definition par_prod {A B} `{Serial A, Serial B} (l : list Z) : option (A * B * list Z) :=
  match par l with
  | Some (a, l) => match par l with Some (b, l) => Some ((a, b), l) | None => None end
  | None => None
  end.
Lemma par_ser_prod {A B} `{Serial A, Serial B} (p : A * B) l : par_prod ((ser p.1 ++ ser p.2) ++ l) = Some (p, l).
Proof. destruct p. unfold par_prod. by rewrite <- app_assoc, par_ser, par_ser. Qed.
#[export] Instance serial_prod {A B} `{Serial A, Serial B} : Serial (A * B) :=
  {| ser := fun p => ser p.1 ++ ser p.2; par := par_prod; par_ser := par_ser_prod |}.

Section via.
Context {A B} `{Serial A} (f : B -> A) (g : A -> B) (Hgf : forall b, g (f b) = b).
Definition par_via (l : list Z) : option (B * list Z) := match par l with Some (a, l) => Some (g a, l) | None => None end.
Lemma par_ser_via b l : par_via (ser (f b) ++ l) = Some (b, l).
Proof using Hgf. unfold par_via. by rewrite par_ser, Hgf. Qed.
Definition serial_via : Serial B := {| ser := fun b => ser (f b); par := par_via; par_ser := par_ser_via |}.
End via.

Fixpoint par_many {A} `{Serial A} (n : nat) (l : list Z) : option (list A * list Z) :=
  match n with
  | O => Some ([], l)
  | S n => match par l with
           | Some (a, l) => match par_many n l with Some (r, l) => Some (a :: r, l) | None => None end
           | None => None
           end
  end.
Definition par_list {A} `{Serial A} (l : list Z) : option (list A * list Z) :=
  match l with n :: l => par_many (Z.to_nat n) l | [] => None end.
Lemma par_ser_list {A} `{Serial A} (r : list A) l : par_list ((Z.of_nat (length r) :: List.flat_map ser r) ++ l) = Some (r, l).
Proof. cbn. rewrite Nat2Z.id. induction r as [|a r IH]; [done|]. cbn. by rewrite <- app_assoc, par_ser, IH. Qed.
#[export] Instance serial_list {A} `{Serial A} : Serial (list A) :=
  {| ser := fun r => Z.of_nat (length r) :: List.flat_map ser r; par := par_list; par_ser := par_ser_list |}.

Definition of_option {A} (o : option A) : list A := match o with Some a => [a] | None => [] end.
Definition to_option {A} (l : list A) : option A := match l with [] => None | a :: _ => Some a end.
Lemma to_of_option {A} (o : option A) : to_option (of_option o) = o.
Proof. by destruct o. Qed.
#[export] Instance serial_option {A} `{Serial A} : Serial (option A) := serial_via of_option to_option to_of_option.

Lemma string_of_bytes_of s : string_of_bytes (bytes_of s) = s.
Proof. induction s as [|c s IH]; [done|]. cbn. rewrite IH. unfold byte_of. by rewrite Nat2Z.id, ascii_nat_embedding. Qed.
#[export] Instance serial_string : Serial string := serial_via bytes_of string_of_bytes string_of_bytes_of.

Definition of_region (r : Region) : Z := match r with Jp => 0 | Hk => 1 | En => 2 | Kr => 3 | Cn => 4 end.
Definition to_region (z : Z) : Region :=
  if z =? 0 then Jp else if z =? 1 then Hk else if z =? 2 then En else if z =? 3 then Kr else Cn.
Lemma to_of_region r : to_region (of_region r) = r.
Proof. by destruct r. Qed.
#[export] Instance serial_Region : Serial Region := serial_via of_region to_region to_of_region.

Definition of_platform (p : Platform) : Z := match p with Ios => 0 | Android => 1 end.
Definition to_platform (z : Z) : Platform := if z =? 0 then Ios else Android.
Lemma to_of_platform p : to_platform (of_platform p) = p.
Proof. by destruct p. Qed.
#[export] Instance serial_Platform : Serial Platform := serial_via of_platform to_platform to_of_platform.

Definition of_entry (e : Entry) : string * string * Z := (e_name e, e_hash e, e_size e).
Definition to_entry (x : string * string * Z) : Entry := let '(a, b, c) := x in mkEntry a b c.
Lemma to_of_entry e : to_entry (of_entry e) = e.
Proof. by destruct e. Qed.
#[export] Instance serial_Entry : Serial Entry := serial_via of_entry to_entry to_of_entry.

Definition of_manifest (m : Manifest) : string * list Entry := (m_version m, m_files m).
Definition to_manifest (x : string * list Entry) : Manifest := mkManifest x.1 x.2.
Lemma to_of_manifest m : to_manifest (of_manifest m) = m.
Proof. by destruct m. Qed.
#[export] Instance serial_Manifest : Serial Manifest := serial_via of_manifest to_manifest to_of_manifest.

Definition of_file (f : File) : string * Z * string := (f_name f, f_size f, f_sha256 f).
Definition to_file (x : string * Z * string) : File := let '(a, b, c) := x in mkFile a b c.
Lemma to_of_file f : to_file (of_file f) = f.
Proof. by destruct f. Qed.
#[export] Instance serial_File : Serial File := serial_via of_file to_file to_of_file.

Definition of_inventory (i : Inventory) : Z * string * list File := (i_schema_version i, i_version i, i_files i).
Definition to_inventory (x : Z * string * list File) : Inventory := let '(a, b, c) := x in mkInventory a b c.
Lemma to_of_inventory i : to_inventory (of_inventory i) = i.
Proof. by destruct i. Qed.
#[export] Instance serial_Inventory : Serial Inventory := serial_via of_inventory to_inventory to_of_inventory.

Definition of_scope (s : Scope) : Region * string * Platform := (region s, environment s, platform s).
Definition to_scope (x : Region * string * Platform) : Scope := let '(a, b, c) := x in mkScope a b c.
Lemma to_of_scope s : to_scope (of_scope s) = s.
Proof. by destruct s. Qed.
#[export] Instance serial_Scope : Serial Scope := serial_via of_scope to_scope to_of_scope.

Definition published_tuple : Type := Z * Scope * string * string * option string * string * list File * Manifest.
Definition of_published (p : PublishedManifest) : published_tuple :=
  (p_schema_version p, p_scope p, p_snapshot p, p_version p, p_resource_version p, content_sha256 p, p_files p, source_manifest p).
Definition to_published (x : published_tuple) : PublishedManifest :=
  let '(a, b, c, d, e, f, g, h) := x in mkPublished a b c d e f g h.
Lemma to_of_published p : to_published (of_published p) = p.
Proof. by destruct p. Qed.
#[export] Instance serial_Published : Serial PublishedManifest := serial_via (A := published_tuple) of_published to_published to_of_published.

Definition of_publication (p : Publication) : Z * string * option string * Z :=
  (pub_schema_version p, pub_snapshot p, previous_snapshot p, published_at p).
Definition to_publication (x : Z * string * option string * Z) : Publication := let '(a, b, c, d) := x in mkPublication a b c d.
Lemma to_of_publication p : to_publication (of_publication p) = p.
Proof. by destruct p. Qed.
#[export] Instance serial_Publication : Serial Publication := serial_via of_publication to_publication to_of_publication.

Definition of_retention (p : RetentionRecord) : Z * string := (ret_schema_version p, boundary p).
Definition to_retention (x : Z * string) : RetentionRecord := mkRetention x.1 x.2.
Lemma to_of_retention p : to_retention (of_retention p) = p.
Proof. by destruct p. Qed.
#[export] Instance serial_Retention : Serial RetentionRecord := serial_via of_retention to_retention to_of_retention.

(** JSON values, read with as much fuel as there is input. *)
Fixpoint ser_json (v : json) : list Z :=
  match v with
  | JNull => [0]
  | JBool b => [1; Z.b2z b]
  | JNum n => [2; n]
  | JStr s => 3 :: ser s
  | JArr l => 4 :: Z.of_nat (length l) :: List.flat_map ser_json l
  | JObj fs => 5 :: Z.of_nat (length fs) :: List.flat_map (fun kv => ser (fst kv) ++ ser_json (snd kv)) fs
  end.
Section many.
Context {A : Type} (read : list Z -> option (A * list Z)).
Fixpoint read_many (n : nat) (l : list Z) : option (list A * list Z) :=
  match n with
  | O => Some ([], l)
  | S n => match read l with
           | Some (a, l) => match read_many n l with Some (r, l) => Some (a :: r, l) | None => None end
           | None => None
           end
  end.
Lemma read_many_ser (write : A -> list Z) (r : list A) l :
  Forall (fun a => forall l, read (write a ++ l) = Some (a, l)) r -> read_many (length r) (List.flat_map write r ++ l) = Some (r, l).
Proof. induction 1 as [|a r Ha _ IH]; [done|]. cbn. by rewrite <- app_assoc, Ha, IH. Qed.
End many.
Definition read_pair (read : list Z -> option (json * list Z)) (l : list Z) : option (string * json * list Z) :=
  match par l with
  | Some (k, l) => match read l with Some (v, l) => Some ((k, v), l) | None => None end
  | None => None
  end.
Fixpoint par_json (fuel : nat) (l : list Z) : option (json * list Z) :=
  match fuel, l with
  | S fuel, tag :: l =>
      if tag =? 0 then Some (JNull, l)
      else if tag =? 1 then match l with b :: l => Some (JBool (negb (b =? 0)), l) | [] => None end
      else if tag =? 2 then match l with n :: l => Some (JNum n, l) | [] => None end
      else if tag =? 3 then match par l with Some (s, l) => Some (JStr s, l) | None => None end
      else match l with
           | n :: l =>
               if tag =? 4
               then match read_many (par_json fuel) (Z.to_nat n) l with Some (vs, l) => Some (JArr vs, l) | None => None end
               else match read_many (read_pair (par_json fuel)) (Z.to_nat n) l with Some (fs, l) => Some (JObj fs, l) | None => None end
           | [] => None
           end
  | _, _ => None
  end.

Lemma flat_map_length {A} (f : A -> list Z) (l : list A) a : In a l -> (length (f a) <= length (List.flat_map f l))%nat.
Proof. induction l as [|b l IH]; [done|]. cbn. rewrite length_app. intros [->|Hin]; [lia|specialize (IH Hin); lia]. Qed.

Lemma par_ser_json v : forall fuel l, (length (ser_json v) <= fuel)%nat -> par_json fuel (ser_json v ++ l) = Some (v, l).
Proof.
  induction v as [|b|n|s|vs IH|fs IH] using json_nested; intros [|fuel] l Hf; try (cbn in Hf; lia).
  - done.
  - by destruct b.
  - done.
  - cbn [ser_json app par_json]. change (3 =? 0) with false. change (3 =? 1) with false. change (3 =? 2) with false. change (3 =? 3) with true.
    cbn [app]. by rewrite par_ser.
  - cbn [ser_json app par_json]. change (4 =? 0) with false. change (4 =? 1) with false. change (4 =? 2) with false. change (4 =? 3) with false.
    change (4 =? 4) with true. cbn iota. rewrite Nat2Z.id, (read_many_ser _ ser_json); [done|]. rewrite List.Forall_forall in IH |- *.
    intros v Hin l'. apply IH; [done|]. pose proof (flat_map_length ser_json vs v Hin). cbn in Hf. lia.
  - cbn [ser_json app par_json]. change (5 =? 0) with false. change (5 =? 1) with false. change (5 =? 2) with false. change (5 =? 3) with false.
    change (5 =? 4) with false. cbn iota. rewrite Nat2Z.id, (read_many_ser _ (fun kv => ser (fst kv) ++ ser_json (snd kv))); [done|].
    rewrite List.Forall_forall in IH |- *. intros [k v] Hin l'. cbn [fst snd]. unfold read_pair. rewrite <- app_assoc, par_ser.
    rewrite (IH (k, v) Hin); [done|]. pose proof (flat_map_length (fun kv => ser (fst kv) ++ ser_json (snd kv)) fs (k, v) Hin) as Hl.
    cbn [fst snd ser_json length] in *. rewrite length_app in Hl. lia.
Qed.
Definition par_json_all (l : list Z) : option (json * list Z) := par_json (length l) l.
Lemma par_ser_json_all v l : par_json_all (ser_json v ++ l) = Some (v, l).
Proof. apply par_ser_json. rewrite length_app. lia. Qed.
#[export] Instance serial_json : Serial json := {| ser := ser_json; par := par_json_all; par_ser := par_ser_json_all |}.

Definition to_vec {A} `{Serial A} (a : A) : option (list Z) := Some [Zpos (encode (ser a))].
Definition from_slice {A} `{Serial A} (b : list Z) : option A :=
  match b with
  | [Zpos p] => match countable.decode (A := list Z) p with
                | Some l => match par l with Some (a, []) => Some a | _ => None end
                | None => None
                end
  | _ => None
  end.
Lemma from_to_vec {A} `{Serial A} (a : A) : exists b, to_vec a = Some b /\ from_slice b = Some a /\ llen b = 1.
Proof.
  eexists. split; [done|]. split; [|done]. unfold from_slice. rewrite decode_encode.
  pose proof (par_ser a []) as E. rewrite app_nil_r in E. by rewrite E.
Qed.

(** A checksum of four digits, repeated, in place of the digest. *)
Definition checksum (b : list Z) : Z := List.fold_left (fun a x => (a * 31 + x) mod 9973) b 0.
Definition digit_ascii (h : Z) : ascii := ascii_of_nat (48 + Z.to_nat (h mod 10)).
Definition four_digits (h : Z) (s : string) : string :=
  String (digit_ascii (h / 1000)) (String (digit_ascii (h / 100)) (String (digit_ascii (h / 10)) (String (digit_ascii h) s))).
Fixpoint repeat_digits (n : nat) (h : Z) : string := match n with O => EmptyString | S n => four_digits h (repeat_digits n h) end.
Definition sum_digest (b : list Z) : string := repeat_digits 16 (checksum b).

Lemma digit_ascii_ok h : (is_ascii_digit (digit_ascii h) || in_range 97 102 (byte_of (digit_ascii h))) = true.
Proof.
  assert (Hd : Forall (fun k => (is_ascii_digit (ascii_of_nat (48 + k)) || in_range 97 102 (byte_of (ascii_of_nat (48 + k)))) = true) (seq 0 10))
    by repeat constructor.
  rewrite List.Forall_forall in Hd. apply Hd, in_seq. pose proof (Z.mod_pos_bound h 10 ltac:(lia)). lia.
Qed.
Lemma sum_digest_valid b : hash_valid (sum_digest b) = true.
Proof.
  unfold sum_digest. generalize (checksum b). intros h. unfold hash_valid.
  assert (Hl : forall n, len (repeat_digits n h) = 4 * Z.of_nat n).
  { induction n as [|n IH]; [done|]. cbn [repeat_digits]. unfold four_digits, len in *. cbn [String.length]. lia. }
  rewrite Hl. change (4 * Z.of_nat 16 =? 64) with true. cbn [andb].
  generalize 16%nat. induction n as [|n IH]; [done|]. cbn [repeat_digits]. unfold four_digits. cbn [all_bytes]. rewrite !digit_ascii_ok. exact IH.
Qed.

(** Every other file that is not empty is read as some value. *)
Definition any_json (b : list Z) : option json :=
  match from_slice b with
  | Some v => Some v
  | None => match b with [] => None | _ => Some (JArr (map JNum b)) end
  end.

#[export] Instance example_codecs : MasterCodecs := {|
  manifest_from_slice := from_slice; manifest_to_vec := to_vec;
  inventory_from_slice := from_slice; inventory_to_vec := to_vec;
  published_from_slice := from_slice; published_to_vec := to_vec;
  publication_from_slice := from_slice; publication_to_vec := to_vec;
  retention_from_slice := from_slice; retention_to_vec := to_vec;
  value_from_slice := any_json; value_to_vec := to_vec;
  receipt_to_vec := fun r => to_vec (receipt_value r);
  content_to_vec := fun s m fs => to_vec (s, m, fs);
  digest := sum_digest;
  json_valid := fun b => negb (Nat.eqb (length b) 0);
  gunzip := fun limit b => if llen b <=? limit then Some b else None;
|}.

#[export] Instance example_codecs_ok : MasterCodecsOk.
Proof.
  constructor; cbn [manifest_to_vec manifest_from_slice inventory_to_vec inventory_from_slice published_to_vec published_from_slice
    publication_to_vec publication_from_slice retention_to_vec retention_from_slice receipt_to_vec value_from_slice value_to_vec
    content_to_vec digest example_codecs]; try done.
  - intros m. destruct (from_to_vec m) as (b & H1 & H2 & H3). exists b. rewrite H3. split; [done|]. split; [done|]. unfold MAX_MANIFEST. lia.
  - intros i. destruct (from_to_vec i) as (b & H1 & H2 & H3). exists b. rewrite H3. split; [done|]. split; [done|]. unfold MAX_INDEX. lia.
  - intros p. destruct (from_to_vec p) as (b & H1 & H2 & H3). by exists b.
  - intros p. destruct (from_to_vec p) as (b & H1 & H2 & H3). exists b. rewrite H3. split; [done|]. split; [done|]. lia.
  - intros p. destruct (from_to_vec p) as (b & H1 & H2 & H3). exists b. rewrite H3. split; [done|]. split; [done|]. lia.
  - intros r. destruct (from_to_vec (receipt_value r)) as (b & H1 & H2 & H3). exists b. unfold any_json. rewrite H2, H3. split; [done|]. split; [done|]. lia.
  - apply sum_digest_valid.
Qed.

(** * A store *)
Definition key : list Z := replicate 32 7.
Definition vector : list Z := replicate 32 3.
Definition json_bytes (n : Z) : list Z := [91; n; 93].
Definition encrypted (n : Z) : list Z :=
  replicate 32 5 ++ encrypt (Rijndael.new key) (replicate 32 6 ++ json_bytes n) vector.
Definition entry (n : Z) : Entry := mkEntry "MasterCard.bin" (sum_digest (encrypted n)) 96.
Definition input (n : Z) : files :=
  {[ "MasterManifest.json"%string := Regular (match to_vec (mkManifest "1.0" [entry n]) with Some b => b | None => [] end);
     "MasterCard.bin"%string := Regular (encrypted n) ]}.
Definition working : staging_io := fun _ => None.
Definition import (n : Z) (r : root) (simple : string) : result MasterError ImportReceipt * list root :=
  import_directory_for_region true (input n) r working PublishOk (decoder_new key vector) None Jp simple n.
Definition empty_root : root := mkRoot None None ∅.
Definition after_import (n : Z) (r : root) (simple : string) : root := List.last (snd (import n r simple)) r.

Definition jp : Scope := mkScope Jp "prod" Ios.
(** The directories are evaluated once, here. *)
Definition input_a : files := Eval vm_compute in input 49.
Definition encrypted_a : list Z := Eval vm_compute in encrypted 49.
Definition entry_a : Entry := Eval vm_compute in entry 49.
Definition store3 : root := Eval vm_compute in after_import 51 (after_import 50 (after_import 49 empty_root "a") "b") "c".

(** The snapshot a directory holds under a name. *)
Definition directory (r : root) (name : string) : files := match snapshots r !! name with Some (Dir d) => d | _ => ∅ end.
Definition installed (r : root) (name : string) : inst :=
  match chain_step (fun _ => pure name (directory r name)) jp name [] with
  | Ok (doc, record) =>
      mkInst name (directory r name) doc
        (match published_from_slice (d_bytes doc) with Some v => v | None => mkPublished 0 jp "" "" None "" [] (mkManifest "" []) end) record
  | Err _ => mkInst name ∅ (mkDocument [] "" "") (mkPublished 0 jp "" "" None "" [] (mkManifest "" [])) None
  end.
Definition inst_a : inst := Eval vm_compute in installed store3 "master-a".
Definition inst_b : inst := Eval vm_compute in installed store3 "master-b".
Definition inst_c : inst := Eval vm_compute in installed store3 "master-c".
Definition chain3 : list inst := [inst_c; inst_b; inst_a].

Lemma chain3_ok : chain jp chain3.
Proof.
  constructor; [|vm_compute; repeat constructor; set_solver|cbn; lia].
  do 3 (split; [constructor; vm_compute; reflexivity|split; [vm_compute; reflexivity|]]). exact I.
Qed.

Lemma store_three x y z r :
  current r = Some (Regular (bytes_of (i_name x))) -> retention_boundary r = Ok None ->
  snapshots r !! i_name x = Some (Dir (i_dir x)) -> snapshots r !! i_name y = Some (Dir (i_dir y)) ->
  snapshots r !! i_name z = Some (Dir (i_dir z)) -> store [x; y; z] 2 None r.
Proof.
  intros Hc Hr Hx Hy Hz. constructor; [by eexists| | |done|].
  - intros [|[|[|i]]] w; cbn; intros; by simplify_eq.
  - intros [|[|[|i]]] w Hw; try lia. done.
  - intros [|[|[|i]]] w Hw; try lia. done.
Qed.

Lemma store3_ok : store chain3 2 None store3.
Proof. apply store_three; vm_compute; reflexivity. Qed.

Example history3 : rmap (fun h => map h_snapshot (entries h)) (history_page (fun _ => store3) jp 2 None)
  = Ok ["master-c"; "master-b"]%string.
Proof. vm_compute. reflexivity. Qed.

(** * The theorems at these directories *)
Lemma bytes_of_key : length key = 32%nat /\ Forall is_byte key /\ is_state vector.
Proof. split; [done|]. split; [|split; [done|]]; apply Forall_replicate; unfold is_byte; lia. Qed.

Lemma table_decode_exact_witness :
  Forall is_byte encrypted_a /\ decode (decoder_new key vector) entry_a encrypted_a = Ok (json_bytes 49).
Proof.
  assert (Hb : Forall is_byte encrypted_a) by (apply byteb_Forall; vm_compute; reflexivity).
  split; [exact Hb|]. destruct bytes_of_key as (H1 & H2 & H3).
  apply (table_decode_exact key vector entry_a encrypted_a (json_bytes 49) H1 H2 H3 Hb).
  split; [vm_compute; discriminate|]. split; [vm_compute; reflexivity|]. split; [vm_compute; reflexivity|].
  exists (replicate 32 5), (replicate 32 6), (json_bytes 49). split; [reflexivity|]. split; [reflexivity|].
  split; [apply byteb_Forall; vm_compute; reflexivity|]. split; [vm_compute; reflexivity|].
  split; [vm_compute; reflexivity|]. split; [vm_compute; discriminate|vm_compute; reflexivity].
Defined.

(** The reader starts before the pass and ends after it. *)
Definition halfway (t : Z) : nat := if t <? 6000 then 0%nat else 2%nat.
Lemma halfway_increasing : increasing halfway.
Proof. intros t t' Ht. unfold halfway. destruct (Z.ltb_spec t 6000), (Z.ltb_spec t' 6000); lia. Qed.

Lemma history_during_retention_witness :
  let trace := snd (prune_within store3 2 64 WriteOk (fun _ => RenameOk)) in
  exists start, page_start chain3 (Some "master-c"%string) start /\
    page_answer jp chain3 (pass_boundary None 2) (walk_exhausted chain3 WALK_LIMIT 2 None 2 start) 2 start (history_page (during store3 trace halfway) jp 2 (Some "master-c"%string)).
Proof.
  apply (history_during_retention jp chain3 2 None store3 2 64 WriteOk (fun _ => RenameOk) halfway 2 (Some "master-c"%string)
    chain3_ok store3_ok eq_refl halfway_increasing ltac:(lia) eq_refl).
Defined.

Lemma lookup_during_retention_witness :
  let trace := snd (prune_within store3 2 64 WriteOk (fun _ => RenameOk)) in
  let hash := content_sha256 (i_value inst_b) in
  lookup_answer chain3 (pass_boundary None 2) (lookup_exhausted chain3 WALK_LIMIT 2 hash) hash (manifest_by_hash (during store3 trace halfway) jp hash).
Proof.
  assert (Hh : hash_valid (content_sha256 (i_value inst_b)) = true) by (vm_compute; reflexivity).
  exact (lookup_during_retention jp chain3 2 None store3 2 64 WriteOk (fun _ => RenameOk) halfway _ chain3_ok store3_ok eq_refl halfway_increasing Hh).
Defined.

Lemma default_last_in {A} (l : list A) d : Nat.eqb (length l) 0 = false -> In (List.last l d) l.
Proof.
  destruct l as [|x l] using rev_ind; [done|]. intros _. rewrite last_last. apply in_app_iff. right. by left.
Qed.

Lemma retention_keeps_window_witness :
  let r' := List.last (snd (prune_within store3 2 64 WriteOk (fun _ => RenameOk))) store3 in
  current r' = current store3 /\ snapshots r' !! "master-a"%string = None.
Proof.
  assert (Hl : Nat.eqb (length (snd (prune_within store3 2 64 WriteOk (fun _ => RenameOk)))) 0 = false) by (vm_compute; reflexivity).
  pose proof (default_last_in _ store3 Hl) as Hin.
  split; [|vm_compute; reflexivity].
  apply (retention_keeps_window jp chain3 2 None store3 2 64 WriteOk (fun _ => RenameOk) _ chain3_ok store3_ok eq_refl Hin).
Defined.

Lemma retention_converges_witness :
  snapshots (passes 3 store3 2 1) !! i_name inst_a = None.
Proof.
  rewrite (retention_converges jp chain3 2 None store3 2 1 3 2 inst_a chain3_ok store3_ok
    eq_refl ltac:(lia) ltac:(unfold WALK_LIMIT; lia) (le_n 3) eq_refl). vm_compute. reflexivity.
Defined.

(** ** Imports *)
Definition prepared_a : PreparedImport := Eval vm_compute in
  match prepare_directory input_a working (decoder_new key vector) "local-import" None Jp "a" with
  | Ok p => p
  | Err _ => {| staging := ∅; receipt := mkReceipt "" "" 0 0 "" Jp None |}
  end.
Lemma prepared_a_eq : prepare_directory input_a working (decoder_new key vector) "local-import" None Jp "a" = Ok prepared_a.
Proof. vm_compute. reflexivity. Qed.
Definition published_a : root := Eval vm_compute in List.last (snd (publish prepared_a empty_root 49 PublishOk)) empty_root.
Lemma published_a_eq : List.last (snd (publish prepared_a empty_root 49 PublishOk)) empty_root = published_a.
Proof. vm_compute. reflexivity. Qed.

Lemma reachable_a : reachable ({["master-a"%string]} ∪ ∅) published_a.
Proof.
  apply (reach_publish ∅ empty_root "master-a" prepared_a 49 PublishOk); [exact reach_empty|set_solver| |].
  - apply (prepared_import "master-a" input_a working (decoder_new key vector) "local-import" None Jp "a");
      [reflexivity|reflexivity|by left|exact prepared_a_eq].
  - vm_compute. auto.
Qed.

Lemma directory_always_served_witness :
  current published_a = Some (Regular (bytes_of "master-a")) /\
  exists g doc p, let scope := mkScope g "prod" Ios in
    manifest (fun _ => published_a) None scope = Ok doc /\ published_from_slice (d_bytes doc) = Some p /\
    served scope (fun _ => published_a) p.
Proof.
  assert (Hc : current published_a = Some (Regular (bytes_of "master-a"))) by (vm_compute; reflexivity).
  split; [exact Hc|]. destruct (directory_always_served "prod" Ios _ published_a eq_refl reachable_a) as [Hn|H]; [|exact H].
  rewrite Hc in Hn. discriminate.
Defined.

Lemma import_is_served_witness :
  exists mb m doc p, let r' := published_a in
    read_bounded (input_a !! "MasterManifest.json"%string) MAX_MANIFEST = Ok mb /\ parse mb = Ok m /\
    manifest (fun _ => r') None jp = Ok doc /\ published_from_slice (d_bytes doc) = Some p /\ served jp (fun _ => r') p.
Proof.
  assert (Hh : held jp ∅ empty_root) by (exists []; split; [constructor; reflexivity|split; [constructor|intros n []]]).
  assert (Hi : import_directory_for_region true input_a empty_root working PublishOk (decoder_new key vector) None (region jp) "a" 49
    = (Ok (mkReceipt "1.0" "master-a" 1 3 "local-import" Jp None), snd (publish prepared_a empty_root 49 PublishOk))).
  { unfold import_directory_for_region. change (region jp) with Jp. rewrite prepared_a_eq. vm_compute. reflexivity. }
  destruct (import_is_served jp ∅ empty_root input_a working (decoder_new key vector) None "a" 49 _ _ Hh eq_refl
    eq_refl (not_elem_of_empty _) Hi) as (mb & m & doc & p & H1 & H2 & H3 & H4 & _ & _ & _ & H5 & _).
  exists mb, m, doc, p. split; [exact H1|]. split; [exact H2|].
  rewrite published_a_eq in H3, H5.
  split; [exact H3|]. split; [exact H4|exact H5].
Defined.

(** ** Synchronization *)
Lemma empty_held : held jp ∅ empty_root.
Proof. exists []. split; [constructor; reflexivity|]. split; [constructor|intros n []]. Qed.

Lemma prepared_a_ok : prepared "master-a" prepared_a.
Proof.
  apply (prepared_import "master-a" input_a working (decoder_new key vector) "local-import" None Jp "a");
    [reflexivity|reflexivity|by left|exact prepared_a_eq].
Qed.

Lemma published_a_held : held jp ({["master-a"%string]} ∪ ∅) published_a.
Proof.
  destruct (prepared_complete "master-a" prepared_a prepared_a_ok) as (Hn & m & index & Hc).
  pose proof (held_publish jp ∅ empty_root "master-a" prepared_a m index 49 PublishOk eq_refl empty_held (not_elem_of_empty _)
    Hn Hc ltac:(vm_compute; reflexivity)) as H. destruct (publish _ _ _ _) as [res trace] eqn:E. destruct H as (Hall & _).
  assert (Hl : Nat.eqb (length (snd (publish prepared_a empty_root 49 PublishOk))) 0 = false) by (vm_compute; reflexivity).
  rewrite Forall_forall in Hall. apply Hall. rewrite <- published_a_eq. rewrite E in *. by apply default_last_in.
Qed.

Definition history_bytes (h : History) : option (list Z) := Some [Z.of_nat (length (entries h))].
Definition example_pass (sent : string) : pass :=
  {| lock := Ok tt; the_owner := service_owner history_bytes "secret" sent published_a jp true; write := working; prepare := working;
     late := false; simple := "x"; now := 60; pio := PublishOk |}.

Lemma consumer_follows_service_witness :
  (exists target v trace, installed_manifest jp published_a = Some target /\
     update jp empty_root (example_pass "secret") = (Ok v, trace) /\ in_step jp (List.last trace empty_root) target) /\
  update jp empty_root (example_pass "other") = (Err Download, []).
Proof.
  assert (Hc : current published_a <> None) by (vm_compute; discriminate).
  assert (Hsize : forall doc, manifest (fun _ => published_a) None jp = Ok doc -> Http.llen (d_bytes doc) <= 4 * 1024 * 1024).
  { intros doc. assert (Hd : rmap (fun doc => Http.llen (d_bytes doc)) (manifest (fun _ => published_a) None jp) = Ok 1) by (vm_compute; reflexivity).
    intros E. rewrite E in Hd. injection Hd as ->. lia. }
  assert (Hw : forall sent, works (example_pass sent)) by (intros sent; by constructor).
  split.
  - exact (consumer_follows_service history_bytes jp ∅ empty_root _ published_a "secret" "secret" (example_pass "secret") empty_held
      published_a_held Hc eq_refl eq_refl (not_elem_of_empty _) eq_refl eq_refl eq_refl (Hw _) eq_refl Hsize).
  - exact (consumer_follows_service history_bytes jp ∅ empty_root _ published_a "secret" "other" (example_pass "other") empty_held
      published_a_held Hc eq_refl eq_refl (not_elem_of_empty _) eq_refl eq_refl eq_refl (Hw _) eq_refl Hsize).
Defined.

Lemma sync_installs_only_the_owner_witness :
  is_ok (fst (update jp empty_root (example_pass "secret"))) = true /\
  Forall (held jp ({["master-x"%string]} ∪ ∅)) (snd (update jp empty_root (example_pass "secret"))).
Proof.
  split; [vm_compute; reflexivity|].
  exact (proj1 (sync_installs_only_the_owner jp ∅ empty_root (example_pass "secret") _ _ empty_held eq_refl eq_refl
    (not_elem_of_empty _) (surjective_pairing (update jp empty_root (example_pass "secret"))))).
Defined.

Definition card_hash : string := sum_digest (json_bytes 49).
Definition card_headers : header_map := [("if-none-match"%string, ("W/" ++ quoted card_hash)%string)].
Lemma card_document : exists doc, read_current_in (fun _ => published_a) (Some "MasterCard"%string) Jp = Ok doc /\ md_sha256 doc = card_hash.
Proof.
  assert (Hh : match read_current_in (fun _ => published_a) (Some "MasterCard"%string) Jp with
               | Ok doc => String.eqb (md_sha256 doc) card_hash | Err _ => false end = true) by (vm_compute; reflexivity).
  destruct (read_current_in _ _ _) as [doc|e]; [|inversion Hh]. exists doc. split; [reflexivity|]. by apply String.eqb_eq in Hh.
Qed.

Lemma conditional_reads_witness :
  exists r, master_document (Some (fun _ => published_a)) Jp true (Some "MasterCard"%string) card_headers = Ok r /\ rp_status r = 304.
Proof.
  assert (Hv : hash_valid card_hash = true) by (vm_compute; reflexivity).
  assert (Hg : header_get "if-none-match" card_headers = Some ("W/" ++ quoted card_hash)%string) by reflexivity.
  pose proof (conditional_reads jp (fun _ => published_a) (Some "MasterCard"%string) card_headers card_hash true true Hv Hg (or_intror eq_refl)) as H.
  change (region jp) with Jp in H. destruct card_document as (doc & Hd & Hh). rewrite Hd, Hh in H.
  destruct H as (_ & r & H1 & _ & H2). exists r. split; [exact H1|]. rewrite String.eqb_refl in H2. apply (f_equal fst) in H2. exact H2.
Defined.

(** Bundles, with a toy archive format and a file that takes seven bytes at a time. *)
Definition plain_append (name : string) (bytes : list Z) : option (list (list Z)) := Some [bytes_of name; bytes].
Definition plain_end : list (list Z) := [[0]].
Definition seven (at_ : Z) : option nat := Some 7%nat.

(** A manifest of one small table. *)
Definition one_small_table (m : PublishedManifest) : bool :=
  match p_files m, published_to_vec m with
  | [f], Some b => (Http.llen b =? 1) && (f_size f =? 3) && (Http.llen (bytes_of ("tables/" ++ f_name f)) <=? 100)
  | _, _ => false
  end.
Lemma small_bundle_fits m bytes tables :
  one_small_table m = true -> published_to_vec m = Some bytes -> map fst tables = p_files m ->
  Forall (fun x => is_file (fst x) (snd x)) tables ->
  Http.llen bytes = 1 /\
  exists entries, entries_bytes plain_append (bundle_entries bytes tables) = Some entries /\ Http.llen entries + Http.llen (concat plain_end) <= MAX_ARCHIVE.
Proof.
  unfold one_small_table. intros Hm Eb Ht Hf. rewrite <- Ht, Eb in Hm. destruct tables as [|[f b] [|y l]]; [done| |done]. cbn [map fst] in Hm.
  apply andb_true_iff in Hm as [Hm H3]. apply andb_true_iff in Hm as [H1 H2]. apply Z.eqb_eq in H1, H2. apply Z.leb_le in H3.
  apply List.Forall_cons_iff in Hf as [(Hs & _) _]. cbn [fst snd] in Hs. split; [done|]. eexists. split; [reflexivity|].
  unfold Http.llen, MAX_ARCHIVE in *. cbn [concat app plain_end fst snd]. rewrite !app_nil_r, !length_app. cbn [length].
  change (length (bytes_of "metadata/manifest.json")) with 22%nat. lia.
Qed.

Lemma installed_snapshot_is_bundled_witness :
  exists m r, installed_manifest jp published_a = Some m /\
    registry_bundle plain_append plain_end seven true (quiet published_a) jp None [] = Ok r /\ bundle_reply plain_append plain_end [] r m.
Proof.
  assert (Hm : match installed_manifest jp published_a with Some m => one_small_table m | None => false end = true) by (vm_compute; reflexivity).
  destruct (installed_manifest jp published_a) as [m|] eqn:E; [|inversion Hm].
  destruct (installed_snapshot_is_bundled plain_append plain_end seven jp _ published_a m [] published_a_held E
    (fun _ => ex_intro _ 6%nat eq_refl)) as (r & _ & H1 & H2).
  - intros bytes Eb. destruct (published_roundtrip m) as (b & Eb' & _).
    unfold one_small_table in Hm. rewrite Eb in Hm. destruct (p_files m) as [|f [|g l]]; [inversion Hm| |inversion Hm].
    apply andb_true_iff in Hm as [Hm _]. apply andb_true_iff in Hm as [Hm _]. apply Z.eqb_eq in Hm. rewrite Hm. unfold MAX_BUNDLE_MANIFEST. lia.
  - intros bytes tables Eb Ht Hf. exact (proj2 (small_bundle_fits m bytes tables Hm Eb Ht Hf)).
  - exists m, r. split; [reflexivity|]. split; [exact H1|exact H2].
Defined.

Lemma bundles_are_verified_witness :
  exists r m, registry_bundle plain_append plain_end seven true (quiet published_a) jp None [] = Ok r /\
    bundle_reply plain_append plain_end [] r m.
Proof.
  assert (Hr : is_ok (registry_bundle plain_append plain_end seven true (quiet published_a) jp None []) = true) by (vm_compute; reflexivity).
  destruct (registry_bundle _ _ _ _ _ _ _ _) as [r|e] eqn:E; [|inversion Hr].
  destruct (bundles_are_verified plain_append plain_end seven jp (quiet published_a) [] r
    (or_intror (ex_intro _ true (ex_intro _ None E)))) as (_ & m & H). exists r, m. split; [reflexivity|exact H].
Defined.

(** Notifications: two targets of the consumer that follows the store, one of
    them up to date. *)
Definition of_hint (h : UpdateHint) : Scope * string := (hint_scope h, hint_content h).
Definition to_hint (x : Scope * string) : UpdateHint := {| hint_scope := x.1; hint_content := x.2 |}.
Lemma to_of_hint h : to_hint (of_hint h) = h.
Proof. by destruct h. Qed.
#[export] Instance serial_Hint : Serial UpdateHint := serial_via of_hint to_hint to_of_hint.
Definition plain_status (b : list Z) : option string :=
  match from_slice b with
  | Some v => match json_field "status" v with Some s => json_str s | None => None end
  | None => None
  end.
Definition plain_rejection (b : list Z) : http_response :=
  {| http_status := 422; http_headers := []; content_length := Some 0; body_events := [] |}.
#[export] Instance plain_notify : NotifyCodecs to_vec from_slice plain_status plain_rejection.
Proof.
  constructor.
  - intros h _ _. destruct (from_to_vec h) as (b & H1 & H2 & H3). exists b. rewrite H3. split; [done|]. split; [done|]. lia.
  - destruct (from_to_vec (JObj [("status"%string, JStr "accepted")])) as (b & H1 & H2 & H3). exists b. unfold plain_status. rewrite H2, H3.
    split; [exact H1|]. split; [reflexivity|lia].
  - intros b. cbn. lia.
Qed.

Definition sync_url : Url :=
  {| scheme := "https"; host_str := Some "consumer"%string; username := ""; password := None;
     path := "/internal/v1/master-data/sync"; query := None; fragment := None |}.
Definition notify_target (seen : option string) : NotifyTarget := mkNotifyTarget sync_url (bearer "secret") jp seen.
Definition other_hash : string := sum_digest [1].
Definition follower : Consumer := mkConsumer "secret" true jp.
Definition stranger : Consumer := mkConsumer "other" true jp.
Definition link (n : string) (seen : option string) : Link := mkLink n (notify_target seen) follower "secret".
Definition links : list Link := [link "a" None; link "b" (Some other_hash)].

Lemma every_target_is_tried_witness :
  let ts : peers := [("a"%string, notify_target None, fun _ => None); link_peer from_slice plain_rejection (link "b" None)] in
  fst (targets_deliver to_vec plain_status other_hash ts) <> Ok 2 /\
  map (fun t => accepted (snd t)) (snd (targets_deliver to_vec plain_status other_hash ts)) = [None; Some other_hash].
Proof.
  intros ts. pose proof (every_target_is_tried to_vec plain_status other_hash ts eq_refl) as H.
  assert (Hr : fst (targets_deliver to_vec plain_status other_hash ts) = Err NDelivery) by (vm_compute; reflexivity).
  destruct (targets_deliver to_vec plain_status other_hash ts) as [r ts']. destruct H as (H & _ & _). cbn [fst snd] in *. split.
  - rewrite Hr. discriminate.
  - rewrite H. vm_compute. reflexivity.
Defined.

Lemma hints_wake_exactly_their_consumer_witness :
  fst (fst (deliver to_vec plain_status (notify_target None) other_hash
    (fun body => Some (fst (at_consumer from_slice plain_rejection follower (notify_target None) body))))) = Ok true /\
  fst (fst (deliver to_vec plain_status (notify_target None) other_hash
    (fun body => Some (fst (at_consumer from_slice plain_rejection stranger (notify_target None) body))))) = Err NDelivery.
Proof.
  assert (Hne : accepted (notify_target None) <> Some other_hash) by discriminate. split.
  - pose proof (hints_wake_exactly_their_consumer to_vec from_slice plain_status plain_rejection follower (notify_target None) "secret" other_hash
      eq_refl eq_refl eq_refl eq_refl Hne) as H.
    destruct (deliver _ _ _ _ _) as [[r t'] posted]. destruct H as (body & _ & _ & H). rewrite bool_decide_eq_true_2 in H by by repeat split. exact (proj1 H).
  - pose proof (hints_wake_exactly_their_consumer to_vec from_slice plain_status plain_rejection stranger (notify_target None) "secret" other_hash
      eq_refl eq_refl eq_refl eq_refl Hne) as H.
    destruct (deliver _ _ _ _ _) as [[r t'] posted]. destruct H as (body & _ & _ & H). rewrite bool_decide_eq_false_2 in H by by intros [? _].
    exact (proj1 H).
Defined.

Lemma reconciling_acknowledges_what_is_served_witness :
  exists m ts, installed_manifest jp published_a = Some m /\
    notifier_reconcile to_vec plain_status (fun _ => published_a) jp (map (link_peer from_slice plain_rejection) links) = (Ok 2, ts) /\
    Forall (fun t => accepted (snd t) = Some (content_sha256 m)) ts.
Proof.
  assert (Hm : match installed_manifest jp published_a with
               | Some m => behind (content_sha256 m) (map (link_peer from_slice plain_rejection) links) =? 2 | None => false end = true)
    by (vm_compute; reflexivity).
  destruct (installed_manifest jp published_a) as [m|] eqn:E; [|inversion Hm]. apply Z.eqb_eq in Hm.
  assert (Hc : Forall (connected jp) links) by (constructor; [by repeat split|constructor; [by repeat split|constructor]]).
  destruct (reconciling_acknowledges_what_is_served to_vec from_slice plain_status plain_rejection _ published_a jp m links
    published_a_held E eq_refl Hc) as (ts & H1 & _ & _ & H2).
  rewrite Hm in H1. exists m, ts. split; [reflexivity|]. split; [exact H1|exact H2].
Defined.

Definition profile (r : Region) (notify : string) : Profile :=
  mkProfile r "API" "INTERNAL" None None [] [] None [] [] None None [notify].
Definition environment_of (n : string) : option string := Some (n ++ "-value")%string.
Lemma notification_tokens_are_apart_witness :
  validate_tokens environment_of [profile Jp "NOTIFY_JP"; profile Hk "NOTIFY_HK"] = Ok tt /\
  is_ok (validate_tokens environment_of [profile Jp "NOTIFY"; profile Hk "NOTIFY"]) = false /\
  exists token, secret environment_of "NOTIFY_JP" = Ok token.
Proof.
  assert (Hv : validate_tokens environment_of [profile Jp "NOTIFY_JP"; profile Hk "NOTIFY_HK"] = Ok tt) by reflexivity.
  split; [exact Hv|]. split; [reflexivity|].
  destruct (notification_tokens_are_apart environment_of _ Hv (profile Jp "NOTIFY_JP") "NOTIFY_JP" (or_introl eq_refl) (or_introl eq_refl))
    as (token & H & _). exists token. exact H.
Defined.
