(* ===== verification/MasterUpdate.v ===== *)
(** The CDN updater of Master snapshots ([master_update.rs]; the target of
    [client.rs], [refresh_master_target]).

    The directory is a [root] under the writer lock; what the CDN answers to each
    attempt of a request, the two targets the game client reports and the outcome
    of every file operation are arguments.  A panic of a blocking worker is not
    modelled. *)
From Stdlib Require Import ZArith Lia Ascii String List Bool.
From stdpp Require Import base list strings decidable gmap.
From S2P Require Import Prelude BTree Errors Regions Versions Http Environment Peer Upstream MasterFiles MasterRegistry MasterHistory MasterChain MasterImport MasterService.

Local Open Scope Z_scope.
Local Open Scope rust_scope.

Inductive UpdateError : Type := UConfig | UTarget | UDownload | UHttp (status : Z) | UTimeout | UChanged | UMaster.
#[export] Instance UpdateError_eq_dec : EqDecision UpdateError.
Proof. solve_decision. Defined.
Definition update_error_text (e : UpdateError) : string :=
  match e with
  | UConfig => "Master updater configuration is invalid"
  | UTarget => "Master version or approved CDN credential is unavailable"
  | UDownload => "Master CDN request failed"
  | UHttp s => "Master CDN returned HTTP " ++ u64_to_string s
  | UTimeout => "Master update exceeded its deadline"
  | UChanged => "Master version or CDN changed during update"
  | UMaster => "Master validation or storage failed"
  end.
(** [From<MasterError>] and [map_err(|_| UpdateError::Master)]. *)
Definition stored {A} (x : result MasterError A) : result UpdateError A :=
  match x with Ok a => Ok a | Err _ => Err UMaster end.
Definition config_error {E A} (x : result E A) : result UpdateError A :=
  match x with Ok a => Ok a | Err _ => Err UConfig end.

Record MasterTarget : Type := mkTarget {
  t_version : string;
  t_resource_version : option string;
  t_root : string;
  t_password : option string;
}.
#[export] Instance MasterTarget_eq_dec : EqDecision MasterTarget.
Proof. solve_decision. Defined.

(** * The HTTP policy *)
Record Network : Type := mkNetwork {
  n_connect_timeout_ms : Z;
  n_request_timeout_ms : Z;
  n_update_timeout_seconds : Z;
  n_attempts : Z;
  n_retry_delay_ms : Z;
  n_max_retry_delay_ms : Z;
  n_proxy_url_env : option string;
  n_proxy_authorization_env : option string;
}.
Definition network_default : Network := mkNetwork 10000 60000 600 1 250 5000 None None.
Definition network_master : Network := mkNetwork 10000 60000 600 3 250 5000 None None.

(** The written fields of a block. *)
Record PartialNetwork : Type := mkPartial {
  w_connect_timeout_ms : option Z;
  w_request_timeout_ms : option Z;
  w_update_timeout_seconds : option Z;
  w_attempts : option Z;
  w_retry_delay_ms : option Z;
  w_max_retry_delay_ms : option Z;
  w_proxy_url_env : option string;
  w_proxy_authorization_env : option string;
}.
Definition or_else {A} (o base : option A) : option A := match o with Some _ => o | None => base end.
Definition over (p : PartialNetwork) (base : Network) : Network :=
  mkNetwork (default (n_connect_timeout_ms base) (w_connect_timeout_ms p))
    (default (n_request_timeout_ms base) (w_request_timeout_ms p))
    (default (n_update_timeout_seconds base) (w_update_timeout_seconds p))
    (default (n_attempts base) (w_attempts p))
    (default (n_retry_delay_ms base) (w_retry_delay_ms p))
    (default (n_max_retry_delay_ms base) (w_max_retry_delay_ms p))
    (or_else (w_proxy_url_env p) (n_proxy_url_env base))
    (or_else (w_proxy_authorization_env p) (n_proxy_authorization_env base)).

Definition env_name_ok (name : string) : bool :=
  negb (is_empty name || (256 <? len name) || negb (all_bytes (fun b => is_ascii_alphanumeric b || char_is 95 b) name)).
Definition network_validate (n : Network) : result UpdateError unit :=
  guard? negb (negb (in_range 100 300000 (n_connect_timeout_ms n)) || negb (in_range 100 300000 (n_request_timeout_ms n))
    || negb (in_range 1 3600 (n_update_timeout_seconds n)) || negb (in_range 1 8 (n_attempts n))
    || negb (in_range 1 10000 (n_retry_delay_ms n)) || negb (in_range (n_retry_delay_ms n) 30000 (n_max_retry_delay_ms n))
    || (is_none (n_proxy_url_env n) && is_some (n_proxy_authorization_env n))) else UConfig;;
  ensure (none_or (n_proxy_url_env n) env_name_ok && none_or (n_proxy_authorization_env n) env_name_ok) UConfig.

(** What the built client sends with: its timeouts and its proxy. *)
Record HttpClient : Type := { hc_connect_ms : Z; hc_timeout_ms : Z; hc_proxy : option (Url * option string) }.

Section client.
Context (env : string -> option string) (url_parse : string -> option Url) (uri_ok proxy_ok : Url -> bool) (build : bool).

Definition network_client (n : Network) : result UpdateError HttpClient :=
  _ <-? network_validate n;;
  proxy <-?
    match n_proxy_url_env n with
    | None => Ok None
    | Some name =>
        value <-? config_error (secret env name);;
        uri <-? config_error (proxy_uri url_parse uri_ok value);;
        guard? proxy_ok uri else UConfig;;
        authorization <-?
          match n_proxy_authorization_env n with
          | None => Ok None
          | Some name =>
              value <-? config_error (secret env name);;
              guard? negb ((4096 <? len value) || all_whitespace value) else UConfig;;
              guard? header_value_ok value else UConfig;;
              Ok (Some value)
          end;;
        Ok (Some (uri, authorization))
    end;;
  guard? build else UConfig;;
  Ok {| hc_connect_ms := n_connect_timeout_ms n; hc_timeout_ms := n_request_timeout_ms n; hc_proxy := proxy |}.

Definition retryable (e : UpdateError) : bool :=
  match e with
  | UDownload => true
  | UHttp s => (s =? 429) || in_range 500 599 s
  | _ => false
  end.
Definition retry (n : Network) (e : UpdateError) (attempt : Z) : bool := (attempt + 1 <? n_attempts n) && retryable e.
(** In milliseconds. *)
Definition delay (n : Network) (attempt : Z) : Z :=
  Z.min (n_retry_delay_ms n * Z.shiftl 1 attempt) (n_max_retry_delay_ms n).

(** * The updater *)
Inductive CdnAuthorization : Type := CdnBasic | CdnNone.
Record MasterUpdateConfig : Type := mkUpdateConfig {
  mu_network : Network;
  cdn_authorization : CdnAuthorization;
  username_env : option string;
  key_hex_env : string;
  iv_hex_env : string;
  interval_seconds : Z;
}.
Record MasterUpdater : Type := mkUpdater {
  u_http : HttpClient;
  u_username : option string;
  u_decoder : MasterDecoder;
  u_region : Region;
  u_network : Network;
  u_retention : option Z;
}.

Definition updater_username (update : MasterUpdateConfig) (region : Region) : result UpdateError (option string) :=
  match cdn_authorization update with
  | CdnBasic =>
      name <-? ok_or (username_env update) UConfig;;
      username <-? config_error (secret env name);;
      guard? negb (contains_char 58 username) else UConfig;;
      Ok (Some username)
  | CdnNone =>
      guard? negb (is_some (username_env update) || negb (master_supported region) || negb (String.eqb (family region) "global"))
        else UConfig;;
      Ok None
  end.
Definition updater_new (update : option MasterUpdateConfig) (has_directory : bool) (region : Region) (keep : option Z)
  : result UpdateError MasterUpdater :=
  update <-? ok_or update UConfig;;
  guard? has_directory else UConfig;;
  username <-? updater_username update region;;
  key_hex <-? config_error (secret env (key_hex_env update));;
  key <-? stored (key_from_hex key_hex);;
  iv_hex <-? config_error (secret env (iv_hex_env update));;
  iv <-? stored (key_from_hex iv_hex);;
  http <-? network_client (mu_network update);;
  Ok (mkUpdater http username (decoder_new key iv) region (mu_network update) keep).
End client.

(** [refresh_master_target], after its VERSION call. *)
Definition refresh_master_target (c : ClientConfig) (default_cdn_root : string) (update : option MasterUpdateConfig)
    (called : result AppError unit) (s : GameState) : result AppError MasterTarget :=
  _ <-? called;;
  pair <-? ok_or (match master_pair s with
                  | Some (v, rv) => if safe_version v then Some (v, rv) else None
                  | None => None
                  end) MasterUnavailable;;
  guard? negb (negb (bool_decide (grpc_status (obs s) = Some 0)) || maintenance (obs s)) else MasterUnavailable;;
  let anonymous := some_and update (fun u => match cdn_authorization u with CdnNone => true | CdnBasic => false end) in
  password <-?
    (if anonymous
     then guard? negb (negb (master_supported (cc_region c)) || negb (String.eqb (family (cc_region c)) "global")
                       || negb (String.eqb (cdn_root s) default_cdn_root)
                       || is_some (lookup_str (cdn_root s) (cdn_credential_env c))) else MasterUnavailable;;
          Ok None
     else guard? credential_valid s else MasterUnavailable;;
          password <-? ok_or (lookup_str (cdn_root s) (cdn_secrets c)) MasterUnavailable;;
          Ok (Some password));;
  Ok (mkTarget pair.1 pair.2 (cdn_root s) password).

(** * Downloads *)

(** A GET and its Basic credentials.  [net] is what an attempt of a request is
    answered with; [None] is one that was not answered. *)
Record Request : Type := mkRequest { rq_url : string; rq_auth : option (string * string) }.
Definition network : Type := Request -> Z -> option http_response.
Inductive log_event : Type := Sent (q : Request) | Slept (ms : Z).

Definition request_of (u : MasterUpdater) (t : MasterTarget) (name : string) : result UpdateError Request :=
  let url := (t_root t ++ "/master/" ++ t_version t ++ "/" ++ name)%string in
  match u_username u, t_password t with
  | Some username, Some password => Ok (mkRequest url (Some (username, password)))
  | None, None => Ok (mkRequest url None)
  | _, _ => Err UTarget
  end.
Definition receive (answer : option http_response) (limit : Z) : result UpdateError (list Z) :=
  response <-? ok_or answer UDownload;;
  if negb (http_status response =? 200) then Err (UHttp (http_status response))
  else if some_and (content_length response) (fun n => limit <? n) then Err UMaster
  else Http.read_bounded limit UDownload UMaster [] (body_events response).
Definition download_once (u : MasterUpdater) (net : network) (t : MasterTarget) (name : string) (limit attempt : Z)
  : list log_event * result UpdateError (list Z) :=
  match request_of u t name with
  | Err e => ([], Err e)
  | Ok q => ([Sent q], receive (net q attempt) limit)
  end.

(** The loop over the attempts that are left. *)
Fixpoint download_from (u : MasterUpdater) (net : network) (t : MasterTarget) (name : string) (limit : Z) (remaining : nat) (attempt : Z)
  : list log_event * result UpdateError (list Z) :=
  match remaining with
  | O => ([], Err UDownload)
  | S remaining =>
      let '(log, res) := download_once u net t name limit attempt in
      match res with
      | Err e =>
          if retry (u_network u) e attempt
          then let '(log', res) := download_from u net t name limit remaining (attempt + 1) in
               (log ++ Slept (delay (u_network u) attempt) :: log', res)
          else (log, Err e)
      | Ok b => (log, Ok b)
      end
  end.
Definition download (u : MasterUpdater) (net : network) (t : MasterTarget) (name : string) (limit : Z)
  : list log_event * result UpdateError (list Z) :=
  download_from u net t name limit (Z.to_nat (n_attempts (u_network u))) 0.

(** * One pass *)
Section update.
Context `{MasterCodecs}.

(** The installed status when nothing is to be done. *)
Fixpoint tables_intact (r : root) (g : Region) (version : string) (tables : list json) : bool :=
  match tables with
  | [] => true
  | t :: ts => match json_str t with
               | Some name => current_table_intact (fun _ => r) name g version && tables_intact r g version ts
               | None => false
               end
  end.
Definition installed_status (r : root) (g : Region) (t : MasterTarget) : option json :=
  match read_current_in (fun _ => r) None g with
  | Err _ => None
  | Ok current =>
      if negb (String.eqb (md_version current) (t_version t)) then None
      else match value_from_slice (md_bytes current) with
           | None => None
           | Some status =>
               if is_some (t_resource_version t) && is_none (json_field "resource_version" status) then None
               else match json_field "tables" status with
                    | Some (JArr tables) => if tables_intact r g (t_version t) tables then Some status else None
                    | _ => None
                    end
           end
  end.

(** [tokio::fs::write] into the download directory. *)
Definition write_file (io : staging_io) (dir : files) (name : string) (bytes : list Z) : result UpdateError files :=
  match io name with
  | Some _ => Err UMaster
  | None => Ok (<[name := Regular bytes]> dir)
  end.
Fixpoint download_tables (u : MasterUpdater) (net : network) (t : MasterTarget) (io : staging_io) (dir : files) (es : list Entry)
  : result UpdateError files :=
  match es with
  | [] => Ok dir
  | e :: es =>
      bytes <-? snd (download u net t (e_name e) (e_size e));;
      dir <-? write_file io dir (e_name e) bytes;;
      download_tables u net t io dir es
  end.

(** Everything an update meets: the writer lock, the target before and after,
    the CDN, creating the download directory, its writes, the staging writes,
    the snapshot name, the time and the publication. *)
Record pass : Type := mkPass {
  u_lock : result MasterError unit;
  u_first : result AppError MasterTarget;
  u_latest : result AppError MasterTarget;
  u_net : network;
  u_directory : option IoKind;
  u_write : staging_io;
  u_prepare : staging_io;
  u_simple : string;
  u_now : Z;
  u_pio : PublishIo;
}.

Definition targeted (x : result AppError MasterTarget) : result UpdateError MasterTarget :=
  match x with Ok t => Ok t | Err _ => Err UTarget end.
Definition fetched (u : MasterUpdater) (x : pass) (t : MasterTarget) : result UpdateError files :=
  bytes <-? snd (download u (u_net x) t "MasterManifest.json" MAX_MANIFEST);;
  manifest <-? stored (parse bytes);;
  guard? String.eqb (m_version manifest) (t_version t) else UChanged;;
  _ <-? match u_directory x with Some _ => Err UMaster | None => Ok tt end;;
  dir <-? write_file (u_write x) ∅ "MasterManifest.json" bytes;;
  download_tables u (u_net x) t (u_write x) dir (m_files manifest).

Definition unchanged_value (status : json) : json :=
  JObj [("action"%string, JStr "unchanged"); ("current"%string, status)].
Definition updated_value (rc : ImportReceipt) : json :=
  JObj [("action"%string, JStr "updated"); ("receipt"%string, receipt_value rc)].

Definition update (u : MasterUpdater) (r : root) (x : pass) : result UpdateError json * list root :=
  match (_ <-? stored (u_lock x);;
         target <-? targeted (u_first x);;
         match installed_status r (u_region u) target with
         | Some status => Ok (inl status)
         | None =>
             encrypted <-? fetched u x target;;
             prepared <-? stored (prepare_directory encrypted (u_prepare x) (u_decoder u) "remote" (t_resource_version target)
                                    (u_region u) (u_simple x));;
             latest <-? targeted (u_latest x);;
             guard? bool_decide (latest = target) else UChanged;;
             Ok (inr prepared)
         end) with
  | Err e => (Err e, [])
  | Ok (inl status) => (Ok (unchanged_value status), [])
  | Ok (inr prepared) =>
      let '(res, trace) := publish prepared r (u_now x) (u_pio x) in
      (rc <-? stored res;; Ok (updated_value rc), trace)
  end.

(** [update_once]: where the deadline cuts it, what is recorded with the game
    client, and retention after a settled result.  No await follows the second
    target, so a cut pass has not published. *)
Inductive Cut : Type := Uncut | CutWaiting | CutRunning.
Definition add_field (k : string) (x v : json) : json :=
  match v with JObj fields => JObj (fields ++ [(k, x)]) | v => v end.
Definition running_record (started : json) : json := JObj [("status"%string, JStr "running"); ("started_at"%string, started)].
Definition settled_record (started completed : json) (res : result UpdateError json) : json :=
  match res with
  | Ok v => JObj [("status"%string, JStr "ready"); ("started_at"%string, started); ("completed_at"%string, completed); ("result"%string, v)]
  | Err e => JObj [("status"%string, JStr "failed"); ("started_at"%string, started); ("completed_at"%string, completed);
                   ("error"%string, JStr (update_error_text e))]
  end.
Definition update_once (u : MasterUpdater) (r : root) (cut : Cut) (x : pass) (retain_lock : result MasterError unit)
    (wio : WriteIo) (io : string -> RenameIo) (started completed : json) : result UpdateError json * list json * list root :=
  match cut with
  | CutWaiting => (Err UTimeout, [], [])
  | _ =>
      let '(res, trace) := match cut with Uncut => update u r x | _ => (Err UTimeout, []) end in
      let '(res, trace) :=
        match res with
        | Ok value =>
            let '(pruned, trace') := retain (List.last trace r) (u_retention u) retain_lock wio io in
            (Ok (match pruned with Some n => add_field "pruned_snapshots" (JNum n) value | None => value end), trace ++ trace')
        | Err e => (Err e, trace)
        end in
      (res, [running_record started; settled_record started completed res], trace)
  end.
End update.

(** * Lemmas: one download *)

(** The log of [k] attempts from the [j]th: a wait before each but the first. *)
Fixpoint attempts_log (n : Network) (q : Request) (j : Z) (k : nat) : list log_event :=
  match k with
  | O => []
  | S O => [Sent q]
  | S k => Sent q :: Slept (delay n j) :: attempts_log n q (j + 1) k
  end.
Lemma attempts_log_S n q j k : (0 < k)%nat -> attempts_log n q j (S k) = Sent q :: Slept (delay n j) :: attempts_log n q (j + 1) k.
Proof. destruct k; [lia|done]. Qed.

(** [k] attempts from the [j]th, of which only the last was not retried. *)
Record attempted (n : Network) (answer : Z -> result UpdateError (list Z)) (j : Z) (k : nat) (res : result UpdateError (list Z)) : Prop := {
  at_some : (0 < k)%nat;
  at_bound : j + Z.of_nat k <= n_attempts n;
  at_earlier : forall i, 0 <= i < Z.of_nat k - 1 -> exists e, answer (j + i) = Err e /\ retryable e = true;
  at_last : res = answer (j + Z.of_nat k - 1);
  at_stop : j + Z.of_nat k = n_attempts n \/ forall e, res = Err e -> retryable e = false;
}.

Lemma download_from_attempts u net t name limit q remaining j :
  request_of u t name = Ok q -> (0 < remaining)%nat -> j + Z.of_nat remaining = n_attempts (u_network u) ->
  exists k, fst (download_from u net t name limit remaining j) = attempts_log (u_network u) q j k /\
    attempted (u_network u) (fun i => receive (net q i) limit) j k (snd (download_from u net t name limit remaining j)).
Proof.
  intros Hq. revert j. induction remaining as [|m IH]; intros j Hm Hj; [lia|]. cbn [download_from]. unfold download_once. rewrite Hq.
  assert (Hone : forall res, res = receive (net q j) limit -> (j + 1 = n_attempts (u_network u) \/ forall e, res = Err e -> retryable e = false) ->
    exists k, [Sent q] = attempts_log (u_network u) q j k /\ attempted (u_network u) (fun i => receive (net q i) limit) j k res).
  { intros res Hr Hs. exists 1%nat. split; [done|]. constructor; [lia|lia|lia| |done]. rewrite Hr. f_equal. f_equal. lia. }
  destruct (receive (net q j) limit) as [b|e] eqn:Er; [apply Hone; [done|by right]|].
  unfold retry. destruct (Z.ltb_spec (j + 1) (n_attempts (u_network u))) as [Hlt|Hge]; cbn [andb fst snd].
  - destruct (retryable e) eqn:Ee; [|apply Hone; [done|right; by intros e' [= <-]]].
    destruct (IH (j + 1)) as (k & Hlog & Hk); [lia|lia|]. destruct (download_from u net t name limit m (j + 1)) as [log res].
    cbn [fst snd] in *. exists (S k). pose proof (at_some _ _ _ _ _ Hk) as H0. split.
    { rewrite attempts_log_S by done. by rewrite Hlog. }
    destruct Hk as [_ H1 H2 H3 H4]. constructor; [lia|lia| | |].
    + intros i Hi. destruct (Z.eq_dec i 0) as [->|Hne]; [exists e; by rewrite Z.add_0_r|].
      destruct (H2 (i - 1)) as (e' & E1 & E2); [lia|]. exists e'. split; [|done]. rewrite <- E1. f_equal. f_equal. lia.
    + rewrite H3. f_equal. f_equal. lia.
    + destruct H4 as [H4|H4]; [left; lia|by right].
  - apply Hone; [done|left; lia].
Qed.

(** A body that an attempt for [name] was answered with. *)
Definition answered (u : MasterUpdater) (net : network) (t : MasterTarget) (name : string) (limit : Z) (b : list Z) : Prop :=
  exists q i response, request_of u t name = Ok q /\ 0 <= i < n_attempts (u_network u) /\ net q i = Some response /\
    http_status response = 200 /\ body_bytes (body_events response) = Some b /\ llen b <= limit.

Lemma receive_ok answer limit b :
  0 <= limit -> receive answer limit = Ok b ->
  exists response, answer = Some response /\ http_status response = 200 /\ body_bytes (body_events response) = Some b /\ llen b <= limit.
Proof.
  intros Hl. unfold receive. destruct answer as [response|]; [cbn [ok_or rbind]|done].
  destruct (Z.eqb_spec (http_status response) 200) as [Hs|]; cbn [negb]; [|done]. destruct (some_and _ _); [done|].
  intros Hr. apply read_bounded_spec in Hr; [|done]. destruct Hr as (b' & Hb & -> & Hle). by exists response.
Qed.

Lemma receive_answers response limit b :
  http_status response = 200 -> none_or (content_length response) (fun n => n =? llen b) = true ->
  body_bytes (body_events response) = Some b -> llen b <= limit -> receive (Some response) limit = Ok b.
Proof.
  intros Hs Hl Hb Hle. unfold receive. cbn [ok_or rbind]. rewrite Hs. change (negb (200 =? 200)) with false.
  assert (some_and (content_length response) (fun n => limit <? n) = false) as ->.
  { destruct (content_length response) as [n|]; [|done]. cbn in *. apply Z.eqb_eq in Hl. apply Z.ltb_ge. lia. }
  apply read_bounded_spec; [pose proof (llen_nonneg b); unfold llen in *; cbn; lia|]. by exists b.
Qed.

Lemma download_request u net t name limit e : request_of u t name = Err e -> 0 < n_attempts (u_network u) -> download u net t name limit = ([], Err e).
Proof.
  intros Hq Hn. unfold download. destruct (Z.to_nat (n_attempts (u_network u))) as [|m] eqn:E; [lia|]. cbn [download_from]. unfold download_once.
  rewrite Hq. assert (e = UTarget) as -> by (unfold request_of in Hq; destruct (u_username u), (t_password t); congruence).
  unfold retry. cbn [retryable]. by rewrite andb_false_r.
Qed.

Lemma download_ok u net t name limit b : 0 <= limit -> snd (download u net t name limit) = Ok b -> answered u net t name limit b.
Proof.
  intros Hl Hd. unfold download in Hd. destruct (Z.to_nat (n_attempts (u_network u))) as [|m] eqn:Em; [done|].
  destruct (request_of u t name) as [q|e] eqn:Hq.
  - destruct (download_from_attempts u net t name limit q (S m) 0 Hq) as (k & _ & Hk); [lia|lia|].
    pose proof (at_last _ _ _ _ _ Hk) as Hlast. cbn beta in Hlast. rewrite Hd in Hlast. symmetry in Hlast. apply receive_ok in Hlast as (response & H1 & H2 & H3 & H4); [|done].
    pose proof (at_some _ _ _ _ _ Hk). pose proof (at_bound _ _ _ _ _ Hk).
    exists q, (0 + Z.of_nat k - 1), response. split; [done|]. split; [lia|done].
  - pose proof (download_request u net t name limit e Hq ltac:(lia)) as E. unfold download in E. rewrite Em in E. by rewrite E in Hd.
Qed.

(** * Lemmas: the download directory *)
Section fetching.
Context `{!MasterCodecs, !MasterCodecsOk}.

Lemma bin_not_manifest e : entry_ok e -> e_name e <> "MasterManifest.json"%string.
Proof.
  intros [(stem & -> & _) _ _] E. assert (Hs : strip_suffix "MasterManifest.json" ".bin" = Some stem) by by apply strip_suffix_spec.
  by vm_compute in Hs.
Qed.

Lemma download_tables_ok u net t io dir es dir' :
  download_tables u net t io dir es = Ok dir' -> Forall entry_ok es -> NoDup (map e_name es) ->
  Forall (fun e => exists b, dir' !! e_name e = Some (Regular b) /\ answered u net t (e_name e) (e_size e) b) es /\
  (forall n, ~ In n (map e_name es) -> dir' !! n = dir !! n).
Proof.
  revert dir. induction es as [|e es IH]; intros dir; cbn [download_tables]; [intros [= <-] _ _; split; [constructor|done]|].
  intros Hd He Hn. apply Forall_cons in He as [He Hes]. cbn [map] in *. apply NoDup_cons in Hn as [Hne Hn]. rewrite list_elem_of_In in Hne.
  apply rbind_ok in Hd as (b & Hb & Hd). apply rbind_ok in Hd as (dir1 & Hw & Hd). unfold write_file in Hw.
  destruct (io (e_name e)); [done|]. injection Hw as <-. destruct (IH _ Hd Hes Hn) as [H1 H2]. split.
  - constructor; [|done]. exists b. rewrite H2 by done. split; [apply lookup_insert_eq|]. apply download_ok; [|done].
    pose proof (eo_size _ He). lia.
  - intros n Hout. cbn in Hout. rewrite H2 by tauto. apply lookup_insert_ne. tauto.
Qed.

Lemma fetched_ok u x t dir :
  fetched u x t = Ok dir ->
  exists mb m, answered u (u_net x) t "MasterManifest.json" MAX_MANIFEST mb /\ parse mb = Ok m /\ m_version m = t_version t /\
    dir !! "MasterManifest.json"%string = Some (Regular mb) /\
    Forall (fun e => exists b, dir !! e_name e = Some (Regular b) /\ answered u (u_net x) t (e_name e) (e_size e) b) (m_files m).
Proof.
  unfold fetched. intros Hf. apply rbind_ok in Hf as (mb & Hmb & Hf). apply rbind_ok in Hf as (m & Hm & Hf).
  unfold stored in Hm. destruct (parse mb) as [m'|] eqn:Hp; [|done]. injection Hm as ->.
  apply rbind_ok in Hf as ([] & Hv & Hf). apply ensure_ok, String.eqb_eq in Hv. apply rbind_ok in Hf as ([] & _ & Hf).
  apply rbind_ok in Hf as (dir0 & Hw & Hf). unfold write_file in Hw. destruct (u_write x _); [done|]. injection Hw as <-.
  pose proof (parse_ok _ _ Hp) as (_ & Hcm & _). apply check_manifest_ok in Hcm.
  destruct (download_tables_ok _ _ _ _ _ _ _ Hf (mo_entries _ Hcm) (mo_nodup _ Hcm)) as [H1 H2].
  exists mb, m. split; [apply download_ok; [done|exact Hmb]|]. split; [done|]. split; [done|]. split; [|done].
  rewrite H2; [apply lookup_insert_eq|]. intros Hin. apply in_map_iff in Hin as (e & E & He).
  pose proof (mo_entries _ Hcm) as Hes. rewrite List.Forall_forall in Hes. by apply (bin_not_manifest e (Hes e He)).
Qed.

(** * Lemmas: the installed snapshot *)
Lemma regular_read n limit b : regular n limit = Ok b -> MasterFiles.read_bounded n limit = Ok b.
Proof. by destruct n as [[]|]. Qed.

(** What a manifest read off the directory was read from. *)
Record reads (scope : Scope) (r : root) (doc : Document) (p : PublishedManifest) : Prop := {
  rd_snapshot : current_snapshot (fun _ => r) = Ok (p_snapshot p);
  rd_source : exists m, source_with_provenance (fun _ => r) (p_snapshot p) = Ok (m, p_resource_version p, region scope) /\
                source_manifest p = sort_source m /\ p_version p = m_version m;
}.
Lemma manifest_reads scope r doc p :
  manifest (fun _ => r) None scope = Ok doc -> published_from_slice (d_bytes doc) = Some p -> reads scope r doc p.
Proof.
  unfold manifest. intros Hm Hp. apply rbind_ok in Hm as ([] & _ & Hm). apply rbind_ok in Hm as (s & Hs & Hm).
  apply rbind_ok in Hm as ([] & _ & Hm). apply rbind_ok in Hm as ([[m rv] g] & Hsrc & Hm).
  apply rbind_ok in Hm as ([] & Hg & Hm). apply ensure_ok, bool_decide_eq_true in Hg as ->. apply rbind_ok in Hm as (i & _ & Hm).
  apply rbind_ok in Hm as (content & _ & Hm). apply rbind_ok in Hm as (b & Hb & [= <-]). cbn [d_bytes] in Hp.
  match type of Hb with context [published_to_vec ?q] => destruct (published_roundtrip q) as (b' & E1 & E2) end.
  rewrite E1 in Hb. injection Hb as <-. rewrite E2 in Hp. injection Hp as <-. constructor; [done|]. by exists m.
Qed.

Lemma current_snapshot_read r s :
  current_snapshot (fun _ => r) = Ok s ->
  exists b, MasterFiles.read_bounded (current r) 128 = Ok b /\ from_utf8 b = Some s /\ snapshot_name s = true.
Proof.
  unfold current_snapshot. intros Hc. apply rbind_ok in Hc as (b & Hb & Hc). apply rbind_ok in Hc as (s' & Hs & Hc).
  destruct (from_utf8 b) as [s''|] eqn:Eu; [|done]. injection Hs as ->. apply rbind_ok in Hc as ([] & Hd & [= ->]).
  exists b. split; [by apply regular_read|]. split; [done|]. unfold snapshot_directory in Hd. by destruct (snapshot_name s).
Qed.

Lemma provenance_read r s m rv g :
  source_with_provenance (fun _ => r) s = Ok (m, rv, g) ->
  exists b rb receipt source, MasterFiles.read_bounded (dir_node r s "MasterManifest.json") MAX_MANIFEST = Ok b /\ parse b = Ok m /\
    MasterFiles.read_bounded (dir_node r s "receipt.json") 4096 = Ok rb /\ value_from_slice rb = Some receipt /\
    recorded_region receipt = Ok g /\ recorded_resource_version receipt = Ok rv /\
    receipt_str receipt "version" = Some (m_version m) /\ receipt_str receipt "snapshot" = Some s /\
    receipt_str receipt "source" = Some source /\ known_source (Some source) = true.
Proof.
  unfold source_with_provenance. intros Hs. apply rbind_ok in Hs as (b & Hb & Hs). apply rbind_ok in Hs as (m' & Hm & Hs).
  apply rbind_ok in Hs as (rb & Hrb & Hs). apply rbind_ok in Hs as (receipt & Hr & Hs). destruct (value_from_slice rb) as [v|] eqn:Ev; [|done].
  injection Hr as ->. apply rbind_ok in Hs as ([] & Hg & Hs). apply ensure_ok in Hg. apply rbind_ok in Hs as (rv' & Hrv & Hs).
  apply rbind_ok in Hs as (g' & Hreg & [= -> -> ->]). apply negb_true_iff in Hg. rewrite !orb_false_iff, !negb_false_iff in Hg.
  destruct Hg as [[[H1 H2] _] H4]. apply bool_decide_eq_true in H1, H2. destruct (receipt_str receipt "source") as [source|] eqn:E; [|done].
  exists b, rb, receipt, source. repeat (split; [by eauto using regular_read|]). done.
Qed.
Lemma table_current_intact r g s stem h d :
  current_snapshot (fun _ => r) = Ok s -> table (fun _ => r) g s stem h = Ok d -> current_table_intact (fun _ => r) stem g (d_version d) = true.
Proof.
  intros Hc. apply current_snapshot_read in Hc as (pb & Hpb & Hu & Hn). unfold table, table_read.
  destruct (_ || _) eqn:Eg; [done|]. apply orb_false_iff in Eg as [Hsafe _]. intros Ht. apply rbind_ok in Ht as ([] & _ & Ht).
  apply rbind_ok in Ht as (m & Hm & Ht). unfold source in Hm. apply rbind_ok in Hm as ([[m' rv] g'] & Hsrc & Hm).
  destruct (decide (g' = g)) as [->|Hne]; [rewrite bool_decide_eq_true_2 in Hm by done|by rewrite bool_decide_eq_false_2 in Hm by done]. injection Hm as ->.
  apply (provenance_read r) in Hsrc as (mb & rb & receipt & src & H1 & H2 & H3 & H4 & H5 & _).
  apply rbind_ok in Ht as ([] & Hin & Ht). apply ensure_ok in Hin. apply rbind_ok in Ht as (b & Hb & Ht).
  apply rbind_ok in Ht as ([] & Hd & Ht). apply ensure_ok, String.eqb_eq in Hd as <-. apply rbind_ok in Ht as (i & Hi & Ht).
  apply rbind_ok in Ht as ([] & Hv & [= <-]). cbn [orb d_version] in *.
  unfold current_table_intact, read_current_inner. rewrite Hpb. cbn [rbind]. rewrite Hu. cbn [ok_or rbind]. rewrite Hn. cbn [ensure rbind].
  rewrite H1. cbn [rbind]. rewrite H2. cbn [rbind]. rewrite H3. cbn [rbind]. rewrite H4. cbn [ok_or rbind]. rewrite H5. cbn [rbind none_or].
  rewrite bool_decide_eq_true_2 by done. cbn [ensure rbind]. rewrite Hsafe, Hin. cbn [negb orb ensure rbind].
  rewrite (regular_read _ _ _ Hb). cbn [rbind]. change (later 4 (fun _ : Z => r)) with (fun _ : Z => r) in Hi |- *. rewrite Hi. cbn [rbind md_version md_bytes].
  rewrite String.eqb_refl, Hv. by destruct i.
Qed.

Lemma status_current scope r doc p :
  reads scope r doc p -> exists m source sb, value_to_vec (status_value m (p_snapshot p) source (region scope) (p_resource_version p)) = Some sb /\
    read_current_in (fun _ => r) None (region scope) = Ok (mkMasterDocument (p_version p) (digest sb) sb) /\
    source_manifest p = sort_source m /\ check_manifest m = Ok tt.
Proof.
  intros [Hc (m & Hsrc & Hm & Hv)]. apply current_snapshot_read in Hc as (pb & Hpb & Hu & Hn).
  apply provenance_read in Hsrc as (mb & rb & receipt & source & H1 & H2 & H3 & H4 & H5 & H6 & H7 & H8 & H9 & H10).
  pose proof (value_encodes (status_value m (p_snapshot p) source (region scope) (p_resource_version p))) as He.
  destruct (value_to_vec _) as [sb|] eqn:Esb; [|done]. exists m, source, sb. split; [done|]. split; [|split; [done|apply (parse_ok _ _ H2)]].
  unfold read_current_in, read_current_inner. rewrite Hpb. cbn [rbind]. rewrite Hu. cbn [ok_or rbind]. rewrite Hn. cbn [ensure rbind].
  rewrite H1. cbn [rbind]. rewrite H2. cbn [rbind]. rewrite H3. cbn [rbind]. rewrite H4. cbn [ok_or rbind]. rewrite H5. cbn [rbind none_or].
  rewrite bool_decide_eq_true_2 by done. cbn [ensure rbind]. rewrite H9, H10. cbn [ensure rbind ok_or]. rewrite H7, H8.
  rewrite !bool_decide_eq_true_2 by done. cbn [negb orb ensure rbind]. rewrite H6. cbn [rbind]. rewrite Esb. cbn [ok_or rbind rmap fst]. by rewrite Hv.
Qed.

(** Trimming one suffix that the rest does not end with. *)
Lemma trim_suffix stem pat : pat <> ""%string -> strip_suffix stem pat = None -> trim_end_matches (stem ++ pat) pat = stem.
Proof.
  intros Hp Hs. unfold trim_end_matches. cbn [trim_end_fuel]. rewrite (proj2 (strip_suffix_spec _ _ stem) eq_refl).
  destruct (String.length (stem ++ pat)); [done|]. cbn [trim_end_fuel]. by rewrite Hs.
Qed.
Lemma bin_stem e : entry_ok e -> exists stem, e_name e = (stem ++ ".bin")%string /\ table_name e = (stem ++ ".json")%string /\
  trim_end_matches (e_name e) ".bin" = stem.
Proof.
  intros He. destruct (table_name_stem e He) as (stem & E1 & E2 & Hs1 & Hs2 & Hs3). exists stem. split; [done|]. split; [done|].
  rewrite E1. apply trim_suffix; [done|]. destruct (strip_suffix stem ".bin") as [q|] eqn:E; [|done]. apply strip_suffix_spec in E as ->.
  unfold safe_component in Hs3. apply andb_true_iff in Hs3 as [_ Hs3]. rewrite all_bytes_app in Hs3.
  apply andb_true_iff in Hs3 as [_ Hs3]. by vm_compute in Hs3.
Qed.

Lemma sorted_files_in m e : In e (m_files (sort_source m)) <-> In e (m_files m).
Proof. unfold sort_source. cbn. rewrite <- !list_elem_of_In. by rewrite (sort_by_perm e_name). Qed.

Lemma tables_intact_spec r g version names :
  tables_intact r g version (map JStr names) = true <-> Forall (fun n => current_table_intact (fun _ => r) n g version = true) names.
Proof.
  induction names as [|n names IH]; cbn [map tables_intact json_str]; [split; [constructor|done]|].
  rewrite andb_true_iff, Forall_cons, IH. done.
Qed.

(** A JSON status survives its encoding. *)
Definition status_reads_back : Prop := forall m snapshot source g resource b,
  value_to_vec (status_value m snapshot source g resource) = Some b -> value_from_slice b = Some (status_value m snapshot source g resource).

Lemma status_fields m snapshot source g resource :
  json_field "resource_version" (status_value m snapshot source g resource) = option_map JStr resource /\
  json_field "tables" (status_value m snapshot source g resource) = Some (JArr (map JStr (map (fun e => trim_end_matches (e_name e) ".bin") (m_files m)))).
Proof. split; [by destruct resource|]. cbn [json_field status_value]. rewrite map_map. done. Qed.

(** What makes an update unnecessary. *)
Definition up_to_date (r : root) (g : Region) (t : MasterTarget) (p : PublishedManifest) : Prop :=
  p_version p = t_version t /\ (t_resource_version t = None \/ p_resource_version p <> None) /\
  forall e stem, In e (m_files (source_manifest p)) -> e_name e = (stem ++ ".bin")%string ->
    current_table_intact (fun _ => r) stem g (p_version p) = true.

Lemma installed_status_exact scope r doc p t :
  status_reads_back -> manifest (fun _ => r) None scope = Ok doc -> published_from_slice (d_bytes doc) = Some p ->
  (exists status, installed_status r (region scope) t = Some status) <-> up_to_date r (region scope) t p.
Proof.
  intros Hback Hm Hp. pose proof (manifest_reads _ _ _ _ Hm Hp) as Hr.
  destruct (status_current _ _ _ _ Hr) as (m & source & sb & Hsb & Hread & Hsrc & Hcm).
  apply check_manifest_ok in Hcm. pose proof (mo_entries _ Hcm) as Hes. rewrite List.Forall_forall in Hes.
  unfold installed_status. rewrite Hread. cbn [md_version md_bytes]. rewrite (Hback _ _ _ _ _ _ Hsb).
  destruct (status_fields m (p_snapshot p) source (region scope) (p_resource_version p)) as [-> ->].
  unfold up_to_date. destruct (String.eqb_spec (p_version p) (t_version t)) as [E|Hne]; cbn [negb]; [|split; [by intros (? & ?)|intros (? & _); done]].
  assert (Hint : tables_intact r (region scope) (t_version t) (map JStr (map (fun e => trim_end_matches (e_name e) ".bin") (m_files m))) = true <->
    forall e stem, In e (m_files (source_manifest p)) -> e_name e = (stem ++ ".bin")%string ->
      current_table_intact (fun _ => r) stem (region scope) (p_version p) = true).
  { rewrite tables_intact_spec, Forall_map, List.Forall_forall, E, Hsrc. split.
    - intros Hall e stem Hin Hn. apply (proj1 (sorted_files_in m e)) in Hin. destruct (bin_stem e (Hes e Hin)) as (s' & E1 & _ & E2).
      specialize (Hall e Hin). cbn beta in Hall. rewrite E2 in Hall. rewrite E1 in Hn. by apply append_inj_r in Hn as <-.
    - intros Hall e Hin. cbn beta. destruct (bin_stem e (Hes e Hin)) as (s' & E1 & _ & ->). apply (Hall e s'); [by apply (proj2 (sorted_files_in m e))|done]. }
  destruct (t_resource_version t) as [rv|], (p_resource_version p) as [prv|]; cbn [is_some is_none option_map andb];
    first [split; [by intros (? & ?)|intros (_ & [?|?] & _); done]|idtac].
  all: destruct (tables_intact _ _ _ _); split; [intros _|intros _; eauto|intros (? & ?); done|intros (_ & _ & Hall); by apply Hint in Hall].
  all: split; [done|]; split; [by auto|by apply Hint].
Qed.
End fetching.

Section update_theorems.
Context `{!MasterCodecs, !MasterCodecsOk} (scope : Scope).

Lemma served_tables_intact r doc p :
  manifest (fun _ => r) None scope = Ok doc -> published_from_slice (d_bytes doc) = Some p -> served scope (fun _ => r) p ->
  forall e stem, In e (m_files (source_manifest p)) -> e_name e = (stem ++ ".bin")%string ->
    current_table_intact (fun _ => r) stem (region scope) (p_version p) = true.
Proof.
  intros Hm Hp (Hv & Hs) e stem Hin Hn. pose proof (published_validate_ok scope p Hv) as Hok.
  pose proof (check_manifest_ok _ (po_source _ _ Hok)) as Hmo. pose proof (mo_entries _ Hmo) as Hes. rewrite List.Forall_forall in Hes.
  destruct (inventory_validate_ok _ _ (po_index _ _ Hok)) as (_ & _ & Hnames & _). cbn in Hnames.
  destruct (bin_stem e (Hes e Hin)) as (stem' & E1 & E2 & _). rewrite E1 in Hn. apply append_inj_r in Hn as ->.
  assert (Hf : In (stem ++ ".json")%string (map f_name (p_files p))).
  { rewrite Hnames, <- E2, <- list_elem_of_In, (sort_by_perm id), list_elem_of_In. by apply in_map. }
  apply in_map_iff in Hf as (f & Ef & Hf). destruct (Hs f stem Hf Ef) as (b & _ & _ & Ht).
  apply (table_current_intact r (region scope) (p_snapshot p) stem (f_sha256 f)) in Ht; [done|]. by apply (manifest_reads _ _ _ _ Hm Hp).
Qed.

(** Over any directory the program may reach that serves a snapshot, an update pass
    reports unchanged without a request exactly when the served version is the target's
    and the target has no asset version or the served manifest has one. *)
Lemma update_skips_exactly_an_installed_version used r doc p u x t :
  status_reads_back -> held scope used r -> manifest (fun _ => r) None scope = Ok doc -> published_from_slice (d_bytes doc) = Some p ->
  u_region u = region scope -> u_lock x = Ok tt -> u_first x = Ok t ->
  (exists status, update u r x = (Ok (unchanged_value status), [])) <->
  p_version p = t_version t /\ (t_resource_version t = None \/ p_resource_version p <> None).
Proof.
  intros Hback Hh Hm Hp Hreg Hlock Hfirst.
  assert (Hs : served scope (fun _ => r) p).
  { destruct (held_served _ _ _ Hh) as [Hc|(doc' & p' & E1 & E2 & E3)]; [|congruence].
    exfalso. revert Hm. unfold manifest. destruct (_ || _); [done|]. cbn [negb ensure rbind]. unfold current_snapshot. by rewrite Hc. }
  pose proof (served_tables_intact r doc p Hm Hp Hs) as Hall.
  assert (Hst : (exists status, installed_status r (region scope) t = Some status) <->
    p_version p = t_version t /\ (t_resource_version t = None \/ p_resource_version p <> None)).
  { rewrite (installed_status_exact scope r doc p t Hback Hm Hp). unfold up_to_date. naive_solver. }
  rewrite <- Hst. unfold update. rewrite Hlock, Hfirst, Hreg. cbn [stored targeted rbind].
  destruct (installed_status r (region scope) t) as [status|]; [split; eauto|]. split; [|by intros (? & ?)].
  intros (status & E). exfalso. revert E. destruct (rbind _ _) as [[?|prepared]|e] eqn:Eb; [|destruct (publish _ _ _ _) as [[rc|] tr]; done|done].
  apply rbind_ok in Eb as (? & _ & Eb). apply rbind_ok in Eb as (? & _ & Eb). apply rbind_ok in Eb as (? & _ & Eb).
  by apply rbind_ok in Eb as ([] & _ & ?).
Qed.

(** An installation of what the CDN answered for one stable target. *)
Record installed_from (u : MasterUpdater) (x : pass) (t : MasterTarget) (r' : root) : Prop := {
  if_first : u_first x = Ok t;
  if_latest : u_latest x = Ok t;
  if_content : exists mb m doc p,
    answered u (u_net x) t "MasterManifest.json" MAX_MANIFEST mb /\ parse mb = Ok m /\ m_version m = t_version t /\
    manifest (fun _ => r') None scope = Ok doc /\ published_from_slice (d_bytes doc) = Some p /\ served scope (fun _ => r') p /\
    source_manifest p = sort_source m /\ p_resource_version p = t_resource_version t /\
    Forall (fun e => exists data json, answered u (u_net x) t (e_name e) (e_size e) data /\ decode (u_decoder u) e data = Ok json /\
              dir_node r' (p_snapshot p) (table_name e) = Some (Regular json)) (m_files m);
}.

Lemma publish_installed_from used r u x t dir prepared rc trace :
  held scope used r -> environment_ok (environment scope) = true -> u_region u = region scope ->
  snapshot_name (snapshot_id (u_simple x)) = true -> snapshot_id (u_simple x) ∉ used ->
  u_first x = Ok t -> u_latest x = Ok t -> fetched u x t = Ok dir ->
  prepare_directory dir (u_prepare x) (u_decoder u) "remote" (t_resource_version t) (u_region u) (u_simple x) = Ok prepared ->
  publish prepared r (u_now x) (u_pio x) = (Ok rc, trace) -> installed_from u x t (List.last trace r).
Proof.
  intros Hh He Hreg Hname Hout H1 H2 Hf Hp Hpub. constructor; [done|done|].
  destruct (fetched_ok _ _ _ _ Hf) as (mb & m & Hmb & Hm & Hv & Hdm & Hdt).
  destruct (prepare_directory_complete _ _ _ _ _ _ _ _ Hp eq_refl Hname) as (mb' & m' & index & Hmb' & Hm' & Hc & Hn & Hreg' & Hres & Hdec).
  rewrite Hdm in Hmb'. cbn in Hmb'. unfold bounded in Hmb'. destruct (_ <? _) eqn:Eb in Hmb'; [done|]. injection Hmb' as <-.
  rewrite Hm in Hm'. injection Hm' as <-.
  pose proof (held_publish scope used r _ prepared m index (u_now x) (u_pio x) He Hh Hout Hn Hc ltac:(congruence)) as H3.
  rewrite Hpub in H3. destruct H3 as (_ & _ & Hlast). destruct (Hlast rc eq_refl) as (-> & y & cs & Hh' & Hsound & Hyn & Hyv & Hyd).
  destruct (holds_served _ _ _ _ Hh' Hsound) as (E1 & E2 & E3).
  exists mb, m, (i_doc y), (i_value y). split; [done|]. split; [done|]. split; [done|]. split; [done|]. split; [done|]. split; [done|].
  rewrite Hyv at 1 2. split; [done|]. split; [done|].
  pose proof (parse_ok _ _ Hm) as (_ & Hcm & _). pose proof (mo_entries _ (check_manifest_ok _ Hcm)) as Hes.
  rewrite Forall_forall in Hdec, Hdt, Hes |- *. intros e Hin. destruct (Hdec e Hin) as (json & (data & H4 & H5) & H6).
  destruct (Hdt e Hin) as (b & H7 & H8). exists data, json. rewrite H7 in H4. cbn in H4. unfold bounded in H4. destruct (_ <? _) in H4; [done|]. injection H4 as <-.
  split; [done|]. split; [done|]. unfold dir_node. destruct Hsound as (-> & _). rewrite (holds_head_present _ _ _ y Hh' eq_refl), Hyd; [done|].
  apply table_name_reserved; [by apply Hes|cbn; auto].
Qed.

(** C26: Whatever the CDN answers, whichever attempt or file operation fails and wherever
    the game moves meanwhile, every directory an update pass leaves still serves an
    intact snapshot of its region; a pass that succeeds has either found the target
    installed or installed, with the asset version of the target that held before and
    after the download, exactly the decoded answers of the CDN for that target's
    manifest and each of its tables. *)
Theorem update_installs_only_the_cdn used r u x res trace :
  held scope used r -> environment_ok (environment scope) = true -> u_region u = region scope ->
  snapshot_name (snapshot_id (u_simple x)) = true -> snapshot_id (u_simple x) ∉ used ->
  update u r x = (res, trace) ->
  Forall (held scope ({[snapshot_id (u_simple x)]} ∪ used)) trace /\
  match res with
  | Err _ => True
  | Ok v => exists t, u_first x = Ok t /\
      ((exists status, installed_status r (region scope) t = Some status /\ v = unchanged_value status /\ trace = []) \/
       installed_from u x t (List.last trace r))
  end.
Proof.
  intros Hh He Hreg Hname Hout. unfold update. destruct (rbind _ _) as [[status|prepared]|e] eqn:E.
  - intros [= <- <-]. split; [constructor|]. apply rbind_ok in E as ([] & _ & E). apply rbind_ok in E as (t & Ht & E).
    exists t. split; [by destruct (u_first x); [injection Ht as ->|]|]. left. rewrite Hreg in E.
    destruct (installed_status r (region scope) t) as [s|]; [injection E as ->; by exists status|].
    exfalso. apply rbind_ok in E as (? & _ & E). apply rbind_ok in E as (? & _ & E). apply rbind_ok in E as (? & _ & E).
    by apply rbind_ok in E as ([] & _ & ?).
  - apply rbind_ok in E as ([] & _ & E). apply rbind_ok in E as (t & Ht & E).
    assert (Hfirst : u_first x = Ok t) by by destruct (u_first x); [injection Ht as ->|].
    destruct (installed_status _ _ _); [done|]. apply rbind_ok in E as (dir & Hf & E). apply rbind_ok in E as (p & Hp & E).
    unfold stored in Hp. destruct (prepare_directory _ _ _ _ _ _ _) as [p'|] eqn:Eprep; [injection Hp as ->|done].
    apply rbind_ok in E as (latest & Hl & E). apply rbind_ok in E as ([] & Hg & E). injection E as ->. apply ensure_ok, bool_decide_eq_true in Hg as ->.
    assert (Hlatest : u_latest x = Ok t) by by destruct (u_latest x); [injection Hl as ->|].
    destruct (prepare_directory_complete _ _ _ _ _ _ _ _ Eprep eq_refl Hname) as (mb & m & index & _ & _ & Hc & Hn & Hpr & _).
    pose proof (held_publish scope used r _ prepared m index (u_now x) (u_pio x) He Hh Hout Hn Hc ltac:(congruence)) as Hall.
    destruct (publish prepared r (u_now x) (u_pio x)) as [pres ptrace] eqn:Epub. intros [= <- <-]. split; [apply Hall|].
    destruct pres as [rc|]; [cbn [stored rbind]|done]. exists t. split; [done|]. right. by eapply publish_installed_from.
  - intros [= <- <-]. split; [constructor|done].
Qed.
(** * A CDN that serves a directory *)

(** Some attempt is answered with [b], the ones before it fail in passing. *)
Definition serves_file (u : MasterUpdater) (net : network) (t : MasterTarget) (name : string) (limit : Z) (b : list Z) : Prop :=
  exists q (k : nat), request_of u t name = Ok q /\ Z.of_nat k < n_attempts (u_network u) /\
    (forall i, (i < k)%nat -> exists e, receive (net q (Z.of_nat i)) limit = Err e /\ retryable e = true) /\
    receive (net q (Z.of_nat k)) limit = Ok b.

Lemma download_from_answer u net t name limit q b k j remaining :
  request_of u t name = Ok q -> (k < remaining)%nat -> j + Z.of_nat remaining = n_attempts (u_network u) ->
  (forall i, (i < k)%nat -> exists e, receive (net q (j + Z.of_nat i)) limit = Err e /\ retryable e = true) ->
  receive (net q (j + Z.of_nat k)) limit = Ok b -> snd (download_from u net t name limit remaining j) = Ok b.
Proof.
  intros Hq. revert j remaining. induction k as [|k IH]; intros j [|m] Hk Hj Hearly Hb; try lia; cbn [download_from]; unfold download_once; rewrite Hq.
  - rewrite Z.add_0_r in Hb. by rewrite Hb.
  - destruct (Hearly O ltac:(lia)) as (e & E & He). rewrite Z.add_0_r in E. rewrite E. unfold retry. rewrite He.
    destruct (Z.ltb_spec (j + 1) (n_attempts (u_network u))) as [_|]; [cbn [andb]|lia].
    assert (Hn : snd (download_from u net t name limit m (j + 1)) = Ok b).
    { apply IH; [lia|lia| |rewrite <- Hb; f_equal; f_equal; lia].
      intros i Hi. destruct (Hearly (S i) ltac:(lia)) as (e' & E' & He'). exists e'. split; [|done]. rewrite <- E'. f_equal. f_equal. lia. }
    by destruct (download_from u net t name limit m (j + 1)).
Qed.

Lemma download_served u net t name limit b : serves_file u net t name limit b -> snd (download u net t name limit) = Ok b.
Proof.
  intros (q & k & Hq & Hk & Hearly & Hb). unfold download. by apply (download_from_answer u net t name limit q b k); [|lia|lia| |].
Qed.

Definition serves_input (u : MasterUpdater) (net : network) (t : MasterTarget) (input : files) (m : Manifest) : Prop :=
  (exists mb, input !! "MasterManifest.json"%string = Some (Regular mb) /\ serves_file u net t "MasterManifest.json" MAX_MANIFEST mb /\
     parse mb = Ok m) /\ m_version m = t_version t /\
  Forall (fun e => exists b, input !! e_name e = Some (Regular b) /\ serves_file u net t (e_name e) (e_size e) b) (m_files m).

Lemma stage_tables_ext (input input' : files) io d staged total es :
  Forall (fun e => input !! e_name e = input' !! e_name e) es ->
  stage_tables input io d staged total es = stage_tables input' io d staged total es.
Proof.
  intros Hall. revert staged total. induction Hall as [|e es He _ IH]; intros staged total; [done|]. cbn [stage_tables]. rewrite He.
  destruct (MasterFiles.read_bounded _ _); [cbn [rbind]|done]. destruct (decode d e _); [cbn [rbind]|done].
  destruct (_ <? _); [done|]. destruct (write_synced _ _ _ _); [cbn [rbind]|done]. by rewrite IH.
Qed.

Lemma download_tables_served u net t io (input dir : files) es :
  (forall n, io n = None) -> NoDup (map e_name es) ->
  Forall (fun e => exists b, input !! e_name e = Some (Regular b) /\ serves_file u net t (e_name e) (e_size e) b) es ->
  exists dir' : files, download_tables u net t io dir es = Ok dir' /\ Forall (fun e => dir' !! e_name e = input !! e_name e) es /\
    (forall n, ~ In n (map e_name es) -> dir' !! n = dir !! n).
Proof.
  intros Hio Hn Hall. revert dir Hn. induction Hall as [|e es (b & Hb & Hs) _ IH]; intros dir Hn; [by exists dir|].
  cbn [map] in Hn. apply NoDup_cons in Hn as [Hne Hn]. rewrite list_elem_of_In in Hne. cbn [download_tables].
  rewrite (download_served _ _ _ _ _ _ Hs). cbn [rbind]. unfold write_file. rewrite Hio. cbn [rbind].
  destruct (IH (<[e_name e := Regular b]> dir) Hn) as (dir' & E & H1 & H2). exists dir'. split; [done|]. split.
  - constructor; [|done]. rewrite H2, Hb by done. apply lookup_insert_eq.
  - intros n Hout. cbn in Hout. rewrite H2 by tauto. apply lookup_insert_ne. tauto.
Qed.

Lemma fetched_served u x t (input : files) m :
  serves_input u (u_net x) t input m -> u_directory x = None -> (forall n, u_write x n = None) ->
  exists dir : files, fetched u x t = Ok dir /\ dir !! "MasterManifest.json"%string = input !! "MasterManifest.json"%string /\
    Forall (fun e => dir !! e_name e = input !! e_name e) (m_files m).
Proof.
  intros ((mb & Hmb & Hs & Hm) & Hv & Hall) Hd Hw. unfold fetched. rewrite (download_served _ _ _ _ _ _ Hs). cbn [rbind].
  rewrite Hm. cbn [stored rbind]. rewrite Hv, String.eqb_refl. cbn [ensure rbind]. rewrite Hd. cbn [rbind]. unfold write_file at 1. rewrite Hw. cbn [rbind].
  pose proof (parse_ok _ _ Hm) as (_ & Hcm & _). apply check_manifest_ok in Hcm.
  destruct (download_tables_served u (u_net x) t (u_write x) input (<["MasterManifest.json"%string := Regular mb]> ∅) (m_files m) Hw (mo_nodup _ Hcm) Hall)
    as (dir & E & H1 & H2).
  exists dir. split; [done|]. split; [|done]. rewrite H2, Hmb; [apply lookup_insert_eq|].
  intros Hin. apply in_map_iff in Hin as (e & En & He). pose proof (mo_entries _ Hcm) as Hes. rewrite List.Forall_forall in Hes.
  by apply (bin_not_manifest e (Hes e He)).
Qed.

(** When the CDN serves a well-formed input directory within the attempts of the policy
    and the target is stable, an update pass over a directory where the target is not
    installed is the local import of that input directory: the same result, the same
    sequence of directories and the same failures. *)
Lemma update_is_an_import u r x t input m :
  u_lock x = Ok tt -> u_first x = Ok t -> u_latest x = Ok t -> installed_status r (u_region u) t = None ->
  serves_input u (u_net x) t input m -> u_directory x = None -> (forall n, u_write x n = None) ->
  update u r x =
    match prepare_directory input (u_prepare x) (u_decoder u) "remote" (t_resource_version t) (u_region u) (u_simple x) with
    | Err _ => (Err UMaster, [])
    | Ok prepared => let '(res, trace) := publish prepared r (u_now x) (u_pio x) in (rmap updated_value (stored res), trace)
    end.
Proof.
  intros Hlock Hfirst Hlatest Hnone Hserves Hd Hw. unfold update. rewrite Hlock, Hfirst. cbn [stored targeted rbind]. rewrite Hnone.
  destruct (fetched_served u x t input m Hserves Hd Hw) as (dir & -> & Hman & Hall). cbn [rbind].
  assert (Hsame : forall src, prepare_directory dir (u_prepare x) (u_decoder u) src (t_resource_version t) (u_region u) (u_simple x)
    = prepare_directory input (u_prepare x) (u_decoder u) src (t_resource_version t) (u_region u) (u_simple x)).
  { intros src. destruct Hserves as ((mb & Hmb & _ & Hm) & _). unfold prepare_directory. rewrite Hman, Hmb. destruct (ensure _ _); [cbn [rbind]|done].
    cbn [MasterFiles.read_bounded]. unfold bounded. destruct (_ <? _); [done|]. cbn [rbind]. rewrite Hm. cbn [rbind].
    destruct (u_prepare x "."%string); [done|]. cbn [rbind]. by rewrite (stage_tables_ext dir input _ _ _ _ _ Hall). }
  rewrite Hsame. destruct (prepare_directory _ _ _ _ _ _ _) as [prepared|e]; [cbn [stored rbind]|done]. rewrite Hlatest. cbn [targeted rbind].
  rewrite bool_decide_eq_true_2 by done. cbn [ensure rbind]. destruct (publish _ _ _ _) as [[rc|e] trace]; done.
Qed.
End update_theorems.

(** * Retries *)

(** Within a checked policy the exponential delay stays in the width of its
    type: the shift by at most 7 of at most 10,000 ms. *)
Lemma delay_bounded n j :
  network_validate n = Ok tt -> 0 <= j < n_attempts n ->
  0 < n_retry_delay_ms n * Z.shiftl 1 j <= 1280000 /\ 0 < delay n j <= n_max_retry_delay_ms n.
Proof.
  unfold network_validate. intros Hv Hj. apply rbind_ok in Hv as ([] & Hg & _). apply ensure_ok in Hg. apply negb_true_iff in Hg.
  rewrite !orb_false_iff, !negb_false_iff in Hg. destruct Hg as [[[[[[_ _] _] Ha] Hd] Hm] _]. unfold in_range in *. rewrite !andb_true_iff, !Z.leb_le in *.
  assert (0 < Z.shiftl 1 j <= 128).
  { rewrite Z.shiftl_1_l. split; [apply Z.pow_pos_nonneg; lia|]. change 128 with (2 ^ 7). apply Z.pow_le_mono_r; lia. }
  unfold delay. split; [nia|]. nia.
Qed.

Lemma attempts_log_facts n q j k :
  length (List.filter (fun e => match e with Sent _ => true | Slept _ => false end) (attempts_log n q j k)) = k /\
  Forall (fun e => match e with Sent q' => q' = q | Slept ms => exists i, j <= i < j + Z.of_nat k - 1 /\ ms = delay n i end) (attempts_log n q j k).
Proof.
  revert j. induction k as [|[|k] IH]; intros j; [split; [done|constructor]|split; [done|repeat constructor]|].
  rewrite attempts_log_S by lia. destruct (IH (j + 1)) as [H1 H2]. split; [cbn [List.filter length]; by rewrite H1|].
  constructor; [done|]. constructor; [exists j; split; [lia|done]|]. eapply Forall_impl; [exact H2|].
  intros [q'|ms]; [done|]. intros (i & Hi & E). exists i. split; [lia|done].
Qed.

(** Every attempt is the same request, there are at most eight, and the pauses
    between them stay within the policy. *)
Lemma download_attempts u net t name limit q :
  network_validate (u_network u) = Ok tt -> request_of u t name = Ok q ->
  exists k, fst (download u net t name limit) = attempts_log (u_network u) q 0 k /\
    attempted (u_network u) (fun i => receive (net q i) limit) 0 k (snd (download u net t name limit)) /\ (k <= 8)%nat /\
    Forall (fun e => match e with
                     | Sent q' => q' = q
                     | Slept ms => exists i, 0 <= i < Z.of_nat k - 1 /\ ms = delay (u_network u) i /\ 0 < ms <= n_max_retry_delay_ms (u_network u)
                     end) (fst (download u net t name limit)).
Proof.
  intros Hv Hq.
  assert (Hn : 1 <= n_attempts (u_network u) <= 8).
  { unfold network_validate in Hv. apply rbind_ok in Hv as ([] & Hg & _). apply ensure_ok in Hg. apply negb_true_iff in Hg.
    rewrite !orb_false_iff, !negb_false_iff in Hg. destruct Hg as [[[[_ Ha] _] _] _]. unfold in_range in Ha. lia. }
  destruct (download_from_attempts u net t name limit q (Z.to_nat (n_attempts (u_network u))) 0 Hq) as (k & Hlog & Hk); [lia|lia|].
  pose proof (at_bound _ _ _ _ _ Hk) as Hb. exists k. split; [done|]. split; [done|]. split; [lia|].
  fold (download u net t name limit) in Hlog. rewrite Hlog. destruct (attempts_log_facts (u_network u) q 0 k) as [_ Hall].
  eapply Forall_impl; [exact Hall|]. intros [q'|ms]; [done|]. intros (i & Hi & ->). exists i. split; [lia|]. split; [done|].
  apply delay_bounded; [done|lia].
Qed.

(** * Credentials *)
Lemma target_credentials c root update called s t :
  refresh_master_target c root update called s = Ok t ->
  called = Ok tt /\ t_root t = cdn_root s /\ safe_version (t_version t) = true /\ maintenance (obs s) = false /\ grpc_status (obs s) = Some 0 /\
  match t_password t with
  | Some password => credential_valid s = true /\ lookup_str (cdn_root s) (cdn_secrets c) = Some password
  | None => cdn_root s = root /\ family (cc_region c) = "global"%string /\ lookup_str root (cdn_credential_env c) = None /\
            exists u, update = Some u /\ cdn_authorization u = CdnNone
  end.
Proof.
  unfold refresh_master_target. intros Hr. apply rbind_ok in Hr as ([] & -> & Hr). apply rbind_ok in Hr as ([v rv] & Hp & Hr).
  apply rbind_ok in Hr as ([] & Hg & Hr). apply ensure_ok, negb_true_iff, orb_false_iff in Hg as [Hg Hm]. apply negb_false_iff, bool_decide_eq_true in Hg.
  apply rbind_ok in Hr as (pw & Hpw & [= <-]). cbn [t_root t_version t_password fst].
  destruct (master_pair s) as [[v' rv']|]; [|done]. destruct (safe_version v') eqn:Ev; [|done]. injection Hp as <- <-.
  split; [done|]. split; [done|]. split; [done|]. split; [done|]. split; [done|].
  destruct (some_and update _) eqn:Ea.
  - apply rbind_ok in Hpw as ([] & Hg2 & [= <-]). apply ensure_ok, negb_true_iff in Hg2. rewrite !orb_false_iff, !negb_false_iff in Hg2.
    destruct Hg2 as [[[_ Hf] Hroot] Hc]. apply String.eqb_eq in Hf, Hroot. destruct update as [u|]; [|done]. cbn in Ea.
    split; [done|]. split; [done|]. split; [rewrite <- Hroot; by destruct (lookup_str (cdn_root s) (cdn_credential_env c))|].
    exists u. split; [done|]. by destruct (cdn_authorization u).
  - apply rbind_ok in Hpw as ([] & Hc & Hpw). apply ensure_ok in Hc. apply rbind_ok in Hpw as (p & Hl & [= <-]).
    split; [done|]. by destruct (lookup_str (cdn_root s) (cdn_secrets c)); [injection Hl as ->|].
Qed.

(** C27: Every request of a download for a target of the game client goes to the CDN root
    the game announced; it carries a password only when that root's credential is valid
    and then the one configured for exactly this root, and it carries none only for a
    Global region's configured default root without a credential. *)
Theorem cdn_password_stays_with_its_root c root update called s t u net name limit q :
  refresh_master_target c root update called s = Ok t -> network_validate (u_network u) = Ok tt ->
  In (Sent q) (fst (download u net t name limit)) ->
  (exists rest, rq_url q = (cdn_root s ++ "/master/" ++ rest)%string) /\
  match rq_auth q with
  | Some (_, password) => credential_valid s = true /\ lookup_str (cdn_root s) (cdn_secrets c) = Some password
  | None => u_username u = None /\ cdn_root s = root /\ family (cc_region c) = "global"%string /\ lookup_str root (cdn_credential_env c) = None
  end.
Proof.
  intros Ht Hv Hin. pose proof (target_credentials _ _ _ _ _ _ Ht) as (_ & Hroot & _ & _ & _ & Hpw).
  destruct (request_of u t name) as [q'|e] eqn:Hq.
  - destruct (download_attempts u net t name limit q' Hv Hq) as (k & _ & _ & _ & Hall). rewrite List.Forall_forall in Hall.
    specialize (Hall _ Hin). cbn in Hall. subst q'. unfold request_of in Hq. rewrite Hroot in Hq.
    destruct (u_username u), (t_password t); try done; injection Hq as <-; cbn [rq_url rq_auth]; (split; [by eexists|]); [done|].
    destruct Hpw as (H1 & H2 & H3 & _). done.
  - assert (Hn : 0 < n_attempts (u_network u)) by (unfold download in Hin; destruct (Z.to_nat (n_attempts (u_network u))) eqn:E; [done|lia]).
    by rewrite (download_request _ _ _ _ _ _ Hq Hn) in Hin.
Qed.
