(* ===== verification/UpdateExamples.v ===== *)
(** The CDN updater at a concrete CDN: one whose first answers fail, in front of
    the directory [MasterExamples.input_a]. *)
From Stdlib Require Import ZArith Lia Ascii String List Bool.
From stdpp Require Import base list strings decidable gmap.
From S2P Require Import Prelude BTree Errors Regions Versions Http Environment Peer Upstream Rijndael MasterFiles MasterRegistry MasterHistory MasterChain MasterImport MasterService MasterSync MasterExamples MasterUpdate.

Local Open Scope Z_scope.
Local Open Scope rust_scope.

Definition updater : MasterUpdater :=
  mkUpdater {| hc_connect_ms := 10000; hc_timeout_ms := 60000; hc_proxy := None |} (Some "reader"%string) (decoder_new key vector) Jp
    network_master None.
Definition cdn : string := "https://cdn.example".
Definition target : MasterTarget := mkTarget "1.0" None cdn (Some "pw"%string).
Definition ok_body (b : list Z) : option http_response :=
  Some {| http_status := 200; http_headers := []; content_length := Some (Http.llen b); body_events := [Chunk b] |}.
Definition busy : option http_response := Some {| http_status := 503; http_headers := []; content_length := None; body_events := [] |}.

Definition manifest_bytes : list Z := Eval vm_compute in match input_a !! "MasterManifest.json"%string with Some (Regular b) => b | _ => [] end.
Definition manifest_a : Manifest := mkManifest "1.0" [entry_a].
Definition manifest_url : string := (cdn ++ "/master/1.0/MasterManifest.json")%string.
Definition card_url : string := (cdn ++ "/master/1.0/MasterCard.bin")%string.
Definition flaky : network := fun q i =>
  if i =? 0 then busy
  else if String.eqb (rq_url q) manifest_url then ok_body manifest_bytes
  else if String.eqb (rq_url q) card_url then ok_body encrypted_a
  else None.
Definition run : MasterUpdate.pass := mkPass (Ok tt) (Ok target) (Ok target) flaky None working working "x" 60 PublishOk.

Lemma flaky_serves : serves_input updater flaky target input_a manifest_a.
Proof.
  assert (Hm : MasterFiles.parse manifest_bytes = Ok manifest_a) by (vm_compute; reflexivity).
  assert (Hearly : forall q limit (i : nat), (i < 1)%nat -> exists e, receive (flaky q (Z.of_nat i)) limit = Err e /\ retryable e = true).
  { intros q limit i Hi. assert (i = 0%nat) as -> by lia. by exists (UHttp 503). }
  split; [|split; [done|]].
  - exists manifest_bytes. split; [vm_compute; reflexivity|]. split; [|done].
    exists (mkRequest manifest_url (Some ("reader", "pw")%string)), 1%nat. split; [done|]. split; [done|]. split; [apply Hearly|].
    vm_compute. reflexivity.
  - constructor; [|constructor]. exists encrypted_a. split; [vm_compute; reflexivity|].
    exists (mkRequest card_url (Some ("reader", "pw")%string)), 1%nat. split; [done|]. split; [done|]. split; [apply Hearly|].
    vm_compute. reflexivity.
Qed.

Lemma update_is_an_import_witness :
  installed_status empty_root Jp target = None /\
  MasterUpdate.update updater empty_root run =
    match prepare_directory input_a working (decoder_new key vector) "remote" None Jp "x" with
    | Err _ => (Err UMaster, [])
    | Ok prepared => let '(res, trace) := publish prepared empty_root 60 PublishOk in (rmap updated_value (stored res), trace)
    end.
Proof.
  assert (Hn : installed_status empty_root Jp target = None) by (vm_compute; reflexivity). split; [exact Hn|].
  exact (update_is_an_import updater empty_root run target input_a manifest_a eq_refl eq_refl eq_refl Hn flaky_serves eq_refl (fun _ => eq_refl)).
Defined.

(** The pass is evaluated once. *)
Definition updated : result UpdateError json * list root := Eval vm_compute in MasterUpdate.update updater empty_root run.
Lemma updated_eq : MasterUpdate.update updater empty_root run = updated.
Proof. vm_compute. reflexivity. Qed.

Lemma update_installs_only_the_cdn_witness :
  is_ok (fst updated) = true /\ installed_from jp updater run target (List.last (snd updated) empty_root).
Proof.
  split; [reflexivity|].
  destruct (update_installs_only_the_cdn jp ∅ empty_root updater run (fst updated) (snd updated) empty_held eq_refl eq_refl eq_refl
    (not_elem_of_empty _) updated_eq) as (_ & t & Ht & H).
  injection Ht as <-. destruct H as [(status & Hs & _)|H]; [|exact H]. exfalso. revert Hs. vm_compute. discriminate.
Defined.

Lemma example_status_reads_back : status_reads_back.
Proof.
  intros m snapshot source g resource b Hb. cbn [value_to_vec example_codecs] in Hb.
  destruct (from_to_vec (status_value m snapshot source g resource)) as (b' & H1 & H2 & _). rewrite H1 in Hb. injection Hb as <-.
  cbn [value_from_slice example_codecs]. unfold any_json. by rewrite H2.
Qed.

Lemma update_skips_exactly_an_installed_version_witness :
  exists doc p, manifest (fun _ => published_a) None jp = Ok doc /\ published_from_slice (d_bytes doc) = Some p /\
    exists status, MasterUpdate.update updater published_a run = (Ok (MasterUpdate.unchanged_value status), []).
Proof.
  destruct (held_served _ _ _ published_a_held) as [Hc|(doc & p & H1 & H2 & _)]; [exfalso; revert Hc; vm_compute; discriminate|].
  exists doc, p. split; [exact H1|]. split; [exact H2|].
  apply (update_skips_exactly_an_installed_version jp _ published_a doc p updater run target example_status_reads_back published_a_held H1 H2
    eq_refl eq_refl eq_refl).
  assert (Hv : rmap d_version (manifest (fun _ => published_a) None jp) = Ok "1.0"%string) by (vm_compute; reflexivity).
  assert (Hp : match manifest (fun _ => published_a) None jp with
               | Ok doc => option_map p_version (published_from_slice (d_bytes doc))
               | Err _ => None
               end = Some "1.0"%string) by (vm_compute; reflexivity).
  rewrite H1, H2 in Hp. injection Hp as Hp. split; [exact Hp|]. left. reflexivity.
Defined.

Definition card_request : Request := mkRequest card_url (Some ("reader", "pw")%string).
Lemma download_attempts_witness :
  network_validate network_master = Ok tt /\
  snd (download updater flaky target "MasterCard.bin" 96) = Ok encrypted_a /\
  exists k, fst (download updater flaky target "MasterCard.bin" 96) = attempts_log network_master card_request 0 k /\ (k <= 8)%nat.
Proof.
  split; [reflexivity|]. split; [vm_compute; reflexivity|].
  destruct (download_attempts updater flaky target "MasterCard.bin" 96 card_request eq_refl eq_refl) as (k & H1 & _ & H2 & _).
  exists k. split; [exact H1|exact H2].
Defined.

Definition game_config : ClientConfig :=
  {| cc_region := Jp; cc_platform := Ios; cc_client_version := "1.0.0"; cdn_credential_env := [(cdn, "CDN_PASSWORD"%string)];
     cdn_secrets := [(cdn, "pw"%string)]; cc_upstream := UpstreamConfig_default |}.
Definition game_observation : Observation :=
  {| observed_at := Some 1; grpc_status := Some 0; Peer.application_code := None; server_time := None; maintenance := false;
     master_version := Some "1.0"%string; resource_version := None |}.
Definition game_state : GameState :=
  mkGame game_observation (Some ("1.0"%string, None)) None false cdn true None None false None false.

Lemma cdn_password_stays_with_its_root_witness :
  refresh_master_target game_config cdn None (Ok tt) game_state = Ok target /\
  exists rest, card_url = (cdn ++ "/master/" ++ rest)%string.
Proof.
  split; [reflexivity|].
  assert (Hin : In (Sent card_request) (fst (download updater flaky target "MasterCard.bin" 96))) by (vm_compute; auto).
  exact (proj1 (cdn_password_stays_with_its_root game_config cdn None (Ok tt) game_state target updater flaky "MasterCard.bin" 96 card_request
    eq_refl eq_refl Hin)).
Defined.
