(* ===== verification/MasterDatabase.v ===== *)
(** The PostgreSQL mirror of Master snapshots ([master_database.rs]): the
    publication of the local snapshot, the migration of a committed history, and
    the reads.

    A database is its tables; a transaction is a sequence of statements, any of
    which may be interrupted, and a commit whose outcome may be unknown.  Writers
    are serialized by the advisory lock.  The server orders text by its own
    collation, a parameter; a timestamp is read as the instant it was written
    as.  Connections, TLS options and the time limit of a pool are external. *)
From Stdlib Require Import ZArith Lia Ascii String List Bool Sorted Permutation.
From stdpp Require Import base list strings decidable gmap sorting.
From S2P Require Import Prelude BTree Errors Regions Versions Http MasterFiles MasterRegistry MasterHistory MasterChain MasterImport MasterService MasterSync RegistryOwner.

Local Open Scope Z_scope.
Local Open Scope rust_scope.

Inductive DbError : Type := DbNotFound | DbInvalidRequest | DbConfig | DbSecret | DbSnapshot | DbDatabase | DbTimeout | DbIntegrity.
#[export] Instance DbError_eq_dec : EqDecision DbError.
Proof. solve_decision. Defined.

(** * Tables *)
Record SnapshotRow : Type := mkSnapshotRow { s_manifest : list Z; s_touched : Z }.
Record DocumentRow : Type := mkDocumentRow { d_sha256 : string; d_data : list Z; d_document : json }.
Record HistoryRow : Type := mkHistoryRow {
  ev_id : Z;
  ev_scope : string;
  ev_content_hash : string;
  ev_published_at : option Z;
  ev_version : option string;
  ev_resource_version : option string;
  ev_file_count : option Z;
  ev_total_size : option Z;
}.
Record MigrationRow : Type := mkMigrationRow { mg_source_hash : string; mg_head : string; mg_publications : Z; mg_legacy_boundary : bool }.

(** [SCHEMA] and [MIGRATION_SCHEMA] create the tables once; the sequence of the
    history does not roll back.  History is newest first. *)
Record db : Type := mkDb {
  has_schema : bool;
  has_migrations : bool;
  t_snapshots : gmap (string * string) SnapshotRow;
  t_documents : gmap (string * string * string) DocumentRow;
  t_history : list HistoryRow;
  t_next : Z;
  t_current : gmap string string;
  t_migrations : gmap string MigrationRow;
}.
Definition empty_db : db := mkDb false false ∅ ∅ [] 1 ∅ ∅.
Definition set_next (d : db) (n : Z) : db :=
  mkDb (has_schema d) (has_migrations d) (t_snapshots d) (t_documents d) (t_history d) n (t_current d) (t_migrations d).
Definition set_snapshots (d : db) (s : gmap (string * string) SnapshotRow) : db :=
  mkDb (has_schema d) (has_migrations d) s (t_documents d) (t_history d) (t_next d) (t_current d) (t_migrations d).
Definition set_documents (d : db) (s : gmap (string * string * string) DocumentRow) : db :=
  mkDb (has_schema d) (has_migrations d) (t_snapshots d) s (t_history d) (t_next d) (t_current d) (t_migrations d).

(** * Transactions *)

(** The next statement's number and the tables as the transaction sees them. *)
Definition tx (A : Type) : Type := nat -> db -> result DbError A * nat * db.
Definition tx_ret {A} (a : A) : tx A := fun n d => (Ok a, n, d).
Definition tx_lift {A} (x : result DbError A) : tx A := fun n d => (x, n, d).
Definition tx_bind {A B} (m : tx A) (k : A -> tx B) : tx B :=
  fun n d => match m n d with
             | (Ok a, n, d) => k a n d
             | (Err e, n, d) => (Err e, n, d)
             end.
Notation "x '<-tx' m ';;' k" := (tx_bind m (fun x => k))
  (at level 80, m at level 75, k at level 200, right associativity) : rust_scope.

(** How a commit ends: acknowledged, or not, and then done or not. *)
Inductive CommitIo : Type := Committed | Uncertain (e : DbError) (done : bool).
Definition roll_back (old work : db) : db := if has_schema old then set_next old (t_next work) else old.

Section transactions.
Context (interrupt : nat -> option DbError).

Definition stmt {A} (f : db -> result DbError (A * db)) : tx A :=
  fun n d => match interrupt n with
             | Some e => (Err e, S n, d)
             | None => match f d with
                       | Ok (a, d) => (Ok a, S n, d)
                       | Err e => (Err e, S n, d)
                       end
             end.
Definition query {A} (f : db -> A) : tx A := stmt (fun d => Ok (f d, d)).
Definition execute (f : db -> db) : tx unit := stmt (fun d => Ok (tt, f d)).
Definition try_execute (f : db -> option db) : tx unit :=
  stmt (fun d => match f d with Some d => Ok (tt, d) | None => Err DbDatabase end).

(** [begin], the body, and [commit]. *)
Definition run_tx {A} (body : tx A) (commit : CommitIo) (d : db) : result DbError A * db :=
  match tx_bind (query (fun _ => tt)) (fun _ => body) O d with
  | (Err e, _, work) => (Err e, roll_back d work)
  | (Ok a, _, work) =>
      match commit with
      | Committed => (Ok a, work)
      | Uncertain e true => (Err e, work)
      | Uncertain e false => (Err e, roll_back d work)
      end
  end.

(** * Statements *)
Definition create_schema (d : db) : db :=
  mkDb true (has_migrations d) (t_snapshots d) (t_documents d) (t_history d) (t_next d) (t_current d) (t_migrations d).
Definition create_migrations (d : db) : db :=
  mkDb (has_schema d) true (t_snapshots d) (t_documents d) (t_history d) (t_next d) (t_current d) (t_migrations d).

(** [ORDER BY]: a stable sort by a test. *)
Fixpoint insert_with {A} (le : A -> A -> bool) (x : A) (l : list A) : list A :=
  match l with
  | [] => [x]
  | y :: l' => if le x y then x :: l else y :: insert_with le x l'
  end.
Definition order_by {A} (le : A -> A -> bool) (l : list A) : list A := List.fold_right (insert_with le) [] l.

Definition in_scope {V} (k : string) (kv : string * string * V) : bool := String.eqb (fst (fst kv)) k.
Definition snapshots_of (k : string) (d : db) : list (string * SnapshotRow) :=
  map (fun kv => (snd (fst kv), snd kv)) (List.filter (in_scope k) (map_to_list (t_snapshots d))).
Definition documents_of (k h : string) (d : db) : list (string * DocumentRow) :=
  map (fun kv => (snd (fst kv), snd kv))
    (List.filter (fun kv => bool_decide (fst (fst kv) = (k, h))) (map_to_list (t_documents d))).

Definition insert_snapshot (k h : string) (manifest : list Z) (d : db) : option db :=
  match t_snapshots d !! (k, h) with
  | Some _ => None
  | None => Some (set_snapshots d (<[(k, h) := mkSnapshotRow manifest 0]> (t_snapshots d)))
  end.
Definition insert_document (k h name : string) (row : DocumentRow) (d : db) : option db :=
  match t_snapshots d !! (k, h), t_documents d !! (k, h, name) with
  | Some _, None => Some (set_documents d (<[(k, h, name) := row]> (t_documents d)))
  | _, _ => None
  end.
Definition update_manifest (k h : string) (manifest : list Z) (d : db) : db :=
  set_snapshots d (alter (fun row => mkSnapshotRow manifest (s_touched row)) (k, h) (t_snapshots d)).
Definition update_touched (k h : string) (touched : Z) (d : db) : db :=
  set_snapshots d (alter (fun row => mkSnapshotRow (s_manifest row) touched) (k, h) (t_snapshots d)).
Definition insert_event (row : Z -> HistoryRow) (d : db) : Z * db :=
  (t_next d, mkDb (has_schema d) (has_migrations d) (t_snapshots d) (t_documents d) (row (t_next d) :: t_history d) (t_next d + 1)
               (t_current d) (t_migrations d)).
Definition upsert_current (k h : string) (d : db) : option db :=
  match t_snapshots d !! (k, h) with
  | Some _ => Some (mkDb (has_schema d) (has_migrations d) (t_snapshots d) (t_documents d) (t_history d) (t_next d)
                      (<[k := h]> (t_current d)) (t_migrations d))
  | None => None
  end.
Definition insert_migration (k : string) (row : MigrationRow) (d : db) : option db :=
  match t_migrations d !! k with
  | Some _ => None
  | None => Some (mkDb (has_schema d) (has_migrations d) (t_snapshots d) (t_documents d) (t_history d) (t_next d)
                    (t_current d) (<[k := row]> (t_migrations d)))
  end.

(** The [DELETE] of retention: everything of the scope but [h] and the [keep]
    most recently touched; it cascades to the documents and fails on a snapshot
    that is current. *)
Definition newer (a b : string * SnapshotRow) : bool :=
  (s_touched (snd b) <? s_touched (snd a)) || (s_touched (snd a) =? s_touched (snd b)) && sleb (fst a) (fst b).
Definition kept (k : string) (keep : Z) (d : db) : list string :=
  map fst (take (Z.to_nat keep) (order_by newer (snapshots_of k d))).
Definition deleted (k h : string) (keep : Z) (d : db) (h' : string) : bool :=
  negb (String.eqb h' h) && negb (mem h' (kept k keep d)).
Definition delete_old (k h : string) (keep : Z) (d : db) : option db :=
  if some_and (t_current d !! k) (fun c => is_some (t_snapshots d !! (k, c)) && deleted k h keep d c) then None
  else Some (set_documents
    (set_snapshots d (filter (fun kv => ~ (fst (fst kv) = k /\ deleted k h keep d (snd (fst kv)) = true)) (t_snapshots d)))
    (filter (fun kv => ~ (fst (fst (fst kv)) = k /\ deleted k h keep d (snd (fst (fst kv))) = true)) (t_documents d))).

(** * Publication *)
Definition Snapshot : Type := PublishedManifest * list Z * list (File * list Z * json).

Section publication.
Context `{MasterCodecs} (scope_to_string : Scope -> option string) (collate : string -> string -> bool).

(** [zip] of the stored rows and the snapshot's tables. *)
Fixpoint same_documents (rows : list (string * DocumentRow)) (tables : list (File * list Z * json)) : bool :=
  match rows, tables with
  | (name, row) :: rows, (file, bytes, value) :: tables =>
      String.eqb name (f_name file) && String.eqb (d_sha256 row) (f_sha256 file)
      && bool_decide (d_data row = bytes) && json_eqb (d_document row) value && same_documents rows tables
  | _, _ => true
  end.
Fixpoint insert_documents (k h : string) (tables : list (File * list Z * json)) : tx unit :=
  match tables with
  | [] => tx_ret tt
  | (file, bytes, value) :: tables =>
      _ <-tx try_execute (insert_document k h (f_name file) (mkDocumentRow (f_sha256 file) bytes value));;
      insert_documents k h tables
  end.

Definition store_snapshot (keep : Z) (snapshot : Snapshot) (publication : option (option Z)) (now : Z) : tx Receipt :=
  let '(manifest, manifest_bytes, tables) := snapshot in
  k <-tx tx_lift (ok_or (scope_to_string (p_scope manifest)) DbSnapshot);;
  let hash := content_sha256 manifest in
  current <-tx query (fun d => t_current d !! k);;
  existing <-tx query (fun d => option_map s_manifest (t_snapshots d !! (k, hash)));;
  _ <-tx match existing with
         | Some bytes =>
             saved <-tx tx_lift (ok_or (published_from_slice bytes) DbIntegrity);;
             _ <-tx tx_lift (ensure (is_ok (published_validate saved (p_scope manifest))) DbIntegrity);;
             _ <-tx tx_lift (ensure (String.eqb (content_sha256 saved) hash) DbIntegrity);;
             rows <-tx query (fun d => order_by (fun a b => collate (fst a) (fst b)) (documents_of k hash d));;
             _ <-tx tx_lift (ensure (Nat.eqb (length rows) (length tables)) DbIntegrity);;
             _ <-tx tx_lift (ensure (same_documents rows tables) DbIntegrity);;
             if is_some (p_resource_version manifest) && negb (bool_decide (p_resource_version saved = p_resource_version manifest))
             then execute (update_manifest k hash manifest_bytes)
             else tx_ret tt
         | None =>
             _ <-tx try_execute (insert_snapshot k hash manifest_bytes);;
             insert_documents k hash tables
         end;;
  let bytes := List.fold_right (fun x t => f_size (fst (fst x)) + t) 0 tables in
  let changed := is_some publication || negb (bool_decide (current = Some hash)) in
  _ <-tx (if changed
          then
            _ <-tx tx_lift (ensure (bytes <=? I64_MAX) DbSnapshot);;
            sequence <-tx stmt (fun d => Ok (insert_event (fun id =>
                mkHistoryRow id k hash (Some (match publication with Some (Some t) => t | _ => now end)) (Some (p_version manifest))
                  (p_resource_version manifest) (Some (Z.of_nat (length tables))) (Some bytes)) d));;
            _ <-tx execute (update_touched k hash sequence);;
            try_execute (upsert_current k hash)
          else tx_ret tt);;
  _ <-tx try_execute (delete_old k hash keep);;
  tx_ret (mkDbReceipt hash (Z.of_nat (length tables)) bytes changed).

Definition publish_snapshot (keep : Z) (snapshot : Snapshot) (now : Z) : tx Receipt :=
  _ <-tx execute id;;                     (* the advisory lock *)
  _ <-tx execute create_schema;;
  store_snapshot keep snapshot None now.

(** [publish]: the configuration, the local verification, the credentials and
    the connection come first. *)
Definition publish (config options connected : result DbError unit) (v : view) (scope : Scope) (keep now : Z) (commit : CommitIo) (d : db)
  : result DbError Receipt * db :=
  match (_ <-? config;;
         snapshot <-? ok_or (verified_snapshot scope v None) DbSnapshot;;
         _ <-? options;;
         _ <-? connected;;
         Ok snapshot) with
  | Err e => (Err e, d)
  | Ok snapshot => run_tx (publish_snapshot keep snapshot now) commit d
  end.

(** * Migration *)
Record MigrationReceipt : Type := mkMigrationReceipt {
  mr_head : string;
  mr_source_sha256 : string;
  mr_publications : Z;
  mr_legacy_boundary : bool;
  mr_retention_boundary : bool;
  mr_changed : bool;
}.

Definition occupied (k : string) (d : db) : bool :=
  negb (Nat.eqb (length (snapshots_of k d)) 0) || is_some (t_current d !! k)
  || List.existsb (fun ev => String.eqb (ev_scope ev) k) (t_history d).

(** The loop over the oldest entries first, each verified again. *)
Fixpoint migrate_entries (v : view) (scope : Scope) (keep now : Z) (es : list HistoryEntry) : tx unit :=
  match es with
  | [] => tx_ret tt
  | e :: es =>
      snapshot <-tx tx_lift (ok_or (verified_snapshot scope v (Some (h_snapshot e))) DbSnapshot);;
      _ <-tx tx_lift (ensure (String.eqb (content_sha256 (fst (fst snapshot))) (h_content_sha256 e)) DbSnapshot);;
      _ <-tx store_snapshot keep snapshot (Some (h_published_at e)) now;;
      migrate_entries v scope keep now es
  end.

Definition migrate_transaction (keep : Z) (v : view) (history : History) (source_sha256 : string) (now : Z) : tx MigrationReceipt :=
  _ <-tx execute id;;
  _ <-tx execute create_schema;;
  _ <-tx execute create_migrations;;
  k <-tx tx_lift (ok_or (scope_to_string (hist_scope history)) DbSnapshot);;
  saved <-tx query (fun d => t_migrations d !! k);;
  let receipt := mkMigrationReceipt (hist_head history) source_sha256 (Z.of_nat (length (entries history))) (legacy_boundary history)
                   (retention_boundary_flag history) in
  match saved with
  | Some row =>
      _ <-tx tx_lift (ensure (String.eqb (mg_source_hash row) source_sha256 && String.eqb (mg_head row) (hist_head history)
                             && (mg_publications row =? Z.of_nat (length (entries history)))
                             && Bool.eqb (mg_legacy_boundary row) (legacy_boundary history)) DbIntegrity);;
      tx_ret (receipt false)
  | None =>
      taken <-tx query (occupied k);;
      _ <-tx tx_lift (ensure (negb taken) DbIntegrity);;
      _ <-tx migrate_entries v (hist_scope history) keep now (rev (entries history));;
      _ <-tx try_execute (insert_migration k (mkMigrationRow source_sha256 (hist_head history) (Z.of_nat (length (entries history)))
                                               (legacy_boundary history)));;
      tx_ret (receipt true)
  end.

(** The frozen part of a history: a plan's digest does not follow the fields a
    later version adds to its entries. *)
Record PlanEntryV1 : Type := mkPlanEntryV1 {
  pe_snapshot : string;
  pe_version : string;
  pe_content_sha256 : string;
  pe_published_at : option Z;
  pe_file_count : Z;
  pe_total_size : Z;
}.
Record PlanV1 : Type := mkPlanV1 {
  pl_schema_version : Z;
  pl_scope : Scope;
  pl_head : string;
  pl_entries : list PlanEntryV1;
  pl_has_more : bool;
  pl_next_before : option string;
  pl_legacy_boundary : bool;
  pl_retention_boundary : bool;
}.
Definition plan_v1 (history : History) : PlanV1 :=
  mkPlanV1 (hist_schema_version history) (hist_scope history) (hist_head history)
    (map (fun e => mkPlanEntryV1 (h_snapshot e) (h_version e) (h_content_sha256 e) (h_published_at e) (h_file_count e) (h_total_size e)) (entries history))
    (has_more history) (next_before history) (legacy_boundary history) (retention_boundary_flag history).
Definition migration_plan_digest (plan_to_vec : PlanV1 -> option (list Z)) (history : History) : result DbError string :=
  match plan_to_vec (plan_v1 history) with Some bytes => Ok (digest bytes) | None => Err DbSnapshot end.

(** [migrate_history]: the whole plan is verified before a connection is opened;
    [plan_to_vec] writes a plan as JSON. *)
Definition migration_plan (v : view) (scope : Scope) : option History :=
  match committed_history v scope with
  | Err _ => None
  | Ok history =>
      if forallb (fun e => match verified_snapshot scope v (Some (h_snapshot e)) with
                           | Some (m, _, _) => String.eqb (content_sha256 m) (h_content_sha256 e)
                           | None => false
                           end) (entries history)
      then Some history else None
  end.
Definition migrate_history (plan_to_vec : PlanV1 -> option (list Z)) (config options connected : result DbError unit) (v after : view)
    (scope : Scope) (keep now : Z) (commit : CommitIo) (d : db) : result DbError MigrationReceipt * db :=
  match (_ <-? config;;
         history <-? ok_or (migration_plan v scope) DbSnapshot;;
         source_sha256 <-? migration_plan_digest plan_to_vec history;;
         _ <-? options;;
         _ <-? connected;;
         Ok (history, source_sha256)) with
  | Err e => (Err e, d)
  | Ok (history, source_sha256) => run_tx (migrate_transaction keep after history source_sha256 now) commit d
  end.

(** * Reads *)
Definition MAX_DB_MANIFEST : Z := 1048576.
Definition MAX_DB_TABLE : Z := 67108864.

Definition existing_tables (d : db) : result DbError unit := ensure (has_schema d) DbDatabase.

(** [Reader::document] in one repeatable-read transaction. *)
Definition document_inner (scope : Scope) (hash table : option string) : tx Document :=
  k <-tx tx_lift (ok_or (scope_to_string scope) DbConfig);;
  _ <-tx query (fun _ => tt);;
  row <-tx stmt (fun d =>
    _ <-? existing_tables d;;
    Ok (match match hash with Some h => Some h | None => t_current d !! k end with
        | Some h => option_map (fun row => (h, if llen (s_manifest row) <=? MAX_DB_MANIFEST then Some (s_manifest row) else None))
                      (t_snapshots d !! (k, h))
        | None => None
        end, d));;
  row <-tx tx_lift (ok_or row DbNotFound);;
  let selected := fst row in
  manifest_bytes <-tx tx_lift (ok_or (snd row) DbIntegrity);;
  manifest <-tx tx_lift (ok_or (published_from_slice manifest_bytes) DbIntegrity);;
  _ <-tx tx_lift (ensure (is_ok (published_validate manifest scope)) DbIntegrity);;
  _ <-tx tx_lift (ensure (String.eqb (content_sha256 manifest) selected && none_or hash (String.eqb selected)) DbIntegrity);;
  bytes <-tx match table with
             | None => tx_ret manifest_bytes
             | Some table =>
                 let name := (table ++ ".json")%string in
                 expected <-tx tx_lift (ok_or (List.find (fun f => String.eqb (f_name f) name) (p_files manifest)) DbNotFound);;
                 row <-tx query (fun d => option_map (fun row => (d_sha256 row, if llen (d_data row) <=? MAX_DB_TABLE then Some (d_data row) else None))
                                           (t_documents d !! (k, selected, name)));;
                 row <-tx tx_lift (ok_or row DbIntegrity);;
                 data <-tx tx_lift (ok_or (snd row) DbIntegrity);;
                 _ <-tx tx_lift (ensure ((llen data =? f_size expected) && String.eqb (fst row) (f_sha256 expected)
                                        && String.eqb (digest data) (f_sha256 expected)) DbIntegrity);;
                 _ <-tx tx_lift (ensure (is_ok (validate_json data)) DbIntegrity);;
                 tx_ret data
             end;;
  _ <-tx query (fun _ => tt);;            (* the commit *)
  tx_ret (mkDocument bytes (quoted (digest bytes)) (p_version manifest)).
Definition document (scope : Scope) (hash table : option string) (d : db) : result DbError Document :=
  if negb (master_supported (region scope)) || some_and hash (fun h => negb (hash_valid h))
     || some_and table (fun t => is_none hash || negb (safe_component t))
  then Err DbInvalidRequest
  else fst (fst (tx_bind (query (fun _ => tt)) (fun _ => document_inner scope hash table) O d)).

(** A page of events: a row is checked before it is answered. *)
Record DbHistoryEntry : Type := mkDbHistoryEntry {
  he_sequence : Z;
  he_content_sha256 : string;
  he_retained : bool;
  he_published_at : Z;
  he_version : option string;
  he_resource_version : option string;
  he_file_count : option Z;
  he_total_size : option Z;
}.
(** [substr(text, 1, 257)] of the statement. *)
Definition cut_text (s : string) : string := String.substring 0 257 s.
Definition history_entry (retained : bool) (row : HistoryRow) : result DbError DbHistoryEntry :=
  published_at <-? ok_or (ev_published_at row) DbIntegrity;;
  counts <-? match ev_version row, ev_file_count row, ev_total_size row with
             | None, None, None => Ok (None, None)
             | Some _, Some count, Some total =>
                 if (1 <=? count) && (count <=? total) && (total <=? MAX_TOTAL) then Ok (Some count, Some total) else Err DbIntegrity
             | _, _, _ => Err DbIntegrity
             end;;
  guard? negb ((ev_id row <=? 0) || negb (hash_valid (ev_content_hash row))
               || (is_some (ev_resource_version row) && is_none (ev_version row))
               || some_and (ev_version row) (fun v => negb (safe_version v))
               || some_and (ev_resource_version row) (fun v => negb (safe_version v))) else DbIntegrity;;
  Ok (mkDbHistoryEntry (ev_id row) (ev_content_hash row) retained published_at (ev_version row) (ev_resource_version row)
        (fst counts) (snd counts)).
Definition select_history (k : string) (before : option Z) (limit : Z) (d : db) : list (bool * HistoryRow) :=
  map (fun ev => (is_some (t_snapshots d !! (k, ev_content_hash ev)),
                  mkHistoryRow (ev_id ev) (ev_scope ev) (ev_content_hash ev) (ev_published_at ev) (option_map cut_text (ev_version ev))
                    (option_map cut_text (ev_resource_version ev)) (ev_file_count ev) (ev_total_size ev)))
    (take (Z.to_nat limit) (List.filter (fun ev => String.eqb (ev_scope ev) k && none_or before (fun b => ev_id ev <? b)) (t_history d))).
Fixpoint history_entries (rows : list (bool * HistoryRow)) : result DbError (list DbHistoryEntry) :=
  match rows with
  | [] => Ok []
  | (retained, row) :: rows => e <-? history_entry retained row;; es <-? history_entries rows;; Ok (e :: es)
  end.
Definition history_page (scope : Scope) (limit : Z) (before : option Z) (d : db) : result DbError (list DbHistoryEntry * option Z) :=
  if negb (master_supported (region scope)) || negb (in_range 1 200 limit) || some_and before (fun n => n <=? 0)
  then Err DbInvalidRequest
  else
    k <-? ok_or (scope_to_string scope) DbConfig;;
    rows <-? fst (fst (stmt (fun d => _ <-? existing_tables d;; Ok (select_history k before (limit + 1) d, d)) O d));;
    es <-? history_entries (take (Z.to_nat limit) rows);;
    Ok (es, if limit <? Z.of_nat (length rows) then option_map he_sequence (last es) else None).
End publication.
End transactions.

(** * Lemmas: transactions *)
Section tx_facts.
Context (interrupt : nat -> option DbError).

Lemma tx_bind_ok {A B} (m : tx A) (k : A -> tx B) n d b n' d' :
  tx_bind m k n d = (Ok b, n', d') -> exists a n1 d1, m n d = (Ok a, n1, d1) /\ k a n1 d1 = (Ok b, n', d').
Proof. unfold tx_bind. destruct (m n d) as [[[a|e] n1] d1]; [|done]. eauto. Qed.
Lemma tx_ret_ok {A} (a : A) n d b n' d' : tx_ret a n d = (Ok b, n', d') -> b = a /\ d' = d.
Proof. by intros [= <- <- <-]. Qed.
Lemma tx_lift_ok {A} (x : result DbError A) n d a n' d' : tx_lift x n d = (Ok a, n', d') -> x = Ok a /\ d' = d.
Proof. unfold tx_lift. by intros [= -> <- <-]. Qed.
Lemma stmt_ok {A} (f : db -> result DbError (A * db)) n d a n' d' :
  stmt interrupt f n d = (Ok a, n', d') -> f d = Ok (a, d').
Proof. unfold stmt. destruct (interrupt n); [done|]. destruct (f d) as [[a' d1]|]; [|done]. by intros [= <- <- <-]. Qed.
Lemma query_ok {A} (f : db -> A) n d a n' d' : query interrupt f n d = (Ok a, n', d') -> a = f d /\ d' = d.
Proof. intros Hq. apply stmt_ok in Hq. by injection Hq as <- <-. Qed.
Lemma execute_ok f n d u n' d' : execute interrupt f n d = (Ok u, n', d') -> d' = f d.
Proof. intros Hq. apply stmt_ok in Hq. by injection Hq as <- <-. Qed.
Lemma try_execute_ok f n d u n' d' : try_execute interrupt f n d = (Ok u, n', d') -> f d = Some d'.
Proof. intros Hq. apply stmt_ok in Hq. destruct (f d); [by injection Hq as <- <-|done]. Qed.

(** What a transaction that fails may leave behind: a longer sequence. *)
Definition grows {A} (m : tx A) : Prop := forall n d, t_next d <= t_next (snd (m n d)).
Lemma grows_bind {A B} (m : tx A) (k : A -> tx B) : grows m -> (forall a, grows (k a)) -> grows (tx_bind m k).
Proof.
  intros Hm Hk n d. unfold tx_bind. specialize (Hm n d). destruct (m n d) as [[[a|e] n1] d1]; [|done].
  specialize (Hk a n1 d1). cbn [snd] in *. lia.
Qed.
Lemma grows_pure {A} (m : tx A) : (forall n d, snd (m n d) = d) -> grows m.
Proof. intros Hm n d. rewrite Hm. lia. Qed.
Lemma grows_ret {A} (a : A) : grows (tx_ret a).
Proof. by apply grows_pure. Qed.
Lemma grows_lift {A} (x : result DbError A) : grows (tx_lift x).
Proof. by apply grows_pure. Qed.
Lemma grows_stmt {A} (f : db -> result DbError (A * db)) :
  (forall d a d', f d = Ok (a, d') -> t_next d <= t_next d') -> grows (stmt interrupt f).
Proof.
  intros Hf n d. unfold stmt. destruct (interrupt n); [cbn; lia|]. destruct (f d) as [[a d']|] eqn:E; cbn; [by eapply Hf|lia].
Qed.
Lemma grows_query {A} (f : db -> A) : grows (query interrupt f).
Proof. apply grows_stmt. intros d a d' [= _ <-]. lia. Qed.
Lemma grows_execute f : (forall d, t_next (f d) = t_next d) -> grows (execute interrupt f).
Proof. intros Hf. apply grows_stmt. intros d a d' [= _ <-]. rewrite Hf. lia. Qed.
Lemma grows_try f : (forall d d', f d = Some d' -> t_next d' = t_next d) -> grows (try_execute interrupt f).
Proof.
  intros Hf. apply grows_stmt. intros d a d' E. destruct (f d) eqn:Ef; [|done]. injection E as <- <-. rewrite (Hf _ _ Ef). lia.
Qed.
End tx_facts.

Create HintDb grows.
#[export] Hint Resolve grows_bind grows_ret grows_lift grows_query grows_execute grows_try : grows.

Ltac tx_inv :=
  repeat match goal with
  | H : tx_bind _ _ _ _ = (Ok _, _, _) |- _ => apply tx_bind_ok in H as (? & ? & ? & ? & H)
  | H : tx_ret _ _ _ = (Ok _, _, _) |- _ => apply tx_ret_ok in H as (? & ?)
  | H : tx_lift (ensure _ _) _ _ = (Ok _, _, _) |- _ => apply tx_lift_ok in H as (H & ?); apply ensure_ok in H
  | H : tx_lift _ _ _ = (Ok _, _, _) |- _ => apply tx_lift_ok in H as (? & ?)
  | H : query _ _ _ _ = (Ok _, _, _) |- _ => apply query_ok in H as (? & ?)
  | H : execute _ _ _ _ = (Ok _, _, _) |- _ => apply execute_ok in H
  | H : try_execute _ _ _ _ = (Ok _, _, _) |- _ => apply try_execute_ok in H
  | H : stmt _ _ _ _ = (Ok _, _, _) |- _ => apply stmt_ok in H
  end; subst.

Section grows_facts.
Context `{MasterCodecs} (scope_to_string : Scope -> option string) (collate : string -> string -> bool) (interrupt : nat -> option DbError).

Lemma insert_snapshot_next k h b d d' : insert_snapshot k h b d = Some d' -> t_next d' = t_next d.
Proof. unfold insert_snapshot. destruct (t_snapshots d !! _); [done|]. by intros [= <-]. Qed.
Lemma insert_document_next k h n row d d' : insert_document k h n row d = Some d' -> t_next d' = t_next d.
Proof. unfold insert_document. destruct (t_snapshots d !! (k, h)), (t_documents d !! (k, h, n)); try done. by intros [= <-]. Qed.
Lemma upsert_current_next k h d d' : upsert_current k h d = Some d' -> t_next d' = t_next d.
Proof. unfold upsert_current. destruct (t_snapshots d !! _); [|done]. by intros [= <-]. Qed.
Lemma insert_migration_next k row d d' : insert_migration k row d = Some d' -> t_next d' = t_next d.
Proof. unfold insert_migration. destruct (t_migrations d !! _); [done|]. by intros [= <-]. Qed.
Lemma delete_old_next k h keep d d' : delete_old k h keep d = Some d' -> t_next d' = t_next d.
Proof. unfold delete_old. destruct (some_and _ _); [done|]. by intros [= <-]. Qed.
Hint Resolve insert_snapshot_next insert_document_next upsert_current_next insert_migration_next delete_old_next : grows.

Lemma insert_documents_grows k h tables : grows (insert_documents interrupt k h tables).
Proof. induction tables as [|[[f b] v] ts IH]; cbn; eauto with grows. Qed.

Lemma store_snapshot_grows keep s publication now : grows (store_snapshot interrupt scope_to_string collate keep s publication now).
Proof.
  destruct s as [[m mb] ts]. unfold store_snapshot.
  apply grows_bind; [eauto with grows|intros k]. apply grows_bind; [eauto with grows|intros current].
  apply grows_bind; [eauto with grows|intros existing]. apply grows_bind.
  { destruct existing as [b|].
    - do 6 (apply grows_bind; [eauto with grows|intros ?]). destruct (_ && _); [by apply grows_execute|apply grows_ret].
    - apply grows_bind; [eauto with grows|intros _; apply insert_documents_grows]. }
  intros _. apply grows_bind; [|intros _; eauto with grows].
  destruct (_ || _); [|apply grows_ret]. apply grows_bind; [eauto with grows|intros _]. apply grows_bind.
  { apply grows_stmt. intros d a d' [= _ <-]. cbn. lia. }
  intros sequence. apply grows_bind; [by apply grows_execute|eauto with grows].
Qed.

Lemma publish_snapshot_grows keep s now : grows (publish_snapshot interrupt scope_to_string collate keep s now).
Proof. apply grows_bind; [by apply grows_execute|intros _]. apply grows_bind; [by apply grows_execute|intros _]. apply store_snapshot_grows. Qed.

Lemma migrate_entries_grows v scope keep now es : grows (migrate_entries interrupt scope_to_string collate v scope keep now es).
Proof.
  induction es as [|e es IH]; cbn; [apply grows_ret|]. do 2 (apply grows_bind; [eauto with grows|intros ?]).
  apply grows_bind; [apply store_snapshot_grows|done].
Qed.

Lemma migrate_transaction_grows keep v history sha now : grows (migrate_transaction interrupt scope_to_string collate keep v history sha now).
Proof.
  unfold migrate_transaction. do 3 (apply grows_bind; [by apply grows_execute|intros _]). do 2 (apply grows_bind; [eauto with grows|intros ?]).
  match goal with |- grows (match ?x with _ => _ end) => destruct x end; [eauto with grows|].
  do 2 (apply grows_bind; [eauto with grows|intros ?]). apply grows_bind; [apply migrate_entries_grows|eauto with grows].
Qed.
End grows_facts.

(** * Lemmas: verified snapshots *)
Section verified_facts.
Context `{!MasterCodecs, !MasterCodecsOk}.

(** A manifest with the bytes it was read from and one table per file. *)
Record verified_ok (scope : Scope) (m : PublishedManifest) (mb : list Z) (tables : list (File * list Z * json)) : Prop := {
  vo_bytes : published_from_slice mb = Some m;
  vo_valid : published_validate m scope = Ok tt;
  vo_files : map (fun x => fst (fst x)) tables = p_files m;
  vo_tables : Forall (fun x => is_file (fst (fst x)) (snd (fst x)) /\ value_from_slice (snd (fst x)) = Some (snd x)) tables;
}.

Lemma verified_tables_ok scope v s fs tables :
  verified_tables scope v s fs = Some tables ->
  map (fun x => fst (fst x)) tables = fs /\
  Forall (fun x => is_file (fst (fst x)) (snd (fst x)) /\ value_from_slice (snd (fst x)) = Some (snd x)) tables.
Proof.
  revert tables. induction fs as [|f fs IH]; intros tables; cbn [verified_tables]; [intros [= <-]; split; [done|constructor]|].
  destruct (strip_suffix _ _) as [name|]; [|done]. destruct (table v (region scope) s name (f_sha256 f)) as [doc|] eqn:Et; [|done].
  destruct (Z.eqb_spec (Http.llen (d_bytes doc)) (f_size f)) as [Hl|]; cbn [negb]; [|done]. destruct (value_from_slice (d_bytes doc)) as [value|] eqn:Ev; [|done].
  destruct (verified_tables scope v s fs) as [ts|]; [|done]. intros [= <-]. destruct (IH ts eq_refl) as [H1 H2].
  apply table_read_facts in Et as [Hj Hd]. split; [cbn; by rewrite H1|]. constructor; [|done]. cbn [fst snd]. split; [|done].
  split; [done|]. split; [done|done].
Qed.

Lemma verified_snapshot_ok scope v id m mb tables :
  verified_snapshot scope v id = Some (m, mb, tables) -> verified_ok scope m mb tables.
Proof.
  unfold verified_snapshot. destruct (manifest v id scope) as [doc|]; [|done]. destruct (published_from_slice (d_bytes doc)) as [m'|] eqn:Ep; [|done].
  destruct (is_ok (published_validate m' scope)) eqn:Ev; [|done]. destruct (verified_tables scope v (p_snapshot m') (p_files m')) as [ts|] eqn:Et; [|done].
  intros [= <- <- <-]. apply verified_tables_ok in Et as [H1 H2]. constructor; try done. by destruct (published_validate m' scope) as [[]|].
Qed.

Lemma verified_scope scope m mb tables : verified_ok scope m mb tables -> p_scope m = scope.
Proof. intros Hv. apply (po_scope scope), published_validate_ok, Hv. Qed.

Lemma published_hash_valid scope m : published_validate m scope = Ok tt -> hash_valid (content_sha256 m) = true.
Proof.
  intros Hv. pose proof (po_content _ _ (published_validate_ok scope m Hv)) as Hc. unfold content_hash in Hc.
  apply rbind_ok in Hc as (b & _ & [= <-]). apply digest_valid.
Qed.

Lemma verified_names scope m mb tables : verified_ok scope m mb tables -> NoDup (map f_name (p_files m)).
Proof. intros Hv. apply (published_names_nodup scope), published_validate_ok, Hv. Qed.

(** What an event records of a verified snapshot. *)
Lemma verified_counts scope m mb tables :
  verified_ok scope m mb tables ->
  let total := List.fold_right (fun x t => f_size (fst (fst x)) + t) 0 tables in
  1 <= Z.of_nat (length tables) <= total /\ total <= MAX_TOTAL.
Proof.
  intros Hv total. pose proof (published_validate_ok scope m (vo_valid _ _ _ _ Hv)) as Hok.
  destruct (inventory_validate_ok _ _ (po_index _ _ Hok)) as (_ & _ & _ & Hfs & Htot & Hlen). cbn in Hfs, Htot, Hlen.
  pose proof (mo_count _ (check_manifest_ok _ (po_source _ _ Hok))) as Hcount. rewrite <- (vo_files _ _ _ _ Hv) in Hlen, Hfs, Htot. rewrite length_map in Hlen.
  assert (Hpos : Z.of_nat (length tables) <= total).
  { pose proof (vo_tables _ _ _ _ Hv) as Ht. clear - Ht Hfs. subst total. induction Ht as [|[[f b] v] ts ((Hl & _) & _) _ IH]; [cbn; lia|].
    cbn [map] in Hfs. apply Forall_cons in Hfs as [Hf Hfs]. specialize (IH Hfs). cbn [fst snd length List.fold_right] in *.
    pose proof (fo_size _ Hf). pose proof (llen_nonneg b). lia. }
  split; [lia|]. replace total with (total_size (map (fun x : File * list Z * json => fst (fst x)) tables)); [done|].
  subst total. clear. induction tables as [|x ts IH]; [done|]. cbn. by rewrite <- IH.
Qed.
End verified_facts.

(** * The invariant of the tables *)
Section invariant.
Context `{!MasterCodecs, !MasterCodecsOk} (scope_to_string : Scope -> option string).

(** A stored snapshot: a manifest that validates for the scope of its key and has
    the content of its row, with exactly the documents it lists. *)
Definition row_ok (k h : string) (d : db) (row : SnapshotRow) : Prop :=
  exists scope p, scope_to_string scope = Some k /\ published_from_slice (s_manifest row) = Some p /\
    published_validate p scope = Ok tt /\ content_sha256 p = h /\
    forall name, match t_documents d !! (k, h, name) with
                 | None => ~ In name (map f_name (p_files p))
                 | Some doc => exists f, In f (p_files p) /\ f_name f = name /\ d_sha256 doc = f_sha256 f /\ is_file f (d_data doc)
                 end.
Record db_ok (d : db) : Prop := {
  ok_rows : forall k h row, t_snapshots d !! (k, h) = Some row -> row_ok k h d row /\ 0 <= s_touched row < t_next d;
  ok_documents : forall k h n doc, t_documents d !! (k, h, n) = Some doc -> is_Some (t_snapshots d !! (k, h));
  ok_current : forall k h, t_current d !! k = Some h -> exists row, t_snapshots d !! (k, h) = Some row /\ 0 < s_touched row /\
    forall h' row', t_snapshots d !! (k, h') = Some row' -> h' <> h -> s_touched row' < s_touched row;
  ok_history : Forall (fun ev => ev_id ev < t_next d /\ forall retained, is_ok (history_entry retained ev) = true) (t_history d);
  ok_order : StronglySorted (fun a b => ev_id b < ev_id a) (t_history d);
  ok_next : 1 <= t_next d;
}.

Lemma empty_db_ok : db_ok empty_db.
Proof. constructor; cbn; try constructor; try lia; intros; by rewrite lookup_empty in *. Qed.

Lemma db_ok_next d n : db_ok d -> t_next d <= n -> db_ok (set_next d n).
Proof.
  intros [H1 H2 H3 H4 H5 H6] Hn. constructor; cbn; try done; [| |lia].
  - intros k h row Hr. destruct (H1 k h row Hr) as [H7 H8]. split; [exact H7|lia].
  - eapply Forall_impl; [exact H4|]. intros ev [H7 H8]. split; [lia|done].
Qed.

Lemma db_ok_schema d : db_ok d -> db_ok (create_schema d).
Proof. by intros [H1 H2 H3 H4 H5 H6]; constructor. Qed.
Lemma db_ok_migrations d : db_ok d -> db_ok (create_migrations d).
Proof. by intros [H1 H2 H3 H4 H5 H6]; constructor. Qed.
Lemma db_ok_migration k row d d' : insert_migration k row d = Some d' -> db_ok d -> db_ok d'.
Proof. unfold insert_migration. destruct (t_migrations d !! _); [done|]. intros [= <-]. by intros [H1 H2 H3 H4 H5 H6]; constructor. Qed.

(** ** The documents of a new snapshot *)
Fixpoint with_documents (k h : string) (tables : list (File * list Z * json)) (docs : gmap (string * string * string) DocumentRow)
  : gmap (string * string * string) DocumentRow :=
  match tables with
  | [] => docs
  | (f, b, v) :: ts => with_documents k h ts (<[(k, h, f_name f) := mkDocumentRow (f_sha256 f) b v]> docs)
  end.
Lemma insert_documents_ok interrupt k h tables n d u n' d' :
  insert_documents interrupt k h tables n d = (Ok u, n', d') -> d' = set_documents d (with_documents k h tables (t_documents d)).
Proof.
  revert n d u. induction tables as [|[[f b] v] ts IH]; intros n d u Hi; cbn [insert_documents] in Hi.
  - apply tx_ret_ok in Hi as (_ & ->). by destruct d.
  - apply tx_bind_ok in Hi as ([] & n1 & d1 & Ht & Hi). apply try_execute_ok in Ht. apply IH in Hi as ->.
    unfold insert_document in Ht. destruct (t_snapshots d !! (k, h)), (t_documents d !! (k, h, f_name f)); try done. by injection Ht as <-.
Qed.

Lemma with_documents_other k h tables docs k' h' name :
  (k', h') <> (k, h) \/ ~ In name (map (fun x => f_name (fst (fst x))) tables) ->
  with_documents k h tables docs !! (k', h', name) = docs !! (k', h', name).
Proof.
  revert docs. induction tables as [|[[f b] v] ts IH]; intros docs Hout; [done|]. cbn [with_documents map fst] in *. rewrite IH.
  - apply lookup_insert_ne. intros [= -> -> E]. destruct Hout as [|Hout]; [congruence|]. apply Hout. left. exact E.
  - destruct Hout as [|Hout]; [by left|]. right. intros Hin. apply Hout. by right.
Qed.
Lemma with_documents_in k h tables docs f b v :
  NoDup (map (fun x => f_name (fst (fst x))) tables) -> In (f, b, v) tables ->
  with_documents k h tables docs !! (k, h, f_name f) = Some (mkDocumentRow (f_sha256 f) b v).
Proof.
  revert docs. induction tables as [|[[f' b'] v'] ts IH]; intros docs Hn Hin; [done|]. cbn [with_documents map fst] in *.
  apply NoDup_cons in Hn as [Hne Hn]. destruct Hin as [[= -> -> ->]|Hin]; [|by apply IH].
  rewrite with_documents_other; [apply lookup_insert_eq|]. right. by rewrite <- list_elem_of_In.
Qed.

Lemma file_names (tables : list (File * list Z * json)) : map (fun x => f_name (fst (fst x))) tables = map f_name (map (fun x => fst (fst x)) tables).
Proof. by rewrite map_map. Qed.

(** The documents that a verified snapshot's tables are stored as. *)
Lemma stored_row_ok scope m mb tables k d touched :
  verified_ok scope m mb tables -> scope_to_string scope = Some k ->
  (forall f b v, In (f, b, v) tables -> t_documents d !! (k, content_sha256 m, f_name f) = Some (mkDocumentRow (f_sha256 f) b v)) ->
  (forall name, ~ In name (map f_name (p_files m)) -> t_documents d !! (k, content_sha256 m, name) = None) ->
  row_ok k (content_sha256 m) d (mkSnapshotRow mb touched).
Proof.
  intros Hv Hk Hin Hout. exists scope, m. split; [done|]. split; [apply Hv|]. split; [apply Hv|]. split; [done|]. intros name.
  destruct (in_dec string_dec name (map f_name (p_files m))) as [Hi|Hi]; [|by rewrite Hout].
  pose proof (vo_files _ _ _ _ Hv) as Hfs. rewrite <- Hfs, map_map in Hi. apply in_map_iff in Hi as ([[f b] v] & En & Hi). cbn in En. subst name.
  rewrite (Hin f b v Hi). exists f. cbn [d_sha256 d_data]. rewrite <- Hfs. split; [by apply (in_map (fun x => fst (fst x))) in Hi|].
  split; [done|]. split; [done|]. pose proof (vo_tables _ _ _ _ Hv) as Ht. rewrite List.Forall_forall in Ht. by apply (Ht _ Hi).
Qed.

Lemma db_ok_insert scope m mb tables k d :
  db_ok d -> verified_ok scope m mb tables -> scope_to_string scope = Some k -> t_snapshots d !! (k, content_sha256 m) = None ->
  db_ok (set_documents (set_snapshots d (<[(k, content_sha256 m) := mkSnapshotRow mb 0]> (t_snapshots d)))
           (with_documents k (content_sha256 m) tables (t_documents d))).
Proof.
  intros Hd Hv Hk Hnone. pose proof (verified_names _ _ _ _ Hv) as Hn. rewrite <- (vo_files _ _ _ _ Hv), <- file_names in Hn.
  assert (Hfree : forall name, t_documents d !! (k, content_sha256 m, name) = None).
  { intros name. destruct (t_documents d !! _) eqn:E; [|done]. apply (ok_documents _ Hd) in E as [? E]. congruence. }
  destruct Hd as [H1 H2 H3 H4 H5 H6]. constructor; cbn [t_snapshots t_documents t_current t_history t_next set_documents set_snapshots]; try done.
  - intros k' h' row. destruct (decide ((k, content_sha256 m) = (k', h'))) as [[= <- <-]|Hne].
    + rewrite lookup_insert_eq. intros [= <-]. split; [|cbn; lia]. apply (stored_row_ok scope m mb tables); [done|done| |]; cbn [t_documents set_documents].
      * intros f b v Hin. by apply with_documents_in.
      * intros name Hout. rewrite with_documents_other; [apply Hfree|]. right. by rewrite file_names, (vo_files _ _ _ _ Hv).
    + rewrite lookup_insert_ne by done. intros Hr. destruct (H1 _ _ _ Hr) as [(s & p & E1 & E2 & E3 & E4 & E5) E6]. split; [|done].
      exists s, p. split; [done|]. split; [done|]. split; [done|]. split; [done|]. intros name. cbn [t_documents set_documents].
      rewrite with_documents_other by (left; congruence). apply E5.
  - intros k' h' n doc. destruct (decide ((k, content_sha256 m) = (k', h'))) as [[= <- <-]|Hne]; [rewrite lookup_insert_eq; eauto|].
    rewrite lookup_insert_ne by done. rewrite with_documents_other by (left; congruence). apply H2.
  - intros k' h' Hc. destruct (H3 _ _ Hc) as (row & E1 & E2 & E3). exists row.
    assert (Hne : (k, content_sha256 m) <> (k', h')) by (intros E; rewrite <- E in E1; congruence).
    rewrite lookup_insert_ne by done. split; [done|]. split; [done|]. intros h2 row2.
    destruct (decide ((k, content_sha256 m) = (k', h2))) as [[= <- <-]|Hne2]; [rewrite lookup_insert_eq; by intros [= <-] _|].
    rewrite lookup_insert_ne by done. apply E3.
Qed.
(** ** Queries *)
Lemma insert_with_perm {A} (le : A -> A -> bool) x l : insert_with le x l ≡ₚ x :: l.
Proof. induction l as [|y l IH]; cbn; [done|]. destruct (le x y); [done|]. rewrite IH. constructor. Qed.
Lemma order_by_perm {A} (le : A -> A -> bool) l : order_by le l ≡ₚ l.
Proof. induction l as [|x l IH]; cbn; [done|]. by rewrite insert_with_perm, IH. Qed.
Lemma order_by_in {A} (le : A -> A -> bool) l x : In x (order_by le l) <-> In x l.
Proof. rewrite <- !list_elem_of_In. by rewrite order_by_perm. Qed.

Lemma documents_of_in k h d name row : In (name, row) (documents_of k h d) <-> t_documents d !! (k, h, name) = Some row.
Proof.
  unfold documents_of. rewrite in_map_iff. split.
  - intros ([[[k' h'] n'] row'] & [= <- <-] & Hin). apply filter_In in Hin as [Hin E]. cbn in E. apply bool_decide_eq_true in E. injection E as -> ->.
    by apply list_elem_of_In, elem_of_map_to_list in Hin.
  - intros E. exists ((k, h, name), row). split; [done|]. apply filter_In. split; [by apply list_elem_of_In, elem_of_map_to_list|]. by apply bool_decide_eq_true.
Qed.
Lemma snapshots_of_in k d h row : In (h, row) (snapshots_of k d) <-> t_snapshots d !! (k, h) = Some row.
Proof.
  unfold snapshots_of. rewrite in_map_iff. split.
  - intros ([[k' h'] row'] & [= <- <-] & Hin). apply filter_In in Hin as [Hin E]. unfold in_scope in E. cbn in E. apply String.eqb_eq in E as ->.
    by apply list_elem_of_In, elem_of_map_to_list in Hin.
  - intros E. exists ((k, h), row). split; [done|]. apply filter_In. split; [by apply list_elem_of_In, elem_of_map_to_list|]. apply String.eqb_refl.
Qed.

Lemma same_documents_zip rows tables :
  length rows = length tables -> same_documents rows tables = true ->
  Forall2 (fun (r : string * DocumentRow) (t : File * list Z * json) =>
    fst r = f_name (fst (fst t)) /\ d_sha256 (snd r) = f_sha256 (fst (fst t)) /\ d_data (snd r) = snd (fst t) /\
    json_eqb (d_document (snd r)) (snd t) = true) rows tables.
Proof.
  revert tables. induction rows as [|[name row] rows IH]; intros [|[[f b] v] ts] Hl; cbn [same_documents]; try done.
  intros Hs. apply andb_true_iff in Hs as [Hs Hr]. apply andb_true_iff in Hs as [Hs Hj]. apply andb_true_iff in Hs as [Hs Hb].
  apply andb_true_iff in Hs as [Hn Hh]. apply String.eqb_eq in Hn, Hh. apply bool_decide_eq_true in Hb.
  constructor; [done|]. apply IH; [cbn in Hl; lia|done].
Qed.

(** The documents of an existing row that were found equal to the tables. *)
Lemma equal_row_ok scope m mb tables k d touched rows :
  verified_ok scope m mb tables -> scope_to_string scope = Some k ->
  rows ≡ₚ documents_of k (content_sha256 m) d -> length rows = length tables -> same_documents rows tables = true ->
  row_ok k (content_sha256 m) d (mkSnapshotRow mb touched).
Proof.
  intros Hv Hk Hp Hl Hs. apply same_documents_zip in Hs; [|done]. exists scope, m. split; [done|]. split; [apply Hv|]. split; [apply Hv|].
  split; [done|]. intros name. pose proof (vo_files _ _ _ _ Hv) as Hfs. pose proof (vo_tables _ _ _ _ Hv) as Ht. rewrite List.Forall_forall in Ht.
  destruct (t_documents d !! (k, content_sha256 m, name)) as [doc|] eqn:E.
  - apply documents_of_in in E. rewrite <- list_elem_of_In, <- Hp, list_elem_of_In in E.
    apply list_elem_of_In, list_elem_of_lookup in E as (i & Ei). destruct (Forall2_lookup_l _ _ _ _ _ Hs Ei) as (t & Et & E1 & E2 & E3 & _).
    assert (Hin : In t tables) by by apply list_elem_of_In; eapply list_elem_of_lookup_2. exists (fst (fst t)). cbn in E1, E2, E3.
    rewrite <- Hfs. split; [by apply (in_map (fun x => fst (fst x))) in Hin|]. split; [done|]. split; [done|]. rewrite E3. by apply Ht.
  - intros Hin. rewrite <- Hfs, map_map in Hin. apply in_map_iff in Hin as (t & En & Hin).
    apply list_elem_of_In, list_elem_of_lookup in Hin as (i & Ei). destruct (Forall2_lookup_r _ _ _ _ _ Hs Ei) as ([n row] & Er & E1 & _).
    assert (Hrow : In (n, row) rows) by by apply list_elem_of_In; eapply list_elem_of_lookup_2.
    rewrite <- list_elem_of_In, Hp, list_elem_of_In in Hrow. apply documents_of_in in Hrow. cbn in E1. congruence.
Qed.

(** ** The other statements *)
Lemma alter_some {V} (f : V -> V) (i j : string * string) (m : gmap (string * string) V) v :
  alter f i m !! j = Some v -> exists w, m !! j = Some w /\ ((j = i /\ v = f w) \/ (j <> i /\ v = w)).
Proof.
  destruct (decide (i = j)) as [<-|Hne].
  - rewrite lookup_alter_eq. destruct (m !! i) as [w|]; [|done]. intros [= <-]. exists w. auto.
  - rewrite lookup_alter_ne by done. intros E. exists v. auto.
Qed.

Lemma db_ok_manifest k h mb d :
  db_ok d -> (forall row, t_snapshots d !! (k, h) = Some row -> row_ok k h d (mkSnapshotRow mb (s_touched row))) -> db_ok (update_manifest k h mb d).
Proof.
  intros [H1 H2 H3 H4 H5 H6] Hrow. constructor; cbn [t_snapshots t_documents t_current t_history t_next set_snapshots update_manifest]; try done.
  - intros k' h' row Hr. apply alter_some in Hr as (w & Hw & [[[= -> ->] ->]|[Hne ->]]); [|by apply H1].
    split; [by apply Hrow|]. cbn. by apply (H1 _ _ _ Hw).
  - intros k' h' n doc Hdoc. apply H2 in Hdoc as (row & Hr). exists (if decide ((k, h) = (k', h')) then mkSnapshotRow mb (s_touched row) else row).
    destruct (decide _) as [[= <- <-]|Hne]; [by rewrite lookup_alter_eq, Hr|by rewrite lookup_alter_ne].
  - intros k' h' Hc. destruct (H3 _ _ Hc) as (row & E1 & E2 & E3).
    assert (Hother : forall h2 row2, alter (fun row => mkSnapshotRow mb (s_touched row)) (k, h) (t_snapshots d) !! (k', h2) = Some row2 -> h2 <> h' ->
      s_touched row2 < s_touched row).
    { intros h2 row2 Hr Hne. apply alter_some in Hr as (w & Hw & [[_ ->]|[_ ->]]); [cbn|]; by eapply E3. }
    destruct (decide ((k, h) = (k', h'))) as [[= <- <-]|Hne].
    + exists (mkSnapshotRow mb (s_touched row)). rewrite lookup_alter_eq, E1. done.
    + exists row. rewrite lookup_alter_ne by done. done.
Qed.

(** Event, [touched] and [CURRENT] together. *)
Definition announced (k h : string) (row : Z -> HistoryRow) (d : db) : db :=
  let d1 := snd (insert_event row d) in
  mkDb (has_schema d) (has_migrations d) (alter (fun r => mkSnapshotRow (s_manifest r) (t_next d)) (k, h) (t_snapshots d)) (t_documents d)
    (t_history d1) (t_next d1) (<[k := h]> (t_current d)) (t_migrations d).
Lemma db_ok_announced k h row d :
  db_ok d -> is_Some (t_snapshots d !! (k, h)) -> ev_id (row (t_next d)) = t_next d ->
  (forall retained, is_ok (history_entry retained (row (t_next d))) = true) -> db_ok (announced k h row d).
Proof.
  intros [H1 H2 H3 H4 H5 H6] (r & Hr) Hid He. constructor; cbn [t_snapshots t_documents t_current t_history t_next announced insert_event snd]; [| | | | |lia].
  - intros k' h' row' Hr'. apply alter_some in Hr' as (w & Hw & Hcase). destruct (H1 _ _ _ Hw) as [(s & p & E) Ht].
    split; [|destruct Hcase as [[_ ->]|[_ ->]]; cbn; lia]. exists s, p. by destruct Hcase as [[_ ->]|[_ ->]].
  - intros k' h' n doc Hdoc. apply H2 in Hdoc as (w & Hw). destruct (decide ((k, h) = (k', h'))) as [[= <- <-]|Hne].
    + rewrite lookup_alter_eq, Hw. by eexists.
    + by rewrite lookup_alter_ne, Hw.
  - intros k' h'. destruct (decide (k = k')) as [<-|Hk].
    + rewrite lookup_insert_eq. intros [= <-]. exists (mkSnapshotRow (s_manifest r) (t_next d)). rewrite lookup_alter_eq, Hr. cbn. split; [done|]. split; [lia|].
      intros h2 row2 Hr2 Hne. apply alter_some in Hr2 as (w & Hw & [[[= ->] _]|[_ ->]]); [done|]. apply (H1 _ _ _ Hw).
    + rewrite lookup_insert_ne by done. intros Hc. destruct (H3 _ _ Hc) as (row' & E1 & E2 & E3). exists row'.
      rewrite lookup_alter_ne by congruence. split; [done|]. split; [done|]. intros h2 row2. rewrite lookup_alter_ne by congruence. apply E3.
  - constructor; [rewrite Hid; split; [lia|done]|]. eapply Forall_impl; [exact H4|]. intros ev [H7 H8]. split; [lia|done].
  - constructor; [done|]. eapply Forall_impl; [exact H4|]. intros ev [H7 _]. rewrite Hid. done.
Qed.

Lemma db_ok_delete k h keep d d' : delete_old k h keep d = Some d' -> db_ok d -> db_ok d'.
Proof.
  unfold delete_old. destruct (some_and _ _) eqn:Ec; [done|]. intros [= <-] [H1 H2 H3 H4 H5 H6].
  constructor; cbn [t_snapshots t_documents t_current t_history t_next set_snapshots set_documents]; try done.
  - intros k' h' row Hr. apply map_lookup_filter_Some in Hr as [Hr Hkeep]. cbn in Hkeep. destruct (H1 _ _ _ Hr) as [(s & p & E1 & E2 & E3 & E4 & E5) Ht].
    split; [|done]. exists s, p. split; [done|]. split; [done|]. split; [done|]. split; [done|]. intros name. cbn [t_documents set_documents].
    match goal with |- context [filter ?P ?m !! _] => assert (filter P m !! (k', h', name) = m !! (k', h', name)) as -> end; [|apply E5].
    apply option_eq. intros doc. rewrite map_lookup_filter_Some. split; [by intros [? _]|by intros ?].
  - intros k' h' n doc Hd. apply map_lookup_filter_Some in Hd as [Hd Hkeep]. cbn in Hkeep. apply H2 in Hd as (row & Hr). exists row.
    apply map_lookup_filter_Some. by split.
  - intros k' h' Hc. destruct (H3 _ _ Hc) as (row & E1 & E2 & E3). exists row. split.
    + apply map_lookup_filter_Some. split; [done|]. cbn. intros [-> Hd]. rewrite Hc in Ec. cbn [some_and] in Ec. rewrite E1, Hd in Ec. done.
    + split; [done|]. intros h2 row2 Hr. apply map_lookup_filter_Some in Hr as [Hr _]. by eapply E3.
Qed.
End invariant.

(** * Lemmas: storing a snapshot *)
Section storing.
Context `{!MasterCodecs, !MasterCodecsOk} (scope_to_string : Scope -> option string) (collate : string -> string -> bool)
  (interrupt : nat -> option DbError).

(** What storing leaves alone: other scopes, and everything but rows. *)
Record same_elsewhere (k : string) (d d' : db) : Prop := {
  se_snapshots : forall k' h, k' <> k -> t_snapshots d' !! (k', h) = t_snapshots d !! (k', h);
  se_documents : forall k' h n, k' <> k -> t_documents d' !! (k', h, n) = t_documents d !! (k', h, n);
  se_current : forall k', k' <> k -> t_current d' !! k' = t_current d !! k';
  se_migrations : t_migrations d' = t_migrations d;
  se_schema : has_schema d' = has_schema d;
}.
Lemma same_elsewhere_refl k d : same_elsewhere k d d.
Proof. by constructor. Qed.
Lemma same_elsewhere_trans k d1 d2 d3 : same_elsewhere k d1 d2 -> same_elsewhere k d2 d3 -> same_elsewhere k d1 d3.
Proof. intros [A1 A2 A3 A4 A5] [B1 B2 B3 B4 B5]. constructor; intros; congruence || (rewrite ?B1, ?B2, ?B3, ?A1, ?A2, ?A3 by done; done). Qed.

(** A document as a table was stored. *)
Definition stored_as (f : File) (b : list Z) (v : json) (doc : DocumentRow) : Prop :=
  d_sha256 doc = f_sha256 f /\ d_data doc = b /\ json_eqb (d_document doc) v = true.

(** The rows of the snapshot [m]: a manifest of its content, with its asset
    version if it has one, and the bytes of its tables. *)
Definition rows_of (k : string) (m : PublishedManifest) (tables : list (File * list Z * json)) (d : db) : Prop :=
  (exists row p, t_snapshots d !! (k, content_sha256 m) = Some row /\ published_from_slice (s_manifest row) = Some p /\
     content_sha256 p = content_sha256 m /\ is_ok (published_validate p (p_scope m)) = true /\
     (p_resource_version m = None \/ p_resource_version p = p_resource_version m)) /\
  (forall f b v, In (f, b, v) tables -> exists doc, t_documents d !! (k, content_sha256 m, f_name f) = Some doc /\ stored_as f b v doc) /\
  forall name doc, t_documents d !! (k, content_sha256 m, name) = Some doc -> In name (map (fun x => f_name (fst (fst x))) tables).

Lemma equal_rows_names k h d rows tables name doc :
  rows ≡ₚ documents_of k h d -> length rows = length tables -> same_documents rows tables = true -> t_documents d !! (k, h, name) = Some doc ->
  In name (map (fun x : File * list Z * json => f_name (fst (fst x))) tables).
Proof.
  intros Hp Hl Hs Hdoc. apply same_documents_zip in Hs; [|done]. apply documents_of_in in Hdoc. rewrite <- list_elem_of_In, <- Hp in Hdoc.
  apply list_elem_of_lookup in Hdoc as (i & Ei). destruct (Forall2_lookup_l _ _ _ _ _ Hs Ei) as (t & Et & E1 & _). cbn in E1. subst name.
  apply (in_map (fun x : File * list Z * json => f_name (fst (fst x)))), list_elem_of_In. by eapply list_elem_of_lookup_2.
Qed.

Lemma equal_rows_data k h d rows tables f b v :
  rows ≡ₚ documents_of k h d -> length rows = length tables -> same_documents rows tables = true -> In (f, b, v) tables ->
  exists doc, t_documents d !! (k, h, f_name f) = Some doc /\ stored_as f b v doc.
Proof.
  intros Hp Hl Hs Hin. apply same_documents_zip in Hs; [|done]. apply list_elem_of_In, list_elem_of_lookup in Hin as (i & Ei).
  destruct (Forall2_lookup_r _ _ _ _ _ Hs Ei) as ([n row] & Er & E1 & E2 & E3 & E4). cbn in E1, E2, E3, E4. subst n.
  assert (Hrow : In (f_name f, row) rows) by by apply list_elem_of_In; eapply list_elem_of_lookup_2.
  rewrite <- list_elem_of_In, Hp, list_elem_of_In in Hrow. apply documents_of_in in Hrow. by exists row.
Qed.

(** The first half of [store_snapshot]: the rows. *)
Definition store_rows (k : string) (m : PublishedManifest) (mb : list Z) (tables : list (File * list Z * json)) (existing : option (list Z)) : tx unit :=
  match existing with
  | Some bytes =>
      saved <-tx tx_lift (ok_or (published_from_slice bytes) DbIntegrity);;
      _ <-tx tx_lift (ensure (is_ok (published_validate saved (p_scope m))) DbIntegrity);;
      _ <-tx tx_lift (ensure (String.eqb (content_sha256 saved) (content_sha256 m)) DbIntegrity);;
      rows <-tx query interrupt (fun d => order_by (fun a b => collate (fst a) (fst b)) (documents_of k (content_sha256 m) d));;
      _ <-tx tx_lift (ensure (Nat.eqb (length rows) (length tables)) DbIntegrity);;
      _ <-tx tx_lift (ensure (same_documents rows tables) DbIntegrity);;
      if is_some (p_resource_version m) && negb (bool_decide (p_resource_version saved = p_resource_version m))
      then execute interrupt (update_manifest k (content_sha256 m) mb)
      else tx_ret tt
  | None =>
      _ <-tx try_execute interrupt (insert_snapshot k (content_sha256 m) mb);;
      insert_documents interrupt k (content_sha256 m) tables
  end.

Lemma store_rows_ok scope k m mb tables n d u n' d' :
  db_ok scope_to_string d -> verified_ok scope m mb tables -> scope_to_string scope = Some k ->
  store_rows k m mb tables (option_map s_manifest (t_snapshots d !! (k, content_sha256 m))) n d = (Ok u, n', d') ->
  db_ok scope_to_string d' /\ rows_of k m tables d' /\ same_elsewhere k d d' /\
  t_current d' = t_current d /\ t_history d' = t_history d /\ t_next d' = t_next d.
Proof.
  intros Hd Hv Hk. destruct (t_snapshots d !! (k, content_sha256 m)) as [row|] eqn:Erow; cbn [option_map store_rows]; intros Hs.
  - apply tx_bind_ok in Hs as (saved & n1 & d1 & Hp & Hs). apply tx_lift_ok in Hp as (Hp & ->).
    destruct (published_from_slice (s_manifest row)) as [saved'|] eqn:Ep; [|done]. injection Hp as ->.
    apply tx_bind_ok in Hs as (u2 & n2 & d2 & Hv2 & Hs). apply tx_lift_ok in Hv2 as (Hv2 & ->). destruct u2. apply ensure_ok in Hv2.
    apply tx_bind_ok in Hs as ([] & n3 & d3 & Hc & Hs). apply tx_lift_ok in Hc as (Hc & ->). apply ensure_ok, String.eqb_eq in Hc.
    apply tx_bind_ok in Hs as (rows & n4 & d4 & Hq & Hs). apply query_ok in Hq as (Hq & ->).
    apply tx_bind_ok in Hs as ([] & n5 & d5 & Hl & Hs). apply tx_lift_ok in Hl as (Hl & ->). apply ensure_ok, Nat.eqb_eq in Hl.
    apply tx_bind_ok in Hs as ([] & n6 & d6 & He & Hs). apply tx_lift_ok in He as (He & ->). apply ensure_ok in He.
    assert (Hperm : rows ≡ₚ documents_of k (content_sha256 m) d) by (rewrite Hq; apply order_by_perm).
    assert (Hdata : forall f b v, In (f, b, v) tables -> exists doc, t_documents d !! (k, content_sha256 m, f_name f) = Some doc /\ stored_as f b v doc).
    { intros f b v. by apply (equal_rows_data k _ d rows). }
    assert (Hnames : forall name doc, t_documents d !! (k, content_sha256 m, name) = Some doc -> In name (map (fun x => f_name (fst (fst x))) tables)).
    { intros name doc. by apply (equal_rows_names k _ d rows). }
    destruct (_ && _) eqn:Eu in Hs.
    + apply execute_ok in Hs as ->. split; [apply db_ok_manifest; [done|]|split; [|split; [|done]]].
      * intros row' _. by apply (equal_row_ok scope_to_string scope m mb tables k d _ rows).
      * split; [|split; [exact Hdata|exact Hnames]]. exists (mkSnapshotRow mb (s_touched row)), m. cbn [t_snapshots update_manifest set_snapshots].
        rewrite lookup_alter_eq, Erow. split; [done|]. split; [apply Hv|]. split; [done|]. split; [|by right].
        by rewrite (verified_scope _ _ _ _ Hv), (vo_valid _ _ _ _ Hv).
      * constructor; try done. intros k' h Hne. cbn. by rewrite lookup_alter_ne by congruence.
    + apply tx_ret_ok in Hs as (_ & ->). split; [done|]. split; [|split; [apply same_elsewhere_refl|done]]. split; [|split; [exact Hdata|exact Hnames]].
      exists row, saved. split; [done|]. split; [done|]. split; [done|]. split; [done|].
      destruct (p_resource_version m); [right|by left]. cbn [is_some andb] in Eu. by apply negb_false_iff, bool_decide_eq_true in Eu.
  - apply tx_bind_ok in Hs as ([] & n1 & d1 & Hi & Hs). apply try_execute_ok in Hi. unfold insert_snapshot in Hi. rewrite Erow in Hi. injection Hi as <-.
    apply insert_documents_ok in Hs as ->. cbn [t_documents set_snapshots].
    split; [by apply (db_ok_insert scope_to_string scope)|]. split; [|split; [|done]].
    + split; [|split].
      * exists (mkSnapshotRow mb 0), m. cbn [t_snapshots set_documents set_snapshots]. rewrite lookup_insert_eq. split; [done|].
        split; [apply Hv|]. split; [done|]. split; [|by right]. by rewrite (verified_scope _ _ _ _ Hv), (vo_valid _ _ _ _ Hv).
      * intros f b v Hin. exists (mkDocumentRow (f_sha256 f) b v). split; [|split; [done|split; [done|apply json_eqb_refl]]]. cbn [t_documents set_documents]. apply with_documents_in; [|done].
        rewrite file_names, (vo_files _ _ _ _ Hv). by eapply verified_names.
      * intros name doc. cbn [t_documents set_documents]. destruct (in_dec string_dec name (map (fun x => f_name (fst (fst x))) tables)) as [Hin|Hin]; [done|].
        rewrite with_documents_other by by right. intros Hdoc. apply (ok_documents _ _ Hd) in Hdoc as [? E]. congruence.
    + constructor; try done; cbn [t_snapshots t_documents set_documents set_snapshots].
      * intros k' h Hne. by rewrite lookup_insert_ne by congruence.
      * intros k' h name Hne. apply with_documents_other. left. congruence.
Qed.

(** The second half: the event, when the snapshot was not current. *)
Definition event_of (k : string) (m : PublishedManifest) (tables : list (File * list Z * json)) (publication : option (option Z)) (now : Z) (id : Z)
  : HistoryRow :=
  mkHistoryRow id k (content_sha256 m) (Some (match publication with Some (Some t) => t | _ => now end)) (Some (p_version m))
    (p_resource_version m) (Some (Z.of_nat (length tables))) (Some (List.fold_right (fun x t => f_size (fst (fst x)) + t) 0 tables)).

Lemma event_entry scope k m mb tables publication now id retained :
  verified_ok scope m mb tables -> 1 <= id -> is_ok (history_entry retained (event_of k m tables publication now id)) = true.
Proof.
  intros Hv Hid. destruct (verified_counts _ _ _ _ Hv) as [[H1 H2] H3]. unfold history_entry, event_of.
  cbn [ev_published_at ev_version ev_file_count ev_total_size ev_id ev_content_hash ev_resource_version ok_or rbind].
  set (total := List.fold_right _ 0 tables) in *.
  assert (((1 <=? Z.of_nat (length tables)) && (Z.of_nat (length tables) <=? total) && (total <=? MAX_TOTAL)) = true) as ->.
  { rewrite !andb_true_iff, !Z.leb_le. lia. }
  cbn [rbind]. pose proof (vo_valid _ _ _ _ Hv) as Hval. pose proof (published_validate_ok scope m Hval) as Hok.
  rewrite (published_hash_valid scope m Hval). cbn [some_and]. rewrite (po_version _ _ Hok), (mo_version _ (check_manifest_ok _ (po_source _ _ Hok))).
  assert (id <=? 0 = false) as -> by (apply Z.leb_gt; lia). cbn [negb orb is_some is_none some_and andb]. rewrite andb_false_r. cbn [orb].
  assert (some_and (p_resource_version m) (fun v => negb (safe_version v)) = false) as ->; [|done].
  unfold published_validate in Hval. apply rbind_ok in Hval as ([] & Hg & _). apply ensure_ok, negb_true_iff in Hg. by apply orb_false_iff in Hg as [_ Hg].
Qed.

(** ** What retention keeps *)
Lemma newer_total a b : newer a b = false -> newer b a = true.
Proof.
  unfold newer. rewrite orb_false_iff, andb_false_iff, orb_true_iff, andb_true_iff, Z.ltb_ge, Z.ltb_lt, Z.eqb_neq, Z.eqb_eq.
  intros [H1 [H2|H2]]; [left; lia|]. destruct (Z.eq_dec (s_touched (snd a)) (s_touched (snd b))) as [E|E]; [|left; lia].
  right. split; [lia|]. by apply sle_total in H2.
Qed.
Lemma newer_trans a b c : newer a b = true -> newer b c = true -> newer a c = true.
Proof.
  unfold newer. rewrite !orb_true_iff, !andb_true_iff, !Z.ltb_lt, !Z.eqb_eq. intros [H1|[H1 H2]] [H3|[H3 H4]]; try (left; lia).
  right. split; [lia|]. exact (sle_transitive _ _ _ H2 H4).
Qed.
Lemma order_by_head x l : exists y l', order_by newer (x :: l) = y :: l' /\ forall z, In z (x :: l) -> newer y z = true \/ y = z.
Proof.
  revert x. induction l as [|a l IH]; intros x; [exists x, []; split; [done|]; intros z [->|[]]; by right|].
  destruct (IH a) as (y & l' & E & Hy). change (order_by newer (x :: a :: l)) with (insert_with newer x (order_by newer (a :: l))). rewrite E.
  cbn [insert_with]. destruct (newer x y) eqn:Exy.
  - exists x, (y :: l'). split; [done|]. intros z [->|Hz]; [by right|]. left. destruct (Hy z Hz) as [Hz'|<-]; [by eapply newer_trans|done].
  - exists y, (insert_with newer x l'). split; [done|]. intros z [->|Hz]; [left; by apply newer_total|by apply Hy].
Qed.

Lemma newest_kept k keep d h row :
  1 <= keep -> t_snapshots d !! (k, h) = Some row ->
  (forall h' row', t_snapshots d !! (k, h') = Some row' -> h' <> h -> s_touched row' < s_touched row) -> In h (kept k keep d).
Proof.
  intros Hk Hr Hmax. unfold kept. apply snapshots_of_in in Hr as Hin. destruct (snapshots_of k d) as [|x l] eqn:El; [done|].
  destruct (order_by_head x l) as (y & l' & E & Hy). rewrite E. destruct (Z.to_nat keep) as [|n] eqn:En; [lia|]. cbn [take map].
  left. destruct y as [hy rowy]. cbn. destruct (Hy _ Hin) as [Hn|[= -> _]]; [|done]. destruct (decide (hy = h)) as [|Hne]; [done|exfalso].
  assert (Hyin : In (hy, rowy) (snapshots_of k d)).
  { rewrite El. apply (order_by_in newer). rewrite E. by left. }
  apply snapshots_of_in in Hyin. specialize (Hmax _ _ Hyin Hne). unfold newer in Hn. cbn in Hn.
  apply orb_true_iff in Hn as [Hn|Hn]; [apply Z.ltb_lt in Hn; lia|]. apply andb_true_iff in Hn as [Hn _]. apply Z.eqb_eq in Hn. lia.
Qed.

Lemma snapshot_names_nodup k d : NoDup (map fst (snapshots_of k d)).
Proof.
  unfold snapshots_of. rewrite map_map. cbn [fst]. set (m := t_snapshots d).
  assert (Hn : NoDup (List.filter (in_scope k) (map_to_list m))).
  { pose proof (NoDup_map_to_list m) as Hn. induction Hn as [|x l Hx _ IH]; [constructor|]. cbn. destruct (in_scope k x); [|done].
    constructor; [|done]. intros Hin. apply Hx. apply list_elem_of_In in Hin. apply filter_In in Hin as [Hin _]. by apply list_elem_of_In. }
  apply (NoDup_fmap_2_strong (fun kv : string * string * SnapshotRow => snd (fst kv))); [|done].
  intros [[k1 h1] r1] [[k2 h2] r2] H1 H2 E. cbn in E. subst h2. apply list_elem_of_In, filter_In in H1 as [H1 E1]. apply list_elem_of_In, filter_In in H2 as [H2 E2].
  unfold in_scope in *. cbn in *. apply String.eqb_eq in E1, E2. subst. apply list_elem_of_In, elem_of_map_to_list in H1, H2. congruence.
Qed.

Lemma delete_old_keeps k h keep d d' :
  1 <= keep -> delete_old k h keep d = Some d' -> In h (kept k keep d) ->
  Z.of_nat (length (snapshots_of k d')) <= keep /\ same_elsewhere k d d' /\
  t_snapshots d' !! (k, h) = t_snapshots d !! (k, h) /\ (forall n, t_documents d' !! (k, h, n) = t_documents d !! (k, h, n)) /\
  t_current d' = t_current d /\ t_history d' = t_history d.
Proof.
  unfold delete_old. destruct (some_and _ _) eqn:Ec; [done|]. intros Hk [= <-] Hin.
  assert (Hh : deleted k h keep d h = false) by (unfold deleted; by rewrite String.eqb_refl).
  assert (Hlook : forall V (m : gmap (string * string) V) (P : string * string * V -> Prop) (Hd : forall x, Decision (P x)) i,
    (forall v, P (i, v)) -> filter P m !! i = m !! i).
  { intros V m P Hd i Hp. apply option_eq. intros v. rewrite map_lookup_filter_Some. naive_solver. }
  assert (Hlook3 : forall V (m : gmap (string * string * string) V) (P : string * string * string * V -> Prop) (Hd : forall x, Decision (P x)) i,
    (forall v, P (i, v)) -> filter P m !! i = m !! i).
  { intros V m P Hd i Hp. apply option_eq. intros v. rewrite map_lookup_filter_Some. naive_solver. }
  cbn [t_snapshots t_documents t_current t_history set_snapshots set_documents]. split; [|split; [|split; [|split; [|done]]]].
  - transitivity (Z.of_nat (length (kept k keep d))).
    2: { unfold kept. rewrite length_map, length_take. lia. }
    apply Nat2Z.inj_le. rewrite <- (length_map fst (snapshots_of k _)). apply NoDup_incl_length; [apply NoDup_ListNoDup, snapshot_names_nodup|].
    intros h' Hh'. apply in_map_iff in Hh' as ([h2 row] & <- & Hin2). apply snapshots_of_in in Hin2. cbn [t_snapshots set_snapshots set_documents] in Hin2.
    apply map_lookup_filter_Some in Hin2 as [_ Hp]. cbn in Hp |- *. destruct (deleted k h keep d h2) eqn:Ed; [exfalso; by apply Hp|].
    unfold deleted in Ed. apply andb_false_iff in Ed as [Ed|Ed]; apply negb_false_iff in Ed.
    + by apply String.eqb_eq in Ed as ->.
    + by apply mem_spec in Ed.
  - constructor; try done; cbn [t_snapshots t_documents set_snapshots set_documents].
    + intros k' h' Hne. apply Hlook. intros v [E _]. cbn in E. congruence.
    + intros k' h' n Hne. apply Hlook3. intros v [E _]. cbn in E. congruence.
  - apply Hlook. cbn. intros v [_ E]. congruence.
  - intros n. apply Hlook3. cbn. intros v [_ E]. congruence.
Qed.
(** ** The whole of [store_snapshot] *)
Record stored (keep : Z) (scope : Scope) (m : PublishedManifest) (tables : list (File * list Z * json)) (publication : option (option Z)) (now : Z)
    (d : db) (r : Receipt) (d' : db) (k : string) : Prop := {
  sd_key : scope_to_string scope = Some k;
  sd_ok : db_ok scope_to_string d';
  sd_rows : rows_of k m tables d';
  sd_current : t_current d' !! k = Some (content_sha256 m);
  sd_elsewhere : same_elsewhere k d d';
  sd_count : Z.of_nat (length (snapshots_of k d')) <= keep;
  sd_receipt : r = mkDbReceipt (content_sha256 m) (Z.of_nat (length tables)) (List.fold_right (fun x t => f_size (fst (fst x)) + t) 0 tables)
                     (is_some publication || negb (bool_decide (t_current d !! k = Some (content_sha256 m))));
  sd_history : t_history d' = if db_changed r then event_of k m tables publication now (t_next d) :: t_history d else t_history d;
}.

(** The announcement, unless the snapshot is current already. *)
Lemma announce_ok scope k m mb tables publication now (changed : bool) n d u n' d' :
  db_ok scope_to_string d -> verified_ok scope m mb tables -> is_Some (t_snapshots d !! (k, content_sha256 m)) ->
  (changed = false -> t_current d !! k = Some (content_sha256 m)) ->
  (if changed
   then
     _ <-tx tx_lift (ensure (List.fold_right (fun x t => f_size (fst (fst x)) + t) 0 tables <=? I64_MAX) DbSnapshot);;
     sequence <-tx stmt interrupt (fun d => Ok (insert_event (event_of k m tables publication now) d));;
     _ <-tx execute interrupt (update_touched k (content_sha256 m) sequence);;
     try_execute interrupt (upsert_current k (content_sha256 m))
   else tx_ret tt) n d = (Ok u, n', d') ->
  db_ok scope_to_string d' /\ t_current d' !! k = Some (content_sha256 m) /\ same_elsewhere k d d' /\
  (forall m' tables', rows_of k m' tables' d -> rows_of k m' tables' d') /\
  t_history d' = (if changed then event_of k m tables publication now (t_next d) :: t_history d else t_history d).
Proof.
  intros Hd Hv Hrow Hcur. destruct changed; intros Ha.
  - apply tx_bind_ok in Ha as ([] & n1 & d1 & Hl & Ha). apply tx_lift_ok in Hl as (_ & ->).
    apply tx_bind_ok in Ha as (sequence & n2 & d2 & Hi & Ha). apply stmt_ok in Hi. injection Hi as <- <-.
    apply tx_bind_ok in Ha as ([] & n3 & d3 & He & Ha). apply execute_ok in He as ->. apply try_execute_ok in Ha.
    assert (d' = announced k (content_sha256 m) (event_of k m tables publication now) d) as ->.
    { unfold upsert_current in Ha. destruct (t_snapshots _ !! _) in Ha; [|done]. by injection Ha as <-. }
    pose proof (ok_next _ _ Hd) as Hn.
    split; [apply db_ok_announced; [done|done|done|]; intros retained; by eapply event_entry|].
    split; [cbn; by rewrite lookup_insert_eq|]. split; [|split; [|done]].
    + constructor; try done; cbn.
      * intros k' h Hne. by rewrite lookup_alter_ne by congruence.
      * intros k' Hne. by rewrite lookup_insert_ne by congruence.
    + intros m' tables' ((row & p & E1 & E2) & Hdocs). split; [|exact Hdocs]. cbn [announced t_snapshots].
      destruct (decide ((k, content_sha256 m) = (k, content_sha256 m'))) as [[= E]|Hne].
      * exists (mkSnapshotRow (s_manifest row) (t_next d)), p. by rewrite E, lookup_alter_eq, E1.
      * exists row, p. by rewrite lookup_alter_ne by done.
  - apply tx_ret_ok in Ha as (_ & ->). split; [done|]. split; [by apply Hcur|]. split; [apply same_elsewhere_refl|]. done.
Qed.

Lemma store_snapshot_ok scope keep m mb tables publication now n d r n' d' :
  db_ok scope_to_string d -> verified_ok scope m mb tables -> 1 <= keep ->
  store_snapshot interrupt scope_to_string collate keep (m, mb, tables) publication now n d = (Ok r, n', d') ->
  exists k, stored keep scope m tables publication now d r d' k.
Proof.
  intros Hd Hv Hkeep Hs. unfold store_snapshot in Hs. rewrite (verified_scope _ _ _ _ Hv) in Hs.
  apply tx_bind_ok in Hs as (k & n1 & d1 & Hk & Hs). apply tx_lift_ok in Hk as (Hk & ->). destruct (scope_to_string scope) as [k'|] eqn:Ekey; [|done]. injection Hk as ->.
  apply tx_bind_ok in Hs as (current & n2 & d2 & Hq & Hs). apply query_ok in Hq as (-> & ->).
  apply tx_bind_ok in Hs as (existing & n3 & d3 & Hq & Hs). apply query_ok in Hq as (-> & ->).
  apply tx_bind_ok in Hs as ([] & n4 & d4 & Hrows & Hs).
  rewrite <- (verified_scope _ _ _ _ Hv) in Hrows. apply (store_rows_ok scope k m mb tables) in Hrows as (Hd4 & Hr4 & Hse4 & Hc4 & Hh4 & Hn4); [|done|done|done].
  apply tx_bind_ok in Hs as ([] & n5 & d5 & Hann & Hs).
  apply (announce_ok scope k m mb tables publication now) in Hann as (Hd5 & Hc5 & Hse5 & Hr5 & Hh5); [|done|done| |].
  2: { destruct Hr4 as ((row & p & E & _) & _). by eexists. }
  2: { intros E. apply orb_false_iff in E as [_ E]. apply negb_false_iff, bool_decide_eq_true in E. by rewrite Hc4. }
  apply tx_bind_ok in Hs as ([] & n6 & d6 & Hdel & Hs). apply try_execute_ok in Hdel. apply tx_ret_ok in Hs as (-> & ->).
  destruct (ok_current _ _ Hd5 _ _ Hc5) as (row & E1 & E2 & E3). pose proof (newest_kept k keep d5 _ row Hkeep E1 E3) as Hkept.
  destruct (delete_old_keeps _ _ _ _ _ Hkeep Hdel Hkept) as (Hcount & Hse6 & Hs6 & Hdoc6 & Hc6 & Hh6).
  exists k. constructor; try done.
  - by eapply db_ok_delete.
  - destruct (Hr5 _ _ Hr4) as (H1 & H2 & H3). split; [by rewrite Hs6|]. split; [intros f b v Hin; rewrite Hdoc6; by eapply H2|].
    intros name doc. rewrite Hdoc6. apply H3.
  - by rewrite Hc6.
  - eapply same_elsewhere_trans; [exact Hse4|]. by eapply same_elsewhere_trans.
  - rewrite Hh6, Hh5. cbn [db_changed]. rewrite Hn4, Hh4. done.
Qed.
End storing.

(** * Writers *)
Section writers.
Context `{!MasterCodecs, !MasterCodecsOk} (scope_to_string : Scope -> option string) (collate : string -> string -> bool).

Lemma roll_back_ok d work : db_ok scope_to_string d -> t_next d <= t_next work -> db_ok scope_to_string (roll_back d work).
Proof. intros Hd Hn. unfold roll_back. destruct (has_schema d); [by apply db_ok_next|done]. Qed.

Lemma roll_back_same d work :
  t_snapshots (roll_back d work) = t_snapshots d /\ t_documents (roll_back d work) = t_documents d /\
  t_history (roll_back d work) = t_history d /\ t_current (roll_back d work) = t_current d /\ t_migrations (roll_back d work) = t_migrations d.
Proof. unfold roll_back. by destruct (has_schema d). Qed.

(** A transaction either is done in full, with an answer or an uncertain commit,
    or leaves the tables. *)
Lemma run_tx_cases {A} interrupt (body : tx A) commit d res d' :
  grows body -> run_tx interrupt body commit d = (res, d') ->
  (exists e work, res = Err e /\ d' = roll_back d work /\ t_next d <= t_next work) \/
  (exists a n n' , body n d = (Ok a, n', d') /\ (res = Ok a \/ exists e, res = Err e /\ commit = Uncertain e true)).
Proof.
  intros Hg. unfold run_tx. destruct (tx_bind _ _ O d) as [[[a|e] n'] work] eqn:E.
  - apply tx_bind_ok in E as (u & n1 & d1 & Hq & E). apply query_ok in Hq as (_ & ->).
    destruct commit as [|e [|]]; intros [= <- <-].
    + right. exists a, n1, n'. auto.
    + right. exists a, n1, n'. eauto.
    + left. exists e, work. split; [done|]. split; [done|]. specialize (Hg n1 d). by rewrite E in Hg.
  - intros [= <- <-]. left. exists e, work. split; [done|]. split; [done|].
    assert (Hall : grows (tx_bind (query interrupt (fun _ => tt)) (fun _ => body))) by (apply grows_bind; [apply grows_query|done]).
    specialize (Hall O d). by rewrite E in Hall.
Qed.

(** ** Publication *)
Lemma publish_snapshot_ok interrupt keep scope m mb tables now n d r n' d' :
  db_ok scope_to_string d -> verified_ok scope m mb tables -> 1 <= keep ->
  publish_snapshot interrupt scope_to_string collate keep (m, mb, tables) now n d = (Ok r, n', d') ->
  exists k, stored scope_to_string keep scope m tables None now (create_schema d) r d' k.
Proof.
  intros Hd Hv Hk Hp. apply tx_bind_ok in Hp as ([] & n1 & d1 & He & Hp). apply execute_ok in He as ->.
  apply tx_bind_ok in Hp as ([] & n2 & d2 & He & Hp). apply execute_ok in He as ->.
  apply (store_snapshot_ok scope_to_string collate interrupt scope) in Hp; [done|by apply db_ok_schema|done|done].
Qed.

Lemma publish_cases interrupt config options connected v scope keep now commit d res d' :
  db_ok scope_to_string d -> 1 <= keep ->
  publish interrupt scope_to_string collate config options connected v scope keep now commit d = (res, d') ->
  (d' = d /\ exists e, res = Err e) \/
  (exists e work, res = Err e /\ d' = roll_back d work /\ t_next d <= t_next work) \/
  (exists m mb tables r k, verified_snapshot scope v None = Some (m, mb, tables) /\ verified_ok scope m mb tables /\
     stored scope_to_string keep scope m tables None now (create_schema d) r d' k /\
     (res = Ok r \/ exists e, res = Err e /\ commit = Uncertain e true)).
Proof.
  intros Hd Hk. unfold publish. destruct (rbind config _) as [[[m mb] tables]|e] eqn:E; [|intros [= <- <-]; left; eauto].
  apply rbind_ok in E as (u1 & _ & E). apply rbind_ok in E as (s & Hs & E). apply rbind_ok in E as (u2 & _ & E). apply rbind_ok in E as (u3 & _ & [= ->]).
  destruct (verified_snapshot scope v None) as [s|] eqn:Ev; [|done]. injection Hs as ->. pose proof (verified_snapshot_ok _ _ _ _ _ _ Ev) as Hv.
  intros Hr. right. apply run_tx_cases in Hr as [Hr|(a & n & n' & Hb & Hr)]; [by left| |apply publish_snapshot_grows].
  right. apply (publish_snapshot_ok interrupt keep scope) in Hb as (k & Hst); [|done|done|done]. exists m, mb, tables, a, k. done.
Qed.

(** ** Migration *)

(** What an event says of a history entry. *)
Definition event_matches (now : Z) (ev : HistoryRow) (e : HistoryEntry) : Prop :=
  ev_content_hash ev = h_content_sha256 e /\ ev_published_at ev = Some (default now (h_published_at e)).

Lemma migrate_entries_ok interrupt v scope keep now es k n d u n' d' :
  db_ok scope_to_string d -> 1 <= keep -> scope_to_string scope = Some k ->
  migrate_entries interrupt scope_to_string collate v scope keep now es n d = (Ok u, n', d') ->
  db_ok scope_to_string d' /\ same_elsewhere k d d' /\
  (exists evs, t_history d' = evs ++ t_history d /\ Forall2 (event_matches now) evs (rev es) /\ Forall (fun ev => ev_scope ev = k) evs) /\
  t_current d' !! k = match last es with Some e => Some (h_content_sha256 e) | None => t_current d !! k end.
Proof.
  intros Hd Hk Hkey. revert n d u Hd. induction es as [|e es IH]; intros n d u Hd Hm; cbn [migrate_entries] in Hm.
  { apply tx_ret_ok in Hm as (_ & ->). split; [done|]. split; [apply same_elsewhere_refl|]. split; [|done]. exists []. repeat constructor. }
  apply tx_bind_ok in Hm as ([[m mb] tables] & n1 & d1 & Hs & Hm). apply tx_lift_ok in Hs as (Hs & ->).
  destruct (verified_snapshot scope v (Some (h_snapshot e))) as [s|] eqn:Ev; [|done]. injection Hs as ->. apply verified_snapshot_ok in Ev as Hv.
  apply tx_bind_ok in Hm as ([] & n2 & d2 & Hc & Hm). apply tx_lift_ok in Hc as (Hc & ->). apply ensure_ok, String.eqb_eq in Hc. cbn in Hc.
  apply tx_bind_ok in Hm as (r & n3 & d3 & Hst & Hm). apply (store_snapshot_ok scope_to_string collate interrupt scope) in Hst as (k' & Hst); [|done|done|done].
  assert (k' = k) as -> by (pose proof (sd_key _ _ _ _ _ _ _ _ _ _ _ Hst); congruence).
  destruct (IH _ _ _ (sd_ok _ _ _ _ _ _ _ _ _ _ _ Hst) Hm) as (Hd' & Hse & (evs & Hh & Hall & Hscope) & Hcur).
  split; [done|]. split; [eapply same_elsewhere_trans; [exact (sd_elsewhere _ _ _ _ _ _ _ _ _ _ _ Hst)|done]|].
  pose proof (sd_history _ _ _ _ _ _ _ _ _ _ _ Hst) as Hhist. rewrite (sd_receipt _ _ _ _ _ _ _ _ _ _ _ Hst) in Hhist. cbn [db_changed is_some orb] in Hhist.
  split.
  - exists (evs ++ [event_of k m tables (Some (h_published_at e)) now (t_next d)]). split; [rewrite Hh, Hhist, <- app_assoc; done|]. split.
    + cbn [rev]. apply Forall2_app; [done|]. constructor; [|constructor]. split; [done|]. cbn. by destruct (h_published_at e).
    + apply Forall_app. split; [done|]. by constructor.
  - rewrite Hcur. destruct es as [|e2 es]; [cbn; by rewrite (sd_current _ _ _ _ _ _ _ _ _ _ _ Hst), Hc|].
    change (last (e :: e2 :: es)) with (last (e2 :: es)). destruct (last (e2 :: es)) eqn:El; [done|by apply last_None in El].
Qed.

(** A migration that is done: the first time it stores the history, later it
    leaves the tables. *)
Definition migrated (scope : Scope) (history : History) (sha : string) (now : Z) (d : db) (r : MigrationReceipt) (d' : db) (k : string) : Prop :=
  scope_to_string scope = Some k /\ db_ok scope_to_string d' /\ has_schema d' = true /\
  match t_migrations d !! k with
  | Some row => mr_changed r = false /\ d' = create_migrations (create_schema d)
  | None => mr_changed r = true /\ t_migrations d' !! k = Some (mkMigrationRow sha (hist_head history) (Z.of_nat (length (entries history))) (legacy_boundary history)) /\
      (forall k' h, k' <> k -> t_snapshots d' !! (k', h) = t_snapshots d !! (k', h)) /\
      (exists evs, t_history d' = evs ++ t_history d /\ Forall2 (event_matches now) evs (entries history) /\ Forall (fun ev => ev_scope ev = k) evs) /\
      t_current d' !! k = match head (entries history) with Some e => Some (h_content_sha256 e) | None => None end
  end.

Lemma last_rev_head {A} (l : list A) : last (rev l) = head l.
Proof. destruct l as [|a l]; [done|]. cbn [rev head]. apply last_snoc. Qed.

Lemma migrate_transaction_ok interrupt keep v history sha now n d r n' d' :
  db_ok scope_to_string d -> 1 <= keep ->
  migrate_transaction interrupt scope_to_string collate keep v history sha now n d = (Ok r, n', d') ->
  exists k, migrated (hist_scope history) history sha now d r d' k.
Proof.
  intros Hd Hk Hm. unfold migrate_transaction in Hm. do 3 (apply tx_bind_ok in Hm as ([] & ? & ? & He & Hm); apply execute_ok in He as ->).
  apply tx_bind_ok in Hm as (k & n4 & d4 & Hkey & Hm). apply tx_lift_ok in Hkey as (Hkey & ->). destruct (scope_to_string _) as [k'|] eqn:Ek; [|done]. injection Hkey as ->.
  apply tx_bind_ok in Hm as (saved & n5 & d5 & Hq & Hm). apply query_ok in Hq as (-> & ->). cbn [t_migrations create_migrations create_schema id] in Hm.
  assert (Hd2 : db_ok scope_to_string (create_migrations (create_schema d))) by by apply db_ok_migrations, db_ok_schema.
  exists k. split; [done|]. destruct (t_migrations d !! k) as [row|].
  - apply tx_bind_ok in Hm as ([] & n6 & d6 & He & Hm). apply tx_lift_ok in He as (_ & ->). apply tx_ret_ok in Hm as (-> & ->). done.
  - apply tx_bind_ok in Hm as (taken & n6 & d6 & Hq & Hm). apply query_ok in Hq as (-> & ->).
    apply tx_bind_ok in Hm as ([] & n7 & d7 & He & Hm). apply tx_lift_ok in He as (He & ->). apply ensure_ok, negb_true_iff in He.
    apply tx_bind_ok in Hm as ([] & n8 & d8 & He8 & Hm). apply (migrate_entries_ok interrupt _ _ _ _ _ k) in He8 as (Hd8 & Hse & (evs & Hh & Hall & Hsc) & Hcur); [|done|done|done].
    apply tx_bind_ok in Hm as ([] & n9 & d9 & Hi & Hm). apply try_execute_ok in Hi. apply tx_ret_ok in Hm as (-> & ->).
    split; [by eapply db_ok_migration|]. unfold insert_migration in Hi. destruct (t_migrations d8 !! k); [done|]. injection Hi as <-.
    split; [by rewrite (se_schema _ _ _ Hse)|]. cbn [t_migrations t_history t_current t_snapshots]. rewrite lookup_insert_eq. split; [done|]. split; [done|]. split; [|split].
    + intros k' h Hne. by rewrite (se_snapshots _ _ _ Hse).
    + exists evs. rewrite rev_involutive in Hall. done.
    + rewrite Hcur, last_rev_head. destruct (head (entries history)); [done|]. unfold occupied in He. apply orb_false_iff in He as [He _].
      apply orb_false_iff in He as [_ He]. cbn in *. by destruct (t_current d !! k).
Qed.

Lemma migrate_cases interrupt to_vec config options connected v after scope keep now commit d res d' :
  db_ok scope_to_string d -> 1 <= keep ->
  migrate_history interrupt scope_to_string collate to_vec config options connected v after scope keep now commit d = (res, d') ->
  (d' = d /\ exists e, res = Err e) \/
  (exists e work, res = Err e /\ d' = roll_back d work /\ t_next d <= t_next work) \/
  (exists history sha r k, migration_plan v scope = Some history /\ migration_plan_digest to_vec history = Ok sha /\
     migrated (hist_scope history) history sha now d r d' k /\ (res = Ok r \/ exists e, res = Err e /\ commit = Uncertain e true)).
Proof.
  intros Hd Hk. unfold migrate_history. destruct (rbind config _) as [[history sha]|e] eqn:E; [|intros [= <- <-]; left; eauto].
  apply rbind_ok in E as (u1 & _ & E). apply rbind_ok in E as (h & Hh & E). apply rbind_ok in E as (s & Hs & E). apply rbind_ok in E as (u2 & _ & E).
  apply rbind_ok in E as (u3 & _ & [= -> ->]). destruct (migration_plan v scope) as [h|]; [|done]. injection Hh as ->.
  intros Hr. right. apply run_tx_cases in Hr as [Hr|(a & n & n' & Hb & Hr)]; [by left| |apply migrate_transaction_grows].
  right. apply (migrate_transaction_ok interrupt) in Hb as (k & Hb); [|done|done]. exists history, sha, a, k. done.
Qed.

(** The databases that publications and migrations of any directories leave, each
    interrupted at any statement, with any outcome of its commit. *)
Inductive db_reachable : db -> Prop :=
| dbr_empty : db_reachable empty_db
| dbr_publish d interrupt config options connected v scope keep now commit :
    db_reachable d -> 1 <= keep ->
    db_reachable (snd (publish interrupt scope_to_string collate config options connected v scope keep now commit d))
| dbr_migrate d interrupt to_vec config options connected v after scope keep now commit :
    db_reachable d -> 1 <= keep ->
    db_reachable (snd (migrate_history interrupt scope_to_string collate to_vec config options connected v after scope keep now commit d)).

Lemma reachable_db_ok d : db_reachable d -> db_ok scope_to_string d.
Proof.
  induction 1 as [|d interrupt config options connected v scope keep now commit _ IH Hk|d interrupt to_vec config options connected v after scope keep now commit _ IH Hk].
  - apply empty_db_ok.
  - destruct (publish _ _ _ _ _ _ _ _ _ _ _ _) as [res d'] eqn:E. apply publish_cases in E as [(-> & _)|[(e & work & _ & -> & Hn)|(m & mb & ts & r & k & _ & _ & Hst & _)]];
      [done|by apply roll_back_ok|exact (sd_ok _ _ _ _ _ _ _ _ _ _ _ Hst)|done|done].
  - destruct (migrate_history _ _ _ _ _ _ _ _ _ _ _ _ _ _) as [res d'] eqn:E.
    apply migrate_cases in E as [(-> & _)|[(e & work & _ & -> & Hn)|(h & sha & r & k & _ & _ & (_ & Hok & _) & _)]]; [done|by apply roll_back_ok|done|done|done].
Qed.
End writers.

(** * The theorems *)
Section database_theorems.
Context `{!MasterCodecs, !MasterCodecsOk} (scope_to_string : Scope -> option string) (collate : string -> string -> bool).

(** C28: A publication into any reachable database either leaves its tables (at most the
    sequence moves, or the empty schema appears) and answers an error, or leaves exactly
    the verified local snapshot stored, current and within retention with one event for
    a change; it answers an error after storing only when the commit's outcome was
    unknown. *)
Theorem publication_is_all_or_nothing interrupt config options connected v scope keep now commit d res d' :
  db_reachable scope_to_string collate d -> 1 <= keep ->
  publish interrupt scope_to_string collate config options connected v scope keep now commit d = (res, d') ->
  (exists e, res = Err e /\ t_snapshots d' = t_snapshots d /\ t_documents d' = t_documents d /\ t_history d' = t_history d /\
     t_current d' = t_current d /\ t_migrations d' = t_migrations d) \/
  (exists m mb tables r k, verified_snapshot scope v None = Some (m, mb, tables) /\
     stored scope_to_string keep scope m tables None now (create_schema d) r d' k /\
     (res = Ok r \/ exists e, res = Err e /\ commit = Uncertain e true)).
Proof.
  intros Hr Hk Hp. apply reachable_db_ok in Hr. apply publish_cases in Hp as [(-> & e & ->)|[(e & work & -> & -> & _)|(m & mb & ts & r & k & Hv & _ & Hst & Hres)]];
    [| | |done|done].
  - left. by exists e.
  - left. exists e. split; [done|]. destruct (roll_back_same d work) as (H1 & H2 & H3 & H4 & H5). done.
  - right. by exists m, mb, ts, r, k.
Qed.

(** A migration into a scope without a receipt that succeeds appends one event per
    publication of the verified history, in order with its recorded times, makes its
    newest content current and leaves a receipt; with a receipt it changes no table,
    whatever was published meanwhile. *)
Lemma migration_stores_the_history_once interrupt to_vec config options connected v after scope keep now commit d r d' :
  db_reachable scope_to_string collate d -> 1 <= keep ->
  migrate_history interrupt scope_to_string collate to_vec config options connected v after scope keep now commit d = (Ok r, d') ->
  exists history k, migration_plan v scope = Some history /\ scope_to_string (hist_scope history) = Some k /\
    match t_migrations d !! k with
    | Some _ => mr_changed r = false /\ t_snapshots d' = t_snapshots d /\ t_documents d' = t_documents d /\ t_history d' = t_history d /\
                t_current d' = t_current d /\ t_migrations d' = t_migrations d
    | None => mr_changed r = true /\ is_Some (t_migrations d' !! k) /\
        (exists evs, t_history d' = evs ++ t_history d /\ Forall2 (event_matches now) evs (entries history) /\ Forall (fun ev => ev_scope ev = k) evs) /\
        t_current d' !! k = match head (entries history) with Some e => Some (h_content_sha256 e) | None => None end
    end.
Proof.
  intros Hr Hk Hm. apply reachable_db_ok in Hr.
  apply migrate_cases in Hm as [(_ & e & ?)|[(e & work & ? & _)|(history & sha & r' & k & Hplan & _ & (Hkey & _ & _ & Hcase) & [[= ->]|(e & ? & _)])]]; try done.
  exists history, k. split; [done|]. split; [done|]. destruct (t_migrations d !! k) as [row|].
  - destruct Hcase as [H1 ->]. done.
  - destruct Hcase as (H1 & H2 & _ & H3 & H4). rewrite H2. by eauto.
Qed.

(** ** Reads *)

(** C30: Whatever the tables hold, a document that a read answers is the manifest of the
    asked (or current) content, valid for the scope, or a table of it with the size,
    digest and JSON validity that manifest states, with its own digest as entity tag. *)
Theorem documents_read_are_verified interrupt scope hash table d doc :
  document interrupt scope_to_string scope hash table d = Ok doc ->
  exists k h row p, scope_to_string scope = Some k /\ match hash with Some h' => h' = h | None => t_current d !! k = Some h end /\
    t_snapshots d !! (k, h) = Some row /\ published_from_slice (s_manifest row) = Some p /\ published_validate p scope = Ok tt /\
    content_sha256 p = h /\ d_version doc = p_version p /\ d_etag doc = quoted (digest (d_bytes doc)) /\
    match table with
    | None => d_bytes doc = s_manifest row
    | Some name => exists f, In f (p_files p) /\ f_name f = (name ++ ".json")%string /\ is_file f (d_bytes doc)
    end.
Proof.
  unfold document. destruct (_ || _); [done|]. destruct (tx_bind _ _ O d) as [[res n'] d'] eqn:E. cbn [fst]. intros ->.
  apply tx_bind_ok in E as (u & n0 & d0 & Hq & E). apply query_ok in Hq as (_ & ->). unfold document_inner in E.
  apply tx_bind_ok in E as (k & n1 & d1 & Hk & E). apply tx_lift_ok in Hk as (Hk & ->). destruct (scope_to_string scope) as [k'|]; [|done]. injection Hk as ->.
  apply tx_bind_ok in E as (u1 & n2 & d2 & Hq & E). apply query_ok in Hq as (_ & ->).
  apply tx_bind_ok in E as (row & n3 & d3 & Hq & E). apply stmt_ok in Hq. apply rbind_ok in Hq as ([] & _ & [= <- <-]).
  apply tx_bind_ok in E as ([selected mb] & n4 & d4 & Hrow & E). apply tx_lift_ok in Hrow as (Hrow & ->).
  apply tx_bind_ok in E as (mb' & n5 & d5 & Hmb & E). apply tx_lift_ok in Hmb as (Hmb & ->). cbn [snd] in Hmb. destruct mb as [mb|]; [|done]. injection Hmb as ->.
  apply tx_bind_ok in E as (p & n6 & d6 & Hp & E). apply tx_lift_ok in Hp as (Hp & ->). destruct (published_from_slice mb') as [p'|] eqn:Ep; [|done]. injection Hp as ->.
  apply tx_bind_ok in E as ([] & n7 & d7 & Hv & E). apply tx_lift_ok in Hv as (Hv & ->). apply ensure_ok in Hv.
  apply tx_bind_ok in E as ([] & n8 & d8 & Hc & E). apply tx_lift_ok in Hc as (Hc & ->). apply ensure_ok, andb_true_iff in Hc as [Hc _]. apply String.eqb_eq in Hc. cbn [fst] in Hc.
  apply tx_bind_ok in E as (b & n9 & d9 & Hb & E). apply tx_bind_ok in E as (u2 & n10 & d10 & _ & E). apply tx_ret_ok in E as (-> & _).
  destruct (match hash with Some h => Some h | None => t_current d !! k end) as [h|] eqn:Eh; [|done].
  destruct (t_snapshots d !! (k, h)) as [row|] eqn:Er; [|done]. cbn [option_map ok_or] in Hrow. injection Hrow as [= <- Hlen].
  destruct (llen (s_manifest row) <=? MAX_DB_MANIFEST); [|done]. injection Hlen as <-.
  exists k, h, row, p. split; [done|]. split; [destruct hash; [by injection Eh|done]|]. split; [done|]. split; [done|].
  split; [by destruct (published_validate p scope) as [[]|]|]. split; [done|]. split; [done|]. split; [done|]. cbn [d_bytes].
  destruct table as [name|]; [|by apply tx_ret_ok in Hb as (-> & _)].
  apply tx_bind_ok in Hb as (f & m1 & e1 & Hf & Hb). apply tx_lift_ok in Hf as (Hf & ->). destruct (List.find _ _) as [f'|] eqn:Ef in Hf; [|done]. injection Hf as ->.
  apply find_some in Ef as [Hin Hname]. apply String.eqb_eq in Hname.
  apply tx_bind_ok in Hb as (drow & m2 & e2 & Hq & Hb). apply query_ok in Hq as (_ & ->).
  apply tx_bind_ok in Hb as (drow' & m3 & e3 & Hd & Hb). apply tx_lift_ok in Hd as (_ & ->).
  apply tx_bind_ok in Hb as (data & m4 & e4 & Hd & Hb). apply tx_lift_ok in Hd as (_ & ->).
  apply tx_bind_ok in Hb as ([] & m5 & e5 & Hd & Hb). apply tx_lift_ok in Hd as (Hd & ->). apply ensure_ok, andb_true_iff in Hd as [Hd Hdig].
  apply andb_true_iff in Hd as [Hl _]. apply Z.eqb_eq in Hl. apply String.eqb_eq in Hdig.
  apply tx_bind_ok in Hb as ([] & m6 & e6 & Hj & Hb). apply tx_lift_ok in Hj as (Hj & ->). apply ensure_ok in Hj. apply tx_ret_ok in Hb as (-> & _).
  exists f. split; [done|]. split; [done|]. split; [done|]. split; [done|]. unfold validate_json in Hj. by destruct (json_valid data).
Qed.

Definition always : nat -> option DbError := fun _ => None.

Lemma reachable_schema d : db_reachable scope_to_string collate d -> forall k h, t_current d !! k = Some h -> has_schema d = true.
Proof.
  induction 1 as [|d interrupt config options connected v scope keep now commit Hr IH Hk|d interrupt to_vec config options connected v after scope keep now commit Hr IH Hk]; intros k h Hc.
  - cbn in Hc. by rewrite lookup_empty in Hc.
  - apply reachable_db_ok in Hr. destruct (publish _ _ _ _ _ _ _ _ _ _ _ _) as [res d'] eqn:E. cbn [snd] in *.
    apply publish_cases in E as [(-> & _)|[(e & work & _ & -> & Hn)|(m & mb & ts & r & k' & _ & _ & Hst & _)]]; [by eapply IH| | |done|done].
    + destruct (roll_back_same d work) as (_ & _ & _ & Hcur & _). rewrite Hcur in Hc. unfold roll_back. rewrite (IH _ _ Hc). cbn. by eapply IH.
    + by rewrite (se_schema _ _ _ (sd_elsewhere _ _ _ _ _ _ _ _ _ _ _ Hst)).
  - apply reachable_db_ok in Hr. destruct (migrate_history _ _ _ _ _ _ _ _ _ _ _ _ _ _) as [res d'] eqn:E. cbn [snd] in *.
    apply migrate_cases in E as [(-> & _)|[(e & work & _ & -> & Hn)|(hs & sha & r & k' & _ & _ & (_ & _ & Hs & _) & _)]]; [by eapply IH| |done|done|done].
    destruct (roll_back_same d work) as (_ & _ & _ & Hcur & _). rewrite Hcur in Hc. unfold roll_back. rewrite (IH _ _ Hc). cbn. by eapply IH.
Qed.

(** Two files of one name are one. *)
Lemma file_unique scope p f g : published_validate p scope = Ok tt -> In f (p_files p) -> In g (p_files p) -> f_name f = f_name g -> f = g.
Proof.
  intros Hv Hf Hg E. pose proof (published_names_nodup scope p (published_validate_ok scope p Hv)) as Hn.
  apply list_elem_of_In, list_elem_of_lookup in Hf as (i & Hi). apply list_elem_of_In, list_elem_of_lookup in Hg as (j & Hj).
  assert (i = j) as ->; [|congruence]. apply (NoDup_lookup (map f_name (p_files p)) i j (f_name f)); [done| |].
  - change (map f_name) with (fmap (M := list) f_name). by rewrite list_lookup_fmap, Hi.
  - change (map f_name) with (fmap (M := list) f_name). by rewrite list_lookup_fmap, Hj, E.
Qed.

Lemma published_stem scope p f stem : published_ok scope p -> In f (p_files p) -> f_name f = (stem ++ ".json")%string -> safe_component stem = true.
Proof.
  intros Hp Hf Hn. destruct (inventory_validate_ok _ _ (po_index _ _ Hp)) as (_ & _ & Hnames & _). cbn in Hnames.
  apply (in_map f_name) in Hf. rewrite Hnames, (sort_by_perm id) in Hf. apply in_map_iff in Hf as (e & E & He).
  pose proof (mo_entries _ (check_manifest_ok _ (po_source _ _ Hp))) as Hes. rewrite List.Forall_forall in Hes.
  destruct (table_name_stem e (Hes e He)) as (stem' & _ & E2 & _ & _ & Hs). rewrite E, Hn in E2. by apply append_inj_r in E2 as ->.
Qed.

(** C29: In every database that publications and migrations of any directories leave, each
    interrupted at any statement and with any outcome of its commit, a scope's current
    content is stored and its manifest and every table its manifest lists are read back,
    verified and byte for byte, within the read limits. *)
Theorem database_always_serves d scope k h :
  (forall s s', scope_to_string s = Some k -> scope_to_string s' = Some k -> s = s') ->
  db_reachable scope_to_string collate d -> scope_to_string scope = Some k -> t_current d !! k = Some h ->
  exists row p, t_snapshots d !! (k, h) = Some row /\ published_from_slice (s_manifest row) = Some p /\ published_validate p scope = Ok tt /\
    content_sha256 p = h /\
    (llen (s_manifest row) <= MAX_DB_MANIFEST ->
     document always scope_to_string scope None None d = Ok (mkDocument (s_manifest row) (quoted (digest (s_manifest row))) (p_version p)) /\
     forall f stem, In f (p_files p) -> f_name f = (stem ++ ".json")%string ->
       exists doc, document always scope_to_string scope (Some h) (Some stem) d = Ok doc /\ is_file f (d_bytes doc)).
Proof.
  intros Hinj Hr Hk Hc. pose proof (reachable_schema d Hr _ _ Hc) as Hschema. apply reachable_db_ok in Hr.
  destruct (ok_current _ _ Hr _ _ Hc) as (row & Hrow & _). destruct (ok_rows _ _ Hr _ _ _ Hrow) as [(s & p & Hs & Hp & Hv & Hcontent & Hdocs) _].
  rewrite (Hinj s scope Hs Hk) in Hv. exists row, p. split; [done|]. split; [done|]. split; [done|]. split; [done|]. intros Hlen.
  pose proof (published_validate_ok scope p Hv) as Hok.
  assert (Hreg : master_supported (region scope) = true).
  { unfold published_validate in Hv. apply rbind_ok in Hv as ([] & Hg & _). apply ensure_ok, negb_true_iff in Hg.
    rewrite !orb_false_iff, !negb_false_iff in Hg. by destruct Hg as [[[[[_ Hg] _] _] _] _]. }
  assert (Hl : llen (s_manifest row) <=? MAX_DB_MANIFEST = true) by by apply Z.leb_le. split.
  - unfold document. rewrite Hreg. cbn [negb orb some_and]. unfold document_inner, tx_bind, query, stmt, tx_lift, tx_ret, always, existing_tables.
    cbn [fst]. rewrite Hk. cbn [ok_or]. rewrite Hschema. cbn [ensure rbind]. rewrite Hc, Hrow. cbn [option_map ok_or fst snd]. rewrite Hl. cbn [ok_or]. rewrite Hp. cbn [ok_or].
    rewrite Hv. cbn [is_ok ensure none_or]. rewrite Hcontent, String.eqb_refl. done.
  - intros f stem Hf Hn. destruct (published_file scope p f Hok Hf) as (stem' & E1 & _ & Hfo). rewrite Hn in E1. apply append_inj_r in E1 as <-.
    pose proof (published_stem scope p f stem Hok Hf Hn) as Hsafe.
    specialize (Hdocs (f_name f)). destruct (t_documents d !! (k, h, f_name f)) as [doc|] eqn:Ed; [|exfalso; apply Hdocs; by apply in_map].
    destruct Hdocs as (g & Hg & Eg & Hsha & Hfile). assert (g = f) as -> by by apply (file_unique scope p).
    exists (mkDocument (d_data doc) (quoted (f_sha256 f)) (p_version p)). split; [|exact Hfile]. assert (Hh : hash_valid h = true) by (rewrite <- Hcontent; by apply (published_hash_valid scope)).
    unfold document. rewrite Hreg. cbn [some_and is_none]. rewrite Hh, Hsafe. cbn [negb orb]. unfold document_inner, tx_bind, query, stmt, tx_lift, tx_ret, always, existing_tables.
    cbn [fst]. rewrite Hk. cbn [ok_or]. rewrite Hschema. cbn [ensure rbind]. rewrite Hrow. cbn [option_map ok_or fst snd]. rewrite Hl. cbn [ok_or]. rewrite Hp. cbn [ok_or].
    rewrite Hv. cbn [is_ok ensure none_or]. rewrite Hcontent, !String.eqb_refl. cbn [andb ensure].
    assert (Hfind : List.find (fun g => String.eqb (f_name g) (stem ++ ".json")) (p_files p) = Some f).
    { destruct (List.find _ (p_files p)) as [g|] eqn:E.
      - apply find_some in E as [Hgin En]. apply String.eqb_eq in En. f_equal. apply (file_unique scope p); [done|done|done|congruence].
      - apply find_none with (x := f) in E; [|done]. by rewrite Hn, String.eqb_refl in E. }
    rewrite Hfind. cbn [ok_or]. rewrite <- Hn, Ed. cbn [option_map ok_or snd fst]. destruct Hfile as (F1 & F2 & F3).
    assert (Hsize : llen (d_data doc) <=? MAX_DB_TABLE = true).
    { apply Z.leb_le. unfold llen in *. rewrite F1. pose proof (fo_size _ Hfo). pose proof (llen_nonneg (d_data doc)). unfold Http.llen in *. unfold MAX_JSON, MAX_DB_TABLE in *. lia. }
    rewrite Hsize. cbn [ok_or]. unfold llen in *. rewrite F1, Z.eqb_refl, Hsha, F2, !String.eqb_refl. cbn [andb ensure]. unfold validate_json. rewrite F3. cbn [ensure is_ok fst]. rewrite ?F2. reflexivity.
Qed.
(** ** Publishing again *)
Lemma bind_query {A B} (f : db -> A) (k : A -> tx B) n d : tx_bind (query always f) k n d = k (f d) (S n) d.
Proof. done. Qed.
Lemma bind_execute {B} f (k : unit -> tx B) n d : tx_bind (execute always f) k n d = k tt (S n) (f d).
Proof. done. Qed.
Lemma bind_lift {A B} (a : A) (k : A -> tx B) n d : tx_bind (tx_lift (Ok a)) k n d = k a n d.
Proof. done. Qed.
Lemma bind_ret {A B} (a : A) (k : A -> tx B) n d : tx_bind (tx_ret a) k n d = k a n d.
Proof. done. Qed.
Lemma bind_try {B} f (k : unit -> tx B) n d d' : f d = Some d' -> tx_bind (try_execute always f) k n d = k tt (S n) d'.
Proof. intros E. unfold tx_bind, try_execute, stmt, always. by rewrite E. Qed.

Lemma order_by_sort {V} (l : list (string * V)) :
  (forall a b, collate a b = sleb a b) -> order_by (fun a b => collate (fst a) (fst b)) l = sort_by fst l.
Proof.
  intros Hc. induction l as [|x l IH]; [done|]. unfold order_by, sort_by in *. cbn [List.fold_right]. rewrite IH.
  generalize (List.fold_right (insert_by fst) [] l) as r. induction r as [|y r IHr]; [done|].
  cbn [insert_with insert_by]. rewrite Hc. destruct (sleb _ _); [done|]. by rewrite IHr.
Qed.

Lemma document_names_nodup k h d : NoDup (map fst (documents_of k h d)).
Proof.
  unfold documents_of. rewrite map_map. cbn [fst]. set (m := t_documents d).
  set (f := fun kv : string * string * string * DocumentRow => bool_decide (fst (fst kv) = (k, h))).
  assert (Hn : NoDup (List.filter f (map_to_list m))).
  { pose proof (NoDup_map_to_list m) as Hn. induction Hn as [|x l Hx _ IH]; [constructor|]. cbn. destruct (f x); [|done].
    constructor; [|done]. intros Hin. apply Hx. apply list_elem_of_In in Hin. apply filter_In in Hin as [Hin _]. by apply list_elem_of_In. }
  apply (NoDup_fmap_2_strong (fun kv : string * string * string * DocumentRow => snd (fst kv))); [|done].
  intros [[[k1 h1] n1] r1] [[[k2 h2] n2] r2] H1 H2 E. cbn in E. subst n2. apply list_elem_of_In, filter_In in H1 as [H1 E1]. apply list_elem_of_In, filter_In in H2 as [H2 E2].
  unfold f in *. cbn in *. apply bool_decide_eq_true in E1, E2. injection E1 as -> ->. injection E2 as -> ->.
  apply list_elem_of_In, elem_of_map_to_list in H1, H2. congruence.
Qed.

(** The stored documents, in the order of names, are the tables. *)
Lemma stored_rows_same scope k m mb tables d :
  (forall a b, collate a b = sleb a b) -> verified_ok scope m mb tables -> rows_of k m tables d ->
  let rows := order_by (fun a b => collate (fst a) (fst b)) (documents_of k (content_sha256 m) d) in
  length rows = length tables /\ same_documents rows tables = true.
Proof.
  intros Hc Hv (_ & Hdata & Hnames). rewrite (order_by_sort _ Hc). set (rows := sort_by fst (documents_of k (content_sha256 m) d)).
  pose proof (verified_names _ _ _ _ Hv) as Hn. rewrite <- (vo_files _ _ _ _ Hv), <- file_names in Hn.
  assert (Heq : map fst rows = map (fun x => f_name (fst (fst x))) tables).
  { apply (StronglySorted_unique sle); [apply sort_map_sorted| |].
    - rewrite file_names, (vo_files _ _ _ _ Hv). pose proof (published_validate_ok scope m (vo_valid _ _ _ _ Hv)) as Hok.
      destruct (inventory_validate_ok _ _ (po_index _ _ Hok)) as (_ & _ & E & _). cbn in E. rewrite E. apply (sort_by_sorted id).
    - apply NoDup_Permutation; [|done|].
      + unfold rows. change (map fst) with (fmap (M := list) (@fst string DocumentRow)). rewrite (sort_by_perm fst). apply document_names_nodup.
      + intros name. rewrite !list_elem_of_In. split.
        * intros Hin. apply in_map_iff in Hin as ([n doc] & <- & Hin). unfold rows in Hin. rewrite <- list_elem_of_In, (sort_by_perm fst), list_elem_of_In in Hin.
          apply documents_of_in in Hin. by eapply Hnames.
        * intros Hin. apply in_map_iff in Hin as ([[f b] v] & <- & Hin). destruct (Hdata f b v Hin) as (doc & Hd & _). apply in_map_iff. exists (f_name f, doc).
          split; [done|]. unfold rows. rewrite <- list_elem_of_In, (sort_by_perm fst), list_elem_of_In. by apply documents_of_in. }
  split; [by rewrite <- (length_map fst rows), Heq, length_map|].
  assert (Hrows : forall n doc, In (n, doc) rows -> t_documents d !! (k, content_sha256 m, n) = Some doc).
  { intros n doc Hin. unfold rows in Hin. rewrite <- list_elem_of_In, (sort_by_perm fst), list_elem_of_In in Hin. by apply documents_of_in in Hin. }
  clear Hn Hnames Hv. clearbody rows. revert tables Heq Hdata. induction rows as [|[n doc] rows IH]; intros [|[[f b] v] ts] Heq Hdata; try done.
  cbn in Heq. injection Heq as -> Heq. cbn [same_documents]. destruct (Hdata f b v ltac:(by left)) as (doc' & E & Hsha & Hb & Hj).
  rewrite (Hrows _ doc ltac:(by left)) in E. injection E as <-. rewrite String.eqb_refl, Hsha, String.eqb_refl, Hb, bool_decide_eq_true_2, Hj by done. cbn [andb].
  apply IH; [|done|].
  - intros n' d' Hin. apply Hrows. by right.
  - intros f' b' v' Hin. apply Hdata. by right.
Qed.

(** Retention has nothing to delete within its bound. *)
Lemma delete_old_nothing k h keep d :
  db_ok scope_to_string d -> Z.of_nat (length (snapshots_of k d)) <= keep -> delete_old k h keep d = Some d.
Proof.
  intros Hd Hl. assert (Hkept : forall h', is_Some (t_snapshots d !! (k, h')) -> deleted k h keep d h' = false).
  { intros h' (row & Hr). apply snapshots_of_in in Hr. unfold deleted. apply andb_false_iff. right. apply negb_false_iff, mem_spec. unfold kept.
    rewrite take_ge; [|rewrite (Permutation_length (order_by_perm newer _)); lia].
    apply (in_map fst) in Hr. cbn in Hr. rewrite <- list_elem_of_In in Hr |- *. change (map fst) with (fmap (M := list) (@fst string SnapshotRow)) in *.
    by rewrite (order_by_perm newer). }
  unfold delete_old. assert (some_and (t_current d !! k) (fun c => is_some (t_snapshots d !! (k, c)) && deleted k h keep d c) = false) as ->.
  { destruct (t_current d !! k) as [c|]; [|done]. cbn. destruct (t_snapshots d !! (k, c)) eqn:E; [|done]. cbn. apply Hkept. by rewrite E. }
  f_equal. rewrite !map_filter_id.
  - by destruct d.
  - intros [[k' h'] n] doc Hdoc [E1 E2]. cbn in E1, E2. subst k'. rewrite Hkept in E2; [done|]. by eapply ok_documents.
  - intros [k' h'] row Hr [E1 E2]. cbn in E1, E2. subst k'. rewrite Hkept in E2; [done|]. by rewrite Hr.
Qed.

Lemma store_again scope keep m mb tables now n d k :
  (forall a b, collate a b = sleb a b) -> db_ok scope_to_string d -> verified_ok scope m mb tables -> scope_to_string scope = Some k ->
  rows_of k m tables d -> t_current d !! k = Some (content_sha256 m) -> Z.of_nat (length (snapshots_of k d)) <= keep ->
  exists n', store_snapshot always scope_to_string collate keep (m, mb, tables) None now n d
    = (Ok (mkDbReceipt (content_sha256 m) (Z.of_nat (length tables)) (List.fold_right (fun x t => f_size (fst (fst x)) + t) 0 tables) false), n', d).
Proof.
  intros Hc Hd Hv Hk Hrows Hcur Hcount. destruct (stored_rows_same scope k m mb tables d Hc Hv Hrows) as [Hlen Hsame].
  destruct Hrows as ((row & p & Hr & Hp & Hcontent & Hval & Hres) & _). unfold store_snapshot. rewrite (verified_scope _ _ _ _ Hv), Hk. cbn [ok_or].
  rewrite bind_lift, bind_query, bind_query, Hr. cbn [option_map].
  assert (Hfirst : forall B (kk : unit -> tx B) n1, exists n2, tx_bind
    (saved <-tx tx_lift (ok_or (published_from_slice (s_manifest row)) DbIntegrity);;
     _ <-tx tx_lift (ensure (is_ok (published_validate saved scope)) DbIntegrity);;
     _ <-tx tx_lift (ensure (String.eqb (content_sha256 saved) (content_sha256 m)) DbIntegrity);;
     rows <-tx query always (fun d => order_by (fun a b => collate (fst a) (fst b)) (documents_of k (content_sha256 m) d));;
     _ <-tx tx_lift (ensure (Nat.eqb (length rows) (length tables)) DbIntegrity);;
     _ <-tx tx_lift (ensure (same_documents rows tables) DbIntegrity);;
     if is_some (p_resource_version m) && negb (bool_decide (p_resource_version saved = p_resource_version m))
     then execute always (update_manifest k (content_sha256 m) mb)
     else tx_ret tt) kk n1 d = kk tt n2 d).
  { intros B kk n1. exists (S n1). unfold tx_bind at 1. rewrite Hp. cbn [ok_or]. rewrite bind_lift. rewrite <- (verified_scope _ _ _ _ Hv), Hval. cbn [ensure].
    rewrite bind_lift, Hcontent, String.eqb_refl. cbn [ensure]. rewrite bind_lift, bind_query, Hlen, Nat.eqb_refl. cbn [ensure]. rewrite bind_lift, Hsame.
    cbn [ensure]. rewrite bind_lift. destruct Hres as [-> | ->]; [done|]. rewrite bool_decide_eq_true_2 by done. rewrite andb_false_r. done. }
  match goal with |- context [tx_bind _ ?kk (S (S ?n)) d] => destruct (Hfirst _ kk (S (S n))) as (n2 & ->) end.
  rewrite Hcur, bool_decide_eq_true_2 by done. cbn [is_some negb orb]. rewrite bind_ret.
  rewrite (bind_try _ _ _ _ d) by by apply delete_old_nothing. by eexists.
Qed.

(** On a server that orders text by its bytes, publishing the same directory again
    after an acknowledged publication answers the same receipt without a change and
    leaves the database as it is. *)
Lemma publishing_again_changes_nothing interrupt config options connected v scope keep now commit d res d' later_now :
  (forall a b, collate a b = sleb a b) -> db_reachable scope_to_string collate d -> 1 <= keep ->
  publish interrupt scope_to_string collate config options connected v scope keep now commit d = (res, d') ->
  (exists e, res = Err e /\ t_snapshots d' = t_snapshots d /\ t_current d' = t_current d) \/
  exists r, publish always scope_to_string collate (Ok tt) (Ok tt) (Ok tt) v scope keep later_now Committed d' = (Ok r, d') /\ db_changed r = false /\
    forall r', res = Ok r' -> r = mkDbReceipt (db_content r') (db_tables r') (db_bytes r') false.
Proof.
  intros Hc Hr Hk Hp. apply reachable_db_ok in Hr. apply publish_cases in Hp as [(-> & e & ->)|[(e & work & -> & -> & _)|(m & mb & ts & r & k & Hv & Hvo & Hst & Hres)]];
    [left; by exists e| |right|done|done].
  { left. exists e. split; [done|]. destruct (roll_back_same d work) as (H1 & _ & _ & H4 & _). done. }
  exists (mkDbReceipt (db_content r) (db_tables r) (db_bytes r) false). split; [|split; [done|]].
  - unfold publish. cbn [rbind]. rewrite Hv. cbn [ok_or rbind]. unfold run_tx. rewrite bind_query. unfold publish_snapshot. rewrite !bind_execute.
    assert (create_schema (id d') = d') as ->.
    { pose proof (se_schema _ _ _ (sd_elsewhere _ _ _ _ _ _ _ _ _ _ _ Hst)) as Hs. destruct d'. cbn in *. by subst. }
    destruct (store_again scope keep m mb ts later_now 3 d' k) as (n' & ->); try done; try apply Hst.
    by rewrite (sd_receipt _ _ _ _ _ _ _ _ _ _ _ Hst).
  - intros r' E. destruct Hres as [->|(e & -> & _)]; [by injection E as <-|done].
Qed.
End database_theorems.
