(* ===== verification/DatabaseExamples.v ===== *)
(** The database mirror at concrete directories: publication, reads, repetition,
    migration, and a collation under which repetition is refused.

    The tables are left unevaluated: the keys of a database are long, and its
    normal form large. *)
From Stdlib Require Import ZArith Lia Ascii String List Bool.
From stdpp Require Import base list strings decidable gmap.
From S2P Require Import Prelude BTree Errors Regions Versions Http Rijndael MasterFiles MasterRegistry MasterHistory MasterChain MasterImport MasterService MasterSync RegistryOwner MasterExamples MasterDatabase.

Local Open Scope Z_scope.
Local Open Scope rust_scope.

Definition key_of (s : Scope) : option string := if bool_decide (s = jp) then Some "jp"%string else None.
Lemma key_of_jp s : key_of s = Some "jp"%string -> s = jp.
Proof. unfold key_of. by case_bool_decide. Qed.

Definition publish_a (commit : CommitIo) (d : db) : result DbError Receipt * db :=
  publish always key_of sleb (Ok tt) (Ok tt) (Ok tt) (fun _ => published_a) jp 2 60 commit d.
Definition mirrored : db := snd (publish_a Committed empty_db).
Definition content_a : string := Eval vm_compute in content_sha256 (i_value (installed published_a "master-a")).

Lemma mirrored_reachable : db_reachable key_of sleb mirrored.
Proof. unfold mirrored, publish_a. apply dbr_publish; [apply dbr_empty|lia]. Qed.
Lemma mirrored_current : t_current mirrored !! "jp"%string = Some content_a.
Proof. vm_compute. reflexivity. Qed.

(** The answer of an operation that succeeds, without evaluating the tables. *)
Lemma answered_ok {A} (p : result DbError A * db) : is_ok (fst p) = true -> exists a, p = (Ok a, snd p).
Proof. destruct p as [[a|e] d]; [by exists a|done]. Qed.
Lemma err_not_ok {A} (p : result DbError A * db) e : fst p = Err e -> is_ok (fst p) = true -> False.
Proof. by intros ->. Qed.

(** An uncertain commit that was done. *)
Lemma publication_is_all_or_nothing_witness :
  fst (publish_a (Uncertain DbDatabase true) empty_db) = Err DbDatabase /\
  exists m mb tables r k, verified_snapshot jp (fun _ => published_a) None = Some (m, mb, tables) /\
    stored key_of 2 jp m tables None 60 (create_schema empty_db) r (snd (publish_a (Uncertain DbDatabase true) empty_db)) k.
Proof.
  assert (He : fst (publish_a (Uncertain DbDatabase true) empty_db) = Err DbDatabase) by (vm_compute; reflexivity). split; [exact He|].
  destruct (publication_is_all_or_nothing key_of sleb always (Ok tt) (Ok tt) (Ok tt) (fun _ => published_a) jp 2 60 (Uncertain DbDatabase true)
    empty_db _ _ (dbr_empty _ _) ltac:(lia) (surjective_pairing _)) as [(e & _ & H & _)|(m & mb & tables & r & k & H1 & H2 & _)].
  - exfalso. assert (Hn : bool_decide (t_snapshots (snd (publish_a (Uncertain DbDatabase true) empty_db)) !! ("jp"%string, content_a) = None) = false)
      by (vm_compute; reflexivity). apply bool_decide_eq_false in Hn. apply Hn. unfold publish_a. rewrite H. apply lookup_empty.
  - exists m, mb, tables, r, k. split; [exact H1|exact H2].
Defined.

Lemma publishing_again_changes_nothing_witness :
  exists r, publish_a Committed mirrored = (Ok r, mirrored) /\ db_changed r = false.
Proof.
  destruct (publishing_again_changes_nothing key_of sleb always (Ok tt) (Ok tt) (Ok tt) (fun _ => published_a) jp 2 60 Committed
    empty_db _ _ 60 (fun a b => eq_refl) (dbr_empty _ _) ltac:(lia) (surjective_pairing _)) as [(e & He & _)|(r & H1 & H2 & _)].
  - exfalso. assert (Hok : is_ok (fst (publish_a Committed empty_db)) = true) by (vm_compute; reflexivity). exact (err_not_ok _ e He Hok).
  - exists r. split; [exact H1|exact H2].
Defined.

Lemma database_always_serves_witness :
  exists row, t_snapshots mirrored !! ("jp"%string, content_a) = Some row /\
    is_ok (document always key_of jp None None mirrored) = true.
Proof.
  destruct (database_always_serves key_of sleb mirrored jp "jp" content_a
    ltac:(intros s s' H1 H2; by rewrite (key_of_jp s H1), (key_of_jp s' H2)) mirrored_reachable eq_refl mirrored_current)
    as (row & p & H1 & _ & _ & _ & H2).
  exists row. split; [exact H1|].
  assert (Hlen : option_map (fun row => Http.llen (s_manifest row)) (t_snapshots mirrored !! ("jp"%string, content_a)) = Some 1) by (vm_compute; reflexivity).
  rewrite H1 in Hlen. injection Hlen as Hlen. rewrite (proj1 (H2 ltac:(unfold Http.llen, MAX_DB_MANIFEST in *; lia))). reflexivity.
Defined.

Lemma documents_read_are_verified_witness :
  exists doc row, document always key_of jp None None mirrored = Ok doc /\ t_snapshots mirrored !! ("jp"%string, content_a) = Some row /\
    d_bytes doc = s_manifest row.
Proof.
  assert (Hd : is_ok (document always key_of jp None None mirrored) = true) by (vm_compute; reflexivity).
  destruct (document always key_of jp None None mirrored) as [doc|] eqn:E; [|discriminate].
  destruct (documents_read_are_verified key_of always jp None None mirrored doc E) as (k & h & row & p & H1 & H2 & H3 & _ & _ & _ & _ & _ & H4).
  exists doc, row. split; [reflexivity|]. injection H1 as <-. rewrite mirrored_current in H2. injection H2 as <-. split; [exact H3|exact H4].
Defined.

(** The committed history of the store, migrated into an empty database. *)
Definition plan (p : PlanV1) : option (list Z) := Some (bytes_of (pl_head p)).

Definition migrate_store (d : db) : result DbError MigrationReceipt * db :=
  migrate_history always key_of sleb plan (Ok tt) (Ok tt) (Ok tt) (fun _ => store3) (fun _ => store3) jp 2 60 Committed d.
Lemma migration_stores_the_history_once_witness :
  exists r history evs, fst (migrate_store empty_db) = Ok r /\ migration_plan (fun _ => store3) jp = Some history /\ mr_changed r = true /\
    t_history (snd (migrate_store empty_db)) = evs ++ [] /\ Forall2 (event_matches 60) evs (entries history).
Proof.
  assert (Hok : is_ok (fst (migrate_store empty_db)) = true) by (vm_compute; reflexivity).
  destruct (answered_ok _ Hok) as (r & E).
  destruct (migration_stores_the_history_once key_of sleb always plan (Ok tt) (Ok tt) (Ok tt) (fun _ => store3) (fun _ => store3) jp 2 60 Committed
    empty_db r _ (dbr_empty _ _) ltac:(lia) E) as (history & k & H1 & _ & H2).
  destruct (t_migrations empty_db !! k) as [row|] eqn:Em; [exfalso; cbn in Em; by rewrite lookup_empty in Em|].
  destruct H2 as (H3 & _ & (evs & H4 & H5 & _) & _). exists r, history, evs. split; [exact (f_equal fst E)|]. split; [exact H1|]. split; [exact H3|]. split; [exact H4|exact H5].
Defined.

(** * A collation that ignores case *)

(** Two tables whose names differ first in case: bytes and such a collation
    order them differently. *)
Definition two_entries : list Entry :=
  [mkEntry "MasterA.bin" (e_hash entry_a) (e_size entry_a); mkEntry "MasterAb.bin" (e_hash entry_a) (e_size entry_a);
   mkEntry "MasterB.bin" (e_hash entry_a) (e_size entry_a); mkEntry "Mastera.bin" (e_hash entry_a) (e_size entry_a)].
Definition two_input : files :=
  <["MasterManifest.json"%string := Regular (match to_vec (mkManifest "1.0" two_entries) with Some b => b | None => [] end)]>
    (List.fold_right (fun e d => <[e_name e := Regular encrypted_a]> d) ∅ two_entries).
Definition two_published : root := Eval vm_compute in
  List.last (snd (import_directory_for_region true two_input empty_root working PublishOk (decoder_new key vector) None Jp "a" 49)) empty_root.
Fixpoint lower (s : string) : string := match s with EmptyString => EmptyString | String c s => String (ascii_lower c) (lower s) end.
Definition ignore_case (a b : string) : bool := sleb (lower a) (lower b).
Definition publish_two (collate : string -> string -> bool) (d : db) : result DbError Receipt * db :=
  publish always key_of collate (Ok tt) (Ok tt) (Ok tt) (fun _ => two_published) jp 2 60 Committed d.

Example bytewise_repeats :
  is_ok (fst (publish_two sleb empty_db)) = true /\ is_ok (fst (publish_two sleb (snd (publish_two sleb empty_db)))) = true.
Proof. split; vm_compute; reflexivity. Qed.
Example ignoring_case_refuses_to_repeat :
  is_ok (fst (publish_two ignore_case empty_db)) = true /\
  fst (publish_two ignore_case (snd (publish_two ignore_case empty_db))) = Err DbIntegrity.
Proof. split; vm_compute; reflexivity. Qed.
