(* ===== verification/GitReindent.v ===== *)
(** The re-indented tables of a Git publication ([master_git.rs]'s [reindent]).

    The text is a list of bytes; an index of the source is the rest of the input
    it points at.  The specification is [compact], which drops the white space
    outside strings: re-indenting changes nothing else, depends on nothing else,
    and fails only on text that is not balanced. *)
From Stdlib Require Import ZArith Lia List Bool.
From stdpp Require Import base list decidable.
From S2P Require Import Prelude.

Local Open Scope Z_scope.

Definition whitespace (b : Z) : bool := (b =? 32) || (b =? 9) || (b =? 10) || (b =? 13).
Definition opening (b : Z) : bool := (b =? 123) || (b =? 91).
Definition closing (b : Z) : bool := (b =? 125) || (b =? 93).
Definition close_of (b : Z) : Z := if b =? 123 then 125 else 93.

Definition newline (depth : nat) : list Z := 10 :: repeat 32 (2 * depth).

(** The loop over a string after its opening quote: the bytes up to and with the
    closing one, and what follows. *)
Fixpoint scan_string (l : list Z) : option (list Z * list Z) :=
  match l with
  | [] => None
  | b :: l' =>
      if b =? 92 then
        match l' with
        | [] => None
        | c :: l'' => option_map (fun p => (b :: c :: fst p, snd p)) (scan_string l'')
        end
      else if b =? 34 then Some ([b], l')
      else option_map (fun p => (b :: fst p, snd p)) (scan_string l')
  end.
Fixpoint skip_whitespace (l : list Z) : list Z :=
  match l with
  | b :: l' => if whitespace b then skip_whitespace l' else l
  | [] => []
  end.

(** What the loop still writes from a position, at a depth. *)
Fixpoint reindent_loop (fuel : nat) (depth : nat) (l : list Z) : option (list Z) :=
  match l with
  | [] => if Nat.eqb depth 0 then Some [] else None
  | b :: l' =>
      match fuel with
      | O => None
      | S fuel =>
          if whitespace b then reindent_loop fuel depth l'
          else if b =? 34 then
            match scan_string l' with
            | Some (token, rest) => option_map (app (b :: token)) (reindent_loop fuel depth rest)
            | None => None
            end
          else if opening b then
            match skip_whitespace l' with
            | c :: rest =>
                if c =? close_of b then option_map (app [b; c]) (reindent_loop fuel depth rest)
                else option_map (app (b :: newline (S depth))) (reindent_loop fuel (S depth) l')
            | [] => option_map (app (b :: newline (S depth))) (reindent_loop fuel (S depth) l')
            end
          else if closing b then
            match depth with
            | O => None
            | S depth => option_map (app (newline depth ++ [b])) (reindent_loop fuel depth l')
            end
          else if b =? 44 then option_map (app (b :: newline depth)) (reindent_loop fuel depth l')
          else if b =? 58 then option_map (app [b; 32]) (reindent_loop fuel depth l')
          else option_map (cons b) (reindent_loop fuel depth l')
      end
  end.
Definition reindent (input : list Z) : option (list Z) :=
  match reindent_loop (length input) 0 input with
  | Some [] => None
  | Some out => Some (out ++ [10])
  | None => None
  end.

(** * Specification *)
Inductive position : Type := Outside | Inside | Escaped.
Definition advance (p : position) (b : Z) : position :=
  match p with
  | Outside => if b =? 34 then Inside else Outside
  | Inside => if b =? 92 then Escaped else if b =? 34 then Outside else Inside
  | Escaped => Inside
  end.
(** The text without its insignificant white space. *)
Fixpoint compact_from (p : position) (l : list Z) : list Z :=
  match l with
  | [] => []
  | b :: l => match p with
              | Outside => if whitespace b then compact_from Outside l else b :: compact_from (advance Outside b) l
              | _ => b :: compact_from (advance p b) l
              end
  end.
Definition compact (l : list Z) : list Z := compact_from Outside l.
(** Strings end, and brackets close what was opened. *)
Fixpoint balanced_from (p : position) (depth : nat) (l : list Z) : bool :=
  match l with
  | [] => match p with Outside => Nat.eqb depth 0 | _ => false end
  | b :: l =>
      match p with
      | Outside => if opening b then balanced_from Outside (S depth) l
                   else if closing b then match depth with O => false | S depth => balanced_from Outside depth l end
                   else balanced_from (advance Outside b) depth l
      | _ => balanced_from (advance p b) depth l
      end
  end.
Definition balanced (l : list Z) : bool := balanced_from Outside 0 l.

(** * Lemmas *)
Lemma whitespace_cases b : whitespace b = true -> b = 32 \/ b = 9 \/ b = 10 \/ b = 13.
Proof. unfold whitespace. lia. Qed.

Lemma compact_newline depth l : compact_from Outside (newline depth ++ l) = compact_from Outside l.
Proof. unfold newline. cbn [app compact_from whitespace]. induction (2 * depth)%nat as [|n IH]; [done|]. cbn [repeat app compact_from]. exact IH. Qed.

(** Induction that may skip an element. *)
Lemma list_two_ind {A} (P : list A -> Prop) :
  P [] -> (forall b, P [b]) -> (forall b c l, P (c :: l) -> P l -> P (b :: c :: l)) -> forall l, P l.
Proof.
  intros H0 H1 H2 l. enough (P l /\ forall b, P (b :: l)) by tauto. induction l as [|c l [IH1 IH2]]; [auto|]. split; [apply IH2|].
  intros b. by apply H2.
Qed.

(** A scanned token, whatever follows it. *)
Record scanned (token : list Z) : Prop := {
  sc_scan : forall r, scan_string (token ++ r) = Some (token, r);
  sc_compact : forall r, compact_from Inside (token ++ r) = token ++ compact_from Outside r;
  sc_balanced : forall d r, balanced_from Inside d (token ++ r) = balanced_from Outside d r;
}.
Lemma scan_string_ok l token rest : scan_string l = Some (token, rest) -> l = token ++ rest /\ scanned token.
Proof.
  revert token rest. induction l as [|b|b c l IH1 IH2] using list_two_ind; intros token rest; [done| |].
  - cbn [scan_string]. destruct (b =? 92) eqn:E1; [done|]. destruct (b =? 34) eqn:E2; [|done]. intros [= <- <-]. split; [done|].
    split; intros; cbn [app scan_string compact_from balanced_from advance]; by rewrite E1, E2.
  - cbn [scan_string]. destruct (b =? 92) eqn:E1.
    + destruct (scan_string l) as [[t r]|]; [|done]. intros [= <- <-]. destruct (IH2 t r eq_refl) as [-> [S1 S2 S3]]. split; [done|].
      split; intros; cbn [app scan_string compact_from balanced_from advance]; rewrite E1; cbn [compact_from balanced_from advance]; [by rewrite S1|by rewrite S2|by rewrite S3].
    + destruct (b =? 34) eqn:E2.
      * intros [= <- <-]. split; [done|]. split; intros; cbn [app scan_string compact_from balanced_from advance]; by rewrite E1, E2.
      * change (match scan_string (c :: l) with Some p => Some (b :: fst p, snd p) | None => None end = Some (token, rest) ->
          b :: c :: l = token ++ rest /\ scanned token).
        destruct (scan_string (c :: l)) as [[t r]|]; [|done]. intros [= <- <-]. destruct (IH1 t r eq_refl) as [E [S1 S2 S3]]. split; [by rewrite E|].
        split; intros; cbn [app scan_string compact_from balanced_from advance]; rewrite E1, E2; [by rewrite S1|by rewrite S2|by rewrite S3].
Qed.
Lemma compact_inside b l : compact_from Inside (b :: l) = b :: compact_from (advance Inside b) l.
Proof. reflexivity. Qed.
Lemma balanced_inside d b l : balanced_from Inside d (b :: l) = balanced_from (advance Inside b) d l.
Proof. reflexivity. Qed.
Lemma scan_string_none l : scan_string l = None -> compact_from Inside l = l /\ forall d, balanced_from Inside d l = false.
Proof.
  induction l as [|b|b c l IH1 IH2] using list_two_ind; [done| |].
  - cbn. destruct (b =? 92) eqn:E1; [done|]. by destruct (b =? 34).
  - rewrite compact_inside. setoid_rewrite balanced_inside. cbn [advance scan_string]. destruct (b =? 92) eqn:E1.
    + destruct (scan_string l) as [[t r]|]; [done|]. intros _. destruct (IH2 eq_refl) as [C B]. cbn [compact_from balanced_from advance]. by rewrite C.
    + destruct (b =? 34) eqn:E2; [done|]. intros Hn.
      assert (Hs : scan_string (c :: l) = None) by (cbn [scan_string]; revert Hn; by destruct (if c =? 92 then _ else _)).
      destruct (IH1 Hs) as [C B]. split; [by rewrite C|done].
Qed.
Lemma scan_string_length l token rest : scan_string l = Some (token, rest) -> (length rest <= length l)%nat.
Proof. intros [-> _]%scan_string_ok. rewrite length_app. lia. Qed.

Lemma skip_whitespace_facts l :
  compact_from Outside (skip_whitespace l) = compact_from Outside l /\ (forall d, balanced_from Outside d (skip_whitespace l) = balanced_from Outside d l) /\
  (length (skip_whitespace l) <= length l)%nat /\ match skip_whitespace l with b :: _ => whitespace b = false | [] => True end.
Proof.
  induction l as [|b l (IH1 & IH2 & IH3 & IH4)]; [done|]. cbn [skip_whitespace]. destruct (whitespace b) eqn:E.
  - split; [rewrite IH1; cbn [compact_from]; by rewrite E|]. split; [|split; [cbn; lia|done]]. intros d. rewrite IH2.
    apply whitespace_cases in E as [-> |[-> |[-> | ->]]]; reflexivity.
  - done.
Qed.
Lemma compact_head l : skip_whitespace (compact_from Outside l) = compact_from Outside l.
Proof. induction l as [|b l IH]; [done|]. cbn [compact_from]. destruct (whitespace b) eqn:E; [exact IH|]. cbn [skip_whitespace]. by rewrite E. Qed.

Lemma close_of_facts b : opening b = true -> closing (close_of b) = true /\ opening (close_of b) = false /\ (close_of b =? 34) = false /\ whitespace (close_of b) = false.
Proof. unfold opening, close_of. destruct (b =? 123); done. Qed.

(** One step of the loop; the list of its cases. *)
Inductive shape (b : Z) (l : list Z) : Prop :=
| ShapeSpace (E : whitespace b = true)
| ShapeString token rest (E : b = 34) (Hl : l = token ++ rest) (Hs : scanned token)
| ShapeUnclosed (E : b = 34) (Hn : scan_string l = None)
| ShapeEmpty rest (E : opening b = true) (Hk : skip_whitespace l = close_of b :: rest)
| ShapeOpen (E : opening b = true) (Hk : forall rest, skip_whitespace l <> close_of b :: rest)
| ShapeClose (E : closing b = true)
| ShapeComma (E : b = 44)
| ShapeColon (E : b = 58)
| ShapeOther (E : whitespace b = false) (E1 : b <> 34) (E2 : opening b = false) (E3 : closing b = false) (E4 : b <> 44) (E5 : b <> 58).
Lemma shape_of b l : shape b l.
Proof.
  destruct (whitespace b) eqn:E; [by apply ShapeSpace|]. destruct (Z.eq_dec b 34) as [->|E1].
  { destruct (scan_string l) as [[token rest]|] eqn:Es; [|by apply ShapeUnclosed]. apply scan_string_ok in Es as [-> Hs]. by eapply ShapeString. }
  destruct (opening b) eqn:E2.
  { destruct (skip_whitespace l) as [|c rest] eqn:Ek; [apply ShapeOpen; [done|by rewrite Ek]|]. destruct (Z.eq_dec c (close_of b)) as [->|Hc].
    - by eapply ShapeEmpty.
    - apply ShapeOpen; [done|]. rewrite Ek. by intros r [= ? _]. }
  destruct (closing b) eqn:E3; [by apply ShapeClose|]. destruct (Z.eq_dec b 44); [by apply ShapeComma|]. destruct (Z.eq_dec b 58); [by apply ShapeColon|].
  by apply ShapeOther.
Qed.

Lemma loop_step fuel depth b l :
  reindent_loop (S fuel) depth (b :: l) =
  if whitespace b then reindent_loop fuel depth l
  else if b =? 34 then match scan_string l with
                       | Some (token, rest) => option_map (app (b :: token)) (reindent_loop fuel depth rest)
                       | None => None
                       end
  else if opening b then
    match skip_whitespace l with
    | c :: rest => if c =? close_of b then option_map (app [b; c]) (reindent_loop fuel depth rest)
                   else option_map (app (b :: newline (S depth))) (reindent_loop fuel (S depth) l)
    | [] => option_map (app (b :: newline (S depth))) (reindent_loop fuel (S depth) l)
    end
  else if closing b then match depth with O => None | S depth => option_map (app (newline depth ++ [b])) (reindent_loop fuel depth l) end
  else if b =? 44 then option_map (app (b :: newline depth)) (reindent_loop fuel depth l)
  else if b =? 58 then option_map (app [b; 32]) (reindent_loop fuel depth l)
  else option_map (cons b) (reindent_loop fuel depth l).
Proof. reflexivity. Qed.

Section steps.
Context (fuel depth : nat) (b : Z) (l : list Z).

Lemma loop_space : whitespace b = true -> reindent_loop (S fuel) depth (b :: l) = reindent_loop fuel depth l.
Proof. intros E. by rewrite loop_step, E. Qed.
Lemma loop_string token rest : scanned token ->
  reindent_loop (S fuel) depth (34 :: token ++ rest) = option_map (app (34 :: token)) (reindent_loop fuel depth rest).
Proof. intros Hs. rewrite loop_step. cbn [whitespace Z.eqb orb]. by rewrite (sc_scan _ Hs). Qed.
Lemma loop_unclosed : scan_string l = None -> reindent_loop (S fuel) depth (34 :: l) = None.
Proof. intros Hn. rewrite loop_step. cbn [whitespace Z.eqb orb]. by rewrite Hn. Qed.
Lemma opening_cases : opening b = true -> b = 123 \/ b = 91.
Proof. unfold opening. lia. Qed.
Lemma closing_cases : closing b = true -> b = 125 \/ b = 93.
Proof. unfold closing. lia. Qed.
Lemma loop_empty rest : opening b = true -> skip_whitespace l = close_of b :: rest ->
  reindent_loop (S fuel) depth (b :: l) = option_map (app [b; close_of b]) (reindent_loop fuel depth rest).
Proof. intros E Hk. rewrite loop_step, Hk, Z.eqb_refl, E. by apply opening_cases in E as [-> | ->]. Qed.
Lemma loop_open : opening b = true -> (forall rest, skip_whitespace l <> close_of b :: rest) ->
  reindent_loop (S fuel) depth (b :: l) = option_map (app (b :: newline (S depth))) (reindent_loop fuel (S depth) l).
Proof.
  intros E Hk. rewrite loop_step, E.
  assert (match skip_whitespace l with
          | c :: rest => if c =? close_of b then option_map (app [b; c]) (reindent_loop fuel depth rest)
                         else option_map (app (b :: newline (S depth))) (reindent_loop fuel (S depth) l)
          | [] => option_map (app (b :: newline (S depth))) (reindent_loop fuel (S depth) l)
          end = option_map (app (b :: newline (S depth))) (reindent_loop fuel (S depth) l)) as ->.
  { destruct (skip_whitespace l) as [|c rest]; [done|]. destruct (Z.eqb_spec c (close_of b)) as [->|]; [|done]. by destruct (Hk rest). }
  by apply opening_cases in E as [-> | ->].
Qed.
Lemma loop_close : closing b = true ->
  reindent_loop (S fuel) depth (b :: l) = match depth with O => None | S d => option_map (app (newline d ++ [b])) (reindent_loop fuel d l) end.
Proof. intros E. rewrite loop_step. by apply closing_cases in E as [-> | ->]. Qed.
Lemma loop_comma : reindent_loop (S fuel) depth (44 :: l) = option_map (app (44 :: newline depth)) (reindent_loop fuel depth l).
Proof. by rewrite loop_step. Qed.
Lemma loop_colon : reindent_loop (S fuel) depth (58 :: l) = option_map (app [58; 32]) (reindent_loop fuel depth l).
Proof. by rewrite loop_step. Qed.
Lemma loop_other : whitespace b = false -> b <> 34 -> opening b = false -> closing b = false -> b <> 44 -> b <> 58 ->
  reindent_loop (S fuel) depth (b :: l) = option_map (cons b) (reindent_loop fuel depth l).
Proof.
  intros E E1 E2 E3 E4 E5. apply Z.eqb_neq in E1, E4, E5. by rewrite loop_step, E, E1, E2, E3, E4, E5.
Qed.
End steps.

Lemma compact_space b l : whitespace b = true -> compact_from Outside (b :: l) = compact_from Outside l.
Proof. intros E. cbn [compact_from]. by rewrite E. Qed.
Lemma compact_quote l : compact_from Outside (34 :: l) = 34 :: compact_from Inside l.
Proof. reflexivity. Qed.
Lemma compact_plain b l : whitespace b = false -> b <> 34 -> compact_from Outside (b :: l) = b :: compact_from Outside l.
Proof. intros E Hb. cbn [compact_from advance]. apply Z.eqb_neq in Hb. by rewrite E, Hb. Qed.
Lemma bracket_plain b : opening b = true \/ closing b = true -> whitespace b = false /\ b <> 34.
Proof. by intros [[-> | ->]%opening_cases|[-> | ->]%closing_cases]. Qed.

(** The lengths that the fuel has to cover. *)
Lemma skip_rest_length b l rest : skip_whitespace l = b :: rest -> (length rest < length l)%nat.
Proof. intros E. destruct (skip_whitespace_facts l) as (_ & _ & H & _). rewrite E in H. cbn in H. lia. Qed.

(** Re-indenting depends on the compact text only. *)
Lemma loop_compact fuel fuel' depth l :
  (length l <= fuel)%nat -> (length (compact_from Outside l) <= fuel')%nat ->
  reindent_loop fuel depth l = reindent_loop fuel' depth (compact_from Outside l).
Proof.
  revert fuel' depth l. induction fuel as [|fuel IH]; intros fuel' depth l Hl Hl'; (destruct l as [|b l]; [by destruct fuel'|]); cbn [length] in Hl; [lia|].
  destruct (shape_of b l) as [E|token rest -> -> Hs|E Hn|rest E Hk|E Hk|E| -> | -> |E E1 E2 E3 E4 E5].
  - rewrite loop_space by done. rewrite compact_space in * by done. apply IH; [lia|done].
  - rewrite length_app in Hl. rewrite compact_quote, (sc_compact _ Hs) in *. cbn [length] in Hl'. rewrite length_app in Hl'.
    destruct fuel' as [|fuel']; [lia|]. rewrite !loop_string by done. f_equal. apply IH; lia.
  - subst b. destruct (scan_string_none l Hn) as [C _]. rewrite compact_quote, C in *. cbn [length] in Hl'.
    destruct fuel' as [|fuel']; [lia|]. by rewrite !loop_unclosed.
  - rewrite (loop_empty _ _ _ _ rest) by done. pose proof (skip_rest_length _ _ _ Hk). destruct (skip_whitespace_facts l) as (C & _ & _ & _). rewrite Hk in C.
    destruct (close_of_facts b E) as (Hc & _ & _ & E2). destruct (bracket_plain (close_of b)) as [_ E1]; [by right|]. rewrite compact_plain in C by done.
    destruct (bracket_plain b) as [E3 E4]; [by left|]. rewrite (compact_plain b), <- C in * by done. cbn [length] in Hl'.
    destruct fuel' as [|fuel']; [lia|]. rewrite (loop_empty _ _ _ _ (compact_from Outside rest)); [f_equal; apply IH; lia|done|].
    cbn [skip_whitespace]. by rewrite E2.
  - rewrite loop_open by done. destruct (bracket_plain b) as [E3 E4]; [by left|]. rewrite (compact_plain b) in * by done. cbn [length] in Hl'.
    destruct fuel' as [|fuel']; [lia|]. rewrite loop_open; [f_equal; apply IH; lia|done|].
    intros rest Hr. rewrite compact_head in Hr. destruct (skip_whitespace_facts l) as (C & _ & _ & Hhead).
    destruct (skip_whitespace l) as [|c rest'] eqn:Ek; [by rewrite <- C in Hr|]. cbn [compact_from] in C. rewrite Hhead in C. rewrite <- C in Hr.
    injection Hr as -> _. by apply (Hk rest').
  - rewrite loop_close by done. destruct (bracket_plain b) as [E3 E4]; [by right|]. rewrite (compact_plain b) in * by done. cbn [length] in Hl'.
    destruct fuel' as [|fuel']; [lia|]. rewrite loop_close by done. destruct depth as [|d]; [done|]. f_equal. apply IH; lia.
  - rewrite compact_plain in * by done. cbn [length] in *. destruct fuel' as [|fuel']; [lia|]. rewrite !loop_comma. f_equal. apply IH; lia.
  - rewrite compact_plain in * by done. cbn [length] in *. destruct fuel' as [|fuel']; [lia|]. rewrite !loop_colon. f_equal. apply IH; lia.
  - rewrite compact_plain in * by done. cbn [length] in *. destruct fuel' as [|fuel']; [lia|]. rewrite !loop_other by done. f_equal. apply IH; lia.
Qed.

(** What the loop writes has the compact text of what it reads, from any position
    that follows. *)
Lemma loop_writes fuel depth l out :
  (length l <= fuel)%nat -> reindent_loop fuel depth l = Some out ->
  compact_from Outside out = compact_from Outside l /\ balanced_from Outside depth l = true.
Proof.
  revert depth l out. induction fuel as [|fuel IH]; intros depth l out Hl; (destruct l as [|b l]; [cbn; by destruct depth; [intros [= <-]|]|]); cbn [length] in Hl; [lia|].
  assert (Hmap : forall d l' (f : list Z -> list Z), (length l' <= fuel)%nat -> option_map f (reindent_loop fuel d l') = Some out ->
    exists o, out = f o /\ compact_from Outside o = compact_from Outside l' /\ balanced_from Outside d l' = true).
  { intros d l' f Hl' E. destruct (reindent_loop fuel d l') as [o|] eqn:Eo; [|done]. injection E as <-. exists o. split; [done|]. by apply IH. }
  destruct (shape_of b l) as [E|token rest -> -> Hs|E Hn|rest E Hk|E Hk|E| -> | -> |E E1 E2 E3 E4 E5].
  - rewrite loop_space by done. intros Ho. apply IH in Ho as [C B]; [|lia]. rewrite compact_space by done. split; [done|].
    by apply whitespace_cases in E as [-> |[-> |[-> | ->]]].
  - rewrite loop_string by done. rewrite length_app in Hl. intros (o & -> & C & B)%Hmap; [|lia]. rewrite (compact_quote (token ++ rest)), (sc_compact _ Hs).
    cbn [app]. rewrite compact_quote, (sc_compact _ Hs), C. split; [done|]. change (balanced_from Inside depth (token ++ rest) = true). by rewrite (sc_balanced _ Hs).
  - subst b. by rewrite loop_unclosed.
  - rewrite (loop_empty _ _ _ _ rest) by done. pose proof (skip_rest_length _ _ _ Hk). intros (o & -> & C & B)%Hmap; [|lia].
    destruct (skip_whitespace_facts l) as (C' & B' & _ & _). rewrite Hk in C', B'. destruct (close_of_facts b E) as (Hc & Ho & _ & E2).
    destruct (bracket_plain (close_of b)) as [_ E1]; [by right|]. destruct (bracket_plain b) as [E3 E4]; [by left|]. cbn [app]. rewrite compact_plain in C' by done.
    rewrite !compact_plain, C by done. split; [by rewrite C'|]. cbn [balanced_from]. rewrite E, <- B'. cbn [balanced_from]. by rewrite Ho, Hc.
  - rewrite loop_open by done. intros (o & -> & C & B)%Hmap; [|lia]. destruct (bracket_plain b) as [E3 E4]; [by left|].
    cbn [app]. rewrite (compact_plain b), compact_newline, (compact_plain b l), C by done. split; [done|]. cbn [balanced_from]. by rewrite E.
  - rewrite loop_close by done. destruct depth as [|d]; [done|]. intros (o & -> & C & B)%Hmap; [|lia]. destruct (bracket_plain b) as [E3 E4]; [by right|].
    rewrite <- app_assoc, compact_newline. cbn [app]. rewrite !(compact_plain b), C by done. split; [done|]. cbn [balanced_from]. rewrite E.
    by apply closing_cases in E as [-> | ->].
  - rewrite loop_comma. intros (o & -> & C & B)%Hmap; [|lia]. cbn [app]. rewrite compact_plain, compact_newline, compact_plain, C by done. done.
  - rewrite loop_colon. intros (o & -> & C & B)%Hmap; [|lia]. cbn [app]. rewrite compact_plain, compact_space, compact_plain, C by done. done.
  - rewrite loop_other by done. intros (o & -> & C & B)%Hmap; [|lia]. rewrite !compact_plain, C by done. split; [done|]. cbn [balanced_from advance].
    rewrite E2, E3. by apply Z.eqb_neq in E1 as ->.
Qed.

Lemma loop_defined fuel depth l : (length l <= fuel)%nat -> balanced_from Outside depth l = true -> is_some (reindent_loop fuel depth l) = true.
Proof.
  revert depth l. induction fuel as [|fuel IH]; intros depth l Hl; (destruct l as [|b l]; [cbn; by destruct depth|]); cbn [length] in Hl; [lia|].
  assert (Hmap : forall d l' (f : list Z -> list Z), (length l' <= fuel)%nat -> balanced_from Outside d l' = true ->
    is_some (option_map f (reindent_loop fuel d l')) = true).
  { intros d l' f Hl' B. specialize (IH d l' Hl' B). by destruct (reindent_loop fuel d l'). }
  destruct (shape_of b l) as [E|token rest -> -> Hs|E Hn|rest E Hk|E Hk|E| -> | -> |E E1 E2 E3 E4 E5].
  - rewrite loop_space by done. intros B. apply IH; [lia|]. by apply whitespace_cases in E as [-> |[-> |[-> | ->]]].
  - rewrite loop_string by done. rewrite length_app in Hl. change (balanced_from Inside depth (token ++ rest) = true -> is_some (option_map (app (34 :: token)) (reindent_loop fuel depth rest)) = true).
    rewrite (sc_balanced _ Hs). apply Hmap. lia.
  - subst b. change (balanced_from Inside depth l = true -> is_some (reindent_loop (S fuel) depth (34 :: l)) = true). by rewrite (proj2 (scan_string_none l Hn)).
  - rewrite (loop_empty _ _ _ _ rest) by done. pose proof (skip_rest_length _ _ _ Hk). destruct (skip_whitespace_facts l) as (_ & B' & _ & _). rewrite Hk in B'.
    destruct (close_of_facts b E) as (Hc & Ho & _ & _). cbn [balanced_from]. rewrite E, <- B'. cbn [balanced_from]. rewrite Ho, Hc. apply Hmap. lia.
  - rewrite loop_open by done. cbn [balanced_from]. rewrite E. apply Hmap. lia.
  - rewrite loop_close by done. cbn [balanced_from]. assert (opening b = false) as -> by by apply closing_cases in E as [-> | ->]. rewrite E.
    destruct depth as [|d]; [done|]. apply Hmap. lia.
  - rewrite loop_comma. apply (Hmap depth l). lia.
  - rewrite loop_colon. apply (Hmap depth l). lia.
  - rewrite loop_other by done. cbn [balanced_from advance]. rewrite E2, E3. apply Z.eqb_neq in E1 as ->. apply Hmap. lia.
Qed.

Lemma balanced_compact p depth l : balanced_from p depth (compact_from p l) = balanced_from p depth l.
Proof.
  revert p depth. induction l as [|b l IH]; intros p depth; [done|]. destruct p; cbn [compact_from].
  - destruct (whitespace b) eqn:E.
    + rewrite IH. by apply whitespace_cases in E as [-> |[-> |[-> | ->]]].
    + cbn [balanced_from]. destruct (opening b) eqn:E1; [apply opening_cases in E1 as [-> | ->]; apply IH|].
      destruct (closing b) eqn:E2; [apply closing_cases in E2 as [-> | ->]; destruct depth; [done|apply IH|done|apply IH]|]. apply IH.
  - rewrite !balanced_inside. apply IH.
  - cbn [balanced_from]. apply IH.
Qed.
Lemma compact_app p depth l r : balanced_from p depth l = true -> compact_from p (l ++ r) = compact_from p l ++ compact_from Outside r.
Proof.
  revert p depth. induction l as [|b l IH]; intros p depth; [by destruct p|]. cbn [app]. destruct p; cbn [compact_from balanced_from].
  - destruct (opening b) eqn:E1.
    + intros B. destruct (bracket_plain b) as [E E']; [by left|]. rewrite E. cbn [advance]. apply Z.eqb_neq in E' as ->. by rewrite (IH _ _ B).
    + destruct (closing b) eqn:E2.
      * destruct depth as [|d]; [done|]. intros B. destruct (bracket_plain b) as [E E']; [by right|]. rewrite E. cbn [advance]. apply Z.eqb_neq in E' as ->. by rewrite (IH _ _ B).
      * destruct (whitespace b) eqn:E; [|intros B; by rewrite (IH _ _ B)]. intros B. apply (IH Outside depth).
        apply whitespace_cases in E as [-> |[-> |[-> | ->]]]; exact B.
  - intros B. by rewrite (IH _ _ B).
  - intros B. by rewrite (IH _ _ B).
Qed.

Lemma reindent_compact l : reindent (compact l) = reindent l.
Proof. unfold reindent, compact. by rewrite (loop_compact (length l) (length (compact_from Outside l)) 0 l). Qed.

(** C36: Re-indenting a table changes only white space between tokens, yields the same text
    for every input with the same tokens, leaves its own output as it is, and refuses
    only an input without tokens or one whose brackets or strings are not closed. *)
Theorem reindent_is_a_layout input :
  match reindent input with
  | Some out => compact out = compact input /\ reindent out = Some out /\ forall other, compact other = compact input -> reindent other = Some out
  | None => balanced input = false \/ compact input = []
  end.
Proof.
  assert (Hother : forall out, reindent input = Some out -> forall other, compact other = compact input -> reindent other = Some out).
  { intros out E other Hc. by rewrite <- reindent_compact, Hc, reindent_compact. }
  destruct (reindent input) as [out|] eqn:E.
  - assert (Hc : compact out = compact input).
    { unfold reindent in E. destruct (reindent_loop _ _ _) as [o|] eqn:Eo; [|done]. apply loop_writes in Eo as [C B]; [|done].
      assert (Ho : out = o ++ [10]) by (destruct o; [done|by injection E as <-]). subst out. unfold compact. rewrite (compact_app Outside 0 o); [cbn; by rewrite app_nil_r|].
      by rewrite <- balanced_compact, C, balanced_compact. }
    split; [done|]. split; [by apply Hother|by apply Hother].
  - unfold reindent in E. destruct (balanced input) eqn:B; [right|by left]. pose proof (loop_defined (length input) 0 input (le_n _) B) as Hd.
    destruct (reindent_loop _ _ _) as [[|? o]|] eqn:Eo; [|done|done]. apply loop_writes in Eo as [C _]; [|done]. by unfold compact.
Qed.

(** An object of arrays, with an escaped quote and white space in a string. *)
Example reindents_a_table :
  reindent [123; 34; 97; 34; 58; 91; 49; 44; 123; 125; 93; 44; 9; 34; 98; 34; 58; 32; 91; 32; 93; 44; 34; 99; 34; 58; 34; 120; 92; 34; 32; 121; 34; 125]
  = Some [123; 10; 32; 32; 34; 97; 34; 58; 32; 91; 10; 32; 32; 32; 32; 49; 44; 10; 32; 32; 32; 32; 123; 125; 10; 32; 32; 93; 44; 10; 32; 32; 34; 98; 34; 58; 32; 91; 93; 44; 10; 32; 32; 34; 99; 34; 58; 32; 34; 120; 92; 34; 32; 121; 34; 10; 125; 10].
Proof. vm_compute. reflexivity. Qed.
