(* ===== verification/GitConfig.v ===== *)
(** The configuration of Git publication ([master_git.rs]'s options, commit
    policy and remote, [master_git_worker.rs]'s parts of a credential),
    and the arguments it contributes to Git commands.

    The environment, the URL parser and Base64 are parameters; paths are those of
    Unix. *)
From Stdlib Require Import ZArith Lia Ascii String List Bool.
From stdpp Require Import base list strings decidable.
From S2P Require Import Prelude Errors Regions Http Environment MasterFiles.

Local Open Scope Z_scope.
Local Open Scope rust_scope.

Inductive GitError : Type :=
| Ownership | CommitConfig | RemoteConfig | RemoteChanged | Locked | GSnapshot | GGit | LayoutConfig | AssetVersion | NotAdoptable | TimeoutConfig.
#[export] Instance GitError_eq_dec : EqDecision GitError.
Proof. solve_decision. Defined.

(** * Options *)
Inductive Layout : Type := Native | IndentedRoot.
Definition DEFAULT_BRANCH : string := "master-data".
Definition DEFAULT_TIMEOUT_SECONDS : Z := 120.
Record GitOptions : Type := mkGitOptions { layout : Layout; branch : string; timeout_seconds : Z }.
Definition default_options : GitOptions := mkGitOptions Native DEFAULT_BRANCH DEFAULT_TIMEOUT_SECONDS.

Definition branch_part_ok (part : string) : bool :=
  negb (is_empty part) && negb (match part with String c _ => char_is 46 c || char_is 45 c | EmptyString => false end)
  && negb (ends_with part ".") && negb (ends_with part ".lock") && negb (str_contains part "..")
  && all_bytes (fun b => is_ascii_alphanumeric b || char_is 46 b || char_is 95 b || char_is 45 b) part.
Definition valid_branch (branch : string) : bool :=
  negb (is_empty branch) && (len branch <=? 128) && negb (String.eqb branch "HEAD") && forallb branch_part_ok (split_on "/" branch).
Definition timeout_ok (seconds : Z) : bool := in_range 10 600 seconds.
Definition options_validate (o : GitOptions) : result GitError unit :=
  if negb (valid_branch (branch o)) then Err LayoutConfig
  else if negb (timeout_ok (timeout_seconds o)) then Err TimeoutConfig
  else Ok tt.
Definition reference (o : GitOptions) : string := ("refs/heads/" ++ branch o)%string.

(** [apply_timeout_override]: [None] for a value that is not UTF-8 or not
    accepted leaves the options. *)
Fixpoint decimal (s : string) (acc : Z) : Z :=
  match s with EmptyString => acc | String c s => decimal s (acc * 10 + (byte_of c - 48)) end.
Definition timeout_override (value : string) : option Z :=
  if in_range 1 3 (len value) && negb (starts_with value "0") && all_bytes is_ascii_digit value
  then let seconds := decimal value 0 in if timeout_ok seconds then Some seconds else None
  else None.
Definition apply_timeout_override (o : GitOptions) (value : option (option string)) : result GitError unit * GitOptions :=
  match value with
  | None => (Ok tt, o)
  | Some value =>
      match match value with Some v => timeout_override v | None => None end with
      | Some seconds => (Ok tt, mkGitOptions (layout o) (branch o) seconds)
      | None => (Err TimeoutConfig, o)
      end
  end.

(** * Commit policy *)
Record Identity : Type := mkIdentity { id_name : string; id_email : string }.
Definition default_identity : Identity := mkIdentity "Sirius Master Publisher" "sirius-master@localhost".
Inductive SigningFormat : Type := Openpgp | Ssh.
Record Signing : Type := mkSigning { sg_format : SigningFormat; sg_key : string; sg_program : option string }.
Record CommitPolicy : Type := mkPolicy { author : Identity; committer : option Identity; signing : option Signing }.
Definition default_policy : CommitPolicy := mkPolicy default_identity None None.
Definition committer_of (p : CommitPolicy) : Identity := match committer p with Some i => i | None => author p end.

Definition identity_ok (i : Identity) : bool :=
  negb (all_whitespace (id_name i) || (256 <? len (id_name i)) || is_empty (id_email i) || (320 <? len (id_email i))
        || negb (contains_char 64 (id_email i)) || has_whitespace (id_email i)
        || List.existsb (fun v => has_control v || contains_char 60 v || contains_char 62 v) [id_name i; id_email i]).
Definition signing_ok (s : Signing) : bool :=
  negb (is_empty (sg_key s) || (1024 <? len (sg_key s)) || has_control (sg_key s))
  && match sg_format s with
     | Openpgp => in_range 16 64 (len (sg_key s)) && all_bytes is_ascii_hexdigit (sg_key s)
     | Ssh => is_absolute (sg_key s)
     end
  && none_or (sg_program s) (fun p =>
       is_absolute p && (len p <=? 1024) && all_bytes (fun b => is_ascii_alphanumeric b || char_is 47 b || char_is 46 b || char_is 95 b || char_is 45 b) p).
Definition commit_policy_validate (p : CommitPolicy) : result GitError unit :=
  guard? identity_ok (author p) && identity_ok (committer_of p) else CommitConfig;;
  match signing p with
  | None => Ok tt
  | Some s => ensure (signing_ok s) CommitConfig
  end.

(** Every value goes after its own [-c]. *)
Definition settings (values : list string) : list string := flat_map (fun v => ["-c"%string; v]) values.
Definition policy_arguments (p : CommitPolicy) : list string :=
  let c := committer_of p in
  settings
    (["author.name=" ++ id_name (author p); "author.email=" ++ id_email (author p);
      "committer.name=" ++ id_name c; "committer.email=" ++ id_email c]%string
     ++ match signing p with
        | None => []
        | Some s =>
            let '(format, program_key) := match sg_format s with
                                          | Openpgp => ("openpgp"%string, "gpg.openpgp.program"%string)
                                          | Ssh => ("ssh"%string, "gpg.ssh.program"%string)
                                          end in
            ["gpg.format=" ++ format; "user.signingkey=" ++ sg_key s]%string
            ++ match sg_program s with Some program => [(program_key ++ "=" ++ program)%string] | None => [] end
        end).

(** * Remote *)
Record Remote : Type := mkRemote {
  remote_url : string;
  authorization_env : option string;
  proxy_url_env : option string;
  allow_http : bool;
  allow_file : bool;
}.

Section remote.
Context (env : string -> option string) (url_parse : string -> option Url) (to_file_path : Url -> bool).

Definition git_reference_ok (name : string) : bool :=
  negb (is_empty name) && (len name <=? 256) && negb (starts_with name "GIT_") && reference_name_ok name.
Fixpoint lowercase (s : string) : string := match s with EmptyString => EmptyString | String c s => String (ascii_lower c) (lowercase s) end.
Definition remote_url_ok (r : Remote) (url : Url) : bool :=
  negb ((2048 <? len (remote_url r)) || any_byte is_ascii_whitespace (remote_url r) || contains_char 92 (remote_url r)
        || negb (is_empty (username url)) || is_some (password url) || is_some (query url) || is_some (fragment url)
        || negb (String.eqb (scheme url) "https" || allow_http r && String.eqb (scheme url) "http" || allow_file r && String.eqb (scheme url) "file")
        || negb (String.eqb (scheme url) "file") && is_none (host_str url)
        || String.eqb (scheme url) "file" && (negb (to_file_path url) || is_some (authorization_env r) || is_some (proxy_url_env r))).
Definition proxy_ok (value : string) (proxy : Url) : bool :=
  negb ((4096 <? len value) || has_control value || has_whitespace value || contains_char 92 value
        || negb (String.eqb (scheme proxy) "http" || String.eqb (scheme proxy) "https" || String.eqb (scheme proxy) "socks5h")
        || is_none (host_str proxy) || negb (is_empty (path proxy) || String.eqb (path proxy) "/") || is_some (query proxy) || is_some (fragment proxy)
        || bool_decide (password proxy = Some ""%string) || negb (Bool.eqb (is_empty (username proxy)) (is_none (password proxy)))).
Definition authorization_token (value : string) : option string :=
  match strip_prefix value "Authorization: Basic " with
  | Some token => Some token
  | None => strip_prefix value "Authorization: Bearer "
  end.
Definition authorization_ok (value : string) : bool :=
  (len value <=? 8192) && all_bytes (fun b => in_range 32 126 (byte_of b)) value
  && some_and (authorization_token value) (fun token => negb (is_empty token) && negb (any_byte is_ascii_whitespace token)).

Definition as_remote {A} (x : result AppError A) : result GitError A := match x with Ok a => Ok a | Err _ => Err RemoteConfig end.
Definition remote_validate (r : Remote) : result GitError unit :=
  url <-? ok_or (url_parse (remote_url r)) RemoteConfig;;
  guard? remote_url_ok r url else RemoteConfig;;
  _ <-? match proxy_url_env r with
        | None => Ok tt
        | Some name =>
            guard? git_reference_ok name
                   && negb (List.existsb (String.eqb (lowercase name)) ["http_proxy"; "https_proxy"; "all_proxy"; "no_proxy"]%string) else RemoteConfig;;
            value <-? as_remote (secret env name);;
            proxy <-? ok_or (url_parse value) RemoteConfig;;
            ensure (proxy_ok value proxy) RemoteConfig
        end;;
  match authorization_env r with
  | None => Ok tt
  | Some name =>
      guard? git_reference_ok name else RemoteConfig;;
      value <-? as_remote (secret env name);;
      ensure (authorization_ok value) RemoteConfig
  end.

Definition remote_options (r : Remote) : list string :=
  settings ["protocol.allow=never"; "protocol.https.allow=always"; "http.followRedirects=false"; "http.sslVerify=true"; "http.proxySSLVerify=true";
            "http.proxy="; "credential.helper="; "http.extraHeader="; "core.hooksPath=/dev/null"; "http.lowSpeedLimit=1000"; "http.lowSpeedTime=30"]%string
  ++ match proxy_url_env r with Some name => [("--config-env=http.proxy=" ++ name)%string] | None => [] end
  ++ (if allow_http r then ["-c"; "protocol.http.allow=always"]%string else [])
  ++ (if allow_file r then ["-c"; "protocol.file.allow=always"]%string else [])
  ++ match authorization_env r with Some name => [("--config-env=http." ++ remote_url r ++ ".extraHeader=" ++ name)%string] | None => [] end.

(** * Credentials *)

(** [split_once(':')]. *)
Fixpoint split_once (sep : Z) (s : string) : option (string * string) :=
  match s with
  | EmptyString => None
  | String c s' => if char_is sep c then Some (EmptyString, s') else option_map (fun p => (String c (fst p), snd p)) (split_once sep s')
  end.
Context (base64_decode : string -> option (list Z)).
Definition bad_authorization : AppError := Errors.Config "invalid Master Git authorization".
(** The header and every credential it holds. *)
Definition credential_parts (value : string) : result AppError (list string) :=
  match strip_prefix value "Authorization: Bearer " with
  | Some token => Ok [value; token]
  | None =>
      token <-? ok_or (strip_prefix value "Authorization: Basic ") bad_authorization;;
      decoded <-? ok_or (base64_decode token) bad_authorization;;
      decoded <-? ok_or (from_utf8 decoded) bad_authorization;;
      parts <-? ok_or (split_once 58 decoded) bad_authorization;;
      guard? negb (is_empty (snd parts)) else bad_authorization;;
      Ok [value; token; snd parts; decoded]
  end.
End remote.
