(* ===== verification/MasterGit.v ===== *)
(** Git publication of the local snapshot ([master_git.rs]): the owned state
    directory, the tree of a publication, the commit and its push.

    Git itself is the interface [Git]: what a command answers and the repositories
    afterwards.  A command that fails, is killed at its deadline or exceeds its
    limits answers nothing, and may have had its effect.  [GitOk] states what the
    code relies on of each command it issues; other writers may move the remote at
    any time.  Which file operations of the state directory work is an argument. *)
From Stdlib Require Import ZArith Lia Ascii String List Bool Sorted.
From stdpp Require Import base list strings decidable gmap.
From S2P Require Import Prelude BTree Errors Regions Versions Http Environment MasterFiles MasterRegistry MasterHistory MasterChain MasterImport MasterService GitReindent GitConfig.

Local Open Scope Z_scope.
Local Open Scope rust_scope.

(** * The state directory *)
Inductive entry_kind : Type := KFile (b : list Z) | KDirectory | KLink (resolves : bool) | KOther.
Notation state_files := (gmap string entry_kind).
(** A destination that is absent, is a link or no directory, or is a directory. *)
Inductive destination : Type := Absent | NoDirectory | Present (d : state_files).

Definition MARKER : string := "sirius-git.json".
Definition LOCK : string := "owner.lock".
Definition REPOSITORY : string := "repository.git".

Definition scope_json (s : Scope) : json :=
  JObj [("environment", JStr (environment s)); ("platform", JStr (platform_name (platform s))); ("region", JStr (region_name (region s)))]%string.
(** Objects of [serde_json::Value] keep their fields in the order of their names. *)
Definition marker_value (s : Scope) : json := JObj [("schema_version", JNum 1); ("scope", scope_json s)]%string.
Definition set_field (k : string) (x v : json) : json :=
  match v with
  | JObj fs => JObj (map (fun kv => if String.eqb (fst kv) k then (k, x) else kv) fs)
  | _ => v
  end.
Definition path_exists (k : option entry_kind) : bool :=
  match k with None | Some (KLink false) => false | _ => true end.

Section own.
Context `{MasterCodecs} (io : string -> bool).

Definition write_marker (d : state_files) (scope : Scope) : result GitError unit * state_files :=
  match value_to_vec (marker_value scope) with
  | Some b => if io "write_marker"%string then (Ok tt, <[MARKER := KFile b]> d) else (Err GSnapshot, d)
  | None => (Err GSnapshot, d)
  end.
(** The region a marker of an earlier version may record by its old name. *)
Definition legacy_region (v : json) : option Region :=
  match json_field "scope" v with
  | Some s => match json_field "region" s with
              | Some (JStr name) => if is_deprecated_alias name then from_recorded_name name else None
              | _ => None
              end
  | None => None
  end.
Definition renamed (v : json) (r : Region) : json :=
  match json_field "scope" v with
  | Some s => set_field "scope" (set_field "region" (JStr (region_name r)) s) v
  | None => v
  end.
Definition own_marker (d : state_files) (scope : Scope) : result GitError unit * state_files :=
  if path_exists (d !! MARKER)
  then
    match d !! MARKER with
    | Some (KFile b) =>
        if (4096 <? llen b) || negb (io "read_marker"%string) then (Err Ownership, d)
        else
          match value_from_slice b with
          | None => (Err Ownership, d)
          | Some existing =>
              let legacy := legacy_region existing in
              let existing := match legacy with Some r => renamed existing r | None => existing end in
              if negb (json_eqb existing (marker_value scope)) then (Err Ownership, d)
              else if is_some legacy then write_marker d scope else (Ok tt, d)
          end
    | _ => (Err Ownership, d)
    end
  else if negb (io "read_dir"%string) || negb (bool_decide (delete LOCK d = ∅)) then (Err Ownership, d)
  else write_marker d scope.

Definition own (dest : destination) (scope : Scope) : result GitError unit * destination :=
  match dest with
  | NoDirectory => (Err Ownership, dest)
  | _ =>
      if negb (io "create_dir_all"%string) then (Err GSnapshot, dest)
      else
        let d := match dest with Present d => d | _ => ∅ end in
        if negb (io "canonicalize"%string) then (Err GSnapshot, Present d)
        else if match d !! LOCK with None | Some (KFile _) => false | _ => true end then (Err Ownership, Present d)
        else if negb (io "open_lock"%string) then (Err GSnapshot, Present d)
        else
          let d := match d !! LOCK with None => <[LOCK := KFile []]> d | Some _ => d end in
          if negb (io "acquire"%string) then (Err Locked, Present d)
          else
            match own_marker d scope with
            | (Err e, d) => (Err e, Present d)
            | (Ok _, d) =>
                if match d !! REPOSITORY with None | Some KDirectory => false | _ => true end then (Err Ownership, Present d)
                else (Ok tt, Present d)
            end
  end.
End own.

(** * The tree of a publication *)
Definition published_value (m : PublishedManifest) : json :=
  let entry e := JObj [("hash", JStr (e_hash e)); ("name", JStr (e_name e)); ("size", JNum (e_size e))]%string in
  let file f := JObj [("name", JStr (f_name f)); ("sha256", JStr (f_sha256 f)); ("size", JNum (f_size f))]%string in
  JObj ([("content_sha256", JStr (content_sha256 m)); ("files", JArr (map file (p_files m)))]%string
        ++ match p_resource_version m with Some v => [("resource_version"%string, JStr v)] | None => [] end
        ++ [("schema_version", JNum (p_schema_version m)); ("scope", scope_json (p_scope m)); ("snapshot", JStr (p_snapshot m));
            ("source_manifest", JObj [("files", JArr (map entry (m_files (source_manifest m)))); ("version", JStr (m_version (source_manifest m)))]);
            ("version", JStr (p_version m))]%string).
Definition metadata_value (m : PublishedManifest) : json := json_remove "resource_version" (json_remove "snapshot" (published_value m)).

Section prepare.
Context `{MasterCodecs} (pretty : json -> option (list Z)) (json_text : string -> string) (write : string -> bool).

Definition quote_char : string := String (ascii_of_nat 34) "".
Definition line_end : string := String (ascii_of_nat 10) "".
(** The format string of the document, around the two JSON strings. *)
Definition version_document (data_version asset_version : string) : list Z :=
  bytes_of ("{" ++ line_end ++ "  " ++ quote_char ++ "dataVersion" ++ quote_char ++ ": " ++ json_text data_version ++ "," ++ line_end
            ++ "  " ++ quote_char ++ "assetVersion" ++ quote_char ++ ": " ++ json_text asset_version ++ line_end ++ "}" ++ line_end).

Definition staged : Type := list (string * list Z).
Definition stage (name : string) (bytes : list Z) (rest : result GitError staged) : result GitError staged :=
  guard? write name else GSnapshot;;
  rest <-? rest;;
  Ok ((name, bytes) :: rest).
Fixpoint stage_files (v : view) (l : Layout) (m : PublishedManifest) (fs : list File) : result GitError staged :=
  match fs with
  | [] => Ok []
  | f :: fs =>
      guard? negb (String.eqb (f_name f) "sirius-publication.json" || String.eqb (f_name f) "version.json") else GSnapshot;;
      name <-? ok_or (strip_suffix (f_name f) ".json") GSnapshot;;
      document <-? match table v (region (p_scope m)) (p_snapshot m) name (f_sha256 f) with Ok d => Ok d | Err _ => Err GSnapshot end;;
      guard? llen (d_bytes document) =? f_size f else GSnapshot;;
      bytes <-? match l with
                | Native => Ok (d_bytes document)
                | IndentedRoot => ok_or (reindent (d_bytes document)) GSnapshot
                end;;
      stage (f_name f) bytes (stage_files v l m fs)
  end.

(** [prepare] after [own]: the manifest and the files to commit, by name. *)
Definition prepare (v : view) (scope : Scope) (l : Layout) : result GitError (PublishedManifest * staged) :=
  document <-? match manifest v None scope with Ok d => Ok d | Err _ => Err GSnapshot end;;
  m <-? ok_or (published_from_slice (d_bytes document)) GSnapshot;;
  guard? hash_valid (content_sha256 m) else GSnapshot;;
  asset_version <-? match l with IndentedRoot => rmap Some (ok_or (p_resource_version m) AssetVersion) | Native => Ok None end;;
  guard? write "."%string else GSnapshot;;
  files <-? stage_files v l m (p_files m);;
  match asset_version with
  | Some asset_version =>
      guard? write "version.json"%string else GSnapshot;;
      Ok (m, sort_by fst (files ++ [("version.json"%string, version_document (p_version m) asset_version)]))
  | None =>
      bytes <-? ok_or (pretty (metadata_value m)) GSnapshot;;
      guard? write "sirius-publication.json"%string else GSnapshot;;
      Ok (m, sort_by fst (files ++ [("sirius-publication.json"%string, bytes)]))
  end.
End prepare.

(** * Git *)

(** A command: its options before the subcommand, its arguments, the files it may
    read and its standard input. *)
Class Git : Type := {
  world : Type;
  run_git : list string -> list string -> (string -> option (list Z)) -> list Z -> world -> option (list Z) * world;
}.

Record Owned : Type := mkOwned { o_directory : string; o_reference : string; o_policy : CommitPolicy }.
Record GitReceipt : Type := mkGitReceipt { gr_commit : string; gr_content_sha256 : string; gr_changed : bool; gr_remote_verified : bool }.

Definition is_oid (s : string) : bool := (len s =? 40) && all_bytes (fun b => is_ascii_hexdigit b && negb (is_ascii_upper b)) s.
Definition oid (bytes : list Z) : result GitError string :=
  value <-? ok_or (from_utf8 bytes) GGit;;
  let value := trim_text value in
  guard? is_oid value else GGit;;
  Ok value.

(** [String::from_utf8_lossy]: each longest piece that could begin a character but
    does not is replaced by U+FFFD. *)
Definition replacement (s : string) : string :=
  String (ascii_of_nat 239) (String (ascii_of_nat 191) (String (ascii_of_nat 189) s)).
Definition put (x : Z) (s : string) : string := String (ascii_of_nat (Z.to_nat x)) s.
Definition second_of_three (x y : Z) : bool :=
  (x =? 224) && in_range 160 191 y || (in_range 225 236 x || in_range 238 239 x) && continuation y || (x =? 237) && in_range 128 159 y.
Definition second_of_four (x y : Z) : bool :=
  (x =? 240) && in_range 144 191 y || in_range 241 243 x && continuation y || (x =? 244) && in_range 128 143 y.
Fixpoint from_utf8_lossy (b : list Z) : string :=
  match b with
  | [] => EmptyString
  | x :: b1 =>
      if x <? 128 then put x (from_utf8_lossy b1)
      else match b1 with
           | [] => replacement EmptyString
           | y :: b2 =>
               if in_range 194 223 x && continuation y then put x (put y (from_utf8_lossy b2))
               else if negb (second_of_three x y || second_of_four x y) then replacement (from_utf8_lossy b1)
               else match b2 with
                    | [] => replacement EmptyString
                    | z :: b3 =>
                        if negb (continuation z) then replacement (from_utf8_lossy b2)
                        else if second_of_three x y then put x (put y (put z (from_utf8_lossy b3)))
                        else match b3 with
                             | [] => replacement EmptyString
                             | w :: b4 => if continuation w then put x (put y (put z (put w (from_utf8_lossy b4)))) else replacement (from_utf8_lossy b3)
                             end
                    end
           end
  end.

(** [str::lines]. *)
Definition strip_return (s : string) : string :=
  match strip_suffix s (String (ascii_of_nat 13) "") with Some s => s | None => s end.
Definition lines (s : string) : list string :=
  match rev (split_on (ascii_of_nat 10) s) with
  | "" :: ls => map strip_return (rev ls)
  | ls => map strip_return (rev ls)
  end.

Section commands.
Context `{Git}.

Definition git (A : Type) : Type := world -> result GitError A * world.
Definition git_ret {A} (a : A) : git A := fun w => (Ok a, w).
Definition git_lift {A} (x : result GitError A) : git A := fun w => (x, w).
Definition git_bind {A B} (m : git A) (k : A -> git B) : git B :=
  fun w => match m w with (Ok a, w) => k a w | (Err e, w) => (Err e, w) end.
Definition git_catch {A B} (m : git A) (k : result GitError A -> git B) : git B := fun w => let '(r, w) := m w in k r w.
End commands.
Notation "x '<-git' m ';;' k" := (git_bind m (fun x => k))
  (at level 80, m at level 75, k at level 200, right associativity) : rust_scope.

Section publication.
Context `{Git} (owned : Owned) (staging : string).

Definition MAX_INPUT : Z := 4194304.
Definition base_options : list string :=
  ["--no-replace-objects"; "--git-dir"; o_directory owned ++ "/repository.git"; "-c"; "gc.auto=0"; "-c"; "commit.gpgsign=false";
   "-c"; "user.name=Sirius Master Publisher"; "-c"; "user.email=sirius-master@localhost"]%string.
Definition no_files : string -> option (list Z) := fun _ => None.
(** [command_limited]; options of a network command go after the policy's. *)
Definition run (options args : list string) (files : string -> option (list Z)) (input : list Z) (output_limit : Z) : git (list Z) :=
  fun w =>
    if MAX_INPUT <? llen input then (Err GGit, w)
    else match run_git (base_options ++ policy_arguments (o_policy owned) ++ options) args files input w with
         | (Some out, w) => if output_limit <? llen out then (Err GGit, w) else (Ok out, w)
         | (None, w) => (Err GGit, w)
         end.
Definition OUTPUT_LIMIT : Z := 1048576.
Definition command (args : list string) : git (list Z) := run [] args no_files [] OUTPUT_LIMIT.
Definition network (remote : Remote) (args : list string) : git (list Z) := run (remote_options remote) args no_files [] OUTPUT_LIMIT.

Definition initialize : git (option string) :=
  _ <-git command ["init"; "--bare"; "--quiet"; "--object-format=sha1"; o_directory owned ++ "/repository.git"]%string;;
  _ <-git command ["symbolic-ref"; "HEAD"; o_reference owned]%string;;
  refs <-git command ["for-each-ref"; "--format=%(objectname)"; o_reference owned]%string;;
  match refs with
  | [] => git_ret None
  | _ => git_lift (rmap Some (oid refs))
  end.

Definition ZERO_OID : string := "0000000000000000000000000000000000000000".
Definition advance (new : string) (old : option string) : git unit :=
  _ <-git command ["update-ref"; o_reference owned; new; match old with Some o => o | None => ZERO_OID end]%string;;
  git_ret tt.

(** The remote's branch: at most one line, of this branch. *)
Definition head_of (text : string) : result GitError (option string) :=
  if is_empty text then Ok None
  else match lines text with
       | [line] =>
           x <-? ok_or (split_once 9 line) GGit;;
           guard? String.eqb (snd x) (o_reference owned) else GGit;;
           rmap Some (oid (bytes_of (fst x)))
       | _ => Err GGit
       end.
Definition remote_head (remote : Remote) : git (option string) :=
  bytes <-git network remote ["ls-remote"; "--refs"; remote_url remote; o_reference owned]%string;;
  text <-git git_lift (ok_or (from_utf8 bytes) GGit);;
  git_lift (head_of text).

Definition CHECK_REF : string := "refs/sirius/remote-check".
Definition fetch_remote_check (remote : Remote) (head : string) : git unit :=
  _ <-git network remote ["fetch"; "--no-tags"; "--no-write-fetch-head"; remote_url remote; "+" ++ o_reference owned ++ ":" ++ CHECK_REF]%string;;
  out <-git command ["rev-parse"; CHECK_REF]%string;;
  fetched <-git git_lift (oid out);;
  git_lift (ensure (String.eqb fetched head) RemoteChanged).
Definition is_ancestor (older newer : string) : git unit :=
  _ <-git command ["merge-base"; "--is-ancestor"; older; newer]%string;; git_ret tt.

Definition check_remote (remote : Remote) (parent : option string) : git unit :=
  head <-git remote_head remote;;
  match head with
  | None => git_ret tt
  | Some head =>
      parent <-git git_lift (ok_or parent RemoteChanged);;
      if String.eqb head parent then git_ret tt
      else
        _ <-git fetch_remote_check remote head;;
        git_catch (is_ancestor head parent) (fun r => git_lift (match r with Ok _ => Ok tt | Err _ => Err RemoteChanged end))
  end.

Definition finish (remote : option Remote) (receipt : GitReceipt) : git GitReceipt :=
  match remote with
  | None => git_ret receipt
  | Some remote =>
      _ <-git network remote ["push"; "--porcelain"; remote_url remote; gr_commit receipt ++ ":" ++ o_reference owned]%string;;
      head <-git remote_head remote;;
      _ <-git git_lift (ensure (bool_decide (head = Some (gr_commit receipt))) RemoteChanged);;
      git_ret (mkGitReceipt (gr_commit receipt) (gr_content_sha256 receipt) (gr_changed receipt) true)
  end.

(** The staged files, hashed 64 at a time, as the lines of a tree. *)
Fixpoint chunks {A} (fuel : nat) (l : list A) : list (list A) :=
  match l, fuel with
  | [], _ => []
  | _, O => [l]
  | _, S fuel => take 64 l :: chunks fuel (drop 64 l)
  end.
Definition staged_path (name : string) : string := (staging ++ "/" ++ name)%string.
Definition staged_files (files : staged) (path : string) : option (list Z) :=
  option_map snd (List.find (fun f => String.eqb (staged_path (fst f)) path) files).
Definition tree_line (hash name : string) : string := ("100644 blob " ++ hash ++ String (ascii_of_nat 9) (name ++ line_end))%string.
Fixpoint tree_lines (names hashes : list string) : result GitError string :=
  match names, hashes with
  | name :: names, hash :: hashes =>
      hash <-? oid (bytes_of hash);;
      rest <-? tree_lines names hashes;;
      Ok (tree_line hash name ++ rest)%string
  | _, _ => Ok ""%string
  end.
Definition hash_chunk (files : staged) (names : list string) : git string :=
  out <-git run [] (["hash-object"; "-w"; "--no-filters"; "--"]%string ++ map staged_path names) (staged_files files) [] OUTPUT_LIMIT;;
  text <-git git_lift (ok_or (from_utf8 out) GGit);;
  _ <-git git_lift (ensure (Nat.eqb (length (lines text)) (length names)) GGit);;
  git_lift (tree_lines names (lines text)).
Fixpoint hash_chunks (files : staged) (cs : list (list string)) : git string :=
  match cs with
  | [] => git_ret ""%string
  | names :: cs =>
      text <-git hash_chunk files names;;
      rest <-git hash_chunks files cs;;
      git_ret (text ++ rest)%string
  end.
Definition write_tree (files : staged) : git string :=
  input <-git hash_chunks files (chunks (length files) (map fst files));;
  out <-git run [] ["mktree"%string] no_files (bytes_of input) OUTPUT_LIMIT;;
  git_lift (oid out).

Definition CONTENT_TRAILER : string := "Sirius-Content-SHA256".
Definition subject (m : PublishedManifest) : string :=
  ("Sirius Master " ++ region_name (region (p_scope m)) ++ " " ++ p_version m)%string.
Definition trailer (m : PublishedManifest) : string := (CONTENT_TRAILER ++ ": " ++ content_sha256 m)%string.
Definition commit_arguments (m : PublishedManifest) (tree : string) (parent : option string) (signed : bool) : list string :=
  ["commit-tree"; tree; "-m"; subject m; "-m"; trailer m]%string
  ++ match parent with Some p => ["-p"%string; p] | None => [] end
  ++ (if signed then ["-S"%string] else []).
Definition old_tree (parent : string) : git string :=
  out <-git command ["rev-parse"; parent ++ "^{tree}"]%string;; git_lift (oid out).

(** [commit_internal] on a prepared publication. *)
Definition commit_prepared (remote : option Remote) (m : PublishedManifest) (files : staged) : git GitReceipt :=
  parent <-git initialize;;
  _ <-git match remote with Some remote => check_remote remote parent | None => git_ret tt end;;
  tree <-git write_tree files;;
  same <-git match parent with
             | Some parent => old <-git old_tree parent;; git_ret (if String.eqb old tree then Some parent else None)
             | None => git_ret None
             end;;
  match same with
  | Some parent => finish remote (mkGitReceipt parent (content_sha256 m) false false)
  | None =>
      out <-git command (commit_arguments m tree parent (is_some (signing (o_policy owned))));;
      commit <-git git_lift (oid out);;
      _ <-git advance commit parent;;
      finish remote (mkGitReceipt commit (content_sha256 m) true false)
  end.
End publication.

(** * What is relied on *)
Record GitCommit : Type := mkGitCommit { c_tree : string; c_parents : list string; c_messages : list string }.
Definition oid_line (h : string) : string := (h ++ line_end)%string.
Definition text_of (ls : list string) : string := List.fold_right String.append ""%string ls.

Inductive ancestor (commit_of : string -> option GitCommit) (older : string) : string -> Prop :=
| ancestor_refl : ancestor commit_of older older
| ancestor_parent c k p : commit_of c = Some k -> In p (c_parents k) -> ancestor commit_of older p -> ancestor commit_of older c.

(** [c] is among the first [n] commits of the first-parent history of [head]. *)
Inductive first_parent (commit_of : string -> option GitCommit) : nat -> string -> string -> Prop :=
| first_parent_here n head : first_parent commit_of (S n) head head
| first_parent_next n head k p ps c :
    commit_of head = Some k -> c_parents k = p :: ps -> first_parent commit_of n p c -> first_parent commit_of (S n) head c.
Definition entry_text (e : string * string) : string := ("100644 blob " ++ snd e ++ String (ascii_of_nat 9) (fst e))%string.

(** A command that may write branches of the local repository. *)
Definition writes_branches (args : list string) : bool :=
  match args with
  | "update-ref" :: _ => true
  | "fetch" :: args => negb (str_contains (List.last args "") (":" ++ CHECK_REF))
  | _ => false
  end%string.
Definition is_branch (r : string) : bool := starts_with r "refs/heads/".
(** The names of a publication's files. *)
Definition published_name (n : string) : bool := some_and (strip_suffix n ".json") safe_component.
Definition ref_line (x : string * string) : string := (fst x ++ String (ascii_of_nat 9) (snd x ++ line_end))%string.

Class GitOk `{Git} : Type := {
  local : world -> string -> option string;
  remote_ref : world -> string -> string -> option string;
  blob_of : world -> string -> option (list Z);
  tree_of : world -> string -> option (list (string * string));
  commit_of : world -> string -> option GitCommit;
  keeps_blobs : forall o a f i w h b, blob_of w h = Some b -> blob_of (snd (run_git o a f i w)) h = Some b;
  keeps_trees : forall o a f i w h t, tree_of w h = Some t -> tree_of (snd (run_git o a f i w)) h = Some t;
  keeps_commits : forall o a f i w h c, commit_of w h = Some c -> commit_of (snd (run_git o a f i w)) h = Some c;
  keeps_branches : forall o a f i w r, is_branch r = true -> writes_branches a = false -> local (snd (run_git o a f i w)) r = local w r;
  for_each_ref : forall o r f i w out w', run_git o ["for-each-ref"; "--format=%(objectname)"; r]%string f i w = (Some out, w') ->
    match local w' r with
    | Some c => is_oid c = true /\ c <> ZERO_OID /\ out = bytes_of (oid_line c)
    | None => (forall below, local w' (r ++ "/" ++ below)%string = None) -> out = []
    end;
  hash_object : forall o paths f i w out w', run_git o (["hash-object"; "-w"; "--no-filters"; "--"]%string ++ paths) f i w = (Some out, w') ->
    exists hs, out = bytes_of (text_of (map oid_line hs)) /\
      Forall2 (fun p h => is_oid h = true /\ exists b, f p = Some b /\ blob_of w' h = Some b) paths hs;
  mktree : forall o f w es out w',
    StronglySorted sle (map fst es) -> NoDup (map fst es) -> Forall (fun e => published_name (fst e) = true /\ is_oid (snd e) = true) es ->
    run_git o ["mktree"%string] f (bytes_of (text_of (map (fun e => tree_line (snd e) (fst e)) es))) w = (Some out, w') ->
    exists t, out = bytes_of (oid_line t) /\ is_oid t = true /\ tree_of w' t = Some es;
  rev_parse_tree : forall o p f i w out w', is_oid p = true -> run_git o ["rev-parse"; p ++ "^{tree}"]%string f i w = (Some out, w') ->
    exists c, commit_of w' p = Some c /\ is_oid (c_tree c) = true /\ out = bytes_of (oid_line (c_tree c));
  commit_tree : forall o t m1 m2 parent (signed : bool) f i w out w', is_oid t = true -> none_or parent is_oid = true ->
    run_git o (["commit-tree"; t; "-m"; m1; "-m"; m2]%string ++ match parent with Some p => ["-p"%string; p] | None => [] end
               ++ (if signed then ["-S"%string] else [])) f i w = (Some out, w') ->
    exists c, out = bytes_of (oid_line c) /\ is_oid c = true /\
      commit_of w' c = Some (mkGitCommit t (match parent with Some p => [p] | None => [] end) [m1; m2]);
  (** Compare and swap; a command that answers nothing may have been done. *)
  update_ref : forall o r new old f i w,
    let old_value := if String.eqb old ZERO_OID then None else Some old in
    let x := run_git o ["update-ref"; r; new; old]%string f i w in
    (local (snd x) r = Some new /\ local w r = old_value \/ fst x = None /\ local (snd x) r = local w r) /\
    (forall r', r' <> r -> local (snd x) r' = local w r');
  merge_base : forall o older newer f i w out w', run_git o ["merge-base"; "--is-ancestor"; older; newer]%string f i w = (Some out, w') ->
    ancestor (commit_of w') older newer;
  rev_list : forall o head f i w out w',
    run_git o ["rev-list"; "--first-parent"; "--max-count=64"; "--format=%H%x09%s"; head]%string f i w = (Some out, w') ->
    forall line c s, In line (lines (from_utf8_lossy out)) -> split_once 9 line = Some (c, s) -> is_oid c = true ->
      first_parent (commit_of w') 64 head c /\ is_some (commit_of w' c) = true;
  ls_tree : forall o c k f i w out w', run_git o ["ls-tree"; "-z"; c]%string f i w = (Some out, w') -> commit_of w' c = Some k ->
    exists entries, out = concat (map (fun e => bytes_of e ++ [0]) entries) /\
      Forall (fun e => e <> ""%string /\ all_bytes (fun c => negb (char_is 0 c)) e = true) entries /\
      forall es, Forall (fun e => is_oid (snd e) = true) es -> entries = map entry_text es -> tree_of w' (c_tree k) = Some es;
  cat_file : forall o h f i w out w', run_git o ["cat-file"; "blob"; h]%string f i w = (Some out, w') -> blob_of w' h = Some out;
  ls_remote : forall o url r f i w out w', run_git o ["ls-remote"; "--refs"; url; r]%string f i w = (Some out, w') ->
    exists refs, out = bytes_of (text_of (map ref_line refs)) /\
      Forall (fun x => is_oid (fst x) = true /\ all_bytes (fun c => 32 <=? byte_of c) (snd x) = true) refs /\
      (forall c, In (c, r) refs <-> remote_ref w' url r = Some c);
}.

(** * Answers of one line *)
Definition oid_char (c : ascii) : bool := is_ascii_hexdigit c && negb (is_ascii_upper c).
Lemma oid_char_facts c : oid_char c = true -> byte_of c < 128 /\ starts_blank (String c "") = false /\ 32 < byte_of c.
Proof.
  unfold oid_char, is_ascii_hexdigit, is_ascii_digit, is_ascii_upper, starts_blank, char_is, in_range. lia.
Qed.
Lemma oid_not_blank c s : oid_char c = true -> starts_blank (String c s) = false /\ all_whitespace (String c s) = false.
Proof.
  intros Hc. assert (Hb : 48 <= byte_of c <= 102) by (revert Hc; unfold oid_char, is_ascii_hexdigit, is_ascii_digit, is_ascii_upper, in_range; lia).
  assert (E1 : in_range 9 13 (byte_of c) || char_is 32 c = false) by (unfold in_range, char_is; lia).
  assert (E2 : char_is 194 c = false) by (unfold char_is; lia). assert (E3 : char_is 225 c = false) by (unfold char_is; lia).
  assert (E4 : char_is 226 c = false) by (unfold char_is; lia). assert (E5 : char_is 227 c = false) by (unfold char_is; lia).
  cbn [starts_blank all_whitespace]. rewrite E1. destruct s as [|b [|d s]]; rewrite ?E2, ?E3, ?E4, ?E5; split; reflexivity.
Qed.
Lemma trim_oid h tail : all_bytes oid_char h = true -> all_whitespace tail = true -> h <> ""%string -> trim_text (h ++ tail) = h.
Proof.
  intros Hh Ht Hne. unfold trim_text.
  assert (Hfront : trim_front (h ++ tail) = (h ++ tail)%string).
  { destruct h as [|c h]; [done|]. cbn in Hh. apply andb_true_iff in Hh as [Hc _]. change (String c h ++ tail)%string with (String c (h ++ tail)).
    destruct (oid_not_blank c (h ++ tail) Hc) as [E _]. cbn [trim_front]. by rewrite E. }
  rewrite Hfront. clear Hne Hfront. induction h as [|c h IH]; [destruct tail; cbn [trim_back String.append]; [done|by rewrite Ht]|].
  cbn in Hh. apply andb_true_iff in Hh as [Hc Hh]. change (String c h ++ tail)%string with (String c (h ++ tail)).
  destruct (oid_not_blank c (h ++ tail) Hc) as [_ E]. cbn [trim_back]. rewrite E. by rewrite IH.
Qed.

Lemma is_oid_facts h : is_oid h = true -> all_bytes oid_char h = true /\ h <> ""%string /\ all_bytes (fun c => byte_of c <? 128) h = true.
Proof.
  unfold is_oid. intros [Hl Hb]%andb_true_iff. split; [done|]. split; [by intros ->|]. revert Hb. apply all_bytes_impl. intros c Hc.
  apply Z.ltb_lt. by apply oid_char_facts.
Qed.
Lemma oid_bytes h tail : is_oid h = true -> all_whitespace tail = true -> all_bytes (fun c => byte_of c <? 128) tail = true -> oid (bytes_of (h ++ tail)) = Ok h.
Proof.
  intros Ho Ht Ha. destruct (is_oid_facts h Ho) as (Hb & Hne & Hascii). unfold oid.
  rewrite from_utf8_ascii by by rewrite all_bytes_app, Hascii, Ha. cbn [ok_or rbind]. rewrite trim_oid by done. by rewrite Ho.
Qed.
Lemma oid_of_line h : is_oid h = true -> oid (bytes_of (oid_line h)) = Ok h.
Proof. intros Ho. by apply oid_bytes. Qed.
Lemma oid_plain h : is_oid h = true -> oid (bytes_of h) = Ok h.
Proof. intros Ho. rewrite <- (oid_bytes h "" Ho eq_refl eq_refl). f_equal. f_equal. symmetry. apply append_empty. Qed.

Lemma lines_of hs : Forall (fun h => is_oid h = true) hs -> lines (text_of (map oid_line hs)) = hs.
Proof.
  intros Hall.
  assert (Hsplit : split_on (ascii_of_nat 10) (text_of (map oid_line hs)) = hs ++ [""%string]).
  { induction Hall as [|h hs Hh _ IH]; [done|].
    change (text_of (map oid_line (h :: hs))) with ((h ++ String (ascii_of_nat 10) "") ++ text_of (map oid_line hs))%string. rewrite append_assoc.
    change (String (ascii_of_nat 10) "" ++ text_of (map oid_line hs))%string with (String (ascii_of_nat 10) (text_of (map oid_line hs))).
    rewrite split_on_app; [by rewrite IH|]. destruct (is_oid_facts h Hh) as (Hb & _ & _). unfold without. revert Hb. apply all_bytes_impl.
    intros c Hc. apply negb_true_iff, Ascii.eqb_neq. intros ->. by apply oid_char_facts in Hc as (_ & _ & ?). }
  unfold lines. rewrite Hsplit, rev_app_distr. cbn [rev app]. rewrite rev_involutive.
  rewrite <- (map_id hs) at 2. apply map_ext_in. intros h Hh. rewrite List.Forall_forall in Hall. specialize (Hall h Hh). unfold strip_return.
  destruct (strip_suffix h _) as [p|] eqn:E; [|done]. exfalso. apply strip_suffix_spec in E as ->. apply is_oid_facts in Hall as (Hb & _ & _).
  rewrite all_bytes_app in Hb. apply andb_true_iff in Hb as [_ Hb]. cbn in Hb. done.
Qed.
Lemma text_of_ascii hs : Forall (fun h => is_oid h = true) hs -> all_bytes (fun c => byte_of c <? 128) (text_of (map oid_line hs)) = true.
Proof.
  induction 1 as [|h hs Hh _ IH]; [done|]. change (text_of (map oid_line (h :: hs))) with ((h ++ line_end) ++ text_of (map oid_line hs))%string.
  rewrite !all_bytes_app.
  destruct (is_oid_facts h Hh) as (_ & _ & ->). by rewrite IH.
Qed.

(** * Commands *)
Section command_facts.
Context `{!Git, !GitOk} (owned : Owned).

(** What any command keeps, and what the ones that write no branch keep. *)
Record keeps (w w' : world) : Prop := {
  kp_blobs : forall h b, blob_of w h = Some b -> blob_of w' h = Some b;
  kp_trees : forall h t, tree_of w h = Some t -> tree_of w' h = Some t;
  kp_commits : forall h c, commit_of w h = Some c -> commit_of w' h = Some c;
}.
Lemma keeps_refl w : keeps w w.
Proof. by split. Qed.
Lemma keeps_trans w1 w2 w3 : keeps w1 w2 -> keeps w2 w3 -> keeps w1 w3.
Proof. intros [A1 A2 A3] [B1 B2 B3]. split; eauto. Qed.
Definition quiet {A} (m : git A) : Prop :=
  forall w, keeps w (snd (m w)) /\ forall r, is_branch r = true -> local (snd (m w)) r = local w r.

Lemma quiet_ret {A} (a : A) : quiet (git_ret a).
Proof. intros w. split; [apply keeps_refl|done]. Qed.
Lemma quiet_lift {A} (x : result GitError A) : quiet (git_lift x).
Proof. intros w. split; [apply keeps_refl|done]. Qed.
Lemma quiet_bind {A B} (m : git A) (k : A -> git B) : quiet m -> (forall a, quiet (k a)) -> quiet (git_bind m k).
Proof.
  intros Hm Hk w. unfold git_bind. specialize (Hm w). destruct (m w) as [[a|e] w1]; cbn [snd] in *; [|done].
  destruct Hm as [H1 H2], (Hk a w1) as [H3 H4]. split; [by eapply keeps_trans|]. intros r Hr. by rewrite H4, H2.
Qed.
Lemma quiet_catch {A B} (m : git A) (k : result GitError A -> git B) : quiet m -> (forall r, quiet (k r)) -> quiet (git_catch m k).
Proof.
  intros Hm Hk w. unfold git_catch. specialize (Hm w). destruct (m w) as [a w1]. cbn [snd] in *.
  destruct Hm as [H1 H2], (Hk a w1) as [H3 H4]. split; [by eapply keeps_trans|]. intros r Hr. by rewrite H4, H2.
Qed.
Lemma run_keeps o a f i n w : keeps w (snd (run owned o a f i n w)).
Proof.
  unfold run. destruct (_ <? _); [apply keeps_refl|].
  destruct (run_git _ a f i w) as [[out|] w'] eqn:E; [destruct (_ <? _)|]; cbn [snd]; change w' with (snd (run_git (base_options owned ++ policy_arguments (o_policy owned) ++ o) a f i w)) in |- * || idtac.
  all: assert (Ew : w' = snd (run_git (base_options owned ++ policy_arguments (o_policy owned) ++ o) a f i w)) by (by rewrite E); rewrite Ew;
    split; intros; [by apply keeps_blobs|by apply keeps_trees|by apply keeps_commits].
Qed.
Lemma quiet_run o a f i n : writes_branches a = false -> quiet (run owned o a f i n).
Proof.
  intros Hw w. split; [apply run_keeps|]. intros r Hr. unfold run. destruct (_ <? _); [done|].
  pose proof (keeps_branches (base_options owned ++ policy_arguments (o_policy owned) ++ o) a f i w r Hr Hw) as Hk.
  destruct (run_git _ a f i w) as [[out|] w']; [destruct (_ <? _)|]; exact Hk.
Qed.
Lemma git_run_ok o a f i n w out w' : run owned o a f i n w = (Ok out, w') -> exists opts, run_git opts a f i w = (Some out, w').
Proof.
  unfold run. destruct (_ <? _); [done|]. destruct (run_git _ a f i w) as [[x|] w1] eqn:E; [|done]. destruct (_ <? _); [done|].
  intros [= <- <-]. eauto.
Qed.
Lemma git_bind_ok {A B} (m : git A) (k : A -> git B) w b w' : git_bind m k w = (Ok b, w') -> exists a w1, m w = (Ok a, w1) /\ k a w1 = (Ok b, w').
Proof. unfold git_bind. destruct (m w) as [[a|e] w1]; [eauto|done]. Qed.
Lemma git_lift_ok {A} (x : result GitError A) w a w' : git_lift x w = (Ok a, w') -> x = Ok a /\ w' = w.
Proof. unfold git_lift. by intros [= -> ->]. Qed.
End command_facts.
Create HintDb git discriminated.
#[export] Hint Resolve quiet_ret quiet_lift : git.
#[export] Hint Extern 1 (quiet (run _ _ _ _ _ _)) => apply quiet_run; reflexivity : git.
#[export] Hint Extern 1 (quiet (command _ _)) => apply quiet_run; reflexivity : git.
#[export] Hint Extern 1 (quiet (network _ _ _)) => apply quiet_run; reflexivity : git.
#[export] Hint Extern 2 (quiet (git_bind _ _)) => apply quiet_bind; [|intros] : git.
#[export] Hint Extern 2 (quiet (git_catch _ _)) => apply quiet_catch; [|intros] : git.

Lemma str_contains_app a b : str_contains (a ++ b) b = true.
Proof.
  induction a as [|c a IH]; cbn [String.append].
  - assert (Hp : String.prefix b b = true) by (induction b as [|c b IH]; [done|]; cbn; destruct (ascii_dec c c); [exact IH|done]).
    destruct b as [|c b]; [done|]. cbn [str_contains]. by rewrite Hp.
  - cbn [str_contains]. by rewrite IH, orb_true_r.
Qed.

Section quiet_facts.
Context `{!Git, !GitOk} (owned : Owned) (staging : string).

Lemma quiet_fetch remote : quiet (network owned remote ["fetch"; "--no-tags"; "--no-write-fetch-head"; remote_url remote; "+" ++ o_reference owned ++ ":" ++ CHECK_REF]%string).
Proof.
  apply quiet_run. cbn [writes_branches List.last]. apply negb_false_iff. rewrite <- (append_assoc "+" (o_reference owned)). apply str_contains_app.
Qed.
Hint Resolve quiet_fetch : git.
Lemma quiet_initialize : quiet (initialize owned).
Proof. unfold initialize. repeat (auto with git; match goal with |- quiet (match ?x with _ => _ end) => destruct x | |- quiet (git_bind _ _) => apply quiet_bind; [|intros ?] end); auto with git. Qed.
Lemma quiet_remote_head remote : quiet (remote_head owned remote).
Proof. unfold remote_head. auto 10 with git. Qed.
Lemma quiet_is_ancestor a b : quiet (is_ancestor owned a b).
Proof. unfold is_ancestor. auto with git. Qed.
Lemma quiet_fetch_remote_check remote head : quiet (fetch_remote_check owned remote head).
Proof. unfold fetch_remote_check. auto 10 with git. Qed.
Hint Resolve quiet_initialize quiet_remote_head quiet_is_ancestor quiet_fetch_remote_check : git.
Lemma quiet_check_remote remote parent : quiet (check_remote owned remote parent).
Proof.
  unfold check_remote. apply quiet_bind; [auto with git|]. intros [head|]; [|auto with git]. apply quiet_bind; [auto with git|]. intros p.
  destruct (String.eqb head p); auto 10 with git.
Qed.
Lemma quiet_finish remote receipt : quiet (finish owned remote receipt).
Proof. unfold finish. destruct remote; auto 10 with git. Qed.
Lemma quiet_hash_chunks files cs : quiet (hash_chunks owned staging files cs).
Proof. induction cs as [|names cs IH]; cbn [hash_chunks]; [auto with git|]. unfold hash_chunk. auto 10 with git. Qed.
Lemma quiet_write_tree files : quiet (write_tree owned staging files).
Proof. unfold write_tree. pose proof quiet_hash_chunks. auto 10 with git. Qed.
Lemma quiet_old_tree p : quiet (old_tree owned p).
Proof. unfold old_tree. auto 10 with git. Qed.
Hint Resolve quiet_check_remote quiet_finish quiet_write_tree quiet_old_tree : git.
End quiet_facts.
