(* ===== verification/GitPublication.v ===== *)
(** What publication with Git does ([commit_internal] and [publish_with_options] of
    [master_git.rs]): the local branch only ever gains the commit of a publication
    on top of what it was, whatever command fails, and a receipt names a commit
    that holds the published files. *)
From Stdlib Require Import ZArith Lia Ascii String List Bool Sorted.
From stdpp Require Import base list strings decidable gmap.
From S2P Require Import Prelude BTree Errors Regions Versions Http Environment MasterFiles MasterRegistry MasterHistory MasterChain MasterImport MasterService MasterSync GitReindent GitConfig MasterGit.

Local Open Scope Z_scope.
Local Open Scope rust_scope.

(** * Publication *)
Section publish.
Context `{MasterCodecs} `{!Git} (env : string -> option string) (url_parse : string -> option Url) (to_file_path : Url -> bool)
  (io : string -> bool) (pretty : json -> option (list Z)) (json_text : string -> string) (directory staging : string).

(** The state directory goes by its canonical path [directory]; the publication is
    staged in [staging]. *)
Definition commit_internal (v : view) (dest : destination) (scope : Scope) (remote : option Remote) (policy : CommitPolicy) (options : GitOptions)
  (w : world) : result GitError GitReceipt * destination * world :=
  match (_ <-? commit_policy_validate policy;; options_validate options) with
  | Err e => (Err e, dest, w)
  | Ok _ =>
      match own io dest scope with
      | (Err e, dest) => (Err e, dest, w)
      | (Ok _, dest) =>
          match prepare pretty json_text io v scope (layout options) with
          | Err e => (Err e, dest, w)
          | Ok (m, files) =>
              let '(r, w) := commit_prepared (mkOwned directory (reference options) policy) staging remote m files w in
              (r, dest, w)
          end
      end
  end.
Definition publish_with_options (v : view) (dest : destination) (scope : Scope) (remote : Remote) (policy : CommitPolicy) (options : GitOptions)
  (w : world) : result GitError GitReceipt * destination * world :=
  match remote_validate env url_parse to_file_path remote with
  | Err e => (Err e, dest, w)
  | Ok _ => commit_internal v dest scope (Some remote) policy options w
  end.
Definition commit_with_options (v : view) (dest : destination) (scope : Scope) (policy : CommitPolicy) (options : GitOptions)
  (w : world) : result GitError GitReceipt * destination * world :=
  commit_internal v dest scope None policy options w.
End publish.

(** * Text of Git *)
Lemma utf8_bytes s t : from_utf8 (bytes_of s) = Some t -> t = s.
Proof.
  unfold from_utf8. destruct (utf8_valid _); [|done]. intros [= <-]. induction s as [|c s IH]; [done|]. cbn [bytes_of string_of_bytes].
  rewrite IH. f_equal. unfold byte_of. by rewrite Nat2Z.id, ascii_nat_embedding.
Qed.
Lemma starts_with_app a b : starts_with (a ++ b) a = true.
Proof. unfold starts_with. induction a as [|c a IH]; [by destruct b|]. cbn. destruct (ascii_dec c c); [exact IH|done]. Qed.
Lemma starts_with_longer a b pat : starts_with a pat = true -> starts_with (a ++ b) pat = true.
Proof.
  unfold starts_with. revert a. induction pat as [|p pat IH]; intros [|c a]; cbn; try done; [by destruct b|]. destruct (ascii_dec p c); [apply IH|done].
Qed.
Lemma append_inj_l (a s t : string) : (a ++ s)%string = (a ++ t)%string -> s = t.
Proof. induction a as [|c a IH]; [done|]. cbn. intros [= E]. by apply IH. Qed.

(** Lines of text without control characters come back as they were. *)
Definition plain_line (s : string) : bool := all_bytes (fun c => (32 <=? byte_of c) || char_is 9 c) s.
Lemma lines_plain ls : Forall (fun l => plain_line l = true) ls -> lines (text_of (map (fun l => l ++ line_end)%string ls)) = ls.
Proof.
  intros Hall.
  assert (Hsplit : split_on (ascii_of_nat 10) (text_of (map (fun l => l ++ line_end)%string ls)) = ls ++ [""%string]).
  { induction Hall as [|l ls Hl _ IH]; [done|].
    change (text_of (map (fun l => l ++ line_end)%string (l :: ls)))
      with ((l ++ String (ascii_of_nat 10) "") ++ text_of (map (fun l => l ++ line_end)%string ls))%string. rewrite append_assoc.
    change (String (ascii_of_nat 10) "" ++ text_of (map (fun l => l ++ line_end)%string ls))%string
      with (String (ascii_of_nat 10) (text_of (map (fun l => l ++ line_end)%string ls))).
    rewrite split_on_app; [by rewrite IH|]. unfold without. revert Hl. apply all_bytes_impl.
    intros c Hc. apply negb_true_iff, Ascii.eqb_neq. by intros ->. }
  unfold lines. rewrite Hsplit, rev_app_distr. cbn [rev app]. rewrite rev_involutive.
  rewrite <- (map_id ls) at 2. apply map_ext_in. intros l Hl. rewrite List.Forall_forall in Hall. specialize (Hall l Hl). unfold strip_return.
  destruct (strip_suffix l _) as [p|] eqn:E; [|done]. exfalso. apply strip_suffix_spec in E as ->. unfold plain_line in Hall.
  rewrite all_bytes_app in Hall. apply andb_true_iff in Hall as [_ Hb]. done.
Qed.
Lemma split_tab a b : all_bytes (fun c => negb (char_is 9 c)) a = true -> split_once 9 (a ++ String (ascii_of_nat 9) b) = Some (a, b).
Proof.
  induction a as [|c a IH]; [done|]. cbn [String.append all_bytes]. intros Ha. apply andb_true_iff in Ha as [Hc Ha].
  cbn [split_once]. apply negb_true_iff in Hc. rewrite Hc. by rewrite (IH Ha).
Qed.

(** * Answers of the commands *)
Section answers.
Context `{!Git, !GitOk} (owned : Owned) (staging : string).

Lemma command_ok args w out w' : command owned args w = (Ok out, w') -> exists opts, run_git opts args no_files [] w = (Some out, w').
Proof. apply git_run_ok. Qed.
Lemma network_ok remote args w out w' : network owned remote args w = (Ok out, w') -> exists opts, run_git opts args no_files [] w = (Some out, w').
Proof. apply git_run_ok. Qed.

(** A world with the objects and branches of another. *)
Definition reached (w w' : world) : Prop := keeps w w' /\ forall r, is_branch r = true -> local w' r = local w r.
Lemma reached_refl w : reached w w.
Proof. split; [apply keeps_refl|done]. Qed.
Lemma reached_trans w1 w2 w3 : reached w1 w2 -> reached w2 w3 -> reached w1 w3.
Proof. intros [A1 A2] [B1 B2]. split; [by eapply keeps_trans|]. intros r Hr. by rewrite B2, A2. Qed.
Lemma quiet_reached {A} (m : git A) w x w' : quiet m -> m w = (x, w') -> reached w w'.
Proof. intros Hm E. specialize (Hm w). by rewrite E in Hm. Qed.

Lemma initialize_ok w p w' :
  is_branch (o_reference owned) = true -> (forall below, local w (o_reference owned ++ "/" ++ below)%string = None) ->
  initialize owned w = (Ok p, w') ->
  p = local w (o_reference owned) /\ none_or p (fun c => is_oid c && negb (String.eqb c ZERO_OID)) = true.
Proof.
  intros Hb Hbelow E. pose proof (quiet_reached _ _ _ _ (quiet_initialize owned) E) as [_ Hl].
  unfold initialize in E. apply git_bind_ok in E as (? & w1 & _ & E). apply git_bind_ok in E as (? & w2 & _ & E).
  apply git_bind_ok in E as (out & w3 & E3 & E). apply command_ok in E3 as (opts & E3). apply for_each_ref in E3.
  assert (w' = w3) as -> by (destruct out; [by injection E as _ <-|by apply git_lift_ok in E as [_ ->]]).
  rewrite <- (Hl _ Hb). destruct (local w3 (o_reference owned)) as [c|].
  - destruct E3 as (Ho & Hz & ->). pose proof (oid_of_line c Ho) as Hoid. destruct (bytes_of (oid_line c)) as [|b bs]; [done|].
    apply git_lift_ok in E as [E _]. rewrite Hoid in E. injection E as <-. split; [done|]. cbn [none_or]. rewrite Ho. cbn [andb].
    by apply negb_true_iff, String.eqb_neq.
  - rewrite E3 in E; [by injection E as <-|]. intros below. rewrite Hl; [done|]. revert Hb. unfold is_branch, starts_with.
    apply (starts_with_longer _ _ "refs/heads/").
Qed.

(** ** The tree *)
Lemma git_chunks_concat {A} fuel (l : list A) : (length l <= fuel)%nat -> concat (chunks fuel l) = l.
Proof.
  revert l. induction fuel as [|fuel IH]; intros [|a l] Hl; try done; [cbn in Hl; lia|]. cbn [chunks concat].
  rewrite IH; [apply take_drop|]. rewrite length_drop. cbn in *. lia.
Qed.
Definition entry_line (e : string * string) : string := tree_line (snd e) (fst e).
Definition file_entry (files : staged) (w : world) (e : string * string) : Prop :=
  exists b, staged_files staging files (staged_path staging (fst e)) = Some b /\ blob_of w (snd e) = Some b.
Lemma file_entry_keeps files w w' e : keeps w w' -> file_entry files w e -> file_entry files w' e.
Proof. intros Hk (b & H1 & H2). exists b. split; [done|]. by apply Hk. Qed.

Lemma tree_lines_ok names hs text :
  length names = length hs -> Forall (fun h => is_oid h = true) hs -> tree_lines names hs = Ok text -> text = text_of (map entry_line (combine names hs)).
Proof.
  revert hs text. induction names as [|n names IH]; intros [|h hs] text Hl Hh; try done; cbn [tree_lines combine].
  { by intros [= <-]. }
  apply Forall_cons in Hh as [Ho Hh]. rewrite (oid_plain h Ho). cbn [rbind]. intros Ht. apply rbind_ok in Ht as (rest & Hr & [= <-]).
  apply IH in Hr as ->; [done|cbn in Hl; lia|done].
Qed.
Lemma hash_chunk_ok files names w text w' :
  hash_chunk owned staging files names w = (Ok text, w') ->
  exists es, text = text_of (map entry_line es) /\ map fst es = names /\ Forall (fun e => is_oid (snd e) = true) es /\ Forall (file_entry files w') es.
Proof.
  unfold hash_chunk. intros E. apply git_bind_ok in E as (out & w1 & E1 & E). apply git_run_ok in E1 as (opts & E1).
  apply hash_object in E1 as (hs & -> & Hall). apply git_bind_ok in E as (t & w2 & E2 & E). apply git_lift_ok in E2 as [E2 ->].
  assert (Hh : Forall (fun h => is_oid h = true) hs) by (clear -Hall; induction Hall as [|? ? ? ? [? _]]; by constructor).
  rewrite from_utf8_ascii in E2 by by apply text_of_ascii. injection E2 as <-.
  apply git_bind_ok in E as (u & w2 & E2 & E). apply git_lift_ok in E2 as [_ ->]. apply git_lift_ok in E as [E ->].
  rewrite lines_of in E by done. assert (Hl : length names = length hs) by (apply Forall2_length in Hall; by rewrite length_map in Hall).
  apply tree_lines_ok in E as ->; [|done|done]. exists (combine names hs). split; [done|]. split; [apply fst_zip; lia|].
  clear -Hall Hh. revert hs Hall Hh. induction names as [|n names IH]; intros [|h hs] Hall Hh; try (by inversion Hall).
  inversion Hall as [|? ? ? ? (Ho & b & Hf & Hb) Hall']; subst. apply Forall_cons in Hh as [_ Hh]. destruct (IH hs Hall' Hh) as [H1 H2].
  cbn [combine]. split; constructor; try done. exists b. done.
Qed.
Lemma text_of_app a b : text_of (a ++ b) = (text_of a ++ text_of b)%string.
Proof. unfold text_of. induction a as [|x a IH]; [done|]. cbn [app List.fold_right]. by rewrite IH, append_assoc. Qed.
Lemma hash_chunks_ok files cs w text w' :
  hash_chunks owned staging files cs w = (Ok text, w') ->
  exists es, text = text_of (map entry_line es) /\ map fst es = concat cs /\ Forall (fun e => is_oid (snd e) = true) es /\ Forall (file_entry files w') es.
Proof.
  revert w text. induction cs as [|names cs IH]; intros w text; cbn [hash_chunks].
  { intros [= <- <-]. by exists []. }
  intros E. apply git_bind_ok in E as (t1 & w1 & E1 & E). apply git_bind_ok in E as (t2 & w2 & E2 & E). injection E as <- <-.
  destruct (quiet_reached _ _ _ _ (quiet_hash_chunks owned staging files cs) E2) as [Hk _].
  apply hash_chunk_ok in E1 as (es1 & -> & H1 & H2 & H3). apply IH in E2 as (es2 & -> & H4 & H5 & H6).
  exists (es1 ++ es2). rewrite !map_app, text_of_app, H1, H4. split; [done|]. split; [done|]. split; [by apply Forall_app|].
  apply Forall_app. split; [|done]. eapply List.Forall_impl; [|exact H3]. intros e. by apply file_entry_keeps.
Qed.
Lemma write_tree_ok files w t w' :
  StronglySorted sle (map fst files) -> NoDup (map fst files) -> Forall (fun f => published_name (fst f) = true) files ->
  write_tree owned staging files w = (Ok t, w') ->
  is_oid t = true /\ exists es, tree_of w' t = Some es /\ map fst es = map fst files /\ Forall (file_entry files w') es.
Proof.
  intros Hs Hn Hp E. unfold write_tree in E. apply git_bind_ok in E as (input & w1 & E1 & E).
  apply git_bind_ok in E as (out & w2 & E2 & E). pose proof (quiet_run owned [] ["mktree"%string] no_files (bytes_of input) OUTPUT_LIMIT eq_refl) as Hq.
  destruct (quiet_reached _ _ _ _ Hq E2) as [Hk _]. apply git_lift_ok in E as [E ->].
  apply hash_chunks_ok in E1 as (es & -> & H1 & H2 & H3). rewrite git_chunks_concat in H1 by by rewrite length_map.
  apply git_run_ok in E2 as (opts & E2). apply mktree in E2 as (t' & -> & Ho & Ht); [|by rewrite H1|by rewrite H1|].
  - rewrite (oid_of_line _ Ho) in E. injection E as <-. split; [done|]. exists es. split; [done|]. split; [done|].
    eapply List.Forall_impl; [|exact H3]. intros e. by apply file_entry_keeps.
  - assert (Hp' : Forall (fun e : string * string => published_name (fst e) = true) es).
    { apply (Forall_map fst (fun n => published_name n = true)). rewrite H1. by apply (Forall_map fst (fun n => published_name n = true)). }
    clear -H2 Hp'. apply List.Forall_and; done.
Qed.
(** ** What a commit holds *)
Definition holds (w : world) (t : string) (files : staged) : Prop :=
  exists es, tree_of w t = Some es /\ Forall2 (fun f e => fst e = fst f /\ blob_of w (snd e) = Some (snd f)) files es.
(** The commit of a publication on top of [parent]. *)
Definition publishes (w : world) (c : string) (parent : option string) (m : PublishedManifest) (files : staged) : Prop :=
  exists t, commit_of w c = Some (mkGitCommit t (match parent with Some p => [p] | None => [] end) [subject m; trailer m]) /\ holds w t files.
Definition commit_holds (w : world) (c : string) (files : staged) : Prop := exists k, commit_of w c = Some k /\ holds w (c_tree k) files.

Lemma holds_keeps w w' t files : keeps w w' -> holds w t files -> holds w' t files.
Proof.
  intros Hk (es & Ht & Hes). exists es. split; [by apply Hk|]. eapply Forall2_impl; [exact Hes|]. intros f e [H1 H2]. split; [done|]. by apply Hk.
Qed.
Lemma publishes_keeps w w' c p m files : keeps w w' -> publishes w c p m files -> publishes w' c p m files.
Proof. intros Hk (t & Hc & Hh). exists t. split; [by apply Hk|by eapply holds_keeps]. Qed.
Lemma publishes_holds w c p m files : publishes w c p m files -> commit_holds w c files.
Proof. intros (t & Hc & Hh). by eexists. Qed.
Lemma commit_holds_keeps w w' c files : keeps w w' -> commit_holds w c files -> commit_holds w' c files.
Proof. intros Hk (k & Hc & Hh). exists k. split; [by apply Hk|by eapply holds_keeps]. Qed.

Lemma staged_path_inj a b : staged_path staging a = staged_path staging b -> a = b.
Proof. unfold staged_path. intros E. by do 2 apply append_inj_l in E. Qed.
Lemma staged_files_in files n b : NoDup (map fst files) -> In (n, b) files -> staged_files staging files (staged_path staging n) = Some b.
Proof.
  intros Hn Hin. unfold staged_files. induction files as [|[n' b'] files IH]; [done|]. cbn [List.find fst].
  cbn [map fst] in Hn. apply NoDup_cons in Hn as [Hne Hn]. destruct Hin as [[= -> ->]|Hin]; [by rewrite String.eqb_refl|].
  destruct (String.eqb_spec (staged_path staging n') (staged_path staging n)) as [E|_]; [|by apply IH].
  apply staged_path_inj in E as ->. exfalso. apply Hne. apply list_elem_of_In, in_map_iff. by exists (n, b).
Qed.
Lemma entries_hold files w t es :
  NoDup (map fst files) -> tree_of w t = Some es -> map fst es = map fst files -> Forall (file_entry files w) es -> holds w t files.
Proof.
  intros Hn Ht Hm He. exists es. split; [done|]. assert (Hlook := fun n b => staged_files_in files n b Hn). clear Ht Hn.
  unfold file_entry in He. revert es Hm He Hlook. generalize (staged_files staging files) as look.
  induction files as [|[n b] files IH]; intros look [|[n' h] es] Hm He Hlook; try done. cbn in Hm. injection Hm as -> Hm.
  apply Forall_cons in He as [(b' & H1 & H2) He]. constructor; [|by eapply IH; [done|exact He|intros; apply Hlook; by right]].
  split; [done|]. cbn [fst snd] in *. rewrite (Hlook n b) in H1 by by left. by injection H1 as ->.
Qed.

Lemma old_tree_ok p w t w' : is_oid p = true -> old_tree owned p w = (Ok t, w') -> exists c, commit_of w' p = Some c /\ c_tree c = t.
Proof.
  intros Hp E. unfold old_tree in E. apply git_bind_ok in E as (out & w1 & E1 & E). apply git_lift_ok in E as [E ->].
  apply command_ok in E1 as (opts & E1). apply rev_parse_tree in E1 as (c & Hc & Ho & ->); [|done]. rewrite (oid_of_line _ Ho) in E.
  injection E as <-. by exists c.
Qed.
Lemma commit_ok m t parent (signed : bool) w out w' :
  is_oid t = true -> none_or parent is_oid = true -> command owned (commit_arguments m t parent signed) w = (Ok out, w') ->
  exists c, oid out = Ok c /\ is_oid c = true /\
    commit_of w' c = Some (mkGitCommit t (match parent with Some p => [p] | None => [] end) [subject m; trailer m]).
Proof.
  intros Ht Hp E. apply command_ok in E as (opts & E). apply commit_tree in E as (c & -> & Ho & Hc); [|done|done].
  exists c. by rewrite (oid_of_line c Ho).
Qed.

(** ** The branch *)
Lemma advance_cases new old w x w' :
  none_or old (fun c => negb (String.eqb c ZERO_OID)) = true -> advance owned new old w = (x, w') ->
  keeps w w' /\ (forall r, r <> o_reference owned -> local w' r = local w r) /\
  (local w' (o_reference owned) = Some new /\ local w (o_reference owned) = old \/
   is_ok x = false /\ local w' (o_reference owned) = local w (o_reference owned)).
Proof.
  intros Hold E. unfold advance, command, run, git_bind in E.
  replace (MAX_INPUT <? llen []) with false in E by reflexivity.
  set (a := ["update-ref"; o_reference owned; new; match old with Some o => o | None => ZERO_OID end]%string) in E.
  set (o := (base_options owned ++ policy_arguments (o_policy owned) ++ [])%list) in E.
  pose proof (keeps_blobs o a no_files [] w) as K1. pose proof (keeps_trees o a no_files [] w) as K2. pose proof (keeps_commits o a no_files [] w) as K3.
  destruct (update_ref o (o_reference owned) new (match old with Some o => o | None => ZERO_OID end) no_files [] w) as [Hb Ho].
  change (run_git o _ no_files [] w) with (run_git o a no_files [] w) in Hb, Ho.
  assert (Eold : (if String.eqb (match old with Some o => o | None => ZERO_OID end) ZERO_OID then None else Some (match old with Some o => o | None => ZERO_OID end)) = old).
  { destruct old as [c|]; [|done]. cbn in Hold. apply negb_true_iff in Hold. by rewrite Hold. }
  rewrite Eold in Hb. destruct (run_git o a no_files [] w) as [ans w1]. cbn [fst snd] in *.
  assert (w' = w1 /\ (ans = None -> is_ok x = false)) as [-> Hans].
  { destruct ans as [out|]; [destruct (_ <? _)|]; by injection E as <- <-. }
  split; [by split|]. split; [done|]. destruct Hb as [[H1 H2]|[H1 H2]]; [by left|right]. split; [by apply Hans|done].
Qed.

Lemma remote_head_ok remote w h w' : remote_head owned remote w = (Ok h, w') -> remote_ref w' (remote_url remote) (o_reference owned) = h.
Proof.
  intros E. unfold remote_head in E. apply git_bind_ok in E as (out & w1 & E1 & E). apply network_ok in E1 as (opts & E1).
  apply ls_remote in E1 as (refs & -> & Hrefs & Hr). apply git_bind_ok in E as (text & w2 & E2 & E). apply git_lift_ok in E2 as [E2 ->].
  apply git_lift_ok in E as [E ->]. unfold ok_or in E2. destruct (from_utf8 _) as [t|] eqn:Et; [|done]. injection E2 as ->. apply utf8_bytes in Et as ->.
  unfold head_of in E. destruct (is_empty _) eqn:Eempty.
  { injection E as <-. destruct (remote_ref w1 _ _) as [c|]; [|done]. pose proof (proj2 (Hr c) eq_refl) as Ec. destruct refs as [|[d r] refs]; [done|].
    cbn in Eempty. by destruct d. }
  assert (Hlines : lines (text_of (map ref_line refs)) = map (fun x => fst x ++ String (ascii_of_nat 9) (snd x))%string refs).
  { rewrite <- (lines_plain (map (fun x => fst x ++ String (ascii_of_nat 9) (snd x))%string refs)).
    - f_equal. f_equal. rewrite map_map. apply map_ext. intros x. unfold ref_line. by rewrite append_assoc.
    - apply Forall_map. eapply List.Forall_impl; [|exact Hrefs]. intros [c r] [Ho Hp]. cbn [fst snd] in *. unfold plain_line. rewrite all_bytes_app.
      destruct (is_oid_facts c Ho) as (Hc & _ & _). apply andb_true_iff. split.
      + revert Hc. apply all_bytes_impl. intros a Ha. apply oid_char_facts in Ha. lia.
      + cbn [all_bytes]. apply andb_true_iff. split; [done|]. revert Hp. apply all_bytes_impl. intros a ->. done. }
  rewrite Hlines in E. destruct refs as [|[c r] [|]]; try done. cbn [map fst snd] in *. apply Forall_cons in Hrefs as [[Ho _] _]. cbn [fst] in Ho.
  rewrite split_tab in E; [cbn [ok_or rbind snd fst] in E|].
  - destruct (String.eqb_spec r (o_reference owned)) as [->|]; [|done]. cbn [ensure rbind] in E. rewrite (oid_plain c Ho) in E. injection E as <-.
    apply Hr. by left.
  - destruct (is_oid_facts c Ho) as (Hc & _ & _). revert Hc. apply all_bytes_impl. intros a Ha. apply oid_char_facts in Ha. unfold char_is. lia.
Qed.

(** The repository and the remote right after a run that begins at [w0] has looked up
    the remote's branch: its first command is the initialization. *)
Definition seen_at (w0 : world) (remote : Remote) : world := snd (remote_head owned remote (snd (initialize owned w0))).
Lemma seen_at_reached w0 remote : reached w0 (seen_at w0 remote).
Proof.
  unfold seen_at. destruct (initialize owned w0) as [x w1] eqn:E1. cbn [snd].
  destruct (remote_head owned remote w1) as [h w2] eqn:E2. cbn [snd].
  eapply reached_trans; [exact (quiet_reached _ _ _ _ (quiet_initialize owned) E1)|].
  exact (quiet_reached _ _ _ _ (quiet_remote_head owned remote) E2).
Qed.
Lemma seen_at_ok w0 remote x w1 h w2 :
  initialize owned w0 = (x, w1) -> remote_head owned remote w1 = (Ok h, w2) ->
  remote_ref (seen_at w0 remote) (remote_url remote) (o_reference owned) = h.
Proof. intros E1 E2. unfold seen_at. rewrite E1. cbn [snd]. rewrite E2. by eapply remote_head_ok. Qed.

Lemma git_finish_ok remote receipt w r w' :
  finish owned remote receipt w = (Ok r, w') ->
  r = mkGitReceipt (gr_commit receipt) (gr_content_sha256 receipt) (gr_changed receipt) (is_some remote || gr_remote_verified receipt) /\
  match remote with Some x => remote_ref w' (remote_url x) (o_reference owned) = Some (gr_commit receipt) | None => True end.
Proof.
  unfold finish. destruct remote as [x|].
  - intros E. apply git_bind_ok in E as (? & w1 & _ & E). apply git_bind_ok in E as (head & w2 & E2 & E).
    apply git_bind_ok in E as (? & w3 & E3 & E). apply git_lift_ok in E3 as [E3 ->]. injection E as <- <-.
    case_bool_decide as Hh; [|done]. subst head. split; [done|]. by eapply remote_head_ok.
  - intros [= <- <-]. split; [by destruct receipt|done].
Qed.
End answers.

(** * Publication appends *)
Lemma ancestor_keeps `{!Git, !GitOk} w w' a b : keeps w w' -> ancestor (commit_of w) a b -> ancestor (commit_of w') a b.
Proof. intros Hk. induction 1 as [|c k p Hc Hp _ IH]; [constructor|]. econstructor; [by apply Hk|done|done]. Qed.

Section outcome.
Context `{!Git, !GitOk} (owned : Owned) (staging : string) (remote : option Remote) (m : PublishedManifest) (files : staged).
Let branch : string := o_reference owned.

(** The remote's branch, as the run saw it, was missing or at a commit the local
    branch descends from. *)
Definition checked (w0 w : world) (r : Remote) : Prop :=
  match remote_ref (seen_at owned w0 r) (remote_url r) branch with
  | None => True
  | Some head => exists p, local w0 branch = Some p /\ ancestor (commit_of w) head p
  end.
Lemma checked_keeps w0 w w' r : keeps w w' -> checked w0 w r -> checked w0 w' r.
Proof.
  unfold checked. intros Hk Hc. destruct (remote_ref _ _ _) as [h|]; [|done]. destruct Hc as (p & Hp & Ha).
  exists p. split; [done|by eapply ancestor_keeps].
Qed.

(** What the repository and the receipt are after a publication from [w0]. *)
Record outcome (w0 : world) (x : result GitError GitReceipt * world) : Prop := {
  oc_keeps : keeps w0 (snd x);
  oc_others : forall r, is_branch r = true -> r <> branch -> local (snd x) r = local w0 r;
  oc_branch : local (snd x) branch = local w0 branch \/
    exists c, local (snd x) branch = Some c /\ publishes (snd x) c (local w0 branch) m files;
  oc_receipt : forall receipt, fst x = Ok receipt ->
    local (snd x) branch = Some (gr_commit receipt) /\ commit_holds (snd x) (gr_commit receipt) files /\
    gr_content_sha256 receipt = content_sha256 m /\
    (if gr_changed receipt then publishes (snd x) (gr_commit receipt) (local w0 branch) m files else local w0 branch = Some (gr_commit receipt)) /\
    gr_remote_verified receipt = is_some remote /\
    match remote with
    | Some r => checked w0 (snd x) r /\ remote_ref (snd x) (remote_url r) branch = Some (gr_commit receipt)
    | None => True
    end;
}.

Hypothesis is_local : is_branch branch = true.

Lemma outcome_failed w0 w e : reached w0 w -> outcome w0 (Err e, w).
Proof. intros [Hk Hl]. constructor; cbn [fst snd]; [done|auto|left; by apply Hl|done]. Qed.
Lemma outcome_bind {A} (q : git A) k w0 w :
  reached w0 w -> quiet q -> (forall a w1, q w = (Ok a, w1) -> reached w w1 -> outcome w0 (k a w1)) -> outcome w0 (git_bind q k w).
Proof.
  intros Hr Hq Hk. unfold git_bind. destruct (q w) as [[a|e] w1] eqn:E; pose proof (quiet_reached _ _ _ _ Hq E) as Hr1.
  - by apply Hk.
  - apply outcome_failed. by eapply reached_trans.
Qed.

Lemma check_remote_ok r w w0 w' x :
  initialize owned w0 = (x, w) -> check_remote owned r (local w0 branch) w = (Ok tt, w') -> checked w0 w' r.
Proof.
  intros Ei E. unfold check_remote in E. apply git_bind_ok in E as (h & w1 & E1 & E).
  unfold checked, branch. rewrite (seen_at_ok owned w0 r x w h w1 Ei E1). fold branch. destruct h as [h|]; [|done].
  apply git_bind_ok in E as (p & w2 & E2 & E). apply git_lift_ok in E2 as [E2 ->]. destruct (local w0 branch) as [q|]; [|done]. injection E2 as ->.
  exists p. split; [done|]. destruct (String.eqb_spec h p) as [->|]; [constructor|].
  apply git_bind_ok in E as (? & w3 & _ & E). unfold git_catch in E. destruct (is_ancestor owned h p w3) as [[u|] w4] eqn:Ea; [|done].
  injection E as ->. unfold is_ancestor in Ea. apply git_bind_ok in Ea as (? & w5 & Ea & E). apply command_ok in Ea as (opts & Ea).
  injection E as _ <-. by eapply merge_base.
Qed.

(** The last step: the branch is where the receipt says. *)
Lemma outcome_finish w0 w (changed : bool) c :
  keeps w0 w -> (forall r, is_branch r = true -> r <> branch -> local w r = local w0 r) -> local w branch = Some c -> commit_holds w c files ->
  (if changed then publishes w c (local w0 branch) m files else local w0 branch = Some c) ->
  match remote with Some r => checked w0 w r | None => True end ->
  outcome w0 (finish owned remote (mkGitReceipt c (content_sha256 m) changed false) w).
Proof.
  intros Hk Ho Hb Hh Hc Hch. destruct (finish _ _ _ _) as [x w'] eqn:E. destruct (quiet_reached _ _ _ _ (quiet_finish owned remote _) E) as [Hk' Hl].
  constructor; cbn [fst snd].
  - by eapply keeps_trans.
  - intros r Hr Hne. by rewrite Hl, Ho.
  - rewrite (Hl branch is_local), Hb. destruct changed; [right|left; by rewrite Hc]. exists c. split; [done|by eapply publishes_keeps].
  - intros receipt ->. apply git_finish_ok in E as [-> Hf]. cbn [gr_commit gr_content_sha256 gr_changed gr_remote_verified] in *.
    rewrite (Hl branch is_local), orb_false_r. split; [done|]. split; [by eapply commit_holds_keeps|]. split; [done|].
    split; [destruct changed; [by eapply publishes_keeps|done]|]. split; [done|]. destruct remote; [|done].
    split; [by eapply checked_keeps|done].
Qed.

Lemma commit_prepared_outcome w0 :
  (forall below, local w0 (branch ++ "/" ++ below)%string = None) ->
  StronglySorted sle (map fst files) -> NoDup (map fst files) -> Forall (fun f => published_name (fst f) = true) files ->
  outcome w0 (commit_prepared owned staging remote m files w0).
Proof.
  intros Hbelow Hsort Hnodup Hnames. unfold commit_prepared.
  apply outcome_bind; [apply reached_refl|apply quiet_initialize|]. intros parent w1 E1 R1.
  destruct (initialize_ok _ _ _ _ is_local Hbelow E1) as [Hparent Hoid].
  apply outcome_bind; [done|destruct remote; [apply quiet_check_remote|apply quiet_ret]|]. intros [] w2 E2 R2.
  assert (Hchecked : match remote with Some r => checked w0 w2 r | None => True end).
  { destruct remote as [r|]; [|done]. rewrite Hparent in E2. by eapply check_remote_ok. }
  apply outcome_bind; [by eapply reached_trans|apply quiet_write_tree|]. intros t w3 E3 R3.
  apply write_tree_ok in E3 as (Ht & es & Htree & Hm & Hes); [|done|done|done].
  pose proof (entries_hold staging files w3 t es Hnodup Htree Hm Hes) as Hh.
  assert (R : reached w0 w3) by (eapply reached_trans; [|exact R3]; by eapply reached_trans).
  assert (Hp : none_or parent is_oid = true /\ none_or parent (fun c => negb (String.eqb c ZERO_OID)) = true).
  { destruct parent as [p|]; [|done]. cbn in *. by apply andb_true_iff in Hoid. }
  apply outcome_bind; [done| |].
  { destruct parent; [|apply quiet_ret]. apply quiet_bind; [apply quiet_old_tree|intros; apply quiet_ret]. }
  intros same w4 E4 R4. assert (R' : reached w0 w4) by by eapply reached_trans.
  destruct same as [p|].
  - (* the branch already has this tree *)
    destruct parent as [q|]; [|done]. apply git_bind_ok in E4 as (old & w5 & E4 & E5). cbn in Hp.
    injection E5 as E5 ->. destruct (String.eqb_spec old t) as [->|]; [|done]. injection E5 as ->.
    apply old_tree_ok in E4 as (c & Hc & <-); [|apply Hp].
    apply outcome_finish; [apply R'|intros r Hr _; by apply R'| | |done|].
    + destruct R' as [_ Hl]. by rewrite (Hl branch is_local).
    + exists c. split; [done|]. eapply holds_keeps; [apply R4|done].
    + destruct remote; [|done]. eapply checked_keeps; [|done]. eapply keeps_trans; [apply R3|apply R4].
  - apply outcome_bind; [done|by apply quiet_run|]. intros out w5 E5 R5. apply commit_ok in E5 as (c & Ec & Hc & Hcommit); [|done|apply Hp].
    rewrite Ec. unfold git_lift at 1. unfold git_bind at 1.
    assert (R'' : reached w0 w5) by by eapply reached_trans. destruct R'' as [Hk Hl].
    unfold git_bind. destruct (advance owned c parent w5) as [x w6] eqn:E6. apply advance_cases in E6 as (Hk6 & Ho6 & Hb6); [|apply Hp].
    assert (Hpub : publishes w6 c (local w0 branch) m files).
    { subst parent. exists t. split; [by apply Hk6|]. eapply holds_keeps; [|exact Hh]. eapply keeps_trans; [apply R4|]. eapply keeps_trans; [apply R5|done]. }
    assert (Hothers : forall r, is_branch r = true -> r <> branch -> local w6 r = local w0 r) by (intros r Hr Hne; rewrite Ho6 by done; by apply Hl).
    destruct x as [[]|e].
    + destruct Hb6 as [[Hb6 _]|[? _]]; [|done]. apply outcome_finish; [by eapply keeps_trans|done|done|by eapply publishes_holds|done|].
      destruct remote; [|done]. eapply checked_keeps; [|done]. eapply keeps_trans; [apply R3|]. eapply keeps_trans; [apply R4|].
      eapply keeps_trans; [apply R5|done].
    + constructor; cbn [fst snd]; [by eapply keeps_trans|done| |done]. destruct Hb6 as [[Hb6 _]|[_ Hb6]]; [right; by exists c|left].
      change (o_reference owned) with branch in Hb6. by rewrite Hb6, Hl.
Qed.
End outcome.

(** * The files of a publication *)
Section prepared.
Context `{!MasterCodecs, !MasterCodecsOk} (io : string -> bool) (pretty : json -> option (list Z)) (json_text : string -> string).

(** A staged file holds the installed table of that name, re-indented in the
    indented layout. *)
Definition staged_table (l : Layout) (f : File) (x : string * list Z) : Prop :=
  fst x = f_name f /\
  exists b, digest b = f_sha256 f /\ llen b = f_size f /\ json_valid b = true /\
    match l with Native => snd x = b | IndentedRoot => reindent b = Some (snd x) end.
(** The document the tables are published with. *)
Definition staged_document (l : Layout) (m : PublishedManifest) (x : string * list Z) : Prop :=
  match l with
  | Native => fst x = "sirius-publication.json"%string /\ pretty (metadata_value m) = Some (snd x)
  | IndentedRoot => fst x = "version.json"%string /\
      exists resource, p_resource_version m = Some resource /\ snd x = version_document json_text (p_version m) resource
  end.
Record published_files (l : Layout) (m : PublishedManifest) (files : staged) : Prop := {
  pf_files : exists tables document, Forall2 (staged_table l) (p_files m) tables /\ staged_document l m document /\ files ≡ₚ document :: tables;
  pf_sorted : StronglySorted sle (map fst files);
  pf_nodup : NoDup (map fst files);
  pf_names : Forall (fun f => published_name (fst f) = true) files;
}.

Lemma manifest_names v scope doc m :
  manifest v None scope = Ok doc -> published_from_slice (d_bytes doc) = Some m -> NoDup (map f_name (p_files m)).
Proof.
  intros E Em. unfold manifest in E. inv_ok. destruct a1 as [[source rv] recorded]. inv_ok. subst doc. cbn [d_bytes] in Em.
  match goal with E : ok_or (published_to_vec ?p) _ = Ok _ |- _ => destruct (published_roundtrip p) as (b & E1 & E2); rewrite E1 in E end.
  match goal with E : ok_or _ _ = Ok _ |- _ => injection E as E end. subst b. rewrite E2 in Em. injection Em as <-. cbn [p_files].
  match goal with E : inventory _ _ _ = Ok _ |- _ => unfold inventory in E; apply rbind_ok in E as (i & _ & E); apply rbind_ok in E as (u & Hi & E); injection E as E end.
  subst i. destruct u. apply inventory_validate_ok in Hi as (_ & _ & Hn & _). rewrite Hn, (sort_by_perm id).
  match goal with E : source_with_provenance _ _ = Ok _ |- _ => unfold source_with_provenance in E; apply rbind_ok in E as (? & _ & E); apply rbind_ok in E as (src & Hp & E) end.
  assert (src = source) as -> by (inv_ok; congruence).
  apply parse_ok in Hp as (_ & Hc & _). apply check_manifest_ok in Hc. cbn [sort_source m_files].
  assert (Hs : manifest_ok (mkManifest (m_version source) (sort_by e_name (m_files source)))).
  { destruct source as [ver es]. eapply manifest_ok_perm; [|exact Hc]. cbn. symmetry. apply sort_by_perm. }
  apply (table_names_nodup _ (mo_entries _ Hs) (mo_nodup _ Hs)).
Qed.

Lemma table_component v g s t h doc : table v g s t h = Ok doc -> safe_component t = true.
Proof. unfold table, table_read. by destruct (safe_component t). Qed.
Lemma json_name n stem : strip_suffix n ".json" = Some stem -> safe_component stem = true -> published_name n = true.
Proof. unfold published_name. by intros ->. Qed.

Lemma stage_files_ok v l m fs files :
  stage_files io v l m fs = Ok files ->
  Forall2 (staged_table l) fs files /\
  Forall (fun f => published_name (fst f) = true /\ fst f <> "version.json"%string /\ fst f <> "sirius-publication.json"%string) files.
Proof.
  revert files. induction fs as [|f fs IH]; intros files; cbn [stage_files].
  { intros [= <-]. split; constructor. }
  intros E. inv_ok. destruct (table v _ _ a _) as [d|] eqn:Et; [|done]. simplify_eq.
  unfold stage in E. inv_ok. subst files. destruct (IH _ eq_refl) as [H1 H2].
  destruct (strip_suffix (f_name f) ".json") as [stem|] eqn:Es; [|done]. cbn [ok_or] in *. simplify_eq.
  pose proof (table_component _ _ _ _ _ _ Et) as Hsafe. apply table_read_facts in Et as [Hj Hd].
  split; constructor; try done.
  - split; [done|]. exists (d_bytes a0). split; [done|]. split; [by apply Z.eqb_eq|]. split; [done|].
    destruct l; [simplify_eq; done|]. by destruct (reindent (d_bytes a0)); simplify_eq/=.
  - cbn [fst]. split; [by eapply json_name|]. split; intros E; rewrite E in *; done.
Qed.

Lemma published_files_intro l m tables document :
  NoDup (map f_name (p_files m)) -> Forall2 (staged_table l) (p_files m) tables ->
  Forall (fun f => published_name (fst f) = true /\ fst f <> "version.json"%string /\ fst f <> "sirius-publication.json"%string) tables ->
  staged_document l m document -> published_files l m (sort_by fst (tables ++ [document])).
Proof.
  intros Hn Ht Hnames Hd. assert (Hp : sort_by fst (tables ++ [document]) ≡ₚ document :: tables).
  { rewrite (sort_by_perm fst). symmetry. apply Permutation_cons_append. }
  assert (Hdoc : (fst document = "version.json" \/ fst document = "sirius-publication.json")%string /\ published_name (fst document) = true).
  { destruct l; destruct Hd as [-> _]; split; auto; by vm_compute. }
  constructor.
  - by exists tables, document.
  - apply sort_map_sorted.
  - apply (Permutation_map fst) in Hp. rewrite Hp. cbn [map]. apply NoDup_cons. split.
    + rewrite list_elem_of_In. intros Hin. apply in_map_iff in Hin as (x & E & Hin). rewrite List.Forall_forall in Hnames.
      destruct (Hnames x Hin) as (_ & H1 & H2). rewrite E in H1, H2. by destruct Hdoc as [[] _].
    + replace (map fst tables) with (map f_name (p_files m)); [done|]. clear -Ht. induction Ht as [|f x fs xs [E _] _ IH]; [done|]. cbn. by rewrite IH, E.
  - rewrite Hp. constructor; [apply Hdoc|]. eapply List.Forall_impl; [|exact Hnames]. by intros x [? _].
Qed.
Lemma prepare_ok v scope l m files : prepare pretty json_text io v scope l = Ok (m, files) -> published_files l m files.
Proof.
  unfold prepare. intros E. inv_ok. destruct (manifest v None scope) as [doc|] eqn:Em; [|done]. simplify_eq.
  destruct (published_from_slice (d_bytes a)) as [p|] eqn:Ep; [|done]. cbn [ok_or] in *. simplify_eq.
  pose proof (manifest_names _ _ _ _ Em Ep) as Hn. apply stage_files_ok in Heqr2 as [H1 H2].
  destruct a1 as [resource|]; inv_ok; simplify_eq; apply published_files_intro; try done.
  - destruct l; [done|]. destruct (p_resource_version _) as [r|] eqn:Er; [|done]. cbn in *. simplify_eq. split; [done|]. by exists resource.
  - destruct l; [|by destruct (p_resource_version _)]. split; [done|]. cbn [snd]. by destruct (pretty _); cbn in *; simplify_eq.
Qed.
End prepared.

(** * The theorem *)
Section publication_theorem.
Context `{!MasterCodecs, !MasterCodecsOk, !Git, !GitOk} (io : string -> bool) (pretty : json -> option (list Z)) (json_text : string -> string)
  (directory staging : string).

(** C31: In a state directory without a branch below the configured one, whatever Git
    command of a publication fails, is killed or takes effect without an answer, every
    object and every other branch stay, and the local branch is what it was or one new
    commit on top of it whose tree holds exactly the installed tables and the
    publication's document; a receipt names the commit the branch is at and says whether
    it is new, and with a remote it is given only when the remote's branch, at the run's
    look-up, was missing or an ancestor of the local one and was seen at that commit
    afterwards. *)
Theorem publication_appends v dest scope remote policy options w r dest' w' :
  (forall below, local w (reference options ++ "/" ++ below)%string = None) ->
  commit_internal io pretty json_text directory staging v dest scope remote policy options w = (r, dest', w') ->
  is_ok r = false /\ w' = w \/
  exists m files, prepare pretty json_text io v scope (layout options) = Ok (m, files) /\
    published_files pretty json_text (layout options) m files /\
    outcome (mkOwned directory (reference options) policy) remote m files w (r, w').
Proof.
  intros Hbelow. unfold commit_internal. destruct (rbind _ _); [|intros [= <- _ <-]; by left].
  destruct (own io dest scope) as [[[]|e] d]; [|intros [= <- _ <-]; by left].
  destruct (prepare _ _ _ _ _ _) as [[m files]|e] eqn:Ep; [|intros [= <- _ <-]; by left].
  pose proof (prepare_ok _ _ _ _ _ _ _ _ Ep) as Hf.
  pose proof (commit_prepared_outcome (mkOwned directory (reference options) policy) staging remote m files
    (starts_with_app "refs/heads/" (branch options)) w Hbelow (pf_sorted _ _ _ _ _ Hf) (pf_nodup _ _ _ _ _ Hf) (pf_names _ _ _ _ _ Hf)) as Ho.
  destruct (commit_prepared _ _ _ _ _ w) as [answer w1]. intros [= <- _ <-]. right. by exists m, files.
Qed.
End publication_theorem.
