(* ===== verification/GitAdoption.v ===== *)
(** The adoption of a remote branch as the local state ([adopt] and [recognize] of
    [master_git.rs]): the local branch is only ever moved forward, to a branch
    whose newest publication is one of the scope. *)
From Stdlib Require Import ZArith Lia Ascii String List Bool Sorted.
From stdpp Require Import base list strings decidable gmap.
From S2P Require Import Prelude BTree Errors Regions Versions Http Environment MasterFiles MasterRegistry MasterHistory MasterChain GitConfig MasterGit GitPublication.

Local Open Scope Z_scope.
Local Open Scope rust_scope.

Record Adoption : Type := mkAdoption {
  ad_commit : string;
  previous : option string;
  adopted : bool;
  publication : option string;
  version : option string;
}.
Definition ADOPT_DEPTH : Z := 64.
Definition ADOPT_TREE_ENTRIES : Z := 4096 + 1.

(** The newest commit with the subject of a publication, and the rest of its subject. *)
Fixpoint decided (log : list string) : result GitError (option (string * string)) :=
  match log with
  | [] => Ok None
  | line :: log =>
      if some_and (strip_prefix line "commit ") is_oid then decided log
      else
        x <-? ok_or (split_once 9 line) GGit;;
        guard? is_oid (fst x) else GGit;;
        match strip_prefix (snd x) "Sirius Master " with
        | Some rest => Ok (Some (fst x, rest))
        | None => decided log
        end
  end.

(** [slice::split] on NUL, without the empty pieces. *)
Fixpoint split_nul (b : list Z) : list (list Z) :=
  match b with
  | [] => [[]]
  | x :: b => if x =? 0 then [] :: split_nul b else match split_nul b with p :: ps => (x :: p) :: ps | [] => [[x]] end
  end.
Definition pieces (b : list Z) : list (list Z) := List.filter (fun p => negb (Nat.eqb (length p) 0)) (split_nul b).

Definition entry_name_ok (name : string) : bool :=
  negb ((len name <=? 5) || negb (ends_with name ".json") || starts_with name "."
        || contains_char 47 name || contains_char 92 name || has_control name).
Fixpoint tree_entries (ps : list (list Z)) (entries : @bmap string) : result GitError (@bmap string) :=
  match ps with
  | [] => Ok entries
  | p :: ps =>
      entry <-? ok_or (from_utf8 p) NotAdoptable;;
      x <-? ok_or (split_once 9 entry) NotAdoptable;;
      let '(header, name) := x in
      blob <-? ok_or (strip_prefix header "100644 blob ") NotAdoptable;;
      guard? is_oid blob else NotAdoptable;;
      guard? negb ((ADOPT_TREE_ENTRIES <=? size entries) || negb (entry_name_ok name)) else NotAdoptable;;
      tree_entries ps (insert name blob entries)
  end.

Section adoption.
Context `{!MasterCodecs, !Git} (env : string -> option string) (url_parse : string -> option Url) (to_file_path : Url -> bool)
  (io : string -> bool) (json_text : string -> string) (directory : string)
  (recorded_from_slice : list Z -> option (json * string * list string)) (scope_from_value : json -> option Scope)
  (version_from_slice : list Z -> option (string * string)).

(** The metadata of a publication, its scope as the current names have it. *)
Definition current_scope (scope : json) : json :=
  match json_field "region" scope with
  | Some (JStr name) =>
      if is_deprecated_alias name
      then match from_recorded_name name with Some r => set_field "region" (JStr (region_name r)) scope | None => scope end
      else scope
  | _ => scope
  end.

Section recognize.
Context (owned : Owned) (scope : Scope) (l : Layout).
Definition METADATA_LIMIT : Z := 4 * 1024 * 1024.
Definition recognize_tree (version : string) (entries : @bmap string) : git unit :=
  match l with
  | Native =>
      _ <-git git_lift (ensure (negb (contains_key "version.json" entries)) NotAdoptable);;
      blob <-git git_lift (ok_or (get "sirius-publication.json" entries) NotAdoptable);;
      let entries := remove "sirius-publication.json" entries in
      bytes <-git run owned [] ["cat-file"; "blob"; blob]%string no_files [] METADATA_LIMIT;;
      recorded <-git git_lift (ok_or (recorded_from_slice bytes) NotAdoptable);;
      let '(recorded_scope, recorded_version, names) := recorded in
      recorded_scope <-git git_lift (ok_or (scope_from_value (current_scope recorded_scope)) NotAdoptable);;
      git_lift (ensure (negb (negb (bool_decide (recorded_scope = scope)) || negb (String.eqb recorded_version version)
                              || negb (bool_decide (sort_by id names = map fst entries)))) NotAdoptable)
  | IndentedRoot =>
      _ <-git git_lift (ensure (negb (contains_key "sirius-publication.json" entries)) NotAdoptable);;
      blob <-git git_lift (ok_or (get "version.json" entries) NotAdoptable);;
      bytes <-git command owned ["cat-file"; "blob"; blob]%string;;
      document <-git git_lift (ok_or (version_from_slice bytes) NotAdoptable);;
      let '(data_version, asset_version) := document in
      git_lift (ensure (negb (negb (String.eqb data_version version)
                              || negb (bool_decide (bytes = version_document json_text data_version asset_version)))) NotAdoptable)
  end.
Definition recognize (head : string) : git (string * string) :=
  log <-git command owned ["rev-list"; "--first-parent"; "--max-count=64"; "--format=%H%x09%s"; head]%string;;
  found <-git git_lift (decided (lines (from_utf8_lossy log)));;
  found <-git git_lift (ok_or found NotAdoptable);;
  let '(commit, rest) := found in
  x <-git git_lift (ok_or (split_once 32 rest) NotAdoptable);;
  let '(region_part, version) := x in
  _ <-git git_lift (ensure (negb (negb (bool_decide (from_recorded_name region_part = Some (region scope))) || negb (safe_version version))) NotAdoptable);;
  listing <-git command owned ["ls-tree"; "-z"; commit]%string;;
  entries <-git git_lift (tree_entries (pieces listing) []);;
  _ <-git recognize_tree version entries;;
  git_ret (commit, version).
End recognize.

Definition ancestor_b (owned : Owned) (older newer : string) : git bool :=
  git_catch (is_ancestor owned older newer) (fun r => git_ret (is_ok r)).

(** [adopt_with_options] from the owned state directory on. *)
Definition adopt_owned (owned : Owned) (scope : Scope) (l : Layout) (remote : Remote) : git Adoption :=
  before <-git initialize owned;;
  head <-git remote_head owned remote;;
  head <-git git_lift (ok_or head NotAdoptable);;
  let unchanged commit := mkAdoption commit before false None None in
  let adopt_head :=
    x <-git recognize owned scope l head;;
    _ <-git advance owned head before;;
    git_ret (mkAdoption head before true (Some (fst x)) (Some (snd x))) in
  if bool_decide (before = Some head) then git_ret (unchanged head)
  else
    _ <-git fetch_remote_check owned remote head;;
    match before with
    | None => adopt_head
    | Some here =>
        behind <-git ancestor_b owned head here;;
        if (behind : bool) then git_ret (unchanged here)
        else
          forward <-git ancestor_b owned here head;;
          if (forward : bool) then adopt_head else git_lift (Err RemoteChanged)
    end.
Definition adopt_with_options (dest : destination) (scope : Scope) (remote : Remote) (options : GitOptions)
  (w : world) : result GitError Adoption * destination * world :=
  match (_ <-? remote_validate env url_parse to_file_path remote;; options_validate options) with
  | Err e => (Err e, dest, w)
  | Ok _ =>
      match own io dest scope with
      | (Err e, dest) => (Err e, dest, w)
      | (Ok _, dest) =>
          let '(r, w) := adopt_owned (mkOwned directory (reference options) default_policy) scope (layout options) remote w in
          (r, dest, w)
      end
  end.
End adoption.

(** * Lemmas *)
Lemma split_once_tab s a b : split_once 9 s = Some (a, b) -> s = (a ++ String (ascii_of_nat 9) b)%string.
Proof.
  revert a b. induction s as [|c s IH]; intros a b; cbn [split_once]; [done|]. destruct (char_is 9 c) eqn:Ec.
  - intros [= <- <-]. cbn. f_equal. apply byte_of_inj. unfold char_is in Ec. apply Z.eqb_eq in Ec. by rewrite Ec.
  - destruct (split_once 9 s) as [[a' b']|]; [|done]. intros [= <- <-]. cbn. f_equal. by apply IH.
Qed.
Lemma decided_in log c rest :
  decided log = Ok (Some (c, rest)) -> exists line s, In line log /\ split_once 9 line = Some (c, s) /\ is_oid c = true.
Proof.
  induction log as [|line log IH]; cbn [decided]; [done|]. destruct (some_and _ _).
  { intros E. destruct (IH E) as (line' & s & Hin & H). exists line', s. split; [by right|done]. }
  intros E. apply rbind_ok in E as (x & Ex & E). apply rbind_ok in E as ([] & Ho & E). apply ensure_ok in Ho.
  destruct (split_once 9 line) as [y|] eqn:Ey; [|done]. injection Ex as ->. destruct (strip_prefix (snd x) _).
  - injection E as <- <-. exists line, (snd x). split; [by left|]. split; [by destruct x|done].
  - destruct (IH E) as (line' & s' & Hin & H). exists line', s'. split; [by right|done].
Qed.

Lemma split_nul_app e b : all_bytes (fun c => negb (char_is 0 c)) e = true -> split_nul (bytes_of e ++ 0 :: b) = bytes_of e :: split_nul b.
Proof.
  induction e as [|c e IH]; [done|]. cbn [all_bytes bytes_of app split_nul]. intros He. apply andb_true_iff in He as [Hc He].
  unfold char_is in Hc. apply negb_true_iff in Hc. by rewrite Hc, (IH He).
Qed.
Lemma pieces_entries raw :
  Forall (fun e => e <> ""%string /\ all_bytes (fun c => negb (char_is 0 c)) e = true) raw ->
  pieces (concat (map (fun e => bytes_of e ++ [0]) raw)) = map bytes_of raw.
Proof.
  unfold pieces. induction 1 as [|e raw [Hne He] _ IH]; [done|]. cbn [map concat]. rewrite <- app_assoc. cbn [app]. rewrite split_nul_app by done.
  cbn [List.filter]. destruct e as [|c e]; [done|]. cbn [bytes_of length Nat.eqb negb]. by rewrite IH.
Qed.

(** The entries of a tree, by name. *)
Definition by_name (es : list (string * string)) : @bmap string := List.fold_left (fun m e => insert (fst e) (snd e) m) es [].
Lemma tree_entries_ok raw entries entries' :
  tree_entries (map bytes_of raw) entries = Ok entries' ->
  exists es, raw = map entry_text es /\ entries' = List.fold_left (fun m e => insert (fst e) (snd e) m) es entries /\
    Forall (fun e => entry_name_ok (fst e) = true /\ is_oid (snd e) = true) es.
Proof.
  revert entries. induction raw as [|r raw IH]; intros entries; cbn [map tree_entries].
  { intros [= <-]. by exists []. }
  intros E. apply rbind_ok in E as (entry & E1 & E). unfold ok_or in E1. destruct (from_utf8 _) as [t|] eqn:Et; [|done]. injection E1 as ->.
  apply utf8_bytes in Et as ->. apply rbind_ok in E as ([header name] & E2 & E). destruct (split_once 9 r) as [y|] eqn:Er; [|done]. cbn in E2. injection E2 as ->.
  apply split_once_tab in Er. apply rbind_ok in E as (blob & E3 & E). destruct (strip_prefix header _) as [b|] eqn:Eb; [|done]. injection E3 as ->.
  apply strip_prefix_spec in Eb. inv_ok. apply IH in E as (es & -> & -> & Hes). exists ((name, blob) :: es). split; [|split; [done|]].
  - cbn [map]. f_equal. unfold entry_text. cbn [fst snd]. by rewrite Er, Eb, append_assoc.
  - constructor; [|done]. cbn [fst snd]. split; [|done]. bool_prop. by destruct (entry_name_ok name).
Qed.

(** * Adoption moves forward *)
Section adoption_facts.
Context `{!MasterCodecs, !Git, !GitOk} (env : string -> option string) (url_parse : string -> option Url) (to_file_path : Url -> bool)
  (io : string -> bool) (json_text : string -> string) (directory : string)
  (recorded_from_slice : list Z -> option (json * string * list string)) (scope_from_value : json -> option Scope)
  (version_from_slice : list Z -> option (string * string)).

Lemma quiet_recognize_tree owned scope l version entries :
  quiet (recognize_tree json_text recorded_from_slice scope_from_value version_from_slice owned scope l version entries).
Proof.
  unfold recognize_tree. destruct l; repeat (apply quiet_bind; [apply quiet_lift || by apply quiet_run|intros ?]);
    repeat match goal with |- quiet (let '(_, _) := ?x in _) => destruct x end; [|apply quiet_lift].
  apply quiet_bind; [apply quiet_lift|intros ?]. apply quiet_lift.
Qed.
Lemma quiet_recognize owned scope l head :
  quiet (recognize json_text recorded_from_slice scope_from_value version_from_slice owned scope l head).
Proof.
  unfold recognize. do 3 (apply quiet_bind; [apply quiet_lift || by apply quiet_run|intros ?]). destruct a1 as [commit rest].
  apply quiet_bind; [apply quiet_lift|intros [region_part version]]. do 3 (apply quiet_bind; [apply quiet_lift || by apply quiet_run|intros ?]).
  apply quiet_bind; [apply quiet_recognize_tree|intros ?; apply quiet_ret].
Qed.
Lemma quiet_ancestor_b owned a b : quiet (ancestor_b owned a b).
Proof. apply quiet_catch; [apply quiet_is_ancestor|intros; apply quiet_ret]. Qed.
Lemma ancestor_b_ok owned a b w w' : ancestor_b owned a b w = (Ok true, w') -> ancestor (commit_of w') a b.
Proof.
  unfold ancestor_b, git_catch. destruct (is_ancestor owned a b w) as [[[]|e] w1] eqn:E; [|done]. intros [= <-].
  unfold is_ancestor in E. apply git_bind_ok in E as (out & w2 & E & E2). apply command_ok in E as (opts & E). injection E2 as <-. by eapply merge_base.
Qed.

(** A commit whose tree is a publication of [version] in [scope]. *)
Definition is_publication (w : world) (scope : Scope) (l : Layout) (p version : string) : Prop :=
  safe_version version = true /\
  exists k es, commit_of w p = Some k /\ tree_of w (c_tree k) = Some es /\
    Forall (fun e => entry_name_ok (fst e) = true /\ is_oid (snd e) = true) es /\
    match l with
    | Native => exists blob b recorded names,
        get "sirius-publication.json" (by_name es) = Some blob /\ blob_of w blob = Some b /\
        recorded_from_slice b = Some (recorded, version, names) /\ scope_from_value (current_scope recorded) = Some scope /\
        sort_by id names = map fst (remove "sirius-publication.json" (by_name es))
    | IndentedRoot => exists blob resource,
        get "version.json" (by_name es) = Some blob /\ blob_of w blob = Some (version_document json_text version resource) /\
        get "sirius-publication.json" (by_name es) = None
    end.
Lemma is_publication_keeps w w' scope l p version : keeps w w' -> is_publication w scope l p version -> is_publication w' scope l p version.
Proof.
  intros Hk (Hv & k & es & Hc & Ht & He & Hl). split; [done|]. exists k, es. split; [by apply Hk|]. split; [by apply Hk|]. split; [done|].
  destruct l.
  - destruct Hl as (blob & b & recorded & names & G1 & G2 & G3). exists blob, b, recorded, names. split; [done|]. split; [by apply Hk|done].
  - destruct Hl as (blob & resource & G1 & G2 & G3). exists blob, resource. split; [done|]. split; [by apply Hk|done].
Qed.
Lemma first_parent_keeps w w' n a b : keeps w w' -> first_parent (commit_of w) n a b -> first_parent (commit_of w') n a b.
Proof. intros Hk. induction 1 as [|n head k p ps c Hc Hp _ IH]; [constructor|]. econstructor; [by apply Hk|done|done]. Qed.

Lemma recognize_tree_ok owned scope l version es w u w' :
  recognize_tree json_text recorded_from_slice scope_from_value version_from_slice owned scope l version (by_name es) w = (Ok u, w') ->
  match l with
  | Native => exists blob b recorded names,
      get "sirius-publication.json" (by_name es) = Some blob /\ blob_of w' blob = Some b /\
      recorded_from_slice b = Some (recorded, version, names) /\ scope_from_value (current_scope recorded) = Some scope /\
      sort_by id names = map fst (remove "sirius-publication.json" (by_name es))
  | IndentedRoot => exists blob resource,
      get "version.json" (by_name es) = Some blob /\ blob_of w' blob = Some (version_document json_text version resource) /\
      get "sirius-publication.json" (by_name es) = None
  end.
Proof.
  unfold recognize_tree. destruct l; intros E.
  - apply git_bind_ok in E as (? & w1 & E1 & E). apply git_lift_ok in E1 as [_ ->]. apply git_bind_ok in E as (blob & w1 & E1 & E).
    apply git_lift_ok in E1 as [E1 ->]. apply git_bind_ok in E as (b & w1 & E2 & E). apply git_run_ok in E2 as (opts & E2). apply cat_file in E2.
    apply git_bind_ok in E as (r & w2 & E3 & E). apply git_lift_ok in E3 as [E3 ->]. destruct r as [[recorded version'] names].
    apply git_bind_ok in E as (s & w2 & E4 & E). apply git_lift_ok in E4 as [E4 ->]. apply git_lift_ok in E as [E ->]. destruct u. apply ensure_ok in E.
    rewrite !negb_orb, !negb_involutive, !andb_true_iff, !bool_decide_eq_true, String.eqb_eq in E. destruct E as [[-> ->] E].
    destruct (get "sirius-publication.json" _) as [x1|]; [|done]. injection E1 as ->. destruct (recorded_from_slice b) as [x2|] eqn:Er; [|done]. injection E3 as ->.
    destruct (scope_from_value _) as [x3|] eqn:Es; [|done]. injection E4 as ->. exists blob, b, recorded, names. done.
  - apply git_bind_ok in E as ([] & w1 & E1 & E). apply git_lift_ok in E1 as [E0 ->]. apply ensure_ok, negb_true_iff in E0.
    apply git_bind_ok in E as (blob & w1 & E1 & E). apply git_lift_ok in E1 as [E1 ->]. apply git_bind_ok in E as (b & w1 & E2 & E).
    apply command_ok in E2 as (opts & E2). apply cat_file in E2. apply git_bind_ok in E as (d & w2 & E3 & E). apply git_lift_ok in E3 as [E3 ->].
    destruct d as [data_version resource]. apply git_lift_ok in E as [E ->]. destruct u. apply ensure_ok in E.
    rewrite !negb_orb, !negb_involutive, !andb_true_iff, !bool_decide_eq_true, String.eqb_eq in E. destruct E as [-> ->].
    destruct (get "version.json" _) as [x|]; [|done]. injection E1 as ->. exists blob, resource. split; [done|]. split; [done|].
    unfold contains_key in E0. by destruct (get "sirius-publication.json" _).
Qed.
Lemma recognize_ok owned scope l head w p version w' :
  recognize json_text recorded_from_slice scope_from_value version_from_slice owned scope l head w = (Ok (p, version), w') ->
  first_parent (commit_of w') 64 head p /\ is_publication w' scope l p version.
Proof.
  intros E. unfold recognize in E. apply git_bind_ok in E as (log & w1 & E1 & E). apply git_bind_ok in E as (found & w2 & E2 & E).
  apply git_lift_ok in E2 as [E2 ->]. apply git_bind_ok in E as (x & w2 & E3 & E). apply git_lift_ok in E3 as [E3 ->]. destruct found as [y|]; [|done]. injection E3 as ->.
  destruct x as [commit rest]. apply git_bind_ok in E as ([region_part v] & w2 & E3 & E). apply git_lift_ok in E3 as [_ ->].
  apply git_bind_ok in E as ([] & w2 & E3 & E). apply git_lift_ok in E3 as [E3 ->]. apply ensure_ok in E3.
  apply git_bind_ok in E as (listing & w2 & E4 & E). pose proof (quiet_reached _ _ _ _ (quiet_run owned [] ["ls-tree"; "-z"; commit]%string no_files [] OUTPUT_LIMIT eq_refl) E4) as [K4 _].
  apply git_bind_ok in E as (entries & w3 & E5 & E). apply git_lift_ok in E5 as [E5 ->]. apply git_bind_ok in E as (u & w3 & E6 & E). injection E as -> -> ->.
  pose proof (quiet_reached _ _ _ _ (quiet_recognize_tree _ _ _ _ _) E6) as [K6 _].
  apply command_ok in E1 as (opts & E1). apply decided_in in E2 as (line & s & Hin & Hs & Ho).
  destruct (rev_list _ _ _ _ _ _ _ E1 _ _ _ Hin Hs Ho) as [Hf Hk]. destruct (commit_of w1 p) as [k|] eqn:Ek; [|done].
  apply command_ok in E4 as (opts' & E4). pose proof (kp_commits _ _ K4 _ _ Ek) as Ek4.
  destruct (ls_tree _ _ k _ _ _ _ _ E4 Ek4) as (raw & -> & Hraw & Htree). rewrite pieces_entries in E5 by done.
  apply tree_entries_ok in E5 as (es & -> & -> & Hes). specialize (Htree es ltac:(eapply List.Forall_impl; [|exact Hes]; by intros ? [_ ?]) eq_refl). fold (by_name es) in E6. apply recognize_tree_ok in E6.
  split; [eapply first_parent_keeps; [exact K6|]; by eapply first_parent_keeps|]. split.
  - rewrite negb_orb, !negb_involutive, andb_true_iff in E3. apply E3.
  - exists k, es. split; [by apply K6|]. split; [by apply K6|done].
Qed.

Section outcome.
Context (owned : Owned) (scope : Scope) (l : Layout) (remote : Remote).
Let branch : string := o_reference owned.
Hypothesis is_local : is_branch branch = true.

(** The branch was missing or an ancestor of [head], which was the remote's branch when
    the run looked it up, and descends from the publication [p] of [version]. *)
Definition moves_to (w0 w : world) (head p version : string) : Prop :=
  (forall old, local w0 branch = Some old -> ancestor (commit_of w) old head) /\
  remote_ref (seen_at owned w0 remote) (remote_url remote) branch = Some head /\
  first_parent (commit_of w) 64 head p /\ is_publication w scope l p version.
(** What the repository and the answer are after an adoption from [w0]. *)
Record adoption_outcome (w0 : world) (x : result GitError Adoption * world) : Prop := {
  ao_keeps : keeps w0 (snd x);
  ao_others : forall r, is_branch r = true -> r <> branch -> local (snd x) r = local w0 r;
  ao_branch : local (snd x) branch = local w0 branch \/
    exists head p version, local (snd x) branch = Some head /\ moves_to w0 (snd x) head p version;
  ao_adoption : forall a, fst x = Ok a ->
    previous a = local w0 branch /\ local (snd x) branch = Some (ad_commit a) /\
    (if adopted a
     then exists p v, publication a = Some p /\ version a = Some v /\ moves_to w0 (snd x) (ad_commit a) p v
     else local w0 branch = Some (ad_commit a));
}.
Lemma adoption_failed w0 w e : reached w0 w -> adoption_outcome w0 (Err e, w).
Proof. intros [Hk Hl]. constructor; cbn [fst snd]; [done|auto|left; by apply Hl|done]. Qed.
Lemma adoption_unchanged w0 w c : reached w0 w -> local w0 branch = Some c -> adoption_outcome w0 (Ok (mkAdoption c (local w0 branch) false None None), w).
Proof.
  intros [Hk Hl] Hc. constructor; cbn [fst snd]; [done|auto|left; by apply Hl|]. intros a [= <-]. cbn. rewrite Hl by done. done.
Qed.
Lemma adoption_bind {A} (q : git A) k w0 w :
  reached w0 w -> quiet q -> (forall a w1, q w = (Ok a, w1) -> reached w0 w1 -> adoption_outcome w0 (k a w1)) -> adoption_outcome w0 (git_bind q k w).
Proof.
  intros Hr Hq Hk. unfold git_bind. destruct (q w) as [[a|e] w1] eqn:E; pose proof (quiet_reached _ _ _ _ Hq E) as Hr1.
  - apply Hk; [done|]. by eapply reached_trans.
  - apply adoption_failed. by eapply reached_trans.
Qed.

(** Recognising the head and moving the branch to it. *)
Lemma adopt_head_outcome w0 w head :
  reached w0 w -> none_or (local w0 branch) (fun c => negb (String.eqb c ZERO_OID)) = true ->
  (forall old, local w0 branch = Some old -> ancestor (commit_of w) old head) ->
  remote_ref (seen_at owned w0 remote) (remote_url remote) branch = Some head ->
  adoption_outcome w0
    ((x <-git recognize json_text recorded_from_slice scope_from_value version_from_slice owned scope l head;;
      _ <-git advance owned head (local w0 branch);;
      git_ret (mkAdoption head (local w0 branch) true (Some (fst x)) (Some (snd x)))) w).
Proof.
  intros R Hz Hold Hseen. unfold git_bind at 1. destruct (recognize _ _ _ _ _ _ _ _ w) as [[x|e] w1] eqn:E1;
    pose proof (quiet_reached _ _ _ _ (quiet_recognize _ _ _ _) E1) as R1.
  2: { apply adoption_failed. by eapply reached_trans. }
  destruct x as [p v]. apply recognize_ok in E1 as [Hf Hp].
  assert (R2 : reached w0 w1) by by eapply reached_trans. destruct R2 as [Hk Hl].
  unfold git_bind. destruct (advance owned head (local w0 branch) w1) as [x w2] eqn:E2. apply advance_cases in E2 as (Hk2 & Ho2 & Hb2); [|done].
  assert (Hm : moves_to w0 w2 head p v).
  { split; [|split; [done|split]]; [|by eapply first_parent_keeps|by eapply is_publication_keeps].
    intros old Ho. eapply ancestor_keeps; [exact Hk2|]. eapply ancestor_keeps; [apply R1|]. by apply Hold. }
  assert (Hothers : forall r, is_branch r = true -> r <> branch -> local w2 r = local w0 r) by (intros r Hr Hne; rewrite Ho2 by done; by apply Hl).
  change (o_reference owned) with branch in Hb2.
  destruct x as [[]|e]; cbn [git_ret].
  - destruct Hb2 as [[Hb2 _]|[? _]]; [|done]. constructor; cbn [fst snd git_ret]; [by eapply keeps_trans|done|right; by exists head, p, v|].
    intros a [= <-]. cbn [previous ad_commit adopted publication version]. split; [done|]. split; [done|]. by exists p, v.
  - constructor; cbn [fst snd]; [by eapply keeps_trans|done| |done]. destruct Hb2 as [[Hb2 _]|[_ Hb2]]; [right; by exists head, p, v|left].
    by rewrite Hb2, Hl.
Qed.

Lemma adopt_owned_outcome w0 :
  (forall below, local w0 (branch ++ "/" ++ below)%string = None) ->
  adoption_outcome w0 (adopt_owned json_text recorded_from_slice scope_from_value version_from_slice owned scope l remote w0).
Proof.
  intros Hbelow. unfold adopt_owned. apply adoption_bind; [apply reached_refl|apply quiet_initialize|]. intros before w1 E1 R1.
  pose proof (fun h w2 => seen_at_ok owned w0 remote _ _ h w2 E1) as Hsee. fold branch in Hsee.
  apply initialize_ok in E1 as [-> Hoid]; [|done|done]. fold branch in Hoid |- *.
  assert (Hz : none_or (local w0 branch) (fun c => negb (String.eqb c ZERO_OID)) = true).
  { destruct (local w0 branch) as [c|]; [|done]. cbn [none_or] in *. by apply andb_true_iff in Hoid as [_ ?]. }
  apply adoption_bind; [done|apply quiet_remote_head|]. intros h w2 E2 R2. apply Hsee in E2.
  apply adoption_bind; [done|apply quiet_lift|]. intros head w3 E3 R3. apply git_lift_ok in E3 as [E3 ->]. destruct h as [h|]; [|done]. injection E3 as ->. cbv beta zeta.
  case_bool_decide as Hsame; [by apply adoption_unchanged|].
  apply adoption_bind; [done|apply quiet_fetch_remote_check|]. intros _ w4 _ R4. destruct (local w0 branch) as [here|] eqn:Ehere.
  - apply adoption_bind; [done|apply quiet_ancestor_b|]. intros behind w5 _ R5. destruct behind.
    { rewrite <- Ehere. by apply adoption_unchanged. }
    apply adoption_bind; [done|apply quiet_ancestor_b|]. intros forward w6 E6 R6. destruct forward; [|by apply adoption_failed].
    rewrite <- Ehere in *. apply adopt_head_outcome; [done|done| |done]. intros old Hold. rewrite Ehere in Hold. injection Hold as <-.
    by eapply ancestor_b_ok.
  - rewrite <- Ehere in *. apply adopt_head_outcome; [done|done| |done]. rewrite Ehere. done.
Qed.
End outcome.

(** C32: Whatever Git command of an adoption fails, is killed or takes effect without an
    answer, every object and every other branch stay, and the local branch is what it
    was or the commit the remote's branch was seen at, which descends from what it was
    and within 64 first parents from a commit whose tree is a publication of this scope
    and layout. *)
Theorem adoption_moves_forward dest scope remote options w r dest' w' :
  (forall below, local w (reference options ++ "/" ++ below)%string = None) ->
  adopt_with_options env url_parse to_file_path io json_text directory recorded_from_slice scope_from_value version_from_slice
    dest scope remote options w = (r, dest', w') ->
  is_ok r = false /\ w' = w \/
  adoption_outcome (mkOwned directory (reference options) default_policy) scope (layout options) remote w (r, w').
Proof.
  intros Hbelow. unfold adopt_with_options. destruct (rbind _ _); [|intros [= <- _ <-]; by left].
  destruct (own io dest scope) as [[[]|e] d]; [|intros [= <- _ <-]; by left].
  pose proof (adopt_owned_outcome (mkOwned directory (reference options) default_policy) scope (layout options) remote
    (starts_with_app "refs/heads/" (branch options)) w Hbelow) as Ho.
  destruct (adopt_owned _ _ _ _ _ _ _ _ _) as [answer w1]. intros [= <- _ <-]. by right.
Qed.
End adoption_facts.
