(* ===== verification/GitExamples.v ===== *)
(** A Git that keeps its objects in a list, and publications and adoptions with it:
    the hypotheses of the Git theorems can hold. *)
From Stdlib Require Import ZArith Lia Ascii String List Bool Sorted.
From stdpp Require Import base list strings decidable gmap.
From S2P Require Import Prelude BTree Errors Regions Versions Http Environment MasterFiles MasterRegistry MasterHistory MasterChain MasterExamples GitReindent GitConfig MasterGit GitPublication GitAdoption.

Local Open Scope Z_scope.
Local Open Scope rust_scope.

(** * Objects *)
Inductive object : Type := OBlob (b : list Z) | OTree (es : list (string * string)) | OCommit (c : GitCommit).
Record repository : Type := mkRepository {
  objects : list object;
  heads : string -> option string;
  remotes : string -> string -> option string;
  check_ref : option string;
}.
(** The identifier of an object is its number. *)
Definition CAPACITY : nat := 48.
Definition digit (n : nat) : string := String (ascii_of_nat (48 + n)) "".
Definition name_of (n : nat) : string := ("00000000000000000000000000000000000000" ++ digit ((n + 1) / 10) ++ digit ((n + 1) mod 10))%string.
Definition index (h : string) : option nat := List.find (fun n => String.eqb (name_of n) h) (seq 0 CAPACITY).
Definition object_of (w : repository) (h : string) : option object := match index h with Some n => nth_error (objects w) n | None => None end.
Definition add (o : object) (w : repository) : option (string * repository) :=
  if (length (objects w) <? CAPACITY)%nat
  then Some (name_of (length (objects w)), mkRepository (objects w ++ [o]) (heads w) (remotes w) (check_ref w))
  else None.
Definition blob_at (w : repository) (h : string) : option (list Z) := match object_of w h with Some (OBlob b) => Some b | _ => None end.
Definition tree_at (w : repository) (h : string) : option (list (string * string)) := match object_of w h with Some (OTree t) => Some t | _ => None end.
Definition commit_at (w : repository) (h : string) : option GitCommit := match object_of w h with Some (OCommit c) => Some c | _ => None end.
Definition update {A} (f : string -> A) (k : string) (a : A) : string -> A := fun k' => if String.eqb k' k then a else f k'.

(** * Commands *)
Definition git_answer : Type := option (list Z) * repository.
Definition named (x : option (string * repository)) (w : repository) : git_answer :=
  match x with Some (h, w) => (Some (bytes_of (oid_line h)), w) | None => (None, w) end.
Fixpoint hash_all (f : string -> option (list Z)) (paths : list string) (w : repository) : option (string * repository) :=
  match paths with
  | [] => Some (""%string, w)
  | p :: paths =>
      match f p with
      | None => None
      | Some b => match add (OBlob b) w with
                  | Some (h, w) => match hash_all f paths w with Some (text, w) => Some ((oid_line h ++ text)%string, w) | None => None end
                  | None => None
                  end
      end
  end.
Fixpoint parse_tree (ls : list string) : option (list (string * string)) :=
  match ls with
  | [] => Some []
  | l :: ls =>
      match strip_prefix l "100644 blob ", parse_tree ls with
      | Some rest, Some es => match split_once 9 rest with Some (h, n) => Some ((n, h) :: es) | None => None end
      | _, _ => None
      end
  end.
Fixpoint ancestors (fuel : nat) (w : repository) (older newer : string) : bool :=
  String.eqb older newer
  || match fuel, commit_at w newer with
     | S fuel, Some c => List.existsb (ancestors fuel w older) (c_parents c)
     | _, _ => false
     end.
Definition printable (s : string) : bool := all_bytes (fun c => in_range 32 126 (byte_of c)) s.
Fixpoint log (fuel : nat) (w : repository) (head : string) : option (list string) :=
  match fuel, commit_at w head with
  | S fuel, Some c =>
      let subject := hd ""%string (c_messages c) in
      if is_oid head && printable subject
      then match match c_parents c with p :: _ => log fuel w p | [] => Some [] end with
           | Some rest => Some ((head ++ String (ascii_of_nat 9) subject)%string :: rest)
           | None => None
           end
      else None
  | O, _ => Some []
  | _, None => None
  end.
Definition plain_entry (e : string * string) : bool := is_oid (snd e) && printable (fst e).

Definition run_example (o args : list string) (f : string -> option (list Z)) (i : list Z) (w : repository) : git_answer :=
  let arg n := nth n args ""%string in
  let cmd c := String.eqb (arg 0%nat) c in
  if cmd "for-each-ref"%string
  then match heads w (arg 2%nat) with
       | Some c => if is_oid c && negb (String.eqb c ZERO_OID) then (Some (bytes_of (oid_line c)), w) else (None, w)
       | None => (Some [], w)
       end
  else if cmd "hash-object"%string
  then match hash_all f (drop 4 args) w with Some (text, w) => (Some (bytes_of text), w) | None => (None, w) end
  else if cmd "mktree"%string
  then match parse_tree (lines (string_of_bytes i)) with Some es => named (add (OTree es) w) w | None => (None, w) end
  else if cmd "rev-parse"%string
  then match strip_suffix (arg 1%nat) "^{tree}" with
       | Some p => match commit_at w p with
                   | Some c => if is_oid (c_tree c) then (Some (bytes_of (oid_line (c_tree c))), w) else (None, w)
                   | None => (None, w)
                   end
       | None => match check_ref w with Some c => (Some (bytes_of (oid_line c)), w) | None => (None, w) end
       end
  else if cmd "commit-tree"%string
  then named (add (OCommit (mkGitCommit (arg 1%nat) (if String.eqb (arg 6%nat) "-p" then [arg 7%nat] else []) [arg 3%nat; arg 5%nat])) w) w
  else if cmd "update-ref"%string
  then let old := if String.eqb (arg 3%nat) ZERO_OID then None else Some (arg 3%nat) in
       if bool_decide (heads w (arg 1%nat) = old)
       then (Some [], mkRepository (objects w) (update (heads w) (arg 1%nat) (Some (arg 2%nat))) (remotes w) (check_ref w))
       else (None, w)
  else if cmd "merge-base"%string
  then if ancestors CAPACITY w (arg 2%nat) (arg 3%nat) then (Some [], w) else (None, w)
  else if cmd "rev-list"%string
  then match log 64 w (arg 4%nat) with Some ls => (Some (bytes_of (text_of (map (fun l => l ++ line_end)%string ls))), w) | None => (None, w) end
  else if cmd "ls-tree"%string
  then match commit_at w (arg 2%nat) with
       | Some c => match tree_at w (c_tree c) with
                   | Some es => if forallb plain_entry es then (Some (concat (map (fun e => bytes_of (entry_text e) ++ [0]) es)), w) else (None, w)
                   | None => (None, w)
                   end
       | None => (None, w)
       end
  else if cmd "cat-file"%string
  then match blob_at w (arg 2%nat) with Some b => (Some b, w) | None => (None, w) end
  else if cmd "ls-remote"%string
  then match remotes w (arg 2%nat) (arg 3%nat) with
       | Some c => if is_oid c && printable (arg 3%nat) then (Some (bytes_of (ref_line (c, arg 3%nat))), w) else (None, w)
       | None => (Some [], w)
       end
  else if cmd "fetch"%string
  then match split_once 58 (arg 4%nat) with
       | Some (r, _) => (Some [], mkRepository (objects w) (heads w) (remotes w) (remotes w (arg 3%nat) (match strip_prefix r "+" with Some r => r | None => r end)))
       | None => (None, w)
       end
  else if cmd "push"%string
  then match split_once 58 (arg 3%nat) with
       | Some (c, r) =>
           if none_or (remotes w (arg 2%nat) r) (fun h => ancestors CAPACITY w h c)
           then (Some [], mkRepository (objects w) (heads w) (update (remotes w) (arg 2%nat) (update (remotes w (arg 2%nat)) r (Some c))) (check_ref w))
           else (None, w)
       | None => (None, w)
       end
  else (Some [], w).
#[export] Instance example_git : Git := {| world := repository; run_git := run_example |}.

(** * The laws *)
Lemma index_name n : (n < CAPACITY)%nat -> index (name_of n) = Some n /\ is_oid (name_of n) = true.
Proof.
  intros Hn. assert (Hall : forallb (fun n => bool_decide (index (name_of n) = Some n) && is_oid (name_of n)) (seq 0 CAPACITY) = true) by (vm_compute; reflexivity).
  rewrite forallb_forall in Hall. specialize (Hall n). rewrite andb_true_iff, bool_decide_eq_true in Hall. apply Hall, in_seq. lia.
Qed.
Lemma add_facts o w h w' :
  add o w = Some (h, w') -> object_of w' h = Some o /\ is_oid h = true /\ objects w' = objects w ++ [o] /\ heads w' = heads w.
Proof.
  unfold add. destruct (Nat.ltb_spec (length (objects w)) CAPACITY); [|done]. intros [= <- <-]. destruct (index_name (length (objects w))) as [Hi Ho]; [done|].
  unfold object_of. rewrite Hi. cbn [objects heads]. split; [|done]. rewrite nth_error_app2 by lia. by rewrite Nat.sub_diag.
Qed.
Lemma object_of_more w w' l h o : objects w' = objects w ++ l -> object_of w h = Some o -> object_of w' h = Some o.
Proof.
  unfold object_of. intros E. destruct (index h) as [n|]; [|done]. intros Hn. rewrite E, nth_error_app1; [done|]. apply nth_error_Some. by rewrite Hn.
Qed.
(** Objects are only added, and only [update-ref] moves a branch. *)
Definition grown (w w' : repository) : Prop := exists l, objects w' = objects w ++ l.
Lemma grown_refl w : grown w w.
Proof. exists []. by rewrite app_nil_r. Qed.
Lemma grown_add o w h w' : add o w = Some (h, w') -> grown w w'.
Proof. intros E. apply add_facts in E as (_ & _ & E & _). by eexists. Qed.
Lemma hash_all_facts f paths w text w' :
  hash_all f paths w = Some (text, w') ->
  grown w w' /\ heads w' = heads w /\
  exists hs, text = text_of (map oid_line hs) /\ Forall2 (fun p h => is_oid h = true /\ exists b, f p = Some b /\ blob_at w' h = Some b) paths hs.
Proof.
  revert w text. induction paths as [|p paths IH]; intros w text; cbn [hash_all].
  { intros [= <- <-]. split; [apply grown_refl|]. split; [done|]. exists []. done. }
  destruct (f p) as [b|] eqn:Ef; [|done]. destruct (add (OBlob b) w) as [[h w1]|] eqn:Ea; [|done].
  destruct (hash_all f paths w1) as [[rest w2]|] eqn:Eh; [|done]. intros [= <- <-]. apply IH in Eh as ((l2 & G2) & H2 & hs & -> & Hall).
  apply add_facts in Ea as (Ho & Hoid & G1 & H1). split; [exists ([OBlob b] ++ l2); by rewrite G2, G1, app_assoc|]. split; [congruence|].
  exists (h :: hs). split; [done|]. constructor; [|done]. split; [done|]. exists b. split; [done|].
  unfold blob_at. by rewrite (object_of_more _ _ _ _ _ G2 Ho).
Qed.
Lemma named_facts o w out w' : named (add o w) w = (out, w') -> grown w w' /\ heads w' = heads w /\
  (out = None \/ exists h, out = Some (bytes_of (oid_line h)) /\ is_oid h = true /\ object_of w' h = Some o).
Proof.
  unfold named. destruct (add o w) as [[h w1]|] eqn:Ea; intros [= <- <-].
  - pose proof (grown_add _ _ _ _ Ea). apply add_facts in Ea as (H1 & H2 & _ & H4). split; [done|]. split; [done|]. right. by exists h.
  - split; [apply grown_refl|]. split; [done|by left].
Qed.
Lemma run_grown o a f i w : grown w (snd (run_example o a f i w)) /\ (writes_branches a = false -> heads (snd (run_example o a f i w)) = heads w).
Proof.
  unfold run_example. cbv zeta beta.
  assert (Hup : String.eqb (nth 0 a "") "update-ref" = true -> writes_branches a = false -> False).
  { destruct a as [|c a]; [done|]. cbn [nth]. intros ->%String.eqb_eq. done. }
  repeat match goal with |- context [if String.eqb ?x ?y then _ else _] => destruct (String.eqb x y) eqn:? end;
  repeat match goal with |- context [match ?x with _ => _ end] => lazymatch x with named _ _ => fail | _ => destruct x eqn:? end end.
  all: try (split; [apply grown_refl|done]). all: try (split; [by exists []; rewrite app_nil_r|done]).
  all: try (match goal with E : hash_all _ _ _ = _ |- _ => apply hash_all_facts in E as (E1 & E2 & _); by split end).
  all: try (match goal with |- context [named (add ?o ?v) ?v] => destruct (named (add o v) v) as [out w'] eqn:E; apply named_facts in E as (E1 & E2 & _); by split end).
  all: split; [by exists []; rewrite app_nil_r|intros Hw; exfalso; eauto].
Qed.
Lemma run_object o a f i w h x : object_of w h = Some x -> object_of (snd (run_example o a f i w)) h = Some x.
Proof. destruct (run_grown o a f i w) as [[l E] _]. by apply (object_of_more _ _ l). Qed.

Lemma printable_facts s : printable s = true ->
  plain_line s = true /\ all_bytes (fun c => byte_of c <? 128) s = true /\ all_bytes (fun c => 32 <=? byte_of c) s = true /\ all_bytes (fun c => negb (char_is 9 c)) s = true.
Proof.
  unfold printable. intros Hs. repeat split; revert Hs; apply all_bytes_impl; intros c; unfold in_range, char_is; lia.
Qed.
Lemma oid_printable h : is_oid h = true -> printable h = true.
Proof.
  intros Ho. apply is_oid_facts in Ho as (Hh & _ & _). revert Hh. apply all_bytes_impl. intros c Hc.
  revert Hc. unfold oid_char, is_ascii_hexdigit, is_ascii_digit, is_ascii_upper, in_range. lia.
Qed.
Lemma oid_tab h s : is_oid h = true -> split_once 9 (h ++ String (ascii_of_nat 9) s) = Some (h, s).
Proof. intros Ho. apply split_tab. by apply printable_facts, oid_printable. Qed.
Lemma parse_tree_entries es : Forall (fun e => is_oid (snd e) = true) es -> parse_tree (map entry_text es) = Some es.
Proof.
  induction 1 as [|[n h] es Ho _ IH]; [done|]. cbn [map parse_tree]. rewrite IH. unfold entry_text at 1. cbn [fst snd] in *.
  rewrite (proj2 (strip_prefix_spec _ "100644 blob " _) eq_refl). by rewrite oid_tab.
Qed.
Lemma published_printable n : published_name n = true -> printable n = true.
Proof.
  unfold published_name, some_and. destruct (strip_suffix n ".json") as [stem|] eqn:Es; [|done]. apply strip_suffix_spec in Es as ->.
  intros Hs. unfold printable. rewrite all_bytes_app. apply andb_true_iff. split; [|done]. unfold safe_component in Hs.
  apply andb_true_iff in Hs as [_ Hs]. revert Hs. apply all_bytes_impl. intros c.
  unfold is_ascii_alphanumeric, is_ascii_digit, is_ascii_upper, is_ascii_lower, char_is, in_range. lia.
Qed.
Lemma entry_plain e : plain_entry e = true -> plain_line (entry_text e) = true.
Proof.
  unfold plain_entry. intros [Ho Hn]%andb_true_iff. unfold plain_line, entry_text. rewrite !all_bytes_app.
  destruct (printable_facts _ (oid_printable _ Ho)) as (H1 & _). destruct (printable_facts _ Hn) as (H2 & _). unfold plain_line in *.
  rewrite H1. cbn [all_bytes]. rewrite H2. done.
Qed.
Lemma entry_text_inj es es' :
  Forall (fun e => is_oid (snd e) = true) es -> Forall (fun e => is_oid (snd e) = true) es' -> map entry_text es = map entry_text es' -> es = es'.
Proof. intros H1 H2 E. apply parse_tree_entries in H1, H2. rewrite E, H2 in H1. by injection H1. Qed.

Lemma ancestors_ok fuel w a b : ancestors fuel w a b = true -> ancestor (commit_at w) a b.
Proof.
  revert b. induction fuel as [|fuel IH]; intros b; cbn [ancestors]; destruct (String.eqb_spec a b) as [->|]; try (by constructor); [done|].
  cbn [orb]. destruct (commit_at w b) as [c|] eqn:Ec; [|done]. intros Hp. apply existsb_exists in Hp as (p & Hin & Hp).
  econstructor; [done|done|by apply IH].
Qed.
Lemma log_ok fuel w head ls : log fuel w head = Some ls ->
  Forall (fun l => exists c s, l = (c ++ String (ascii_of_nat 9) s)%string /\ is_oid c = true /\ printable s = true /\
    first_parent (commit_at w) fuel head c /\ is_some (commit_at w c) = true) ls.
Proof.
  revert head ls. induction fuel as [|fuel IH]; intros head ls; cbn [log]; [intros [= <-]; constructor|].
  destruct (commit_at w head) as [k|] eqn:Ek; [|done]. destruct (is_oid head) eqn:Eo; [|done]. destruct (printable (hd ""%string (c_messages k))) eqn:Ep; [|done]. cbn [andb].
  assert (Hhead : exists c s, (head ++ String (ascii_of_nat 9) (hd "" (c_messages k)))%string = (c ++ String (ascii_of_nat 9) s)%string /\
    is_oid c = true /\ printable s = true /\ first_parent (commit_at w) (S fuel) head c /\ is_some (commit_at w c) = true).
  { exists head, (hd ""%string (c_messages k)). rewrite Ek. split; [done|]. split; [done|]. split; [done|]. split; [constructor|done]. }
  destruct (c_parents k) as [|p ps] eqn:Eps; [intros [= <-]; by repeat constructor|].
  destruct (log fuel w p) as [rest|] eqn:El; [|done]. intros [= <-]. constructor; [done|]. apply IH in El.
  eapply List.Forall_impl; [|exact El]. intros l (c & s & -> & H1 & H2 & H3 & H4). exists c, s. split; [done|]. split; [done|]. split; [done|].
  split; [|done]. by eapply first_parent_next.
Qed.
Lemma lossy_ascii s : all_bytes (fun c => byte_of c <? 128) s = true -> from_utf8_lossy (bytes_of s) = s.
Proof.
  induction s as [|c s IH]; [done|]. cbn [all_bytes bytes_of from_utf8_lossy]. intros [Hc Hs]%andb_true_iff. rewrite Hc, (IH Hs).
  unfold put, byte_of. by rewrite Nat2Z.id, ascii_nat_embedding.
Qed.

(** Each command, by its arguments. *)
Definition refs_of (c : option string) (r : string) : list (string * string) := match c with Some c => [(c, r)] | None => [] end.
Lemma kind_keeps {A} (get : object -> option A) o a f i w h x :
  match object_of w h with Some o => get o | None => None end = Some x ->
  match object_of (snd (run_example o a f i w)) h with Some o => get o | None => None end = Some x.
Proof. destruct (object_of w h) as [y|] eqn:E; [|done]. by rewrite (run_object o a f i w h y E). Qed.
Lemma run_for_each_ref o r f i w out w' : run_example o ["for-each-ref"; "--format=%(objectname)"; r]%string f i w = (Some out, w') ->
  match heads w' r with
  | Some c => is_oid c = true /\ c <> ZERO_OID /\ out = bytes_of (oid_line c)
  | None => (forall below, heads w' (r ++ "/" ++ below)%string = None) -> out = []
  end.
Proof.
  change (run_example _ _ _ _ _) with (match heads w r with
    | Some c => if is_oid c && negb (String.eqb c ZERO_OID) then (Some (bytes_of (oid_line c)), w) else (None, w)
    | None => (Some [], w) end : git_answer).
  destruct (heads w r) as [c|] eqn:Eh.
  - destruct (is_oid c) eqn:Ho; [|done]. cbn [andb]. destruct (String.eqb_spec c ZERO_OID); [done|]. intros [= <- <-]. rewrite Eh. done.
  - intros [= <- <-]. by rewrite Eh.
Qed.
Lemma run_hash_object o paths f i w out w' : run_example o (["hash-object"; "-w"; "--no-filters"; "--"]%string ++ paths) f i w = (Some out, w') ->
  exists hs, out = bytes_of (text_of (map oid_line hs)) /\ Forall2 (fun p h => is_oid h = true /\ exists b, f p = Some b /\ blob_at w' h = Some b) paths hs.
Proof.
  change (run_example _ _ _ _ _) with (match hash_all f paths w with Some (text, w) => (Some (bytes_of text), w) | None => (None, w) end).
  destruct (hash_all f paths w) as [[text w1]|] eqn:E; [|done]. intros [= <- <-]. apply hash_all_facts in E as (_ & _ & hs & -> & Hall). by exists hs.
Qed.
Lemma run_mktree o f w es out w' :
  Forall (fun e => published_name (fst e) = true /\ is_oid (snd e) = true) es ->
  run_example o ["mktree"%string] f (bytes_of (text_of (map (fun e => tree_line (snd e) (fst e)) es))) w = (Some out, w') ->
  exists t, out = bytes_of (oid_line t) /\ is_oid t = true /\ tree_at w' t = Some es.
Proof.
  intros Hes. change (run_example _ _ _ _ _) with (match parse_tree (lines (string_of_bytes (bytes_of (text_of (map (fun e => tree_line (snd e) (fst e)) es))))) with
    | Some es => named (add (OTree es) w) w | None => (None, w) end).
  rewrite string_of_bytes_of.
  replace (map (fun e => tree_line (snd e) (fst e)) es) with (map (fun l => l ++ line_end)%string (map entry_text es)).
  2: { rewrite map_map. apply map_ext. intros e. unfold entry_text, tree_line. by rewrite !append_assoc. }
  rewrite lines_plain.
  2: { apply Forall_map. eapply List.Forall_impl; [|exact Hes]. intros e [H1 H2]. apply entry_plain. unfold plain_entry. by rewrite H2, published_printable. }
  rewrite parse_tree_entries by (eapply List.Forall_impl; [|exact Hes]; by intros ? [_ ?]).
  destruct (named _ w) as [x w1] eqn:E. apply named_facts in E as (_ & _ & [->|(h & -> & Ho & Hobj)]); [done|]. intros [= <- <-]. exists h.
  unfold tree_at. by rewrite Hobj.
Qed.
Lemma run_rev_parse o p f i w out w' : run_example o ["rev-parse"; p ++ "^{tree}"]%string f i w = (Some out, w') ->
  exists c, commit_at w' p = Some c /\ is_oid (c_tree c) = true /\ out = bytes_of (oid_line (c_tree c)).
Proof.
  change (run_example _ _ _ _ _) with (match strip_suffix (p ++ "^{tree}") "^{tree}" with
    | Some p => match commit_at w p with
                | Some c => if is_oid (c_tree c) then (Some (bytes_of (oid_line (c_tree c))), w) else (None, w)
                | None => (None, w) end
    | None => match check_ref w with Some c => (Some (bytes_of (oid_line c)), w) | None => (None, w) end end).
  rewrite (proj2 (strip_suffix_spec _ "^{tree}" p) eq_refl). destruct (commit_at w p) as [c|] eqn:Ec; [|done]. destruct (is_oid (c_tree c)) eqn:Eo; [|done].
  intros [= <- <-]. by exists c.
Qed.
Lemma run_commit_tree o t m1 m2 parent (signed : bool) f i w out w' :
  run_example o (["commit-tree"; t; "-m"; m1; "-m"; m2]%string ++ match parent with Some p => ["-p"%string; p] | None => [] end
                 ++ (if signed then ["-S"%string] else [])) f i w = (Some out, w') ->
  exists c, out = bytes_of (oid_line c) /\ is_oid c = true /\
    commit_at w' c = Some (mkGitCommit t (match parent with Some p => [p] | None => [] end) [m1; m2]).
Proof.
  replace (run_example _ _ _ _ _) with (named (add (OCommit (mkGitCommit t (match parent with Some p => [p] | None => [] end) [m1; m2])) w) w).
  2: by destruct parent, signed.
  destruct (named _ w) as [x w1] eqn:E. apply named_facts in E as (_ & _ & [->|(h & -> & Ho & Hobj)]); [done|]. intros [= <- <-]. exists h.
  unfold commit_at. by rewrite Hobj.
Qed.
Lemma run_update_ref o r new old f i w :
  let old_value := if String.eqb old ZERO_OID then None else Some old in
  let x := run_example o ["update-ref"; r; new; old]%string f i w in
  (heads (snd x) r = Some new /\ heads w r = old_value \/ fst x = None /\ heads (snd x) r = heads w r) /\
  (forall r', r' <> r -> heads (snd x) r' = heads w r').
Proof.
  cbv zeta. change (run_example _ _ _ _ _) with (if bool_decide (heads w r = if String.eqb old ZERO_OID then None else Some old)
    then (Some [], mkRepository (objects w) (update (heads w) r (Some new)) (remotes w) (check_ref w)) else (None, w) : git_answer).
  case_bool_decide as Hold; cbn [fst snd heads]; [|by split; [right|]]. split.
  - left. unfold update. by rewrite String.eqb_refl.
  - intros r' Hr. unfold update. by destruct (String.eqb_spec r' r).
Qed.
Lemma run_rev_list o head f i w out w' :
  run_example o ["rev-list"; "--first-parent"; "--max-count=64"; "--format=%H%x09%s"; head]%string f i w = (Some out, w') ->
  forall line c s, In line (lines (from_utf8_lossy out)) -> split_once 9 line = Some (c, s) -> is_oid c = true ->
    first_parent (commit_at w') 64 head c /\ is_some (commit_at w' c) = true.
Proof.
  change (run_example _ _ _ _ _) with (match log 64 w head with
    | Some ls => (Some (bytes_of (text_of (map (fun l => l ++ line_end)%string ls))), w) | None => (None, w) end).
  destruct (log 64 w head) as [ls|] eqn:El; [|done]. intros [= <- <-] line c s Hin Hs _. apply log_ok in El.
  rewrite lossy_ascii, lines_plain in Hin.
  - rewrite List.Forall_forall in El. destruct (El line Hin) as (c' & s' & -> & Ho & _ & Hf). rewrite oid_tab in Hs by done. by injection Hs as -> ->.
  - eapply List.Forall_impl; [|exact El]. intros l (c' & s' & -> & Ho & Hp & _). unfold plain_line. rewrite all_bytes_app.
    destruct (printable_facts _ (oid_printable _ Ho)) as (H1 & _), (printable_facts _ Hp) as (H2 & _). unfold plain_line in *. rewrite H1. cbn [all_bytes]. by rewrite H2.
  - clear Hin Hs. induction El as [|l ls (c' & s' & -> & Ho & Hp & _) _ IH]; [done|]. cbn [map].
    change (text_of (?x :: ?xs)) with (x ++ text_of xs)%string. rewrite !all_bytes_app, IH.
    destruct (printable_facts _ (oid_printable _ Ho)) as (_ & H1 & _), (printable_facts _ Hp) as (_ & H2 & _). rewrite H1. cbn [all_bytes]. by rewrite H2.
Qed.
Lemma run_ls_tree o c k f i w out w' : run_example o ["ls-tree"; "-z"; c]%string f i w = (Some out, w') -> commit_at w' c = Some k ->
  exists entries, out = concat (map (fun e => bytes_of e ++ [0]) entries) /\
    Forall (fun e => e <> ""%string /\ all_bytes (fun c => negb (char_is 0 c)) e = true) entries /\
    forall es, Forall (fun e => is_oid (snd e) = true) es -> entries = map entry_text es -> tree_at w' (c_tree k) = Some es.
Proof.
  change (run_example _ _ _ _ _) with (match commit_at w c with
    | Some c => match tree_at w (c_tree c) with
                | Some es => if forallb plain_entry es then (Some (concat (map (fun e => bytes_of (entry_text e) ++ [0]) es)), w) else (None, w)
                | None => (None, w) end
    | None => (None, w) end).
  destruct (commit_at w c) as [c'|] eqn:Ec; [|done]. destruct (tree_at w (c_tree c')) as [es|] eqn:Et; [|done].
  destruct (forallb plain_entry es) eqn:Ep; [|done]. intros [= <- <-]. rewrite Ec. intros [= <-]. rewrite forallb_forall in Ep.
  exists (map entry_text es). split; [by rewrite map_map|]. split.
  - apply Forall_map, List.Forall_forall. intros e He. apply Ep, entry_plain in He. split; [done|]. revert He. apply all_bytes_impl. intros b. unfold char_is. lia.
  - intros es' Ho E. rewrite Et. f_equal. apply entry_text_inj; [|done|done]. apply List.Forall_forall. intros e He. apply Ep in He.
    unfold plain_entry in He. by apply andb_true_iff in He as [? _].
Qed.
Lemma run_ls_remote o url r f i w out w' : run_example o ["ls-remote"; "--refs"; url; r]%string f i w = (Some out, w') ->
  exists refs, out = bytes_of (text_of (map ref_line refs)) /\
    Forall (fun x => is_oid (fst x) = true /\ all_bytes (fun c => 32 <=? byte_of c) (snd x) = true) refs /\
    (forall c, In (c, r) refs <-> remotes w' url r = Some c).
Proof.
  change (run_example _ _ _ _ _) with (match remotes w url r with
    | Some c => if is_oid c && printable r then (Some (bytes_of (ref_line (c, r))), w) else (None, w)
    | None => (Some [], w) end : git_answer).
  destruct (remotes w url r) as [c|] eqn:Er.
  - destruct (is_oid c) eqn:Ho; [|done]. destruct (printable r) eqn:Hp; [|done]. intros [= <- <-]. exists [(c, r)]. rewrite Er. split; [|split].
    + change (text_of (map ref_line [(c, r)])) with (ref_line (c, r) ++ "")%string. by rewrite append_empty.
    + constructor; [|constructor]. split; [done|]. by apply printable_facts.
    + intros c'. split; [intros [[= ->]|[]]; done|intros [= ->]; by left].
  - intros [= <- <-]. exists []. split; [done|]. split; [constructor|]. rewrite Er. done.
Qed.
#[export] Instance example_git_ok : GitOk.
Proof.
  refine (Build_GitOk _ heads remotes blob_at tree_at commit_at _ _ _ _ _ _ _ _ _ _ _ _ _ _ _).
  all: cbn [world run_git example_git].
  - intros. by apply (kind_keeps (fun o => match o with OBlob b => Some b | _ => None end)).
  - intros. by apply (kind_keeps (fun o => match o with OTree b => Some b | _ => None end)).
  - intros. by apply (kind_keeps (fun o => match o with OCommit b => Some b | _ => None end)).
  - intros o a f i w r _ Hw. by rewrite (proj2 (run_grown o a f i w) Hw).
  - apply run_for_each_ref.
  - apply run_hash_object.
  - intros. by eapply run_mktree.
  - intros. by eapply run_rev_parse.
  - intros. by eapply run_commit_tree.
  - apply run_update_ref.
  - intros o older newer f i w out w'. change (run_example _ _ _ _ _) with (if ancestors CAPACITY w older newer then (Some ([] : list Z), w) else (None, w)).
    destruct (ancestors CAPACITY w older newer) eqn:Ea; [|done]. intros [= _ <-]. by eapply ancestors_ok.
  - intros. by eapply run_rev_list.
  - intros. by eapply run_ls_tree.
  - intros o h f i w out w'. change (run_example _ _ _ _ _) with (match blob_at w h with Some b => (Some b, w) | None => (None, w) end).
    destruct (blob_at w h) eqn:E; [|done]. by intros [= <- <-].
  - apply run_ls_remote.
Defined.

(** * Publications *)
Definition url : string := "https://git.example/master.git".
Definition origin : Remote := mkRemote url None None false false.
Definition no_repository : @world example_git := mkRepository [] (fun _ => None) (fun _ _ => None) None.
Notation publish_example store dest w :=
  (@commit_internal example_codecs example_git (fun _ => true) value_to_vec id "/srv/git" "/tmp/staging" (fun _ => store) dest jp (Some origin)
     default_policy default_options w).
Definition branch_name : string := "refs/heads/master-data".
(** The state directory of a scope, as an earlier attempt left it. *)
Definition state : state_files :=
  Eval vm_compute in {[ MARKER := KFile (match value_to_vec (marker_value jp) with Some b => b | None => [] end) ]}.

Definition changed_ok (r : result GitError GitReceipt) : bool := match r with Ok receipt => gr_changed receipt | Err _ => false end.
Lemma first_publication_changed : changed_ok (fst (fst (publish_example published_a (Present state) no_repository))) = true.
Proof. vm_compute. reflexivity. Qed.
Lemma no_branches below : local no_repository (reference default_options ++ "/" ++ below)%string = None.
Proof. reflexivity. Qed.
Lemma publication_appends_witness :
  exists receipt dest (w : @world example_git) m files,
    publish_example published_a (Present state) no_repository = (Ok receipt, dest, w) /\ gr_changed receipt = true /\
    outcome (mkOwned "/srv/git" (reference default_options) default_policy) (Some origin) m files no_repository (Ok receipt, w).
Proof.
  pose proof first_publication_changed as Hr. destruct (publish_example published_a (Present state) no_repository) as [[r dest] w] eqn:E.
  cbn [fst] in Hr. destruct r as [receipt|]; [|discriminate Hr]. cbn [changed_ok] in Hr. pose proof E as E'.
  apply (@publication_appends example_codecs example_codecs_ok example_git example_git_ok) in E' as [[Hf _]|(m & files & _ & _ & Ho)]; [discriminate Hf| |exact no_branches].
  exists receipt, dest, w, m, files. split; [reflexivity|]. split; [exact Hr|exact Ho].
Defined.

(** * Adoptions *)
Definition recorded_example (b : list Z) : option (json * string * list string) :=
  match value_from_slice b with
  | Some v =>
      match json_field "scope" v, json_field "version" v, json_field "files" v with
      | Some s, Some (JStr v), Some (JArr fs) => Some (s, v, flat_map (fun f => match json_field "name" f with Some (JStr n) => [n] | _ => [] end) fs)
      | _, _, _ => None
      end
  | None => None
  end.
Definition scope_example (v : json) : option Scope :=
  match json_field "region" v, json_field "environment" v, json_field "platform" v with
  | Some (JStr r), Some (JStr e), Some (JStr p) =>
      option_map (fun r => mkScope r e (if String.eqb p "iOS" then Ios else Android)) (from_name r)
  | _, _, _ => None
  end.
Definition first_objects : list object :=
  Eval vm_compute in objects (snd (publish_example published_a (Present state) no_repository)).
(** A repository that lost its branch; the remote has it. *)
Definition lost_repository : @world example_git :=
  mkRepository first_objects (fun _ => None) (update (fun _ _ => None) url (update (fun _ => None) branch_name (Some (name_of 3)))) None.
Definition parse_example (s : string) : option Url :=
  Some {| scheme := "https"; host_str := Some "git.example"%string; username := ""; password := None; path := "/master.git"; query := None; fragment := None |}.
Notation adopt_example w :=
  (@adopt_with_options example_codecs example_git (fun _ => None) parse_example (fun _ => true) (fun _ => true) id "/srv/git" recorded_example scope_example
    (fun _ => None) (Present state) jp origin default_options w).

Definition adopted_ok (r : result GitError Adoption) : bool := match r with Ok a => adopted a | Err _ => false end.
Lemma lost_repository_adopted : adopted_ok (fst (fst (adopt_example lost_repository))) = true.
Proof. vm_compute. reflexivity. Qed.
Lemma nothing_below below : local lost_repository (reference default_options ++ "/" ++ below)%string = None.
Proof. reflexivity. Qed.
Lemma adoption_moves_forward_witness :
  exists a dest (w : @world example_git),
    adopt_example lost_repository = (Ok a, dest, w) /\ adopted a = true /\
    adoption_outcome id recorded_example scope_example (mkOwned "/srv/git" (reference default_options) default_policy) jp Native origin
      lost_repository (Ok a, w).
Proof.
  pose proof lost_repository_adopted as Hr. destruct (adopt_example lost_repository) as [[r dest] w] eqn:E.
  cbn [fst] in Hr. destruct r as [a|]; [|discriminate Hr]. cbn [adopted_ok] in Hr. pose proof E as E'.
  apply (@adoption_moves_forward example_codecs example_git example_git_ok) in E' as [[Hf _]|Ho]; [discriminate Hf| |exact nothing_below].
  exists a, dest, w. split; [reflexivity|]. split; [exact Hr|exact Ho].
Defined.
