(* ===== verification/ApplicationLog.v ===== *)
(** The application log ([application_log.rs]): levels, the fields it records and the
    line of an event.

    The texts of JSON are parameters, as is the clock; the queue of lines and its writer
    are a library's, the number of lines the queue dropped is an argument. *)
From Stdlib Require Import ZArith Lia Ascii String List Bool.
From stdpp Require Import base list strings decidable.
From S2P Require Import Prelude BTree Regions MasterFiles AccessLog.

Local Open Scope Z_scope.
Local Open Scope rust_scope.

(** * Levels and configuration *)
Inductive Level : Type := LOff | LError | LWarn | LInfo | LDebug | LTrace.
(** [tracing::Level]; a more verbose one is greater. *)
Inductive TracingLevel : Type := ERROR | WARN | INFO | DEBUG | TRACE.
Definition verbosity (l : TracingLevel) : Z :=
  match l with ERROR => 0 | WARN => 1 | INFO => 2 | DEBUG => 3 | TRACE => 4 end.
Definition level_name (l : TracingLevel) : string :=
  match l with ERROR => "ERROR" | WARN => "WARN" | INFO => "INFO" | DEBUG => "DEBUG" | TRACE => "TRACE" end.
Definition accepts (self : Level) (level : TracingLevel) : bool :=
  match self with
  | LOff => false
  | LError => verbosity level =? verbosity ERROR
  | LWarn => verbosity level <=? verbosity WARN
  | LInfo => verbosity level <=? verbosity INFO
  | LDebug => verbosity level <=? verbosity DEBUG
  | LTrace => true
  end.

Record LogConfig : Type := mkLogConfig { lg_level : Level; lg_format : Format; lg_output : Output; lg_queue_capacity : Z }.
Definition log_default : LogConfig := mkLogConfig LInfo FormatText Stderr 4096.
Definition log_validate {IpNet : Type} (net_parse : string -> option IpNet) (header_name : string -> option string) (l : LogConfig) : result AccessLog.Invalid unit :=
  AccessLog.validate net_parse header_name
    (AccessLog.mkConfig (lg_format l) (lg_output l) (lg_queue_capacity l) (trusted_proxies default_config) (proxy_header default_config)).

(** * Fields *)
Inductive Value : Type := Text (s : string) | Signed (n : Z) | Unsigned (n : Z) | Boolean (b : bool).
Definition PERMITTED : list string :=
  ["message"; "event"; "stage"; "region"; "job_id"; "status"; "error_code"; "completed"; "failed"; "total"; "bytes"; "cache_hits"; "listen";
   "operation"; "attempt"; "profile"; "target"; "node"; "sdk_code"; "cooldown_ms"; "failover"]%string.
Definition permitted (name : string) : bool := mem name PERMITTED.

Definition LIMIT : nat := 1024.
(** [str::is_char_boundary]. *)
Definition is_char_boundary (b : list Z) (i : nat) : bool :=
  (i =? 0)%nat || (i =? length b)%nat || match b !! i with Some x => negb (continuation x) | None => false end.
Fixpoint boundary_below (b : list Z) (i : nat) : nat :=
  if is_char_boundary b i then i else match i with O => O | S j => boundary_below b j end.
Definition bounded (s : string) : string := String.substring 0 (boundary_below (bytes_of s) (Nat.min (String.length s) LIMIT)) s.

(** What an event hands to the visitor: numbers, booleans, strings, and what has only
    its debug text. *)
Inductive Recorded : Type := RDebug (text : string) | RStr (s : string) | RU64 (n : Z) | RI64 (n : Z) | RBool (b : bool).
Definition value_of (r : Recorded) : Value :=
  match r with
  | RDebug text => Text (bounded text)
  | RStr s => Text (bounded s)
  | RU64 n => Unsigned n
  | RI64 n => Signed n
  | RBool b => Boolean b
  end.
Definition visit (fields : bmap Value) (f : string * Recorded) : bmap Value :=
  if permitted (fst f) then insert (fst f) (value_of (snd f)) fields else fields.

(** * Events *)
Record LogEvent : Type := mkEvent { ev_level : TracingLevel; ev_target : string; ev_fields : list (string * Recorded) }.
Record LogRecord : Type := mkRecord { timestamp : string; lr_level : string; lr_target : string; queue_dropped_records : Z; fields : bmap Value }.
Definition APP_TARGET : string := "sirius_api_proxy".
Definition APP_PREFIX : string := "sirius_api_proxy::".

Section layer.
Context (fields_to_string : bmap Value -> option string) (record_to_string : LogRecord -> option string).

Definition enabled (c : LogConfig) (e : LogEvent) : bool :=
  (String.eqb (ev_target e) APP_TARGET || starts_with (ev_target e) APP_PREFIX) && accepts (lg_level c) (ev_level e).
Definition record_of (now : string) (dropped : Z) (e : LogEvent) : LogRecord :=
  mkRecord now (level_name (ev_level e)) (ev_target e) dropped (fold_left visit (ev_fields e) []).
Definition on_event (c : LogConfig) (now : string) (dropped : Z) (e : LogEvent) : option string :=
  let record := record_of now dropped e in
  match fields_to_string (fields record) with
  | None => None
  | Some text =>
      match lg_format c with
      | FormatJson => record_to_string record
      | FormatText => Some (timestamp record ++ " " ++ lr_level record ++ " " ++ lr_target record
                            ++ " dropped=" ++ u64_to_string (queue_dropped_records record) ++ " " ++ text)%string
      end
  end.
(** The subscriber asks the layer before it hands an event on. *)
Definition logged (c : LogConfig) (now : string) (dropped : Z) (e : LogEvent) : option string :=
  if enabled c e then on_event c now dropped e else None.
End layer.

(** * Cutting texts *)
Lemma bytes_of_substring n s : bytes_of (String.substring 0 n s) = take n (bytes_of s).
Proof. revert s. induction n as [|n IH]; intros [|c s]; [done..|]. cbn [String.substring bytes_of take]. by rewrite IH. Qed.
Lemma bytes_length s : length (bytes_of s) = String.length s.
Proof. induction s as [|c s IH]; [done|]. cbn. by rewrite IH. Qed.

(** A valid text starts with one character: a byte that continues none, then at most
    three that continue it. *)
Lemma not_continuation x : in_range 0 127 x = true \/ in_range 194 244 x = true -> continuation x = false.
Proof. unfold continuation. intros H. apply Bool.not_true_iff_false. rewrite !in_range_spec in *. lia. Qed.
Lemma utf8_char x b : 0 <= x -> utf8_valid (x :: b) = true -> exists c rest, b = c ++ rest /\ utf8_valid rest = true /\ (length c <= 3)%nat /\
  continuation x = false /\ forallb continuation c = true /\ forall r, utf8_valid r = true -> utf8_valid (x :: c ++ r) = true.
Proof.
  intros Hx0. cbn [utf8_valid]. destruct (x <? 128) eqn:Ex.
  { intros Hv. exists [], b. split; [done|]. split; [exact Hv|]. split; [cbn; lia|]. split; [|split; [done|]].
    - apply not_continuation. left. apply in_range_spec. lia.
    - intros r Hr. cbn [utf8_valid app]. done. }
  destruct b as [|y b]; [done|]. destruct (in_range 194 223 x && continuation y) eqn:E2.
  { intros Hv. exists [y], b. pose proof E2 as [Hx Hy]%andb_prop. split; [done|]. split; [exact Hv|]. split; [cbn; lia|]. split; [|split].
    - apply not_continuation. right. rewrite !in_range_spec in *. lia.
    - cbn. by rewrite Hy.
    - intros r Hr. cbn [utf8_valid app]. by rewrite E2. }
  destruct b as [|z b]; [done|].
  match goal with |- (if ?g then _ else _) = true -> _ => destruct g eqn:E3 end.
  { intros Hv. exists [y; z], b. pose proof E3 as [Hy Hz]%andb_prop. rewrite !orb_true_iff, !andb_true_iff, !orb_true_iff, !Z.eqb_eq in Hy.
    unfold continuation in Hy, Hz. rewrite !in_range_spec in *. split; [done|]. split; [exact Hv|]. split; [cbn; lia|]. split; [|split].
    - apply not_continuation. right. apply in_range_spec. lia.
    - cbn. unfold continuation. rewrite !andb_true_iff, !in_range_spec. lia.
    - intros r Hr. cbn [utf8_valid app]. by rewrite E2, E3. }
  destruct b as [|w b]; [done|].
  match goal with |- (if ?g then _ else _) = true -> _ => destruct g eqn:E4 end; [|done].
  intros Hv. exists [y; z; w], b. pose proof E4 as [[Hy Hz]%andb_prop Hw]%andb_prop. rewrite !orb_true_iff, !andb_true_iff, !Z.eqb_eq in Hy.
  unfold continuation in Hy, Hz, Hw. rewrite !in_range_spec in *. split; [done|]. split; [exact Hv|]. split; [cbn; lia|]. split; [|split].
  - apply not_continuation. right. apply in_range_spec. lia.
  - cbn. unfold continuation. rewrite !andb_true_iff, !in_range_spec. lia.
  - intros r Hr. cbn [utf8_valid app]. by rewrite E2, E3, E4.
Qed.

Lemma boundary_shift c rest k : (match rest with x :: _ => continuation x = false | [] => True end) ->
  c <> [] -> is_char_boundary (c ++ rest) (length c + k) = is_char_boundary rest k.
Proof.
  intros Hr Hc. unfold is_char_boundary. rewrite length_app, lookup_app_r by lia. replace (length c + k - length c)%nat with k by lia.
  assert ((length c + k =? 0)%nat = false) as -> by (apply Nat.eqb_neq; destruct c; [done|cbn; lia]).
  assert ((length c + k =? length c + length rest)%nat = (k =? length rest)%nat) as ->.
  { destruct (k =? length rest)%nat eqn:E; [apply Nat.eqb_eq in E; apply Nat.eqb_eq; lia|apply Nat.eqb_neq in E; apply Nat.eqb_neq; lia]. }
  destruct k as [|k]; [|done]. destruct rest as [|x rest]; [done|]. cbn. by rewrite Hr.
Qed.
(** Cut at a boundary, a valid text stays valid; and of any four positions in a row one
    is a boundary. *)
Lemma utf8_cut b i : Forall (fun x => 0 <= x) b -> utf8_valid b = true -> (i <= length b)%nat ->
  (is_char_boundary b i = true -> utf8_valid (take i b) = true) /\
  exists j, (j <= i <= j + 3)%nat /\ is_char_boundary b j = true.
Proof.
  remember (length b) as n eqn:Hn. revert b Hn i. induction n as [n IH] using lt_wf_ind. intros b -> i Hb Hv Hi.
  destruct b as [|x b]; [split; [by rewrite take_nil|]; cbn in Hi; exists 0%nat; split; [lia|done]|].
  destruct (utf8_char x b (Forall_inv Hb) Hv) as (c & rest & -> & Hr & Hc & Hnx & Hcont & Hcat).
  assert (Hrest : Forall (fun x => 0 <= x) rest) by (by apply Forall_inv_tail, Forall_app in Hb as [_ Hb]).
  destruct (decide (i <= length c)%nat) as [Hlt|Hge].
  - split; [|exists 0%nat; split; [lia|done]]. intros Hbd. destruct i as [|i]; [done|]. exfalso. unfold is_char_boundary in Hbd.
    assert ((S i =? length (x :: c ++ rest))%nat = false) as Hl by (apply Nat.eqb_neq; cbn; rewrite length_app; lia). rewrite Hl in Hbd.
    change ((x :: c ++ rest) !! S i) with ((c ++ rest) !! i) in Hbd. rewrite lookup_app_l in Hbd by lia.
    destruct (lookup_lt_is_Some_2 c i Hlt) as [y Hy]. rewrite Hy in Hbd. rewrite forallb_forall in Hcont.
    rewrite (Hcont y) in Hbd by (apply list_elem_of_In; by eapply list_elem_of_lookup_2). done.
  - assert (Hhead : match rest with x :: _ => continuation x = false | [] => True end).
    { destruct rest as [|y rest]; [done|]. by destruct (utf8_char y rest (Forall_inv Hrest) Hr) as (? & ? & _ & _ & _ & ? & _). }
    pose proof (boundary_shift (x :: c) rest) as Hshift. remember (i - length (x :: c))%nat as k eqn:Hk.
    assert (Hik : i = (length (x :: c) + k)%nat) by (cbn in *; lia). clear Hk. subst i. cbn [length] in Hi. rewrite length_app in Hi.
    destruct (IH (length rest)) with (b := rest) (i := k) as [H1 (j & Hj & Hbj)]; [cbn; rewrite length_app; lia|done|done|done|cbn in Hi; lia|].
    change (x :: c ++ rest) with ((x :: c) ++ rest). split.
    + rewrite Hshift by done. intros Hbd. rewrite firstn_app_2. by apply Hcat, H1.
    + exists (length (x :: c) + j)%nat. split; [lia|]. by rewrite Hshift.
Qed.
Lemma boundary_below_spec b i : let j := boundary_below b i in
  (j <= i)%nat /\ is_char_boundary b j = true /\ forall k, (k <= i)%nat -> is_char_boundary b k = true -> (k <= j)%nat.
Proof.
  induction i as [|i (H1 & H2 & H3)]; cbn [boundary_below]; [by repeat split; [..|lia]|].
  destruct (is_char_boundary b (S i)) eqn:E; [repeat split; [lia|done|lia]|]. repeat split; [lia|done|].
  intros k Hk Hbd. destruct (decide (k = S i)) as [->|]; [congruence|apply H3; [lia|done]].
Qed.
Lemma bytes_nonneg s : Forall (fun x => 0 <= x) (bytes_of s).
Proof. induction s as [|c s IH]; constructor; [pose proof (byte_of_bounds c); lia|done]. Qed.
Lemma substring_none s : String.substring 0 0 s = ""%string.
Proof. by destruct s. Qed.
Lemma substring_whole s : String.substring 0 (String.length s) s = s.
Proof. induction s as [|c s IH]; [done|]. cbn. by rewrite IH. Qed.
Lemma bounded_ok s : utf8_valid (bytes_of s) = true ->
  utf8_valid (bytes_of (bounded s)) = true /\ (exists rest, s = bounded s ++ rest)%string /\ (String.length (bounded s) <= LIMIT)%nat /\
  ((String.length s <= LIMIT)%nat -> bounded s = s) /\ ((LIMIT < String.length s)%nat -> (LIMIT - 3 <= String.length (bounded s))%nat).
Proof.
  intros Hv. unfold bounded. rewrite bytes_of_substring, <- !bytes_length, bytes_of_substring.
  pose proof (boundary_below_spec (bytes_of s) (Nat.min (length (bytes_of s)) LIMIT)) as H. cbn zeta in H. set (j := boundary_below _ _) in *.
  destruct H as (H1 & H2 & H3). destruct (utf8_cut (bytes_of s) j (bytes_nonneg s) Hv) as [Hcut _]; [lia|].
  split; [by apply Hcut|]. split; [|split; [|split]].
  - exists (String.substring j (String.length s - j) s). clearbody j. clear. revert s. induction j as [|j IH]; intros s.
    + rewrite Nat.sub_0_r, substring_none. cbn [append]. by rewrite substring_whole.
    + destruct s as [|c s]; [done|]. cbn. by rewrite <- IH.
  - rewrite length_take. lia.
  - intros Hs. assert (j = length (bytes_of s)) as ->.
    { apply Nat.le_antisymm; [lia|]. apply H3; [lia|]. unfold is_char_boundary. rewrite Nat.eqb_refl. by rewrite orb_true_r. }
    by rewrite bytes_length, substring_whole.
  - intros Hs. rewrite length_take. destruct (utf8_cut (bytes_of s) LIMIT (bytes_nonneg s) Hv) as [_ (k & Hk & Hbk)]; [lia|].
    specialize (H3 k). unfold LIMIT in *. assert (k <= j)%nat by (apply H3; [lia|done]). lia.
Qed.

(** * Records *)
Definition last_recorded (name : string) (fs : list (string * Recorded)) : option Recorded :=
  fold_left (fun last f => if String.eqb name (fst f) then Some (snd f) else last) fs None.
Lemma fields_facts fs m : sorted m -> sorted (fold_left visit fs m) /\
  forall name last, get name m = (if permitted name then option_map value_of last else None) ->
    get name (fold_left visit fs m)
    = if permitted name then option_map value_of (fold_left (fun last f => if String.eqb name (fst f) then Some (snd f) else last) fs last) else None.
Proof.
  revert m. induction fs as [|[n r] fs IH]; intros m Hm; [done|]. cbn [fold_left fst snd]. unfold visit at 2 4. cbn [fst snd].
  destruct (permitted n) eqn:Ep.
  - destruct (IH (insert n (value_of r) m) (insert_sorted _ _ _ Hm)) as [H1 H2]. split; [exact H1|]. intros name last Hl.
    apply H2. rewrite get_insert by done. destruct (String.eqb_spec name n) as [->|Hne]; [by rewrite Ep|exact Hl].
  - destruct (IH m Hm) as [H1 H2]. split; [exact H1|]. intros name last Hl. apply H2. destruct (String.eqb_spec name n) as [->|Hne]; [by rewrite Ep in *|exact Hl].
Qed.
Lemma last_recorded_in name fs r : last_recorded name fs = Some r -> In (name, r) fs.
Proof.
  unfold last_recorded. assert (H : forall last, fold_left (fun last f => if String.eqb name (fst f) then Some (snd f) else last) fs last = Some r ->
    last = Some r \/ In (name, r) fs).
  { induction fs as [|[n x] fs IH]; intros last; cbn [fold_left fst snd]; [by left|]. intros E%IH. destruct E as [E|E]; [|by right; right].
    destruct (String.eqb_spec name n) as [->|]; [|by left]. injection E as ->. right. by left. }
  intros [E|E]%H; done.
Qed.

(** What the record of a text keeps of it: all of it, or its first 1021 to 1024 bytes. *)
Definition kept_text (text s : string) : Prop :=
  utf8_valid (bytes_of s) = true /\ (exists rest, text = s ++ rest)%string /\ (String.length s <= LIMIT)%nat /\
  ((String.length text <= LIMIT)%nat -> s = text) /\ ((LIMIT < String.length text)%nat -> (LIMIT - 3 <= String.length s)%nat).
Definition texts_valid (e : LogEvent) : Prop :=
  forall name text, In (name, RDebug text) (ev_fields e) \/ In (name, RStr text) (ev_fields e) -> utf8_valid (bytes_of text) = true.

(** C35: A line of the application log stands for an event of this program at an accepted
    level; its fields are exactly the permitted names the event recorded, each with the
    last value recorded under it, and a text is kept whole up to 1024 bytes, a longer
    one cut between two characters after at least 1021. *)
Theorem log_lines_are_bounded fields_to_string record_to_string c now dropped e line :
  texts_valid e -> logged fields_to_string record_to_string c now dropped e = Some line ->
  (ev_target e = APP_TARGET \/ starts_with (ev_target e) APP_PREFIX = true) /\ accepts (lg_level c) (ev_level e) = true /\
  let r := record_of now dropped e in
  (exists text, fields_to_string (fields r) = Some text /\
     match lg_format c with
     | FormatJson => record_to_string r = Some line
     | FormatText => ends_with line (" " ++ text)%string = true
     end) /\
  (forall name, get name (fields r) = if permitted name then option_map value_of (last_recorded name (ev_fields e)) else None) /\
  (forall name s, get name (fields r) = Some (Text s) ->
     exists text, (In (name, RDebug text) (ev_fields e) \/ In (name, RStr text) (ev_fields e)) /\ kept_text text s).
Proof.
  intros Hv. unfold logged. destruct (enabled c e) eqn:En; [|done]. unfold on_event. cbv zeta. intros Hl.
  unfold enabled in En. apply andb_true_iff in En as [Ht Ha]. split; [|split; [done|]].
  { apply orb_true_iff in Ht as [Ht|Ht]; [left; by apply String.eqb_eq|by right]. }
  assert (Hf : forall name, get name (fields (record_of now dropped e))
      = if permitted name then option_map value_of (last_recorded name (ev_fields e)) else None).
  { intros name. apply (fields_facts (ev_fields e) [] sorted_nil). by destruct (permitted name). }
  split; [|split; [exact Hf|]].
  - destruct (fields_to_string _) as [text|] eqn:Et; [|done]. exists text. split; [done|]. destruct (lg_format c); [done|]. injection Hl as <-.
    apply ends_with_spec. 
    exists (now ++ " " ++ level_name (ev_level e) ++ " " ++ ev_target e ++ " dropped=" ++ u64_to_string dropped)%string. by rewrite !append_assoc.
  - intros name s Hs. rewrite Hf in Hs. destruct (permitted name); [|done]. destruct (last_recorded name (ev_fields e)) as [r|] eqn:El; [|done].
    apply last_recorded_in in El. destruct r as [t|t| | |]; cbn [option_map value_of] in Hs; try done; injection Hs as <-;
      exists t; (split; [auto|apply bounded_ok; eapply Hv; eauto]).
Qed.

Definition example_event : LogEvent :=
  mkEvent WARN "sirius_api_proxy::master_git_worker" [("error_code", RStr "locked"); ("authorization", RStr "Bearer secret"); ("attempt", RU64 2)]%string.
Definition example_fields (m : bmap Value) : option string :=
  Some (fold_left (fun text f => match snd f with Text s => text ++ fst f ++ "=" ++ s ++ ";" | _ => text end)%string m ""%string).
Definition example_line : string :=
  "2026-01-01T00:00:00+00:00 WARN sirius_api_proxy::master_git_worker dropped=0 error_code=locked;".
Lemma log_lines_are_bounded_witness :
  logged example_fields (fun _ => None) log_default "2026-01-01T00:00:00+00:00" 0 example_event = Some example_line /\
  get "authorization" (fields (record_of "2026-01-01T00:00:00+00:00" 0 example_event)) = None.
Proof.
  assert (H : logged example_fields (fun _ => None) log_default "2026-01-01T00:00:00+00:00" 0 example_event = Some example_line) by reflexivity.
  split; [exact H|]. assert (Hv : texts_valid example_event).
  { intros name text Hin. cbn in Hin. destruct Hin as [[|[|[|[]]]]|[E|[E|[|[]]]]]; try discriminate; by injection E as <- <-. }
  destruct (log_lines_are_bounded _ _ _ _ _ _ _ Hv H) as (_ & _ & _ & Hf & _). exact (Hf "authorization"%string).
Defined.
