(* ===== verification/GlobalSdk.v ===== *)
(** The guest SDK of the Global regions ([global_sdk.rs]): the device, signed and
    form-encoded parameters, the answers, and the two requests.

    MD5, the lower case of a name, the JSON parser and semantic versions are parameters;
    a number of a JSON value is an integer, as nothing else has a meaning here.  What the
    network does with a request is an argument. *)
From Stdlib Require Import ZArith Lia Ascii String List Bool.
From stdpp Require Import base list strings decidable.
From S2P Require Import Prelude Errors Http Environment Regions SdkSession.

Local Open Scope Z_scope.
Local Open Scope rust_scope.

Definition SDK_ORIGINS : list string :=
  ["https://l11-sdk-login-intl.biligame.net"; "https://l12-sdk-login-intl.biligame.net"; "https://l13-sdk-login-intl.biligame.net"]%string.
Definition TOURIST_LOGIN : string := "/gapi/client/tourist.login".
Definition CACHE_LOGIN : string := "/gapi/client/cache.login".
Definition CAPTCHA_CODE : Z := 200007.
Definition MAX_SDK_RESPONSE_BYTES : Z := 1024 * 1024.
Definition LEADING_PARAMETERS : list (string * string) := [("game_id", "17703"); ("server_id", "16841"); ("merchant_id", "1045")]%string.
Definition FIXED_PARAMETERS : list (string * string) :=
  [("sdk_ver", "4.2.12"); ("channel_id", "100"); ("platform", "google"); ("platform_type", "3"); ("sdk_log_type", "1"); ("ad_ext", ""); ("web_code", "6")]%string.
Definition origin_allowed (origin : string) : bool := mem origin SDK_ORIGINS.

(** * The device *)
Record Device : Type := mkDevice {
  udid : string;
  model : string;
  pf_ver : string;
  dp : string;
  net : string;
  operators : string;
  adid : string;
  lang : string;
  time_zone : string;
  is_root : string;
  unity_device_model : string;
  unity_operating_system : string;
  unity_device_id : string;
}.
Definition plain_text (value : string) (max : Z) : bool := (len value <=? max) && negb (has_control value).
Definition device_validate (d : Device) : result string unit :=
  let required := [udid d; model d; pf_ver d; dp d; net d; operators d; lang d; time_zone d; is_root d; unity_device_model d;
                   unity_operating_system d; unity_device_id d] in
  if List.existsb (fun v => all_whitespace v || negb (plain_text v 256)) required || negb (plain_text (adid d) 256)
  then Err "device fields must be nonblank, at most 256 characters and without control characters"%string
  else Ok tt.
Definition device_parameters (d : Device) : list (string * string) :=
  [("udid", udid d); ("model", model d); ("pf_ver", pf_ver d); ("dp", dp d); ("net", net d); ("operators", operators d); ("adid", adid d);
   ("lang", lang d); ("time_zone", time_zone d); ("isRoot", is_root d)]%string.

(** * Failures *)
Inductive SdkError : Type := SdkConfig | Captcha | SdkRefused (code : Z) | SdkIdentity | SdkTransport | SdkProtocol.
Definition sdk_error_code (e : SdkError) : string :=
  match e with
  | SdkConfig => "SDK_CONFIG"
  | Captcha => "SDK_CAPTCHA"
  | SdkRefused _ => "SDK_REFUSED"
  | SdkIdentity => "SDK_IDENTITY"
  | SdkTransport => "SDK_TRANSPORT"
  | SdkProtocol => "SDK_PROTOCOL"
  end.
Definition refusal_number (e : SdkError) : option Z := match e with SdkRefused code => Some code | _ => None end.
Definition transient (e : SdkError) : bool := match e with SdkTransport | SdkProtocol => true | _ => false end.
Definition int_to_string (n : Z) : string := if n <? 0 then ("-" ++ u64_to_string (- n))%string else u64_to_string n.
Definition sdk_message (e : SdkError) : string :=
  match e with
  | SdkConfig => "SDK configuration is invalid"
  | Captcha => "SDK requires CAPTCHA; finish verification in the official client"
  | SdkRefused code => "SDK refused the request: code=" ++ int_to_string code
  | SdkIdentity => "SDK response identity is missing or changed"
  | SdkTransport => "SDK transport failed; the outcome is unknown and the request is not repeated"
  | SdkProtocol => "SDK response is invalid"
  end.

(** * Signing *)

(** [str::encode_utf16] of valid UTF-8. *)
Fixpoint encode_utf16 (b : list Z) : list Z :=
  match b with
  | [] => []
  | x :: b1 =>
      if x <? 128 then x :: encode_utf16 b1
      else match b1 with
           | [] => []
           | y :: b2 =>
               if x <? 224 then (x mod 32 * 64 + y mod 64) :: encode_utf16 b2
               else match b2 with
                    | [] => []
                    | z :: b3 =>
                        if x <? 240 then (x mod 16 * 4096 + y mod 64 * 64 + z mod 64) :: encode_utf16 b3
                        else match b3 with
                             | [] => []
                             | w :: b4 =>
                                 let c := x mod 8 * 262144 + y mod 64 * 4096 + z mod 64 * 64 + w mod 64 - 65536 in
                                 (55296 + c / 1024) :: (56320 + c mod 1024) :: encode_utf16 b4
                             end
                    end
           end
  end.
Fixpoint units_le (a b : list Z) : bool :=
  match a, b with
  | [], _ => true
  | _ :: _, [] => false
  | x :: a, y :: b => (x <? y) || (x =? y) && units_le a b
  end.
Definition name_le (a b : string) : bool := units_le (encode_utf16 (bytes_of a)) (encode_utf16 (bytes_of b)).
(** [sort_by] is stable. *)
Fixpoint insert_name (p : string * string) (l : list (string * string)) : list (string * string) :=
  match l with
  | [] => [p]
  | q :: l' => if name_le (fst p) (fst q) then p :: l else q :: insert_name p l'
  end.
Definition by_name (l : list (string * string)) : list (string * string) := fold_right insert_name [] l.

Section sdk.
Context (md5_hex : string -> string) (to_lowercase : string -> string).

Definition signed_value (p : string * string) : string := if mem (to_lowercase (fst p)) ["item_name"; "item_desc"]%string then "" else snd p.
Definition sign (parameters : list (string * string)) (app_key : string) : string :=
  md5_hex (String.concat "" (map signed_value (by_name parameters)) ++ app_key)%string.

(** * Form encoding *)
Definition hex_upper (n : Z) : ascii := ascii_of_nat (Z.to_nat (if n <? 10 then 48 + n else 55 + n)).
Definition literal (c : ascii) : bool := is_ascii_alphanumeric c || char_is 95 c || char_is 46 c || char_is 45 c || char_is 126 c.
Definition push_byte (c : ascii) : string :=
  if char_is 32 c then "+"
  else if literal c then String c ""
  else String "%" (String (hex_upper (byte_of c / 16)) (String (hex_upper (byte_of c mod 16)) "")).
Fixpoint push (value : string) : string :=
  match value with
  | EmptyString => EmptyString
  | String c value => (push_byte c ++ push value)%string
  end.
Definition pair_text (p : string * string) : string := (push (fst p) ++ "=" ++ push (snd p))%string.
Definition form_encode (parameters : list (string * string)) : string := String.concat "&" (map pair_text parameters).

(** [prepare]: the parameters of [tourist.login], or of [cache.login] for [cached]. *)
Definition unsigned_parameters (d : Device) (app_ver : string) (timestamp_ms : Z) (cached : option SdkAccount) : list (string * string) :=
  LEADING_PARAMETERS ++ [("app_ver"%string, app_ver)] ++ FIXED_PARAMETERS ++ device_parameters d ++ [("timestamp"%string, u64_to_string timestamp_ms)]
  ++ match cached with
     | None => []
     | Some a => [("access_key"%string, access_key a); ("uid"%string, uid a)] ++ match mid a with Some m => [("mid"%string, m)] | None => [] end
     end.
Definition prepare (d : Device) (app_ver app_key : string) (timestamp_ms : Z) (cached : option SdkAccount) : list (string * string) :=
  let parameters := unsigned_parameters d app_ver timestamp_ms cached in
  parameters ++ [("sign"%string, sign parameters app_key)].

(** * Answers *)
Definition I64_MIN : Z := - I64_MAX - 1.
Definition identity_text (value : option json) : option string :=
  match value with
  | Some (JStr s) => if is_empty s then None else Some s
  | Some (JNum n) => if in_range I64_MIN U64_MAX n then Some (int_to_string n) else None
  | _ => None
  end.
Definition as_i64 (v : option json) : option Z :=
  match v with Some (JNum n) => if in_range I64_MIN I64_MAX n then Some n else None | _ => None end.
Definition safe_header : string -> bool := header_safe header_value_ok.
Definition nonempty (o : option string) : option string := match o with Some s => if is_empty s then None else Some s | None => None end.
Definition text_field (k : string) (v : json) : option string := match json_field k v with Some v => json_str v | None => None end.
Definition interpret (body : json) (previous : option SdkAccount) : result SdkError SdkAccount :=
  code <-? ok_or (as_i64 (json_field "code" body)) SdkProtocol;;
  if code =? CAPTCHA_CODE then Err Captcha
  else if negb (code =? 0) then Err (SdkRefused code)
  else
    data <-? ok_or (match json_field "data" body with Some (JObj fs) => Some (JObj fs) | _ => None end) SdkIdentity;;
    answered <-? ok_or (identity_text (json_field "uid" data)) SdkIdentity;;
    let token := nonempty (text_field "id_token" data) in
    let answered_mid := identity_text (json_field "mid" data) in
    account <-? match previous with
                | Some p =>
                    guard? String.eqb answered (uid p) else SdkIdentity;;
                    Ok {| uid := answered; access_key := access_key p;
                          id_token := match token with Some t => t | None => id_token p end;
                          mid := match answered_mid with Some m => Some m | None => mid p end |}
                | None =>
                    key <-? ok_or (text_field "access_key" data) SdkIdentity;;
                    Ok {| uid := answered; access_key := key; id_token := match token with Some t => t | None => ""%string end; mid := answered_mid |}
                end;;
    guard? negb (negb (safe_header (uid account)) || negb (safe_header (access_key account))
                 || negb (is_empty (id_token account) || safe_header (id_token account))) else SdkIdentity;;
    Ok account.

(** * Requests *)
Context (json_of : list Z -> option json) (semver_ok : string -> bool).

Record SdkClient : Type := mkSdkClient { sc_origin : string; sc_app_key : string; sc_app_ver : string }.
Definition sdk_client_new (origin app_key app_ver : string) (build : bool) : result SdkError SdkClient :=
  guard? negb (negb (origin_allowed origin) || all_whitespace app_key || negb (semver_ok app_ver)) else SdkConfig;;
  guard? build else SdkConfig;;
  Ok (mkSdkClient origin app_key app_ver).
Record SdkRequest : Type := mkSdkRequest { sr_url : string; sr_headers : list (string * string); sr_body : string }.
Definition ONE_SDK_VERSION : string := "1.25.0".
Definition SDK_HEADERS : list (string * string) :=
  [("content-type", "application/x-www-form-urlencoded"); ("api-version", "1"); ("one-sdk-ver", ONE_SDK_VERSION)]%string.
(** [post]: the answer to the request, [None] when sending it failed. *)
Definition received (answer : option http_response) : result SdkError json :=
  r <-? ok_or answer SdkTransport;;
  guard? negb (negb (http_status r =? 200) || some_and (content_length r) (fun n => MAX_SDK_RESPONSE_BYTES <? n)) else SdkProtocol;;
  bytes <-? read_bounded MAX_SDK_RESPONSE_BYTES SdkTransport SdkProtocol [] (body_events r);;
  ok_or (match json_of bytes with Some (JObj fs) => Some (JObj fs) | _ => None end) SdkProtocol.
(** A login: the request it sends, if any, and what it makes of the answer. *)
Definition sdk_login (c : SdkClient) (path : string) (d : Device) (now_ms : Z) (previous : option SdkAccount) (network : SdkRequest -> option http_response)
  : result SdkError SdkAccount * option SdkRequest :=
  match device_validate d with
  | Err _ => (Err SdkConfig, None)
  | Ok _ =>
      let request := mkSdkRequest (sc_origin c ++ path) SDK_HEADERS (form_encode (prepare d (sc_app_ver c) (sc_app_key c) now_ms previous)) in
      (body <-? received (network request);; interpret body previous, Some request)
  end.
Definition tourist_login (c : SdkClient) (d : Device) (now_ms : Z) (network : SdkRequest -> option http_response) : result SdkError SdkAccount * option SdkRequest :=
  sdk_login c TOURIST_LOGIN d now_ms None network.
Definition cache_login (c : SdkClient) (d : Device) (a : SdkAccount) (now_ms : Z) (network : SdkRequest -> option http_response)
  : result SdkError SdkAccount * option SdkRequest :=
  sdk_login c CACHE_LOGIN d now_ms (Some a) network.

(** * Lemmas *)

Lemma digits_nonempty f n acc : acc <> ""%string -> dec_digits f n acc <> ""%string.
Proof. revert n acc. induction f as [|f IH]; intros n acc Hacc; [done|]. cbn [dec_digits]. destruct (_ <? _); [done|by apply IH]. Qed.
Lemma digits_nonempty_S f n acc : dec_digits (S f) n acc <> ""%string.
Proof. cbn [dec_digits]. destruct (_ <? _); [done|by apply digits_nonempty]. Qed.
Lemma int_nonempty n : int_to_string n <> ""%string.
Proof. unfold int_to_string, u64_to_string. destruct (n <? 0); [done|apply digits_nonempty_S]. Qed.
Lemma identity_text_nonempty v s : identity_text v = Some s -> s <> ""%string.
Proof.
  destruct v as [[]|]; try done; cbn; [destruct (in_range _ _ _); [|done]; intros [= <-]; apply int_nonempty|].
  destruct (is_empty s0) eqn:E; [done|]. intros [= <-] ->. done.
Qed.
(** The SDK never changes who is revalidated. *)
Lemma interpret_account body previous a : interpret body previous = Ok a ->
  safe_header (uid a) = true /\ safe_header (access_key a) = true /\ (id_token a = ""%string \/ safe_header (id_token a) = true) /\
  (previous = None -> mid a <> Some ""%string) /\
  (forall p, previous = Some p -> uid a = uid p /\ access_key a = access_key p /\ (mid p <> None -> mid a <> None)).
Proof.
  unfold interpret. intros E. apply rbind_ok in E as (code & _ & E). destruct (code =? CAPTCHA_CODE); [done|]. destruct (negb (code =? 0)); [done|].
  apply rbind_ok in E as (data & _ & E). apply rbind_ok in E as (answered & Ha & E). cbv zeta in E. apply rbind_ok in E as (account & Hacc & E).
  apply rbind_ok in E as ([] & Hs & [= ->]). apply ensure_ok, negb_true_iff in Hs. rewrite !orb_false_iff, !negb_false_iff in Hs. destruct Hs as [[H1 H2] H3].
  split; [done|]. split; [done|]. split.
  { apply orb_true_iff in H3 as [H3|H3]; [left; by destruct (id_token a)|by right]. }
  split.
  { intros ->. apply rbind_ok in Hacc as (key & _ & [= <-]). cbn [mid]. intros Hm. by apply identity_text_nonempty in Hm. }
  intros p ->. apply rbind_ok in Hacc as ([] & He & [= <-]). apply ensure_ok in He. apply String.eqb_eq in He. cbn [uid access_key mid].
  split; [done|]. split; [done|]. intros Hm. by destruct (identity_text (json_field "mid" data)).
Qed.
End sdk.

(** ** The form reads back *)
Definition hex_value (c : ascii) : option Z :=
  if is_ascii_digit c then Some (byte_of c - 48) else if in_range 65 70 (byte_of c) then Some (byte_of c - 55) else None.
Fixpoint unescape (s : string) : option string :=
  match s with
  | EmptyString => Some EmptyString
  | String c s =>
      if char_is 43 c then option_map (String " ") (unescape s)
      else if char_is 37 c then
        match s with
        | String a (String b s) =>
            match hex_value a, hex_value b, unescape s with
            | Some a, Some b, Some s => Some (String (ascii_of_nat (Z.to_nat (16 * a + b))) s)
            | _, _, _ => None
            end
        | _ => None
        end
      else option_map (String c) (unescape s)
  end.
Definition pair_decode (s : string) : option (string * string) :=
  match split_on "=" s with
  | [name; value] => match unescape name, unescape value with Some n, Some v => Some (n, v) | _, _ => None end
  | _ => None
  end.
Definition form_decode (s : string) : option (list (string * string)) := try_map pair_decode (split_on "&" s).

Lemma push_byte_facts c :
  (char_is 32 c = true -> c = " "%char) /\ (literal c = true -> char_is 43 c = false /\ char_is 37 c = false) /\
  hex_value (hex_upper (byte_of c / 16)) = Some (byte_of c / 16) /\ hex_value (hex_upper (byte_of c mod 16)) = Some (byte_of c mod 16) /\
  ascii_of_nat (Z.to_nat (16 * (byte_of c / 16) + byte_of c mod 16)) = c.
Proof. destruct c as [[] [] [] [] [] [] [] []]; vm_compute; repeat split; intros; done. Qed.
Lemma unescape_byte c rest : unescape (push_byte c ++ rest) = option_map (String c) (unescape rest).
Proof.
  destruct (push_byte_facts c) as (H1 & H2 & H3 & H4 & H5). unfold push_byte. destruct (char_is 32 c) eqn:E1; [by rewrite (H1 eq_refl)|].
  destruct (literal c) eqn:E2.
  - destruct (H2 eq_refl) as [Ha Hb]. cbn [append unescape]. by rewrite Ha, Hb.
  - cbn [append unescape]. change (char_is 43 "%") with false. change (char_is 37 "%") with true. cbv iota. rewrite H3, H4.
    destruct (unescape rest); [|done]. cbn [option_map]. by rewrite H5.
Qed.
Lemma unescape_push s : unescape (push s) = Some s.
Proof. induction s as [|c s IH]; [done|]. cbn [push]. by rewrite unescape_byte, IH. Qed.
Definition form_byte (c : ascii) : bool := literal c || char_is 43 c || char_is 37 c.
Lemma push_byte_safe c : all_bytes form_byte (push_byte c) = true.
Proof. destruct c as [[] [] [] [] [] [] [] []]; by vm_compute. Qed.
Lemma push_safe s : all_bytes form_byte (push s) = true.
Proof. induction s as [|c s IH]; [done|]. cbn [push]. by rewrite all_bytes_app, push_byte_safe, IH. Qed.
Lemma push_without sep s : form_byte sep = false -> without sep (push s) = true.
Proof.
  intros Hs. unfold without. eapply all_bytes_impl; [|apply push_safe]. intros c Hc. apply negb_true_iff, Ascii.eqb_neq. congruence.
Qed.
Lemma pair_decode_text p : pair_decode (pair_text p) = Some p.
Proof.
  unfold pair_decode, pair_text. cbn [append]. rewrite split_on_app by (by apply push_without). rewrite split_on_none by (by apply push_without).
  rewrite !unescape_push. by destruct p.
Qed.
Lemma pair_text_without p : without "&" (pair_text p) = true.
Proof.
  unfold pair_text, without. rewrite all_bytes_app. change (all_bytes _ (push (fst p))) with (without "&" (push (fst p))). rewrite push_without by done.
  cbn [append all_bytes]. change (all_bytes _ (push (snd p))) with (without "&" (push (snd p))). by rewrite push_without.
Qed.

Lemma pair_text_safe p : all_bytes (fun c => form_byte c || char_is 61 c || char_is 38 c) (pair_text p) = true.
Proof.
  assert (H : forall s, all_bytes (fun c => form_byte c || char_is 61 c || char_is 38 c) (push s) = true).
  { intros s. eapply all_bytes_impl; [|apply push_safe]. intros c Hc. by rewrite Hc. }
  unfold pair_text. rewrite !all_bytes_app, !H. done.
Qed.

(** A form reads back as the parameters it was made of, in order, whatever bytes
    their names and values have; it is one line of letters, digits and the characters of
    the encoding, so no value ends a parameter or starts another. *)
Theorem form_reads_back parameters : parameters <> [] ->
  form_decode (form_encode parameters) = Some parameters /\
  all_bytes (fun c => form_byte c || char_is 61 c || char_is 38 c) (form_encode parameters) = true.
Proof.
  unfold form_decode, form_encode. induction parameters as [|p [|q l] IH]; intros H; [done| |].
  - cbn [map String.concat]. rewrite split_on_none by apply pair_text_without. cbn [try_map]. rewrite pair_decode_text. split; [done|]. apply pair_text_safe.
  - destruct (IH ltac:(done)) as [H1 H2]. set (rest := map pair_text (q :: l)) in *.
    assert (Hr : String.concat "&" (map pair_text (p :: q :: l)) = (pair_text p ++ String "&" (String.concat "&" rest))%string) by done.
    rewrite Hr. split.
    + rewrite split_on_app by apply pair_text_without. cbn [try_map]. by rewrite pair_decode_text, H1.
    + rewrite all_bytes_app, pair_text_safe. cbn [all_bytes]. by rewrite H2.
Qed.

Lemma form_reads_back_witness :
  form_encode [("name", "a b&c=1%")]%string = "name=a+b%26c%3D1%25"%string /\ form_decode "name=a+b%26c%3D1%25" = Some [("name", "a b&c=1%")]%string.
Proof.
  assert (H : form_encode [("name", "a b&c=1%")]%string = "name=a+b%26c%3D1%25"%string) by reflexivity. split; [exact H|]. rewrite <- H.
  apply (form_reads_back [("name", "a b&c=1%")]%string). discriminate.
Defined.
