(* ===== verification/GameConfig.v ===== *)
(** The configuration of one region ([config.rs]) with the sections only it uses:
    database connections and publication workers, client authorization,
    synchronization, listener TLS and accounts.

    The environment, URLs, network prefixes, header names, versions and the metadata
    of the certificate file are parameters; paths are those of Unix. *)
From Stdlib Require Import ZArith Lia Ascii String List Bool.
From stdpp Require Import base list strings decidable gmap.
From S2P Require Import Prelude BTree ApplicationLog SdkSession GlobalSdk Errors Regions Http Environment Addr AccessLog PathHealth Accounts ResponseCache Peer Upstream NodeRouting Outbox AssetDispatch MasterFiles MasterRegistry MasterHistory MasterUpdate MasterNotify GitConfig.

Local Open Scope Z_scope.
Local Open Scope rust_scope.

(** * Database connections *)
Record DbConfig : Type := mkDbConfig {
  db_host : string;
  db_port : Z;
  db_database : string;
  db_username : string;
  db_password_env : string;
  db_root_certificate : option string;
  db_plaintext_loopback : bool;
  db_timeout_seconds : Z;
  db_read_timeout_seconds : option Z;
  db_keep_snapshots : Z;
  db_max_read_connections : Z;
}.
Inductive DbConfigError : Type := DbcConfig | DbcSecret.

(** What [symlink_metadata] answers: a regular file, no link, of a length. *)
Record FileMeta : Type := mkFileMeta { fm_regular : bool; fm_len : Z }.

Section database.
Context (file_meta : string -> option FileMeta) (env : string -> option string).

Definition text_ok (s : string) : bool := negb (is_empty s) && (len s <=? 256) && negb (has_control s).
Definition db_validate (c : DbConfig) : result DbConfigError unit :=
  if negb (text_ok (db_host c))
     || List.existsb (fun b => contains_char b (db_host c)) [47; 92; 64; 63; 35; 32]
     || negb (text_ok (db_database c)) || negb (text_ok (db_username c)) || (db_port c =? 0)
     || is_empty (db_password_env c) || (128 <? len (db_password_env c)) || negb (reference_name_ok (db_password_env c))
     || negb (in_range 1 600 (db_timeout_seconds c))
     || some_and (db_read_timeout_seconds c) (fun s => negb (in_range 1 600 s))
     || negb (in_range 1 10000 (db_keep_snapshots c)) || negb (in_range 1 64 (db_max_read_connections c))
     || db_plaintext_loopback c && negb (some_and (ip_parse (db_host c)) is_loopback)
     || db_plaintext_loopback c && is_some (db_root_certificate c)
  then Err DbcConfig
  else match db_root_certificate c with
       | None => Ok tt
       | Some path =>
           m <-? ok_or (file_meta path) DbcConfig;;
           if negb (fm_regular m) || (1024 * 1024 <? fm_len m) || (fm_len m =? 0) then Err DbcConfig else Ok tt
       end.
Definition db_read_timeout (c : DbConfig) : Z := match db_read_timeout_seconds c with Some s => s | None => Z.min (db_timeout_seconds c) 30 end.

Definition INHERITED_LIBPQ_VARIABLES : list string := ["PGSSLROOTCERT"; "PGSSLCERT"; "PGSSLKEY"; "PGOPTIONS"]%string.
Definition ambient_libpq_configuration (is_set : string -> bool) : bool := List.existsb is_set INHERITED_LIBPQ_VARIABLES.

Record ConnectOptions : Type := mkConnectOptions {
  co_host : string;
  co_port : Z;
  co_database : string;
  co_username : string;
  co_password : string;
  co_application : string;
  co_verified_tls : bool;
  co_root_certificate : option string;
  co_deadline_seconds : Z;
}.
(** [connect_options]; [is_set] says which variables are set at all. *)
Definition connect_options (is_set : string -> bool) (c : DbConfig) (application : string) (deadline : Z) : result DbConfigError ConnectOptions :=
  _ <-? db_validate c;;
  guard? negb (ambient_libpq_configuration is_set) else DbcConfig;;
  password <-? ok_or (env (db_password_env c)) DbcSecret;;
  guard? negb (is_empty password || (4096 <? len password)) else DbcSecret;;
  Ok (mkConnectOptions (db_host c) (db_port c) (db_database c) (db_username c) password application
        (negb (db_plaintext_loopback c)) (db_root_certificate c) deadline).
Definition db_options (is_set : string -> bool) (c : DbConfig) : result DbConfigError ConnectOptions :=
  connect_options is_set c "sirius-master-database" (db_timeout_seconds c).
Definition db_read_options (is_set : string -> bool) (c : DbConfig) : result DbConfigError ConnectOptions :=
  connect_options is_set c "sirius-master-database" (db_read_timeout c).
End database.

(** * Sections *)
Record DbWorkerConfig : Type := mkDbWorker { dw_connection : DbConfig; dw_interval_seconds : Z }.
Record GitWorkerConfig : Type := mkGitWorker {
  gw_commit : CommitPolicy;
  gw_state_directory : string;
  gw_interval_seconds : Z;
  gw_remote : option GitConfig.Remote;
  gw_layout : GitConfig.Layout;
  gw_branch : string;
  gw_timeout_seconds : Z;
}.
Definition git_options (c : GitWorkerConfig) : GitOptions := mkGitOptions (gw_layout c) (gw_branch c) (gw_timeout_seconds c).
Record AuthDatabase : Type := mkAuthDatabase {
  ad_host : string;
  ad_port : Z;
  ad_database : string;
  ad_username : string;
  ad_password_env : string;
  ad_root_certificate : option string;
  ad_plaintext_loopback : bool;
  ad_timeout_seconds : Z;
  ad_max_connections : Z;
}.
Record AuthConfig : Type := mkAuthConfig {
  signing_key_env : string;
  cache_seconds : Z;
  cache_entries : Z;
  auth_database : AuthDatabase;
}.
Definition auth_connection (c : AuthConfig) : DbConfig :=
  let d := auth_database c in
  mkDbConfig (ad_host d) (ad_port d) (ad_database d) (ad_username d) (ad_password_env d) (ad_root_certificate d) (ad_plaintext_loopback d)
    (ad_timeout_seconds d) None 1 (ad_max_connections d).
Record SyncConfig : Type := mkSyncConfig {
  sync_origin : string;
  sync_token : string;
  sync_regional_paths : bool;
  sync_allow_http : bool;
  sync_interval_seconds : Z;
  sync_timeout_seconds : Z;
  sync_request_timeout_ms : Z;
}.
Record TlsConfig : Type := mkTlsConfig { certificate_file : string; private_key_file : string; handshake_timeout_ms : Z }.
Definition tls_validate (c : TlsConfig) : bool :=
  negb (is_empty (certificate_file c) || is_empty (private_key_file c) || negb (in_range 100 60000 (handshake_timeout_ms c))).
Record AccountConfig : Type := mkAccountConfig {
  ac_name : string;
  ac_player_id_env : option string;
  ac_credential_env : option string;
  ac_credentials_file : option string;
  ac_global_identity_file : option string;
}.
Record ResourceSnapshotConfig : Type := mkSnapshotConfig {
  rs_cdn_authorization : CdnAuthorization;
  rs_username_env : option string;
  rs_catalog_hash_ttl_seconds : Z;
  rs_network : Network;
}.

(** * The configuration; the protocol directory is not checked and left out. *)
Record GameConfig : Type := mkGameConfig {
  gc_master_database : option DbWorkerConfig;
  gc_master_git : option GitWorkerConfig;
  gc_master_notify : option NotifyConfig;
  gc_master_sync : option SyncConfig;
  gc_node_routing : option NodeRouting.Config;
  gc_peer_token_env : option string;
  gc_asset_dispatch : option AssetDispatch.Config;
  gc_client_auth : option AuthConfig;
  gc_logging : option LogConfig;
  gc_region : Region;
  gc_platform : option Platform;
  gc_listen : option string;
  gc_tls : option TlsConfig;
  gc_access_log : option AccessLog.Config;
  gc_http_compression : option bool;
  gc_environment : string;
  gc_endpoint : string;
  gc_client_version : string;
  gc_session_lock : bool;
  gc_upstream : UpstreamConfig;
  gc_response_cache : ResponseCache.Config;
  gc_api_token_env : string;
  gc_internal_token_env : string;
  gc_accounts : list AccountConfig;
  gc_account_pool : PoolPolicy;
  gc_global_login : option LoginConfig;
  gc_player_id_env : option string;
  gc_player_credential_env : option string;
  gc_master_directory : option string;
  gc_master_update : option MasterUpdateConfig;
  gc_master_retention : option Z;
  gc_resource_snapshot : option ResourceSnapshotConfig;
  gc_default_cdn_root : string;
  gc_cdn_credential_env : @bmap string;
}.
Definition config_platform (c : GameConfig) : Platform := match gc_platform c with Some p => p | None => default_platform (gc_region c) end.
Definition config_scope (c : GameConfig) : Scope := mkScope (gc_region c) (gc_environment c) (config_platform c).
(** No directory, or an empty path. *)
Definition directory_absent (p : option string) : bool := none_or p is_empty.
(** [PathBuf] compares the components of paths. *)
Definition path_components (p : string) : bool * list string :=
  let rooted := starts_with p "/" in
  match split_on "/"%char p with
  | first :: rest => (rooted, (if negb rooted && String.eqb first "." then ["."%string] else [])
                              ++ List.filter (fun s => negb (is_empty s || String.eqb s ".")) (first :: rest))
  | [] => (rooted, [])
  end.
Definition path_eqb (a b : string) : bool := bool_decide (path_components a = path_components b).

(** Names that are references to the environment in other sections too. *)
Definition env_reference_ok (limit : Z) (s : string) : bool := negb (is_empty s || (limit <? len s) || negb (reference_name_ok s)).

Section validation.
Context (env : string -> option string) (url_parse : string -> option Url) (url_origin url_str : Url -> string) (to_file_path : Url -> bool) (build : bool)
  {IpNet : Type} (net_parse : string -> option IpNet) (header_name : string -> option string)
  (identity_to_vec : Outbox.Identity -> option (list Z)) (sha256_hex : list Z -> string)
  (file_meta : string -> option FileMeta) (semver_ok : string -> bool).

Definition fail {A} (message : string) : result AppError A := Err (Errors.Config message).
Definition as_config {E A} (message : string) (x : result E A) : result AppError A := match x with Ok a => Ok a | Err _ => fail message end.

Definition db_worker_validate (d : DbWorkerConfig) (c : GameConfig) : result AppError unit :=
  if negb (master_supported (gc_region c)) || directory_absent (gc_master_directory c) || negb (in_range 10 86400 (dw_interval_seconds d))
  then fail "invalid Master database publication configuration"
  else as_config "invalid Master database connection configuration" (db_validate file_meta (dw_connection d)).
Definition git_worker_validate (g : GitWorkerConfig) (c : GameConfig) : result AppError unit :=
  _ <-? as_config "invalid Master Git commit policy" (commit_policy_validate (gw_commit g));;
  _ <-? match options_validate (git_options g) with
        | Ok _ => Ok tt
        | Err TimeoutConfig => fail "invalid Master Git timeout_seconds"
        | Err _ => fail "invalid Master Git branch"
        end;;
  if negb (master_supported (gc_region c)) || is_empty (gw_state_directory g)
     || none_or (gc_master_directory c) (fun p => is_empty p || path_eqb p (gw_state_directory g))
     || negb (in_range 10 86400 (gw_interval_seconds g))
  then fail "invalid Master Git publication configuration"
  else match gw_remote g with
       | Some remote => as_config "invalid Master Git remote configuration" (remote_validate env url_parse to_file_path remote)
       | None => Ok tt
       end.
Definition notify_validate (n : NotifyConfig) (c : GameConfig) : result AppError unit :=
  if negb (master_supported (gc_region c)) || directory_absent (gc_master_directory c) then Err bad_config
  else validate_policy url_parse build n (config_scope c).
Definition sync_validate (s : SyncConfig) : result AppError unit :=
  if negb (in_range 60 86400 (sync_interval_seconds s)) || negb (in_range 1 3600 (sync_timeout_seconds s))
     || negb (in_range 100 300000 (sync_request_timeout_ms s)) || negb (env_reference_ok 256 (sync_token s))
  then fail "invalid Master sync policy"
  else rmap (fun _ => tt) (as_config "invalid Master owner origin"
         (client_new url_parse build (sync_origin s) "validation" Jp false (sync_allow_http s)
            {| Peer.connect_timeout_ms := Z.min (sync_request_timeout_ms s) 10000; Peer.request_timeout_ms := sync_request_timeout_ms s;
               Peer.max_response_bytes := Peer.max_response_bytes Policy_default |})).
Definition auth_validate (a : AuthConfig) : result AppError unit :=
  let invalid := "invalid client authorization configuration"%string in
  if negb (env_reference_ok 128 (signing_key_env a)) || String.eqb (signing_key_env a) (ad_password_env (auth_database a))
     || (3600 <? cache_seconds a) || negb (in_range 1 100000 (cache_entries a)) || negb (in_range 1 60 (ad_timeout_seconds (auth_database a)))
  then fail invalid
  else as_config invalid (db_validate file_meta (auth_connection a)).

(** [accounts::validate]. *)
Definition account_name_ok (s : string) : bool :=
  negb (is_empty s) && (len s <=? 64) && all_bytes (fun b => is_ascii_alphanumeric b || char_is 95 b || char_is 45 b) s.
Definition account_ok (global : bool) (a : AccountConfig) : result AppError unit :=
  let some_text (o : option string) := some_and o (fun s => negb (is_empty s)) in
  let paired := "each account requires paired environment references or one credentials file"%string in
  match ac_player_id_env a, ac_credential_env a, ac_credentials_file a, ac_global_identity_file a with
  | Some id, Some key, None, None =>
      if negb (is_empty id) && negb (is_empty key) && negb global then Ok tt
      else if global then fail "HK/EN/KR accounts require global_identity_file; static game credentials are JP only" else fail paired
  | None, None, Some path, None =>
      if negb (is_empty path) && negb global then Ok tt
      else if global then fail "HK/EN/KR accounts require global_identity_file; static game credentials are JP only" else fail paired
  | None, None, None, Some path =>
      if negb (is_empty path) && global then Ok tt
      else if negb global then fail "global_identity_file is only for HK/EN/KR accounts" else fail paired
  | _, _, _, None =>
      if global then fail "HK/EN/KR accounts require global_identity_file; static game credentials are JP only" else fail paired
  | _, _, _, _ => fail paired
  end.
Fixpoint account_list (global : bool) (l : list AccountConfig) (names : gset string) : result AppError unit :=
  match l with
  | [] => Ok tt
  | a :: l =>
      if negb (account_name_ok (ac_name a)) || bool_decide (ac_name a ∈ names) then fail "account names must be unique safe identifiers"
      else _ <-? account_ok global a;; account_list global l ({[ac_name a]} ∪ names)
  end.
Definition accounts_validate (c : GameConfig) : result AppError unit :=
  let static := is_some (gc_player_id_env c) || is_some (gc_player_credential_env c) in
  let global := String.eqb (family (gc_region c)) "global" in
  let no_accounts := match gc_accounts c with [] => true | _ => false end in
  if (64 <? Z.of_nat (length (gc_accounts c))) || negb (in_range 1 100 (PathHealth.failure_threshold (gc_account_pool c)))
     || negb (in_range 1 3600 (PathHealth.cooldown_seconds (gc_account_pool c)))
  then fail "invalid account pool bounds"
  else if negb no_accounts && static then fail "accounts and legacy account references are mutually exclusive"
  else if global && static then fail "HK/EN/KR accounts require global_identity_file; static game credentials are JP only"
  else
    _ <-? account_list global (gc_accounts c) ∅;;
    _ <-? match gc_global_login c with
          | None => Ok tt
          | Some login => if negb global then fail "global_login is only for HK/EN/KR" else login_validate GlobalSdk.origin_allowed login
          end;;
    if global && negb no_accounts
    then if is_none (gc_global_login c) then fail "HK/EN/KR accounts require a global_login section"
         else if negb (gc_session_lock c) then fail "HK/EN/KR accounts require session_lock: true" else Ok tt
    else Ok tt.

(** [Config::validate]: the sections in order, then the URLs and the rest. *)
Definition section {A} (o : option A) (check : A -> result AppError unit) : result AppError unit := match o with Some a => check a | None => Ok tt end.
Definition known_here (c : GameConfig) (value : string) : bool :=
  match url_parse value with
  | Some url => matches_known_service (gc_region c) (match host_str url with Some h => h | None => ""%string end) (path url)
  | None => true
  end.
Definition cdn_roots (c : GameConfig) : list string := map fst (gc_cdn_credential_env c).
Definition update_validate (u : MasterUpdateConfig) (c : GameConfig) : result AppError unit :=
  let credential := contains_key (gc_default_cdn_root c) (gc_cdn_credential_env c) in
  _ <-? as_config "invalid Master network configuration" (network_validate (mu_network u));;
  guard? negb (directory_absent (gc_master_directory c) || negb (in_range 60 86400 (MasterUpdate.interval_seconds u))
               || is_empty (key_hex_env u) || is_empty (iv_hex_env u))
    else Errors.Config "Master updater requires a directory, secret references and a 60..86400 second interval";;
  match cdn_authorization u with
  | CdnBasic =>
      ensure (negb (none_or (username_env u) is_empty || negb credential))
        (Errors.Config "Master CDN Basic authorization requires a username and a credential reference for the default CDN")
  | CdnNone =>
      ensure (negb (negb (String.eqb (family (gc_region c)) "global") || is_some (username_env u) || credential))
        (Errors.Config "anonymous Master CDN access is only for HK/EN/KR without a credential for the default CDN")
  end.
Definition snapshot_validate (s : ResourceSnapshotConfig) (c : GameConfig) : result AppError unit :=
  let credential := contains_key (gc_default_cdn_root c) (gc_cdn_credential_env c) in
  guard? String.eqb (family (gc_region c)) "global"
    else Errors.Config "resource_snapshot is only for HK/EN/KR; JP resource snapshots come from x-asset-version";;
  _ <-? as_config "invalid resource snapshot network configuration" (network_validate (rs_network s));;
  guard? in_range 10 300 (rs_catalog_hash_ttl_seconds s) else Errors.Config "resource_snapshot.catalog_hash_ttl_seconds must be 10..300";;
  ensure (match rs_cdn_authorization s with
          | CdnBasic => some_and (rs_username_env s) (fun u => negb (is_empty u)) && credential
          | CdnNone => is_none (rs_username_env s) && negb credential
          end)
    (Errors.Config "resource CDN authorization: basic needs username_env and a credential for the default CDN; none needs neither").
Definition config_validate (c : GameConfig) : result AppError unit :=
  guard? negb (some_and (gc_peer_token_env c) (fun v => is_empty v || String.eqb v (gc_api_token_env c) || String.eqb v (gc_internal_token_env c)))
    else Errors.Config "peer token must have an independent environment reference";;
  _ <-? section (gc_node_routing c) (fun r => NodeRouting.validate url_parse url_origin build r (gc_region c));;
  _ <-? section (gc_client_auth c) (fun a =>
    _ <-? auth_validate a;;
    ensure (negb (List.existsb (fun name => String.eqb name (signing_key_env a) || String.eqb name (ad_password_env (auth_database a)))
                    ([gc_api_token_env c; gc_internal_token_env c] ++ some_list (gc_peer_token_env c))))
      (Errors.Config "client authorization secrets need independent environment references"));;
  _ <-? section (gc_asset_dispatch c) (AssetDispatch.validate url_parse url_str identity_to_vec sha256_hex);;
  _ <-? section (gc_logging c) (fun l => as_config "invalid application logging configuration" (log_validate net_parse header_name l));;
  _ <-? section (gc_tls c) (fun t => ensure (tls_validate t) (Errors.Config "invalid listener TLS configuration"));;
  _ <-? section (gc_access_log c) (fun l => as_config "invalid access log configuration" (AccessLog.validate net_parse header_name l));;
  _ <-? section (gc_master_database c) (fun d => db_worker_validate d c);;
  _ <-? section (gc_master_git c) (fun g => git_worker_validate g c);;
  _ <-? section (gc_master_notify c) (fun n => notify_validate n c);;
  _ <-? section (gc_master_sync c) (fun s =>
    _ <-? sync_validate s;;
    ensure (negb (is_some (gc_master_update c) || directory_absent (gc_master_directory c)))
      (Errors.Config "Master owner synchronization requires an output directory and excludes CDN updating"));;
  _ <-? section (gc_master_retention c) (fun keep =>
    ensure (negb (negb (retention_valid keep) || directory_absent (gc_master_directory c) || is_none (gc_master_update c) && is_none (gc_master_sync c)))
      (Errors.Config "Master retention requires master_directory, master_update or master_sync, and keep_snapshots 2..10000"));;
  _ <-? accounts_validate c;;
  _ <-? upstream_validate (gc_upstream c);;
  _ <-? ResponseCache.validate (gc_response_cache c);;
  guard? negb (bool_decide (gc_region c = Cn)) else Errors.Config "cn is reserved; no verified endpoint or protocol is available";;
  guard? negb (negb (master_supported (gc_region c)) && (is_some (gc_master_update c) || is_some (gc_master_directory c)))
    else Errors.Config "automatic Master storage is not available for this region";;
  _ <-? section (gc_master_update c) (fun u => update_validate u c);;
  _ <-? section (gc_resource_snapshot c) (fun s => snapshot_validate s c);;
  guard? forallb (known_here c) ([gc_endpoint c; gc_default_cdn_root c] ++ cdn_roots c)
    else Errors.Config "known service URL does not belong to configured region";;
  guard? negb (negb (https_root url_parse (gc_endpoint c)) || negb (cdn_root_ok url_parse (gc_default_cdn_root c))
               || List.existsb (fun k => negb (cdn_root_ok url_parse k)) (cdn_roots c))
    else Errors.Config "API endpoint must be an HTTPS origin and CDN roots must be safe HTTPS base URLs without a trailing slash";;
  guard? negb (is_empty (gc_environment c)) && all_bytes (fun b => is_ascii_alphanumeric b || char_is 45 b) (gc_environment c)
    else Errors.Config "invalid environment name";;
  guard? semver_ok (gc_client_version c) else Errors.Config "invalid client version";;
  guard? Bool.eqb (is_some (gc_player_id_env c)) (is_some (gc_player_credential_env c))
    else Errors.Config "both account environment references are required";;
  ensure (negb (bool_decide (gc_region c = Jp) && negb (contains_key (gc_default_cdn_root c) (gc_cdn_credential_env c))))
    (Errors.Config "default CDN must have a credential reference").

(** ** Lemmas *)
Lemma section_ok {A} (o : option A) check u : section o check = Ok u -> forall a, o = Some a -> check a = Ok u.
Proof. intros E a ->. exact E. Qed.
Lemma fail_guard {A} (b : bool) m (x : result AppError A) a : (if b then fail m else x) = Ok a -> b = false /\ x = Ok a.
Proof. by destruct b. Qed.
Lemma a_directory p : directory_absent p = false -> exists d, p = Some d /\ d <> ""%string.
Proof. destruct p as [d|]; [|done]. cbn. intros H. exists d. split; [done|]. intros ->. done. Qed.

(** An account of a Global region is named by an identity file, one of JP by a pair of
    references or a credentials file. *)
Definition account_shape (global : bool) (a : AccountConfig) : Prop :=
  if global
  then exists file, file <> ""%string /\ ac_global_identity_file a = Some file
       /\ ac_player_id_env a = None /\ ac_credential_env a = None /\ ac_credentials_file a = None
  else ac_global_identity_file a = None /\
       ((exists id key, id <> ""%string /\ key <> ""%string /\ ac_player_id_env a = Some id /\ ac_credential_env a = Some key /\ ac_credentials_file a = None)
        \/ exists file, file <> ""%string /\ ac_player_id_env a = None /\ ac_credential_env a = None /\ ac_credentials_file a = Some file).
Lemma not_empty s : negb (is_empty s) = true -> s <> ""%string.
Proof. by intros H ->. Qed.
Lemma account_ok_shape global a : account_ok global a = Ok tt -> account_shape global a.
Proof.
  unfold account_ok, account_shape.
  destruct a as [n id key file identity]. cbn [ac_player_id_env ac_credential_env ac_credentials_file ac_global_identity_file].
  destruct id as [id|], key as [key|], file as [file|], identity as [identity|]; try (destruct global; done).
  - destruct (_ && _) eqn:E; [|by destruct global]. intros _. rewrite !andb_true_iff in E. destruct E as [[H1%not_empty H2%not_empty] H3].
    destruct global; [done|]. split; [done|]. left. by exists id, key.
  - destruct (_ && _) eqn:E; [|by destruct global]. intros _. rewrite !andb_true_iff in E. destruct E as [H1%not_empty H3].
    destruct global; [done|]. split; [done|]. right. by exists file.
  - destruct (_ && _) eqn:E; [|by destruct global]. intros _. rewrite !andb_true_iff in E. destruct E as [H1%not_empty ->]. by exists identity.
Qed.
Lemma account_list_ok global l names : account_list global l names = Ok tt ->
  NoDup (map ac_name l) /\ Forall (account_shape global) l /\ forall a, In a l -> ac_name a ∉ names.
Proof.
  revert names. induction l as [|a l IH]; intros names; cbn [account_list map]; [intros _; split; [constructor|]; by split|].
  intros [Hn E]%fail_guard. apply orb_false_iff in Hn as [_ Hn]. apply bool_decide_eq_false in Hn. apply rbind_ok in E as ([] & Ha%account_ok_shape & E).
  destruct (IH _ E) as (H1 & H2 & H3). split; [|split].
  - constructor; [|done]. rewrite list_elem_of_In, in_map_iff. intros (b & Eb & Hb). apply (H3 b Hb). rewrite Eb. set_solver.
  - by constructor.
  - intros b [<-|Hb]; [done|]. specialize (H3 b Hb). set_solver.
Qed.
Lemma accounts_validate_ok c : accounts_validate c = Ok tt ->
  let global := String.eqb (family (gc_region c)) "global" in
  NoDup (map ac_name (gc_accounts c)) /\ Forall (account_shape global) (gc_accounts c) /\
  (global = true -> gc_player_id_env c = None /\ gc_player_credential_env c = None) /\
  (global = true -> gc_accounts c <> [] -> is_some (gc_global_login c) = true /\ gc_session_lock c = true).
Proof.
  unfold accounts_validate. cbv zeta. intros [_ E]%fail_guard. apply fail_guard in E as [_ E]. apply fail_guard in E as [Hs E].
  apply rbind_ok in E as ([] & Hl & E). apply rbind_ok in E as ([] & _ & E). destruct (account_list_ok _ _ _ Hl) as (H1 & H2 & _).
  split; [done|]. split; [done|]. split.
  - intros Hg. rewrite Hg in Hs. cbn [andb] in Hs. apply orb_false_iff in Hs as [Ha Hb]. by destruct (gc_player_id_env c), (gc_player_credential_env c).
  - intros Hg Hne. rewrite Hg in E. destruct (gc_accounts c); [done|]. cbn [negb andb] in E. by destruct (gc_global_login c), (gc_session_lock c).
Qed.

Definition has_directory (c : GameConfig) : Prop := exists directory, gc_master_directory c = Some directory /\ directory <> ""%string.
Lemma writers_have_directories c :
  (forall d, db_worker_validate d c = Ok tt -> has_directory c) /\ (forall g, git_worker_validate g c = Ok tt -> has_directory c) /\
  (forall n, notify_validate n c = Ok tt -> has_directory c) /\ (forall u, update_validate u c = Ok tt -> has_directory c).
Proof.
  split; [|split; [|split]].
  - intros d [H _]%fail_guard. rewrite !orb_false_iff in H. apply a_directory, H.
  - intros g E. unfold git_worker_validate in E. apply rbind_ok in E as ([] & _ & E). apply rbind_ok in E as ([] & _ & E). apply fail_guard in E as [H _].
    rewrite !orb_false_iff in H. destruct H as [[_ H] _]. unfold has_directory. destruct (gc_master_directory c) as [d|]; [|done].
    cbn in H. apply orb_false_iff in H as [H _]. exists d. split; [done|]. by intros ->.
  - intros n E. unfold notify_validate in E. destruct (_ || _) eqn:H; [done|]. apply orb_false_iff in H as [_ H]. by apply a_directory.
  - intros u E. unfold update_validate in E. apply rbind_ok in E as ([] & _ & E). apply rbind_ok in E as ([] & H%ensure_ok & _).
    apply negb_true_iff in H. rewrite !orb_false_iff in H. apply a_directory, H.
Qed.

(** What an accepted configuration may rely on.  Its region is an operational one;
    a URL of a known service names a service of that region and of no other; account
    names are distinct, and accounts authenticate the way their family does, Global ones
    with a login section and a session lock; owner synchronization and CDN updates
    exclude each other; whatever reads or writes Master snapshots has a directory; and
    JP has a credential for its CDN. *)
Theorem accepted_configuration c : config_validate c = Ok tt ->
  gc_region c <> Cn /\
  (forall value url r, In value ([gc_endpoint c; gc_default_cdn_root c] ++ cdn_roots c) -> url_parse value = Some url ->
    let host := match host_str url with Some h => h | None => ""%string end in
    expected_service host (path url) <> None -> matches_known_service r host (path url) = true -> r = gc_region c) /\
  (let global := String.eqb (family (gc_region c)) "global" in
   NoDup (map ac_name (gc_accounts c)) /\ Forall (account_shape global) (gc_accounts c) /\
   (global = true -> gc_player_id_env c = None /\ gc_player_credential_env c = None) /\
   (global = true -> gc_accounts c <> [] -> is_some (gc_global_login c) = true /\ gc_session_lock c = true)) /\
  (is_some (gc_master_sync c) && is_some (gc_master_update c) = false) /\
  (is_some (gc_master_sync c) || is_some (gc_master_update c) || is_some (gc_master_database c) || is_some (gc_master_git c)
   || is_some (gc_master_notify c) || is_some (gc_master_retention c) = true ->
   has_directory c) /\
  (gc_region c = Jp -> contains_key (gc_default_cdn_root c) (gc_cdn_credential_env c) = true).
Proof.
  unfold config_validate. intros E.
  do 7 apply rbind_ok in E as ([] & _ & E).
  apply rbind_ok in E as ([] & Hdb & E). apply rbind_ok in E as ([] & Hgit & E). apply rbind_ok in E as ([] & Hnotify & E).
  apply rbind_ok in E as ([] & Hsync & E). apply rbind_ok in E as ([] & Hret & E). apply rbind_ok in E as ([] & Hacc%accounts_validate_ok & E).
  apply rbind_ok in E as ([] & _ & E). apply rbind_ok in E as ([] & _ & E). apply rbind_ok in E as ([] & Hcn%ensure_ok & E).
  apply rbind_ok in E as ([] & _ & E). apply rbind_ok in E as ([] & Hup & E). apply rbind_ok in E as ([] & _ & E).
  apply rbind_ok in E as ([] & Hurl%ensure_ok & E). do 4 apply rbind_ok in E as ([] & _ & E). apply ensure_ok in E.
  apply negb_true_iff, bool_decide_eq_false in Hcn. split; [done|]. split.
  { intros value url r Hin Hparse Hk Hm. rewrite forallb_forall in Hurl. specialize (Hurl _ Hin). unfold known_here in Hurl. rewrite Hparse in Hurl.
    by eapply known_service_exclusive. }
  split; [exact Hacc|].
  assert (Hs : forall s, gc_master_sync c = Some s -> gc_master_update c = None /\ has_directory c).
  { intros s Es. pose proof (section_ok _ _ _ Hsync s Es) as Hs. cbn beta in Hs. apply rbind_ok in Hs as ([] & _ & Hs).
    apply ensure_ok, negb_true_iff, orb_false_iff in Hs as [H1 H2%a_directory]. by destruct (gc_master_update c). }
  split; [destruct (gc_master_sync c); [by destruct (Hs _ eq_refl) as [-> _]|done]|].
  split.
  - destruct (writers_have_directories c) as (Wd & Wg & Wn & Wu). rewrite !orb_true_iff. intros [[[[[H|H]|H]|H]|H]|H].
    + destruct (gc_master_sync c) as [s|]; [|done]. exact (proj2 (Hs s eq_refl)).
    + destruct (gc_master_update c) as [u|]; [|done]. by apply (Wu u).
    + destruct (gc_master_database c) as [d|]; [|done]. by apply (Wd d).
    + destruct (gc_master_git c) as [g|]; [|done]. by apply (Wg g).
    + destruct (gc_master_notify c) as [n|]; [|done]. by apply (Wn n).
    + destruct (gc_master_retention c) as [k|]; [|done]. cbn [section] in Hret. apply ensure_ok, negb_true_iff in Hret. rewrite !orb_false_iff in Hret.
      apply a_directory, Hret.
  - intros Hj. rewrite bool_decide_eq_true_2 in E by done. apply negb_true_iff in E. cbn [andb] in E. by apply negb_false_iff in E.
Qed.
End validation.
