(* ===== verification/Deployment.v ===== *)
(** A deployment of one or more regions ([deployment.rs]): the region map, what its
    validation demands, and the separation of credentials that [prepare] checks
    before anything starts ([validate_tokens] of [master_git_worker.rs] and
    [master_database_worker.rs] with it).

    The environment is a parameter, as are Base64, URLs and the decoding of a URL's
    password by the form parser of the [url] crate. *)
From Stdlib Require Import ZArith Lia Ascii String List Bool.
From stdpp Require Import base list strings decidable.
From S2P Require Import Prelude BTree ApplicationLog Errors Regions Http Environment AccessLog Accounts NodeRouting AssetDispatch MasterFiles MasterRegistry MasterUpdate Upstream MasterNotify GitConfig GameConfig.

Local Open Scope Z_scope.
Local Open Scope rust_scope.

(** * The region map *)

(** [region_map], with the note it takes of the alias. *)
Definition region_map {A} (regions : @bmap A) (a : Alias) : result string (@bmap A) * Alias :=
  match List.find (fun e => is_deprecated_alias (fst e)) regions with
  | None => (Ok regions, a)
  | Some (alias, config) =>
      if contains_key (region_name Hk) regions
      then (Err "configure the hk region once; its deprecated alias duplicates it"%string, a)
      else (Ok (insert (region_name Hk) config (remove alias regions)), note_deprecated_alias a)
  end.

Fixpoint distinct {A} (eqb : A -> A -> bool) (values : list A) : bool :=
  match values with [] => true | v :: vs => negb (List.existsb (eqb v) vs) && distinct eqb vs end.

Record MultiConfig : Type := mkMulti {
  m_logging : option LogConfig;
  m_listen : string;
  m_tls : option TlsConfig;
  m_access_log : option AccessLog.Config;
  m_http_compression : option bool;
  m_regions : @bmap GameConfig;
}.
Inductive DeploymentConfig : Type := Single (c : GameConfig) | Multi (m : MultiConfig).
Definition single (d : DeploymentConfig) : result AppError GameConfig :=
  match d with
  | Single c => Ok c
  | Multi _ => fail "Master commands require a single-region configuration"
  end.

Section validate.
Context (config_validate : GameConfig -> result AppError unit) (log_validate : LogConfig -> result AccessLog.Invalid unit)
  (access_log_validate : AccessLog.Config -> result AccessLog.Invalid unit).

(** [trim_end_matches('/')]. *)
Definition without_slashes (s : string) : string := trim_end_matches s "/".
Definition region_entry (e : string * GameConfig) : result AppError unit :=
  let '(name, c) := e in
  guard? String.eqb name (region_name (gc_region c)) else Errors.Config "region map key must equal the explicit region identity";;
  guard? negb (is_some (gc_listen c) || is_some (gc_tls c) || is_some (gc_access_log c) || is_some (gc_logging c) || is_some (gc_http_compression c))
    else Errors.Config "listen, tls, logging, access_log and http_compression belong at the deployment root, not inside regions";;
  config_validate c.
Definition state_directories (c : GameConfig) : list string :=
  some_list (gc_master_directory c) ++ match gc_master_git c with Some g => [gw_state_directory g] | None => [] end.
Definition git_remotes (c : GameConfig) : list string :=
  match gc_master_git c with
  | Some g => match gw_remote g with Some r => [without_slashes (remote_url r)] | None => [] end
  | None => []
  end.
Definition sdk_directories (cs : list GameConfig) : list (option string) := flat_map (fun c => map Accounts.state_directory (some_list (gc_global_login c))) cs.
Definition same_directory (a b : option string) : bool :=
  match a, b with Some a, Some b => path_eqb a b | None, None => true | _, _ => false end.
Fixpoint each {A} (check : A -> result AppError unit) (l : list A) : result AppError unit :=
  match l with [] => Ok tt | a :: l => _ <-? check a;; each check l end.
Definition multi_validate (m : MultiConfig) : result AppError unit :=
  _ <-? section (m_logging m) (fun l => as_config "invalid application logging configuration" (log_validate l));;
  _ <-? section (m_tls m) (fun t => ensure (tls_validate t) (Errors.Config "invalid listener TLS configuration"));;
  _ <-? section (m_access_log m) (fun l => as_config "invalid access log configuration" (access_log_validate l));;
  guard? in_range 1 4 (size (m_regions m)) else Errors.Config "configure one to four operational regions";;
  _ <-? each region_entry (m_regions m);;
  let configs := map snd (m_regions m) in
  guard? distinct path_eqb (flat_map state_directories configs) && distinct String.eqb (flat_map git_remotes configs)
    else Errors.Config "Master directories, Git state directories and Git remotes must be distinct per region";;
  ensure (match sdk_directories configs with [] => true | first :: others => forallb (fun d => same_directory d first) others end)
    (Errors.Config "global_login.state_directory must be the same in every region").
Definition deployment_validate (d : DeploymentConfig) : result AppError unit :=
  match d with Single c => config_validate c | Multi m => multi_validate m end.
End validate.
Definition deployment_configs (d : DeploymentConfig) : list GameConfig :=
  match d with Single c => [c] | Multi m => map snd (m_regions m) end.

(** * Credentials *)
Section credentials.
Context (env : string -> option string) (base64_decode : string -> option (list Z)) (url_parse : string -> option Url)
  (form_first : string -> option (string * string)) (db_options_ok : DbConfig -> bool).

(** The references of a configuration, by what they are for. *)
Definition account_env (c : GameConfig) : list string := flat_map (fun a => some_list (ac_credential_env a)) (gc_accounts c).
Definition updater_env (c : GameConfig) : list string := match gc_asset_dispatch c with Some d => map token_env (AssetDispatch.targets d) | None => [] end.
Definition node_env (c : GameConfig) : list string := match gc_node_routing c with Some r => map tc_token_env (NodeRouting.targets r) | None => [] end.
Definition notify_env (c : GameConfig) : list string := match gc_master_notify c with Some n => map ntc_token_env (nc_targets n) | None => [] end.
Definition sync_env (c : GameConfig) : option string := option_map sync_token (gc_master_sync c).
Definition git_remote (c : GameConfig) : option GitConfig.Remote := match gc_master_git c with Some g => gw_remote g | None => None end.
Definition git_authorization_env (c : GameConfig) : option string := match git_remote c with Some r => authorization_env r | None => None end.
Definition git_proxy_env (c : GameConfig) : option string := match git_remote c with Some r => proxy_url_env r | None => None end.
(** [cdn_credential_env], the player's and the accounts' references. *)
Definition game_env (c : GameConfig) : list string := map snd (gc_cdn_credential_env c) ++ some_list (gc_player_credential_env c) ++ account_env c.
Definition profile_of (c : GameConfig) : Profile :=
  mkProfile (gc_region c) (gc_api_token_env c) (gc_internal_token_env c) (gc_peer_token_env c) (gc_player_credential_env c)
    (map snd (gc_cdn_credential_env c)) (map ac_credential_env (gc_accounts c)) (sync_env c) (updater_env c) (node_env c)
    (Upstream.proxy_authorization_env (gc_upstream c))
    (option_map (fun u => (username_env u, key_hex_env u, iv_hex_env u, n_proxy_authorization_env (mu_network u))) (gc_master_update c))
    (notify_env c).

Definition set_to (token : string) (name : string) : bool := bool_decide (env name = Some token).
Definition any_set (names : GameConfig -> list string) (configs : list GameConfig) (token : string) : bool :=
  List.existsb (fun c => List.existsb (set_to token) (names c)) configs.
Definition tokens_of (c : GameConfig) : result AppError (string * string) :=
  public <-? secret env (gc_api_token_env c);;
  internal <-? secret env (gc_internal_token_env c);;
  guard? negb (all_whitespace public || all_whitespace internal) else Errors.Config "tokens must not be blank";;
  Ok (public, internal).
Definition peer_token_of (c : GameConfig) : result AppError (option string) :=
  match gc_peer_token_env c with Some name => rmap Some (secret env name) | None => Ok None end.

Section tokens.
Context (configs : list GameConfig) (tokens : list (string * string)) (peers : list (option string)).
Definition an_api_token (t : string) : bool := List.existsb (fun x => String.eqb t (fst x) || String.eqb t (snd x)) tokens.
Definition a_peer_token (t : string) : bool := List.existsb (fun p => bool_decide (p = Some t)) peers.

Definition peer_ok (x : nat * option string) : result AppError unit :=
  match snd x with
  | None => Ok tt
  | Some token =>
      ensure (negb (any_byte is_ascii_whitespace token || an_api_token token
                    || List.existsb (fun y => negb (Nat.eqb (fst y) (fst x)) && bool_decide (snd y = Some token)) (combine (seq 0 (length peers)) peers)
                    || any_set game_env configs token))
        (Errors.Config "peer tokens must be region-scoped and distinct from API/internal/game/CDN credentials")
  end.
Definition updater_ok (name : string) : result AppError unit :=
  token <-? secret env name;;
  ensure (negb (a_peer_token token || an_api_token token || any_set (fun c => map snd (gc_cdn_credential_env c)) configs token))
    (Errors.Config "asset updater token must be distinct from API/internal/CDN credentials").
Definition outgoing_ok (r : Region) (outgoing : list (Region * string)) (token : string) : bool :=
  negb (an_api_token token
        || List.existsb (fun x => negb (bool_decide (gc_region (fst x) = r)) && bool_decide (snd x = Some token)) (combine configs peers)
        || List.existsb (fun o => negb (bool_decide (fst o = r)) && String.eqb (snd o) token) outgoing
        || any_set (fun c => game_env c ++ updater_env c) configs token).
Fixpoint outgoing_of (r : Region) (names : list string) (outgoing : list (Region * string)) : result AppError (list (Region * string)) :=
  match names with
  | [] => Ok outgoing
  | name :: names =>
      token <-? secret env name;;
      guard? outgoing_ok r outgoing token
        else Errors.Config "outgoing peer tokens must be region scoped and distinct from administrative/game/CDN/updater credentials";;
      outgoing_of r names (outgoing ++ [(r, token)])
  end.
Fixpoint all_outgoing (cs : list GameConfig) (outgoing : list (Region * string)) : result AppError (list (Region * string)) :=
  match cs with
  | [] => Ok outgoing
  | c :: cs => outgoing <-? outgoing_of (gc_region c) (node_env c) outgoing;; all_outgoing cs outgoing
  end.
Definition sync_ok (outgoing : list (Region * string)) (name : string) : result AppError unit :=
  token <-? secret env name;;
  ensure (negb (List.existsb (fun x => String.eqb token (snd x)) tokens || a_peer_token token
                || List.existsb (fun o => String.eqb (snd o) token) outgoing
                || any_set (fun c => game_env c ++ updater_env c) configs token))
    (Errors.Config "Master owner read token must be distinct from administrative/peer/game/CDN/updater credentials").
End tokens.

(** [validate_tokens] of the Git worker. *)
Fixpoint secrets (names : list string) : result AppError (list string) :=
  match names with [] => Ok [] | n :: names => v <-? secret env n;; vs <-? secrets names;; Ok (v :: vs) end.
Definition GIT_SHARED : AppError := Errors.Config "Master Git credentials must be distinct from all other service scopes".
Fixpoint git_scopes (protected : list string) (cs : list GameConfig) (seen : list (Region * list string)) : result AppError unit :=
  match cs with
  | [] => Ok tt
  | c :: cs =>
      match git_authorization_env c with
      | None => git_scopes protected cs seen
      | Some name =>
          value <-? secret env name;;
          parts <-? credential_parts base64_decode value;;
          guard? negb (List.existsb (fun p => mem p protected) parts
                       || List.existsb (fun s => negb (bool_decide (fst s = gc_region c)) && List.existsb (fun p => mem p (snd s)) parts) seen)
            else GIT_SHARED;;
          git_scopes protected cs (seen ++ [(gc_region c, parts)])
      end
  end.
Definition git_tokens (configs : list GameConfig) : result AppError unit :=
  notify <-? secrets (flat_map notify_env configs);;
  git_scopes (protected_tokens env (map profile_of configs) ++ notify) configs [].

(** [validate_tokens] of the database worker. *)
Definition git_parts (c : GameConfig) : result AppError (list string) :=
  match git_authorization_env c with
  | Some name => value <-? secret env name;; credential_parts base64_decode value
  | None => Ok []
  end.
(** The text with every byte [b] replaced. *)
Fixpoint replace_byte (b : Z) (by_text s : string) : string :=
  match s with
  | EmptyString => ""
  | String c s => (if char_is b c then by_text else String c "") ++ replace_byte b by_text s
  end%string.
(** The password as a form value, with [+] and [&] escaped, which [form_first], the
    first pair of a parsed form, decodes. *)
Definition form_password (password : string) : string :=
  ("password=" ++ replace_byte 38 "%26" (replace_byte 43 "%2B" password))%string.
Definition invalid_git_proxy : AppError := Errors.Config "invalid Git proxy configuration".
Definition proxy_password (c : GameConfig) : result AppError (list string) :=
  match git_proxy_env c with
  | None => Ok []
  | Some name =>
      value <-? secret env name;;
      url <-? ok_or (url_parse value) invalid_git_proxy;;
      match password url with
      | None => Ok []
      | Some p => decoded <-? ok_or (form_first (form_password p)) invalid_git_proxy;; Ok [snd decoded]
      end
  end.
Fixpoint other_scopes (cs : list GameConfig) : result AppError (list string) :=
  match cs with
  | [] => Ok []
  | c :: cs =>
      notify <-? secrets (notify_env c);;
      git <-? git_parts c;;
      proxy <-? proxy_password c;;
      rest <-? other_scopes cs;;
      Ok (notify ++ git ++ proxy ++ rest)
  end.
(** What a value may carry as an authorization header. *)
Definition carried (value : string) : list string :=
  let header := if starts_with value "Authorization: " then value else ("Authorization: " ++ value)%string in
  match credential_parts base64_decode header with Ok parts => parts | Err _ => [] end.
Definition database_ok (protected : list string) (c : GameConfig) : result AppError unit :=
  match gc_master_database c with
  | None => Ok tt
  | Some d =>
      guard? db_options_ok (dw_connection d) else Errors.Config "Master database credentials or transport configuration unavailable";;
      password <-? secret env (db_password_env (dw_connection d));;
      ensure (negb (mem password protected))
        (Errors.Config "Master database password must be distinct from API/game/CDN/peer/notification/Git credentials")
  end.
Definition database_tokens (configs : list GameConfig) : result AppError unit :=
  others <-? other_scopes configs;;
  let protected := protected_tokens env (map profile_of configs) ++ others in
  each (database_ok (protected ++ flat_map carried protected)) configs.

Fixpoint collect {A B} (f : A -> result AppError B) (l : list A) : result AppError (list B) :=
  match l with [] => Ok [] | a :: l => b <-? f a;; bs <-? collect f l;; Ok (b :: bs) end.
(** The checks of [prepare], in order; what it goes on with are the tokens. *)
Definition check_credentials (configs : list GameConfig) : result AppError (list (string * string) * list (option string)) :=
  tokens <-? collect tokens_of configs;;
  guard? negb (List.existsb (fun x => List.existsb (fun y => String.eqb (fst x) (snd y)) tokens) tokens)
    else Errors.Config "API and internal tokens must be distinct across all regions";;
  peers <-? collect peer_token_of configs;;
  _ <-? each (peer_ok configs tokens peers) (combine (seq 0 (length peers)) peers);;
  _ <-? each (updater_ok configs tokens peers) (flat_map updater_env configs);;
  outgoing <-? all_outgoing configs tokens peers configs [];;
  _ <-? each (sync_ok configs tokens peers outgoing) (flat_map (fun c => some_list (sync_env c)) configs);;
  _ <-? validate_tokens env (map profile_of configs);;
  _ <-? git_tokens configs;;
  _ <-? database_tokens configs;;
  Ok (tokens, peers).
End credentials.

(** * Who holds a value *)
Inductive Role : Type := RApi | RInternal | RPeer | RPlayer | RCdn | RUpdater | RNode | RSync | RNotify | RUpstream | RGit | RGitProxy | RDatabase.

Section roles.
Context (env : string -> option string) (base64_decode : string -> option (list Z)) (url_parse : string -> option Url)
  (form_first : string -> option (string * string)) (db_options_ok : DbConfig -> bool).

(** The references whose values a configuration uses in a role: game credentials are
    those of players, upstream ones those of proxies and of the Master updater. *)
Definition role_env (r : Role) (c : GameConfig) : list string :=
  match r with
  | RApi => [gc_api_token_env c]
  | RInternal => [gc_internal_token_env c]
  | RPeer => some_list (gc_peer_token_env c)
  | RPlayer => some_list (gc_player_credential_env c) ++ account_env c
  | RCdn => map snd (gc_cdn_credential_env c)
  | RUpdater => updater_env c
  | RNode => node_env c
  | RSync => some_list (sync_env c)
  | RNotify => notify_env c
  | RUpstream =>
      some_list (Upstream.proxy_authorization_env (gc_upstream c))
      ++ match gc_master_update c with
         | Some u => some_list (username_env u) ++ [key_hex_env u; iv_hex_env u] ++ some_list (n_proxy_authorization_env (mu_network u))
         | None => []
         end
  | RDatabase => match gc_master_database c with Some d => [db_password_env (dw_connection d)] | None => [] end
  | RGit | RGitProxy => []
  end.
Definition holds (c : GameConfig) (r : Role) (v : string) : Prop :=
  match r with
  | RGit => exists parts, git_parts env base64_decode c = Ok parts /\ In v parts
  | RGitProxy => exists passwords, proxy_password env url_parse form_first c = Ok passwords /\ In v passwords
  | _ => exists n, In n (role_env r c) /\ env n = Some v
  end.

Definition protected_roles : list Role := [RApi; RInternal; RPeer; RPlayer; RCdn; RSync; RUpdater; RNode; RUpstream].
(** The roles in which no region may use a value of a role, and those in which no
    other region may. *)
Definition apart (r : Role) : list Role :=
  match r with
  | RInternal => [RApi]
  | RPeer => [RApi; RInternal; RPlayer; RCdn]
  | RUpdater => [RApi; RInternal; RPeer; RCdn]
  | RNode => [RApi; RInternal; RPlayer; RCdn; RUpdater]
  | RSync => [RInternal; RPeer; RNode; RPlayer; RCdn; RUpdater]
  | RNotify => protected_roles
  | RGit => protected_roles ++ [RNotify]
  | RDatabase => protected_roles ++ [RNotify; RGit; RGitProxy]
  | RApi | RPlayer | RCdn | RUpstream | RGitProxy => []
  end.
Definition regional (r : Role) : list Role :=
  match r with RPeer => [RPeer] | RNode => [RPeer; RNode] | RNotify => [RNotify] | RGit => [RGit] | _ => [] end.

(** ** Lemmas *)
Lemma secret_env n v : secret env n = Ok v -> env n = Some v.
Proof. unfold secret. destruct (env n) as [x|]; [|done]. destruct (_ || _); [done|]. by intros [= ->]. Qed.
Lemma secret_value n v v' : secret env n = Ok v -> env n = Some v' -> v = v'.
Proof. intros H1%secret_env H2. congruence. Qed.
Lemma each_ok {A} (f : A -> result AppError unit) l u : each f l = Ok u -> forall a, In a l -> f a = Ok tt.
Proof.
  induction l as [|a l IH]; cbn [each]; [done|]. intros E. apply rbind_ok in E as ([] & E1 & E). intros b [<-|Hb]; [done|by apply IH].
Qed.
Lemma collect_ok {A B} (f : A -> result AppError B) l r : collect f l = Ok r -> Forall2 (fun a b => f a = Ok b) l r.
Proof.
  revert r. induction l as [|a l IH]; intros r; cbn [collect]; [intros [= <-]; constructor|].
  intros E. apply rbind_ok in E as (b & E1 & E). apply rbind_ok in E as (bs & E2 & [= <-]). constructor; [done|by apply IH].
Qed.
Lemma any_set_false names configs t : any_set env names configs t = false -> forall c n, In c configs -> In n (names c) -> env n <> Some t.
Proof.
  unfold any_set. intros E c n Hc Hn Hv. apply Bool.not_true_iff_false in E. apply E. apply existsb_exists. exists c. split; [done|].
  apply existsb_exists. exists n. split; [done|]. unfold set_to. by rewrite bool_decide_eq_true.
Qed.
Lemma protected_name c r v : In r protected_roles -> holds c r v -> exists n, In n (credential_names (profile_of c)) /\ env n = Some v.
Proof.
  intros Hr Hv. unfold credential_names, profile_of. cbn [api_token_env internal_token_env peer_token_env player_credential_env MasterNotify.cdn_credential_env account_credential_env
      sync_token_env dispatch_token_env node_token_env MasterNotify.proxy_authorization_env update_env].
    assert (Ha : forall n, In n (account_env c) -> In n (flat_map some_list (map ac_credential_env (gc_accounts c)))).
    { intros n. unfold account_env. rewrite !in_flat_map. intros (a & Ha & Hn). exists (ac_credential_env a). split; [by apply in_map|done]. }
    destruct Hr as [<-|[<-|[<-|[<-|[<-|[<-|[<-|[<-|[<-|[]]]]]]]]]]; destruct Hv as (n & Hn & Hv); exists n; (split; [|done]); cbn [role_env] in Hn;
      rewrite !in_app_iff.
    - left. destruct Hn as [<-|[]]. by left.
    - left. destruct Hn as [<-|[]]. right. by left.
    - auto.
    - apply in_app_iff in Hn as [Hn|Hn]; auto 8.
    - auto 8.
    - auto 12.
    - auto 12.
    - auto 12.
    - apply in_app_iff in Hn as [Hn|Hn]; [auto 12|]. destruct (gc_master_update c) as [u|]; [|done]. cbn [option_map]. rewrite !in_app_iff in *. auto 14.
Qed.
Lemma protected_holds configs c r v : In c configs -> In r protected_roles -> holds c r v -> In v (protected_tokens env (map profile_of configs)).
Proof.
  intros Hc Hr Hv. destruct (protected_name c r v Hr Hv) as (n & Hn & Hv'). unfold protected_tokens. apply in_flat_map. exists (profile_of c). split; [by apply in_map|].
  apply in_flat_map. exists n. split; [done|]. rewrite Hv'. by left.
Qed.

Lemma game_in d m : In m (role_env RPlayer d) \/ In m (role_env RCdn d) -> In m (game_env d).
Proof. unfold game_env. cbn [role_env]. rewrite !in_app_iff. tauto. Qed.
Lemma Forall2_nth {A B} (P : A -> B -> Prop) l k a :
  Forall2 P l k -> In a l -> exists i b, nth_error l i = Some a /\ nth_error k i = Some b /\ P a b.
Proof.
  induction 1 as [|x y l k Hxy _ IH]; [done|]. intros [->|Ha]; [by exists O, y|]. destruct (IH Ha) as (i & b & H). by exists (S i), b.
Qed.
Section tokens_facts.
Context (configs : list GameConfig) (tokens : list (string * string)) (peers : list (option string)).
Hypothesis Htokens : Forall2 (fun c x => tokens_of env c = Ok x) configs tokens.
Hypothesis Hpeers : Forall2 (fun c x => peer_token_of env c = Ok x) configs peers.

Lemma token_in c v : In c configs -> (holds c RApi v -> exists x, In x tokens /\ fst x = v) /\ (holds c RInternal v -> exists x, In x tokens /\ snd x = v).
Proof.
  intros Hc. assert (exists x, In x tokens /\ tokens_of env c = Ok x) as (x & Hx & E).
  { destruct (Forall2_nth _ _ _ _ Htokens Hc) as (i & x & _ & Hx & E). exists x. split; [by eapply nth_error_In|done]. }
  unfold tokens_of in E. apply rbind_ok in E as (p & E1 & E). apply rbind_ok in E as (i & E2 & E). apply rbind_ok in E as (u & _ & E). injection E as <-.
  split; intros (n & [<-|[]] & Hv); exists (p, i); (split; [done|]); cbn; by eapply secret_value.
Qed.
Lemma peer_in c v : In c configs -> holds c RPeer v -> exists i, nth_error configs i = Some c /\ nth_error peers i = Some (Some v).
Proof.
  intros Hc (n & Hn & Hv). destruct (Forall2_nth _ _ _ _ Hpeers Hc) as (i & x & Hi & Hx & E). exists i. split; [done|]. rewrite Hx. f_equal.
  unfold peer_token_of in E. cbn [role_env] in Hn. destruct (gc_peer_token_env c) as [m|]; [|done].
  destruct Hn as [->|[]]. destruct (secret env n) as [w|] eqn:Es; [|done]. injection E as <-. f_equal. by eapply secret_value.
Qed.
Lemma not_api t c v : an_api_token tokens t = false -> In c configs -> holds c RApi v \/ holds c RInternal v -> v <> t.
Proof.
  intros E Hc Hh ->. apply Bool.not_true_iff_false in E. apply E. apply existsb_exists. destruct (token_in c t Hc) as [H1 H2].
  destruct Hh as [Hh|Hh]; [destruct (H1 Hh) as (x & Hx & <-)|destruct (H2 Hh) as (x & Hx & <-)]; exists x; (split; [done|]); apply orb_true_iff; rewrite !String.eqb_eq; auto.
Qed.
Lemma not_peer t c v : a_peer_token peers t = false -> In c configs -> holds c RPeer v -> v <> t.
Proof.
  intros E Hc Hh ->. destruct (peer_in c t Hc Hh) as (i & _ & Hi). apply Bool.not_true_iff_false in E. apply E. apply existsb_exists. exists (Some t).
  split; [by eapply nth_error_In|by apply bool_decide_eq_true].
Qed.
Lemma nth_combine {A} (l : list A) i a : nth_error l i = Some a -> In (i, a) (combine (seq 0 (length l)) l).
Proof.
  intros Hi. change i with (0 + i)%nat at 1. generalize 0%nat as k. revert i Hi. induction l as [|b l IH]; intros [|i] Hi k; try done; cbn in *.
  - injection Hi as ->. left. f_equal. lia.
  - right. replace (k + S i)%nat with (S k + i)%nat by lia. by apply IH.
Qed.

Lemma peer_apart c d v : each (peer_ok env configs tokens peers) (combine (seq 0 (length peers)) peers) = Ok tt -> In c configs -> In d configs ->
  holds c RPeer v ->
  (forall s, In s (apart RPeer) -> ~ holds d s v) /\ (holds d RPeer v -> gc_region c = gc_region d).
Proof.
  intros He Hc Hd Hv. destruct (peer_in c v Hc Hv) as (i & Hi & Hp). pose proof (each_ok _ _ _ He _ (nth_combine _ _ _ Hp)) as Hok.
  unfold peer_ok in Hok. cbn [fst snd] in Hok. apply ensure_ok, negb_true_iff in Hok. rewrite !orb_false_iff in Hok. destruct Hok as [[[_ Ha] Ho] Hg].
  pose proof (any_set_false _ _ _ Hg) as Hset. split.
  - intros s [<-|[<-|[<-|[<-|[]]]]] Hh.
    + by apply (not_api v d v Ha Hd (or_introl Hh)).
    + by apply (not_api v d v Ha Hd (or_intror Hh)).
    + destruct Hh as (n & Hn & Hv'). apply (Hset d n Hd); [|done]. apply game_in. by left.
    + destruct Hh as (n & Hn & Hv'). apply (Hset d n Hd); [|done]. apply game_in. by right.
  - intros Hh. destruct (peer_in d v Hd Hh) as (j & Hj & Hpj). destruct (decide (i = j)) as [<-|Hne]; [by rewrite Hi in Hj; injection Hj as <-|].
    exfalso. apply Bool.not_true_iff_false in Ho. apply Ho. apply existsb_exists. exists (j, Some v). split; [by apply nth_combine|]. cbn [fst snd].
    rewrite bool_decide_eq_true_2 by done. rewrite andb_true_r. apply negb_true_iff, Nat.eqb_neq. auto.
Qed.
Lemma updater_apart c d v : each (updater_ok env configs tokens peers) (flat_map updater_env configs) = Ok tt -> In c configs -> In d configs ->
  holds c RUpdater v -> forall s, In s (apart RUpdater) -> ~ holds d s v.
Proof.
  intros He Hc Hd (n & Hn & Hv). assert (Hin : In n (flat_map updater_env configs)) by (apply in_flat_map; by exists c).
  pose proof (each_ok _ _ _ He _ Hin) as Hok. unfold updater_ok in Hok. apply rbind_ok in Hok as (t & Ht & Hok).
  pose proof (secret_value _ _ _ Ht Hv) as ->. apply ensure_ok, negb_true_iff in Hok. rewrite !orb_false_iff in Hok. destruct Hok as [[Hp Ha] Hg].
  intros s [<-|[<-|[<-|[<-|[]]]]] Hh.
  - by apply (not_api v d v Ha Hd (or_introl Hh)).
  - by apply (not_api v d v Ha Hd (or_intror Hh)).
  - by apply (not_peer v d v Hp Hd Hh).
  - destruct Hh as (m & Hm & Hv'). by apply (any_set_false _ _ _ Hg d m Hd).
Qed.

(** ** Outgoing tokens *)
Definition consistent {A B} (l : list (A * B)) : Prop := forall p q, In p l -> In q l -> snd p = snd q -> fst p = fst q.
Lemma outgoing_of_facts r names outgoing outgoing' :
  outgoing_of env configs tokens peers r names outgoing = Ok outgoing' -> consistent outgoing ->
  consistent outgoing' /\ (forall o, In o outgoing -> In o outgoing') /\
  forall n, In n names -> exists t before, secret env n = Ok t /\ In (r, t) outgoing' /\ outgoing_ok env configs tokens peers r before t = true.
Proof.
  revert outgoing. induction names as [|n names IH]; intros outgoing; cbn [outgoing_of]; [intros [= <-] Hc; by repeat split|].
  intros E Hc. apply rbind_ok in E as (t & Ht & E). apply rbind_ok in E as ([] & Hok & E). apply ensure_ok in Hok.
  destruct (IH _ E) as (H1 & H2 & H3).
  - pose proof Hok as Hok'. unfold outgoing_ok in Hok'. apply negb_true_iff in Hok'. rewrite !orb_false_iff in Hok'. destruct Hok' as [[_ Ho] _].
    assert (Hnew : forall q, In q outgoing -> snd q = t -> fst q = r).
    { intros q Hq Eq. destruct (decide (fst q = r)) as [|Hne]; [done|]. exfalso. apply Bool.not_true_iff_false in Ho. apply Ho. apply existsb_exists.
      exists q. split; [done|]. rewrite bool_decide_eq_false_2 by done. cbn. by apply String.eqb_eq. }
    intros p q Hp Hq Epq. apply in_app_iff in Hp, Hq. destruct Hp as [Hp|[<-|[]]], Hq as [Hq|[<-|[]]]; cbn [fst snd] in *; auto. symmetry. auto.
  - split; [done|]. split; [intros o Ho; apply H2, in_or_app; by left|]. intros m [<-|Hm]; [|by apply H3]. exists t, outgoing.
    split; [done|]. split; [apply H2, in_or_app; right; by left|done].
Qed.
Lemma all_outgoing_facts cs outgoing outgoing' :
  all_outgoing env configs tokens peers cs outgoing = Ok outgoing' -> consistent outgoing ->
  consistent outgoing' /\ (forall o, In o outgoing -> In o outgoing') /\
  forall c n, In c cs -> In n (node_env c) -> exists t before, secret env n = Ok t /\ In (gc_region c, t) outgoing' /\
    outgoing_ok env configs tokens peers (gc_region c) before t = true.
Proof.
  revert outgoing. induction cs as [|c cs IH]; intros outgoing; cbn [all_outgoing]; [intros [= <-] Hc; by repeat split|].
  intros E Hc. apply rbind_ok in E as (mid & E1 & E). destruct (outgoing_of_facts _ _ _ _ E1 Hc) as (H1 & H2 & H3). destruct (IH _ E H1) as (G1 & G2 & G3).
  split; [done|]. split; [auto|]. intros d n [<-|Hd] Hn; [|by apply G3]. destruct (H3 n Hn) as (t & before & F1 & F2 & F3). exists t, before. auto.
Qed.
Lemma node_apart outgoing c d v : all_outgoing env configs tokens peers configs [] = Ok outgoing -> In c configs -> In d configs ->
  holds c RNode v ->
  (forall s, In s (apart RNode) -> ~ holds d s v) /\ (forall s, In s (regional RNode) -> holds d s v -> gc_region c = gc_region d).
Proof.
  intros He Hc Hd (n & Hn & Hv). destruct (all_outgoing_facts _ _ _ He) as (H1 & _ & H3); [intros p q []|].
  destruct (H3 c n Hc Hn) as (t & before & Ht & Hin & Hok). pose proof (secret_value _ _ _ Ht Hv) as ->.
  unfold outgoing_ok in Hok. apply negb_true_iff in Hok. rewrite !orb_false_iff in Hok. destruct Hok as [[[Ha Hp] _] Hg]. pose proof (any_set_false _ _ _ Hg) as Hset. split.
  - intros s [<-|[<-|[<-|[<-|[<-|[]]]]]] Hh.
    + by apply (not_api v d v Ha Hd (or_introl Hh)).
    + by apply (not_api v d v Ha Hd (or_intror Hh)).
    + destruct Hh as (m & Hm & Hv'). apply (Hset d m Hd); [|done]. apply in_app_iff. left. apply game_in. auto.
    + destruct Hh as (m & Hm & Hv'). apply (Hset d m Hd); [|done]. apply in_app_iff. left. apply game_in. auto.
    + destruct Hh as (m & Hm & Hv'). apply (Hset d m Hd); [|done]. apply in_app_iff. by right.
  - intros s [<-|[<-|[]]] Hh.
    + destruct (peer_in d v Hd Hh) as (i & Hi & Hpi). destruct (decide (gc_region d = gc_region c)) as [|Hne]; [done|]. exfalso.
      apply Bool.not_true_iff_false in Hp. apply Hp. apply existsb_exists. exists (d, Some v). split.
      * apply nth_error_In with i. clear -Hi Hpi. revert i peers Hi Hpi. induction configs as [|e l IH]; intros [|i] [|p ps] Hi Hpi; try done; cbn in *; [congruence|by apply IH].
      * cbn [fst snd]. by rewrite bool_decide_eq_false_2, bool_decide_eq_true_2.
    + destruct Hh as (m & Hm & Hv'). destruct (H3 d m Hd Hm) as (t & before' & Ht' & Hin' & _). pose proof (secret_value _ _ _ Ht' Hv') as ->.
      exact (H1 _ _ Hin Hin' eq_refl).
Qed.
Lemma sync_apart outgoing c d v : all_outgoing env configs tokens peers configs [] = Ok outgoing ->
  each (sync_ok env configs tokens peers outgoing) (flat_map (fun c => some_list (sync_env c)) configs) = Ok tt -> In c configs -> In d configs ->
  holds c RSync v -> forall s, In s (apart RSync) -> ~ holds d s v.
Proof.
  intros Ho He Hc Hd (n & Hn & Hv). assert (Hin : In n (flat_map (fun c => some_list (sync_env c)) configs)) by (apply in_flat_map; by exists c).
  pose proof (each_ok _ _ _ He _ Hin) as Hok. unfold sync_ok in Hok. apply rbind_ok in Hok as (t & Ht & Hok).
  pose proof (secret_value _ _ _ Ht Hv) as ->. apply ensure_ok, negb_true_iff in Hok. rewrite !orb_false_iff in Hok. destruct Hok as [[[Hi Hp] Hn'] Hg].
  pose proof (any_set_false _ _ _ Hg) as Hset. intros s [<-|[<-|[<-|[<-|[<-|[<-|[]]]]]]] Hh.
  - destruct (token_in d v Hd) as [_ F]. destruct (F Hh) as (x & Hx & <-). apply Bool.not_true_iff_false in Hi. apply Hi. apply existsb_exists.
    exists x. split; [done|]. apply String.eqb_refl.
  - by apply (not_peer v d v Hp Hd Hh).
  - destruct Hh as (m & Hm & Hv'). destruct (all_outgoing_facts _ _ _ Ho) as (_ & _ & H3); [intros p q []|].
    destruct (H3 d m Hd Hm) as (t & before & Ht' & Hin' & _). pose proof (secret_value _ _ _ Ht' Hv') as ->.
    apply Bool.not_true_iff_false in Hn'. apply Hn'. apply existsb_exists. exists (gc_region d, v). split; [done|]. apply String.eqb_refl.
  - destruct Hh as (m & Hm & Hv'). apply (Hset d m Hd); [|done]. apply in_app_iff. left. apply game_in. auto.
  - destruct Hh as (m & Hm & Hv'). apply (Hset d m Hd); [|done]. apply in_app_iff. left. apply game_in. auto.
  - destruct Hh as (m & Hm & Hv'). apply (Hset d m Hd); [|done]. apply in_app_iff. by right.
Qed.
End tokens_facts.

(** ** The workers' checks *)
Lemma notify_apart configs c d v : validate_tokens env (map profile_of configs) = Ok tt -> In c configs -> In d configs -> holds c RNotify v ->
  (forall s, In s (apart RNotify) -> ~ holds d s v) /\ (holds d RNotify v -> gc_region c = gc_region d).
Proof.
  intros Hval Hc Hd (n & Hn & Hv). destruct (notification_tokens_are_apart env _ Hval (profile_of c) n) as (t & Ht & H1 & H2); [by apply in_map|done|].
  pose proof (secret_value _ _ _ Ht Hv) as ->. split.
  - intros s Hs Hh. destruct (protected_name d s v Hs Hh) as (m & Hm & Hv'). by apply (H1 (profile_of d) m (in_map _ _ _ Hd) Hm).
  - intros (m & Hm & Hv'). symmetry. apply (H2 (profile_of d) m); [by apply in_map|done|].
    destruct (notification_tokens_are_apart env _ Hval (profile_of d) m) as (t' & Ht' & _); [by apply in_map|done|].
    rewrite Ht'. f_equal. by eapply secret_value.
Qed.

Lemma secrets_in names vs n v : secrets env names = Ok vs -> In n names -> env n = Some v -> In v vs.
Proof.
  revert vs. induction names as [|m names IH]; intros vs; cbn [secrets]; [done|]. intros E. apply rbind_ok in E as (x & Hx & E).
  apply rbind_ok in E as (xs & Hxs & [= <-]). intros [->|Hn] Hv; [left; by eapply secret_value|right; by eapply IH].
Qed.
Lemma git_scopes_facts protected cs seen :
  git_scopes env base64_decode protected cs seen = Ok tt ->
  forall c parts p, In c cs -> git_parts env base64_decode c = Ok parts -> In p parts ->
    ~ In p protected /\ (forall s, In s seen -> In p (snd s) -> fst s = gc_region c) /\
    (forall d parts', In d cs -> git_parts env base64_decode d = Ok parts' -> In p parts' -> gc_region c = gc_region d).
Proof.
  revert seen. induction cs as [|e cs IH]; intros seen; cbn [git_scopes]; [done|]. intros E. destruct (git_authorization_env e) as [name|] eqn:En.
  2: { intros c parts p [<-|Hc] Hparts Hp; [unfold git_parts in Hparts; rewrite En in Hparts; injection Hparts as <-; done|].
       destruct (IH _ E c parts p Hc Hparts Hp) as (H1 & H2 & H3). split; [done|]. split; [done|]. intros d parts' [<-|Hd] Hparts' Hp'; [|by eapply H3].
       unfold git_parts in Hparts'. rewrite En in Hparts'. by injection Hparts' as <-. }
  apply rbind_ok in E as (value & Hv & E). apply rbind_ok in E as (parts_e & Hpe & E). apply rbind_ok in E as ([] & Hok & E). apply ensure_ok, negb_true_iff in Hok.
  apply orb_false_iff in Hok as [Hprot Hseen].
  assert (Hgp : git_parts env base64_decode e = Ok parts_e) by (unfold git_parts; rewrite En, Hv; exact Hpe).
  assert (He : forall p, In p parts_e -> ~ In p protected /\ forall s, In s seen -> In p (snd s) -> fst s = gc_region e).
  { intros p Hp. split.
    - intros Hin. apply Bool.not_true_iff_false in Hprot. apply Hprot. apply existsb_exists. exists p. split; [done|by apply mem_spec].
    - intros s Hs Hin. destruct (decide (fst s = gc_region e)) as [|Hne]; [done|]. exfalso. apply Bool.not_true_iff_false in Hseen. apply Hseen.
      apply existsb_exists. exists s. split; [done|]. rewrite bool_decide_eq_false_2 by done. apply existsb_exists. exists p. split; [done|by apply mem_spec]. }
  assert (Hlater : forall c parts p, In c cs -> git_parts env base64_decode c = Ok parts -> In p parts -> In p parts_e -> gc_region e = gc_region c).
  { intros c parts p Hc Hparts Hp Hpe'. destruct (IH _ E c parts p Hc Hparts Hp) as (_ & H2 & _). apply (H2 (gc_region e, parts_e)); [apply in_or_app; right; by left|done]. }
  intros c parts p [<-|Hc] Hparts Hp.
  - rewrite Hgp in Hparts. injection Hparts as <-. destruct (He p Hp) as [H1 H2]. split; [done|]. split; [done|].
    intros d parts' [<-|Hd] Hparts' Hp'; [done|]. by eapply Hlater.
  - destruct (IH _ E c parts p Hc Hparts Hp) as (H1 & H2 & H3). split; [done|]. split; [intros s Hs; apply H2, in_or_app; by left|].
    intros d parts' [<-|Hd] Hparts' Hp'; [|by eapply H3]. rewrite Hgp in Hparts'. injection Hparts' as <-. symmetry. by eapply Hlater.
Qed.
Lemma git_apart configs c d v : git_tokens env base64_decode configs = Ok tt -> In c configs -> In d configs -> holds c RGit v ->
  (forall s, In s (apart RGit) -> ~ holds d s v) /\ (holds d RGit v -> gc_region c = gc_region d).
Proof.
  intros E Hc Hd (parts & Hparts & Hv). unfold git_tokens in E. apply rbind_ok in E as (notify & Hn & E).
  destruct (git_scopes_facts _ _ _ E c parts v Hc Hparts Hv) as (H1 & _ & H3). rewrite in_app_iff in H1. split.
  - intros s Hs Hh. apply H1. apply in_app_iff in Hs as [Hs|[<-|[]]]; [left; by eapply protected_holds|right].
    destruct Hh as (n & Hin & Hv'). eapply secrets_in; [exact Hn| |exact Hv']. apply in_flat_map. by exists d.
  - intros (parts' & Hparts' & Hv'). by eapply H3.
Qed.
Lemma other_scopes_in cs others c s v :
  other_scopes env base64_decode url_parse form_first cs = Ok others -> In c cs -> In s [RNotify; RGit; RGitProxy] -> holds c s v -> In v others.
Proof.
  revert others. induction cs as [|e cs IH]; intros others; cbn [other_scopes]; [done|]. intros E.
  apply rbind_ok in E as (notify & Hn & E). apply rbind_ok in E as (git & Hg & E). apply rbind_ok in E as (proxy & Hp & E).
  apply rbind_ok in E as (rest & Hr & [= <-]). rewrite !in_app_iff. intros [->|Hc] Hs Hh; [|do 3 right; by eapply IH].
  destruct Hs as [<-|[<-|[<-|[]]]].
  - destruct Hh as (n & Hin & Hv). left. by eapply secrets_in.
  - destruct Hh as (parts & Hparts & Hv). rewrite Hg in Hparts. injection Hparts as <-. auto.
  - destruct Hh as (ps & Hps & Hv). rewrite Hp in Hps. injection Hps as <-. auto.
Qed.
Lemma database_apart configs c d v s w : database_tokens env base64_decode url_parse form_first db_options_ok configs = Ok tt ->
  In c configs -> In d configs -> holds c RDatabase v -> In s (apart RDatabase) -> holds d s w -> w <> v /\ ~ In v (carried base64_decode w).
Proof.
  intros E Hc Hd (n & Hn & Hv) Hs Hw. unfold database_tokens in E. apply rbind_ok in E as (others & Ho & E). cbv zeta in E.
  pose proof (each_ok _ _ _ E c Hc) as Hok. unfold database_ok in Hok. cbn [role_env] in Hn. destruct (gc_master_database c) as [db|]; [|done].
  destruct Hn as [<-|[]]. apply rbind_ok in Hok as (u & _ & Hok). apply rbind_ok in Hok as (t & Ht & Hok). pose proof (secret_value _ _ _ Ht Hv) as ->.
  apply ensure_ok, negb_true_iff in Hok. apply Bool.not_true_iff_false in Hok. rewrite mem_spec in Hok.
  set (protected := protected_tokens env (map profile_of configs) ++ others) in Hok.
  assert (Hin : In w protected).
  { apply in_app_iff. apply in_app_iff in Hs as [Hs|Hs]; [left; by eapply protected_holds|right; by eapply other_scopes_in]. }
  rewrite in_app_iff in Hok. split; [intros ->; tauto|]. intros Hcar. apply Hok. right. apply in_flat_map. by exists w.
Qed.

(** C33: When the checks before startup accept the regions' configurations, no value serves
    in two roles that the table of roles separates, in whichever regions, none serves
    two regions in the regional roles, and a database password is not even carried
    inside another credential's authorization header. *)
Theorem credentials_are_apart configs x :
  check_credentials env base64_decode url_parse form_first db_options_ok configs = Ok x ->
  forall c d r s v, In c configs -> In d configs -> holds c r v ->
    (In s (apart r) -> ~ holds d s v) /\ (In s (regional r) -> holds d s v -> gc_region c = gc_region d) /\
    (r = RDatabase -> In s (apart r) -> forall w, holds d s w -> ~ In v (carried base64_decode w)).
Proof.
  intros E. unfold check_credentials in E. apply rbind_ok in E as (tokens & Ht%collect_ok & E). apply rbind_ok in E as ([] & Hai & E).
  apply rbind_ok in E as (peers & Hp%collect_ok & E). apply rbind_ok in E as ([] & Epeer & E). apply rbind_ok in E as ([] & Eup & E).
  apply rbind_ok in E as (outgoing & Eout & E). apply rbind_ok in E as ([] & Esync & E). apply rbind_ok in E as ([] & Enot & E).
  apply rbind_ok in E as ([] & Egit & E). apply rbind_ok in E as ([] & Edb & E). clear E. apply ensure_ok, negb_true_iff in Hai.
  intros c d r s v Hc Hd Hv. destruct r; (split; [|split; [|intros Hr Hs w Hw; try discriminate Hr]]); try (by intros []).
  - (* internal *) intros [<-|[]] Hh. destruct (token_in configs tokens Ht c v Hc) as [_ F]. destruct (F Hv) as (x1 & Hx1 & <-).
    destruct (token_in configs tokens Ht d (snd x1) Hd) as [G _]. destruct (G Hh) as (x2 & Hx2 & E2). apply Bool.not_true_iff_false in Hai. apply Hai.
    apply existsb_exists. exists x2. split; [done|]. apply existsb_exists. exists x1. split; [done|]. rewrite E2. apply String.eqb_refl.
  - destruct (peer_apart configs tokens peers Ht Hp c d v Epeer Hc Hd Hv) as [F _]. exact (F s).
  - destruct (peer_apart configs tokens peers Ht Hp c d v Epeer Hc Hd Hv) as [_ F]. by intros [<-|[]].
  - exact (updater_apart configs tokens peers Ht Hp c d v Eup Hc Hd Hv s).
  - destruct (node_apart configs tokens peers Ht Hp outgoing c d v Eout Hc Hd Hv) as [F _]. exact (F s).
  - destruct (node_apart configs tokens peers Ht Hp outgoing c d v Eout Hc Hd Hv) as [_ F]. exact (F s).
  - exact (sync_apart configs tokens peers Ht Hp outgoing c d v Eout Esync Hc Hd Hv s).
  - destruct (notify_apart configs c d v Enot Hc Hd Hv) as [F _]. exact (F s).
  - destruct (notify_apart configs c d v Enot Hc Hd Hv) as [_ F]. by intros [<-|[]].
  - destruct (git_apart configs c d v Egit Hc Hd Hv) as [F _]. exact (F s).
  - destruct (git_apart configs c d v Egit Hc Hd Hv) as [_ F]. by intros [<-|[]].
  - intros Hs Hh. by destruct (database_apart configs c d v s v Edb Hc Hd Hv Hs Hh) as [F _].
  - by destruct (database_apart configs c d v s w Edb Hc Hd Hv Hs Hw) as [_ F].
Qed.
End roles.
