(* ===== verification/GlobalIdentity.v ===== *)
(** Accounts and the files they come from ([global_account.rs], [accounts.rs]'s
    [read_private_file] and [Pool::load_with]): identity files of the Global regions, the
    login they make possible, and the accounts a configuration loads.

    What JSON decoding makes of a file is a parameter, as is the file system; paths are
    those of Unix. *)
From Stdlib Require Import ZArith Lia Ascii String List Bool.
From stdpp Require Import base list strings decidable gmap.
From S2P Require Import Prelude BTree Errors Regions Http Environment Accounts SdkSession GlobalSdk GameConfig.

Local Open Scope Z_scope.
Local Open Scope rust_scope.

(** * Private files *)

(** An opened file: what its metadata says, and its bytes unless reading fails. *)
Record OpenFile : Type := mkOpenFile { of_meta : option (bool * Z * Z); of_bytes : option (list Z) }.
Definition read_private_file (file : option OpenFile) (limit : Z) (unavailable invalid not_private : string) : result AppError (list Z) :=
  f <-? ok_or file (Errors.Config unavailable);;
  m <-? ok_or (of_meta f) (Errors.Config unavailable);;
  let '(regular, length, mode) := m in
  guard? negb (negb regular || (limit <? length)) else Errors.Config invalid;;
  guard? Z.land mode 63 =? 0 else Errors.Config not_private;;
  bytes <-? ok_or (of_bytes f) (Errors.Config unavailable);;
  guard? negb (limit <? llen bytes) else Errors.Config invalid;;
  Ok bytes.
(** [take(limit + 1)] reads no more than one byte past the limit. *)
Lemma read_private_file_bounded file limit u i n bytes :
  read_private_file file limit u i n = Ok bytes -> llen bytes <= limit /\ exists m, option_map of_meta file = Some (Some m) /\ Z.land (snd m) 63 = 0.
Proof.
  unfold read_private_file. intros E. apply rbind_ok in E as (f & Hf & E). apply rbind_ok in E as ([[r l] m] & Hm & E).
  apply rbind_ok in E as ([] & _ & E). apply rbind_ok in E as ([] & Hp%ensure_ok & E). apply rbind_ok in E as (b & _ & E).
  apply rbind_ok in E as ([] & Hl%ensure_ok & [= ->]). apply negb_true_iff in Hl. split; [lia|]. destruct file as [f'|]; [|done]. injection Hf as ->.
  exists (r, l, m). cbn. split; [|by apply Z.eqb_eq]. by destruct (of_meta f); [injection Hm as ->|].
Qed.

(** * Identity files *)
Definition GLOBAL_CHANNEL_ID : Z := 2001.
Definition BRAND_ID : Z := 5.
Definition AREA_ID : Z := 6.
Definition CLIENT_PACKAGE : string := "com.bilibili.sirius".
Definition IDENTITY_SCHEMA : Z := 1.
Definition MAX_IDENTITY_BYTES : Z := 16 * 1024.

Record IdentityFile : Type := mkIdentityFile {
  if_schema : Z;
  if_uid : json;
  if_access_key : string;
  if_id_token : string;
  if_mid : option json;
  if_device : Device;
  if_players : bmap string;
}.
Record Identity : Type := mkIdentity { sdk : SdkAccount; device : Device; players : bmap string }.
Definition invalid_identity : AppError := Errors.Config "invalid Global identity file".
Definition header_value (value : string) : bool := negb (all_whitespace value) && (len value <=? 4096) && header_value_ok value.

(** The pins by region; the deprecated alias is one of [hk]'s names. *)
Fixpoint pins (ps : bmap string) (m : bmap string) (a : Alias) : result AppError (bmap string) * Alias :=
  match ps with
  | [] => (Ok m, a)
  | (name, pin) :: ps =>
      let '(r, a) := from_config_name name a in
      match r with
      | Some r =>
          if String.eqb (family r) "global" then if header_value pin then pins ps (insert (region_name r) pin m) a else (Err invalid_identity, a)
          else (Err invalid_identity, a)
      | None => (Err invalid_identity, a)
      end
  end.
Section identity.
Context (identity_from_slice : list Z -> option IdentityFile).

Definition identity_parse (bytes : list Z) (a : Alias) : result AppError Identity * Alias :=
  match (file <-? ok_or (identity_from_slice bytes) invalid_identity;;
         guard? if_schema file =? IDENTITY_SCHEMA else invalid_identity;;
         _ <-? as_config "invalid Global identity file" (device_validate (if_device file));;
         id <-? ok_or (identity_text (Some (if_uid file))) invalid_identity;;
         let account := {| uid := id; access_key := if_access_key file; id_token := if_id_token file; mid := identity_text (if_mid file) |} in
         guard? negb (negb (header_value (uid account)) || negb (header_value (access_key account))
                      || negb (is_empty (id_token account) || header_value (id_token account))) else invalid_identity;;
         Ok (file, account)) with
  | Err e => (Err e, a)
  | Ok (file, account) =>
      let '(ps, a) := pins (if_players file) [] a in
      (players <-? ps;; Ok (mkIdentity account (if_device file) players), a)
  end.
Definition identity_load (file : option OpenFile) (a : Alias) : result AppError Identity * Alias :=
  match read_private_file file MAX_IDENTITY_BYTES "Global identity file unavailable" "invalid Global identity file"
          "Global identity file must be private to its owner" with
  | Err e => (Err e, a)
  | Ok bytes => identity_parse bytes a
  end.

(** * Logins *)
Definition LoginConfig_default : Accounts.LoginConfig :=
  {| Accounts.sdk_origin := "https://l11-sdk-login-intl.biligame.net"; Accounts.sdk_app_key_env := "SIRIUS_GLOBAL_SDK_APP_KEY";
     Accounts.sdk_timeout_ms := 15000; Accounts.login_min_interval_seconds := 300; Accounts.max_logins_per_day := 24;
     Accounts.aegis_cooldown_seconds := 900; Accounts.concurrent_device_limit := 3; Accounts.state_directory := None;
     Accounts.sdk_refusal_retry_seconds := 86400; Accounts.sdk_keepalive_seconds := 20 * 86400 |}.
Lemma default_login_valid : Accounts.login_validate origin_allowed LoginConfig_default = Ok tt.
Proof. reflexivity. Qed.
Record LoginSession : Type := mkLoginSession { player_id : string; session_credential : string; is_new_user : bool; cp_server_name : string }.
Definition login_request (a : SdkAccount) (d : Device) (client_version : string) : json :=
  JObj ([("sdkUid", JStr (uid a)); ("sdkAccessToken", JStr (access_key a)); ("deviceModel", JStr (unity_device_model d));
         ("operatingSystem", JStr (unity_operating_system d)); ("clientVersion", JStr client_version);
         ("uuid", JObj [("identifier", JStr (unity_device_id d))]); ("clientPackage", JStr CLIENT_PACKAGE);
         ("globalChannelId", JNum GLOBAL_CHANNEL_ID); ("brandId", JNum BRAND_ID); ("areaId", JNum AREA_ID)]%string
        ++ if is_empty (id_token a) then [] else [("idToken"%string, JStr (id_token a))]).
Definition as_u64 (v : option json) : option Z := match v with Some (JNum n) => if in_range 0 U64_MAX n then Some n else None | _ => None end.
Definition server_name (value : json) : string :=
  match text_field "cpServerName" value with
  | Some s => if (len s <=? 128) && negb (has_control s) then s else ""%string
  | None => ""%string
  end.
Definition parse_login (value : json) : option LoginSession :=
  match json_field "credential" value with
  | None => None
  | Some credential =>
      match text_field "id" credential, text_field "credential" credential with
      | Some player, Some secret =>
          if negb (header_value player) || negb (header_value secret) then None
          else Some (mkLoginSession player secret (negb (default 0 (as_u64 (json_field "isNewUser" value)) =? 0)) (server_name value))
      | _, _ => None
      end
  end.

(** * Loading *)
Record Credentials : Type := mkCredentials { cr_player_id : string; cr_credential : string }.
Inductive Source : Type := Static (c : Credentials) | Global (identity : Identity) (expected_player_id : option string).
Context (credentials_from_slice : list Z -> option Credentials) (open_file : string -> option OpenFile) (env : string -> option string).

(** The configured accounts, or the one of the older references. *)
Definition load_entries (c : GameConfig) : result AppError (list AccountConfig) :=
  match gc_accounts c with
  | [] => match gc_player_id_env c, gc_player_credential_env c with
          | Some id, Some key => Ok [mkAccountConfig "default" (Some id) (Some key) None None]
          | None, None => Ok []
          | _, _ => fail "both account references required"
          end
  | accounts => Ok accounts
  end.
Definition duplicate_account : AppError := Errors.Config "invalid or duplicate account identity".
Definition static_credentials (a : AccountConfig) : result AppError Credentials :=
  match ac_credentials_file a with
  | Some path =>
      bytes <-? read_private_file (open_file path) 16384 "account credentials file unavailable" "invalid account credentials file"
                  "account credentials file must be private to its owner";;
      ok_or (credentials_from_slice bytes) (Errors.Config "invalid account credentials file")
  | None =>
      id <-? ok_or (ac_player_id_env a) AccountUnavailable;;
      player <-? secret env id;;
      key <-? ok_or (ac_credential_env a) AccountUnavailable;;
      credential <-? secret env key;;
      Ok (mkCredentials player credential)
  end.
Definition load_source (r : Region) (a : AccountConfig) (ids : gset string) (al : Alias) : result AppError (Source * gset string) * Alias :=
  match ac_global_identity_file a with
  | Some path =>
      let '(identity, al) := identity_load (open_file path) al in
      (i <-? identity;;
       let id := ("global:" ++ uid (sdk i))%string in
       guard? negb (bool_decide (id ∈ ids)) else duplicate_account;;
       Ok (Global i (get (region_name r) (players i)), {[id]} ∪ ids), al)
  | None =>
      (c <-? static_credentials a;;
       let id := ("static:" ++ cr_player_id c)%string in
       guard? negb (List.existsb (fun v => all_whitespace v || negb (header_value_ok v)) [cr_player_id c; cr_credential c] || bool_decide (id ∈ ids))
         else duplicate_account;;
       Ok (Static c, {[id]} ∪ ids), al)
  end.
Fixpoint load_all (r : Region) (l : list AccountConfig) (ids : gset string) (al : Alias) : result AppError (list (string * Source)) * Alias :=
  match l with
  | [] => (Ok [], al)
  | a :: l =>
      match load_source r a ids al with
      | (Err e, al) => (Err e, al)
      | (Ok (source, ids), al) =>
          let '(rest, al) := load_all r l ids al in
          (rest <-? rest;; Ok ((ac_name a, source) :: rest), al)
      end
  end.
(** [load_with]. *)
Definition pool_load (accounts_ok : result AppError unit) (c : GameConfig) (al : Alias) : result AppError (list (string * Source)) * Alias :=
  match (_ <-? accounts_ok;; load_entries c) with
  | Err e => (Err e, al)
  | Ok entries => load_all (gc_region c) entries ∅ al
  end.

(** ** Lemmas *)
Definition identity_key (s : Source) : string :=
  match s with Static c => ("static:" ++ cr_player_id c)%string | Global i _ => ("global:" ++ uid (sdk i))%string end.
Lemma load_source_ok r a ids al s ids' al' : load_source r a ids al = (Ok (s, ids'), al') -> identity_key s ∉ ids /\ ids' = {[identity_key s]} ∪ ids.
Proof.
  unfold load_source. destruct (ac_global_identity_file a) as [path|].
  - destruct (identity_load _ al) as [i al1]. intros [= E <-]. apply rbind_ok in E as (x & _ & E). cbv zeta in E.
    apply rbind_ok in E as ([] & H%ensure_ok & [= <- <-]). apply negb_true_iff, bool_decide_eq_false in H. by split.
  - intros [= E <-]. apply rbind_ok in E as (x & _ & E). cbv zeta in E. apply rbind_ok in E as ([] & H%ensure_ok & [= <- <-]).
    apply negb_true_iff, orb_false_iff in H as [_ H]. apply bool_decide_eq_false in H. by split.
Qed.
(** Every configured account is loaded, in order, and no two are the same player's. *)
Lemma pool_load_distinct ok c al pool al' : pool_load ok c al = (Ok pool, al') ->
  (exists entries, load_entries c = Ok entries /\ map fst pool = map ac_name entries) /\ NoDup (map (fun e => identity_key (snd e)) pool).
Proof.
  unfold pool_load. destruct ok as [[]|]; [|done]. cbn [rbind]. destruct (load_entries c) as [entries|]; [|done]. intros E.
  assert (H : forall l ids al pool al', load_all (gc_region c) l ids al = (Ok pool, al') ->
    map fst pool = map ac_name l /\ NoDup (map (fun e => identity_key (snd e)) pool) /\ forall e, In e pool -> identity_key (snd e) ∉ ids).
  { clear. induction l as [|a l IH]; intros ids al pool al'; cbn [load_all]; [intros [= <- <-]; split; [done|]; split; [constructor|done]|].
    destruct (load_source _ _ _ _) as [[[s ids']|] al1] eqn:Es; [|done]. apply load_source_ok in Es as [Hs ->].
    destruct (load_all _ _ _ _) as [[rest|] al2] eqn:Er; cbn [rbind]; [|done]. intros [= <- <-]. destruct (IH _ _ _ _ Er) as (H1 & H2 & H3).
    cbn [map fst snd]. split; [by rewrite H1|]. split.
    - constructor; [|done]. rewrite list_elem_of_In, in_map_iff. intros (e & Ee & He). specialize (H3 e He). rewrite Ee in H3. set_solver.
    - intros e [<-|He]; [done|]. specialize (H3 e He). set_solver. }
  destruct (H _ _ _ _ _ E) as (H1 & H2 & _). split; [by exists entries|done].
Qed.
End identity.
