(* ===== verification/GlobalLogin.v ===== *)
(** The login of Global accounts in the game client ([client.rs]'s [account_auth],
    [revalidate] and [sdk_keepalive]).

    The accounts of every region that use one SDK identity share its session
    ([SdkSession]); a login, or the keepalive of a region, revalidates it with one
    [cache.login] under the identity's lock.  Here are one identity's session, its
    accounts, each with the login and pool configuration of its region, and the tasks of one process that log in or keep it alive, as interleaving
    steps.  Clocks, the SDK's and the game's answers, admission to the SDK path and the
    outcome of file operations are arguments of the steps; a task that is never stepped
    again, or is dropped, was cancelled.  [now] is of the monotonic clock, [utc] of the
    wall clock, both in nanoseconds. *)
From Stdlib Require Import ZArith Lia Ascii String List Bool.
From stdpp Require Import base list strings decidable.
From S2P Require Import Prelude BTree Errors Regions Http PathHealth Upstream Accounts SdkSession GlobalSdk GlobalIdentity.

Local Open Scope Z_scope.
Local Open Scope rust_scope.

(** * An account's part *)
Definition push_attempt (now : Z) (s : LoginState) : LoginState := set_times s (Accounts.attempts s ++ [now]) (concurrent_device s).
Definition set_login_error (code : option string) (sdk_code : option Z) (s : LoginState) : LoginState :=
  {| session := session s; sdk_generation := sdk_generation s; Accounts.attempts := Accounts.attempts s; last_login_at := last_login_at s;
     last_error_code := code; last_sdk_code := sdk_code; invalidations := invalidations s; concurrent_device := concurrent_device s |}.
Definition set_generation (g : Z) (s : LoginState) : LoginState :=
  {| session := session s; sdk_generation := g; Accounts.attempts := Accounts.attempts s; last_login_at := last_login_at s;
     last_error_code := last_error_code s; last_sdk_code := last_sdk_code s; invalidations := invalidations s; concurrent_device := concurrent_device s |}.
Definition logged_in (player credential : string) (utc : Z) (s : LoginState) : LoginState :=
  {| session := Some (player, credential); sdk_generation := sdk_generation s; Accounts.attempts := Accounts.attempts s; last_login_at := Some utc;
     last_error_code := last_error_code s; last_sdk_code := last_sdk_code s; invalidations := invalidations s; concurrent_device := concurrent_device s |}.
Definition disable_account (a : Account) : Account := with_health a (disable (health a)).
(** [sdk_refused]: an earlier refusal disables the account without a request. *)
Definition sdk_refused (code : Z) (a : Account) : Account :=
  let error := if code =? CAPTCHA_CODE then Captcha else SdkRefused code in
  disable_account (with_login a (set_login_error (Some (sdk_error_code error)) (refusal_number error))).
(** [next_allowed], which prunes; an account that is not Global has no limits. *)
Definition limited (login : LoginConfig) (now : Z) (a : Account) : option Z * Account :=
  match global a with
  | None => (None, a)
  | Some g => let '(until, s) := next_allowed login (login_state g) now in (until, with_login a (fun _ => s))
  end.

(** ** With a region's configuration *)
Section region.
Context (token_expiry : string -> option Z) (login : LoginConfig) (policy : PoolPolicy).
Notation reusable_now s utc := (state_reusable token_expiry s utc).
Definition refusal_retry : Z := from_secs (sdk_refusal_retry_seconds login).
Definition keepalive_interval : Z := from_secs (sdk_keepalive_seconds login).

(** Up to the revalidation lock: the game session of the account, if it has one; a
    refusal in force, then the limits, then the shared session. *)
Inductive Begun : Type :=
| BeginHas (player credential : string)
| BeginFails (e : AppError)
| BeginShared (a : SdkAccount) (generation : Z)
| BeginWaits.
Definition auth_begin (now utc : Z) (s : State) (a : Account) : Begun * Account :=
  match match global a with Some g => session (login_state g) | None => None end with
  | Some (player, credential) => (BeginHas player credential, a)
  | None =>
  match refusal s utc refusal_retry with
  | Some r => (BeginFails AccountUnavailable, sdk_refused (refusal_code r) a)
  | None =>
      match limited login now a with
      | (Some until, a) => (BeginFails AccountUnavailable, with_health a (cool_down (health a) until))
      | (None, a) =>
          match reusable_now s utc with
          | Some (shared, g) => (BeginShared shared g, with_login a (push_attempt now))
          | None => (BeginWaits, a)
          end
      end
  end
  end.
(** With the lock: the same questions again, then whether a [cache.login] has completed
    since, then the SDK path. *)
Inductive Locked : Type := LockedFails (e : AppError) | LockedShared (a : SdkAccount) (generation : Z) | LockedSends.
Definition auth_locked (now utc seen completed : Z) (admitted : bool) (s : State) (a : Account) : Locked * Account :=
  match refusal s utc refusal_retry with
  | Some r => (LockedFails AccountUnavailable, sdk_refused (refusal_code r) a)
  | None =>
      match reusable_now s utc with
      | Some (shared, g) => (LockedShared shared g, with_login a (push_attempt now))
      | None =>
          if negb (completed =? seen) then (LockedFails UpstreamUnavailable, a)
          else if negb admitted then (LockedFails UpstreamUnavailable, a)
          else (LockedSends, with_login a (push_attempt now))
      end
  end.
(** [revalidate] after the answer: what becomes of the account.  [late] is whether the
    deadline has passed. *)
Definition revalidate_failed (e : SdkError) (late : bool) (a : Account) : AppError * Account :=
  let a := with_login a (set_login_error (Some (sdk_error_code e)) (refusal_number e)) in
  (if late then Timeout else AccountUnavailable, if GlobalSdk.transient e then a else disable_account a).
(** The refusal that the shared session keeps. *)
Definition refusal_of (e : SdkError) : option Z := match e with SdkRefused code => Some code | Captcha => Some CAPTCHA_CODE | _ => None end.

(** After PlayerLogin: the headers of the account's calls, or why there are none; and the
    SDK generation a signal marks stale. *)
Definition player_login_finish (expected : option string) (result : result AppError json) (code : option string) (charge : Charge) (now utc : Z) (a : Account)
  : Prelude.result AppError (string * string) * Account * option Z :=
  match match result with Ok value => parse_login value | Err _ => None end with
  | None =>
      let result := match result with Ok _ => Err Protocol | Err e => Err e end in
      let '(a, stale) := global_signal policy login a result code charge now in
      (Err (match result with Err Timeout => Timeout | Err (Maintenance status) => Maintenance status | _ => AccountUnavailable end), a, stale)
  | Some s =>
      if some_and expected (fun e => negb (String.eqb e (player_id s)))
      then (Err AccountUnavailable, disable_account (with_login a (set_login_error (Some "PLAYER_MISMATCH"%string) None)), None)
      else (Ok (player_id s, session_credential s), with_login a (logged_in (player_id s) (session_credential s) utc), None)
  end.

End region.

(** * Tasks *)
Section tasks.
(** The configuration of the region of each account. *)
Context (token_expiry : string -> option Z) (logins : nat -> LoginConfig) (policies : nat -> PoolPolicy).
Notation reusable_now s utc := (state_reusable token_expiry s utc).
Context (header_ok : string -> bool) (own_uid own_key own_fingerprint : string) (identity : SdkAccount).
Notation merge_locked := (exclusive token_expiry header_ok own_uid own_key own_fingerprint).
Notation validated_now := (validated token_expiry header_ok own_uid own_key own_fingerprint).
Notation refused_now := (refused token_expiry header_ok own_uid own_key own_fingerprint).
Notation stale_now := (mark_stale token_expiry header_ok own_uid own_key own_fingerprint).

Inductive Stage : Type :=
| LStart
| LWaiting (now seen : Z)
| LLocked (now seen : Z)
| LSending (seen : Z) (base : SdkAccount)
| LReady (a : SdkAccount) (generation : Z)
| LDone (r : result AppError (string * string))
| KStart
| KWaiting (now : Z)
| KLocked (now : Z)
| KSending (base : SdkAccount)
| KDone (revalidated : bool).
Record Task : Type := mkTask { t_account : nat; t_stage : Stage }.

(** The identity: its session in memory and its file, the [cache.login]s completed in
    this process, who holds the revalidation lock; the accounts and the tasks. *)
Record Sys : Type := mkSys {
  sdk_state : State;
  sdk_file : file;
  completed : Z;
  lock : option nat;
  accounts : list Account;
  tasks : list Task;
}.
Definition with_session (y : Sys) (x : State * file) : Sys := mkSys (fst x) (snd x) (completed y) (lock y) (accounts y) (tasks y).
Definition with_account (y : Sys) (i : nat) (a : Account) : Sys := mkSys (sdk_state y) (sdk_file y) (completed y) (lock y) (<[i := a]> (accounts y)) (tasks y).
Definition with_lock (y : Sys) (l : option nat) : Sys := mkSys (sdk_state y) (sdk_file y) (completed y) l (accounts y) (tasks y).
Definition count_completed (y : Sys) : Sys := mkSys (sdk_state y) (sdk_file y) (completed y + 1) (lock y) (accounts y) (tasks y).
Definition at_stage (y : Sys) (n : nat) (t : Task) (s : Stage) : Sys :=
  mkSys (sdk_state y) (sdk_file y) (completed y) (lock y) (accounts y) (<[n := mkTask (t_account t) s]> (tasks y)).
Definition base_of (s : State) : SdkAccount := match account s with Some a => a | None => identity end.

(** The answer of a [cache.login]: the session, and the account of the task. *)
Definition revalidated (utc : Z) (written : bool) (answer : result SdkError SdkAccount) (late : bool) (y : Sys) (a : Account)
  : (result AppError (SdkAccount * Z)) * Sys * Account :=
  let y := count_completed y in
  match answer with
  | Ok refreshed => let '(g, x) := validated_now (sdk_file y) (sdk_state y) refreshed utc written in (Ok (refreshed, g), with_session y x, a)
  | Err e =>
      let '(error, a) := revalidate_failed e late a in
      (Err error, match refusal_of e with Some code => with_session y (refused_now (sdk_file y) (sdk_state y) code utc written) | None => y end, a)
  end.

Inductive task_step (n : nat) (utc : Z) : Sys -> Task -> Sys -> Prop :=
| ts_begin y i a now : accounts y !! i = Some a -> is_some (global a) = true -> task_step n utc y (mkTask i LStart)
    (let '(b, a) := auth_begin token_expiry (logins i) now utc (sdk_state y) a in
     at_stage (with_account y i a) n (mkTask i LStart)
       (match b with BeginHas player credential => LDone (Ok (player, credential)) | BeginFails e => LDone (Err e) | BeginShared x g => LReady x g | BeginWaits => LWaiting now (completed y) end))
| ts_lock_timeout y i now seen : task_step n utc y (mkTask i (LWaiting now seen)) (at_stage y n (mkTask i LStart) (LDone (Err Timeout)))
| ts_lock y i now seen : lock y = None -> task_step n utc y (mkTask i (LWaiting now seen)) (at_stage (with_lock y (Some n)) n (mkTask i LStart) (LLocked now seen))
| ts_locked y i a now seen held admitted : accounts y !! i = Some a -> task_step n utc y (mkTask i (LLocked now seen))
    (match merge_locked (sdk_file y) (sdk_state y) utc held with
     | (inr e, _) => at_stage (with_lock y None) n (mkTask i LStart) (LDone (Err e))
     | (inl _, s) =>
         let y := with_session y (s, sdk_file y) in
         let '(r, a) := auth_locked token_expiry (logins i) now utc seen (completed y) admitted s a in
         let y := with_account y i a in
         match r with
         | LockedFails e => at_stage (with_lock y None) n (mkTask i LStart) (LDone (Err e))
         | LockedShared x g => at_stage (with_lock y None) n (mkTask i LStart) (LReady x g)
         | LockedSends => at_stage y n (mkTask i LStart) (LSending seen (base_of s))
         end
     end)
| ts_answer y i a seen base answer late written : accounts y !! i = Some a -> task_step n utc y (mkTask i (LSending seen base))
    (let '(r, y, a) := revalidated utc written answer late y a in
     at_stage (with_lock (with_account y i a) None) n (mkTask i LStart) (match r with Ok (x, g) => LReady x g | Err e => LDone (Err e) end))
| ts_player_login y i a x g expected result code charge now written : accounts y !! i = Some a -> task_step n utc y (mkTask i (LReady x g))
    (let '(r, a, stale) := player_login_finish (logins i) (policies i) expected result code charge now utc (with_login a (set_generation g)) in
     let y := with_account y i a in
     let y := match stale with Some g => with_session y (stale_now (sdk_file y) (sdk_state y) g utc written) | None => y end in
     at_stage y n (mkTask i LStart) (LDone r))
| ts_keepalive y i a now : accounts y !! i = Some a -> task_step n utc y (mkTask i KStart)
    (at_stage y n (mkTask i KStart)
       (if is_none (global a) || disabled (health a) || negb (keepalive_due (sdk_state y) utc (keepalive_interval (logins i))) then KDone false else KWaiting now))
| ts_keepalive_timeout y i now : task_step n utc y (mkTask i (KWaiting now)) (at_stage y n (mkTask i KStart) (KDone false))
| ts_keepalive_lock y i now : lock y = None -> task_step n utc y (mkTask i (KWaiting now)) (at_stage (with_lock y (Some n)) n (mkTask i KStart) (KLocked now))
| ts_keepalive_locked y i a now held admitted : accounts y !! i = Some a -> task_step n utc y (mkTask i (KLocked now))
    (match merge_locked (sdk_file y) (sdk_state y) utc held with
     | (inr _, _) => at_stage (with_lock y None) n (mkTask i KStart) (KDone false)
     | (inl _, s) =>
         let y := with_session y (s, sdk_file y) in
         if negb (keepalive_due s utc (keepalive_interval (logins i))) then at_stage (with_lock y None) n (mkTask i KStart) (KDone false)
         else
           let '(until, a) := limited (logins i) now a in
           let y := with_account y i a in
           if is_some until || negb admitted then at_stage (with_lock y None) n (mkTask i KStart) (KDone false)
           else at_stage (with_account y i (with_login a (push_attempt now))) n (mkTask i KStart) (KSending (base_of s))
     end)
| ts_keepalive_answer y i a base answer late written : accounts y !! i = Some a -> task_step n utc y (mkTask i (KSending base))
    (let '(r, y, a) := revalidated utc written answer late y a in
     at_stage (with_lock (with_account y i a) None) n (mkTask i KStart) (KDone (is_ok r)))
| ts_cancelled y t : task_step n utc y t
    (at_stage (with_lock y (if bool_decide (lock y = Some n) then None else lock y)) n t (LDone (Err Timeout))).

(** Tasks come, the file changes under other processes, and a call's answer may mark the
    session stale. *)
Inductive sys_step (utc : Z) : Sys -> Sys -> Prop :=
| ss_task y n t y' : tasks y !! n = Some t -> task_step n utc y t y' -> sys_step utc y y'
| ss_call y i : sys_step utc y (mkSys (sdk_state y) (sdk_file y) (completed y) (lock y) (accounts y) (tasks y ++ [mkTask i LStart]))
| ss_check y i : sys_step utc y (mkSys (sdk_state y) (sdk_file y) (completed y) (lock y) (accounts y) (tasks y ++ [mkTask i KStart]))
| ss_stale y g written : sys_step utc y (with_session y (stale_now (sdk_file y) (sdk_state y) g utc written))
| ss_other_process y f : sys_step utc y (with_session y (sdk_state y, f))
| ss_account y i a : sys_step utc y (with_account y i a).
Inductive sys_reachable (y0 : Sys) : Sys -> Prop :=
| sr_initial : sys_reachable y0 y0
| sr_step utc y y' : sys_reachable y0 y -> sys_step utc y y' -> sys_reachable y0 y'.

(** * The lock *)
Definition holds (s : Stage) : bool := match s with LLocked _ _ | LSending _ _ | KLocked _ | KSending _ => true | _ => false end.
Definition sending (s : Stage) : bool := match s with LSending _ _ | KSending _ => true | _ => false end.

Record sys_inv (y : Sys) : Prop := {
  inv_lock : forall m t, tasks y !! m = Some t -> holds (t_stage t) = true -> lock y = Some m;
  inv_seen : forall m t seen base, tasks y !! m = Some t -> t_stage t = LSending seen base -> seen = completed y;
}.

Lemma sending_holds s : sending s = true -> holds s = true.
Proof. by destruct s. Qed.
Lemma at_stage_lookup y n t s m t' :
  tasks (at_stage y n t s) !! m = Some t' -> (m = n /\ t' = mkTask (t_account t) s) \/ (m <> n /\ tasks y !! m = Some t').
Proof.
  cbn [at_stage tasks]. destruct (decide (m = n)) as [->|Hm].
  - intros [(_ & <- & _)|[Hne _]]%list_lookup_insert_Some; [by left|done].
  - rewrite list_lookup_insert_ne by done. by right.
Qed.
(** A step of task [n] that moves it to [s] and touches the lock only as its holder, or to
    take it. *)
Lemma move_inv y y' n t i s :
  sys_inv y -> tasks y' = <[n := mkTask i s]> (tasks y) -> tasks y !! n = Some t ->
  (holds s = true -> lock y' = Some n) ->
  (lock y' = lock y \/ lock y = None \/ lock y = Some n) ->
  (completed y' = completed y \/ lock y = Some n) ->
  (forall seen base, s = LSending seen base -> seen = completed y') ->
  sys_inv y'.
Proof.
  intros [Hl Hs] Ht Hn Hh Hlock Hc Hsend.
  assert (Hcase : forall m u, tasks y' !! m = Some u -> (m = n /\ t_stage u = s) \/ (m <> n /\ tasks y !! m = Some u)).
  { intros m u Hu. rewrite Ht in Hu. change (<[n := mkTask i s]> (tasks y)) with (tasks (at_stage y n (mkTask i s) s)) in Hu.
    destruct (at_stage_lookup _ _ _ _ _ _ Hu) as [[-> ->]|H]; [by left|by right]. }
  constructor.
  - intros m u Hu Hhold. destruct (Hcase m u Hu) as [[-> Hst]|[Hne Hu']].
    + rewrite Hst in Hhold. auto.
    + pose proof (Hl m u Hu' Hhold) as Hm. destruct Hlock as [->|[E|E]]; congruence.
  - intros m u seen base Hu Hst. destruct (Hcase m u Hu) as [[-> Hst']|[Hne Hu']].
    + apply (Hsend seen base). congruence.
    + pose proof (Hl m u Hu') as Hm. rewrite Hst in Hm. specialize (Hm eq_refl).
      rewrite (Hs m u seen base Hu' Hst). destruct Hc as [->|E]; congruence.
Qed.
Lemma same_tasks_inv y y' :
  sys_inv y -> (forall m t, tasks y' !! m = Some t -> tasks y !! m = Some t \/ holds (t_stage t) = false) ->
  lock y' = lock y -> completed y' = completed y -> sys_inv y'.
Proof.
  intros [Hl Hs] Ht Hlock Hc. constructor.
  - intros m t Hm Hh. rewrite Hlock. destruct (Ht m t Hm) as [H|H]; [by apply (Hl m t)|congruence].
  - intros m t seen base Hm Hst. rewrite Hc. destruct (Ht m t Hm) as [H|H]; [by apply (Hs m t seen base)|by rewrite Hst in H].
Qed.

Lemma auth_locked_sends login now utc seen n admitted s a a' :
  auth_locked token_expiry login now utc seen n admitted s a = (LockedSends, a') ->
  refusal s utc (refusal_retry login) = None /\ reusable_now s utc = None /\ seen = n /\ a' = with_login a (push_attempt now).
Proof.
  unfold auth_locked. intros H. destruct (refusal s utc _); [done|]. destruct (reusable_now s utc) as [[]|]; [done|].
  destruct (n =? seen) eqn:E; cbn in H; [|done]. destruct admitted; cbn in H; [|done]. injection H as <-. repeat split; lia.
Qed.
Lemma revalidated_facts utc written answer late y a r y' a' :
  revalidated utc written answer late y a = (r, y', a') -> tasks y' = tasks y /\ lock y' = lock y /\ completed y' = completed y + 1.
Proof.
  unfold revalidated. destruct answer as [x|e].
  - destruct (validated_now _ _ _ _ _) as [g z]. by intros [= <- <- <-].
  - destruct (revalidate_failed e late a) as [e' x]. destruct (refusal_of e); by intros [= <- <- <-].
Qed.

Ltac move_task y := eapply (move_inv y); [eassumption|reflexivity|eassumption|..]; cbn; intuition (congruence || eauto).
(** Every step of a task moves it once. *)
Lemma task_step_inv y n utc t y' : sys_inv y -> tasks y !! n = Some t -> task_step n utc y t y' -> sys_inv y'.
Proof.
  intros Hy Ht Hs. pose proof (inv_lock y Hy n t Ht) as Hl.
  destruct Hs; cbn [t_stage holds] in Hl; try specialize (Hl eq_refl).
  - destruct (auth_begin token_expiry (logins i) now utc (sdk_state y) a) as [[] ?]; move_task y.
  - move_task y.
  - move_task y.
  - destruct (merge_locked (sdk_file y) (sdk_state y) utc held) as [[b|e] s]; [|move_task y].
    cbv zeta. change (completed (with_session y (s, sdk_file y))) with (completed y).
    destruct (auth_locked token_expiry (logins i) now utc seen (completed y) admitted s a) as [[] x] eqn:E; [move_task y..|].
    apply auth_locked_sends in E as (_ & _ & E & _). move_task y.
  - destruct (revalidated utc written answer late y a) as [[r z] x] eqn:E. apply revalidated_facts in E as (E1 & E2 & E3).
    eapply (move_inv y _ n _ i); [done|cbn; by rewrite E1|done|..]; [destruct r as [[]|]..]; cbn; intuition congruence.
  - destruct (player_login_finish (logins i) (policies i) expected result code charge now utc _) as [[r' z] stale]. destruct stale; move_task y.
  - destruct (_ || _); move_task y.
  - move_task y.
  - move_task y.
  - destruct (merge_locked (sdk_file y) (sdk_state y) utc held) as [[b|e] s]; [|move_task y].
    destruct (negb _); [move_task y|]. destruct (limited (logins i) now a) as [u x]. destruct (_ || _); move_task y.
  - destruct (revalidated utc written answer late y a) as [[r z] x] eqn:E. apply revalidated_facts in E as (E1 & E2 & E3).
    eapply (move_inv y _ n _ i); [done|cbn; by rewrite E1|done|..]; cbn; intuition congruence.
  - destruct (bool_decide (lock y = Some n)) eqn:E; [apply bool_decide_eq_true in E|]; move_task y.
Qed.
Lemma sys_step_inv utc y y' : sys_inv y -> sys_step utc y y' -> sys_inv y'.
Proof.
  intros Hy Hs. destruct Hs; [by eapply task_step_inv|..];
    (eapply same_tasks_inv; [exact Hy| |done|done]); cbn; intros m t Hm; auto;
    apply lookup_snoc_Some in Hm as [[_ Hm]|[_ <-]]; auto.
Qed.
Lemma reachable_inv y0 y : lock y0 = None -> tasks y0 = [] -> sys_reachable y0 y -> sys_inv y.
Proof.
  intros Hl Ht. induction 1 as [|utc y y' _ IH Hs]; [|by eapply sys_step_inv].
  constructor; rewrite Ht; intros m t; by rewrite lookup_nil.
Qed.

(** What a task of account [i] has found as its request leaves. *)
Definition may_send (y : Sys) (utc : Z) (i : nat) (s : Stage) : Prop :=
  match s with
  | LSending seen _ => refusal (sdk_state y) utc (refusal_retry (logins i)) = None /\ reusable_now (sdk_state y) utc = None
  | KSending _ => keepalive_due (sdk_state y) utc (keepalive_interval (logins i)) = true
  | _ => True
  end.
Ltac moves := eexists _, _; split; [cbn; reflexivity|cbn; done].
Lemma task_step_moves n utc y t y' :
  task_step n utc y t y' -> exists i s, tasks y' = <[n := mkTask i s]> (tasks y) /\ (sending s = true -> may_send y' utc i s).
Proof.
  destruct 1.
  - destruct (auth_begin token_expiry (logins i) now utc (sdk_state y) a) as [[] ?]; moves.
  - moves.
  - moves.
  - destruct (merge_locked (sdk_file y) (sdk_state y) utc held) as [[b|e] s]; [|moves].
    cbv zeta. change (completed (with_session y (s, sdk_file y))) with (completed y).
    destruct (auth_locked token_expiry (logins i) now utc seen (completed y) admitted s a) as [[] x] eqn:E; [moves..|].
    apply auth_locked_sends in E as (E1 & E2 & _ & _). eexists _, _. split; [cbn; reflexivity|]. by intros _.
  - destruct (revalidated utc written answer late y a) as [[r z] x] eqn:E. apply revalidated_facts in E as (E1 & _ & _).
    eexists _, _. split; [cbn; by rewrite E1|]. by destruct r as [[]|].
  - destruct (player_login_finish (logins i) (policies i) expected result code charge now utc _) as [[r' z] stale]. destruct stale; moves.
  - destruct (_ || _); moves.
  - moves.
  - moves.
  - destruct (merge_locked (sdk_file y) (sdk_state y) utc held) as [[b|e] s]; [|moves].
    destruct (negb _) eqn:E; [moves|]. destruct (limited (logins i) now a) as [u x]. destruct (_ || _); [moves|].
    eexists _, _. split; [cbn; reflexivity|]. intros _. cbn. by apply negb_false_iff in E.
  - destruct (revalidated utc written answer late y a) as [[r z] x] eqn:E. apply revalidated_facts in E as (E1 & _ & _).
    eexists _, _. split; [cbn; by rewrite E1|done].
  - moves.
Qed.
Lemma sys_step_sends utc y y' n t' :
  sys_step utc y y' -> tasks y' !! n = Some t' -> sending (t_stage t') = true ->
  (forall t, tasks y !! n = Some t -> sending (t_stage t) = false) -> may_send y' utc (t_account t') (t_stage t').
Proof.
  intros Hs Ht Hsend Hnew.
  assert (Hold : tasks y !! n = Some t' -> may_send y' utc (t_account t') (t_stage t')) by (intros H; specialize (Hnew _ H); congruence).
  destruct Hs as [y m t y' Hm Hs|y i|y i|y g w|y f|y i a]; auto.
  - destruct (task_step_moves _ _ _ _ _ Hs) as (i & s & E & Hmay). rewrite E in Ht.
    apply list_lookup_insert_Some in Ht as [(-> & <- & _)|[_ H]]; [by apply Hmay|by apply Hold].
  - cbn in Ht. apply lookup_snoc_Some in Ht as [[_ H]|[_ <-]]; [by apply Hold|done].
  - cbn in Ht. apply lookup_snoc_Some in Ht as [[_ H]|[_ <-]]; [by apply Hold|done].
Qed.

(** C38: However the logins and keepalives of the regions that share an SDK identity
    interleave, and wherever they are cancelled, at most one of them has a cache.login
    of the identity under way, the holder of the revalidation lock; a login sends only
    without a refusal in force, without a usable shared session and when none has
    completed since it began, a keepalive only when the session is due. *)
Theorem cache_login_is_exclusive y0 utc y y' n t' :
  lock y0 = None -> tasks y0 = [] -> sys_reachable y0 y -> sys_step utc y y' ->
  tasks y' !! n = Some t' -> sending (t_stage t') = true ->
  lock y' = Some n /\
  (forall m t, tasks y' !! m = Some t -> sending (t_stage t) = true -> m = n) /\
  (forall seen base, t_stage t' = LSending seen base -> seen = completed y') /\
  ((forall t, tasks y !! n = Some t -> sending (t_stage t) = false) -> may_send y' utc (t_account t') (t_stage t')).
Proof.
  intros Hl Ht0 Hr Hs Ht Hsend.
  assert (Hinv : sys_inv y') by (eapply sys_step_inv; [by eapply reachable_inv|done]).
  assert (Hlock : lock y' = Some n) by (apply (inv_lock y' Hinv n t' Ht); by apply sending_holds).
  split; [done|]. split; [|split; [|by apply (sys_step_sends utc y)]].
  - intros m t Hm Hsm. pose proof (inv_lock y' Hinv m t Hm (sending_holds _ Hsm)). congruence.
  - intros seen base E. by apply (inv_seen y' Hinv n t' seen base).
Qed.
End tasks.

(** * A witness *)
(** Two calls with an account each; the first has the lock while the second waits. *)
Definition one_account : Account := {| name := "a"; global := Some {| sdk_uid := "1"; login_state := LoginState_default |}; active := 0; health := Health_default |}.
Definition one_identity : SdkAccount := {| uid := "1"; access_key := "k"; id_token := "t"; mid := None |}.
Definition two_accounts (l : option nat) (a : Account) (ts : list Task) : Sys := mkSys State_default NoFile 0 l [a; one_account] ts.
(** Two regions with a login configuration each. *)
Definition demo_logins (i : nat) : LoginConfig :=
  if (i =? 0)%nat then AccountsDemo.login else LoginConfig_default.
Definition demo_policies (_ : nat) : PoolPolicy := default_policy.
Definition no_expiry (_ : string) : option Z := None.
Definition any_header (_ : string) : bool := true.
Notation demo_reach := (sys_reachable no_expiry demo_logins demo_policies any_header "1" "k" "f" one_identity).
Notation demo_task := (ss_task no_expiry demo_logins demo_policies any_header "1" "k" "f" one_identity).

Lemma cache_login_is_exclusive_witness :
  let sending_account := with_login one_account (push_attempt 5) in
  let y' := two_accounts (Some 0%nat) sending_account [mkTask 0 (LSending 0 one_identity); mkTask 1 (LWaiting 5 0)] in
  lock y' = Some 0%nat /\ (forall m t, tasks y' !! m = Some t -> sending (t_stage t) = true -> m = 0%nat).
Proof.
  intros sending_account y'.
  set (y0 := two_accounts None one_account []).
  set (y := two_accounts (Some 0%nat) one_account [mkTask 0 (LLocked 5 0); mkTask 1 (LWaiting 5 0)]).
  assert (H : demo_reach y0 y).
  { eapply sr_step; [|exact (demo_task 5 (two_accounts None one_account [mkTask 0 (LWaiting 5 0); mkTask 1 (LWaiting 5 0)]) 0%nat _ _ eq_refl
      (ts_lock _ _ _ _ _ _ _ _ _ _ (two_accounts None one_account [mkTask 0 (LWaiting 5 0); mkTask 1 (LWaiting 5 0)]) _ _ _ eq_refl))].
    eapply sr_step; [|exact (demo_task 5 (two_accounts None one_account [mkTask 0 (LWaiting 5 0); mkTask 1 LStart]) 1%nat _ _ eq_refl
      (ts_begin _ _ _ _ _ _ _ _ _ _ (two_accounts None one_account [mkTask 0 (LWaiting 5 0); mkTask 1 LStart]) 1%nat one_account 5 eq_refl eq_refl))].
    eapply sr_step; [|exact (demo_task 5 (two_accounts None one_account [mkTask 0 LStart; mkTask 1 LStart]) 0%nat _ _ eq_refl
      (ts_begin _ _ _ _ _ _ _ _ _ _ (two_accounts None one_account [mkTask 0 LStart; mkTask 1 LStart]) 0%nat one_account 5 eq_refl eq_refl))].
    eapply sr_step; [|exact (ss_call _ _ _ _ _ _ _ _ 5 (two_accounts None one_account [mkTask 0 LStart]) 1)].
    eapply sr_step; [apply sr_initial|exact (ss_call _ _ _ _ _ _ _ _ 5 y0 0)]. }
  destruct (cache_login_is_exclusive no_expiry demo_logins demo_policies any_header "1" "k" "f" one_identity y0 5 y y' 0
    (mkTask 0 (LSending 0 one_identity)) eq_refl eq_refl H
    (demo_task 5 y 0%nat _ y' eq_refl (ts_locked _ _ _ _ _ _ _ _ _ _ y 0%nat one_account 5 0 LockUnavailable true eq_refl)) eq_refl eq_refl) as (H1 & H2 & _).
  by split.
Defined.
