(* ===== verification/Bundles.v ===== *)
(** Protocol bundles ([protocol.rs]'s contract and compatibility checks, [client.rs]'s
    [reload_protocol]).

    A bundle is a pool of descriptors compiled from .proto files.  The pool is
    prost-reflect's: a class of the operations the code calls on it, with what the code
    relies on as laws of a pool.  The contract fixes what the fixed routes need of a
    bundle; the compatibility check walks every message type that the routes of the
    bundle in use reach, and a reload installs only a compatible extension. *)
From Stdlib Require Import ZArith Lia Ascii String List Bool.
From stdpp Require Import base list strings decidable.
From S2P Require Import Prelude Errors Regions Http Peer Upstream.

Local Open Scope Z_scope.
Local Open Scope rust_scope.

(** * Descriptors *)
Inductive Cardinality : Type := COptional | CRequired | CRepeated.
#[export] Instance Cardinality_eq_dec : EqDecision Cardinality.
Proof. solve_decision. Defined.
Inductive Kind (M E : Type) : Type :=
| KDouble | KFloat | KInt32 | KInt64 | KUint32 | KUint64 | KSint32 | KSint64 | KFixed32 | KFixed64 | KSfixed32 | KSfixed64
| KBool | KString | KBytes
| KMessage (m : M)
| KEnum (e : E).
Arguments KDouble {M E}. Arguments KFloat {M E}. Arguments KInt32 {M E}. Arguments KInt64 {M E}. Arguments KUint32 {M E}.
Arguments KUint64 {M E}. Arguments KSint32 {M E}. Arguments KSint64 {M E}. Arguments KFixed32 {M E}. Arguments KFixed64 {M E}.
Arguments KSfixed32 {M E}. Arguments KSfixed64 {M E}. Arguments KBool {M E}. Arguments KString {M E}. Arguments KBytes {M E}.
Arguments KMessage {M E} m. Arguments KEnum {M E} e.
#[export] Instance Kind_eq_dec {M E} `{EqDecision M, EqDecision E} : EqDecision (Kind M E).
Proof. solve_decision. Defined.

(** What the code asks of prost-reflect.  [p_all_messages] is [all_messages], which only
    bounds the walk. *)
Class Reflection : Type := {
  DescriptorPool : Type;
  ServiceDescriptor : Type;
  MethodDescriptor : Type;
  MessageDescriptor : Type;
  FieldDescriptor : Type;
  EnumDescriptor : Type;
  EnumValue : Type;
  Extension : Type;
  message_eq :: EqDecision MessageDescriptor;
  enum_eq :: EqDecision EnumDescriptor;
  get_service_by_name : DescriptorPool -> string -> option ServiceDescriptor;
  get_message_by_name : DescriptorPool -> string -> option MessageDescriptor;
  get_extension_by_name : DescriptorPool -> string -> option Extension;
  p_all_messages : DescriptorPool -> list MessageDescriptor;
  methods : ServiceDescriptor -> list MethodDescriptor;
  m_name : MethodDescriptor -> string;
  m_input : MethodDescriptor -> MessageDescriptor;
  m_output : MethodDescriptor -> MessageDescriptor;
  is_client_streaming : MethodDescriptor -> bool;
  is_server_streaming : MethodDescriptor -> bool;
  options_bytes : MethodDescriptor -> list Z;
  options_bool : MethodDescriptor -> Extension -> option bool;
  full_name : MessageDescriptor -> string;
  is_map_entry : MessageDescriptor -> bool;
  fields : MessageDescriptor -> list FieldDescriptor;
  get_field : MessageDescriptor -> Z -> option FieldDescriptor;
  get_field_by_name : MessageDescriptor -> string -> option FieldDescriptor;
  f_number : FieldDescriptor -> Z;
  f_name : FieldDescriptor -> string;
  json_name : FieldDescriptor -> string;
  f_kind : FieldDescriptor -> Kind MessageDescriptor EnumDescriptor;
  cardinality : FieldDescriptor -> Cardinality;
  is_list : FieldDescriptor -> bool;
  is_map : FieldDescriptor -> bool;
  is_packed : FieldDescriptor -> bool;
  supports_presence : FieldDescriptor -> bool;
  proto3_optional : FieldDescriptor -> bool;
  containing_oneof : FieldDescriptor -> option string;
  default_value : FieldDescriptor -> option string;
  e_full_name : EnumDescriptor -> string;
  e_default : EnumDescriptor -> EnumValue;
  values : EnumDescriptor -> list EnumValue;
  get_value : EnumDescriptor -> Z -> option EnumValue;
  get_value_by_name : EnumDescriptor -> string -> option EnumValue;
  v_name : EnumValue -> string;
  v_number : EnumValue -> Z;
}.

Fixpoint rsplit_once (c : Z) (s : string) : option (string * string) :=
  match s with
  | EmptyString => None
  | String x s =>
      match rsplit_once c s with
      | Some (a, b) => Some (String x a, b)
      | None => if char_is c x then Some (EmptyString, s) else None
      end
  end.
Fixpoint trim_start_char (c : Z) (s : string) : string :=
  match s with
  | String x s' => if char_is c x then trim_start_char c s' else s
  | EmptyString => s
  end.
Definition SLASH : Z := 47.

Section bundles.
Context {R : Reflection}.

Definition invalid {A} : result AppError A := Err ProtocolDefinition.
Definition method (pool : DescriptorPool) (route : string) : result AppError MethodDescriptor :=
  x <-? ok_or (rsplit_once SLASH (trim_start_char SLASH route)) ProtocolDefinition;;
  ok_or (match get_service_by_name pool (fst x) with
         | Some s => List.find (fun m => String.eqb (m_name m) (snd x)) (methods s)
         | None => None
         end) ProtocolDefinition.

(** * The contract *)
Definition field (m : MessageDescriptor) (name : string) (kind : Kind MessageDescriptor EnumDescriptor) (repeated : bool) : result AppError unit :=
  f <-? ok_or (List.find (fun f => String.eqb (json_name f) name) (fields m)) ProtocolDefinition;;
  ensure (bool_decide (f_kind f = kind) && Bool.eqb (is_list f) repeated && negb (is_map f)) ProtocolDefinition.
Definition numbered (m : MessageDescriptor) (number : Z) (json : option string) (kind : Kind MessageDescriptor EnumDescriptor) (repeated : bool)
  : result AppError unit :=
  f <-? ok_or (get_field m number) ProtocolDefinition;;
  ensure (none_or json (String.eqb (json_name f)) && bool_decide (f_kind f = kind) && Bool.eqb (is_list f) repeated && negb (is_map f))
    ProtocolDefinition.
Fixpoint all_numbered (m : MessageDescriptor) (kind : Kind MessageDescriptor EnumDescriptor) (l : list (Z * string)) : result AppError unit :=
  match l with
  | [] => Ok tt
  | (number, key) :: l => _ <-? numbered m number (Some key) kind false;; all_numbered m kind l
  end.
Definition kind_message (f : FieldDescriptor) : option MessageDescriptor := match f_kind f with KMessage m => Some m | _ => None end.
Definition kind_enum (f : FieldDescriptor) : option EnumDescriptor := match f_kind f with KEnum e => Some e | _ => None end.

Definition pool_area_json_name (pool : DescriptorPool) : option string :=
  match method pool SERVER_LIST with
  | Ok m =>
      match get_field (m_output m) 1 with
      | Some f =>
          match kind_message f with
          | Some info => option_map json_name (get_field info 8)
          | None => None
          end
      | None => None
      end
  | Err _ => None
  end.

Definition validate_server_list (m : MethodDescriptor) : result AppError unit :=
  server <-? ok_or (match get_field (m_output m) 1 with
                    | Some f => if String.eqb (f_name f) "servers" then Some f else None
                    | None => None
                    end) ProtocolDefinition;;
  info <-? ok_or (kind_message server) ProtocolDefinition;;
  guard? is_list server && negb (is_map server) else ProtocolDefinition;;
  _ <-? all_numbered info KString
          [(1, "name"); (2, "cdnRoot"); (3, "apiServerRoot"); (4, "chatServerRoot"); (5, "atServerRoot"); (6, "liveServer");
           (7, "displayName"); (9, "ageIconSpriteName")]%string;;
  numbered info 8 None KString false.
Definition validate_player_login (m : MethodDescriptor) : result AppError unit :=
  let input := m_input m in
  _ <-? all_numbered input KString
          [(1, "sdkUid"); (2, "sdkAccessToken"); (4, "deviceModel"); (5, "operatingSystem"); (6, "clientVersion"); (8, "clientPackage"); (13, "idToken")]%string;;
  _ <-? all_numbered input KUint32 [(3, "platform"); (10, "globalChannelId"); (11, "brandId"); (12, "areaId")]%string;;
  uuid_field <-? ok_or (get_field input 7) ProtocolDefinition;;
  uuid <-? ok_or (kind_message uuid_field) ProtocolDefinition;;
  guard? String.eqb (json_name uuid_field) "uuid" && negb (is_list uuid_field) else ProtocolDefinition;;
  _ <-? numbered uuid 1 (Some "adId"%string) KString false;;
  _ <-? numbered uuid 2 (Some "identifier"%string) KString false;;
  let output := m_output m in
  credential <-? ok_or (get_field output 1) ProtocolDefinition;;
  credential_type <-? ok_or (kind_message credential) ProtocolDefinition;;
  guard? String.eqb (json_name credential) "credential" && negb (is_list credential) else ProtocolDefinition;;
  _ <-? numbered credential_type 1 (Some "id"%string) KString false;;
  _ <-? numbered credential_type 2 (Some "credential"%string) KString false;;
  _ <-? numbered output 2 (Some "cpServerId"%string) KString false;;
  _ <-? numbered output 3 (Some "cpServerName"%string) KString false;;
  numbered output 4 (Some "isNewUser"%string) KUint32 false.
Definition validate_announcements (m : MethodDescriptor) : result AppError unit :=
  f <-? ok_or (get_field_by_name (m_input m) "selected_tab") ProtocolDefinition;;
  e <-? ok_or (kind_enum f) ProtocolDefinition;;
  ensure (String.eqb (json_name f) "selectedTab" && negb (is_list f)
          && forallb (fun n => is_some (get_value e n)) [0; 1; 2]) ProtocolDefinition.

(** The [match] on the route. *)
Definition validate_fields (family route : string) (m : MethodDescriptor) : result AppError unit :=
  if String.eqb route ANNOUNCEMENT then field (m_input m) "id" KInt64 false
  else if String.eqb route PROFILE then field (m_input m) "playerProfileId" KInt64 false
  else if String.eqb route EVENT_RANKING then
    _ <-? field (m_input m) "eventId" KInt64 false;; field (m_input m) "ranks" KInt32 true
  else if String.eqb route EVENT_DECK then
    _ <-? field (m_input m) "eventId" KInt64 false;; field (m_input m) "playerId" KString false
  else if String.eqb route MUSIC_RANKING then field (m_input m) "musicId" KInt64 false
  else if String.eqb route CHALLENGE_RANKING then field (m_input m) "challengeMusicId" KInt64 false
  else if String.eqb route VERSION then
    _ <-? field (m_output m) "version" KString false;;
    if String.eqb family "global" then field (m_output m) "resourceVersion" KString false else Ok tt
  else if String.eqb route SERVER_LIST then validate_server_list m
  else if String.eqb route PLAYER_LOGIN then validate_player_login m
  else if String.eqb route WHOAMI then field (m_output m) "playerId" KString false
  else if String.eqb route ANNOUNCEMENTS then validate_announcements m
  else Ok tt.
Definition is_required (f : FieldDescriptor) : bool := bool_decide (cardinality f = CRequired).
Definition validate_route (pool : DescriptorPool) (skip_auth : Extension) (family route : string) : result AppError unit :=
  m <-? method pool route;;
  guard? negb (is_client_streaming m || is_server_streaming m) else ProtocolDefinition;;
  guard? bool_decide (options_bool m skip_auth = Some (negb (authenticated route))) else ProtocolDefinition;;
  guard? negb (existsb is_required (fields (m_input m))) else ProtocolDefinition;;
  validate_fields family route m.
Fixpoint validate_routes (pool : DescriptorPool) (skip_auth : Extension) (family : string) (routes : list string) : result AppError unit :=
  match routes with
  | [] => Ok tt
  | route :: routes => _ <-? validate_route pool skip_auth family route;; validate_routes pool skip_auth family routes
  end.
Definition validate_contract (pool : DescriptorPool) (family : string) : result AppError unit :=
  skip_auth <-? ok_or (get_extension_by_name pool "entity.method_options.skip_authentication") ProtocolDefinition;;
  validate_routes pool skip_auth family (contract_for_family family).

(** * Compatibility *)
(** What must not change of a field. *)
Definition field_shape (f : FieldDescriptor) :=
  (f_name f, json_name f, cardinality f, is_map f, is_packed f, supports_presence f, proto3_optional f, containing_oneof f, default_value f).
Definition enum_value_ok (m n : EnumDescriptor) (value : EnumValue) : bool :=
  some_and (get_value_by_name n (v_name value)) (fun v => v_number v =? v_number value)
  && bool_decide (option_map v_name (get_value n (v_number value)) = option_map v_name (get_value m (v_number value))).
Definition enum_compatible (m n : EnumDescriptor) : bool :=
  (v_number (e_default m) =? v_number (e_default n)) && String.eqb (v_name (e_default m)) (v_name (e_default n))
  && forallb (enum_value_ok m n) (values m).
(** The [match] on both kinds: the message to visit, if any. *)
Definition kind_compatible (k l : Kind MessageDescriptor EnumDescriptor) : result AppError (list MessageDescriptor) :=
  match k, l with
  | KMessage m, KMessage n =>
      if String.eqb (full_name m) (full_name n) then Ok [m] else if bool_decide (k = l) then Ok [] else invalid
  | KEnum m, KEnum n =>
      if String.eqb (e_full_name m) (e_full_name n) then (if enum_compatible m n then Ok [] else invalid)
      else if bool_decide (k = l) then Ok [] else invalid
  | _, _ => if bool_decide (k = l) then Ok [] else invalid
  end.
Fixpoint fields_compatible (b : MessageDescriptor) (xs : list FieldDescriptor) : result AppError (list MessageDescriptor) :=
  match xs with
  | [] => Ok []
  | x :: xs =>
      y <-? ok_or (get_field b (f_number x)) ProtocolDefinition;;
      guard? bool_decide (field_shape x = field_shape y) else ProtocolDefinition;;
      pushed <-? kind_compatible (f_kind x) (f_kind y);;
      rest <-? fields_compatible b xs;;
      Ok (pushed ++ rest)
  end.
Definition required_added (a b : MessageDescriptor) : bool :=
  existsb (fun added => is_required added && is_none (get_field a (f_number added))) (fields b).
(** One turn of the loop for a message that was not visited: the messages it pushes. *)
Definition message_compatible (new : DescriptorPool) (a : MessageDescriptor) : result AppError (list MessageDescriptor) :=
  b <-? ok_or (get_message_by_name new (full_name a)) ProtocolDefinition;;
  guard? Bool.eqb (is_map_entry a) (is_map_entry b) else ProtocolDefinition;;
  guard? negb (required_added a b) else ProtocolDefinition;;
  fields_compatible b (fields a).
(** [while let Some(a) = pending.pop()]; the top of [pending] is its head. *)
Fixpoint walk (fuel : nat) (new : DescriptorPool) (pending : list MessageDescriptor) (visited : list string) : option (result AppError unit) :=
  match fuel with
  | O => None
  | S fuel =>
      match pending with
      | [] => Some (Ok tt)
      | a :: pending =>
          if mem (full_name a) visited then walk fuel new pending visited
          else
            match message_compatible new a with
            | Err e => Some (Err e)
            | Ok pushed => walk fuel new (rev pushed ++ pending) (full_name a :: visited)
            end
      end
  end.

(** The descriptors of the routes: the types to visit, the last first. *)
Definition method_compatible (a b : MethodDescriptor) : bool :=
  String.eqb (full_name (m_input a)) (full_name (m_input b)) && String.eqb (full_name (m_output a)) (full_name (m_output b))
  && bool_decide (options_bytes a = options_bytes b) && negb (is_client_streaming b) && negb (is_server_streaming b).
Fixpoint routes_compatible (old new : DescriptorPool) (routes : list string) (pending : list MessageDescriptor) : result AppError (list MessageDescriptor) :=
  match routes with
  | [] => Ok pending
  | route :: routes =>
      a <-? method old route;;
      b <-? method new route;;
      guard? method_compatible a b else ProtocolDefinition;;
      routes_compatible old new routes (m_output a :: m_input a :: pending)
  end.
Definition schema_family (pool : DescriptorPool) : string := if is_ok (method pool SERVER_LIST) then "global" else "jp".
(** Enough turns: one for each message pending, one for each field of the pool. *)
Definition field_count (ms : list MessageDescriptor) : nat := list_sum (map (fun m => length (fields m)) ms).
Definition compatible (old new : DescriptorPool) : result AppError unit :=
  pending <-? routes_compatible old new (contract_for_family (schema_family old)) [];;
  match walk (S (length pending + field_count (p_all_messages old))) new pending [] with
  | Some r => r
  | None => invalid
  end.

(** * Reloading *)
Record Compiled : Type := { co_family : string; co_version : string; encoded : list Z; co_sha256 : string; co_files : Z }.
Record ProtocolStatus : Type := {
  st_family : string;
  st_version : string;
  st_sha256 : string;
  st_generation : Z;
  loaded_at : Z;
  st_files : Z;
  st_native : bool;
  st_native_sha256 : string;
}.
Record ProtocolBundle : Type := { pool : DescriptorPool; status : ProtocolStatus }.

(** [DescriptorPool::decode], and the digests of the generated codecs. *)
Context (pool_decode : list Z -> option DescriptorPool) (global_sha256 jp_sha256 : string).
Definition fingerprint (family : string) : string := if String.eqb family "global" then global_sha256 else jp_sha256.

(** [compiled] is what [proto_source::compile] makes of the directory. *)
Definition load (compiled : option Compiled) (now : Z) : result AppError ProtocolBundle :=
  c <-? ok_or compiled ProtocolDefinition;;
  p <-? ok_or (pool_decode (encoded c)) ProtocolDefinition;;
  _ <-? validate_contract p (co_family c);;
  Ok {| pool := p;
        status := {| st_family := co_family c; st_version := co_version c; st_sha256 := co_sha256 c; st_generation := 1; loaded_at := now;
                     st_files := co_files c; st_native := String.eqb (co_sha256 c) (fingerprint (co_family c));
                     st_native_sha256 := fingerprint (co_family c) |} |}.

Definition forget_versions (s : GameState) : GameState :=
  mkGame Observation_default None (snapshot s) true (cdn_root s) (credential_valid s) None None false None (client_update_required s).
(** [reload_protocol], from the lock on: [now] as the candidate is loaded, [activated] as
    it is installed. *)
Definition reload_protocol (region : Region) (compiled : option Compiled) (now activated : Z) (y : ProtocolBundle * GameState)
  : result AppError ProtocolStatus * (ProtocolBundle * GameState) :=
  let '(current, s) := y in
  match load compiled now with
  | Err e => (Err e, y)
  | Ok candidate =>
      if negb (String.eqb (st_family (status candidate)) (family region)) then (invalid, y)
      else if String.eqb (st_sha256 (status current)) (st_sha256 (status candidate)) then (Ok (status current), y)
      else match compatible (pool current) (pool candidate) with
           | Err e => (Err e, y)
           | Ok _ =>
               if st_generation (status current) =? U64_MAX then (invalid, y)
               else
                 let c := status candidate in
                 let st := {| st_family := st_family c; st_version := st_version c; st_sha256 := st_sha256 c;
                              st_generation := st_generation (status current) + 1; loaded_at := activated; st_files := st_files c;
                              st_native := st_native c; st_native_sha256 := st_native_sha256 c |} in
                 (Ok st, ({| pool := pool candidate; status := st |}, forget_versions s))
           end
  end.
(** Reloads in turn, each with the state it finds. *)
Fixpoint reloads (region : Region) (l : list (option Compiled * Z * Z * GameState)) (b : ProtocolBundle) : ProtocolBundle :=
  match l with
  | [] => b
  | (c, now, activated, s) :: l => reloads region l (fst (snd (reload_protocol region c now activated (b, s))))
  end.

(** * What the checks establish *)
(** What prost-reflect documents of a pool: messages are found by their full names,
    fields by their numbers, enum values by their names, and types refer to types of
    the pool. *)
Record pool_laws (p : DescriptorPool) : Prop := {
  law_message : forall m, In m (p_all_messages p) -> get_message_by_name p (full_name m) = Some m;
  law_named : forall n m, get_message_by_name p n = Some m -> In m (p_all_messages p) /\ full_name m = n;
  law_method : forall n s m, get_service_by_name p n = Some s -> In m (methods s) ->
    In (m_input m) (p_all_messages p) /\ In (m_output m) (p_all_messages p);
  law_kind : forall m f n, In m (p_all_messages p) -> In f (fields m) -> f_kind f = KMessage n -> In n (p_all_messages p);
  law_field : forall m f, In m (p_all_messages p) -> In f (fields m) -> get_field m (f_number f) = Some f;
  law_numbered : forall m n f, In m (p_all_messages p) -> get_field m n = Some f -> In f (fields m) /\ f_number f = n;
  law_value : forall m f e v, In m (p_all_messages p) -> In f (fields m) -> f_kind f = KEnum e -> In v (values e) ->
    get_value_by_name e (v_name v) = Some v;
  law_value_named : forall m f e n v, In m (p_all_messages p) -> In f (fields m) -> f_kind f = KEnum e ->
    get_value_by_name e n = Some v -> In v (values e) /\ v_name v = n;
}.

Definition kind_extends (k l : Kind MessageDescriptor EnumDescriptor) : Prop :=
  match k, l with
  | KMessage m, KMessage n => full_name m = full_name n
  | KEnum m, KEnum n => e_full_name m = e_full_name n /\ enum_compatible m n = true
  | _, _ => k = l
  end.
Definition field_extends (x y : FieldDescriptor) : Prop := field_shape x = field_shape y /\ kind_extends (f_kind x) (f_kind y).
Definition message_extends (new : DescriptorPool) (a : MessageDescriptor) : Prop :=
  exists b, get_message_by_name new (full_name a) = Some b /\ is_map_entry a = is_map_entry b /\
    (forall g, In g (fields b) -> cardinality g = CRequired -> get_field a (f_number g) <> None) /\
    (forall x, In x (fields a) -> exists y, get_field b (f_number x) = Some y /\ field_extends x y).
Definition children (a : MessageDescriptor) : list MessageDescriptor := omap kind_message (fields a).

(** The messages that the routes reach. *)
Inductive reaches (p : DescriptorPool) (routes : list string) : MessageDescriptor -> Prop :=
| reaches_input route m : In route routes -> method p route = Ok m -> reaches p routes (m_input m)
| reaches_output route m : In route routes -> method p route = Ok m -> reaches p routes (m_output m)
| reaches_child a c : reaches p routes a -> In c (children a) -> reaches p routes c.
Record extends (routes : list string) (old new : DescriptorPool) : Prop := {
  ext_routes : forall route, In route routes -> exists a b, method old route = Ok a /\ method new route = Ok b /\ method_compatible a b = true;
  ext_messages : forall m, reaches old routes m -> message_extends new m;
}.

Lemma in_children a c : In c (children a) <-> exists f, In f (fields a) /\ f_kind f = KMessage c.
Proof.
  unfold children. rewrite <- list_elem_of_In, list_elem_of_omap. setoid_rewrite list_elem_of_In.
  unfold kind_message. split; intros (f & Hf & Hk); exists f; (split; [done|]); [by destruct (f_kind f); simplify_eq|by rewrite Hk].
Qed.
Lemma kind_compatible_ok k l pushed :
  kind_compatible k l = Ok pushed <-> kind_extends k l /\ pushed = match k with KMessage m => [m] | _ => [] end.
Proof.
  assert (Hd : forall (P : Prop) `{Decision P} (Q : list MessageDescriptor),
             (if bool_decide P then Ok [] else invalid) = Ok Q <-> P /\ Q = []).
  { intros P HP Q. destruct (bool_decide P) eqn:E; [apply bool_decide_eq_true in E|apply bool_decide_eq_false in E]; naive_solver. }
  destruct k, l; cbn [kind_compatible kind_extends]; try (rewrite Hd; intuition congruence).
  - destruct (String.eqb _ _) eqn:E; [apply String.eqb_eq in E; naive_solver|apply String.eqb_neq in E].
    rewrite Hd. split; [intros [[= ->] _]; by destruct E|by intros [? _]].
  - destruct (String.eqb _ _) eqn:E; [apply String.eqb_eq in E; destruct (enum_compatible _ _); naive_solver|apply String.eqb_neq in E].
    rewrite Hd. split; [intros [[= ->] _]; by destruct E|by intros [[? _] _]].
Qed.
Lemma fields_compatible_ok b xs pushed :
  fields_compatible b xs = Ok pushed <->
  (forall x, In x xs -> exists y, get_field b (f_number x) = Some y /\ field_extends x y) /\ pushed = omap kind_message xs.
Proof.
  revert pushed. induction xs as [|x xs IH]; intros pushed; cbn [fields_compatible].
  { cbn. naive_solver. }
  assert (Hhead : omap kind_message (x :: xs) = match f_kind x with KMessage m => [m] | _ => [] end ++ omap kind_message xs).
  { cbn. unfold kind_message. by destruct (f_kind x). }
  rewrite Hhead. split.
  - intros H. destruct (get_field b (f_number x)) as [y|] eqn:Ey; cbn [ok_or rbind] in H; [|done].
    apply rbind_ok in H as ([] & Hs & H). apply ensure_ok, bool_decide_eq_true in Hs.
    apply rbind_ok in H as (ms & Hk & H). apply rbind_ok in H as (rest & Hr & [= <-]).
    apply kind_compatible_ok in Hk as [Hk ->]. apply IH in Hr as [Hxs ->]. split; [|done].
    intros z [<-|Hz]; [by exists y|by apply Hxs].
  - intros [H ->]. destruct (H x (or_introl eq_refl)) as (y & Ey & Es & Ek). rewrite Ey. cbn [ok_or rbind].
    rewrite bool_decide_true by done. cbn [ensure rbind]. rewrite (proj2 (kind_compatible_ok _ _ _) (conj Ek eq_refl)). cbn [rbind].
    rewrite (proj2 (IH _) (conj (fun z Hz => H z (or_intror Hz)) eq_refl)). done.
Qed.
Lemma required_added_false a b :
  required_added a b = false <-> forall g, In g (fields b) -> cardinality g = CRequired -> get_field a (f_number g) <> None.
Proof.
  unfold required_added, is_required. rewrite <- not_true_iff_false, existsb_exists. split.
  - intros H g Hg Hc Hn. apply H. exists g. by rewrite bool_decide_true, Hn by done.
  - intros H (g & Hg & Hb). apply andb_true_iff in Hb as [Hc Hn]. apply bool_decide_eq_true in Hc.
    specialize (H g Hg Hc). by destruct (get_field a (f_number g)).
Qed.
Lemma message_compatible_ok new a pushed :
  message_compatible new a = Ok pushed <-> message_extends new a /\ pushed = children a.
Proof.
  unfold message_compatible, message_extends. split.
  - intros H. destruct (get_message_by_name new (full_name a)) as [b|] eqn:Eb; cbn [ok_or rbind] in H; [|done].
    apply rbind_ok in H as ([] & Hm & H). apply ensure_ok, eqb_prop in Hm.
    apply rbind_ok in H as ([] & Hq & H). apply ensure_ok, negb_true_iff in Hq. rewrite required_added_false in Hq. apply fields_compatible_ok in H as [H ->].
    split; [|done]. by exists b.
  - intros [(b & Eb & Em & Er & Ef) ->]. rewrite Eb. cbn [ok_or rbind]. rewrite Em, eqb_reflx. cbn [ensure rbind].
    rewrite (proj2 (required_added_false a b) Er). cbn [negb ensure rbind]. by apply fields_compatible_ok.
Qed.

(** * The walk *)
Definition unvisited (visited : list string) (ms : list MessageDescriptor) : list MessageDescriptor :=
  List.filter (fun m => negb (mem (full_name m) visited)) ms.
Lemma mem_cons x y l : mem x (y :: l) = String.eqb x y || mem x l.
Proof. done. Qed.
Lemma unvisited_count visited m ms :
  field_count (unvisited visited (m :: ms)) = ((if mem (full_name m) visited then 0 else length (fields m)) + field_count (unvisited visited ms))%nat.
Proof. unfold unvisited. cbn [List.filter]. by destruct (mem (full_name m) visited). Qed.
Lemma unvisited_le n visited ms : (field_count (unvisited (n :: visited) ms) <= field_count (unvisited visited ms))%nat.
Proof.
  induction ms as [|m ms IH]; [done|]. rewrite !unvisited_count, mem_cons.
  destruct (mem (full_name m) visited), (String.eqb (full_name m) n); cbn [orb]; lia.
Qed.
Lemma unvisited_shrinks a visited ms :
  In a ms -> mem (full_name a) visited = false ->
  (field_count (unvisited (full_name a :: visited) ms) + length (fields a) <= field_count (unvisited visited ms))%nat.
Proof.
  intros Ha Hv. induction ms as [|m ms IH]; [done|]. rewrite !unvisited_count, mem_cons. destruct Ha as [->|Ha].
  - rewrite Hv, String.eqb_refl. pose proof (unvisited_le (full_name a) visited ms). cbn [orb]. lia.
  - specialize (IH Ha). destruct (mem (full_name m) visited), (String.eqb (full_name m) (full_name a)); cbn [orb]; lia.
Qed.
Lemma children_length a : (length (children a) <= length (fields a))%nat.
Proof. unfold children. induction (fields a) as [|f l IH]; [done|]. cbn. destruct (kind_message f); cbn; lia. Qed.

Section walk.
Context (old new : DescriptorPool) (laws : pool_laws old).
Notation all := (p_all_messages old).

Lemma child_in a c : In a all -> In c (children a) -> In c all.
Proof using laws. intros Ha Hc. apply in_children in Hc as (f & Hf & Hk). by eapply (law_kind old laws a f). Qed.
Lemma same_name a b : In a all -> In b all -> full_name a = full_name b -> a = b.
Proof using laws. intros Ha Hb E. pose proof (law_message old laws a Ha) as H. pose proof (law_message old laws b Hb). congruence. Qed.
Lemma pushed_in a pending : In a all -> Forall (fun m => In m all) pending -> Forall (fun m => In m all) (rev (children a) ++ pending).
Proof using laws.
  intros Ha Hp. apply Forall_app. split; [|done]. apply List.Forall_forall. intros c Hc. apply in_rev in Hc. by apply (child_in a).
Qed.

Lemma walk_answers fuel pending visited :
  Forall (fun m => In m all) pending -> (length pending + field_count (unvisited visited all) < fuel)%nat ->
  exists r, walk fuel new pending visited = Some r.
Proof using laws.
  revert pending visited. induction fuel as [|fuel IH]; intros pending visited Hp Hf; [lia|].
  destruct pending as [|a pending]; cbn [walk]; [by eexists|]. apply Forall_cons_1 in Hp as [Ha Hp].
  destruct (mem (full_name a) visited) eqn:Ev. { apply IH; [done|]. cbn in Hf. lia. }
  destruct (message_compatible new a) as [pushed|e] eqn:Ec; [|by eexists].
  apply message_compatible_ok in Ec as [_ ->]. apply IH; [by apply pushed_in|].
  pose proof (unvisited_shrinks a visited all Ha Ev). pose proof (children_length a).
  rewrite length_app, length_rev. cbn in Hf. lia.
Qed.

(** Visited types extend, and what they refer to is visited or pending. *)
Definition walked (pending : list MessageDescriptor) (visited : list string) : Prop :=
  forall m, In m all -> mem (full_name m) visited = true ->
    message_extends new m /\ forall c, In c (children m) -> In c pending \/ mem (full_name c) visited = true.
Lemma walk_sound fuel pending visited :
  Forall (fun m => In m all) pending -> walked pending visited -> walk fuel new pending visited = Some (Ok tt) ->
  exists final, (forall n, mem n visited = true -> mem n final = true) /\ (forall m, In m pending -> mem (full_name m) final = true) /\ walked [] final.
Proof using laws.
  revert pending visited. induction fuel as [|fuel IH]; intros pending visited Hp Hw H; [done|].
  destruct pending as [|a pending]; cbn [walk] in H; [by exists visited|]. apply Forall_cons_1 in Hp as [Ha Hp].
  destruct (mem (full_name a) visited) eqn:Ev.
  - destruct (IH pending visited Hp) as (final & H1 & H2 & H3); [|done|].
    + intros m Hm Hv. destruct (Hw m Hm Hv) as [He Hc]. split; [done|]. intros c [[<-|Hc']|Hc']%Hc; auto.
    + exists final. split; [done|]. split; [|done]. intros m [<-|Hm]; auto.
  - destruct (message_compatible new a) as [pushed|e] eqn:Ec; [|done]. apply message_compatible_ok in Ec as [He ->].
    destruct (IH (rev (children a) ++ pending) (full_name a :: visited)) as (final & H1 & H2 & H3); [by apply pushed_in| |done|].
    + intros m Hm Hv. rewrite mem_cons in Hv. apply orb_true_iff in Hv as [Hv|Hv].
      * apply String.eqb_eq in Hv. assert (m = a) as -> by (by apply same_name). split; [done|].
        intros c Hc. left. apply in_app_iff. left. by apply in_rev in Hc.
      * destruct (Hw m Hm Hv) as [Hm' Hc]. split; [done|]. intros c [[<-|Hc']|Hc']%Hc.
        -- right. by rewrite mem_cons, String.eqb_refl.
        -- left. apply in_app_iff. by right.
        -- right. rewrite mem_cons, Hc'. apply orb_true_r.
    + exists final. split; [|split; [|done]].
      * intros n Hn. apply H1. rewrite mem_cons, Hn. apply orb_true_r.
      * intros m [<-|Hm]; [apply H1; by rewrite mem_cons, String.eqb_refl|]. apply H2, in_app_iff. by right.
Qed.
Lemma walk_complete (P : MessageDescriptor -> Prop) fuel pending visited e :
  (forall m, P m -> message_extends new m) -> (forall m c, P m -> In c (children m) -> P c) -> Forall P pending ->
  walk fuel new pending visited <> Some (Err e).
Proof.
  intros He Hc. revert pending visited. induction fuel as [|fuel IH]; intros pending visited Hp; [done|].
  destruct pending as [|a pending]; cbn [walk]; [done|]. apply Forall_cons_1 in Hp as [Ha Hp].
  destruct (mem _ _); [by apply IH|]. rewrite (proj2 (message_compatible_ok new a _) (conj (He a Ha) eq_refl)).
  apply IH, Forall_app. split; [|done]. apply List.Forall_forall. intros c Hin. apply in_rev in Hin. by apply (Hc a).
Qed.
End walk.

(** * Extensions *)
Lemma method_in p route m : pool_laws p -> method p route = Ok m -> In (m_input m) (p_all_messages p) /\ In (m_output m) (p_all_messages p).
Proof.
  intros laws H. unfold method in H. apply rbind_ok in H as (x & _ & H).
  destruct (get_service_by_name p (fst x)) as [sv|] eqn:Es; [|done].
  destruct (List.find _ _) as [m'|] eqn:Ef; [|done]. injection H as ->. apply find_some in Ef as [Ef _]. by eapply law_method.
Qed.
Lemma reaches_in p routes m : pool_laws p -> reaches p routes m -> In m (p_all_messages p).
Proof.
  intros laws. induction 1 as [route m _ H|route m _ H|a c _ IH Hc]; [by apply (method_in p route)..|by apply (child_in p laws a)].
Qed.
Lemma routes_compatible_ok old new routes pending out :
  routes_compatible old new routes pending = Ok out ->
  (forall route, In route routes -> exists a b, method old route = Ok a /\ method new route = Ok b /\ method_compatible a b = true) /\
  (forall m, In m out <-> In m pending \/ exists route a, In route routes /\ method old route = Ok a /\ (m = m_input a \/ m = m_output a)).
Proof.
  revert pending. induction routes as [|route routes IH]; intros pending H; cbn [routes_compatible] in H.
  { injection H as <-. split; [done|]. intros m. naive_solver. }
  apply rbind_ok in H as (a & Ha & H). apply rbind_ok in H as (b & Hb & H). apply rbind_ok in H as ([] & Hc & H). apply ensure_ok in Hc.
  apply IH in H as [H1 H2]. split.
  - intros r [<-|Hr]; [by exists a, b|by apply H1].
  - intros m. rewrite H2. cbn [In]. split.
    + intros [[<-|[<-|Hm]]|(r & x & Hr & Hx)]; [right; exists route, a; auto..|by left|right; exists r, x; naive_solver].
    + intros [Hm|(r & x & [<-|Hr] & Hx & Hm)]; [tauto| |right; by exists r, x].
      assert (x = a) as -> by congruence. destruct Hm as [->| ->]; auto.
Qed.
Lemma routes_compatible_defined old new routes pending :
  (forall route, In route routes -> exists a b, method old route = Ok a /\ method new route = Ok b /\ method_compatible a b = true) ->
  exists out, routes_compatible old new routes pending = Ok out.
Proof.
  revert pending. induction routes as [|route routes IH]; intros pending H; cbn [routes_compatible]; [by eexists|].
  destruct (H route (or_introl eq_refl)) as (a & b & -> & -> & Hc). cbn [rbind]. rewrite Hc. cbn [ensure rbind].
  apply IH. intros r Hr. apply H. by right.
Qed.
Lemma unvisited_nil ms : unvisited [] ms = ms.
Proof. unfold unvisited. cbn. induction ms as [|m ms IH]; [done|]. cbn. by rewrite IH. Qed.

(** The check accepts exactly the extensions, and always answers. *)
Lemma compatible_exact old new :
  pool_laws old -> compatible old new = Ok tt <-> extends (contract_for_family (schema_family old)) old new.
Proof.
  intros laws. unfold compatible. set (routes := contract_for_family (schema_family old)).
  assert (Hroots : forall out, routes_compatible old new routes [] = Ok out ->
            Forall (fun m => In m (p_all_messages old)) out /\ Forall (reaches old routes) out /\
            exists r, walk (S (length out + field_count (p_all_messages old))) new out [] = Some r).
  { intros out H. apply routes_compatible_ok in H as [_ Hout].
    assert (Hr : Forall (reaches old routes) out).
    { apply List.Forall_forall. intros m [[]|(route & a & Hin & Ha & [->| ->])]%Hout; [by apply (reaches_input _ _ route)|by apply (reaches_output _ _ route)]. }
    assert (Hp : Forall (fun m => In m (p_all_messages old)) out).
    { eapply List.Forall_impl; [|exact Hr]. intros m. by apply reaches_in. }
    split; [done|]. split; [done|]. apply (walk_answers old new laws); [done|]. rewrite unvisited_nil. lia. }
  split.
  - intros H. apply rbind_ok in H as (out & Hout & H). destruct (Hroots out Hout) as (Hp & _ & r & Hr). rewrite Hr in H. subst r.
    destruct (routes_compatible_ok _ _ _ _ _ Hout) as [Hm Hin]. split; [done|].
    destruct (walk_sound old new laws _ out [] Hp ltac:(intros m _; discriminate) Hr) as (final & _ & Hfinal & Hw).
    assert (Hv : forall m, reaches old routes m -> mem (full_name m) final = true).
    { induction 1 as [route m Hr' Hm'|route m Hr' Hm'|a c Ha IH Hc]; [apply Hfinal, Hin; right; exists route, m; auto..|].
      destruct (Hw a (reaches_in _ _ _ laws Ha) IH) as [_ Hcs]. by destruct (Hcs c Hc). }
    intros m Hr'. by destruct (Hw m (reaches_in _ _ _ laws Hr') (Hv m Hr')).
  - intros [H1 H2]. destruct (routes_compatible_defined old new routes [] H1) as [out Hout]. rewrite Hout. cbn [rbind].
    destruct (Hroots out Hout) as (_ & Hr & [[]|e] & Hw); rewrite Hw; [done|].
    by apply (walk_complete new (reaches old routes)) in Hw; [| |intros m c; apply reaches_child|].
Qed.

Lemma reaches_mono p r1 r2 m : incl r1 r2 -> reaches p r1 m -> reaches p r2 m.
Proof.
  intros Hi. induction 1 as [route m Hr Hm|route m Hr Hm|a c _ IH Hc];
    [apply (reaches_input _ _ route); auto|apply (reaches_output _ _ route); auto|by apply (reaches_child _ _ a)].
Qed.
Lemma extends_mono r1 r2 old new : incl r1 r2 -> extends r2 old new -> extends r1 old new.
Proof. intros Hi [H1 H2]. split; [intros route Hr; by apply H1, Hi|]. intros m Hm. by apply H2, (reaches_mono _ r1). Qed.

Lemma method_compatible_spec a b :
  method_compatible a b = true <->
  full_name (m_input a) = full_name (m_input b) /\ full_name (m_output a) = full_name (m_output b) /\ options_bytes a = options_bytes b /\
  is_client_streaming b = false /\ is_server_streaming b = false.
Proof. unfold method_compatible. rewrite !andb_true_iff, !String.eqb_eq, bool_decide_eq_true, !negb_true_iff. tauto. Qed.
Lemma enum_compatible_spec m n :
  enum_compatible m n = true <->
  v_number (e_default m) = v_number (e_default n) /\ v_name (e_default m) = v_name (e_default n) /\
  forall v, In v (values m) -> exists w, get_value_by_name n (v_name v) = Some w /\ v_number w = v_number v /\
    option_map v_name (get_value n (v_number v)) = option_map v_name (get_value m (v_number v)).
Proof.
  unfold enum_compatible, enum_value_ok. rewrite !andb_true_iff, Z.eqb_eq, String.eqb_eq, forallb_forall.
  setoid_rewrite andb_true_iff. setoid_rewrite bool_decide_eq_true.
  assert (Hv : forall v, some_and (get_value_by_name n (v_name v)) (fun w => v_number w =? v_number v) = true <->
            exists w, get_value_by_name n (v_name v) = Some w /\ v_number w = v_number v).
  { intros v. destruct (get_value_by_name n (v_name v)) as [w|]; cbn; [rewrite Z.eqb_eq|]; naive_solver. }
  setoid_rewrite Hv. naive_solver.
Qed.

Lemma enum_compatible_trans m n o :
  (forall s v, get_value_by_name n s = Some v -> In v (values n) /\ v_name v = s) ->
  enum_compatible m n = true -> enum_compatible n o = true -> enum_compatible m o = true.
Proof.
  intros Hn. rewrite !enum_compatible_spec. intros (D1 & D2 & H) (D3 & D4 & H'). split; [congruence|]. split; [congruence|].
  intros v Hv. destruct (H v Hv) as (w & Hw & Ew & En). destruct (Hn _ _ Hw) as [Hin Enm].
  destruct (H' w Hin) as (u & Hu & Eu & En'). rewrite Ew in En'. exists u. rewrite <- Enm. split; [done|]. split; congruence.
Qed.
Lemma field_extends_trans p b x y z :
  pool_laws p -> In b (p_all_messages p) -> In y (fields b) -> field_extends x y -> field_extends y z -> field_extends x z.
Proof.
  intros laws Hb Hy [S1 K1] [S2 K2]. split; [congruence|].
  destruct (f_kind x), (f_kind y) eqn:Ey; cbn in K1; try discriminate K1; destruct (f_kind z); cbn in K2 |- *; try discriminate K2; try done.
  - congruence.
  - destruct K1 as [E1 C1], K2 as [E2 C2]. split; [congruence|]. eapply enum_compatible_trans; [|done|done].
    intros s v. by eapply law_value_named.
Qed.
Lemma message_extends_trans p q a b :
  pool_laws p -> pool_laws q -> get_message_by_name p (full_name a) = Some b ->
  message_extends p a -> message_extends q b -> message_extends q a.
Proof.
  intros lp lq Hb (b' & Hb' & M1 & R1 & F1) (c & Hc & M2 & R2 & F2). assert (b' = b) as -> by congruence.
  destruct (law_named p lp _ _ Hb) as [Hin En]. rewrite En in Hc. destruct (law_named q lq _ _ Hc) as [Hinc _].
  exists c. split; [done|]. split; [congruence|]. split.
  - intros g Hg Hr. specialize (R2 g Hg Hr). destruct (get_field b (f_number g)) as [y|] eqn:Ey; [|done].
    destruct (law_numbered p lp _ _ _ Hin Ey) as [Hy Hn]. destruct (F2 y Hy) as (z & Hz & [Sz _]).
    rewrite Hn, (law_field q lq c g Hinc Hg) in Hz. injection Hz as <-. rewrite <- Hn. apply R1; [done|].
    unfold field_shape in Sz. congruence.
  - intros x Hx. destruct (F1 x Hx) as (y & Hy & Hxy). destruct (law_numbered p lp _ _ _ Hin Hy) as [Hyin Hn].
    destruct (F2 y Hyin) as (z & Hz & Hyz). exists z. rewrite <- Hn. split; [done|]. by apply (field_extends_trans p b x y z).
Qed.
(** What the old pool reaches, the new one reaches under the same names. *)
Lemma extends_reaches routes old new m :
  pool_laws new -> extends routes old new -> reaches old routes m ->
  exists b, reaches new routes b /\ get_message_by_name new (full_name m) = Some b.
Proof.
  intros laws He. induction 1 as [route a Hr Ha|route a Hr Ha|a c Ha (b & Hb & Eb) Hc].
  - destruct (ext_routes _ _ _ He route Hr) as (a' & b & Ha' & Hb & Hm). assert (a' = a) as -> by congruence.
    apply method_compatible_spec in Hm as (-> & _). exists (m_input b). split; [by apply (reaches_input _ _ route)|].
    apply law_message; [done|]. by apply (method_in new route).
  - destruct (ext_routes _ _ _ He route Hr) as (a' & b & Ha' & Hb & Hm). assert (a' = a) as -> by congruence.
    apply method_compatible_spec in Hm as (_ & -> & _). exists (m_output b). split; [by apply (reaches_output _ _ route)|].
    apply law_message; [done|]. by apply (method_in new route).
  - destruct (ext_messages _ _ _ He a Ha) as (b' & Eb' & _ & _ & Hf). assert (b' = b) as -> by congruence.
    destruct (law_named _ laws _ _ Eb) as [Hin _]. apply in_children in Hc as (f & Hf' & Hk). destruct (Hf f Hf') as (y & Hy & [_ Hext]).
    destruct (law_numbered _ laws _ _ _ Hin Hy) as [Hyin _]. rewrite Hk in Hext. destruct (f_kind y) eqn:Ey; cbn in Hext; try discriminate Hext.
    exists m. assert (Hcm : In m (children b)) by (apply in_children; by exists y). split; [by apply (reaches_child _ _ b)|].
    rewrite Hext. apply (law_message _ laws). by apply (child_in new laws b).
Qed.
Lemma extends_trans routes p q r :
  pool_laws q -> pool_laws r -> extends routes p q -> extends routes q r -> extends routes p r.
Proof.
  intros lq lr H1 H2. split.
  - intros route Hr. destruct (ext_routes _ _ _ H1 route Hr) as (a & b & Ha & Hb & Hm).
    destruct (ext_routes _ _ _ H2 route Hr) as (b' & c & Hb' & Hc & Hm'). assert (b' = b) as -> by congruence.
    exists a, c. split; [done|]. split; [done|]. rewrite method_compatible_spec in *. intuition congruence.
  - intros m Hm. destruct (extends_reaches _ _ _ _ lq H1 Hm) as (b & Hb & Eb).
    apply (message_extends_trans q r m b); auto; [by apply (ext_messages _ _ _ H1)|by apply (ext_messages _ _ _ H2)].
Qed.

Lemma message_extends_refl p m : pool_laws p -> In m (p_all_messages p) -> message_extends p m.
Proof.
  intros laws Hm. exists m. split; [by apply law_message|]. split; [done|]. split.
  - intros g Hg _. by rewrite (law_field p laws m g Hm Hg).
  - intros x Hx. exists x. split; [by apply (law_field p laws)|]. split; [done|]. destruct (f_kind x) eqn:Ek; cbn; try done.
    split; [done|]. rewrite enum_compatible_spec. split; [done|]. split; [done|]. intros v Hv. exists v. by rewrite (law_value p laws m x e v).
Qed.
Lemma validated_route p family route :
  validate_contract p family = Ok tt -> In route (contract_for_family family) ->
  exists m, method p route = Ok m /\ is_client_streaming m = false /\ is_server_streaming m = false.
Proof.
  unfold validate_contract. intros H. apply rbind_ok in H as (ext & _ & H). induction (contract_for_family family) as [|r l IH]; [done|].
  cbn [validate_routes] in H. apply rbind_ok in H as ([] & Hr & H). intros [<-|Hin]; [|by apply IH].
  unfold validate_route in Hr. apply rbind_ok in Hr as (m & Hm & Hr). apply rbind_ok in Hr as ([] & Hs & _).
  apply ensure_ok, negb_true_iff, orb_false_iff in Hs. by exists m.
Qed.
Lemma extends_refl p family : pool_laws p -> validate_contract p family = Ok tt -> extends (contract_for_family family) p p.
Proof.
  intros laws Hv. split.
  - intros route Hr. destruct (validated_route _ _ _ Hv Hr) as (m & Hm & H1 & H2). exists m, m. split; [done|]. split; [done|].
    by rewrite method_compatible_spec.
  - intros m Hm. apply message_extends_refl; [done|]. by apply (reaches_in _ (contract_for_family family)).
Qed.

(** * Reloads *)
(** The routes that every reload compares: [schema_family] takes a bundle of another
    family that defines the server list for a Global one, whose contract has no Whoami. *)
Definition compared_routes (family : string) : list string :=
  if String.eqb family "global" then GLOBAL_CONTRACT else List.filter (fun r => negb (String.eqb r WHOAMI)) ROUTES.
Lemma compared_in_contract p family :
  validate_contract p family = Ok tt -> incl (compared_routes family) (contract_for_family (schema_family p)).
Proof.
  intros Hv. unfold compared_routes. destruct (String.eqb family "global") eqn:Ef.
  - destruct (validated_route p family SERVER_LIST Hv) as (m & Hm & _). { unfold contract_for_family. rewrite Ef. cbn. tauto. }
    unfold schema_family. rewrite Hm. cbn. by intros r.
  - unfold schema_family, contract_for_family. destruct (is_ok _); intros r Hr; cbn in *; tauto.
Qed.
Lemma compared_in_family family : incl (compared_routes family) (contract_for_family family).
Proof. unfold compared_routes, contract_for_family. destruct (String.eqb family "global"); intros r Hr; cbn in *; tauto. Qed.

Context (decoded : forall bytes p, pool_decode bytes = Some p -> pool_laws p).

Record bundle_ok (region : Region) (b : ProtocolBundle) : Prop := {
  bundle_valid : validate_contract (pool b) (family region) = Ok tt;
  bundle_laws : pool_laws (pool b);
}.
Lemma load_ok c now b region : load c now = Ok b -> st_family (status b) = family region -> bundle_ok region b.
Proof using decoded.
  unfold load. intros H Hf. apply rbind_ok in H as (x & _ & H). apply rbind_ok in H as (p & Hp & H). apply rbind_ok in H as ([] & Hv & [= <-]).
  cbn in Hf. rewrite Hf in Hv. split; [done|]. destruct (pool_decode (encoded x)) as [q|] eqn:E; cbn in Hp; [|done].
  injection Hp as <-. by apply (decoded (encoded x)).
Qed.
(** One reload. *)
Lemma reload_cases region c now activated b s r b' s' :
  bundle_ok region b -> reload_protocol region c now activated (b, s) = (r, (b', s')) ->
  (b' = b /\ s' = s) \/
  (r = Ok (status b') /\ bundle_ok region b' /\ extends (contract_for_family (schema_family (pool b))) (pool b) (pool b') /\
   st_generation (status b') = st_generation (status b) + 1 /\ st_generation (status b) <> U64_MAX /\
   st_sha256 (status b') <> st_sha256 (status b) /\ s' = forget_versions s).
Proof using decoded.
  intros Hb H. unfold reload_protocol in H. destruct (load c now) as [cand|e] eqn:El; [|injection H as <- <- <-; by left].
  destruct (String.eqb (st_family (status cand)) (family region)) eqn:Ef; cbn [negb] in H; [|injection H as <- <- <-; by left].
  destruct (String.eqb (st_sha256 (status b)) _) eqn:Es; [injection H as <- <- <-; by left|].
  destruct (compatible (pool b) (pool cand)) as [[]|e] eqn:Ec; [|injection H as <- <- <-; by left].
  destruct (st_generation (status b) =? U64_MAX) eqn:Eg; injection H as <- <- <-; [by left|right].
  bool_prop. destruct (load_ok c now cand region El Ef) as [Hv Hl]. split; [done|]. split; [by split|].
  split; [apply compatible_exact; [apply (bundle_laws region b Hb)|done]|]. cbn. split; [done|]. split; [done|]. split; [congruence|done].
Qed.

(** C39: However often the protocol of a region is reloaded, whatever the directories then
    held, the bundle in use fulfils the contract of its family and extends the first one
    over every RPC compared and every message type those reach; each reload leaves
    bundle and state as they are or installs the next generation, a compatible one, and
    forgets the versions observed. *)
Theorem reloads_extend_the_schema region c0 now0 b0 l c now activated s r b' s' :
  load c0 now0 = Ok b0 -> st_family (status b0) = family region ->
  let b := reloads region l b0 in
  reload_protocol region c now activated (b, s) = (r, (b', s')) ->
  (validate_contract (pool b') (family region) = Ok tt /\ extends (compared_routes (family region)) (pool b0) (pool b')) /\
  ((b' = b /\ s' = s) \/
   (r = Ok (status b') /\ compatible (pool b) (pool b') = Ok tt /\ st_generation (status b') = st_generation (status b) + 1 /\ s' = forget_versions s)) /\
  1 <= st_generation (status b') <= U64_MAX.
Proof using decoded.
  intros H0 Hf b H.
  set (P x := bundle_ok region x /\ extends (compared_routes (family region)) (pool b0) (pool x) /\ 1 <= st_generation (status x) <= U64_MAX).
  assert (Hstep : forall x c now activated s r x' s', P x -> reload_protocol region c now activated (x, s) = (r, (x', s')) -> P x').
  { intros x c1 n1 a1 s1 r1 x' s1' (Hx & He & Hg) Hx'. destruct (reload_cases _ _ _ _ _ _ _ _ _ Hx Hx') as [[-> _]|(_ & Hok & Hext & Eg & Hmax & _)]; [done|].
    split; [done|]. split; [|lia]. apply (extends_trans _ _ (pool x)); [apply (bundle_laws region x Hx)|apply (bundle_laws region x' Hok)|done|].
    eapply extends_mono; [apply compared_in_contract, (bundle_valid region x Hx)|done]. }
  assert (Hb : P b).
  { assert (Hstart : P b0).
    { pose proof (load_ok _ _ _ _ H0 Hf) as Hok. split; [done|]. split.
      - eapply extends_mono; [apply compared_in_family|]. apply extends_refl; [apply (bundle_laws region b0 Hok)|apply (bundle_valid region b0 Hok)].
      - unfold load in H0. apply rbind_ok in H0 as (x & _ & H0). apply rbind_ok in H0 as (p & _ & H0). apply rbind_ok in H0 as ([] & _ & [= <-]). cbn. done. }
    unfold b. clearbody P. revert Hstart. generalize b0. clear -Hstep. induction l as [|[[[c1 n1] a1] s1] l IH]; intros x Hx; cbn [reloads]; [done|].
    apply IH. destruct (reload_protocol region c1 n1 a1 (x, s1)) as [r1 [x' s1']] eqn:E. by apply (Hstep _ _ _ _ _ _ _ _ Hx E). }
  destruct (Hstep _ _ _ _ _ _ _ _ Hb H) as (Hok & He & Hg). split; [split; [apply (bundle_valid region b' Hok)|done]|]. split; [|done].
  destruct (reload_cases _ _ _ _ _ _ _ _ _ (proj1 Hb) H) as [Hl|(-> & _ & Hext & Eg & _ & _ & ->)]; [by left|right].
  split; [done|]. split; [by apply compatible_exact; [apply (bundle_laws region b (proj1 Hb))|]|]. by split.
Qed.
End bundles.
