(* ===== verification/BundleExamples.v ===== *)
(** A concrete pool of descriptors, and the reload theorem at a bundle that gains a field,
    an enum value and a message. *)
From Stdlib Require Import ZArith Lia Ascii String List Bool.
From stdpp Require Import base list strings decidable.
From S2P Require Import Prelude Errors Regions Http Peer Upstream Bundles.

Local Open Scope Z_scope.
Local Open Scope string_scope.

(** * Pools as data *)
Record FieldData : Type := mkField { fd_number : Z; fd_name : string; fd_json : string; fd_kind : Kind string string; fd_list : bool }.
Record MethodData : Type := mkMethod { md_name : string; md_input : string; md_output : string; md_open : bool }.
Record PoolData : Type := mkPool {
  pd_services : list (string * list MethodData);
  pd_messages : list (string * list FieldData);
  pd_enums : list (string * list (string * Z));
}.
#[export] Instance FieldData_eq_dec : EqDecision FieldData.
Proof. solve_decision. Defined.
#[export] Instance MethodData_eq_dec : EqDecision MethodData.
Proof. solve_decision. Defined.
#[export] Instance PoolData_eq_dec : EqDecision PoolData.
Proof. solve_decision. Defined.
Definition named {A} (n : string) (l : list (string * A)) : option A := option_map snd (List.find (fun kv => String.eqb (fst kv) n) l).
Definition entries_of {A} (n : string) (l : list (string * list A)) : list A := match named n l with Some x => x | None => [] end.
Definition pool_kind (p : PoolData) (k : Kind string string) : Kind (PoolData * string) (PoolData * string) :=
  match k with
  | KMessage n => KMessage (p, n) | KEnum n => KEnum (p, n) | KInt64 => KInt64 | KInt32 => KInt32 | KUint32 => KUint32 | KString => KString
  | KBool => KBool | _ => KBytes
  end.
Definition data_fields (m : PoolData * string) : list (PoolData * FieldData) := map (pair (fst m)) (entries_of (snd m) (pd_messages (fst m))).
Definition data_values (e : PoolData * string) : list (string * Z) := entries_of (snd e) (pd_enums (fst e)).

#[export] Instance data_reflection : Reflection := {|
  DescriptorPool := PoolData; ServiceDescriptor := PoolData * list MethodData; MethodDescriptor := PoolData * MethodData;
  MessageDescriptor := PoolData * string; FieldDescriptor := PoolData * FieldData; EnumDescriptor := PoolData * string;
  EnumValue := string * Z; Extension := unit;
  message_eq := _; enum_eq := _;
  get_service_by_name p n := option_map (pair p) (named n (pd_services p));
  get_message_by_name p n := if is_some (named n (pd_messages p)) then Some (p, n) else None;
  get_extension_by_name _ n := if String.eqb n "entity.method_options.skip_authentication" then Some tt else None;
  p_all_messages p := map (fun kv => (p, fst kv)) (pd_messages p);
  methods s := map (pair (fst s)) (snd s);
  m_name m := md_name (snd m);
  m_input m := (fst m, md_input (snd m));
  m_output m := (fst m, md_output (snd m));
  is_client_streaming _ := false;
  is_server_streaming _ := false;
  options_bytes m := [if md_open (snd m) then 1 else 0];
  options_bool m _ := Some (md_open (snd m));
  full_name := snd;
  is_map_entry _ := false;
  fields := data_fields;
  get_field m n := List.find (fun f => Z.eqb (fd_number (snd f)) n) (data_fields m);
  get_field_by_name m n := List.find (fun f => String.eqb (fd_name (snd f)) n) (data_fields m);
  f_number f := fd_number (snd f);
  f_name f := fd_name (snd f);
  json_name f := fd_json (snd f);
  f_kind f := pool_kind (fst f) (fd_kind (snd f));
  cardinality f := if fd_list (snd f) then CRepeated else COptional;
  is_list f := fd_list (snd f);
  is_map _ := false;
  is_packed f := fd_list (snd f);
  supports_presence _ := false;
  proto3_optional _ := false;
  containing_oneof _ := None;
  default_value _ := None;
  e_full_name := snd;
  e_default e := match data_values e with v :: _ => v | [] => ("", 0) end;
  values := data_values;
  get_value e n := List.find (fun v => Z.eqb (snd v) n) (data_values e);
  get_value_by_name e n := List.find (fun v => String.eqb (fst v) n) (data_values e);
  v_name := fst;
  v_number := snd;
|}.

(** * Two bundles of the Japanese client *)
Definition open_method (n : string) : MethodData := mkMethod n "Request" "Response" true.
Definition private_method (n : string) : MethodData := mkMethod n "Request" "Response" false.
Definition jp_services : list (string * list MethodData) :=
  [("app.masterdata.MasterdataService", [open_method "Version"]);
   ("app.announcement.AnnouncementService", [open_method "GetList"; open_method "Get"]);
   ("app.event.EventService", [private_method "GetRankingList"; private_method "GetDeck"; private_method "GetChallengeMusicRanking"]);
   ("app.livemusic.LiveMusicService", [private_method "GetRanking"]);
   ("app.player.PlayerService", [private_method "Whoami"; private_method "GetPlayerData"]);
   ("app.friend.FriendService", [private_method "FindByProfileID"])].
Definition request_fields : list FieldData :=
  [mkField 1 "id" "id" KInt64 false; mkField 2 "player_profile_id" "playerProfileId" KInt64 false; mkField 3 "event_id" "eventId" KInt64 false;
   mkField 4 "ranks" "ranks" KInt32 true; mkField 5 "player_id" "playerId" KString false; mkField 6 "music_id" "musicId" KInt64 false;
   mkField 7 "challenge_music_id" "challengeMusicId" KInt64 false; mkField 8 "selected_tab" "selectedTab" (KEnum "Tab") false].
Definition response_fields : list FieldData :=
  [mkField 1 "version" "version" KString false; mkField 2 "player_id" "playerId" KString false; mkField 3 "entries" "entries" (KMessage "Entry") true].
Definition tabs : list (string * Z) := [("ALL", 0); ("NEWS", 1); ("BUG", 2)].
Definition first_pool : PoolData :=
  mkPool jp_services
    [("Request", request_fields); ("Response", response_fields); ("Entry", [mkField 1 "rank" "rank" KInt32 false; mkField 2 "parent" "parent" (KMessage "Entry") false])]
    [("Tab", tabs)].
Definition second_pool : PoolData :=
  mkPool jp_services
    [("Badge", [mkField 1 "id" "id" KInt64 false]); ("Request", request_fields); ("Response", response_fields);
     ("Entry", [mkField 3 "badge" "badge" (KMessage "Badge") false; mkField 1 "rank" "rank" KInt32 false; mkField 2 "parent" "parent" (KMessage "Entry") false])]
    [("Tab", (tabs ++ [("EVENT", 3)])%list)].
(** The same with the rank of an entry as a text. *)
Definition breaking_pool : PoolData :=
  mkPool jp_services
    [("Request", request_fields); ("Response", response_fields); ("Entry", [mkField 1 "rank" "rank" KString false])]
    [("Tab", tabs)].

Definition pool_of (bytes : list Z) : option PoolData :=
  match bytes with [1] => Some first_pool | [2] => Some second_pool | [3] => Some breaking_pool | _ => None end.
Definition compiled_of (n : Z) (sha256 : string) : Compiled := {| co_family := "jp"; co_version := "1"; encoded := [n]; co_sha256 := sha256; co_files := 3 |}.

Example first_is_valid : validate_contract first_pool "jp" = Ok tt /\ validate_contract second_pool "jp" = Ok tt.
Proof. split; vm_compute; reflexivity. Qed.
Example second_extends_first : compatible first_pool second_pool = Ok tt.
Proof. vm_compute. reflexivity. Qed.
Example first_does_not_extend_second : compatible second_pool first_pool = Err ProtocolDefinition.
Proof. vm_compute. reflexivity. Qed.
Example rank_keeps_its_kind : compatible first_pool breaking_pool = Err ProtocolDefinition.
Proof. vm_compute. reflexivity. Qed.

(** * The laws *)
Definition known (p : PoolData) (n : string) : bool := is_some (named n (pd_messages p)).
Definition field_wf (p : PoolData) (m : PoolData * string) (f : PoolData * FieldData) : bool :=
  bool_decide (get_field (Reflection := data_reflection) m (fd_number (snd f)) = Some f)
  && match pool_kind (fst f) (fd_kind (snd f)) with
     | KMessage n => bool_decide (fst n = p) && known p (snd n)
     | KEnum e => forallb (fun v => bool_decide (get_value_by_name (Reflection := data_reflection) e (fst v) = Some v)) (data_values e)
     | _ => true
     end.
Definition pool_wf (p : PoolData) : bool :=
  forallb (fun kv => forallb (fun m => known p (md_input m) && known p (md_output m)) (snd kv)) (pd_services p)
  && forallb (fun kv => forallb (field_wf p (p, fst kv)) (data_fields (p, fst kv))) (pd_messages p).

Lemma named_in {A} n (l : list (string * A)) x : named n l = Some x -> In (n, x) l.
Proof.
  unfold named. destruct (List.find _ l) as [kv|] eqn:E; [|done]. intros [= <-]. apply find_some in E as [Hi He].
  apply String.eqb_eq in He. subst n. by destruct kv.
Qed.
Lemma known_in p n : known p n = true <-> In (p, n) (p_all_messages (Reflection := data_reflection) p).
Proof.
  unfold known. cbn. rewrite in_map_iff. split.
  - intros H. destruct (named n (pd_messages p)) as [x|] eqn:E; [|done]. exists (n, x). split; [done|]. by apply named_in.
  - intros ([k x] & [= ->] & Hin). unfold named. destruct (List.find _ _) as [y|] eqn:E; [done|].
    by apply (find_none _ _ E) in Hin; cbn in Hin; rewrite String.eqb_refl in Hin.
Qed.
Lemma data_laws p : pool_wf p = true -> pool_laws (R := data_reflection) p.
Proof.
  intros H. apply andb_true_iff in H as [Hs Hm]. rewrite forallb_forall in Hs, Hm.
  assert (Hf : forall m f, In m (p_all_messages p) -> In f (fields m) -> fst m = p /\ field_wf p m f = true).
  { intros m f Hin Hif. cbn in Hin. apply in_map_iff in Hin as (kv & <- & Hkv). split; [done|].
    specialize (Hm kv Hkv). rewrite forallb_forall in Hm. by apply Hm. }
  split; cbn [full_name get_message_by_name data_reflection].
  - intros m Hin. destruct m as [q n]. assert (q = p) as ->. { cbn in Hin. by apply in_map_iff in Hin as (kv & [= <- _] & _). }
    apply known_in in Hin. unfold known in Hin. cbn. by rewrite Hin.
  - intros n m Hn. destruct (is_some _) eqn:E; [|done]. injection Hn as <-. split; [by apply known_in|done].
  - intros n s m Hn Hin. cbn in Hn. destruct (named n (pd_services p)) as [ms|] eqn:E; [|done]. injection Hn as <-.
    apply named_in in E. specialize (Hs _ E). rewrite forallb_forall in Hs. cbn in Hin. apply in_map_iff in Hin as (d & <- & Hd).
    specialize (Hs d Hd). apply andb_true_iff in Hs as [H1 H2]. split; by apply known_in.
  - intros m f n Hin Hif Hk. destruct (Hf m f Hin Hif) as [_ Hw]. apply andb_true_iff in Hw as [_ Hw]. cbn in Hk. rewrite Hk in Hw.
    apply andb_true_iff in Hw as [H1 H2]. apply bool_decide_eq_true in H1. destruct n as [q n]. cbn in H1. subst q. by apply known_in.
  - intros m f Hin Hif. destruct (Hf m f Hin Hif) as [_ Hw]. apply andb_true_iff in Hw as [Hw _]. by apply bool_decide_eq_true in Hw.
  - intros m n f _ Hg. cbn in Hg. apply find_some in Hg as [Hi He]. by apply Z.eqb_eq in He.
  - intros m f e v Hin Hif Hk Hv. destruct (Hf m f Hin Hif) as [_ Hw]. apply andb_true_iff in Hw as [_ Hw]. cbn in Hk. rewrite Hk in Hw.
    rewrite forallb_forall in Hw. specialize (Hw v Hv). by apply bool_decide_eq_true in Hw.
  - intros m f e n v _ _ _ Hv. cbn in Hv. apply find_some in Hv as [Hi He]. by apply String.eqb_eq in He.
Qed.
Lemma demo_laws bytes p : pool_of bytes = Some p -> pool_laws (R := data_reflection) p.
Proof.
  unfold pool_of. intros H. apply data_laws. repeat case_match; simplify_eq; vm_compute; reflexivity.
Qed.

(** * A reload *)
Definition no_versions : GameState := mkGame Observation_default None None false "" true None None false None false.
Notation load_demo := (load (R := data_reflection) pool_of "g" "j").
Notation reload_demo := (reload_protocol (R := data_reflection) pool_of "g" "j").

Lemma reloads_extend_the_schema_witness :
  exists b0 b, load_demo (Some (compiled_of 1 "a")) 0 = Ok b0 /\
    reloads (R := data_reflection) pool_of "g" "j" Jp [(Some (compiled_of 3 "c"), 1, 2, no_versions); (Some (compiled_of 2 "b"), 3, 4, no_versions)] b0 = b /\
    st_generation (status b) = 2 /\ validate_contract (pool b) "jp" = Ok tt /\ extends (compared_routes "jp") (pool b0) (pool b).
Proof.
  eexists _, _. split; [reflexivity|]. split; [reflexivity|].
  split; [vm_compute; reflexivity|].
  destruct (reloads_extend_the_schema (R := data_reflection) pool_of "g" "j" demo_laws Jp (Some (compiled_of 1 "a")) 0 _
    [(Some (compiled_of 3 "c"), 1, 2, no_versions); (Some (compiled_of 2 "b"), 3, 4, no_versions)] None 5 6 no_versions
    (Err ProtocolDefinition) _ no_versions eq_refl eq_refl eq_refl) as [H _].
  exact H.
Defined.

(** * Bundles that also define the Global login *)
(** A bundle of another family that defines the server list and the login is compared as
    a Global one: a type that only Whoami reaches may then lose a field. *)
Definition login_pool (player : list FieldData) : PoolData :=
  mkPool (("app.playerlogin.PlayerLoginService", [open_method "GetServerList"; open_method "PlayerLogin"])
          :: map (fun kv => (fst kv, map (fun m => if String.eqb (md_name m) "Whoami" then mkMethod "Whoami" "Request" "Player" false else m) (snd kv))) jp_services)%list
    [("Request", request_fields); ("Response", response_fields); ("Entry", [mkField 1 "rank" "rank" KInt32 false]); ("Player", player)]
    [("Tab", tabs)].
Definition whoami_fields : list FieldData := [mkField 1 "player_id" "playerId" KString false; mkField 2 "level" "level" KInt32 false].
Lemma whoami_may_lose_a_field :
  let old := login_pool whoami_fields in let new := login_pool (firstn 1 whoami_fields) in
  validate_contract old "jp" = Ok tt /\ validate_contract new "jp" = Ok tt /\ compatible old new = Ok tt /\
  ~ extends (R := data_reflection) (contract_for_family "jp") old new.
Proof.
  intros old new. split; [vm_compute; reflexivity|]. split; [vm_compute; reflexivity|]. split; [vm_compute; reflexivity|].
  intros [_ H]. destruct (H (old, "Player")) as (b & Hb & _ & _ & Hf).
  - apply (reaches_output (R := data_reflection) old _ WHOAMI (old, mkMethod "Whoami" "Request" "Player" false)); [cbn; tauto|vm_compute; reflexivity].
  - injection Hb as <-. destruct (Hf (old, mkField 2 "level" "level" KInt32 false)) as (y & Hy & _); [cbn; tauto|]. by vm_compute in Hy.
Qed.
