(* ===== verification/GlobalSnapshot.v ===== *)
(** The resource snapshot of the Global regions ([client.rs]'s [ensure_global_snapshot],
    [refresh_resource_snapshot] and [snapshot], [resources.rs]'s catalog hashes).

    A build looks at what the client last observed, asks the configured CDN root for the
    hash of the catalog outside the state lock, and publishes under the lock again if what
    it started from still holds.  Builds exclude one another; between their steps the game
    answers, announces versions and its protocol is reloaded.  [now] is of the monotonic
    clock, [utc] of the wall clock, both in nanoseconds. *)
From Stdlib Require Import ZArith Lia Ascii String List Bool.
From stdpp Require Import base list strings decidable.
From S2P Require Import Prelude BTree Errors Regions Http Environment Peer MasterFiles MasterUpdate GameConfig Upstream Bundles.

Local Open Scope Z_scope.
Local Open Scope rust_scope.

(** * The hash of a catalog *)
Definition global_catalog_urls (root platform version : string) : string * string * string :=
  let base := (root ++ "/asset/" ++ platform)%string in
  ((base ++ "/catalog_" ++ version ++ ".bin")%string, (base ++ "/catalog_" ++ version ++ ".hash")%string, base).
Definition MAX_CATALOG_HASH : Z := 256.
Definition catalog_hash (body : list Z) : option string :=
  match from_utf8 body with
  | Some text =>
      let text := trim_text text in
      if (len text =? 32) && all_bytes is_ascii_hexdigit text then Some (to_ascii_lowercase text) else None
  | None => None
  end.
(** One attempt; [answer] is what the request meets. *)
Definition hash_once (answer : option http_response) : result UpdateError string :=
  bytes <-? receive answer MAX_CATALOG_HASH;;
  ok_or (catalog_hash bytes) UMaster.
Fixpoint hash_from (n : Network) (answers : Z -> option http_response) (remaining : nat) (attempt : Z) : result AppError string :=
  match remaining with
  | O => Err SnapshotUnavailable
  | S remaining =>
      match hash_once (answers attempt) with
      | Err e => if retry n e attempt then hash_from n answers remaining (attempt + 1) else Err SnapshotUnavailable
      | Ok hash => Ok hash
      end
  end.
(** [in_time]: the attempts and the sleeps between them end before the deadline. *)
Definition fetch_catalog_hash (n : Network) (answers : Z -> option http_response) (in_time : bool) : result AppError string :=
  if in_time then hash_from n answers (Z.to_nat (n_attempts n)) 0 else Err SnapshotUnavailable.

(** * Building *)
Definition num_seconds (d : Z) : Z := Z.quot d 1000000000.
Definition recent (utc observed : Z) : bool := in_range 0 300 (num_seconds (utc - observed)).

(** A request for a hash, what it was answered, and when. *)
Record HashEntry : Type := mkHash { he_root : string; he_version : string; he_hash : option string; he_at : Z }.

Section snapshot.
Context (c : ClientConfig) (default_cdn_root : string) (config : ResourceSnapshotConfig) (env : string -> option string).
Definition ttl : Z := from_secs (rs_catalog_hash_ttl_seconds config).
Definition platform : string := platform_name (cc_platform c).

Inductive BuildBegin : Type :=
| BuildFails
| BuildCurrent
| BuildWants (version root : string) (cached : option (option string)) (basic : option (string * string)).
(** Under the first state lock. *)
Definition build_basic (s : GameState) : result AppError (option (string * string)) :=
  match rs_cdn_authorization config with
  | CdnNone => guard? negb (is_some (lookup_str (cdn_root s) (cdn_credential_env c))) else SnapshotUnavailable;; Ok None
  | CdnBasic =>
      name <-? ok_or (rs_username_env config) SnapshotUnavailable;;
      username <-? match secret env name with Ok u => Ok u | Err _ => Err SnapshotUnavailable end;;
      password <-? ok_or (match lookup_str (cdn_root s) (cdn_secrets c) with
                          | Some p => if credential_valid s && negb (contains_char 58 username) then Some p else None
                          | None => None
                          end) SnapshotUnavailable;;
      Ok (Some (username, password))
  end.
Definition cached_hash (catalog : option HashEntry) (root version : string) (now : Z) : option (option string) :=
  match catalog with
  | Some e => if String.eqb (he_root e) root && String.eqb (he_version e) version && (now - he_at e <? ttl) then Some (he_hash e) else None
  | None => None
  end.
Definition build_begin (s : GameState) (catalog : option HashEntry) (now utc : Z) : BuildBegin :=
  if maintenance (obs s) || negb (bool_decide (grpc_status (obs s) = Some 0)) then BuildFails
  else match global_version s with
       | None => BuildFails
       | Some (version, observed_at) =>
           if negb (String.eqb (cdn_root s) default_cdn_root) || negb (recent utc observed_at) then BuildFails
           else if negb (snapshot_stale s)
                   && some_and (snapshot s) (fun sn => (snap_observed_at sn =? observed_at) && String.eqb (snap_resource_version sn) version)
           then BuildCurrent
           else match build_basic s with
                | Err _ => BuildFails
                | Ok basic => BuildWants version (cdn_root s) (cached_hash catalog (cdn_root s) version now) basic
                end
       end.
(** Under the second state lock. *)
Definition build_publish (s : GameState) (protocol_version version root hash : string) (basic : option (string * string)) : result AppError GameState :=
  observed_at <-? ok_or (match global_version s with
                         | Some (current, at_) => if String.eqb current version then Some at_ else None
                         | None => None
                         end) SnapshotUnavailable;;
  guard? negb (negb (String.eqb (cdn_root s) root) || maintenance (obs s) || negb (bool_decide (grpc_status (obs s) = Some 0))
               || is_some basic && negb (credential_valid s)) else SnapshotUnavailable;;
  credential <-? match rs_cdn_authorization config with
                 | CdnNone => Ok (""%string, "none"%string)
                 | CdnBasic => reference <-? ok_or (lookup_str root (cdn_credential_env c)) SnapshotUnavailable;; Ok (reference, "basic"%string)
                 end;;
  let '(catalog_url, _, bundle_base_url) := global_catalog_urls root platform version in
  Ok (set_snapshot s
        (Some {| snap_protocol_version := protocol_version; snap_master_version := master_version (obs s); snap_resource_version := version;
                 platform_hash := hash; effective_cdn_root := root; credential_ref := fst credential; snap_observed_at := observed_at;
                 snap_layout := Some {| catalog_url := catalog_url; bundle_base_url := bundle_base_url; cdn_authorization_name := snd credential |} |})
        false).

(** [refresh_resource_snapshot] after its VERSION call and its build, and [snapshot]. *)
Definition refresh_answer (s : GameState) (started utc : Z) : result AppError Snapshot :=
  guard? negb (snapshot_stale s || maintenance (obs s) || negb (bool_decide (grpc_status (obs s) = Some 0))) else SnapshotUnavailable;;
  sn <-? ok_or (snapshot s) SnapshotUnavailable;;
  guard? negb ((snap_observed_at sn <? started) || negb (recent utc (snap_observed_at sn))) else SnapshotUnavailable;;
  Ok sn.
Definition snapshot_answer (s : GameState) (utc : Z) : result AppError (Snapshot * bool) :=
  sn <-? ok_or (snapshot s) SnapshotUnavailable;;
  Ok (sn, snapshot_stale s || (300 <? num_seconds (utc - snap_observed_at sn))).

(** * Steps *)
Inductive BuildStage : Type :=
| BWaiting
| BLocked
| BFetching (version root : string) (basic : option (string * string)) (started : Z)
| BHas (version root : string) (basic : option (string * string)) (hash : string)
| BDone (r : result AppError unit).
(** A request sent: the URL, the credentials, the version, when; and its answer. *)
Record Fetch : Type := mkFetch { ft_request : Request; ft_version : string; ft_started : Z; ft_entry : HashEntry }.
Record Builds : Type := mkBuilds {
  game : GameState;
  catalog : option HashEntry;
  build_lock : option nat;
  stages : list BuildStage;
  fetches : list Fetch;   (* the answered ones, the last first *)
}.
Definition stage_to (y : Builds) (n : nat) (st : BuildStage) (l : option nat) : Builds := mkBuilds (game y) (catalog y) l (<[n := st]> (stages y)) (fetches y).
Definition hash_request (version root : string) (basic : option (string * string)) : Request :=
  mkRequest (snd (fst (global_catalog_urls root platform version))) basic.

Inductive build_step (n : nat) : Builds -> BuildStage -> Builds -> Prop :=
| bs_lock y : build_lock y = None -> build_step n y BWaiting (stage_to y n BLocked (Some n))
| bs_begin y now utc : build_step n y BLocked
    (match build_begin (game y) (catalog y) now utc with
     | BuildFails => stage_to y n (BDone (Err SnapshotUnavailable)) None
     | BuildCurrent => stage_to y n (BDone (Ok tt)) None
     | BuildWants version root None basic => stage_to y n (BFetching version root basic now) (build_lock y)
     | BuildWants version root (Some None) basic => stage_to y n (BDone (Err SnapshotUnavailable)) None
     | BuildWants version root (Some (Some hash)) basic => stage_to y n (BHas version root basic hash) (build_lock y)
     end)
| bs_fetched y version root basic started answers in_time now : build_step n y (BFetching version root basic started)
    (let answer := fetch_catalog_hash (rs_network config) answers in_time in
     let hash := match answer with Ok h => Some h | Err _ => None end in
     let e := mkHash root version hash now in
     let y := mkBuilds (game y) (Some e) (build_lock y) (stages y) (mkFetch (hash_request version root basic) version started e :: fetches y) in
     match hash with
     | Some h => stage_to y n (BHas version root basic h) (build_lock y)
     | None => stage_to y n (BDone (Err SnapshotUnavailable)) None
     end)
| bs_publish y version root basic hash protocol_version : build_step n y (BHas version root basic hash)
    (match build_publish (game y) protocol_version version root hash basic with
     | Ok s => stage_to (mkBuilds s (catalog y) (build_lock y) (stages y) (fetches y)) n (BDone (Ok tt)) None
     | Err e => stage_to y n (BDone (Err e)) None
     end)
| bs_cancelled y st : build_step n y st (stage_to y n (BDone (Err Timeout)) (if bool_decide (build_lock y = Some n) then None else build_lock y)).

(** What else happens to the state: an answer is observed, a version recorded, an
    answer's header offered for a snapshot, the protocol reloaded. *)
Inductive game_step (s : GameState) : GameState -> Prop :=
| gs_observe rfc3339 md status sent utc : game_step s (observe c rfc3339 s md status sent utc)
| gs_version version body asset now utc : game_step s (record_version c s version body asset now utc)
| gs_promote select md protocol_version utc : game_step s (promote_snapshot c select s md protocol_version utc)
| gs_reload : game_step s (forget_versions s).
Inductive builds_step : Builds -> Builds -> Prop :=
| bst_build y n st y' : stages y !! n = Some st -> build_step n y st y' -> builds_step y y'
| bst_new y : builds_step y (mkBuilds (game y) (catalog y) (build_lock y) (stages y ++ [BWaiting]) (fetches y))
| bst_game y s : game_step (game y) s -> builds_step y (mkBuilds s (catalog y) (build_lock y) (stages y) (fetches y)).
Inductive builds_reachable (s0 : GameState) : Builds -> Prop :=
| br_initial : builds_reachable s0 (mkBuilds s0 None None [] [])
| br_step y y' : builds_reachable s0 y -> builds_step y y' -> builds_reachable s0 y'.

(** * What a build relies on *)
Definition basic_ok (basic : option (string * string)) : Prop :=
  match basic with
  | None => rs_cdn_authorization config = CdnNone
  | Some (username, password) =>
      rs_cdn_authorization config = CdnBasic /\ contains_char 58 username = false /\ lookup_str default_cdn_root (cdn_secrets c) = Some password
  end.
Definition hash_form (hash : string) : Prop := len hash = 32 /\ all_bytes (fun b => is_ascii_hexdigit b && negb (is_ascii_upper b)) hash = true.
(** The snapshot is of the version last observed on the configured root, its hash is one
    that this root answered, and its credential is in force. *)
Record served (s : GameState) (l : list Fetch) (sn : Snapshot) : Prop := {
  sv_root : effective_cdn_root sn = default_cdn_root /\ cdn_root s = default_cdn_root;
  sv_version : global_version s = Some (snap_resource_version sn, snap_observed_at sn);
  sv_status : grpc_status (obs s) = Some 0;
  sv_hash : exists f at_, In f l /\ ft_entry f = mkHash default_cdn_root (snap_resource_version sn) (Some (platform_hash sn)) at_;
  sv_credential : match rs_cdn_authorization config with
                  | CdnNone => credential_ref sn = ""%string
                  | CdnBasic => credential_valid s = true /\ lookup_str default_cdn_root (cdn_credential_env c) = Some (credential_ref sn)
                  end;
  sv_layout : snap_layout sn =
    Some {| catalog_url := fst (fst (global_catalog_urls default_cdn_root platform (snap_resource_version sn)));
            bundle_base_url := snd (global_catalog_urls default_cdn_root platform (snap_resource_version sn));
            cdn_authorization_name := match rs_cdn_authorization config with CdnNone => "none" | CdnBasic => "basic" end |};
}.
Definition current (s : GameState) (l : list Fetch) : Prop :=
  snapshot_stale s = false -> forall sn, snapshot s = Some sn -> served s l sn.
(** A request: to the configured root, with its password only; an answered hash is one. *)
Record fetch_ok (f : Fetch) : Prop := {
  fo_request : exists basic, ft_request f = hash_request (ft_version f) default_cdn_root basic /\ basic_ok basic;
  fo_entry : he_root (ft_entry f) = default_cdn_root /\ he_version (ft_entry f) = ft_version f;
  fo_hash : forall h, he_hash (ft_entry f) = Some h -> hash_form h;
}.
(** One version is not asked for again within the time its answer is kept. *)
Fixpoint spaced (l : list Fetch) : Prop :=
  match l with
  | f :: (e :: _) as l' => (ft_version f = ft_version e -> he_at (ft_entry e) + ttl <= ft_started f) /\ spaced l'
  | _ => True
  end.

Lemma lower_hex x : is_ascii_hexdigit x = true -> is_ascii_hexdigit (ascii_lower x) && negb (is_ascii_upper (ascii_lower x)) = true.
Proof. destruct x as [[] [] [] [] [] [] [] []]; vm_compute; congruence. Qed.
Lemma to_lower_form text : len text = 32 -> all_bytes is_ascii_hexdigit text = true -> hash_form (to_ascii_lowercase text).
Proof.
  intros Hl H. split.
  - rewrite <- Hl. unfold len. f_equal. clear. induction text as [|x text IH]; cbn; congruence.
  - clear Hl. induction text as [|x text IH]; cbn in *; [done|]. apply andb_true_iff in H as [H1 H2]. by rewrite (lower_hex x H1), IH.
Qed.
Lemma fetched_form n answers in_time h : fetch_catalog_hash n answers in_time = Ok h -> hash_form h.
Proof.
  unfold fetch_catalog_hash. destruct in_time; [|done]. generalize (Z.to_nat (n_attempts n)) 0. intros k. induction k as [|k IH]; intros a H; cbn [hash_from] in H; [done|].
  destruct (hash_once (answers a)) as [h'|e] eqn:E; [|destruct (retry n e a); [by apply (IH (a + 1))|done]].
  injection H as ->. unfold hash_once in E. apply rbind_ok in E as (b & _ & E). unfold catalog_hash in E.
  destruct (from_utf8 b) as [t|]; [|done]. destruct (_ && _) eqn:Ec; cbn in E; [|done]. injection E as <-.
  apply andb_true_iff in Ec as [E1 E2]. apply Z.eqb_eq in E1. by apply to_lower_form.
Qed.

(** ** What happens to the state between the steps of builds *)
Lemma served_more s l l' sn : incl l l' -> served s l sn -> served s l' sn.
Proof. intros Hi [H1 H2 H3 (f & a & Hf & He) H5 H6]. split; auto. exists f, a. auto. Qed.
Lemma observe_keeps s rfc3339 md status sent utc :
  let s' := observe c rfc3339 s md status sent utc in
  snapshot s' = snapshot s /\ global_version s' = global_version s /\ grpc_status (obs s') = status /\
  (snapshot_stale s' = false ->
   snapshot_stale s = false /\ status = Some 0 /\ cdn_root s' = cdn_root s /\ (credential_valid s = true -> credential_valid s' = true)).
Proof.
  intros s'. unfold s', observe.
  set (mism := _ && bool_decide (sent = _)). set (upd := bool_decide (_ = Some CLIENT_UPDATE_REQUIRED) && _). clearbody mism upd.
  assert (Hs : forall b, snapshot_stale s || negb (bool_decide (status = Some 0)) || b = false -> snapshot_stale s = false /\ status = Some 0 /\ b = false).
  { intros b [[H1 H2]%orb_false_iff H3]%orb_false_iff. apply negb_false_iff, bool_decide_eq_true in H2. done. }
  assert (Hs' : snapshot_stale s || negb (bool_decide (status = Some 0)) = false -> snapshot_stale s = false /\ status = Some 0).
  { intros H. rewrite <- (orb_false_r (_ || _)) in H. by apply Hs in H as (H1 & H2 & _). }
  destruct (header md "x-sirius-env") as [root|].
  - destruct (String.eqb root (cdn_root s)) eqn:Er; [apply String.eqb_eq in Er as ->|];
      destruct (header md "x-sirius-cred") as [cred|]; cbn; do 3 (split; [done|]); intros H; try discriminate H.
    + apply Hs in H as (H1 & H2 & H3). apply negb_false_iff in H3. auto.
    + apply Hs' in H as [H1 H2]. auto.
  - destruct (header md "x-sirius-cred") as [cred|]; cbn; do 3 (split; [done|]); intros H.
    + apply Hs in H as (H1 & H2 & H3). apply negb_false_iff in H3. auto.
    + apply Hs' in H as [H1 H2]. auto.
Qed.
Lemma game_step_current s l s' : is_global c = true -> current s l -> game_step s s' -> current s' l.
Proof.
  intros Hg Hc [rfc3339 md status sent utc|version body asset now utc|select md protocol_version utc|] Hs sn Hsn.
  - destruct (observe_keeps s rfc3339 md status sent utc) as (E1 & E2 & E3 & E4). destruct (E4 Hs) as (Hst & H0 & Er & Hcr).
    rewrite E1 in Hsn. destruct (Hc Hst sn Hsn) as [H1 H2 H3 H4 H5 H6]. split; [by rewrite Er|congruence|congruence|done| |done].
    destruct (rs_cdn_authorization config); [|done]. destruct H5 as [H5 H5']. auto.
  - unfold record_version in Hs. cbn in Hs. by rewrite Hg, orb_true_r in Hs.
  - unfold promote_snapshot in Hs, Hsn |- *. rewrite Hg in *. by apply Hc.
  - done.
Qed.

(** * Builds *)
Definition building (st : BuildStage) : bool := match st with BLocked | BFetching _ _ _ _ | BHas _ _ _ _ => true | _ => false end.
Definition answered (l : list Fetch) (version hash : string) : Prop :=
  exists f at_, In f l /\ ft_entry f = mkHash default_cdn_root version (Some hash) at_.
Definition stage_ok (y : Builds) (st : BuildStage) : Prop :=
  match st with
  | BFetching version root basic started => root = default_cdn_root /\ basic_ok basic /\ cached_hash (catalog y) root version started = None
  | BHas version root basic hash => root = default_cdn_root /\ basic_ok basic /\ answered (fetches y) version hash
  | _ => True
  end.
Record locks_ok (y : Builds) : Prop := {
  lo_lock : forall m st, stages y !! m = Some st -> building st = true -> build_lock y = Some m;
  lo_stage : forall m st, stages y !! m = Some st -> stage_ok y st;
}.
Record data_ok (y : Builds) : Prop := {
  do_catalog : catalog y = option_map ft_entry (head (fetches y));
  do_fetches : Forall fetch_ok (fetches y);
  do_spaced : spaced (fetches y);
  do_current : current (game y) (fetches y);
}.
Lemma not_building_ok y st : building st = false -> stage_ok y st.
Proof. by destruct st. Qed.
Lemma stage_move y y' n st st' :
  locks_ok y -> stages y !! n = Some st -> stages y' = <[n := st']> (stages y) ->
  (building st' = true -> build_lock y' = Some n) ->
  (build_lock y' = build_lock y \/ build_lock y = None \/ build_lock y = Some n) ->
  (catalog y' = catalog y /\ fetches y' = fetches y \/ build_lock y = Some n) ->
  stage_ok y' st' -> locks_ok y'.
Proof.
  intros [Hl Hs] Hn Hst Hb Hlock Hdata Hok.
  assert (Hcase : forall m x, stages y' !! m = Some x -> m = n /\ x = st' \/ m <> n /\ stages y !! m = Some x).
  { intros m x Hx. rewrite Hst in Hx. apply list_lookup_insert_Some in Hx as [(-> & <- & _)|[Hne Hx]]; [by left|right; by split]. }
  split; intros m x Hx.
  - intros Hbx. destruct (Hcase m x Hx) as [[-> ->]|[Hne Hx']]; [by apply Hb|].
    pose proof (Hl m x Hx' Hbx) as Hm. destruct Hlock as [->|[E|E]]; congruence.
  - destruct (Hcase m x Hx) as [[-> ->]|[Hne Hx']]; [done|]. destruct (building x) eqn:Eb; [|by apply not_building_ok].
    pose proof (Hl m x Hx' Eb) as Hm. pose proof (Hs m x Hx') as Hx2. destruct Hdata as [[Ec Ef]|E]; [|congruence].
    destruct x; cbn in *; rewrite ?Ec, ?Ef; done.
Qed.

Lemma build_basic_ok s basic : build_basic s = Ok basic -> cdn_root s = default_cdn_root -> basic_ok basic.
Proof.
  unfold build_basic. intros H Hr. destruct (rs_cdn_authorization config) eqn:Ec.
  - apply rbind_ok in H as (name & _ & H). apply rbind_ok in H as (username & _ & H). apply rbind_ok in H as (password & Hp & [= <-]).
    cbn. rewrite <- Hr. destruct (lookup_str (cdn_root s) (cdn_secrets c)) as [p|]; [|done].
    destruct (credential_valid s); [|done]. destruct (contains_char 58 username); [done|]. cbn in Hp. by injection Hp as ->.
  - apply rbind_ok in H as ([] & _ & [= <-]). done.
Qed.
Lemma build_begin_wants s k now utc version root cached basic :
  build_begin s k now utc = BuildWants version root cached basic ->
  root = default_cdn_root /\ basic_ok basic /\ cached = cached_hash k root version now.
Proof.
  unfold build_begin. intros H. destruct (_ || _); [done|]. destruct (global_version s) as [[v at_]|]; [|done].
  destruct (negb (String.eqb (cdn_root s) default_cdn_root) || _) eqn:Er; [done|]. apply orb_false_iff in Er as [Er _].
  apply negb_false_iff, String.eqb_eq in Er. destruct (_ && _); [done|].
  destruct (build_basic s) as [b|e] eqn:Eb; [|done]. injection H as <- <- <- <-. split; [done|]. split; [by apply (build_basic_ok s)|done].
Qed.
Lemma cached_answered y version now hash :
  data_ok y -> cached_hash (catalog y) default_cdn_root version now = Some (Some hash) -> answered (fetches y) version hash.
Proof.
  intros Hd H. rewrite (do_catalog y Hd) in H. destruct (fetches y) as [|f l]; [done|]. cbn in H.
  destruct (_ && _) eqn:E; [|done]. injection H as Hh. apply andb_true_iff in E as [[E1 E2]%andb_true_iff _].
  apply String.eqb_eq in E1, E2. exists f, (he_at (ft_entry f)). split; [by left|]. destruct (ft_entry f). cbn in *. congruence.
Qed.
Lemma publish_current s l protocol_version version hash basic s' :
  basic_ok basic -> answered l version hash -> build_publish s protocol_version version default_cdn_root hash basic = Ok s' -> current s' l.
Proof.
  intros Hb (f & at_ & Hf & He) H. unfold build_publish in H. apply rbind_ok in H as (observed & Ho & H). apply rbind_ok in H as ([] & Hg & H).
  apply rbind_ok in H as (credential & Hc & H). injection H as <-. intros _ sn [= <-].
  apply ensure_ok, negb_true_iff in Hg. apply orb_false_iff in Hg as [[[G1 G2]%orb_false_iff G3]%orb_false_iff G4].
  apply negb_false_iff, String.eqb_eq in G1. apply negb_false_iff, bool_decide_eq_true in G3.
  destruct (global_version s) as [[v a]|] eqn:Ev; [|done]. destruct (String.eqb v version) eqn:Evv; [|done].
  apply String.eqb_eq in Evv as ->. injection Ho as ->.
  split; cbn; [done|done|done|by exists f, at_| |].
  - destruct (rs_cdn_authorization config) eqn:Ea.
    + destruct basic as [[u p]|]; cbn in Hb; [|congruence]. cbn in G4. apply negb_false_iff in G4. split; [done|].
      apply rbind_ok in Hc as (reference & Hr & [= <-]). cbn. by destruct (lookup_str default_cdn_root (cdn_credential_env c)) as [r|]; [injection Hr as ->|].
    + by injection Hc as <-.
  - destruct (rs_cdn_authorization config); [apply rbind_ok in Hc as (reference & _ & [= <-])|injection Hc as <-]; done.
Qed.
Lemma fetched_data y n version root basic started answers in_time now :
  data_ok y -> stage_ok y (BFetching version root basic started) ->
  let answer := fetch_catalog_hash (rs_network config) answers in_time in
  let e := mkHash root version (match answer with Ok h => Some h | Err _ => None end) now in
  let l := mkFetch (hash_request version root basic) version started e :: fetches y in
  forall st k, data_ok (stage_to (mkBuilds (game y) (Some e) (build_lock y) (stages y) l) n st k).
Proof.
  intros Hd (-> & Hb & Hcache) answer e l st k. split; cbn; [done| | |].
  - constructor; [|apply (do_fetches y Hd)]. split; cbn; [by exists basic|done|]. intros h Hh. unfold answer in Hh.
    destruct (fetch_catalog_hash _ _ _) as [h'|] eqn:E; [|done]. injection Hh as <-. by apply fetched_form in E.
  - pose proof (do_spaced y Hd) as Hsp. pose proof (do_catalog y Hd) as Hcat. pose proof (do_fetches y Hd) as Hf.
    destruct (fetches y) as [|f l']; [done|]. split; [|done]. intros E. cbn in E, Hcat. rewrite Hcat in Hcache. cbn in Hcache.
    apply Forall_inv in Hf as [_ [H1 H2] _]. rewrite H1, H2, <- E, !String.eqb_refl in Hcache. cbn in Hcache.
    destruct (started - he_at (ft_entry f) <? ttl) eqn:Et; [done|]. apply Z.ltb_ge in Et. cbn. lia.
  - intros Hs sn Hsn. apply (served_more _ (fetches y)); [intros x Hx; by right|]. by apply (do_current y Hd).
Qed.
Lemma moved_data y n st k : data_ok y -> data_ok (stage_to y n st k).
Proof. by intros [H1 H2 H3 H4]. Qed.

Ltac move_build y := eapply (stage_move y); [eassumption|eassumption|reflexivity|..]; cbn; intuition (congruence || eauto).
Lemma build_step_ok y n st y' :
  locks_ok y -> data_ok y -> stages y !! n = Some st -> build_step n y st y' -> locks_ok y' /\ data_ok y'.
Proof.
  intros Hy Hd Hn Hs. pose proof (lo_lock y Hy n st Hn) as Hl. pose proof (lo_stage y Hy n st Hn) as Hok.
  destruct Hs; cbn [building] in Hl; try specialize (Hl eq_refl).
  - split; [move_build y|by apply moved_data].
  - destruct (build_begin (game y) (catalog y) now utc) as [| |version root cached basic] eqn:E;
      [split; [move_build y|by apply moved_data]..|].
    apply build_begin_wants in E as (-> & Hb & Hcache). destruct cached as [[hash|]|]; (split; [|by apply moved_data]).
    + assert (Ha : answered (fetches y) version hash) by (by eapply cached_answered). move_build y.
    + move_build y.
    + move_build y.
  - destruct Hok as (Hr & Hb & Hcache). pose proof (fetched_data y n version root basic started answers in_time now Hd (conj Hr (conj Hb Hcache))) as Hf.
    cbv zeta in Hf |- *. subst root. destruct (fetch_catalog_hash (rs_network config) answers in_time) as [h|e] eqn:Ef; (split; [|apply Hf]).
    + eapply (stage_move y); [done|done|reflexivity|cbn; intuition congruence..|].
      cbn. split; [done|]. split; [done|]. eexists _, now. split; [by left|done].
    + eapply (stage_move y); [done|done|reflexivity|cbn; intuition congruence..|]. done.
  - destruct Hok as (-> & Hb & Ha). destruct (build_publish _ _ _ _ _ _) as [s|e] eqn:Ep; (split; [|]).
    + move_build y.
    + apply moved_data. destruct Hd as [H1 H2 H3 _]. split; [done|done|done|]. cbn. by apply (publish_current (game y) _ protocol_version version hash basic).
    + move_build y.
    + by apply moved_data.
  - split; [|by apply moved_data]. destruct (bool_decide (build_lock y = Some n)) eqn:E; [apply bool_decide_eq_true in E|]; move_build y.
Qed.
Lemma builds_ok s0 y : is_global c = true -> snapshot s0 = None -> builds_reachable s0 y -> locks_ok y /\ data_ok y.
Proof.
  intros Hg H0. induction 1 as [|y y' _ [Hl Hd] Hs].
  - split; [split; intros m st H; cbn in H; by rewrite lookup_nil in H|]. split; [done|constructor|done|]. intros _ sn Hsn. cbn in Hsn. congruence.
  - destruct Hs as [y n st y' Hn Hs|y|y s Hs].
    + by apply (build_step_ok y n st).
    + split; [|by destruct Hd]. destruct Hl as [H1 H2]. split; intros m st Hm; cbn in Hm; apply lookup_snoc_Some in Hm as [[_ Hm]|[_ <-]]; try done.
      * by apply (H1 m st).
      * by apply (H2 m st).
    + split; [by destruct Hl|]. destruct Hd as [H1 H2 H3 H4]. split; [done|done|done|]. cbn. by apply (game_step_current (game y)).
Qed.

(** C40: However builds of the Global snapshot interleave with the game's answers and with
    one another, and wherever they are cancelled: catalog requests go only to the
    configured root with its own password or none, an answered hash is 32 lower-case
    hexadecimal digits and one version is not asked for twice in a row within the time
    an answer is kept; a snapshot handed out, or served as not stale, is of the version
    last announced, on the configured root, with a hash that root answered for it and a
    credential in force, and one handed out for a refresh was observed since it began,
    at most 300 seconds ago. *)
Theorem snapshots_match_the_game s0 y :
  is_global c = true -> snapshot s0 = None -> builds_reachable s0 y ->
  Forall fetch_ok (fetches y) /\ spaced (fetches y) /\
  (forall utc sn, snapshot_answer (game y) utc = Ok (sn, false) -> served (game y) (fetches y) sn) /\
  (forall started utc sn, refresh_answer (game y) started utc = Ok sn ->
     served (game y) (fetches y) sn /\ started <= snap_observed_at sn /\ 0 <= num_seconds (utc - snap_observed_at sn) <= 300).
Proof.
  intros Hg H0 Hr. destruct (builds_ok s0 y Hg H0 Hr) as [_ [_ Hf Hsp Hc]]. split; [done|]. split; [done|]. split.
  - intros utc sn H. unfold snapshot_answer in H. destruct (snapshot (game y)) as [sn'|] eqn:E; [|done].
    cbn in H. injection H as -> Hst. apply orb_false_iff in Hst as [Hst _]. by apply Hc.
  - intros started utc sn H. unfold refresh_answer in H. apply rbind_ok in H as ([] & Hst & H). apply rbind_ok in H as (sn' & E & H).
    apply rbind_ok in H as ([] & Ht & [= ->]). apply ensure_ok, negb_true_iff in Hst, Ht.
    apply orb_false_iff in Hst as [[Hst _]%orb_false_iff _]. apply orb_false_iff in Ht as [H1 H2]. apply negb_false_iff, in_range_spec in H2.
    apply Z.ltb_ge in H1. split; [|done]. apply Hc; [done|]. by destruct (snapshot (game y)); [injection E as ->|].
Qed.
End snapshot.

(** * A witness *)
Module GlobalSnapshotDemo.
Definition root : string := "https://cdn.example".
Definition client : ClientConfig :=
  {| cc_region := Hk; cc_platform := Ios; cc_client_version := "1.0.0"; cdn_credential_env := []; cdn_secrets := []; cc_upstream := UpstreamConfig_default |}.
Definition anonymous : ResourceSnapshotConfig := mkSnapshotConfig CdnNone None 60 network_default.
Definition no_env (_ : string) : option string := None.
Definition seen : Observation :=
  {| observed_at := Some 7; grpc_status := Some 0; Peer.application_code := None; server_time := None; maintenance := false;
     master_version := Some "1.0"%string; resource_version := Some "30"%string |}.
Definition before : GameState := mkGame seen None None true root false (Some ("30"%string, 7)) None false None false.
Definition hash : string := "0123456789abcdef0123456789abcdef".
Definition hash_answer (_ : Z) : option http_response :=
  Some {| http_status := 200; http_headers := []; content_length := None; body_events := [Chunk (bytes_of "0123456789ABCDEF0123456789abcdef"); Chunk [10]] |}.
Definition snap : Snapshot :=
  {| snap_protocol_version := "1"; snap_master_version := Some "1.0"%string; snap_resource_version := "30"; platform_hash := hash; effective_cdn_root := root;
     credential_ref := ""; snap_observed_at := 7;
     snap_layout := Some {| catalog_url := "https://cdn.example/asset/iOS/catalog_30.bin"; bundle_base_url := "https://cdn.example/asset/iOS"; cdn_authorization_name := "none" |} |}.
Example demo_answer : fetch_catalog_hash network_default hash_answer true = Ok hash.
Proof. vm_compute. reflexivity. Qed.
Notation reach := (builds_reachable client root anonymous no_env before).
Notation entry := (mkHash root "30" (Some hash) 9).
Notation fetch := (mkFetch (mkRequest "https://cdn.example/asset/iOS/catalog_30.hash" None) "30" 8 entry).

Lemma snapshots_match_the_game_witness :
  let y := mkBuilds (set_snapshot before (Some snap) false) (Some entry) None [BDone (Ok tt)] [fetch] in
  reach y /\ snapshot_answer (game y) 9 = Ok (snap, false) /\ served client root anonymous (game y) (fetches y) snap.
Proof.
  intros y. assert (H : reach y).
  { eapply br_step; [|exact (bst_build client root anonymous no_env (mkBuilds before (Some entry) (Some 0%nat) [BHas "30" root None hash] [fetch]) 0 _ _ eq_refl
      (bs_publish client root anonymous no_env 0 (mkBuilds before (Some entry) (Some 0%nat) [BHas "30" root None hash] [fetch]) "30" root None hash "1"))].
    eapply br_step; [|exact (bst_build client root anonymous no_env (mkBuilds before None (Some 0%nat) [BFetching "30" root None 8] []) 0 _ _ eq_refl
      (bs_fetched client root anonymous no_env 0 (mkBuilds before None (Some 0%nat) [BFetching "30" root None 8] []) "30" root None 8 hash_answer true 9))].
    eapply br_step; [|exact (bst_build client root anonymous no_env (mkBuilds before None (Some 0%nat) [BLocked] []) 0 _ _ eq_refl
      (bs_begin client root anonymous no_env 0 (mkBuilds before None (Some 0%nat) [BLocked] []) 8 9))].
    eapply br_step; [|exact (bst_build client root anonymous no_env (mkBuilds before None None [BWaiting] []) 0 _ _ eq_refl
      (bs_lock client root anonymous no_env 0 (mkBuilds before None None [BWaiting] []) eq_refl))].
    eapply br_step; [apply br_initial|exact (bst_new client root anonymous no_env (mkBuilds before None None [] []))]. }
  split; [exact H|]. split; [reflexivity|].
  destruct (snapshots_match_the_game client root anonymous no_env before y eq_refl eq_refl H) as (_ & _ & Hs & _).
  apply (Hs 9). reflexivity.
Defined.
End GlobalSnapshotDemo.
