(* ===== verification/Bootstrap.v ===== *)
(** The creation of a guest identity ([global_account.rs]'s [bootstrap]).

    Runs of the command may interleave with one another and stop anywhere.  They share
    the file system, a map from paths to files: each run has its identity file, which
    another run may name too, and the attempt marker beside it.  What else a run reads,
    what its file operations do and what the SDK answers are arguments of its steps.
    Opening with [create_new] is exclusive, no two spellings of a path name one file, and
    nobody else removes or writes these files.  The two tests for existing files are one step:
    what is created after them is found by [create_new]. *)
From Stdlib Require Import ZArith Lia Ascii String List Bool.
From stdpp Require Import base list strings decidable gmap.
From S2P Require Import Prelude BTree Errors Regions Http Environment SdkSession GlobalSdk GameConfig GlobalIdentity.

Local Open Scope Z_scope.
Local Open Scope rust_scope.

Record BootstrapOptions : Type := mkBootstrap {
  bo_identity_file : string;
  bo_sdk_origin : string;
  bo_app_key_env : string;
  bo_client_version : string;
  bo_create_sdk_guest : bool;
}.
Definition attempt_marker (identity : string) : string := (identity ++ ".attempt.json")%string.

(** What a run answers. *)
Inductive Reply : Type := OfflinePlan (origin : string) | GuestCreated (file : string).
Definition reply_value (r : Reply) : json :=
  match r with
  | OfflinePlan origin =>
      JObj [("mode", JStr "offline-plan"); ("network_requests", JNum 0);
            ("planned_requests", JArr [JObj [("operation", JStr "tourist.login"); ("origin", JStr origin)]]); ("device_valid", JBool true);
            ("note", JStr "pass --create-sdk-guest to create one SDK guest identity; it is not repeated")]%string
  | GuestCreated file =>
      JObj [("sdk_guest_created", JBool true); ("identity_file", JStr file); ("game_login_verified", JBool false);
            ("next", JStr "reference the identity file from a hk/en/kr account and run global-account verify")]%string
  end.
(** The identity file a run writes. *)
Definition identity_file (d : Device) (a : SdkAccount) : IdentityFile :=
  mkIdentityFile IDENTITY_SCHEMA (JStr (uid a)) (access_key a) (id_token a) (option_map JStr (mid a)) d [].

Section bootstrap.
Context (md5_hex to_lowercase : string -> string) (json_of : list Z -> option json) (semver_ok : string -> bool)
  (device_from_slice : list Z -> option Device) (env : string -> option string).

(** A run's own view: its device file, and whether the directory of the identity file is
    one, with which mode. *)
Record Inputs : Type := mkInputs { in_device : option OpenFile; in_parent : option (bool * Z) }.

Definition device_unreadable : string := "device file must be a private regular file of at most 16 KiB".
Definition read_device (file : option OpenFile) : result string Device :=
  match read_private_file file MAX_IDENTITY_BYTES "device file unavailable" "invalid device file" "device file must be private to its owner" with
  | Err _ => Err device_unreadable
  | Ok bytes => ok_or (device_from_slice bytes) "invalid device file"%string
  end.
(** Up to the marker: the checks, and whether to go on.  The key's environment and the
    client come after the plan. *)
Definition bootstrap_checks (o : BootstrapOptions) (i : Inputs) (identity_exists marker_exists : bool) : result string (option (Device * SdkClient)) :=
  d <-? read_device (in_device i);;
  _ <-? device_validate d;;
  guard? semver_ok (bo_client_version o) else "the client version must be a version such as 1.0.3"%string;;
  guard? origin_allowed (bo_sdk_origin o) else "the SDK origin must be one of the official SDK HTTPS origins"%string;;
  guard? negb (identity_exists || marker_exists)
    else "the identity file or a previous attempt marker exists; inspect it, nothing was sent"%string;;
  parent <-? ok_or (in_parent i) "identity directory unavailable"%string;;
  guard? fst parent else "identity directory unavailable"%string;;
  guard? Z.land (snd parent) 63 =? 0 else "the identity directory must be private to its owner (mode 0700)"%string;;
  if negb (bo_create_sdk_guest o) then Ok None
  else
    match secret env (bo_app_key_env o) with
    | Err _ => Err "the SDK app key environment variable is missing or invalid"%string
    | Ok app_key =>
        match sdk_client_new semver_ok (bo_sdk_origin o) app_key (bo_client_version o) true with
        | Err _ => Err "invalid SDK client configuration"%string
        | Ok c => Ok (Some (d, c))
        end
    end.
Definition login_failed (e : SdkError) : string :=
  match e with
  | Captcha => "SDK requires CAPTCHA; finish verification in the official client"
  | SdkRefused _ => "SDK refused tourist.login"
  | SdkTransport => "SDK transport failed; the outcome is unknown; do not repeat automatically"
  | _ => "SDK response is invalid; the outcome is unknown"
  end.

(** * Files *)

(** A file that one of these commands wrote: not to its end, the marker of an attempt, or
    an identity. *)
Inductive Content : Type := Partial | AttemptMarker (origin : string) (at_ms : Z) | IdentityDoc (f : IdentityFile).
Notation Files := (gmap string Content).

(** [create_new], then the write and the sync: refused, failed with the file there as a
    whole or not, or done.  A run killed while it writes leaves what a failed write
    leaves. *)
Inductive WriteOutcome : Type := CreateFails | WriteFails (whole : bool) | Written.
Definition cannot_create : string := "cannot create the private output file".
Definition cannot_write : string := "cannot write the private output file".
Definition write_private (fs : Files) (path : string) (value : Content) (w : WriteOutcome) : result string unit * Files :=
  if is_some (fs !! path) then (Err cannot_create, fs)
  else match w with
       | CreateFails => (Err cannot_create, fs)
       | WriteFails whole => (Err cannot_write, <[path := if whole then value else Partial]> fs)
       | Written => (Ok tt, <[path := value]> fs)
       end.

(** * Runs *)
Inductive Stage : Type :=
| Start
| Ready (d : Device) (c : SdkClient)
| Marked (d : Device) (c : SdkClient)
| Sent (d : Device) (c : SdkClient) (now_ms : Z)
| Answered (d : Device) (a : SdkAccount)
| Done (r : result string Reply).
(** What a run exchanges with the SDK. *)
Inductive exchange : Type := Request (q : SdkRequest) | Answer (r : option http_response).

(** [tourist_login]: its request, and its result for an answer. *)
Definition login_request_of (c : SdkClient) (d : Device) (now_ms : Z) : option SdkRequest :=
  snd (tourist_login md5_hex to_lowercase json_of c d now_ms (fun _ => None)).
Definition login_result (c : SdkClient) (d : Device) (now_ms : Z) (answer : option http_response) : result SdkError SdkAccount :=
  fst (tourist_login md5_hex to_lowercase json_of c d now_ms (fun _ => answer)).

Record Run : Type := mkRun { r_options : BootstrapOptions; r_inputs : Inputs; r_stage : Stage; r_trace : list exchange }.

(** One step of a run: the files, its stage, and what it exchanges. *)
Inductive run_step (o : BootstrapOptions) (i : Inputs) : Files -> Stage -> Files -> Stage -> list exchange -> Prop :=
| rs_check fs : run_step o i fs Start fs
    match bootstrap_checks o i (is_some (fs !! bo_identity_file o)) (is_some (fs !! attempt_marker (bo_identity_file o))) with
    | Err e => Done (Err e)
    | Ok None => Done (Ok (OfflinePlan (bo_sdk_origin o)))
    | Ok (Some (d, c)) => Ready d c
    end []
| rs_mark fs d c at_ms w : let x := write_private fs (attempt_marker (bo_identity_file o)) (AttemptMarker (bo_sdk_origin o) at_ms) w in
    run_step o i fs (Ready d c) (snd x) match fst x with Err e => Done (Err e) | Ok _ => Marked d c end []
| rs_send fs d c now_ms : run_step o i fs (Marked d c) fs (Sent d c now_ms)
    match login_request_of c d now_ms with Some q => [Request q] | None => [] end
| rs_answer fs d c now_ms answer : run_step o i fs (Sent d c now_ms) fs
    match login_result c d now_ms answer with
    | Err e => Done (Err (login_failed e))
    | Ok a => Answered d a
    end [Answer answer]
| rs_write fs d a w : let x := write_private fs (bo_identity_file o) (IdentityDoc (identity_file d a)) w in
    run_step o i fs (Answered d a) (snd x)
      match fst x with Err e => Done (Err e) | Ok _ => Done (Ok (GuestCreated (bo_identity_file o))) end [].

(** Runs begin at any time; a run that is never stepped again was killed. *)
Inductive runs_step : Files * list Run -> Files * list Run -> Prop :=
| runs_begin fs rs o i : runs_step (fs, rs) (fs, rs ++ [mkRun o i Start []])
| runs_advance fs rs n r fs' s l : rs !! n = Some r -> run_step (r_options r) (r_inputs r) fs (r_stage r) fs' s l ->
    runs_step (fs, rs) (fs', <[n := mkRun (r_options r) (r_inputs r) s (r_trace r ++ l)]> rs).
Inductive runs_reachable (fs0 : Files) : Files * list Run -> Prop :=
| rr_initial : runs_reachable fs0 (fs0, [])
| rr_step x y : runs_reachable fs0 x -> runs_step x y -> runs_reachable fs0 y.

(** ** The invariant *)
Definition r_path (r : Run) : string := bo_identity_file (r_options r).
Definition holds_marker (s : Stage) : bool := match s with Marked _ _ | Sent _ _ _ | Answered _ _ => true | _ => false end.
Definition created (s : Stage) : bool := match s with Done (Ok (GuestCreated _)) => true | _ => false end.
Definition usable (a : SdkAccount) : Prop :=
  safe_header (uid a) = true /\ safe_header (access_key a) = true /\ (id_token a = ""%string \/ safe_header (id_token a) = true) /\
  mid a <> Some ""%string.
(** The requests of a run, and of the runs with an identity file. *)
Definition sent_by (r : Run) : list SdkRequest := flat_map (fun x => match x with Request q => [q] | Answer _ => [] end) (r_trace r).
Definition sent_for (path : string) (rs : list Run) : list SdkRequest :=
  flat_map (fun r => if String.eqb (r_path r) path then sent_by r else []) rs.

(** A run's checks passed with [d] and [c]. *)
Definition passed (r : Run) (d : Device) (c : SdkClient) : Prop :=
  bootstrap_checks (r_options r) (r_inputs r) false false = Ok (Some (d, c)).
(** The run sent the login of its device and got an answer with the account [a]. *)
Definition logged_in (r : Run) (d : Device) (a : SdkAccount) : Prop :=
  exists c now_ms q answer, passed r d c /\ login_request_of c d now_ms = Some q /\ login_result c d now_ms answer = Ok a /\
    r_trace r = [Request q; Answer answer].

(** Where a run is. *)
Definition run_ok (fs : Files) (r : Run) : Prop :=
  match r_stage r with
  | Start => r_trace r = []
  | Ready d c | Marked d c => passed r d c /\ r_trace r = []
  | Sent d c now_ms => passed r d c /\ exists q, login_request_of c d now_ms = Some q /\ r_trace r = [Request q]
  | Answered d a => logged_in r d a
  | Done (Ok (GuestCreated _)) => exists d a, logged_in r d a /\ fs !! r_path r = Some (IdentityDoc (identity_file d a))
  | Done _ => (length (sent_by r) <= 1)%nat /\ (bo_create_sdk_guest (r_options r) = false -> r_trace r = [])
  end.

(** The run that made a path is the one that may have exchanged anything for it. *)
Record runs_ok (x : Files * list Run) : Prop := {
  ro_maker : exists maker : string -> option nat,
    (forall p, fst x !! p = None -> maker p = None) /\
    (forall n r, snd x !! n = Some r -> holds_marker (r_stage r) = true \/ r_trace r <> [] ->
       maker (attempt_marker (r_path r)) = Some n);
  ro_runs : forall n r, snd x !! n = Some r -> run_ok (fst x) r;
}.

Lemma bootstrap_checks_ok o i ie me d c : bootstrap_checks o i ie me = Ok (Some (d, c)) ->
  bootstrap_checks o i false false = Ok (Some (d, c)) /\ read_device (in_device i) = Ok d /\ device_validate d = Ok tt /\
  bo_create_sdk_guest o = true.
Proof.
  intros E. assert (ie = false /\ me = false) as [-> ->].
  { unfold bootstrap_checks in E. do 4 apply rbind_ok in E as (? & _ & E). apply rbind_ok in E as ([] & Hex%ensure_ok & E).
    by apply negb_true_iff, orb_false_iff in Hex. }
  split; [done|]. unfold bootstrap_checks in E. apply rbind_ok in E as (d' & Hr & E). apply rbind_ok in E as ([] & Hd & E).
  do 6 apply rbind_ok in E as (? & _ & E). destruct (bo_create_sdk_guest o); [|done]. cbn [negb] in E.
  destruct (secret _ _) as [key|]; [|done]. destruct (sdk_client_new _ _ _ _) as [c'|]; [|done]. by injection E as <- <-.
Qed.
Lemma passed_ok r d c : passed r d c -> device_validate d = Ok tt /\ bo_create_sdk_guest (r_options r) = true.
Proof. intros E. by apply bootstrap_checks_ok in E as (_ & _ & ? & ?). Qed.
Lemma login_ok c d now_ms : device_validate d = Ok tt -> exists q, login_request_of c d now_ms = Some q.
Proof. intros Hd. unfold login_request_of, tourist_login, sdk_login. rewrite Hd. by eexists. Qed.
Lemma login_usable c d now_ms answer a : login_result c d now_ms answer = Ok a -> usable a.
Proof.
  unfold login_result, tourist_login, sdk_login. destruct (device_validate d) as [[]|]; [|done]. cbn [fst]. intros E.
  apply rbind_ok in E as (body & _ & E). destruct (interpret_account _ _ _ E) as (H1 & H2 & H3 & H4 & _). repeat split; auto.
Qed.

(** ** Files are made once *)
Lemma write_private_keeps fs path value w p x : fs !! p = Some x -> snd (write_private fs path value w) !! p = Some x.
Proof.
  unfold write_private. intros Hp. destruct (fs !! path) eqn:E; [done|]. assert (path <> p) by congruence.
  destruct w; cbn [is_some snd]; [done|by rewrite lookup_insert_ne..].
Qed.
Lemma write_private_ok fs path value w fs' : write_private fs path value w = (Ok tt, fs') -> fs !! path = None /\ fs' = <[path := value]> fs.
Proof. unfold write_private. destruct (fs !! path); [done|]. destruct w; [done..|]. by intros [= <-]. Qed.
Lemma run_step_keeps o i fs s fs' s' l p x : run_step o i fs s fs' s' l -> fs !! p = Some x -> fs' !! p = Some x.
Proof. intros []; try done; apply write_private_keeps. Qed.
(** Only the run that makes the marker goes on to exchange anything. *)
Lemma run_step_maker o i fs s fs' s' l :
  run_step o i fs s fs' s' l -> holds_marker s' = true \/ l <> [] ->
  holds_marker s = true \/ (l = [] /\ fs !! attempt_marker (bo_identity_file o) = None /\ is_some (fs' !! attempt_marker (bo_identity_file o)) = true).
Proof.
  intros [fs0|fs0 d c at_ms w x|fs0 d c now_ms|fs0 d c now_ms answer|fs0 d a w x]; cbn [holds_marker]; try by left.
  - destruct (bootstrap_checks _ _ _ _) as [[[d c]|]|]; by intros [|].
  - destruct x as [[[]|e] fs1] eqn:E; cbn [fst snd holds_marker]; [|by intros [|]]. intros _. right. split; [done|].
    apply write_private_ok in E as [-> ->]. split; [done|]. by rewrite lookup_insert_eq.
Qed.

(** ** The invariant is kept *)
Lemma run_ok_keeps fs fs' r : (forall p x, fs !! p = Some x -> fs' !! p = Some x) -> run_ok fs r -> run_ok fs' r.
Proof. unfold run_ok. intros Hk. destruct (r_stage r) as [| | | | |[[]|]]; try done. intros (d & a & H1 & H2). exists d, a. auto. Qed.
Lemma run_step_ok r fs fs' s l :
  run_ok fs r -> run_step (r_options r) (r_inputs r) fs (r_stage r) fs' s l ->
  run_ok fs' (mkRun (r_options r) (r_inputs r) s (r_trace r ++ l)).
Proof.
  destruct r as [o i st tr]. unfold run_ok. cbn [r_options r_inputs r_stage r_trace]. intros Hr H.
  destruct H as [fs|fs d c at_ms w x|fs d c now_ms|fs d c now_ms answer|fs d a w x]; cbn [r_stage r_trace] in *.
  - subst tr. destruct (bootstrap_checks _ _ _ _) as [[[d c]|]|] eqn:E; [|by split; [cbn; lia|]..].
    by apply bootstrap_checks_ok in E as (E & _).
  - destruct Hr as [Hp ->]. cbn [app]. destruct (fst x); [done|by split; [cbn; lia|]].
  - destruct Hr as [Hp ->]. destruct (passed_ok _ _ _ Hp) as [Hd _]. destruct (login_ok c d now_ms Hd) as [q ->]. split; [done|]. by exists q.
  - destruct Hr as [Hp (q & Hq & ->)]. cbn [app]. destruct (login_result c d now_ms answer) as [a|e] eqn:E.
    + by exists c, now_ms, q, answer.
    + split; [cbn; lia|]. intros Hno. apply passed_ok in Hp as [_ Ho]. cbn in Ho, Hno. congruence.
  - rewrite app_nil_r. destruct x as [[[]|e] fs1] eqn:E; cbn [fst snd].
    + apply write_private_ok in E as [_ ->]. exists d, a. split; [done|]. apply lookup_insert_eq.
    + destruct Hr as (c & now_ms & q & answer & Hp & _ & _ & Ht). unfold sent_by. cbn [r_trace] in *. rewrite Ht. split; [cbn; lia|].
      intros Hno. apply passed_ok in Hp as [_ Ho]. cbn in Ho, Hno. congruence.
Qed.

Lemma runs_step_ok x y : runs_ok x -> runs_step x y -> runs_ok y.
Proof.
  intros [(maker & Hm1 & Hm2) Hruns] H. destruct H as [fs rs o i|fs rs n r fs' s l Hn H]; cbn [fst snd] in *.
  - split; cbn [fst snd].
    + exists maker. split; [done|]. intros n r Hn. apply lookup_snoc_Some in Hn as [[_ Hn]|[_ <-]]; [by apply Hm2|by intros [|]].
    + intros n r Hn. apply lookup_snoc_Some in Hn as [[_ Hn]|[_ <-]]; [by apply (Hruns n)|done].
  - assert (Hkeep : forall p x, fs !! p = Some x -> fs' !! p = Some x) by (intros p x; by eapply run_step_keeps).
    assert (Hnew : forall p, fs' !! p = None -> fs !! p = None) by (intros p Hp; destruct (fs !! p) eqn:E; [by rewrite (Hkeep _ _ E) in Hp|done]).
    split; cbn [fst snd].
    2: { intros m r' Hm. apply list_lookup_insert_Some in Hm as [(_ & <- & _)|[_ Hm]]; [by eapply run_step_ok, H; eauto|].
         eapply run_ok_keeps; [exact Hkeep|by apply (Hruns m)]. }
    destruct (decide ((holds_marker s = true \/ l <> []) /\ holds_marker (r_stage r) = false)) as [[Hs Hb]|Hold].
    + destruct (run_step_maker _ _ _ _ _ _ _ H Hs) as [Hc|(-> & Hno & Hyes)]; [congruence|].
      fold (r_path r) in Hno, Hyes. exists (fun p => if String.eqb p (attempt_marker (r_path r)) then Some n else maker p). split.
      * intros p Hp. destruct (String.eqb_spec p (attempt_marker (r_path r))) as [->|]; [by rewrite Hp in Hyes|auto].
      * intros m r' Hm. apply list_lookup_insert_Some in Hm as [(<- & <- & _)|[Hne Hm]].
        { intros _. unfold r_path. cbn [r_options]. by rewrite String.eqb_refl. }
        intros Hc. specialize (Hm2 m r' Hm Hc). destruct (String.eqb_spec (attempt_marker (r_path r')) (attempt_marker (r_path r))) as [E|]; [|done].
        rewrite E, (Hm1 _ Hno) in Hm2. done.
    + exists maker. split; [auto|]. intros m r' Hm. apply list_lookup_insert_Some in Hm as [(<- & <- & _)|[_ Hm]]; [|by apply Hm2].
      unfold r_path. cbn [r_options r_stage r_trace]. intros Hc. apply (Hm2 n r Hn).
      destruct (holds_marker (r_stage r)); [by left|right]. intros Htr. apply Hold. split; [|done].
      destruct Hc as [|Hc]; [by left|right]. by rewrite Htr in Hc.
Qed.
Lemma runs_reachable_ok fs0 x : runs_reachable fs0 x -> runs_ok x.
Proof.
  induction 1 as [|x y _ IH Hs]; [|by eapply runs_step_ok]. split; [|done]. exists (fun _ => None). done.
Qed.

(** A written file reads back, unless a value is blank, which the SDK may answer but an
    identity file may not hold. *)
Definition blank_free (a : SdkAccount) : Prop :=
  all_whitespace (uid a) = false /\ all_whitespace (access_key a) = false /\ (id_token a = ""%string \/ all_whitespace (id_token a) = false).
Lemma safe_header_value v : safe_header v = true -> all_whitespace v = false -> header_value v = true.
Proof.
  unfold safe_header, header_safe, header_value. intros H ->. rewrite !andb_true_iff in *. cbn [negb]. tauto.
Qed.
Lemma identity_file_parses (from_slice : list Z -> option IdentityFile) bytes d a al :
  from_slice bytes = Some (identity_file d a) -> device_validate d = Ok tt -> usable a -> blank_free a ->
  identity_parse from_slice bytes al = (Ok (mkIdentity a d []), al).
Proof.
  intros Hb Hd (H1 & H2 & H3 & H4) (B1 & B2 & B3). unfold identity_parse. rewrite Hb. cbn [rbind ok_or if_schema identity_file].
  rewrite Z.eqb_refl. cbn [ensure rbind identity_file if_device if_uid if_access_key if_id_token if_mid if_players]. rewrite Hd. cbn [as_config rbind].
  assert (Hu : identity_text (Some (JStr (uid a))) = Some (uid a)).
  { cbn. destruct (is_empty (uid a)) eqn:E; [|done]. unfold safe_header, header_safe in H1. by rewrite E in H1. }
  rewrite Hu. cbn [ok_or rbind]. cbn [uid access_key id_token].
  assert (Hm : identity_text (option_map JStr (mid a)) = mid a).
  { destruct (mid a) as [m|] eqn:E; [|done]. cbn. destruct (is_empty m) eqn:Em; [|done]. by destruct m. }
  rewrite Hm, !safe_header_value by done.
  assert (Ht : is_empty (id_token a) || header_value (id_token a) = true).
  { destruct H3 as [->|H3]; [done|]. destruct B3 as [->|B3]; [done|]. rewrite safe_header_value by done. by rewrite orb_true_r. }
  rewrite Ht. cbn. by destruct a.
Qed.

(** ** What it gives *)
Lemma run_ok_sent fs r : run_ok fs r -> (length (sent_by r) <= 1)%nat.
Proof.
  unfold run_ok, sent_by. destruct (r_stage r) as [|d c|d c|d c now_ms|d a|[[]|]].
  - intros ->. cbn. lia.
  - intros [_ ->]. cbn. lia.
  - intros [_ ->]. cbn. lia.
  - intros [_ (q & _ & ->)]. cbn. lia.
  - intros (c & n & q & w & _ & _ & _ & ->). cbn. lia.
  - by intros [].
  - intros (d & a & (c & n & q & w & _ & _ & _ & ->) & _). cbn. lia.
  - by intros [].
Qed.
Lemma run_ok_offline fs r :
  run_ok fs r -> bo_create_sdk_guest (r_options r) = false -> r_trace r = [] /\ holds_marker (r_stage r) = false /\ created (r_stage r) = false.
Proof.
  intros Hr Ho. assert (Hno : forall d c, ~ passed r d c) by (intros d c Hp; apply passed_ok in Hp as [_ Hp]; congruence).
  unfold run_ok in Hr. destruct (r_stage r) as [|d c|d c|d c now_ms|d a|[[]|]]; cbn [holds_marker created].
  - done.
  - by destruct (Hno d c (proj1 Hr)).
  - by destruct (Hno d c (proj1 Hr)).
  - by destruct (Hno d c (proj1 Hr)).
  - destruct Hr as (c & n & q & w & Hp & _). by destruct (Hno d c Hp).
  - by split; [apply Hr|].
  - destruct Hr as (d & a & (c & n & q & w & Hp & _) & _). by destruct (Hno d c Hp).
  - by split; [apply Hr|].
Qed.
Lemma created_logged_in fs r :
  run_ok fs r -> created (r_stage r) = true -> exists d a, logged_in r d a /\ fs !! r_path r = Some (IdentityDoc (identity_file d a)).
Proof. unfold run_ok. by destruct (r_stage r) as [| | | | |[[]|]]. Qed.

(** Only one run of a list sends anything. *)
Lemma sent_once path rs :
  (forall r, In r rs -> (length (sent_by r) <= 1)%nat) ->
  (forall n m r r', rs !! n = Some r -> rs !! m = Some r' -> r_path r = r_path r' -> sent_by r <> [] -> sent_by r' <> [] -> n = m) ->
  (length (sent_for path rs) <= 1)%nat.
Proof.
  intros H1 Hu. induction rs as [|r rs IH]; [cbn; lia|]. unfold sent_for. cbn [flat_map]. fold (sent_for path rs).
  assert (IH' : (length (sent_for path rs) <= 1)%nat).
  { apply IH; [intros r' Hr'; apply H1; by right|]. intros n m r1 r2 Hn Hm E S1 S2.
    pose proof (Hu (S n) (S m) r1 r2 Hn Hm E S1 S2) as E'. by injection E'. }
  destruct (String.eqb_spec (r_path r) path) as [Hp|]; [|done].
  destruct (sent_by r) as [|q l] eqn:Eq; [done|]. assert (sent_for path rs = []) as ->.
  { unfold sent_for. clear IH IH'.
    assert (Hall : forall r', In r' rs -> (if String.eqb (r_path r') path then sent_by r' else []) = []).
    { intros r' Hr'. destruct (String.eqb_spec (r_path r') path) as [E|]; [|done]. destruct (sent_by r') as [|q' l'] eqn:E'; [done|exfalso].
      apply list_elem_of_In, list_elem_of_lookup in Hr' as [m Hm].
      assert (O = S m) by (apply (Hu O (S m) r r'); [done|done|congruence|by rewrite Eq|by rewrite E']). done. }
    clear -Hall. induction rs as [|r' rs IH]; [done|]. cbn [flat_map]. rewrite Hall by by left. cbn [app]. apply IH. intros; apply Hall; by right. }
  rewrite app_nil_r. specialize (H1 r (or_introl eq_refl)). by rewrite Eq in H1.
Qed.

(** C37: However runs of the guest bootstrap interleave, fail and stop, whatever files there
    were: for one identity file at most one tourist.login is ever sent, and a run that
    was not told to create a guest exchanges nothing; at most one run reports a created
    guest in it, and that run's own device is valid, it sent the login of that device
    with the client of its options and got an answer that was accepted, and the identity
    file holds, complete, that device and the account of that answer, which identity
    loading reads back unless the SDK answered with a blank value. *)
Theorem guest_is_created_once identity_from_slice identity_to_vec fs0 fs rs :
  (forall d a, identity_from_slice (identity_to_vec (identity_file d a)) = Some (identity_file d a)) ->
  runs_reachable fs0 (fs, rs) ->
  (forall path, (length (sent_for path rs) <= 1)%nat) /\
  (forall r, In r rs -> bo_create_sdk_guest (r_options r) = false ->
     r_trace r = [] /\ holds_marker (r_stage r) = false /\ created (r_stage r) = false) /\
  (forall n m r r', rs !! n = Some r -> rs !! m = Some r' -> r_path r = r_path r' ->
     created (r_stage r) = true -> created (r_stage r') = true -> n = m) /\
  (forall r, In r rs -> created (r_stage r) = true -> exists d c now_ms q answer a,
     read_device (in_device (r_inputs r)) = Ok d /\ device_validate d = Ok tt /\ passed r d c /\
     login_request_of c d now_ms = Some q /\ login_result c d now_ms answer = Ok a /\ usable a /\
     r_trace r = [Request q; Answer answer] /\
     fs !! r_path r = Some (IdentityDoc (identity_file d a)) /\
     (blank_free a -> forall al, identity_parse identity_from_slice (identity_to_vec (identity_file d a)) al = (Ok (mkIdentity a d []), al))).
Proof.
  intros Hcodec Hr. destruct (runs_reachable_ok _ _ Hr) as [(maker & _ & Hm) Hruns]. cbn [fst snd] in *.
  assert (Hin : forall r, In r rs -> exists n, rs !! n = Some r) by (intros r H%list_elem_of_In; by apply list_elem_of_lookup).
  assert (Hsame : forall n m r r', rs !! n = Some r -> rs !! m = Some r' -> r_path r = r_path r' -> r_trace r <> [] -> r_trace r' <> [] -> n = m).
  { intros n m r r' Hn Hm' E T T'. pose proof (Hm n r Hn (or_intror T)) as M. pose proof (Hm m r' Hm' (or_intror T')) as M'.
    rewrite E in M. congruence. }
  assert (Htrace : forall r, sent_by r <> [] -> r_trace r <> []) by (intros r Hs E; apply Hs; unfold sent_by; by rewrite E).
  split; [|split; [|split]].
  - intros path. apply sent_once; [intros r [n Hn]%Hin; by eapply run_ok_sent, Hruns|]. intros n m r r' Hn Hm' E S S'. eauto.
  - intros r [n Hn]%Hin. by eapply run_ok_offline, Hruns.
  - intros n m r r' Hn Hm' E Cn Cm. eapply Hsame; [done..| |].
    + destruct (created_logged_in _ _ (Hruns n r Hn) Cn) as (d & a & (c & t & q & w & _ & _ & _ & ->) & _). done.
    + destruct (created_logged_in _ _ (Hruns m r' Hm') Cm) as (d & a & (c & t & q & w & _ & _ & _ & ->) & _). done.
  - intros r [n Hn]%Hin Cn. destruct (created_logged_in _ _ (Hruns n r Hn) Cn) as (d & a & (c & t & q & w & Hp & Hq & Ha & Ht) & Hf).
    destruct (passed_ok _ _ _ Hp) as [Hd _]. pose proof (login_usable _ _ _ _ _ Ha) as Hu.
    exists d, c, t, q, w, a. split; [by apply bootstrap_checks_ok in Hp as (_ & ? & _)|].
    do 7 (split; [done|]). intros Hblank al. by apply identity_file_parses.
Qed.
End bootstrap.
