(* ===== verification/BootstrapExamples.v ===== *)
(** Three runs of the bootstrap: one creates a guest, a second finds its marker, and a
    third with another identity file is told not to create one. *)
From Stdlib Require Import ZArith Lia Ascii String List Bool.
From stdpp Require Import base list strings decidable countable gmap.
From S2P Require Import Prelude BTree Errors Regions Http Environment SdkSession GlobalSdk GlobalIdentity Bootstrap.

Local Open Scope Z_scope.
Local Open Scope rust_scope.

Definition guest_device : Device := mkDevice "u" "m" "p" "d" "n" "5" "" "en" "UTC" "0" "um" "uo" "ui".
Definition guest_account : SdkAccount := {| uid := "7"; access_key := "key"; id_token := ""; mid := None |}.
Definition guest_options : BootstrapOptions :=
  mkBootstrap "identity.json" "https://l11-sdk-login-intl.biligame.net" "KEY" "1.0.3" true.
Definition guest_inputs : Inputs := mkInputs (Some (mkOpenFile (Some (true, 1, 384)) (Some [1]))) (Some (true, 448)).
Definition guest_answer : http_response := Build_http_response 200 [] None [Chunk [0]].
Definition guest_body (b : list Z) : option json :=
  Some (JObj [("code", JNum 0); ("data", JObj [("uid", JNum 7); ("access_key", JStr "key")])])%string.
Definition same_text (s : string) : string := s.
Definition any_version (s : string) : bool := true.
Definition guest_device_from (b : list Z) : option Device := Some guest_device.
Definition guest_env (name : string) : option string := Some "app-key"%string.

(** A codec of identity files: their strings, by [countable]. *)
Definition strings_of (f : IdentityFile) : list string :=
  let d := if_device f in
  [match if_uid f with JStr s => s | _ => ""%string end; if_access_key f; if_id_token f; udid d; model d; pf_ver d; dp d; net d; operators d; adid d; lang d;
   time_zone d; is_root d; unity_device_model d; unity_operating_system d; unity_device_id d].
Definition guest_to_vec (f : IdentityFile) : list Z :=
  [Zpos (encode (strings_of f, match if_mid f with Some (JStr m) => Some m | _ => None end))].
Definition guest_from_slice (b : list Z) : option IdentityFile :=
  match b with
  | [Zpos p] =>
      match decode (A := list string * option string) p with
      | Some ([u; k; t; d1; d2; d3; d4; d5; d6; d7; d8; d9; d10; d11; d12; d13], m) =>
          Some (mkIdentityFile IDENTITY_SCHEMA (JStr u) k t (option_map JStr m) (mkDevice d1 d2 d3 d4 d5 d6 d7 d8 d9 d10 d11 d12 d13) [])
      | _ => None
      end
  | _ => None
  end.
Lemma guest_codec d a : guest_from_slice (guest_to_vec (identity_file d a)) = Some (identity_file d a).
Proof.
  unfold guest_from_slice, guest_to_vec. rewrite decode_encode. unfold strings_of, identity_file. cbn [if_uid if_access_key if_id_token if_mid if_device].
  destruct d. by destruct (mid a).
Qed.

Notation guest_client := (mkSdkClient "https://l11-sdk-login-intl.biligame.net" "app-key" "1.0.3").
Definition offline_options : BootstrapOptions :=
  mkBootstrap "other.json" "https://l11-sdk-login-intl.biligame.net" "KEY" "1.0.3" false.
Notation guest_run s l := (mkRun guest_options guest_inputs s l).
Notation guest_request := (mkSdkRequest ("https://l11-sdk-login-intl.biligame.net" ++ TOURIST_LOGIN) SDK_HEADERS
  (form_encode (prepare same_text same_text guest_device "1.0.3" "app-key" 1 None))).
Notation guest_file := (identity_file guest_device guest_account).
Notation reach := (runs_reachable same_text same_text guest_body any_version guest_device_from guest_env ∅).
Notation step := (run_step same_text same_text guest_body any_version guest_device_from guest_env).
Notation advance := (runs_advance same_text same_text guest_body any_version guest_device_from guest_env).

Definition marked_files : gmap string Content :=
  <[attempt_marker "identity.json" := AttemptMarker "https://l11-sdk-login-intl.biligame.net" 5]> (∅ : gmap string Content).
Definition guest_files : gmap string Content := <["identity.json"%string := IdentityDoc guest_file]> marked_files.
Definition guest_trace : list exchange := [Request guest_request; Answer (Some guest_answer)].
Definition guest_created : Run := guest_run (Done (Ok (GuestCreated "identity.json"))) guest_trace.
Definition guest_refused : Run :=
  guest_run (Done (Err "the identity file or a previous attempt marker exists; inspect it, nothing was sent"%string)) [].
Definition planned : Run :=
  mkRun offline_options guest_inputs (Done (Ok (OfflinePlan "https://l11-sdk-login-intl.biligame.net"))) [].

(** A step of the run with number [n], whose result is computed. *)
Local Ltac moves fs rs n H :=
  eapply rr_step; [|refine (eq_rect _ (fun y => runs_step _ _ _ _ _ _ (fs, rs) y) (advance fs rs n _ _ _ _ eq_refl H) _ _); vm_compute; reflexivity].

Lemma guest_reached : reach (guest_files, [guest_created; guest_refused; planned]).
Proof.
  moves guest_files [guest_created; guest_refused; mkRun offline_options guest_inputs Start []] 2%nat
    (rs_check same_text same_text guest_body any_version guest_device_from guest_env offline_options guest_inputs guest_files).
  eapply rr_step; [|exact (runs_begin _ _ _ _ _ _ guest_files [guest_created; guest_refused] offline_options guest_inputs)].
  moves guest_files [guest_created; guest_run Start []] 1%nat
    (rs_check same_text same_text guest_body any_version guest_device_from guest_env guest_options guest_inputs guest_files).
  eapply rr_step; [|exact (runs_begin _ _ _ _ _ _ guest_files [guest_created] guest_options guest_inputs)].
  moves marked_files [guest_run (Answered guest_device guest_account) guest_trace] 0%nat
    (rs_write same_text same_text guest_body any_version guest_device_from guest_env guest_options guest_inputs marked_files guest_device guest_account Written).
  moves marked_files [guest_run (Sent guest_device (mkSdkClient "https://l11-sdk-login-intl.biligame.net" "app-key" "1.0.3") 1) [Request guest_request]] 0%nat
    (rs_answer same_text same_text guest_body any_version guest_device_from guest_env guest_options guest_inputs marked_files guest_device
      (mkSdkClient "https://l11-sdk-login-intl.biligame.net" "app-key" "1.0.3") 1 (Some guest_answer)).
  moves marked_files [guest_run (Marked guest_device (mkSdkClient "https://l11-sdk-login-intl.biligame.net" "app-key" "1.0.3")) []] 0%nat
    (rs_send same_text same_text guest_body any_version guest_device_from guest_env guest_options guest_inputs marked_files guest_device
      (mkSdkClient "https://l11-sdk-login-intl.biligame.net" "app-key" "1.0.3") 1).
  moves (∅ : gmap string Content) [guest_run (Ready guest_device (mkSdkClient "https://l11-sdk-login-intl.biligame.net" "app-key" "1.0.3")) []] 0%nat
    (rs_mark same_text same_text guest_body any_version guest_device_from guest_env guest_options guest_inputs ∅ guest_device
      (mkSdkClient "https://l11-sdk-login-intl.biligame.net" "app-key" "1.0.3") 5 Written).
  moves (∅ : gmap string Content) [guest_run Start []] 0%nat
    (rs_check same_text same_text guest_body any_version guest_device_from guest_env guest_options guest_inputs ∅).
  eapply rr_step; [apply rr_initial|exact (runs_begin _ _ _ _ _ _ _ [] guest_options guest_inputs)].
Qed.

Lemma guest_is_created_once_witness :
  (length (sent_for "identity.json" [guest_created; guest_refused; planned]) <= 1)%nat /\ r_trace planned = [] /\
  exists d a, guest_files !! "identity.json"%string = Some (IdentityDoc (identity_file d a)) /\
    forall al, identity_parse guest_from_slice (guest_to_vec (identity_file d a)) al = (Ok (mkIdentity a d []), al).
Proof.
  destruct (guest_is_created_once same_text same_text guest_body any_version guest_device_from guest_env guest_from_slice guest_to_vec ∅ guest_files
    [guest_created; guest_refused; planned] guest_codec guest_reached) as (H1 & H2 & _ & H4).
  split; [exact (H1 _)|]. split; [exact (proj1 (H2 planned (or_intror (or_intror (or_introl eq_refl))) eq_refl))|].
  destruct (H4 guest_created (or_introl eq_refl) eq_refl) as (d & c & t & q & answer & a & _ & _ & _ & _ & _ & _ & _ & Hf & Hp).
  exists d, a. split; [exact Hf|]. change (r_path guest_created) with "identity.json"%string in Hf.
  assert (E : IdentityDoc guest_file = IdentityDoc (identity_file d a)).
  { assert (Hg : guest_files !! "identity.json"%string = Some (IdentityDoc guest_file)) by reflexivity. congruence. }
  injection E as E1 E2 E3 E4 E5. apply Hp. unfold blank_free. rewrite <- E1, <- E2, <- E3. split; [reflexivity|]. split; [reflexivity|]. by left.
Defined.
