(* ===== verification/MasterWorkers.v ===== *)
(** The workers that publish installed Master data to Git and to a database
    ([master_git_worker.rs], [master_database_worker.rs]): their construction, a round
    of publication with what it reports, and the loop that the announcement of a
    snapshot wakes and the shutdown stops.

    The two loops differ in what they publish; they are one here, over the receipts
    and errors of a publication.  [Notify] is the library's, as in [RegistryOwner]. *)
From Stdlib Require Import ZArith Lia Ascii String List Bool.
From stdpp Require Import base list strings decidable.
From S2P Require Import Prelude BTree Errors Regions Http Environment MasterFiles MasterRegistry MasterHistory MasterChain MasterImport MasterService MasterSync MasterNotify MasterDatabase GitConfig MasterGit GitPublication GameConfig Deployment.

Local Open Scope Z_scope.
Local Open Scope rust_scope.

(** * Codes of errors *)
Definition git_error_code (e : GitError) : string :=
  match e with
  | CommitConfig => "commit_config"
  | Ownership => "ownership"
  | Locked => "locked"
  | GSnapshot => "snapshot"
  | RemoteConfig => "remote_config"
  | RemoteChanged => "remote_history"
  | GGit => "git_operation"
  | LayoutConfig => "layout_config"
  | AssetVersion => "asset_version_unavailable"
  | NotAdoptable => "not_adoptable"
  | TimeoutConfig => "timeout_config"
  end.
Definition database_error_code (e : DbError) : string :=
  match e with
  | DbNotFound => "not_found"
  | DbInvalidRequest => "invalid_request"
  | MasterDatabase.DbConfig => "configuration"
  | DbSecret => "secret_unavailable"
  | DbSnapshot => "snapshot"
  | DbDatabase => "database_operation"
  | DbTimeout => "timeout"
  | DbIntegrity => "integrity"
  end.
Lemma error_codes_distinct : (forall e e', git_error_code e = git_error_code e' -> e = e') /\ (forall e e', database_error_code e = database_error_code e' -> e = e').
Proof. split; intros [] []; done. Qed.

(** * Construction *)
Section construction.
Context (config_validate : GameConfig -> result AppError unit) (validate_tokens : list GameConfig -> result AppError unit).

Definition git_worker_new (c : GameConfig) : result AppError (GitWorkerConfig * string * Scope) :=
  _ <-? config_validate c;;
  _ <-? validate_tokens [c];;
  config <-? ok_or (gc_master_git c) (Errors.Config "Master Git is not configured");;
  source <-? ok_or (gc_master_directory c) (Errors.Config "Master directory is required");;
  Ok (config, source, config_scope c).
Definition database_worker_new (c : GameConfig) : result AppError (DbWorkerConfig * string * Scope) :=
  _ <-? config_validate c;;
  _ <-? validate_tokens [c];;
  config <-? ok_or (gc_master_database c) (Errors.Config "Master database is not configured");;
  source <-? ok_or (gc_master_directory c) (Errors.Config "Master directory is required");;
  Ok (config, source, config_scope c).
End construction.

(** What a round of the Git worker publishes: to the remote, or locally. *)
Section git_round.
Context `{MasterCodecs} `{!Git} (env : string -> option string) (url_parse : string -> option Url) (to_file_path : Url -> bool)
  (io : string -> bool) (pretty : json -> option (list Z)) (json_text : string -> string) (directory staging : string).

Definition git_round (c : GitWorkerConfig) (v : view) (dest : destination) (scope : Scope) (w : world) : result GitError GitReceipt * destination * world :=
  match gw_remote c with
  | Some remote => publish_with_options env url_parse to_file_path io pretty json_text directory staging v dest scope remote (gw_commit c) (git_options c) w
  | None => commit_with_options io pretty json_text directory staging v dest scope (gw_commit c) (git_options c) w
  end.
End git_round.

(** * Rounds and the loop *)
Section loop.
Context {Receipt Error : Type} (code : Error -> string).

Inductive Report : Type :=
| RepRunning (last_success : option Receipt)
| RepReady (checked_at : Z) (last_success : Receipt)
| RepFailed (checked_at : Z) (error_code : string) (last_success : option Receipt)
| RepStopped (last_success : option Receipt).
Definition reported (r : Report) : option Receipt :=
  match r with RepRunning l | RepFailed _ _ l | RepStopped l => l | RepReady _ x => Some x end.

(** [update_once]: the last success and the report after a round. *)
Definition update_once (now : Z) (last : option Receipt) (published : result Error Receipt) : option Receipt * Report :=
  match published with
  | Ok receipt => (Some receipt, RepReady now receipt)
  | Err e => (last, RepFailed now (code e) last)
  end.

Inductive worker_phase : Type := Checking | Updating (announced : nat) | Waiting | Stopped.
(** The loop's state, its reports in the game's state, and for the specification: how
    many snapshots were announced, how many of them before the start of the last whole
    round, and the results of the whole rounds. *)
Record loop : Type := mkLoop {
  at_phase : worker_phase;
  stop : bool;
  permit : bool;
  last_success : option Receipt;
  status : option Report;
  announced : nat;
  covered : nat;
  results : list (result Error Receipt);
}.
Definition loop_initial : loop := mkLoop Checking false false None None 0 0 [].
Definition loop_stop (l : loop) : loop :=
  mkLoop Stopped (stop l) (permit l) (last_success l) (Some (RepStopped (last_success l))) (announced l) (covered l) (results l).
Definition loop_begin (l : loop) : loop :=
  mkLoop (Updating (announced l)) (stop l) (permit l) (last_success l) (Some (RepRunning (last_success l))) (announced l) (covered l) (results l).
Definition loop_finish (now : Z) (published : result Error Receipt) (k : nat) (l : loop) : loop :=
  let '(last, report) := update_once now (last_success l) published in
  mkLoop Waiting (stop l) (permit l) last (Some report) (announced l) k (results l ++ [published]).
Definition loop_again (permit : bool) (l : loop) : loop :=
  mkLoop Checking (stop l) permit (last_success l) (status l) (announced l) (covered l) (results l).

(** Snapshots are announced and the shutdown is asked for at any time; a round that the
    shutdown interrupts leaves the last success alone. *)
Inductive loop_step : loop -> loop -> Prop :=
| ls_announce l : loop_step l (mkLoop (at_phase l) (stop l) true (last_success l) (status l) (S (announced l)) (covered l) (results l))
| ls_shutdown l : loop_step l (mkLoop (at_phase l) true (permit l) (last_success l) (status l) (announced l) (covered l) (results l))
| ls_leave l : at_phase l = Checking -> stop l = true -> loop_step l (loop_stop l)
| ls_begin l : at_phase l = Checking -> stop l = false -> loop_step l (loop_begin l)
| ls_interrupt l k : at_phase l = Updating k -> stop l = true -> loop_step l (loop_stop l)
| ls_finish l k now published : at_phase l = Updating k -> loop_step l (loop_finish now published k l)
| ls_stop l : at_phase l = Waiting -> stop l = true -> loop_step l (loop_stop l)
| ls_wake l : at_phase l = Waiting -> permit l = true -> loop_step l (loop_again false l)
| ls_interval l : at_phase l = Waiting -> loop_step l (loop_again (permit l) l).
Inductive loop_reachable : loop -> Prop :=
| lr_initial : loop_reachable loop_initial
| lr_step l l' : loop_reachable l -> loop_step l l' -> loop_reachable l'.

Definition last_ok (rs : list (result Error Receipt)) : option Receipt :=
  fold_left (fun last r => match r with Ok x => Some x | Err _ => last end) rs None.

(** An announcement that no whole round covers has left a notification, or a round that
    covers it is running or about to begin. *)
Record loop_ok (l : loop) : Prop := {
  lo_served : match at_phase l with
              | Updating k => permit l = true \/ k = announced l
              | Waiting => permit l = true \/ covered l = announced l
              | Checking | Stopped => True
              end;
  lo_last : last_success l = last_ok (results l);
  lo_status : forall r, status l = Some r -> reported r = last_success l;
  lo_stopped : at_phase l = Stopped -> stop l = true /\ exists r, status l = Some (RepStopped r);
}.
Lemma last_ok_app rs r : last_ok (rs ++ [r]) = match r with Ok x => Some x | Err _ => last_ok rs end.
Proof. unfold last_ok. by rewrite fold_left_app. Qed.
Lemma loop_stop_ok l : loop_ok l -> stop l = true -> loop_ok (loop_stop l).
Proof. intros [H1 H2 H3 H4] Hs. constructor; cbn; [done|done|by intros r [= <-]|eauto]. Qed.
Lemma loop_step_ok l l' : loop_ok l -> loop_step l l' -> loop_ok l'.
Proof.
  intros Hok Hs. pose proof Hok as [H1 H2 H3 H4].
  destruct Hs as [l|l|l Hp Hs|l Hp Hs|l k Hp Hs|l k now published Hp|l Hp Hs|l Hp Hn|l Hp].
  - constructor; cbn; [destruct (at_phase l); auto|done|done|done].
  - constructor; cbn; [done|done|done|]. intros Hp. destruct (H4 Hp) as [_ Hr]. done.
  - by apply loop_stop_ok.
  - constructor; cbn; [by right|done|by intros r [= <-]|done].
  - by apply loop_stop_ok.
  - rewrite Hp in H1. unfold loop_finish, update_once.
    destruct published; constructor; cbn -[last_ok]; rewrite ?last_ok_app; auto; try done; try (intros r [= <-]; done).
  - by apply loop_stop_ok.
  - constructor; cbn; [done|done|done|done].
  - constructor; cbn; [done|done|done|done].
Qed.

(** In every interleaving of announcements and shutdown with a worker's loop, no
    announced snapshot is missed: when the loop waits and no notification is pending, a
    whole round began after the last announcement.  The status always reports as last
    success the receipt of the last round that succeeded, failures in between or not,
    and a loop that ended was asked to and reported so. *)
Theorem announcements_are_not_missed l : loop_reachable l ->
  (at_phase l = Waiting -> permit l = false -> covered l = announced l) /\
  (forall r, status l = Some r -> reported r = last_ok (results l)) /\
  (at_phase l = Stopped -> stop l = true /\ status l = Some (RepStopped (last_ok (results l)))).
Proof.
  intros Hr. assert (Hok : loop_ok l).
  { induction Hr as [|l l' _ IH Hs]; [by constructor|by eapply loop_step_ok]. }
  destruct Hok as [H1 H2 H3 H4]. rewrite <- H2. split; [|split; [done|]].
  - intros Hp Hn. rewrite Hp, Hn in H1. by destruct H1.
  - intros Hp. destruct (H4 Hp) as [Hs [r Hst]]. split; [done|]. rewrite Hst. f_equal. f_equal. exact (H3 _ Hst).
Qed.
End loop.
Arguments loop : clear implicits.
Arguments loop_initial {_ _}.

(** A snapshot announced during a round that fails: the next round begins at once, and
    the status keeps the earlier receipt. *)
Lemma announcements_are_not_missed_witness :
  let l1 : loop nat DbError := loop_finish database_error_code 1 (Ok 7%nat) 0 (loop_begin loop_initial) in
  let l2 := loop_begin (loop_again (permit l1) l1) in
  let l3 := mkLoop (at_phase l2) (stop l2) true (last_success l2) (status l2) (S (announced l2)) (covered l2) (results l2) in
  let l4 := loop_finish database_error_code 2 (Err DbTimeout) 0 l3 in
  let l5 := loop_begin (loop_again false l4) in
  let l6 := loop_finish database_error_code 3 (Err DbSecret) 1 l5 in
  covered l6 = announced l6 /\ status l6 = Some (RepFailed 3 "secret_unavailable" (Some 7%nat)) /\ last_ok (results l6) = Some 7%nat.
Proof.
  intros l1 l2 l3 l4 l5 l6. assert (Hr : loop_reachable database_error_code l6).
  { eapply lr_step; [|apply (ls_finish _ l5 1 3 (Err DbSecret)); reflexivity].
    eapply lr_step; [|apply (ls_begin _ (loop_again false l4)); reflexivity].
    eapply lr_step; [|apply (ls_wake _ l4); reflexivity].
    eapply lr_step; [|apply (ls_finish _ l3 0 2 (Err DbTimeout)); reflexivity].
    eapply lr_step; [|apply (ls_announce _ l2)].
    eapply lr_step; [|apply (ls_begin _ (loop_again (permit l1) l1)); reflexivity].
    eapply lr_step; [|apply (ls_interval _ l1); reflexivity].
    eapply lr_step; [|apply (ls_finish _ (loop_begin loop_initial) 0 1 (Ok 7%nat)); reflexivity].
    eapply lr_step; [|apply (ls_begin _ loop_initial); reflexivity]. apply lr_initial. }
  destruct (announcements_are_not_missed database_error_code l6 Hr) as (H1 & _). split; [by apply H1|]. split; reflexivity.
Defined.
